(* ===== verification/_CoqProject ===== *)
-Q . S2P
Prelude.v
GoStrings.v
Utf8.v
Paths.v
CJson.v
Id.v
Events.v
Leases.v
Runs.v
RunLogs.v
Jobs.v
JobArtifacts.v
Broker.v
Diag.v
Nodes.v
ShellQuote.v
SourceConfig.v
Spaces.v
Merge.v
Downloads.v
DownloadRuns.v
StoragePlan.v
ArtifactIdentity.v
Resources.v
Recipe.v
RecipeValidate.v
Inventory.v
DownloadPlan.v
DownloadPlanInv.v
AgentFiles.v
AgentAcquire.v
AgentAcquireInv.v
AgentFetch.v
AgentFetchInv.v
AgentTransfer.v
AgentTransferInv.v
AgentTransferCopy.v
ContainerRuntime.v
DockerRuntime.v
Fabric.v
UpstreamEnv.v
DeployState.v
Deploy.v
AgentLogs.v
AgentWorkload.v
AgentMonitor.v
DeployInv.v
DeployStop.v
DeployObs.v
PlanPlace.v
PlanUpstream.v
Plan.v
UpdateRun.v
UpdateInv.v
UpdatePlan.v
WorkerSSH.v
LaunchSettings.v
