(* ===== verification/Prelude.v ===== *)
(** * Local Model Works: a verification development

    Local Model Works runs models on a few machines.  A coordinator (Go, [internal/]) keeps a SQLite
    ledger of runs, leases, events, artifacts and downloads, talks to one agent per device, and edits
    pinned upstream recipe sources.  An agent ([internal/agent]) fetches models, exchanges them with
    other agents, and runs containers.  This development models the core of both as executable
    definitions, translated function by function, and proves what makes each part correct.

    ** The parts and the files that model them

    - [Prelude]: results, the state-and-error monad [ST] (the state survives an error return, as in
      Go; [transact] rolls back), 64-bit wrap-around, Go's [seen] idiom, sorting, tactics.
    - [GoStrings], [Utf8], [Paths]: the parts of Go's [strings], [unicode/utf8] and [path/filepath]
      that the code uses, with the facts the other files share.
    - [CJson] ([cjson/cjson.go]): the canonical JSON encoder.
    - [Id] ([id/id.go]): identifiers from clock and random bytes.
    - [Events] ([events/bus.go]): the event log and its subscribers, as a step relation over
      publishers, subscribers, the replay and the channels.
    - [Leases] ([runs/service.go], [runs/upstream_leases.go]): which resources exclude each other, and
      the lease table.
    - [Runs] ([runs/service.go]): the run ledger and its state graph, over the leases.
    - [RunLogs] ([runs/service.go]): log paths, cursor reads, end markers.
    - [Jobs] ([jobs/jobs.go]): the job registry and the goroutine of a job, over the ledger, as a step
      relation in which submissions, cancellations and goroutines interleave.
    - [JobArtifacts] ([jobs/jobs.go]): publishing a file of a job's workspace.
    - [Broker] ([commands/broker.go]): command results awaited and replayed.
    - [Diag] ([diag/diag.go]): lists of findings.
    - [Nodes] ([nodes/nodes.go]): agent sessions.
    - [ShellQuote], [SourceConfig] ([sourceconfig/config.go]): encoding values into shell text, and
      byte-bound edits of pinned sources.
    - [Spaces]: [strings.TrimSpace] and [strings.Fields].
    - [Merge] ([sourceconfig/merge.go]): the three-way merge of local and upstream changes.
    - [Downloads] ([downloads/execution.go], [downloads/peer.go], [db/downloads.sql.go],
      [migrations/021_download_items.sql]): download items, destination locks, one acquisition and its
      cancellation.
    - [DownloadRuns] ([downloads/execution.go], [downloads/service.go]): the run a download belongs to:
      its cancellation, the reconciliation after a restart or a reconnect, replies nobody waits for.
    - [StoragePlan] ([downloads/planning.go]): the storage estimate of a plan.
    - [ArtifactIdentity] ([artifactidentity/identity.go]): canonical identities.
    - [Resources] ([downloads/types.go]): the resources of a download and the answers of devices,
      with their validation; [DownloadPlan] ([downloads/planning.go], [downloads/service.go]): the
      resources of a launch, what the devices say of them, and the plan of what is to be fetched from
      where; [DownloadPlanInv] proves its theorems.
    - [AgentFiles], [AgentAcquire] ([agent/acquisition.go], [agent/download.go], [agent/transfer.go],
      [agent/artifact.go]): the paths an agent may write, and its acquisitions: commands, checkpoints,
      cancellation and restarts as a step relation; [AgentAcquireInv] proves its theorems.
    - [AgentFetch], [AgentFetchInv] ([agent/artifact.go], [agent/download_source.go]): the fetch of a
      model snapshot or a file: resumed downloads, blobs, links and the record of completion.
    - [AgentTransfer] ([agent/transfer.go], [agent/transfer_checkpoint.go],
      [agent/transfer_publish.go], [agent/resource_manifest.go]): transfers between agents, the serving
      and the pulling side; [AgentTransferInv] proves what each side guarantees and
      [AgentTransferCopy] composes them.
    - [ContainerRuntime] ([runtime/runtime.go]): what a workload runs, the labels of its containers,
      and the interface [Runtime] of an engine with the laws [RuntimeLaws] its clients use;
      [DockerRuntime] ([runtime/docker.go]) implements it over the Docker Engine, a parameter with the
      laws [DaemonLaws], and has a small engine for the witnesses.
    - [AgentLogs], [AgentWorkload] ([agent/logs.go], [agent/workload.go],
      [agent/acquisition_workload.go], [server/agent.go]): the logs of workloads on the device and at
      the coordinator, the commands on containers, and the monitor; [AgentMonitor] follows its reports.
      They use the messages of [Deploy].
    - [Recipe] ([recipe/recipe.go]): the manifest, its templates, settings, variants and permissions;
      [RecipeValidate] ([recipe/validate.go]): every semantic rule of the validator, in its order.
    - [Fabric] ([fabric/service.go]): fabrics over the nodes' inventories.
    - [UpstreamEnv] ([runtime/upstream_env.go]): overrides in a retained environment file.
    - [DeployState], [Deploy] ([deploy/service.go], [deploy/acquisition.go], [deploy/plan.go]): the
      deployment service: its rows, the gate and the dispatch phase of each rank, command results,
      observations, stop, start, delete.  It calls [Runs] (a deployment's run and leases), [Recipe] (the
      selected workload) and [Diag].  [DeployInv], [DeployStop] and [DeployObs] prove its theorems.
    - [Inventory] ([inventory/inventory.go]): what an agent reports, and the address of a node.
    - [PlanPlace], [PlanUpstream], [Plan] ([deploy/service.go], [deploy/plan.go], [deploy/upstream.go],
      [deploy/acquisition.go]): the planner: the variant, the candidates of each rank, accelerators,
      placement, fabric, ports and conflicts; the previews of upstream sources; the plan as a whole,
      its readiness, and the deployment created from it, which is the start of [Deploy]'s life cycle.
    - [UpdateRun], [UpdateInv], [UpdatePlan] ([deploy/update.go]): the replacement of deployments by a
      saved version: the coordinator as steps that interleave with the deployment service, its theorems,
      and the plan it executes.
    - [WorkerSSH] ([deploy/worker_ssh.go]): the addresses of a worker, the question to the head, and the
      preflight [Plan] takes as an argument.
    - [LaunchSettings] ([deploy/launch_profile.go], [deploy/device_settings.go],
      [deploy/cache_settings.go]): the settings [Plan] takes as an argument: device facts, effective
      values, and the store of saved profiles.

    A database table is a list in insertion order or a finite map on its key; one SQL statement, with
    the checks and triggers of its table, is one atomic step; a Go function is a sequence of such
    steps, and where goroutines matter the steps interleave ([Deploy] runs a handler to its end and lets
    only the gates give way).  Error values are kept as constructors and their messages dropped, unless
    the code stores them.  Definitions have the names of the code where the language allows it.

    ** What the theorems show

    - The ledger: runs follow the state graph, terminal rows are frozen and time stamps agree with the
      state, after any sequence of operations ([run_lifecycle]); active leases stay exclusive
      ([ledger_leases_exclusive]), are granted all or none ([AcquireLeases_spec]) by a conflict test
      that decides the abstract relation ([ResourcesConflict_spec]); what [Complete], [MarkInterrupted]
      and [List] do on every branch.
    - Jobs: in every interleaving a lease belongs to a live goroutine ([job_leases_owned]), and an
      undisturbed job ends in the state it earned ([job_completes]).
    - Messages: events reach subscribers at least once within the stated window
      ([bus_at_least_once]); results reach every waiter and never block the broker ([broker_delivers],
      [broker_window]); a node has one live session ([registry_sessions]).
    - Files and names: log and artifact paths stay inside their root and do not collide
      ([LogPath_contained], [LogPath_injective], [publish_contained], [SafePath_contained]); log reads
      lose and repeat nothing ([log_streaming]), and the log at the coordinator is the one on the device
      ([log_mirrored]); canonical JSON and artifact identities are canonical
      ([encode_canonical], [Canonical_roundtrip]); identifiers sort by time within their window
      ([New_ordered]).
    - Source edits: every encoding is read back by the shell as the value ([scalar_roundtrip],
      [quoteArgv_roundtrip]); resolved edits apply, and apply as independent splices
      ([Resolve_applies], [Apply_spec]); a merge keeps every local change and is symmetric on
      independent ones ([merge_keeps_local], [merge_symmetric]).
    - Downloads: items follow their graph and keep their attempt ids ([items_lifecycle]); a destination
      changes hands only through quiescence ([destination_quiesced_first]); an acquisition ends in one
      of four states ([acquireItem_outcome]); a cancelled download lands however its devices answer
      ([cancel_lands]) and a restart settles exactly what was left open ([Reconcile_spec]); capacity
      checks are exact ([storage_short_exact], [storagePlan_exact]).  A plan that is ready names a
      source for everything missing ([ready_download_plan]), a run that requires existing files found
      them ([existing_resources_verified]), and an identity pins its source ([identity_pins_source]).
    - Agents: no two acquisitions write to overlapping trees ([acquisitions_exclusive]) and a
      cancelled one stays so ([cancellation_final]); a completed snapshot has the files of its manifest
      ([snapshot_complete]) and a fetch recovers from what earlier ones left ([fetch_heals]); a pull
      publishes only what was signed and verified ([pull_publishes_signed]), the record of completion
      last ([completion_last]), and between two agents it copies a tree ([transfer_copies]).
    - Containers: a command acts on the containers of its own workload only ([workload_contained]); a
      stop the coordinator accepts has stopped the container ([stop_confirmed]); the reports of the
      monitor say what the engine listed ([monitor_current]).
    - Recipes: the validator accepts exactly the launchable manifests ([Validate_launchable]); then
      artifacts resolve to pinned sources ([launchable_sources]), effective settings are well typed
      ([effective_settings_valid]) and every template of the workload renders ([launchable_renders]);
      what rendering, settings and variant selection compute ([Render_spec], [EffectiveSettings_spec],
      [SelectWorkload_spec]).
    - Deployments: over every interleaving of handlers, gates and restarts a deployment reported stopped
      is stopped on every rank and holds nothing ([stopped_holds_nothing]), launch commands are sent only
      for the current run of a deployment that is to run ([launch_authorised]) and in the start order of
      the workload ([starts_in_order]); a stop lands whatever the order of the answers ([stop_lands]);
      the reported state is characterised ([aggregate_spec]).
    - Plans: every placed rank has an online node with free accelerators that fit ([place_sound]),
      automatic placement is optimal for its order ([automatic_optimal]), a ready plan is complete and
      free of conflicts ([ready_plan_complete]), and creating it gives the deployment it announced
      ([Create_ready]); its SSH targets were reached from the head ([ready_plan_reaches_workers]).
    - Settings: what a launch runs with is what was supplied, completed from devices and defaults
      ([resolved_settings]); saved profiles stay valid and pinned ([profiles_kept]), so a launch from one
      fails only because of its devices ([saved_profile_resolves]).
    - Updates: a finished update replaced everything in order or took it back in reverse
      ([update_outcome]); interleaved with the service it keeps leases exclusive ([update_safe]) and ends
      ([update_terminates]); replacements keep ranks, nodes and accelerators ([replacement_preserves]).
    - Fabrics and environment files: [Validate] of a fabric decides a declarative specification
      ([Validate_spec]), stored fabrics stay well formed ([fabrics_well_formed]); overrides are applied,
      restored and refused on drift ([env_applies], [env_restores], [env_drift]).
    - Behaviour that differs from what a comment promises or the code intends is stated as a theorem
      too, for example [success_after_cancel_sticks], [interrupted_runs_keep_leases], [SetState_race],
      [broker_redelivery_lost], [cancel_dispatch_race], [New_wraps], [storagePlan_overflow],
      [empty_predicate_shadows], [restart_wakeup_lost], [stale_stop_ends_restart],
      [failed_rank_frees_running_one], [coordinator_trusts_old_run], [rollback_reports_untouched],
      [restart_forgets_rollback], [cancel_after_last_check], [corrupt_file_stuck], [empty_file_unused],
      [unreachable_engine_confirms_stop], [reconnect_keeps_dead_tailer], [recreated_container_wedges],
      [overlapping_rounds_stale].

    ** Bounds and fuel

    Recursion is structural except where fuel is given: [itoa] loops over a 20-byte buffer, and 20
    digits hold every [int64]; [walk_links] follows 255 links, the limit of Go's [EvalSymlinks];
    [pull_chunks] takes the number of missing bytes, since every chunk brings one; [replay] takes the
    length of the file; [replace_all] the length of the text.  A job takes six goroutine steps.  Channel capacities (1024 for a subscriber, 64
    for a session), the replay limit of 500 events, the broker's window of 1024 results, the log chunk of
    2^20 bytes, the outbox of 256 messages, the line limit of 2^20 bytes, five attempts at a download, the
    page limit of 200 runs, 16 MiB of source, 4096 hunks and the 5 GiB storage reserve are
    the code's own constants.

    ** What is not modelled

    HTTP and gRPC transport, TLS, processes of upstream repositories, cryptography, hardware probes,
    timers, generated code, and the user interface.  Code outside the repository is a parameter: the
    digest functions, signatures, JSON schema validation, JSON decoding, [git diff], the Docker Engine
    API, the printing and parsing of floats and URLs.  Of the deployment service, the rendering of
    container specifications, artifact transfers and the verify probe are not modelled; what its
    handlers learn from them is an argument ([Env], [LaunchPlan]).  Updates that only install packages
    on devices, and update runs from before saved versions, are not modelled.  The SSH client on the
    head is an argument of [WorkerSSH].  Of the agent, the inspection of resources, image pulls with
    progress, recipe packages, the scan of the caches, the certificate of the node and the session loop
    are not modelled; an inspection is an argument where a handler needs one.  The laws of a runtime are
    those of the Docker runtime; the wrapper for upstream repositories ([runtime/upstream.go]) is
    not modelled.  Recipe packages and the recipe
    builder are archives, sessions and model calls, with little logic of their own. *)

From Stdlib Require Export Ascii.
From stdpp Require Export base option list list_numbers gmap fin_maps strings sorting relations.
From Stdlib Require Export ZArith Lia.

Declare Scope lmw_scope.
Delimit Scope lmw_scope with lmw.
Open Scope lmw_scope.

#[global] Arguments String.append !_ _ / : simpl nomatch, assert.

(** ** Results: a Go function that returns [(T, error)] *)

Inductive result (E A : Type) : Type :=
| Ok (a : A)
| Err (e : E).
Arguments Ok {E A} a.
Arguments Err {E A} e.

#[export] Instance result_ret E : MRet (result E) := λ A a, Ok a.
#[export] Instance result_bind E : MBind (result E) :=
  λ A B f m, match m with Ok a => f a | Err e => Err e end.

Definition is_ok {E A} (r : result E A) : bool :=
  match r with Ok _ => true | Err _ => false end.

#[export] Instance result_eq_dec `{EqDecision E, EqDecision A} : EqDecision (result E A).
Proof. solve_decision. Defined.

(** ** Stateful Go code: a state that survives the error return *)

Definition ST (S E A : Type) : Type := S → result E A * S.

#[export] Instance ST_ret S E : MRet (ST S E) := λ A a s, (Ok a, s).
#[export] Instance ST_bind S E : MBind (ST S E) :=
  λ A B f m s, match m s with
               | (Ok a, s') => f a s'
               | (Err e, s') => (Err e, s')
               end.

Definition get {S E} : ST S E S := λ s, (Ok s, s).
Definition put {S E} (s' : S) : ST S E unit := λ _, (Ok tt, s').
Definition modify {S E} (f : S → S) : ST S E unit := λ s, (Ok tt, f s).
Definition throw {S E A} (e : E) : ST S E A := λ s, (Err e, s).

(** [_ = call(...)]: the error is dropped, the effects are kept. *)
Definition ignore_err {S E A} (m : ST S E A) : ST S E unit := λ s, (Ok tt, snd (m s)).

(** [for _, x := range xs { if err := f(x); err != nil { return err } }] *)
Fixpoint forM {S E A} (f : A → ST S E unit) (xs : list A) : ST S E unit :=
  match xs with
  | [] => mret tt
  | x :: xs => _ ← f x; forM f xs
  end.

(** A transaction: on error every write of [m] is rolled back. *)
Definition transact {S E A} (m : ST S E A) : ST S E A := λ s,
  match m s with
  | (Ok a, s') => (Ok a, s')
  | (Err e, _) => (Err e, s)
  end.

(** ** Machine integers *)

Open Scope Z_scope.

Definition wrap_signed (w : Z) (z : Z) : Z := (z + 2 ^ (w - 1)) mod 2 ^ w - 2 ^ (w - 1).
Definition wrap64 : Z → Z := wrap_signed 64.
Definition max_int64 : Z := 2 ^ 63 - 1.
Definition in_int64 (z : Z) : Prop := - 2 ^ 63 ≤ z ≤ max_int64.

Lemma wrap64_id z : in_int64 z → wrap64 z = z.
Proof.
  unfold in_int64, wrap64, wrap_signed, max_int64. change (64 - 1) with 63.
  intros H. rewrite Z.mod_small; lia.
Qed.

Close Scope Z_scope.

(** ** Go's [seen] map idiom: keep the first occurrence of every value *)

Section dedup.
Context {A : Type} `{EqDecision A}.

Fixpoint dedup_go (seen : list A) (xs : list A) : list A :=
  match xs with
  | [] => []
  | x :: xs => if decide (x ∈ seen) then dedup_go seen xs else x :: dedup_go (x :: seen) xs
  end.

Definition dedup (xs : list A) : list A := dedup_go [] xs.

Lemma elem_of_dedup_go seen xs x : x ∈ dedup_go seen xs ↔ x ∈ xs ∧ x ∉ seen.
Proof.
  revert seen. induction xs as [|y xs IH]; intros seen; simpl; [set_solver|].
  case_decide as Hy.
  - rewrite IH, elem_of_cons. naive_solver.
  - rewrite !elem_of_cons, IH, elem_of_cons.
    destruct (decide (x = y)) as [->|]; naive_solver.
Qed.

Lemma elem_of_dedup xs x : x ∈ dedup xs ↔ x ∈ xs.
Proof. unfold dedup. rewrite elem_of_dedup_go. set_solver. Qed.

Lemma NoDup_dedup_go seen xs : NoDup (dedup_go seen xs).
Proof.
  revert seen. induction xs as [|y xs IH]; intros seen; simpl; [constructor|].
  case_decide; [done|]. constructor; [|done].
  rewrite elem_of_dedup_go. set_solver.
Qed.

Lemma NoDup_dedup xs : NoDup (dedup xs).
Proof. apply NoDup_dedup_go. Qed.
End dedup.

(** The element between two halves of a list, apart from the rest. *)
Lemma elem_of_middle {A} (x y : A) l1 l2 : x ∈ l1 ++ y :: l2 ↔ x = y ∨ x ∈ l1 ++ l2.
Proof. set_solver. Qed.

Lemma filter_all {A} (P : A → Prop) `{∀ x, Decision (P x)} (l : list A) : (∀ x, x ∈ l → P x) → filter P l = l.
Proof.
  induction l as [|x l IH]; intros Hl; [done|]. rewrite filter_cons, decide_True, IH; [done| |]; intros; apply Hl; set_solver.
Qed.

Lemma filter_none {A} (P : A → Prop) `{∀ x, Decision (P x)} (l : list A) : (∀ x, x ∈ l → ¬ P x) → filter P l = [].
Proof.
  induction l as [|x l IH]; intros Hl; [done|]. rewrite filter_cons, decide_False, IH; [done| |]; intros; apply Hl; set_solver.
Qed.

Lemma foldl_invariant {A B} (I : A → Prop) (f : A → B → A) l a :
  (∀ a b, b ∈ l → I a → I (f a b)) → I a → I (foldl f a l).
Proof.
  revert a. induction l as [|b l IH]; intros a Hf Ha; [done|]. simpl.
  apply IH; [intros; apply Hf; set_solver|]. apply Hf; set_solver.
Qed.

(** ** Sorting: [sort.Strings] and [sort.Slice] *)

Definition sort_strings (xs : list string) : list string := merge_sort String.le xs.

Lemma sort_strings_perm xs : sort_strings xs ≡ₚ xs.
Proof. apply merge_sort_Permutation. Qed.

Lemma sort_strings_sorted xs : StronglySorted String.le (sort_strings xs).
Proof. apply StronglySorted_merge_sort; apply _. Qed.

Lemma elem_of_sort_strings xs x : x ∈ sort_strings xs ↔ x ∈ xs.
Proof. by rewrite sort_strings_perm. Qed.

(** The sorted list depends only on the multiset of its elements. *)
Lemma sort_strings_proper xs ys : xs ≡ₚ ys → sort_strings xs = sort_strings ys.
Proof.
  intros Hp. apply (StronglySorted_unique String.le); [apply sort_strings_sorted..|].
  by rewrite !sort_strings_perm.
Qed.

#[export] Instance sort_strings_Proper : Proper ((≡ₚ) ==> (=)) sort_strings.
Proof. intros xs ys. apply sort_strings_proper. Qed.

(** ** Automation *)

Create HintDb lmw.
#[export] Hint Resolve NoDup_dedup sort_strings_sorted : lmw.
#[export] Hint Rewrite @elem_of_dedup elem_of_sort_strings : lmw.

(** Split every [if decide] and [match] on a non-variable in the goal or the context. *)
Ltac split_matches :=
  repeat (first [ progress simplify_eq/= | case_decide | case_match ]).

(** Close a goal by case analysis on the code's branches. *)
Ltac branches := split_matches; try done; try naive_solver.

(** Unfold the state monad's combinators. *)
Ltac unfold_st :=
  unfold mbind, mret, ST_bind, ST_ret, result_bind, result_ret, get, put, modify, throw,
    ignore_err, transact in *; cbn beta iota zeta in *.

Lemma forM_app {S E A} (f : A → ST S E unit) xs ys s :
  forM f (xs ++ ys) s = (_ ← forM f xs; forM f ys) s.
Proof.
  revert s. induction xs as [|x xs IH]; intros s; [done|].
  simpl. unfold_st. destruct (f x s) as [[]]; [apply IH|done].
Qed.

(** An invariant of the loop body is an invariant of the loop. *)
Lemma forM_inv {S E A} (f : A → ST S E unit) (I : S → Prop) xs s :
  (∀ x s, x ∈ xs → I s → I (snd (f x s))) → I s → I (snd (forM f xs s)).
Proof.
  revert s. induction xs as [|x xs IH]; intros s Hf Hs; [done|].
  simpl. unfold_st. pose proof (Hf x s ltac:(set_solver) Hs) as Hx.
  destruct (f x s) as [[] s']; simpl in *; [|done].
  apply IH; [|done]. intros. apply Hf; [set_solver|done].
Qed.
