(* ===== verification/GoStrings.v ===== *)
(** * Go's [strings] package, as far as the modelled code uses it

    A Go string is a sequence of bytes; it is modelled by Rocq's [string], whose characters are
    the 256 bytes.  A [[]byte] is a [list ascii].  Every function here is a translation of the
    documented behaviour of the Go standard library function named in its comment, restricted to
    one-byte separators where the code only passes those. *)

From S2P Require Import Prelude.

(** ** Slicing *)

(** [s[:n]] and [s[n:]]; Go panics out of range, every caller below stays in range. *)
Fixpoint stake (n : nat) (s : string) : string :=
  match n, s with
  | S n, String a s => String a (stake n s)
  | _, _ => ""
  end.

Fixpoint sdrop (n : nat) (s : string) : string :=
  match n, s with
  | O, _ => s
  | S n, String _ s => sdrop n s
  | S _, EmptyString => ""
  end.

(** ** Predicates over the bytes of a string *)

Fixpoint sforallb (p : ascii → bool) (s : string) : bool :=
  match s with
  | EmptyString => true
  | String a s => p a && sforallb p s
  end.

(** [strings.IndexByte(s, c) >= 0], [strings.ContainsRune] for a one-byte rune *)
Fixpoint contains_byte (c : ascii) (s : string) : bool :=
  match s with
  | EmptyString => false
  | String a s => bool_decide (a = c) || contains_byte c s
  end.

(** [strings.ContainsAny(s, chars)] *)
Fixpoint contains_any (chars : string) (s : string) : bool :=
  match s with
  | EmptyString => false
  | String a s => contains_byte a chars || contains_any chars s
  end.

(** ** Prefixes and suffixes *)

(** [strings.HasPrefix(s, p)] *)
Fixpoint has_prefix (p s : string) : bool :=
  match p, s with
  | EmptyString, _ => true
  | String a p, String b s => bool_decide (a = b) && has_prefix p s
  | String _ _, EmptyString => false
  end.

(** [strings.TrimPrefix(s, p)] *)
Definition trim_prefix (p s : string) : string :=
  if has_prefix p s then sdrop (String.length p) s else s.

(** [strings.CutPrefix(s, p)] *)
Definition cut_prefix (p s : string) : string * bool :=
  if has_prefix p s then (sdrop (String.length p) s, true) else (s, false).

(** [strings.HasSuffix(s, p)] *)
Definition has_suffix (p s : string) : bool :=
  (String.length p <=? String.length s)%nat &&
  bool_decide (sdrop (String.length s - String.length p) s = p).

(** [strings.TrimSuffix(s, p)] *)
Definition trim_suffix (p s : string) : string :=
  if has_suffix p s then stake (String.length s - String.length p) s else s.

(** ** Separators *)

(** [before, after, found := strings.Cut(s, sep)] for a one-byte [sep] *)
Fixpoint cut (c : ascii) (s : string) : string * string * bool :=
  match s with
  | EmptyString => ("", "", false)
  | String a s =>
      if decide (a = c) then ("", s, true)
      else let '(before, after, found) := cut c s in
           (String a before, after, found)
  end.

(** [strings.Split(s, sep)] for a one-byte [sep] *)
Fixpoint split_byte (c : ascii) (s : string) : list string :=
  match s with
  | EmptyString => [""]
  | String a s =>
      if decide (a = c) then "" :: split_byte c s
      else match split_byte c s with
           | w :: ws => String a w :: ws
           | [] => [String a ""]
           end
  end.

(** [strings.SplitAfter(s, sep)] for a one-byte [sep] *)
Fixpoint split_after (c : ascii) (s : string) : list string :=
  match s with
  | EmptyString => [""]
  | String a s =>
      if decide (a = c) then String a "" :: split_after c s
      else match split_after c s with
           | w :: ws => String a w :: ws
           | [] => [String a ""]
           end
  end.

(** [strings.Join(ws, sep)] *)
Fixpoint join (sep : string) (ws : list string) : string :=
  match ws with
  | [] => ""
  | [w] => w
  | w :: ws => w +:+ sep +:+ join sep ws
  end.

(** Concatenation of all the pieces, [strings.Join(ws, "")] *)
Fixpoint sconcat (ws : list string) : string :=
  match ws with
  | [] => ""
  | w :: ws => w +:+ sconcat ws
  end.

(** [strings.ReplaceAll(s, old, new)] for a one-byte [old] *)
Fixpoint replace_byte (c : ascii) (by_ : string) (s : string) : string :=
  match s with
  | EmptyString => ""
  | String a s => (if decide (a = c) then by_ else String a "") +:+ replace_byte c by_ s
  end.

(** A byte-to-string replacement table, [strings.NewReplacer] with one-byte keys. *)
Fixpoint replace_table (f : ascii → string) (s : string) : string :=
  match s with
  | EmptyString => ""
  | String a s => f a +:+ replace_table f s
  end.

(** [strings.LastIndexByte] and [strings.IndexByte] *)
Fixpoint last_index (c : ascii) (s : string) : option nat :=
  match s with
  | "" => None
  | String a s =>
      match last_index c s with
      | Some i => Some (S i)
      | None => if bool_decide (a = c) then Some O else None
      end
  end.

Fixpoint index_byte (c : ascii) (s : string) : option nat :=
  match s with
  | "" => None
  | String a s => if bool_decide (a = c) then Some O else S <$> index_byte c s
  end.

(** [net.SplitHostPort] *)
Definition SplitHostPort (hostport : string) : option (string * string) :=
  match last_index ":"%char hostport with
  | None => None
  | Some i =>
      let port := sdrop (S i) hostport in
      match hostport with
      | String "["%char _ =>
          match index_byte "]"%char hostport with
          | None => None
          | Some e =>
              if negb (S e =? i)%nat then None
              else if contains_byte "["%char (sdrop 1 hostport) || contains_byte "]"%char (sdrop (S e) hostport) then None
              else Some (stake (e - 1) (sdrop 1 hostport), port)
          end
      | _ =>
          if contains_byte ":"%char (stake i hostport) || contains_byte "["%char hostport || contains_byte "]"%char hostport
          then None else Some (stake i hostport, port)
      end
  end.

(** ** Facts *)

Lemma sapp_nil_r s : s +:+ "" = s.
Proof. induction s as [|a s IH]; simpl; [done|by rewrite IH]. Qed.

Lemma sapp_assoc a b c : (a +:+ b) +:+ c = a +:+ b +:+ c.
Proof. induction a as [|x a IH]; simpl; [done|by rewrite IH]. Qed.

Lemma slength_app a b : String.length (a +:+ b) = (String.length a + String.length b)%nat.
Proof. induction a as [|x a IH]; simpl; [done|by rewrite IH]. Qed.

Lemma stake_sdrop n s : stake n s +:+ sdrop n s = s.
Proof. revert s. induction n; intros [|a s]; simpl; f_equal; eauto. Qed.

Lemma sdrop_app a b : sdrop (String.length a) (a +:+ b) = b.
Proof. by induction a. Qed.

Lemma stake_app a b : stake (String.length a) (a +:+ b) = a.
Proof. induction a; simpl; [by destruct b|by f_equal]. Qed.

Lemma sapp_inj_r a b c : a +:+ c = b +:+ c → a = b.
Proof.
  intros H. assert (Hl : String.length a = String.length b).
  { apply (f_equal String.length) in H. rewrite !slength_app in H. lia. }
  revert b Hl H. induction a as [|x a IH]; intros [|y b]; simpl; intros; simplify_eq; [done|].
  f_equal. by apply IH.
Qed.

Lemma has_prefix_spec p s : has_prefix p s = true ↔ ∃ r, s = p +:+ r.
Proof.
  revert s. induction p as [|a p IH]; intros s; simpl; [naive_solver|].
  destruct s as [|b s]; [naive_solver|].
  rewrite andb_true_iff, bool_decide_eq_true, IH. naive_solver.
Qed.

Lemma has_prefix_app p s : has_prefix p (p +:+ s) = true.
Proof. apply has_prefix_spec. eauto. Qed.

Lemma trim_prefix_app p s : trim_prefix p (p +:+ s) = s.
Proof. unfold trim_prefix. by rewrite has_prefix_app, sdrop_app. Qed.

Lemma has_suffix_spec p s : has_suffix p s = true ↔ ∃ r, s = r +:+ p.
Proof.
  unfold has_suffix. rewrite andb_true_iff, Nat.leb_le, bool_decide_eq_true. split.
  - intros [Hl Hd]. exists (stake (String.length s - String.length p) s).
    rewrite <-Hd at 2. by rewrite stake_sdrop.
  - intros [r ->]. rewrite slength_app. split; [lia|].
    replace (_ - _)%nat with (String.length r) by lia. apply sdrop_app.
Qed.

Lemma trim_suffix_app p s : trim_suffix p (s +:+ p) = s.
Proof.
  unfold trim_suffix. rewrite (proj2 (has_suffix_spec _ _)) by eauto.
  rewrite slength_app. replace (_ - _)%nat with (String.length s) by lia. apply stake_app.
Qed.

Lemma contains_byte_app c a b : contains_byte c (a +:+ b) = contains_byte c a || contains_byte c b.
Proof. induction a; simpl; [done|by rewrite IHa, orb_assoc]. Qed.

Lemma sforallb_app p a b : sforallb p (a +:+ b) = sforallb p a && sforallb p b.
Proof. induction a; simpl; [done|by rewrite IHa, andb_assoc]. Qed.

Lemma cut_true c s a b : cut c s = (a, b, true) ↔ s = a +:+ String c b ∧ contains_byte c a = false.
Proof.
  revert a b. induction s as [|x s IH]; intros a b; simpl.
  - split; [done|]. intros [H _]. by destruct a.
  - case_decide as Hx.
    + subst. split; [intros; by simplify_eq/=|].
      intros [H Hc]. destruct a as [|y a]; simplify_eq/=; [done|].
      by rewrite bool_decide_eq_true_2 in Hc.
    + destruct (cut c s) as [[a' b'] f] eqn:E. split.
      * intros; simplify_eq. destruct (proj1 (IH a' b) eq_refl) as [-> Hc].
        simpl. by rewrite Hc, bool_decide_eq_false_2.
      * intros [H Hc]. destruct a as [|y a]; simplify_eq/=.
        apply orb_false_iff in Hc as [_ Hc].
        pose proof (proj2 (IH a b) (conj eq_refl Hc)). by simplify_eq.
Qed.

Lemma cut_false c s a b : cut c s = (a, b, false) ↔ a = s ∧ b = "" ∧ contains_byte c s = false.
Proof.
  revert a b. induction s as [|x s IH]; intros a b; simpl; [naive_solver|].
  case_decide as Hx.
  - subst. rewrite bool_decide_eq_true_2 by done. naive_solver.
  - rewrite bool_decide_eq_false_2 by done. simpl.
    destruct (cut c s) as [[a' b'] f] eqn:E. split.
    + intros; simplify_eq. destruct (proj1 (IH a' b) eq_refl) as (-> & -> & ?). done.
    + intros (-> & -> & Hc).
      pose proof (proj2 (IH s "") (conj eq_refl (conj eq_refl Hc))). by simplify_eq.
Qed.

Lemma cut_app c a b : contains_byte c a = false → cut c (a +:+ String c b) = (a, b, true).
Proof. intros. by apply cut_true. Qed.

Lemma split_byte_cons c s : ∃ w ws, split_byte c s = w :: ws.
Proof. destruct s as [|a s]; simpl; [eauto|]. case_decide; [eauto|]. case_match; eauto. Qed.

Lemma join_split_byte c s : join (String c "") (split_byte c s) = s.
Proof.
  induction s as [|a s IH]; simpl; [done|].
  destruct (split_byte_cons c s) as (w & ws & E). rewrite E in *.
  case_decide as Ha; simpl in *; [by rewrite IH, Ha|].
  destruct ws; simpl in *; by rewrite IH.
Qed.

Lemma split_byte_no_sep c s : Forall (λ w, contains_byte c w = false) (split_byte c s).
Proof.
  induction s as [|a s IH]; simpl; [by repeat constructor|].
  case_decide as Ha; [by constructor|].
  destruct (split_byte c s) as [|w ws]; simpl; inversion_clear IH; constructor; try done; simpl.
  - by rewrite bool_decide_eq_false_2.
  - by rewrite bool_decide_eq_false_2.
Qed.

Lemma split_after_cons c s : ∃ w ws, split_after c s = w :: ws.
Proof. destruct s as [|a s]; simpl; [eauto|]. case_decide; [eauto|]. case_match; eauto. Qed.

Lemma sconcat_split_after c s : sconcat (split_after c s) = s.
Proof.
  induction s as [|a s IH]; simpl; [done|].
  destruct (split_after_cons c s) as (w & ws & E). rewrite E in *.
  case_decide as Ha; simpl in *; by rewrite IH.
Qed.

Lemma sconcat_app xs ys : sconcat (xs ++ ys) = sconcat xs +:+ sconcat ys.
Proof. induction xs; simpl; [done|]. by rewrite IHxs, sapp_assoc. Qed.

Lemma replace_table_app f a b : replace_table f (a +:+ b) = replace_table f a +:+ replace_table f b.
Proof. induction a; simpl; [done|]. by rewrite IHa, sapp_assoc. Qed.

Lemma replace_byte_table c by_ s :
  replace_byte c by_ s = replace_table (λ a, if decide (a = c) then by_ else String a "") s.
Proof. induction s; simpl; [done|]. by rewrite IHs. Qed.

Lemma replace_byte_app c by_ a b :
  replace_byte c by_ (a +:+ b) = replace_byte c by_ a +:+ replace_byte c by_ b.
Proof. by rewrite !replace_byte_table, replace_table_app. Qed.

#[export] Hint Rewrite sapp_nil_r sapp_assoc slength_app contains_byte_app sforallb_app : gostr.
