(* ===== verification/Utf8.v ===== *)
(** * Go's [unicode/utf8] and the string encoder of [encoding/json]

    [utf8.Valid], [utf8.ValidString], [utf8.RuneStart], and the escaping that [json.Marshal]
    applies to a string (HTML escaping on, as [json.Marshal] always does). *)

From S2P Require Import Prelude.

Notation bytes := (list ascii).

(** [[]byte(s)] and [string(b)] *)
Definition to_bytes (s : string) : bytes := String.list_ascii_of_string s.
Definition of_bytes (b : bytes) : string := String.string_of_list_ascii b.

Definition byte_nat (a : ascii) : nat := nat_of_ascii a.
Definition byte_in (lo hi : nat) (a : ascii) : bool := (lo <=? byte_nat a) && (byte_nat a <=? hi).

(** A continuation byte, [10xxxxxx]. *)
Definition cont (a : ascii) : bool := byte_in 128 191 a.

(** [utf8.RuneStart(b)]: [b&0xC0 != 0x80] *)
Definition rune_start (a : ascii) : bool := negb (cont a).

(** The accept ranges of the decoder's table for two, three and four byte sequences. *)
Definition lead2 (a : ascii) : bool := byte_in 194 223 a.
Definition lead3 (a b : ascii) : bool :=
  (byte_in 224 224 a && byte_in 160 191 b)
  || (byte_in 225 236 a && cont b)
  || (byte_in 237 237 a && byte_in 128 159 b)
  || (byte_in 238 239 a && cont b).
Definition lead4 (a b : ascii) : bool :=
  (byte_in 240 240 a && byte_in 144 191 b)
  || (byte_in 241 243 a && cont b)
  || (byte_in 244 244 a && byte_in 128 143 b).
Definition is_ascii (a : ascii) : bool := byte_in 0 127 a.

(** [utf8.Valid(p)] *)
Fixpoint utf8_valid (p : bytes) : bool :=
  match p with
  | [] => true
  | a :: p1 =>
      if is_ascii a then utf8_valid p1 else
      match p1 with
      | [] => false
      | b :: p2 =>
          if lead2 a && cont b then utf8_valid p2 else
          match p2 with
          | [] => false
          | c :: p3 =>
              if lead3 a b && cont c then utf8_valid p3 else
              match p3 with
              | [] => false
              | d :: p4 => if lead4 a b && cont c && cont d then utf8_valid p4 else false
              end
          end
      end
  end.

(** [utf8.ValidString(s)] *)
Definition valid_string (s : string) : bool := utf8_valid (to_bytes s).

Definition dquote : ascii := "034"%char.
Definition backslash : ascii := "092"%char.

Definition hex_digit (n : nat) : ascii :=
  ascii_of_nat (if n <? 10 then 48 + n else 87 + n).

(** [htmlSafeSet] for an ASCII byte. *)
Definition html_safe (a : ascii) : bool :=
  byte_in 32 126 a &&
  negb (bool_decide (a = dquote) || bool_decide (a = backslash) || bool_decide (a = "<"%char)
        || bool_decide (a = ">"%char) || bool_decide (a = "&"%char))
  || bool_decide (a = "127"%char).

(** The escape of one ASCII byte. *)
Definition escape_ascii (a : ascii) : bytes :=
  if html_safe a then [a]
  else if decide (a = dquote ∨ a = backslash) then [backslash; a]
  else if decide (a = "008"%char) then [backslash; "b"%char]
  else if decide (a = "012"%char) then [backslash; "f"%char]
  else if decide (a = "010"%char) then [backslash; "n"%char]
  else if decide (a = "013"%char) then [backslash; "r"%char]
  else if decide (a = "009"%char) then [backslash; "t"%char]
  else [backslash; "u"%char; "0"%char; "0"%char;
        hex_digit (byte_nat a / 16); hex_digit (byte_nat a mod 16)].

(** U+2028 and U+2029, escaped because JavaScript reads them as line ends. *)
Definition line_sep (a b c : ascii) : bool :=
  bool_decide (a = "226"%char) && bool_decide (b = "128"%char)
  && (bool_decide (c = "168"%char) || bool_decide (c = "169"%char)).

Definition escape_sep (c : ascii) : bytes :=
  backslash :: to_bytes "u202" ++ [hex_digit (byte_nat c mod 16)].

(** The body of [appendString]: an invalid byte becomes [\ufffd]. *)
Fixpoint json_escape (p : bytes) : bytes :=
  match p with
  | [] => []
  | a :: p1 =>
      if is_ascii a then escape_ascii a ++ json_escape p1 else
      let bad := backslash :: to_bytes "ufffd" ++ json_escape p1 in
      match p1 with
      | [] => bad
      | b :: p2 =>
          if lead2 a && cont b then a :: b :: json_escape p2 else
          match p2 with
          | [] => bad
          | c :: p3 =>
              if lead3 a b && cont c then
                (if line_sep a b c then escape_sep c else [a; b; c]) ++ json_escape p3 else
              match p3 with
              | [] => bad
              | d :: p4 =>
                  if lead4 a b && cont c && cont d then a :: b :: c :: d :: json_escape p4
                  else bad
              end
          end
      end
  end.

(** [json.Marshal(s)] for a string *)
Definition json_string (s : string) : bytes :=
  dquote :: json_escape (to_bytes s) ++ [dquote].

(** ** Valid sequences, one rune at a time *)

Inductive Utf8 : bytes → Prop :=
| Utf8_nil : Utf8 []
| Utf8_1 a p : is_ascii a = true → Utf8 p → Utf8 (a :: p)
| Utf8_2 a b p :
    is_ascii a = false → lead2 a && cont b = true → Utf8 p → Utf8 (a :: b :: p)
| Utf8_3 a b c p :
    is_ascii a = false → lead2 a && cont b = false → lead3 a b && cont c = true →
    Utf8 p → Utf8 (a :: b :: c :: p)
| Utf8_4 a b c d p :
    is_ascii a = false → lead2 a && cont b = false → lead3 a b && cont c = false →
    lead4 a b && cont c && cont d = true → Utf8 p → Utf8 (a :: b :: c :: d :: p).

Lemma utf8_valid_sound p : utf8_valid p = true → Utf8 p.
Proof.
  remember (length p) as n eqn:Hn. revert p Hn.
  induction (lt_wf n) as [n _ IH]. intros [|a p1] Hn Hv; [constructor|]. simpl in *.
  repeat (case_match; try done); simplify_eq/=;
    match goal with Hv : utf8_valid ?q = true |- _ =>
      assert (Utf8 q) by (apply (IH (length q)); simpl; (done || lia)) end;
    eauto using Utf8.
Qed.

(** ** The decoder of an escaped string, the left inverse that makes the escaping injective *)

Definition unhex (a : ascii) : nat :=
  let n := byte_nat a in if n <? 58 then n - 48 else n - 87.

Fixpoint unescape (p : bytes) : option (bytes * bytes) :=
  match p with
  | [] => None
  | x :: p1 =>
      if decide (x = dquote) then Some ([], p1) else
      if negb (bool_decide (x = backslash)) then
        '(s, r) ← unescape p1; Some (x :: s, r)
      else
      match p1 with
      | [] => None
      | k :: p2 =>
          if decide (k = "u"%char) then
            match p2 with
            | h1 :: h2 :: h3 :: h4 :: p3 =>
                '(s, r) ← unescape p3;
                Some ((if decide (h1 = "0"%char)
                       then [ascii_of_nat (unhex h3 * 16 + unhex h4)]
                       else ["226"%char; "128"%char; ascii_of_nat (160 + unhex h4)]) ++ s, r)
            | _ => None
            end
          else
            '(s, r) ← unescape p2;
            Some ((if decide (k = "b"%char) then "008"%char
                   else if decide (k = "f"%char) then "012"%char
                   else if decide (k = "n"%char) then "010"%char
                   else if decide (k = "r"%char) then "013"%char
                   else if decide (k = "t"%char) then "009"%char
                   else k) :: s, r)
      end
  end.

(** A property of one byte that computation decides holds for all 256. *)
Lemma ascii_forall (P : ascii → bool) :
  forallb (λ n, P (ascii_of_nat n)) (seq 0 256) = true → ∀ a, P a = true.
Proof.
  intros H a. rewrite <-(ascii_nat_embedding a).
  eapply forallb_forall in H; [exact H|]. apply in_seq. pose proof (nat_ascii_bounded a). lia.
Qed.

(** A byte outside ASCII is neither a quote nor a backslash. *)
Lemma high_byte a : is_ascii a = false → a ≠ dquote ∧ a ≠ backslash.
Proof. intros H. split; intros ->; by vm_compute in H. Qed.

Lemma unescape_plain x p :
  x ≠ dquote → x ≠ backslash →
  unescape (x :: p) = ('(s, r) ← unescape p; Some (x :: s, r)).
Proof.
  intros. simpl. rewrite decide_False by done. by rewrite bool_decide_eq_false_2.
Qed.

Lemma cont_high a : cont a = true → is_ascii a = false.
Proof.
  unfold cont, is_ascii, byte_in. rewrite andb_true_iff, !Nat.leb_le.
  intros []. apply andb_false_iff. right. apply Nat.leb_gt. lia.
Qed.

(** Every ASCII byte's escape decodes to the byte. *)
Lemma unescape_ascii a p :
  is_ascii a = true →
  unescape (escape_ascii a ++ p) = ('(s, r) ← unescape p; Some (a :: s, r)).
Proof.
  intros Ha. destruct (unescape p) as [[s r]|] eqn:E.
  - cut (unescape (escape_ascii a ++ p) = Some (a :: s, r)); [done|].
    destruct a as [[] [] [] [] [] [] [] []]; try (by vm_compute in Ha); clear Ha;
      vm_compute escape_ascii; cbn [app]; cbn -[ascii_of_nat unhex]; rewrite E; reflexivity.
  - cut (unescape (escape_ascii a ++ p) = None); [done|].
    destruct a as [[] [] [] [] [] [] [] []]; try (by vm_compute in Ha); clear Ha;
      vm_compute escape_ascii; cbn [app]; cbn -[ascii_of_nat unhex]; rewrite E; reflexivity.
Qed.

Lemma lead3_high a b : lead3 a b = true → is_ascii b = false.
Proof.
  unfold lead3, cont, is_ascii, byte_in. intros H.
  repeat first [rewrite orb_true_iff in H | rewrite andb_true_iff in H | rewrite Nat.leb_le in H].
  apply andb_false_iff. right. apply Nat.leb_gt. lia.
Qed.

Lemma lead4_high a b : lead4 a b = true → is_ascii b = false.
Proof.
  unfold lead4, cont, is_ascii, byte_in. intros H.
  repeat first [rewrite orb_true_iff in H | rewrite andb_true_iff in H | rewrite Nat.leb_le in H].
  apply andb_false_iff. right. apply Nat.leb_gt. lia.
Qed.

(** Bytes above ASCII are copied, so they decode to themselves. *)
Lemma unescape_high x p s r :
  is_ascii x = false → unescape p = Some (s, r) → unescape (x :: p) = Some (x :: s, r).
Proof. intros Hx Hp. destruct (high_byte x Hx). by rewrite unescape_plain, Hp. Qed.

Lemma unescape_sep c p s r :
  (c = "168"%char ∨ c = "169"%char) → unescape p = Some (s, r) →
  unescape (escape_sep c ++ p) = Some ("226"%char :: "128"%char :: c :: s, r).
Proof.
  intros [-> | ->] Hp; vm_compute escape_sep; cbn [app];
    cbn -[ascii_of_nat unhex]; rewrite Hp; reflexivity.
Qed.

(** Decoding an escaped string that a quote ends gives the string and what follows the quote. *)
Lemma unescape_escape p r : Utf8 p → unescape (json_escape p ++ dquote :: r) = Some (p, r).
Proof.
  induction 1 as [|a p Ha _ IH|a b p Ha Hl _ IH|a b c p Ha Hn Hl _ IH|a b c d p Ha Hn Hn' Hl _ IH].
  - done.
  - cbn [json_escape]. rewrite Ha, <-app_assoc, unescape_ascii, IH by done. done.
  - cbn [json_escape]. rewrite Ha, Hl. apply andb_true_iff in Hl as [_ Hb].
    apply unescape_high; [done|]. apply unescape_high; [by apply cont_high|]. exact IH.
  - cbn [json_escape]. rewrite Ha, Hn, Hl. apply andb_true_iff in Hl as [Hb Hc].
    rewrite <-app_assoc. destruct (line_sep a b c) eqn:Hs.
    + unfold line_sep in Hs. rewrite !andb_true_iff, orb_true_iff, !bool_decide_eq_true in Hs.
      destruct Hs as [[-> ->] Hc']. by apply unescape_sep.
    + apply unescape_high; [done|]. apply unescape_high; [by eapply lead3_high|].
      apply unescape_high; [by apply cont_high|]. exact IH.
  - cbn [json_escape]. rewrite Ha, Hn, Hn', Hl.
    rewrite !andb_true_iff in Hl. destruct Hl as [[Hb Hc] Hd].
    apply unescape_high; [done|]. apply unescape_high; [by eapply lead4_high|].
    apply unescape_high; [by apply cont_high|]. apply unescape_high; [by apply cont_high|].
    exact IH.
Qed.

Lemma to_bytes_inj s t : to_bytes s = to_bytes t → s = t.
Proof.
  intros H. rewrite <-(String.string_of_list_ascii_of_string s).
  unfold to_bytes in H. rewrite H. apply String.string_of_list_ascii_of_string.
Qed.

(** An encoded string is self-delimiting: it determines the string and the rest of the text. *)
Lemma json_string_prefix s t r1 r2 :
  valid_string s = true → valid_string t = true →
  json_string s ++ r1 = json_string t ++ r2 → s = t ∧ r1 = r2.
Proof.
  unfold valid_string, json_string. intros Hs%utf8_valid_sound Ht%utf8_valid_sound [= H].
  rewrite <-!app_assoc in H. simpl in H. apply (f_equal unescape) in H.
  rewrite !unescape_escape in H by done. simplify_eq. split; [by apply to_bytes_inj|done].
Qed.

(** ** Cutting at rune boundaries *)

Lemma utf8_valid_complete p : Utf8 p → utf8_valid p = true.
Proof. induction 1; simpl; repeat (case_match; try done); congruence. Qed.

Lemma utf8_valid_spec p : utf8_valid p = true ↔ Utf8 p.
Proof. split; [apply utf8_valid_sound|apply utf8_valid_complete]. Qed.

Lemma Utf8_app p q : Utf8 p → Utf8 q → Utf8 (p ++ q).
Proof. induction 1; simpl; eauto using Utf8. Qed.

Lemma lead3_cont a b : lead3 a b = true → cont b = true.
Proof.
  unfold lead3, cont, byte_in. intros H.
  repeat first [rewrite orb_true_iff in H | rewrite andb_true_iff in H | rewrite Nat.leb_le in H].
  apply andb_true_iff. rewrite !Nat.leb_le. lia.
Qed.

Lemma lead4_cont a b : lead4 a b = true → cont b = true.
Proof.
  unfold lead4, cont, byte_in. intros H.
  repeat first [rewrite orb_true_iff in H | rewrite andb_true_iff in H | rewrite Nat.leb_le in H].
  apply andb_true_iff. rewrite !Nat.leb_le. lia.
Qed.

(** A sequence that does not start inside a rune. *)
Definition starts_rune (q : bytes) : Prop :=
  match q with [] => True | a :: _ => rune_start a = true end.

Lemma starts_rune_not_cont a q : cont a = true → ¬ starts_rune (a :: q).
Proof. simpl. unfold rune_start. by intros ->. Qed.

(** Cutting a valid sequence where a rune starts leaves two valid sequences. *)
Lemma Utf8_split p q : Utf8 (p ++ q) → starts_rune q → Utf8 p ∧ Utf8 q.
Proof.
  remember (p ++ q) as s eqn:Es. intros H. revert p Es.
  induction H as [|a s Ha H IH|a b s Ha Hb H IH|a b c s Ha Hb Hc H IH|a b c d s Ha Hb Hc Hd H IH];
    intros p Es Hq.
  - destruct p, q; [|done..]. split; constructor.
  - destruct p as [|x p]; simpl in Es; [subst; split; [constructor|by apply Utf8_1]|].
    simplify_eq. destruct (IH p eq_refl Hq). split; [by apply Utf8_1|done].
  - apply andb_prop in Hb as Hb'. destruct Hb' as [_ Hcont].
    destruct p as [|x [|y p]]; simpl in Es; simplify_eq.
    + split; [constructor|]. by apply Utf8_2.
    + by apply starts_rune_not_cont in Hq.
    + destruct (IH p eq_refl Hq). split; [by apply Utf8_2|done].
  - apply andb_prop in Hc as Hc'. destruct Hc' as [H3%lead3_cont Hcont].
    destruct p as [|x [|y [|z p]]]; simpl in Es; simplify_eq.
    + split; [constructor|]. by apply Utf8_3.
    + by apply starts_rune_not_cont in Hq.
    + by apply starts_rune_not_cont in Hq.
    + destruct (IH p eq_refl Hq). split; [by apply Utf8_3|done].
  - apply andb_prop in Hd as Hd'. destruct Hd' as [[H4%lead4_cont H5]%andb_prop H6].
    destruct p as [|x [|y [|z [|w p]]]]; simpl in Es; simplify_eq.
    + split; [constructor|]. by apply Utf8_4.
    + by apply starts_rune_not_cont in Hq.
    + by apply starts_rune_not_cont in Hq.
    + by apply starts_rune_not_cont in Hq.
    + destruct (IH p eq_refl Hq). split; [by apply Utf8_4|done].
Qed.
