(* ===== verification/Paths.v ===== *)
(** * Go's [path/filepath] on Unix: [Clean], [Join], [Base], [IsAbs] and [Rel]

    A path is its string; [Clean] is written on the list of its slash-separated elements. *)

From S2P Require Import Prelude GoStrings.

Definition slash : ascii := "/"%char.

Definition elements (p : string) : list string := split_byte slash p.

(** [filepath.IsAbs] *)
Definition IsAbs (p : string) : bool := has_prefix "/" p.

(** One element of [Clean]: the elements kept so far are the stack, last one first. *)
Definition clean_step (rooted : bool) (stack : list string) (e : string) : list string :=
  if bool_decide (e = "") || bool_decide (e = ".") then stack
  else if bool_decide (e = "..") then
    match stack with
    | [] => if rooted then [] else [".."]
    | top :: rest => if bool_decide (top = "..") then ".." :: stack else rest
    end
  else e :: stack.

Definition clean_elements (rooted : bool) (es : list string) : list string :=
  reverse (fold_left (clean_step rooted) es []).

(** The elements of [Clean p]; [[]] stands for ["."] or ["/"] *)
Definition clean_of (p : string) : list string := clean_elements (IsAbs p) (elements p).

(** A cleaned path from its elements *)
Definition render_path (rooted : bool) (es : list string) : string :=
  if rooted then "/" +:+ join "/" es
  else match es with [] => "." | _ => join "/" es end.

(** [filepath.Clean] *)
Definition Clean (p : string) : string := render_path (IsAbs p) (clean_of p).

(** [filepath.Join]: the nonempty arguments, joined and cleaned *)
Definition Join (ps : list string) : string :=
  match filter (λ p, p ≠ "") ps with
  | [] => ""
  | ps => Clean (join "/" ps)
  end.

(** [filepath.Base] *)
Fixpoint drop_trailing_empty (es : list string) : list string :=
  match es with
  | [] => []
  | e :: es =>
      match drop_trailing_empty es with
      | [] => if bool_decide (e = "") then [] else [e]
      | es' => e :: es'
      end
  end.

Definition Base (p : string) : string :=
  if bool_decide (p = "") then "."
  else match last (drop_trailing_empty (elements p)) with
       | Some e => e
       | None => "/"
       end.

(** The longest common prefix of two element lists, removed *)
Fixpoint strip_common (bs ts : list string) : list string * list string :=
  match bs, ts with
  | b :: bs', t :: ts' => if bool_decide (b = t) then strip_common bs' ts' else (bs, ts)
  | _, _ => (bs, ts)
  end.

(** [filepath.Rel(basepath, targpath)]; [None] is its error *)
Definition Rel (basepath targpath : string) : option string :=
  let base := Clean basepath in
  let targ := Clean targpath in
  if bool_decide (base = targ) then Some "."
  else
    let base := if bool_decide (base = ".") then "" else base in
    if negb (Bool.eqb (IsAbs base) (IsAbs targ)) then None
    else
      let '(bs, ts) := strip_common (filter (λ e, e ≠ "") (elements base))
                                    (filter (λ e, e ≠ "") (elements targ)) in
      match bs with
      | ".." :: _ => None
      | _ => Some (join "/" (replicate (length bs) ".." ++ ts))
      end.

(** ** Elements that stay where they are *)

(** A name: a nonempty element that is neither ["."] nor [".."] and has no slash. *)
Definition name (e : string) : bool :=
  negb (bool_decide (e = "")) && negb (bool_decide (e = ".")) && negb (bool_decide (e = ".."))
  && negb (contains_byte slash e).

Lemma name_spec e : name e = true ↔ e ≠ "" ∧ e ≠ "." ∧ e ≠ ".." ∧ contains_byte slash e = false.
Proof.
  unfold name. rewrite !andb_true_iff, !negb_true_iff, !bool_decide_eq_false. tauto.
Qed.

Lemma clean_step_name rooted stack e : name e = true → clean_step rooted stack e = e :: stack.
Proof.
  intros (H1 & H2 & H3 & _)%name_spec. unfold clean_step. by rewrite !bool_decide_eq_false_2 by done.
Qed.

Lemma clean_step_empty rooted stack : clean_step rooted stack "" = stack.
Proof. done. Qed.

(** Cleaning the elements of a path followed by names keeps the names at its end. *)
Lemma clean_elements_names rooted es names :
  Forall (λ e, name e = true) names →
  clean_elements rooted (es ++ names) = clean_elements rooted es ++ names.
Proof.
  intros Hn. unfold clean_elements. rewrite fold_left_app. generalize (fold_left (clean_step rooted) es []).
  induction Hn as [|e names He _ IH]; intros stack; simpl; [by rewrite app_nil_r|].
  rewrite clean_step_name by done. rewrite IH, reverse_cons, <-app_assoc. done.
Qed.

Lemma elements_no_slash e : contains_byte slash e = false → elements e = [e].
Proof.
  unfold elements. induction e as [|a e IH]; simpl; [done|]. case_decide as E.
  - by rewrite bool_decide_eq_true_2 by done.
  - intros H. rewrite IH; [done|]. by rewrite bool_decide_eq_false_2 in H by done.
Qed.

Lemma elements_app a b : elements (a +:+ String slash b) = elements a ++ elements b.
Proof.
  unfold elements. induction a as [|x a IH]; simpl; [done|].
  case_decide; [by rewrite IH|]. rewrite IH. destruct (split_byte_cons slash a) as (w & ws & ->). done.
Qed.

(** An element [Clean] either drops or keeps where it is. *)
Definition quiet_element (e : string) : Prop := e = "" ∨ name e = true.

Definition nonempty (es : list string) : list string := filter (λ e, e ≠ "") es.

Lemma clean_elements_quiet rooted es qs :
  Forall quiet_element qs → clean_elements rooted (es ++ qs) = clean_elements rooted es ++ nonempty qs.
Proof.
  intros Hq. unfold clean_elements, nonempty. rewrite fold_left_app. generalize (fold_left (clean_step rooted) es []).
  induction Hq as [|e qs He _ IH]; intros stack; simpl; [by rewrite app_nil_r|].
  destruct He as [->|He]; [by rewrite clean_step_empty, IH|].
  rewrite clean_step_name, IH, reverse_cons, <-app_assoc by done. simpl.
  rewrite filter_cons_True; [done|]. by apply name_spec in He as [? _].
Qed.

Lemma nonempty_names qs : Forall quiet_element qs → Forall (λ e, name e = true) (nonempty qs).
Proof.
  unfold nonempty. rewrite !Forall_forall. intros H e [Hne Hin]%list_elem_of_filter.
  by destruct (H e Hin).
Qed.

Lemma elements_join p ps : elements (join "/" (p :: ps)) = elements p ++ concat (map elements ps).
Proof.
  revert p. induction ps as [|q ps IH]; intros p; [simpl; by rewrite app_nil_r|].
  change (join "/" (p :: q :: ps)) with (p +:+ String slash (join "/" (q :: ps))).
  by rewrite elements_app, IH.
Qed.

Lemma IsAbs_join p ps : p ≠ "" → IsAbs (join "/" (p :: ps)) = IsAbs p.
Proof. destruct p as [|a p]; [done|]. intros _. unfold IsAbs. by destruct ps. Qed.

(** [Join] under a directory: arguments whose elements are names or empty stay below it. *)
Lemma Join_below root ps :
  root ≠ "" → Forall (λ p, p ≠ "" ∧ Forall quiet_element (elements p)) ps →
  Join (root :: ps) =
    render_path (IsAbs root) (clean_of root ++ nonempty (concat (map elements ps))).
Proof.
  intros Hr Hps. unfold Join. rewrite filter_cons_True by done.
  assert (E : filter (λ p, p ≠ "") ps = ps).
  { induction Hps as [|p ps [Hp _] _ IH]; [done|]. by rewrite filter_cons_True, IH. }
  rewrite E. unfold Clean. rewrite IsAbs_join by done. f_equal.
  unfold clean_of. rewrite IsAbs_join, elements_join by done. apply clean_elements_quiet.
  clear E. induction Hps as [|p ps [_ Hp] _ IH]; simpl; [constructor|]. by apply Forall_app.
Qed.

Lemma elements_name e : name e = true → elements e = [e].
Proof. intros (_ & _ & _ & H)%name_spec. by apply elements_no_slash. Qed.

Lemma name_quiet e : name e = true → e ≠ "" ∧ Forall quiet_element (elements e).
Proof.
  intros H. split; [by apply name_spec in H as [? _]|]. rewrite elements_name by done.
  constructor; [by right|constructor].
Qed.

(** [Join] of names below a directory appends exactly those names. *)
Lemma Join_names root names :
  root ≠ "" → Forall (λ e, name e = true) names →
  Join (root :: names) = render_path (IsAbs root) (clean_of root ++ names).
Proof.
  intros Hr Hn. rewrite Join_below; [|done|eapply Forall_impl; [exact Hn|apply name_quiet]].
  do 2 f_equal. induction Hn as [|e names He _ IH]; [done|]. simpl. rewrite elements_name by done.
  simpl. unfold nonempty in *. rewrite filter_cons_True, IH; [done|]. by apply name_spec in He as [? _].
Qed.

Lemma drop_trailing_empty_sub es e : e ∈ drop_trailing_empty es → e ∈ es.
Proof.
  revert e. induction es as [|x es IH]; intros e; simpl; [done|].
  destruct (drop_trailing_empty es) as [|y ys]; [case_bool_decide|]; set_solver.
Qed.

(** A string that is its own base name has no slash, but for ["/"] itself. *)
Lemma Base_fixpoint p : p ≠ "" → Base p = p → p = "/" ∨ contains_byte slash p = false.
Proof.
  intros Hp. unfold Base. rewrite (bool_decide_eq_false_2 _ Hp).
  destruct (last _) as [e|] eqn:E; [|by left]. intros ->. right.
  apply last_Some_elem_of, drop_trailing_empty_sub in E.
  pose proof (split_byte_no_sep slash p) as H. rewrite Forall_forall in H. by apply H.
Qed.

Lemma Base_no_slash p : p ≠ "" → contains_byte slash p = false → Base p = p.
Proof.
  intros Hp Hs. unfold Base. rewrite (bool_decide_eq_false_2 _ Hp), (elements_no_slash p Hs). simpl.
  by rewrite (bool_decide_eq_false_2 _ Hp).
Qed.

(** ** Rendering is injective *)

Lemma elements_join_names es : es ≠ [] → Forall (λ e, contains_byte slash e = false) es →
  elements (join "/" es) = es.
Proof.
  destruct es as [|e es]; [done|]. intros _ [He Hes]%Forall_cons. rewrite elements_join.
  rewrite elements_no_slash by done. simpl. f_equal.
  induction Hes as [|x es Hx _ IH]; [done|]. simpl. by rewrite elements_no_slash, IH.
Qed.

Lemma clean_step_no_slash rooted stack e :
  contains_byte slash e = false → Forall (λ x, contains_byte slash x = false) stack →
  Forall (λ x, contains_byte slash x = false) (clean_step rooted stack e).
Proof.
  intros He Hs. unfold clean_step. case_match; [done|]. case_match; [|by constructor].
  destruct Hs; simpl; [case_match; repeat constructor|].
  case_match; [|done]. repeat constructor; done.
Qed.

Lemma clean_of_no_slash p : Forall (λ e, contains_byte slash e = false) (clean_of p).
Proof.
  unfold clean_of, clean_elements. rewrite reverse_Permutation.
  assert (H : Forall (λ e, contains_byte slash e = false) (elements p)) by apply split_byte_no_sep.
  assert (Hs : Forall (λ e, contains_byte slash e = false) []) by constructor. revert Hs.
  generalize (IsAbs p) ([] : list string).
  induction H as [|e es He _ IH]; intros rooted stack Hs; simpl; [done|]. apply IH.
  by apply clean_step_no_slash.
Qed.

Lemma render_path_inj rooted es fs :
  es ≠ [] → fs ≠ [] → Forall (λ e, contains_byte slash e = false) es →
  Forall (λ e, contains_byte slash e = false) fs →
  render_path rooted es = render_path rooted fs → es = fs.
Proof.
  intros He Hf Hes Hfs E. rewrite <-(elements_join_names es), <-(elements_join_names fs) by done.
  f_equal. destruct rooted; simpl in E; [by simplify_eq|]. by destruct es, fs.
Qed.

(** ** Absolute paths *)

Definition names (es : list string) : Prop := Forall (λ e, name e = true) es.

Lemma clean_step_rooted stack e :
  contains_byte slash e = false → names stack → names (clean_step true stack e).
Proof.
  intros He Hs. unfold clean_step.
  destruct (decide (e = "")) as [->|H1]; [done|]. destruct (decide (e = ".")) as [->|H2]; [done|].
  rewrite !(bool_decide_eq_false_2 (e = _)) by done. simpl. case_bool_decide as H3.
  - destruct Hs as [|top rest Ht Hrest]; [constructor|]. apply name_spec in Ht as (_ & _ & Ht & _).
    by rewrite bool_decide_eq_false_2 by done.
  - constructor; [|done]. by apply name_spec.
Qed.

(** A cleaned absolute path consists of names only. *)
Lemma clean_of_rooted p : IsAbs p = true → names (clean_of p).
Proof.
  intros Ha. unfold clean_of, clean_elements, names. rewrite Ha, reverse_Permutation.
  assert (H : Forall (λ e, contains_byte slash e = false) (elements p)) by apply split_byte_no_sep.
  assert (Hs : names []) by constructor. revert Hs. generalize ([] : list string).
  induction H as [|e es He _ IH]; intros stack Hs; simpl; [done|]. apply IH. by apply clean_step_rooted.
Qed.

Lemma elements_render es : names es → elements (render_path true es) = "" :: match es with [] => [""] | _ => es end.
Proof.
  intros Hn. change (render_path true es) with ("" +:+ String slash (join "/" es)).
  rewrite elements_app. simpl. f_equal. destruct es as [|e es]; [done|]. apply elements_join_names; [done|].
  eapply Forall_impl; [exact Hn|]. by intros x (_ & _ & _ & ?)%name_spec.
Qed.

Lemma nonempty_id es : names es → nonempty es = es.
Proof.
  unfold nonempty. induction 1 as [|e es He _ IH]; [done|]. apply name_spec in He as [? _].
  by rewrite filter_cons_True, IH.
Qed.

Lemma nonempty_elements_render es : names es → nonempty (elements (render_path true es)) = es.
Proof.
  intros Hn. rewrite elements_render by done. destruct es as [|e es]; [done|].
  unfold nonempty. rewrite filter_cons_False by naive_solver. by apply nonempty_id.
Qed.

(** Cleaning a cleaned absolute path changes nothing. *)
Lemma Clean_render es : names es → Clean (render_path true es) = render_path true es.
Proof.
  intros Hn. unfold Clean. change (IsAbs (render_path true es)) with true. f_equal.
  unfold clean_of. change (IsAbs (render_path true es)) with true. rewrite elements_render by done.
  assert (Hq : Forall quiet_element (match es with [] => [""] | _ => es end)).
  { destruct es; [by repeat constructor; left|]. eapply Forall_impl; [exact Hn|]. by right. }
  pose proof (clean_elements_quiet true [""] _ Hq) as E. simpl app in E. rewrite E.
  destruct es as [|e es]; [done|]. by apply nonempty_id.
Qed.

Lemma strip_common_spec bs ts bs' ts' : strip_common bs ts = (bs', ts') →
  ∃ pre, bs = pre ++ bs' ∧ ts = pre ++ ts'.
Proof.
  revert ts. induction bs as [|b bs IH]; intros [|t ts]; simpl; intros E; simplify_eq; try by exists [].
  case_bool_decide as Eb; [|simplify_eq; by exists []].
  destruct (IH ts E) as (pre & -> & ->). subst. by exists (t :: pre).
Qed.

(** [Clean] keeps neither an empty element nor a dot. *)
Lemma never_kept rooted es stack x : x = "" ∨ x = "." →
  x ∉ stack → x ∉ fold_left (clean_step rooted) es stack.
Proof.
  intros Hx. revert stack. induction es as [|e es IH]; intros stack Hs; simpl; [done|]. apply IH.
  unfold clean_step. case_match eqn:E1; [done|]. apply orb_false_iff in E1 as [E1 E2].
  apply bool_decide_eq_false in E1, E2. assert (x ≠ "..") by (by destruct Hx; subst).
  case_match; [|by destruct Hx; subst; set_solver].
  destruct stack as [|top rest]; [case_match; set_solver|]. case_match; set_solver.
Qed.

(** [Rel] under an absolute base that does not climb: the target is the base and then names. *)
Lemma Rel_below base targ rel :
  IsAbs base = true → Rel base targ = Some rel → rel ≠ ".." → has_prefix "../" rel = false →
  ∃ es, Clean targ = render_path true (clean_of base ++ es) ∧ names es.
Proof.
  intros Hb. unfold Rel. pose proof (clean_of_rooted base Hb) as Hnb.
  assert (Eb : Clean base = render_path true (clean_of base)) by (unfold Clean; by rewrite Hb).
  case_bool_decide as E.
  { intros _ _ _. exists []. rewrite app_nil_r. split; [congruence|constructor]. }
  rewrite Eb. rewrite (bool_decide_eq_false_2 (render_path true (clean_of base) = ".")) by done.
  change (IsAbs (render_path true (clean_of base))) with true.
  destruct (IsAbs targ) eqn:Ht; cycle 1.
  { assert (Hf : IsAbs (Clean targ) = false).
    { unfold Clean. rewrite Ht. simpl. pose proof (clean_of_no_slash targ) as Hns.
      destruct (clean_of targ) as [|e es] eqn:Ec; [done|]. apply Forall_cons in Hns as [He _].
      destruct e as [|a e].
      - exfalso. assert (Hin : "" ∈ clean_of targ) by (rewrite Ec; set_solver). revert Hin.
        unfold clean_of, clean_elements. rewrite reverse_Permutation. apply never_kept; [by left|set_solver].
      - simpl in He. apply orb_false_iff in He as [He _]. apply bool_decide_eq_false in He.
        unfold IsAbs. destruct es; simpl; by rewrite bool_decide_eq_false_2 by done. }
    by rewrite Hf. }
  assert (Et : Clean targ = render_path true (clean_of targ)) by (unfold Clean; by rewrite Ht).
  pose proof (clean_of_rooted targ Ht) as Hnt. rewrite Et. cbn [negb Bool.eqb].
  change (IsAbs (render_path true (clean_of targ))) with true. cbn [negb Bool.eqb].
  fold (nonempty (elements (render_path true (clean_of base)))).
  fold (nonempty (elements (render_path true (clean_of targ)))).
  rewrite !nonempty_elements_render by done.
  destruct (strip_common _ _) as [bs ts] eqn:Es. apply strip_common_spec in Es as (pre & E1 & E2).
  destruct bs as [|b bs].
  - intros _ _ _. exists ts. rewrite E1, E2, app_nil_r. split; [done|].
    rewrite E2 in Hnt. by apply Forall_app in Hnt as [_ ?].
  - intros Hrel Hne Hpre. exfalso.
    assert (Hrel' : rel = join "/" (".." :: replicate (length bs) ".." ++ ts)).
    { by repeat case_match; simplify_eq. }
    subst rel. destruct (replicate (length bs) ".." ++ ts) as [|x xs]; [done|].
    simpl in Hpre. done.
Qed.

(** A relative path that [Clean] leaves alone and that never climbs consists of names. *)
Lemma clean_relative_names p :
  IsAbs p = false → Clean p = p → p ≠ "." → ".." ∉ elements p → names (elements p).
Proof.
  intros Ha Hc Hd Hup. unfold Clean in Hc. rewrite Ha in Hc. simpl in Hc.
  pose proof (clean_of_no_slash p) as Hns.
  assert (Hk : ∀ x, x = "" ∨ x = "." → x ∉ clean_of p).
  { intros x Hx. unfold clean_of, clean_elements. rewrite reverse_Permutation. apply never_kept; [done|set_solver]. }
  destruct (clean_of p) as [|e es] eqn:Ec; [congruence|].
  assert (Ee : elements p = e :: es) by (rewrite <-Hc; by apply elements_join_names).
  rewrite Ee in *. unfold names. rewrite Forall_forall in *. intros x Hx. apply name_spec.
  split_and!; [intros ->; by apply (Hk ""); auto|intros ->; by apply (Hk "."); auto|by intros ->|by apply Hns].
Qed.
