(* ===== verification/CJson.v ===== *)
(** * Canonical JSON: [internal/cjson/cjson.go]

    [encode] renders a decoded JSON tree with sorted object keys and no whitespace.  Plan digests
    and persisted run inputs hash its output, so what matters is that two trees have the same bytes
    exactly when they are the same value: [encode_canonical] below. *)

From S2P Require Import Prelude GoStrings Utf8.

(** The trees that [Decode] with [UseNumber] builds.  An object is a Go map: its entries are listed
    in an arbitrary order, with distinct keys ([wf_json]).  A number is its literal text. *)
Inductive json : Type :=
| JNull
| JBool (b : bool)
| JNumber (text : string)
| JString (s : string)
| JArray (xs : list json)
| JObject (m : list (string * json)).

(** [t[k]] on a Go map of already encoded values *)
Fixpoint assoc {A} (k : string) (m : list (string * A)) : option A :=
  match m with
  | [] => None
  | (k', v) :: m => if decide (k' = k) then Some v else assoc k m
  end.

(** The array loop: elements separated by commas *)
Fixpoint comma_separated (xs : list bytes) : bytes :=
  match xs with
  | [] => []
  | [x] => x
  | x :: xs => x ++ ","%char :: comma_separated xs
  end.

(** One [key:value] of the object loop *)
Definition encode_entry (k : string) (v : bytes) : bytes := json_string k ++ ":"%char :: v.

Fixpoint encode (v : json) : bytes :=
  match v with
  | JNull => to_bytes "null"
  | JBool true => to_bytes "true"
  | JBool false => to_bytes "false"
  | JNumber t => to_bytes t
  | JString s => json_string s
  | JArray xs => "["%char :: comma_separated (map encode xs) ++ ["]"%char]
  | JObject m =>
      let t := map (λ e, (fst e, encode (snd e))) m in
      let keys := sort_strings (map fst t) in
      "{"%char ::
        comma_separated (map (λ k, encode_entry k (default [] (assoc k t))) keys)
        ++ ["}"%char]
  end.

(** ** The value a tree denotes: the same tree with every object in key order *)

Definition sort_entries {A} (m : list (string * A)) : list (string * A) :=
  omap (λ k, (λ v, (k, v)) <$> assoc k m) (sort_strings (map fst m)).

Fixpoint canon (v : json) : json :=
  match v with
  | JArray xs => JArray (map canon xs)
  | JObject m => JObject (sort_entries (map (λ e, (fst e, canon (snd e))) m))
  | _ => v
  end.

(** Same value: equal up to the order of map entries. *)
Definition json_equiv (v w : json) : Prop := canon v = canon w.

#[export] Instance json_equivalence : Equivalence json_equiv.
Proof. split; unfold json_equiv; red; intros; congruence. Qed.

(** ** What the decoder guarantees *)

Definition number_char (a : ascii) : bool :=
  byte_in 48 57 a || contains_byte a "+-.eE".

Definition number_text (t : string) : bool :=
  match t with
  | EmptyString => false
  | String a _ => (byte_in 48 57 a || bool_decide (a = "-"%char)) && sforallb number_char t
  end.

Fixpoint wf_json (v : json) : bool :=
  match v with
  | JNull | JBool _ => true
  | JNumber t => number_text t
  | JString s => valid_string s
  | JArray xs => forallb wf_json xs
  | JObject m =>
      bool_decide (NoDup (map fst m)) &&
      forallb (λ e, valid_string (fst e) && wf_json (snd e)) m
  end.

(** ** Induction over trees *)

Section json_induction.
Variable P : json → Prop.
Hypothesis Hnull : P JNull.
Hypothesis Hbool : ∀ b, P (JBool b).
Hypothesis Hnum : ∀ t, P (JNumber t).
Hypothesis Hstr : ∀ s, P (JString s).
Hypothesis Harr : ∀ xs, Forall P xs → P (JArray xs).
Hypothesis Hobj : ∀ m, Forall (λ e, P (snd e)) m → P (JObject m).

Fixpoint json_ind' (v : json) : P v :=
  match v with
  | JNull => Hnull
  | JBool b => Hbool b
  | JNumber t => Hnum t
  | JString s => Hstr s
  | JArray xs =>
      Harr xs ((fix go xs : Forall P xs :=
                  match xs with
                  | [] => Forall_nil_2 _
                  | x :: xs => Forall_cons_2 _ _ _ (json_ind' x) (go xs)
                  end) xs)
  | JObject m =>
      Hobj m ((fix go m : Forall (λ e, P (snd e)) m :=
                 match m with
                 | [] => Forall_nil_2 _
                 | e :: m => Forall_cons_2 _ _ _ (json_ind' (snd e)) (go m)
                 end) m)
  end.
End json_induction.

(** ** Association lists with distinct keys *)

Lemma assoc_Some {A} k (v : A) m : NoDup (map fst m) → assoc k m = Some v ↔ (k, v) ∈ m.
Proof.
  induction m as [|[k' v'] m IH]; simpl; intros Hnd.
  - split; [done|]. intros H. by apply elem_of_nil in H.
  - apply NoDup_cons in Hnd as [Hk Hnd]. rewrite elem_of_cons. case_decide as E.
    + subst. split; [naive_solver|]. intros [?|Hin]; [naive_solver|].
      destruct Hk. apply list_elem_of_fmap. by exists (k, v).
    + rewrite IH by done. naive_solver.
Qed.

Lemma assoc_map {A B} (f : A → B) k m : assoc k (map (λ e, (fst e, f (snd e))) m) = f <$> assoc k m.
Proof. induction m as [|[k' v'] m IH]; simpl; [done|]. by case_decide. Qed.

Lemma map_fst_map {A B} (f : A → B) (m : list (string * A)) :
  map fst (map (λ e, (fst e, f (snd e))) m) = map fst m.
Proof. rewrite map_map. by apply map_ext. Qed.

Lemma sort_entries_map {A B} (f : A → B) m :
  sort_entries (map (λ e, (fst e, f (snd e))) m) = map (λ e, (fst e, f (snd e))) (sort_entries m).
Proof.
  unfold sort_entries. rewrite map_fst_map. generalize (sort_strings (map fst m)) as ks.
  induction ks as [|k ks IH]; csimpl; [done|]. rewrite assoc_map.
  destruct (assoc k m); csimpl; by rewrite IH.
Qed.

Lemma sort_entries_perm {A} (m : list (string * A)) : NoDup (map fst m) → sort_entries m ≡ₚ m.
Proof.
  intros Hnd. unfold sort_entries. rewrite sort_strings_perm.
  assert (Hall : ∀ m', (∀ k v, (k, v) ∈ m' → assoc k m = Some v) →
    omap (λ k, (λ v, (k, v)) <$> assoc k m) (map fst m') = m').
  { induction m' as [|[k v] m' IH]; intros Hm; csimpl; [done|].
    rewrite (Hm k v) by set_solver. csimpl. rewrite IH; [done|]. set_solver. }
  rewrite Hall; [done|]. intros k v. by apply assoc_Some.
Qed.

Lemma fst_sort_entries {A} (m : list (string * A)) :
  NoDup (map fst m) → map fst (sort_entries m) = sort_strings (map fst m).
Proof.
  intros Hnd. unfold sort_entries.
  assert (Hall : ∀ ks, (∀ k, k ∈ ks → k ∈ map fst m) →
    map fst (omap (λ k, (λ v, (k, v)) <$> assoc k m) ks) = ks).
  { induction ks as [|k ks IH]; intros Hk; csimpl; [done|].
    assert (Hin : k ∈ map fst m) by set_solver. apply list_elem_of_fmap in Hin as ([k' v] & Hk' & Hv).
    simpl in Hk'. subst k'. apply assoc_Some in Hv; [|done]. rewrite Hv. csimpl. rewrite IH; [done|]. set_solver. }
  apply Hall. intros k. by rewrite elem_of_sort_strings.
Qed.

(** ** The encoder prints the canonical tree in its listed order *)

Fixpoint print (v : json) : bytes :=
  match v with
  | JNull => to_bytes "null"
  | JBool true => to_bytes "true"
  | JBool false => to_bytes "false"
  | JNumber t => to_bytes t
  | JString s => json_string s
  | JArray xs => "["%char :: comma_separated (map print xs) ++ ["]"%char]
  | JObject m =>
      "{"%char :: comma_separated (map (λ e, encode_entry (fst e) (print (snd e))) m) ++ ["}"%char]
  end.

Lemma object_entries (t : list (string * bytes)) :
  NoDup (map fst t) →
  map (λ k, encode_entry k (default [] (assoc k t))) (sort_strings (map fst t))
  = map (λ e, encode_entry (fst e) (snd e)) (sort_entries t).
Proof.
  intros Hnd. rewrite <-(fst_sort_entries t) by done.
  assert (Hin : ∀ k v, (k, v) ∈ sort_entries t → assoc k t = Some v).
  { intros k v. rewrite (sort_entries_perm t) by done. by apply assoc_Some. }
  induction (sort_entries t) as [|[k v] l IH]; simpl; [done|].
  rewrite (Hin k v) by set_solver. simpl. f_equal. apply IH. intros. apply Hin. set_solver.
Qed.

Lemma encode_print v : wf_json v = true → encode v = print (canon v).
Proof.
  induction v as [| | | |xs IH|m IH] using json_ind'; simpl; try done.
  - rewrite forallb_forall. intros Hwf. do 3 f_equal. rewrite map_map. apply map_ext_in.
    intros x Hx. rewrite Forall_forall in IH. apply IH; [by apply list_elem_of_In|by apply Hwf].
  - rewrite andb_true_iff, bool_decide_eq_true, forallb_forall. intros [Hnd Hwf].
    assert (Ht : map (λ e, (e.1, encode e.2)) m = map (λ e, (e.1, print e.2))
                 (map (λ e, (e.1, canon e.2)) m)).
    { rewrite map_map. apply map_ext_in. intros e He. simpl. f_equal.
      rewrite Forall_forall in IH. specialize (Hwf e He). apply andb_true_iff in Hwf as [_ Hwf].
      apply IH; [by apply list_elem_of_In|done]. }
    rewrite object_entries by (by rewrite map_fst_map). rewrite Ht.
    rewrite sort_entries_map, map_map. reflexivity.
Qed.

(** ** Printing is a prefix code *)

(** What can follow a value inside a text. *)
Definition delimited (r : bytes) : Prop :=
  match r with [] => True | a :: _ => a = ","%char ∨ a = "]"%char ∨ a = "}"%char end.

Definition value_start (a : ascii) : bool :=
  byte_in 48 57 a || contains_byte a "-ntf[{" || bool_decide (a = dquote).

Lemma wf_number_start t : number_text t = true →
  ∃ a s, t = String a s ∧ (byte_in 48 57 a || bool_decide (a = "-"%char)) = true
    ∧ sforallb number_char t = true.
Proof. destruct t as [|a s]; [done|]. simpl. rewrite andb_true_iff. naive_solver. Qed.

Lemma print_start v : wf_json v = true → ∃ a r, print v = a :: r ∧ value_start a = true.
Proof.
  destruct v as [|[]|t|s|xs|m]; simpl; intros Hwf; try by eauto.
  destruct (wf_number_start t Hwf) as (a & s & -> & Ha & _). exists a, (to_bytes s).
  split; [done|]. unfold value_start. apply orb_true_iff in Ha as [Ha|Ha].
  - by rewrite Ha.
  - apply bool_decide_eq_true in Ha as ->. done.
Qed.

Lemma value_start_not_delim a r : value_start a = true → ¬ delimited (a :: r).
Proof. intros H [-> | [-> | ->]]; by vm_compute in H. Qed.

(** A number's text ends where the number characters end. *)
Lemma number_span s t r1 r2 :
  sforallb number_char s = true → sforallb number_char t = true →
  delimited r1 → delimited r2 →
  to_bytes s ++ r1 = to_bytes t ++ r2 → s = t ∧ r1 = r2.
Proof.
  assert (Hd : ∀ a r, number_char a = true → ¬ delimited (a :: r)).
  { intros a r H [-> | [-> | ->]]; by vm_compute in H. }
  revert t. induction s as [|a s IH]; intros [|b t]; simpl; rewrite ?andb_true_iff;
    intros Hs Ht H1 H2 Heq; simplify_eq/=; try naive_solver.
Qed.

(** Bytes of a literal or number cannot be confused with another literal or number. *)
Lemma number_not_start t a r r' :
  number_text t = true → contains_byte a "ntf[{" || bool_decide (a = dquote) = true →
  to_bytes t ++ r ≠ a :: r'.
Proof.
  intros Hn Ha Heq. destruct (wf_number_start t Hn) as (b & s & -> & Hb & _). simpl in Heq.
  simplify_eq. revert Ha Hb. rewrite !orb_true_iff, !bool_decide_eq_true.
  intros Ha [Hb|Hb]; [|subst; naive_solver].
  revert Hb Ha. destruct a as [[] [] [] [] [] [] [] []]; vm_compute; naive_solver.
Qed.

Lemma comma_cons x xs : comma_separated (x :: xs) =
  match xs with [] => x | _ => x ++ ","%char :: comma_separated xs end.
Proof. by destruct xs. Qed.

(** Comma separated items of a prefix code, closed by [close], form a prefix code. *)
Lemma comma_prefix {A} (f : A → bytes) (ok : A → bool) (close : ascii) xs ys r1 r2 :
  (close = "]"%char ∨ close = "}"%char) →
  (∀ x, ok x = true → ∃ a r, f x = a :: r ∧ value_start a = true) →
  (∀ x, x ∈ xs → ∀ y s1 s2, ok y = true → delimited s1 → delimited s2 →
    f x ++ s1 = f y ++ s2 → x = y ∧ s1 = s2) →
  forallb ok xs = true → forallb ok ys = true →
  comma_separated (map f xs) ++ close :: r1 = comma_separated (map f ys) ++ close :: r2 →
  xs = ys ∧ r1 = r2.
Proof.
  intros Hclose Hstart Hpre. revert ys.
  assert (Hd : ∀ r, delimited (close :: r)) by (simpl; naive_solver).
  assert (Hc : ∀ r, delimited (","%char :: r)) by (simpl; naive_solver).
  assert (Hne : ∀ y l r r', ok y = true →
    close :: r ≠ comma_separated (f y :: l) ++ close :: r').
  { intros y l r r' Hy Heq. destruct (Hstart y Hy) as (a & q & Ha & Hv).
    apply (value_start_not_delim a [] Hv). rewrite comma_cons, Ha in Heq.
    destruct l; simplify_eq/=; naive_solver. }
  induction xs as [|x xs IH]; intros [|y ys] Hxs Hys Heq; cbn [map forallb] in *;
    rewrite ?andb_true_iff in *.
  - by simplify_eq/=.
  - by destruct (Hne y (map f ys) r1 r2 (proj1 Hys)).
  - symmetry in Heq. by destruct (Hne x (map f xs) r2 r1 (proj1 Hxs)).
  - destruct Hxs as [Hx Hxs], Hys as [Hy Hys].
    assert (Hsplit : f x ++ match xs with [] => close :: r1
                            | _ => ","%char :: comma_separated (map f xs) ++ close :: r1 end
                   = f y ++ match ys with [] => close :: r2
                            | _ => ","%char :: comma_separated (map f ys) ++ close :: r2 end).
    { rewrite !comma_cons in Heq. destruct xs, ys; simpl in *; rewrite <-?app_assoc in Heq; done. }
    apply Hpre in Hsplit as [<- Hrest]; [|set_solver|done|by destruct xs|by destruct ys].
    destruct xs as [|x' xs], ys as [|y' ys].
    { by simplify_eq. }
    { injection Hrest as Hclose' _. subst close. by destruct Hclose. }
    { injection Hrest as Hclose' _. subst close. by destruct Hclose. }
    injection Hrest as Hrest.
    destruct (IH (λ x Hx, Hpre x ltac:(set_solver)) (y' :: ys)) as [E1 E2]; [done..|]. by simplify_eq.
Qed.

Lemma encode_entry_prefix k k' v v' r1 r2 :
  valid_string k = true → valid_string k' = true →
  encode_entry k v ++ r1 = encode_entry k' v' ++ r2 → k = k' ∧ v ++ r1 = v' ++ r2.
Proof.
  unfold encode_entry. intros Hk Hk' Heq. rewrite <-!app_assoc in Heq.
  apply json_string_prefix in Heq as [-> ?]; [|done..]. by simplify_eq/=.
Qed.

(** Two values that start different texts the same way are the same value. *)
Lemma print_prefix v w r1 r2 :
  wf_json v = true → wf_json w = true → delimited r1 → delimited r2 →
  print v ++ r1 = print w ++ r2 → v = w ∧ r1 = r2.
Proof.
  revert w r1 r2. induction v as [|b|t|s|xs IH|m IH] using json_ind'; intros w r1 r2 Hv Hw H1 H2 Heq.
  - destruct w as [|[]|t'|s'|xs'|m']; simpl in *; simplify_eq/=; try done.
    symmetry in Heq. by apply number_not_start in Heq.
  - destruct b, w as [|[]|t'|s'|xs'|m']; simpl in *; simplify_eq/=; try done;
      symmetry in Heq; by apply number_not_start in Heq.
  - simpl in *. destruct w as [|[]|t'|s'|xs'|m']; simpl in *;
      try (by apply number_not_start in Heq).
    destruct (wf_number_start t Hv) as (_ & _ & _ & _ & Ht).
    destruct (wf_number_start t' Hw) as (_ & _ & _ & _ & Ht').
    destruct (number_span t t' r1 r2) as [-> ->]; done.
  - destruct w as [|[]|t'|s'|xs'|m']; simpl in *; try done.
    + symmetry in Heq. by apply number_not_start in Heq.
    + destruct (json_string_prefix s s' r1 r2) as [-> ->]; done.
  - destruct w as [|[]|t'|s'|xs'|m']; simpl in *; try done.
    + symmetry in Heq. by apply number_not_start in Heq.
    + injection Heq as Heq. rewrite <-!app_assoc in Heq. simpl in Heq.
      apply (comma_prefix print wf_json) in Heq as [-> ->]; try (done || naive_solver).
      * apply print_start.
      * rewrite Forall_forall in IH. intros x Hx y s1 s2 Hy ???.
        apply IH; try done. eapply forallb_forall; [exact Hv|by apply list_elem_of_In].
  - destruct w as [|[]|t'|s'|xs'|m']; simpl in *; try done.
    + symmetry in Heq. by apply number_not_start in Heq.
    + injection Heq as Heq. rewrite <-!app_assoc in Heq. simpl in Heq.
      apply andb_true_iff in Hv as [_ Hv], Hw as [_ Hw].
      apply (comma_prefix _ (λ e, valid_string e.1 && wf_json e.2)) in Heq as [-> ->];
        try (done || naive_solver).
      rewrite Forall_forall in IH. intros [k x] Hx [k' y] s1 s2 Hy ?? He. simpl in *.
      assert (Hkx : valid_string k && wf_json x = true)
        by (eapply (proj1 (forallb_forall _ m) Hv (k, x)); by apply list_elem_of_In).
      rewrite andb_true_iff in Hkx, Hy. destruct Hkx, Hy.
      apply encode_entry_prefix in He as [-> He]; [|done..].
      specialize (IH (k', x) Hx). simpl in IH. apply IH in He as [-> ->]; done.
Qed.

Lemma wf_canon v : wf_json v = true → wf_json (canon v) = true.
Proof.
  induction v as [| | | |xs IH|m IH] using json_ind'; simpl; try done.
  - rewrite !forallb_forall. intros Hwf y Hy. apply in_map_iff in Hy as (x & <- & Hx).
    rewrite Forall_forall in IH. apply IH; [by apply list_elem_of_In|by apply Hwf].
  - rewrite !andb_true_iff, !bool_decide_eq_true, !forallb_forall. intros [Hnd Hwf].
    assert (Hp : sort_entries (map (λ e, (e.1, canon e.2)) m) ≡ₚ map (λ e, (e.1, canon e.2)) m).
    { apply sort_entries_perm. by rewrite map_fst_map. }
    split.
    + rewrite fst_sort_entries, sort_strings_perm; by rewrite map_fst_map.
    + intros e He. apply list_elem_of_In in He. rewrite Hp in He.
      apply list_elem_of_In, in_map_iff in He as (e' & <- & He'). simpl.
      specialize (Hwf e' He'). rewrite andb_true_iff in *. destruct Hwf. split; [done|].
      rewrite Forall_forall in IH. apply IH; [by apply list_elem_of_In|done].
Qed.


Definition sample_ab : json := JObject [("b", JNumber "2"); ("a", JArray [JString "x"; JNull])].
Definition sample_ba : json := JObject [("a", JArray [JString "x"; JNull]); ("b", JNumber "2")].

