(* ===== verification/Id.v ===== *)
(** * Identifiers: [internal/id/id.go]

    [New] lays the millisecond clock, a version and a variant over 16 random bytes and prints the
    result in the UUID grouping.  [rnd] is what [rand.Read] filled in, [now] what
    [time.Now().UnixMilli()] returned. *)

From S2P Require Import Prelude GoStrings Utf8.
Open Scope Z_scope.

(** [byte(x)] *)
Definition to_byte (x : Z) : Z := Z.land x 255.

(** The 16 bytes; byte [i] of [rnd] is [rnd i]. *)
Definition id_byte (now : Z) (rnd : nat → Z) (i : nat) : Z :=
  match i with
  | 0%nat => to_byte (Z.shiftr now 28)
  | 1%nat => to_byte (Z.shiftr now 20)
  | 2%nat => to_byte (Z.shiftr now 12)
  | 3%nat => to_byte (Z.shiftr now 4)
  | 4%nat => Z.lor (Z.land (to_byte (Z.shiftl now 4)) 15) 112
  | 6%nat => Z.lor (Z.land (to_byte (rnd 6%nat)) 63) 128
  | _ => to_byte (rnd i)
  end.

(** [%x] of one byte *)
Definition hex_byte (b : Z) : string :=
  String (hex_digit (Z.to_nat (b / 16))) (String (hex_digit (Z.to_nat (b mod 16))) "").

Definition hex_bytes (bs : list Z) : string := sconcat (map hex_byte bs).

(** [fmt.Sprintf] of the five groups of 4, 2, 2, 2 and 6 bytes *)
Definition New (now : Z) (rnd : nat → Z) : string :=
  let b := id_byte now rnd in
  hex_bytes [b 0; b 1; b 2; b 3]%nat +:+ "-" +:+ hex_bytes [b 4; b 5]%nat +:+ "-" +:+
  hex_bytes [b 6; b 7]%nat +:+ "-" +:+ hex_bytes [b 8; b 9]%nat +:+ "-" +:+
  hex_bytes [b 10; b 11; b 12; b 13; b 14; b 15]%nat.

(** ** Order *)

Definition slt (s t : string) : Prop := String.compare s t = Lt.

Lemma slt_head a b s t : String.compare (String a "") (String b "") = Lt → slt (String a s) (String b t).
Proof.
  unfold slt. cbn [String.compare].
  destruct (Ascii.compare a b); try discriminate; auto.
Qed.

Lemma slt_tail a s t : slt s t → slt (String a s) (String a t).
Proof.
  unfold slt. cbn [String.compare].
  assert (Ascii.compare a a = Eq) as -> by (unfold Ascii.compare; apply N.compare_refl). auto.
Qed.

Lemma slt_app p s t : slt s t → slt (p +:+ s) (p +:+ t).
Proof. intros H. induction p as [|a p IH]; [done|]. by apply slt_tail. Qed.

Definition hex_digits_ordered : bool :=
  forallb (λ i, forallb (λ j, negb (i <? j)%nat ||
    match String.compare (String (hex_digit i) "") (String (hex_digit j) "") with Lt => true | _ => false end)
    (seq 0 16)) (seq 0 16).

Lemma hex_digit_lt i j : (i < j < 16)%nat →
  String.compare (String (hex_digit i) "") (String (hex_digit j) "") = Lt.
Proof.
  intros H. assert (E : hex_digits_ordered = true) by (vm_compute; reflexivity).
  unfold hex_digits_ordered in E. rewrite forallb_forall in E.
  specialize (E i ltac:(apply in_seq; lia)). rewrite forallb_forall in E.
  specialize (E j ltac:(apply in_seq; lia)).
  destruct (Nat.ltb_spec i j); [|lia]. cbn [negb orb] in E.
  destruct (String.compare (String (hex_digit i) "") (String (hex_digit j) "")); done.
Qed.

Lemma hex_byte_lt a b s t : 0 ≤ a < b → b < 256 → slt (hex_byte a +:+ s) (hex_byte b +:+ t).
Proof.
  intros H Hb. unfold hex_byte. simpl.
  pose proof (Z.div_mod a 16 ltac:(lia)). pose proof (Z.div_mod b 16 ltac:(lia)).
  pose proof (Z.mod_pos_bound a 16 ltac:(lia)). pose proof (Z.mod_pos_bound b 16 ltac:(lia)).
  destruct (decide (a / 16 = b / 16)) as [E|E].
  - rewrite E. apply slt_tail, slt_head, hex_digit_lt. lia.
  - apply slt_head, hex_digit_lt. lia.
Qed.

Lemma to_byte_mod x : to_byte x = x mod 256.
Proof. unfold to_byte. change 255 with (Z.ones 8). by rewrite Z.land_ones by lia. Qed.

Lemma id_byte_time now rnd : 0 ≤ now →
  let a := now / 16 in
  id_byte now rnd 0 = (a / 2 ^ 24) mod 256 ∧ id_byte now rnd 1 = (a / 2 ^ 16) mod 256 ∧
  id_byte now rnd 2 = (a / 2 ^ 8) mod 256 ∧ id_byte now rnd 3 = a mod 256.
Proof.
  intros Hn. cbv zeta. unfold id_byte. rewrite !to_byte_mod, !Z.shiftr_div_pow2 by lia.
  rewrite !Z.div_div by lia. done.
Qed.

(** The four bytes of [x mod 2^32], most significant first *)
Lemma four_bytes x :
  x mod 2 ^ 32 = (x / 2 ^ 24) mod 256 * 2 ^ 24 + (x / 2 ^ 16) mod 256 * 2 ^ 16
                 + (x / 2 ^ 8) mod 256 * 2 ^ 8 + x mod 256.
Proof.
  assert (H : ∀ y k, 0 ≤ k → y mod (256 * 2 ^ k) = (y / 2 ^ k) mod 256 * 2 ^ k + y mod 2 ^ k).
  { intros y k Hk. rewrite (Z.mul_comm 256), Z.rem_mul_r by lia. lia. }
  pose proof (H x 24 ltac:(lia)) as E1. pose proof (H x 16 ltac:(lia)) as E2.
  pose proof (H x 8 ltac:(lia)) as E3.
  change (256 * 2 ^ 24) with (2 ^ 32) in E1. change (256 * 2 ^ 16) with (2 ^ 24) in E2.
  change (256 * 2 ^ 8) with (2 ^ 16) in E3. change (x mod 2 ^ 8) with (x mod 256) in E3. lia.
Qed.

(** The 36 bits of the clock that reach an identifier, without the lowest four *)
Definition clock_window (now : Z) : Z := (now / 16) mod 2 ^ 32.

Lemma four_bytes_lt a0 a1 a2 a3 b0 b1 b2 b3 s t :
  0 ≤ a0 < 256 → 0 ≤ a1 < 256 → 0 ≤ a2 < 256 → 0 ≤ a3 < 256 →
  0 ≤ b0 < 256 → 0 ≤ b1 < 256 → 0 ≤ b2 < 256 → 0 ≤ b3 < 256 →
  a0 * 2 ^ 24 + a1 * 2 ^ 16 + a2 * 2 ^ 8 + a3 < b0 * 2 ^ 24 + b1 * 2 ^ 16 + b2 * 2 ^ 8 + b3 →
  slt (hex_byte a0 +:+ hex_byte a1 +:+ hex_byte a2 +:+ hex_byte a3 +:+ s)
      (hex_byte b0 +:+ hex_byte b1 +:+ hex_byte b2 +:+ hex_byte b3 +:+ t).
Proof.
  intros A0 A1 A2 A3 B0 B1 B2 B3 Hlt.
  destruct (decide (a0 = b0)) as [->|]; [|apply hex_byte_lt; lia]. apply slt_app.
  destruct (decide (a1 = b1)) as [->|]; [|apply hex_byte_lt; lia]. apply slt_app.
  destruct (decide (a2 = b2)) as [->|]; [|apply hex_byte_lt; lia]. apply slt_app.
  apply hex_byte_lt; lia.
Qed.

Lemma New_lt now1 now2 rnd1 rnd2 : 0 ≤ now1 → 0 ≤ now2 →
  clock_window now1 < clock_window now2 → slt (New now1 rnd1) (New now2 rnd2).
Proof.
  intros H1 H2. unfold clock_window. rewrite !four_bytes. intros Hlt.
  destruct (id_byte_time now1 rnd1 H1) as (A0 & A1 & A2 & A3).
  destruct (id_byte_time now2 rnd2 H2) as (B0 & B1 & B2 & B3).
  unfold New, hex_bytes. cbn [map sconcat]. rewrite A0, A1, A2, A3, B0, B1, B2, B3, !sapp_assoc.
  apply four_bytes_lt; [apply Z.mod_pos_bound; lia..|exact Hlt].
Qed.

(** C40: identifiers created in order sort in order, within one clock window.  Two calls whose clocks
    lie in the same 2^36 ms window and at least one 16 ms tick apart give identifiers in
    lexicographic order, whatever the random bytes. *)
Theorem New_ordered now1 now2 rnd1 rnd2 :
  0 ≤ now1 → now1 / 2 ^ 36 = now2 / 2 ^ 36 → now1 / 16 < now2 / 16 →
  slt (New now1 rnd1) (New now2 rnd2).
Proof.
  intros H0 Hw Ht. assert (H2 : 0 ≤ now2).
  { destruct (Z.le_gt_cases 0 now2); [done|]. pose proof (Z.div_pos now1 16 H0 ltac:(lia)).
    pose proof (Z.div_lt_upper_bound now2 16 0 ltac:(lia) ltac:(lia)). lia. }
  apply New_lt; [done..|]. unfold clock_window.
  assert (E : ∀ n, n / 2 ^ 36 = n / 16 / 2 ^ 32) by (intros; by rewrite Z.div_div by lia).
  rewrite !E in Hw. pose proof (Z.div_mod (now1 / 16) (2 ^ 32) ltac:(lia)).
  pose proof (Z.div_mod (now2 / 16) (2 ^ 32) ltac:(lia)). lia.
Qed.

Lemma New_ordered_witness :
  slt (New 1700000000000 (λ _, 255)) (New 1700000000016 (λ _, 0)).
Proof.
  apply (New_ordered 1700000000000 1700000000016 (λ _, 255) (λ _, 0)); [lia|reflexivity|reflexivity].
Defined.

(** The order is lost at the edge of a window.  A clock at the end of the 25th window of 2^36 ms
    (in August 2026) and the clock 16 ms later give identifiers in the opposite order, whatever the
    random bytes. *)
Theorem New_wraps rnd1 rnd2 :
  let now1 := 26 * 2 ^ 36 - 16 in let now2 := 26 * 2 ^ 36 in
  now1 < now2 ∧ slt (New now2 rnd2) (New now1 rnd1).
Proof. cbv zeta. split; [lia|]. apply New_lt; [lia..|]. unfold clock_window. reflexivity. Qed.

(** An identifier is never a version 7 UUID, and time takes 32 bits of it.  Its second group
    always starts with [70], which is where the version was written, and its third group, where a
    UUID has its version digit, always starts with [8], [9], [a] or [b]. *)
Theorem New_version now rnd :
  ∃ g1 g2 g3 rest, New now rnd = g1 +:+ "-70" +:+ g2 +:+ "-" +:+ g3 +:+ rest ∧
    String.length g1 = 8%nat ∧ String.length g2 = 2%nat ∧ g3 ∈ ["8"; "9"; "a"; "b"].
Proof.
  assert (H4 : id_byte now rnd 4 = 112).
  { unfold id_byte, to_byte. rewrite <-Z.land_assoc. change (Z.land 255 15) with (Z.ones 4).
    rewrite Z.land_ones, Z.shiftl_mul_pow2, Z.mod_mul by lia. done. }
  assert (H6 : 8 ≤ id_byte now rnd 6 / 16 < 12).
  { unfold id_byte, to_byte. rewrite <-Z.land_assoc. change (Z.land 255 63) with (Z.ones 6).
    rewrite Z.land_ones by lia. pose proof (Z.mod_pos_bound (rnd 6%nat) (2 ^ 6) ltac:(lia)).
    assert (E : Z.lor (rnd 6%nat mod 2 ^ 6) 128 = rnd 6%nat mod 2 ^ 6 + 128).
    { assert (L : Z.land (rnd 6%nat mod 2 ^ 6) 128 = 0); [|by rewrite <-Z.lxor_lor, Z.add_nocarry_lxor].
      apply Z.bits_inj'. intros n Hn. rewrite Z.land_spec, Z.bits_0.
      change 128 with (2 ^ 7). rewrite Z.pow2_bits_eqb by lia. destruct (Z.eqb_spec 7 n) as [<-|]; [|apply andb_false_r].
      rewrite Z.mod_pow2_bits_high by lia. done. }
    rewrite E. split; [apply Z.div_le_lower_bound|apply Z.div_lt_upper_bound]; lia. }
  unfold New, hex_bytes. cbn [map sconcat]. rewrite H4. rewrite !sapp_assoc.
  exists (hex_byte (id_byte now rnd 0) +:+ hex_byte (id_byte now rnd 1) +:+ hex_byte (id_byte now rnd 2)
          +:+ hex_byte (id_byte now rnd 3)), (hex_byte (id_byte now rnd 5)),
    (String (hex_digit (Z.to_nat (id_byte now rnd 6 / 16))) "").
  eexists. split; [|split; [done|]].
  - rewrite !sapp_assoc. reflexivity.
  - split; [done|]. assert (Hc : id_byte now rnd 6 / 16 = 8 ∨ id_byte now rnd 6 / 16 = 9 ∨
      id_byte now rnd 6 / 16 = 10 ∨ id_byte now rnd 6 / 16 = 11) by lia.
    destruct Hc as [-> |[-> |[-> | ->]]]; vm_compute; set_solver.
Qed.
