(* ===== verification/Events.v ===== *)
(** * The event bus: [internal/events/bus.go]

    [Publish] appends a row to the [events] table and offers the event to every live subscriber;
    [Subscribe] registers a bounded channel and then replays the rows after a given id.  The mutex
    covers the fan-out and the registration but neither the insert, the replay's query nor its
    sends, so [step] makes each of them a separate step and lets any number of publishers and
    subscribers interleave.  A failing database is not modelled. *)

From S2P Require Import Prelude Utf8.
Open Scope Z_scope.

(** ** Data *)

Record Event := mkEvent {
  ev_id : Z;
  ev_type : string;
  ev_node : string;      (* "" is SQL NULL *)
  ev_payload : bytes;
}.

(** A subscriber: its channel, and four fields that only the specification reads: what its reader
    has taken out of the channel, what was dropped because the channel was full, the last event id
    at its registration and the resume point it asked for. *)
Record Sub := mkSub {
  sub_ch : list Event;
  sub_got : list Event;
  sub_dropped : list Event;
  sub_from : Z;
  sub_after : Z;
}.

Record EventBus := mkBus {
  bus_events : list Event;        (* the events table, in id order *)
  bus_seq : Z;                    (* its AUTOINCREMENT counter *)
  bus_subs : gmap Z Sub;
  bus_nextID : Z;
}.

#[export] Instance Event_eq_dec : EqDecision Event.
Proof. solve_decision. Defined.

Definition NewEventBus : EventBus :=
  {| bus_events := []; bus_seq := 0; bus_subs := ∅; bus_nextID := 0 |}.

Definition channel_cap : nat := 1024.
Definition replay_limit : nat := 500.

(** [select { case ch <- ev: default: }] on a channel of capacity 1024 *)
Definition offer (ev : Event) (s : Sub) : Sub :=
  if (length (sub_ch s) <? channel_cap)%nat
  then mkSub (sub_ch s ++ [ev]) (sub_got s) (sub_dropped s) (sub_from s) (sub_after s)
  else mkSub (sub_ch s) (sub_got s) (sub_dropped s ++ [ev]) (sub_from s) (sub_after s).

(** [q.AppendEvent]: insert a row, returning its id *)
Definition AppendEvent (typ node : string) (payload : bytes) (b : EventBus) : Event * EventBus :=
  let ev := mkEvent (bus_seq b + 1) typ node payload in
  (ev, {| bus_events := bus_events b ++ [ev]; bus_seq := bus_seq b + 1;
          bus_subs := bus_subs b; bus_nextID := bus_nextID b |}).

Definition set_subs (f : gmap Z Sub → gmap Z Sub) (b : EventBus) : EventBus :=
  {| bus_events := bus_events b; bus_seq := bus_seq b;
     bus_subs := f (bus_subs b); bus_nextID := bus_nextID b |}.

(** The loop of [Publish] over the live subscribers *)
Definition fanout (ev : Event) : EventBus → EventBus := set_subs (fmap (offer ev)).

(** [Publish], run without interference *)
Definition Publish (typ node : string) (payload : bytes) (b : EventBus) : EventBus :=
  let '(ev, b) := AppendEvent typ node payload b in fanout ev b.

(** [q.ListEventsSince(afterID, 500)] *)
Definition ListEventsSince (after : Z) (limit : nat) (b : EventBus) : list Event :=
  take limit (filter (λ e, after < ev_id e) (bus_events b)).

(** The registration half of [Subscribe] *)
Definition register (after : Z) (b : EventBus) : Z * EventBus :=
  let sid := bus_nextID b + 1 in
  (sid, {| bus_events := bus_events b; bus_seq := bus_seq b;
           bus_subs := <[sid := mkSub [] [] [] (bus_seq b) (Z.max after 0)]> (bus_subs b);
           bus_nextID := sid |}).

(** The query of the replay half of [Subscribe] *)
Definition replay_rows (after : Z) (b : EventBus) : list Event :=
  let after := Z.max after 0 in ListEventsSince after replay_limit b.

(** One send of the replay loop *)
Definition send (sid : Z) (ev : Event) : EventBus → EventBus := set_subs (alter (offer ev) sid).

(** The replay half of [Subscribe] *)
Definition replay (sid after : Z) (b : EventBus) : EventBus :=
  fold_left (λ b ev, send sid ev b) (replay_rows after b) b.

(** [Subscribe], run without interference *)
Definition Subscribe (after : Z) (b : EventBus) : Z * EventBus :=
  let '(sid, b) := register after b in (sid, replay sid after b).

(** The [cancel] that [Subscribe] returns *)
Definition cancel (sid : Z) : EventBus → EventBus := set_subs (delete sid).

(** One receive from the channel *)
Definition recv (sid : Z) : EventBus → EventBus :=
  set_subs (alter (λ s, match sub_ch s with
                        | [] => s
                        | e :: ch => mkSub ch (sub_got s ++ [e]) (sub_dropped s) (sub_from s) (sub_after s)
                        end) sid).

(** ** Interleaving *)

(** How far an unfinished [Subscribe] is: it has registered its channel and is about to query the
    rows after its resume point, or it holds the query's answer and is sending it row by row. *)
Inductive replaying :=
| Querying (after : Z)
| Sending (rows : list Event).

(** A configuration: the bus, the events inserted but not yet fanned out, and the unfinished
    subscriptions. *)
Record config := mkConfig {
  c_bus : EventBus;
  c_pending : list Event;
  c_replays : list (Z * replaying);
}.

Inductive step : config → config → Prop :=
| step_insert typ node payload b ps rs ev b' :
    AppendEvent typ node payload b = (ev, b') →
    step (mkConfig b ps rs) (mkConfig b' (ps ++ [ev]) rs)
| step_fanout b ps1 ev ps2 rs :
    step (mkConfig b (ps1 ++ ev :: ps2) rs) (mkConfig (fanout ev b) (ps1 ++ ps2) rs)
| step_register b ps rs sid b' after :
    register after b = (sid, b') →
    step (mkConfig b ps rs) (mkConfig b' ps (rs ++ [(sid, Querying after)]))
| step_query b ps rs1 sid after rs2 :
    step (mkConfig b ps (rs1 ++ (sid, Querying after) :: rs2))
         (mkConfig b ps (rs1 ++ (sid, Sending (replay_rows after b)) :: rs2))
| step_send b ps rs1 sid ev rows rs2 :
    step (mkConfig b ps (rs1 ++ (sid, Sending (ev :: rows)) :: rs2))
         (mkConfig (send sid ev b) ps (rs1 ++ (sid, Sending rows) :: rs2))
| step_subscribed b ps rs1 sid rs2 :
    step (mkConfig b ps (rs1 ++ (sid, Sending []) :: rs2)) (mkConfig b ps (rs1 ++ rs2))
| step_recv b ps rs sid :
    step (mkConfig b ps rs) (mkConfig (recv sid b) ps rs)
| step_cancel b ps rs sid :
    sid ∉ rs.*1 →
    step (mkConfig b ps rs) (mkConfig (cancel sid b) ps rs).

Definition initial : config := mkConfig NewEventBus [] [].
Definition reachable (c : config) : Prop := rtc step initial c.

(** Everything a subscriber has been handed so far: read or still in its channel. *)
Definition delivered (s : Sub) : list Event := sub_got s ++ sub_ch s.

(** Everything offered to it, dropped events included. *)
Definition offered (s : Sub) : list Event := delivered s ++ sub_dropped s.

(** ** Facts *)

Lemma offer_offered ev s e : e ∈ offered (offer ev s) ↔ e ∈ offered s ∨ e = ev.
Proof.
  unfold offer, offered, delivered. case_match; simpl; rewrite !elem_of_app; set_solver.
Qed.

Lemma offer_static ev s : sub_from (offer ev s) = sub_from s ∧ sub_after (offer ev s) = sub_after s.
Proof. unfold offer. by case_match. Qed.

Lemma offer_bounded ev s : (length (sub_ch s) ≤ channel_cap)%nat →
  (length (sub_ch (offer ev s)) ≤ channel_cap)%nat.
Proof.
  unfold offer. destruct (Nat.ltb_spec (length (sub_ch s)) channel_cap); simpl; [|done].
  rewrite length_app. simpl. lia.
Qed.

Lemma elem_of_take_filter_snoc (P : Event → Prop) `{∀ e, Decision (P e)} n l x e :
  e ∈ take n (filter P (l ++ [x])) → e ∈ take n (filter P l) ∨ e = x.
Proof.
  rewrite filter_app, take_app, elem_of_app. intros [?|H']; [by left|right].
  apply elem_of_take in H' as (i & Hi & _). apply list_elem_of_lookup_2 in Hi.
  rewrite list_elem_of_filter in Hi. set_solver.
Qed.

(** ** The invariant of the interleaved system *)

(** The rows a subscriber still owes its reader from the resume window are being sent. *)
Definition replay_due (c : config) (sid : Z) (s : Sub) (rest : list Event) : Prop :=
  ∀ e, e ∈ ListEventsSince (sub_after s) replay_limit (c_bus c) → ev_id e ≤ sub_from s →
       e ∈ offered s ∨ e ∈ rest.

(** What holds of one registered subscriber. *)
Record sub_ok (c : config) (sid : Z) (s : Sub) : Prop := {
  so_id : sid ≤ bus_nextID (c_bus c);
  so_cap : (length (sub_ch s) ≤ channel_cap)%nat;
  so_sound : ∀ e, e ∈ offered s → e ∈ bus_events (c_bus c);
  so_live : ∀ e, e ∈ bus_events (c_bus c) → sub_from s < ev_id e → e ∈ c_pending c ∨ e ∈ offered s;
  so_from : sub_from s ≤ bus_seq (c_bus c);
  so_replay :
    (∃ a, (sid, Querying a) ∈ c_replays c) ∨
    (∃ rows, (sid, Sending rows) ∈ c_replays c ∧ replay_due c sid s rows) ∨
    replay_due c sid s [];
}.

(** What holds of one unfinished subscription. *)
Definition replay_ok (b : EventBus) (sid : Z) (r : replaying) : Prop :=
  sid ≤ bus_nextID b ∧
  match r with
  | Querying a => ∀ s, bus_subs b !! sid = Some s → sub_after s = Z.max a 0
  | Sending rows => ∀ e, e ∈ rows → e ∈ bus_events b
  end.

Record bus_inv (c : config) : Prop := {
  bi_seq : bus_seq (c_bus c) = Z.of_nat (length (bus_events (c_bus c)));
  bi_ids : ∀ i e, bus_events (c_bus c) !! i = Some e → ev_id e = Z.of_nat i + 1;
  bi_pending : ∀ e, e ∈ c_pending c → e ∈ bus_events (c_bus c);
  bi_subs : ∀ sid s, bus_subs (c_bus c) !! sid = Some s → sub_ok c sid s;
  bi_replays : ∀ sid r, (sid, r) ∈ c_replays c → replay_ok (c_bus c) sid r;
}.

Lemma ListEventsSince_sound after n b e : e ∈ ListEventsSince after n b → e ∈ bus_events b.
Proof.
  intros (i & Hi & _)%elem_of_take. apply list_elem_of_lookup_2 in Hi.
  by apply list_elem_of_filter in Hi as [_ ?].
Qed.

(** A subscriber keeps its invariant when it is offered a persisted event. *)
Lemma sub_ok_offer b ps rs sid s ev :
  ev ∈ bus_events b →
  sub_ok (mkConfig b ps rs) sid s → sub_ok (mkConfig b ps rs) sid (offer ev s).
Proof.
  intros Hev [Hid Hcap Hsound Hlive Hfrom Hrep]; simpl in *. destruct (offer_static ev s) as [Hf Ha].
  assert (Hdue : ∀ rest, replay_due (mkConfig b ps rs) sid s rest →
                         replay_due (mkConfig b ps rs) sid (offer ev s) rest).
  { intros rest Hd e. rewrite Hf, Ha, offer_offered. intros He Hle. destruct (Hd e He Hle); tauto. }
  split; simpl; rewrite ?Hf; try done; [by apply offer_bounded| | |].
  - intros e. rewrite offer_offered. intros [?| ->]; [by apply Hsound|done].
  - intros e He Hlt. rewrite offer_offered. destruct (Hlive e He Hlt); tauto.
  - destruct Hrep as [?|[(rows & ? & ?)|?]]; [by left|right; left; eauto|right; right; eauto].
Qed.

(** Changing the subscriber table leaves what holds of one subscriber alone. *)
Lemma sub_ok_set_subs f b ps rs sid s :
  sub_ok (mkConfig b ps rs) sid s → sub_ok (mkConfig (set_subs f b) ps rs) sid s.
Proof. intros [? ? ? ? ? ?]. by split. Qed.

Lemma replay_ok_set_subs f b sid r :
  (∀ s, bus_subs (set_subs f b) !! sid = Some s →
        ∃ s0, bus_subs b !! sid = Some s0 ∧ sub_after s = sub_after s0) →
  replay_ok b sid r → replay_ok (set_subs f b) sid r.
Proof.
  intros Hf [Hid Hr]. split; [done|]. destruct r as [a|rows]; [|done].
  intros s (s0 & Hs0 & ->)%Hf. by apply Hr.
Qed.

Lemma bus_inv_initial : bus_inv initial.
Proof. split; simpl; set_solver. Qed.

Lemma bus_inv_insert typ node payload b ps rs ev b' :
  AppendEvent typ node payload b = (ev, b') →
  bus_inv (mkConfig b ps rs) → bus_inv (mkConfig b' (ps ++ [ev]) rs).
Proof.
  intros Happ [Hseq Hids Hp Hs Hr]. unfold AppendEvent in Happ. simplify_eq/=.
  split; simpl in *.
  - rewrite length_app. simpl. lia.
  - intros i e Hi. apply lookup_app_Some in Hi as [Hi|[Hge Hi]]; [by apply Hids|].
    apply list_lookup_singleton_Some in Hi as [Hi <-]. simpl. lia.
  - set_solver.
  - intros sid s Hsub. destruct (Hs sid s Hsub) as [? ? Hsound Hlive ? Hrep]; simpl in *.
    match goal with |- sub_ok ?c' _ _ => set (c2 := c') end.
    assert (Hdue : ∀ rest, replay_due (mkConfig b ps rs) sid s rest → replay_due c2 sid s rest).
    { intros rest Hd e He Hfrom. unfold ListEventsSince in *. simpl in *.
      apply elem_of_take_filter_snoc in He as [He| ->]; [by apply Hd|simpl in *; lia]. }
    split; simpl; try done; try lia; [set_solver|set_solver|].
    destruct Hrep as [?|[(rows & ? & ?)|?]]; [by left|right; left; eauto|right; right; eauto].
  - intros sid [a|rows] Hin; destruct (Hr sid _ Hin) as [? Hrow]; (split; [done|]); [done|].
    simpl in *. set_solver.
Qed.

Lemma bus_inv_fanout b ps1 ev ps2 rs :
  bus_inv (mkConfig b (ps1 ++ ev :: ps2) rs) → bus_inv (mkConfig (fanout ev b) (ps1 ++ ps2) rs).
Proof.
  intros [Hseq Hids Hp Hs Hr]. split; simpl in *; try done; [set_solver| |].
  - intros sid s Hsub. rewrite lookup_fmap in Hsub.
    destruct (bus_subs b !! sid) as [s0|] eqn:E; simplify_eq/=. apply sub_ok_set_subs.
    pose proof (Hs sid s0 E) as H0.
    apply (sub_ok_offer b _ _ _ _ ev) in H0 as [? ? ? Hlive ? ?]; [|apply Hp; set_solver].
    split; try done. simpl in *. intros e He Hlt. destruct (Hlive e He Hlt) as [Hin|?]; [|tauto].
    rewrite offer_offered. set_solver.
  - intros sid r Hin. apply replay_ok_set_subs; [|by apply Hr].
    intros s Hsub. simpl in Hsub. rewrite lookup_fmap in Hsub.
    destruct (bus_subs b !! sid) as [s0|] eqn:E; simplify_eq/=.
    exists s0. split; [done|]. apply offer_static.
Qed.

Lemma bus_inv_register b ps rs sid b' after :
  register after b = (sid, b') →
  bus_inv (mkConfig b ps rs) → bus_inv (mkConfig b' ps (rs ++ [(sid, Querying after)])).
Proof.
  intros Hreg [Hseq Hids Hp Hs Hr]. unfold register in Hreg. simplify_eq/=.
  split; simpl in *; try done.
  - intros sid s Hsub. rewrite lookup_insert in Hsub. case_decide as E; simplify_eq.
    + split; simpl; try done; try lia; [set_solver| |].
      * intros e He Hlt. apply list_elem_of_lookup in He as [i Hi].
        pose proof (Hids i e Hi). apply lookup_lt_Some in Hi. lia.
      * left. exists after. set_solver.
    + destruct (Hs sid s Hsub) as [? ? Hsound Hlive ? Hrep]; simpl in *.
      split; simpl; try done; try lia.
      destruct Hrep as [[a ?]|[(rows & ? & ?)|?]]; [left; exists a; set_solver| |by right; right].
      right; left. exists rows. split; [set_solver|done].
  - intros sid r [Hin|Hin]%elem_of_app.
    + destruct (Hr sid r Hin) as [? Ha]. split; [simpl; lia|]. destruct r as [a|]; [|done].
      intros s Hsub. simpl in Hsub. rewrite lookup_insert_ne in Hsub by lia. by apply Ha.
    + apply list_elem_of_singleton in Hin. simplify_eq. split; [done|]. intros s Hsub.
      simpl in Hsub. rewrite lookup_insert_eq in Hsub. by simplify_eq.
Qed.

Lemma bus_inv_query b ps rs1 sid after rs2 :
  bus_inv (mkConfig b ps (rs1 ++ (sid, Querying after) :: rs2)) →
  bus_inv (mkConfig b ps (rs1 ++ (sid, Sending (replay_rows after b)) :: rs2)).
Proof.
  intros [Hseq Hids Hp Hs Hr]. split; simpl in *; try done.
  - intros sid' s Hsub. destruct (Hs sid' s Hsub) as [? ? Hsound Hlive ? Hrep]; simpl in *.
    split; simpl; try done. destruct Hrep as [[a Ha]|[(rows & Hin & ?)|?]]; [| |by right; right].
    + apply elem_of_middle in Ha as [E|Hin]; [|left; exists a; set_solver]. simplify_eq.
      right; left. exists (replay_rows after b). split; [set_solver|].
      intros e He _. right. simpl in He. unfold replay_rows.
      destruct (Hr sid (Querying after) ltac:(set_solver)) as [_ Haft]. by rewrite <-(Haft s Hsub).
    + right; left. exists rows. split; [set_solver|done].
  - intros sid' r [E|Hin]%elem_of_middle; [|apply Hr; set_solver]. simplify_eq.
    split; [by apply (Hr sid (Querying after)); set_solver|]. intros e. apply ListEventsSince_sound.
Qed.

Lemma bus_inv_send b ps rs1 sid ev rows rs2 :
  bus_inv (mkConfig b ps (rs1 ++ (sid, Sending (ev :: rows)) :: rs2)) →
  bus_inv (mkConfig (send sid ev b) ps (rs1 ++ (sid, Sending rows) :: rs2)).
Proof.
  intros [Hseq Hids Hp Hs Hr]. simpl in *.
  destruct (Hr sid (Sending (ev :: rows)) ltac:(set_solver)) as [Hsid Hrows].
  split; simpl in *; try done.
  - intros sid' s Hsub. apply sub_ok_set_subs. rewrite lookup_alter in Hsub. case_decide as E.
    + subst sid'. destruct (bus_subs b !! sid) as [s0|] eqn:E0; simplify_eq/=.
      pose proof (Hs sid s0 E0) as H0.
      assert (Hrep0 := so_replay _ _ _ H0).
      apply (sub_ok_offer b _ _ _ _ ev) in H0 as [? ? ? ? ? Hrep]; [|set_solver].
      split; try done. simpl in *. destruct (offer_static ev s0) as [Hf Ha].
      destruct Hrep as [[a Hin]|[(rows' & Hin & Hd)|?]]; [left; exists a; set_solver| |by right; right].
      right; left. apply elem_of_middle in Hin as [E|Hin]; [|exists rows'; set_solver]. simplify_eq.
      exists rows. split; [set_solver|]. intros e He Hle.
      destruct Hrep0 as [_|_]; destruct (Hd e He Hle) as [?|[-> |?]%elem_of_cons]; try tauto;
        left; apply offer_offered; by right.
    + destruct (Hs sid' s Hsub) as [? ? ? ? ? Hrep]; split; try done. simpl in *.
      destruct Hrep as [[a ?]|[(rows' & ? & ?)|?]]; [left; exists a; set_solver| |by right; right].
      right; left. exists rows'. set_solver.
  - intros sid' r Hin. apply replay_ok_set_subs.
    + intros s Hsub. simpl in Hsub. rewrite lookup_alter in Hsub. case_decide; [subst|by eauto].
      destruct (bus_subs b !! sid') as [s0|] eqn:E0; simplify_eq/=.
      exists s0. split; [done|]. apply offer_static.
    + apply elem_of_middle in Hin as [E|Hin]; [simplify_eq; split; set_solver|apply Hr; set_solver].
Qed.

Lemma bus_inv_subscribed b ps rs1 sid rs2 :
  bus_inv (mkConfig b ps (rs1 ++ (sid, Sending []) :: rs2)) → bus_inv (mkConfig b ps (rs1 ++ rs2)).
Proof.
  intros [Hseq Hids Hp Hs Hr]. split; simpl in *; try done; [|intros; apply Hr; set_solver].
  intros sid' s Hsub. destruct (Hs sid' s Hsub) as [? ? ? ? ? Hrep]; split; try done. simpl in *.
  destruct Hrep as [[a Hin]|[(rows' & Hin & ?)|?]]; [left; exists a; set_solver| |by right; right].
  apply elem_of_middle in Hin as [E|Hin]; [|right; left; by exists rows']. simplify_eq. by right; right.
Qed.

Lemma bus_inv_recv b ps rs sid :
  bus_inv (mkConfig b ps rs) → bus_inv (mkConfig (recv sid b) ps rs).
Proof.
  intros [Hseq Hids Hp Hs Hr]. split; simpl in *; try done.
  - intros sid' s Hsub. apply sub_ok_set_subs. rewrite lookup_alter in Hsub. case_decide as E; [|by apply Hs].
    subst sid'. destruct (bus_subs b !! sid) as [s0|] eqn:E0; simplify_eq/=.
    destruct (Hs sid s0 E0) as [? Hcap Hsound Hlive ? Hrep]; simpl in *.
    destruct (sub_ch s0) as [|x ch] eqn:Ech; [by split; rewrite ?Ech|].
    assert (Hoff : offered (mkSub ch (sub_got s0 ++ [x]) (sub_dropped s0) (sub_from s0) (sub_after s0))
                   = offered s0).
    { unfold offered, delivered. simpl. by rewrite Ech, <-!app_assoc. }
    unfold replay_due in Hrep. simpl in *.
    split; unfold replay_due; simpl in *; rewrite ?Hoff; try done. lia.
  - intros sid' r Hin. apply replay_ok_set_subs; [|by apply Hr].
    intros s Hsub. simpl in Hsub. rewrite lookup_alter in Hsub. case_decide; [subst|by eauto].
    destruct (bus_subs b !! sid') as [s0|]; simplify_eq/=. exists s0. split; [done|]. by case_match.
Qed.

Lemma bus_inv_cancel b ps rs sid :
  bus_inv (mkConfig b ps rs) → bus_inv (mkConfig (cancel sid b) ps rs).
Proof.
  intros [Hseq Hids Hp Hs Hr]. split; simpl in *; try done.
  - intros sid' s [_ Hsub]%lookup_delete_Some. apply sub_ok_set_subs. by apply Hs.
  - intros sid' r Hin. apply replay_ok_set_subs; [|by apply Hr].
    intros s Hsub. simpl in Hsub. apply lookup_delete_Some in Hsub as [_ Hsub]. by eauto.
Qed.

Lemma bus_inv_step c c' : step c c' → bus_inv c → bus_inv c'.
Proof.
  destruct 1; eauto using bus_inv_insert, bus_inv_fanout, bus_inv_register, bus_inv_query,
    bus_inv_send, bus_inv_subscribed, bus_inv_recv, bus_inv_cancel.
Qed.

Lemma bus_inv_reachable c : reachable c → bus_inv c.
Proof.
  unfold reachable. revert c. apply rtc_ind_r; eauto using bus_inv_initial, bus_inv_step.
Qed.

(** ** The properties *)

(** C5: at-least-once delivery under every interleaving of publishers and subscribers.  Once
    [Subscribe] has returned, every persisted event after its resume point is in flight, or was
    handed to the subscriber, or was dropped because the subscriber's 1024-slot channel was full, or
    predates the registration and lies beyond the 500-row resume window; and a subscriber is only
    ever handed persisted events, in a channel that never exceeds its capacity. *)
Theorem bus_at_least_once c sid s :
  reachable c → bus_subs (c_bus c) !! sid = Some s → sid ∉ (c_replays c).*1 →
  (length (sub_ch s) ≤ channel_cap)%nat ∧
  (∀ e, e ∈ delivered s → e ∈ bus_events (c_bus c)) ∧
  ∀ e, e ∈ bus_events (c_bus c) → sub_after s < ev_id e →
    e ∈ c_pending c ∨ e ∈ delivered s ∨ e ∈ sub_dropped s ∨
    (ev_id e ≤ sub_from s ∧ e ∉ ListEventsSince (sub_after s) replay_limit (c_bus c)).
Proof.
  intros Hc Hs Hrep. destruct (bus_inv_reachable c Hc) as [_ _ _ Hsubs _].
  destruct (Hsubs sid s Hs) as [_ Hcap Hsound Hlive _ [[a Hin]|[(rows & Hin & _)|Hreplay]]].
  1-2: apply (list_elem_of_fmap_2 fst) in Hin; set_solver.
  split; [done|]. split; [intros e He; apply Hsound; unfold offered; set_solver|].
  intros e He Hafter. destruct (decide (sub_from s < ev_id e)) as [Hlt|Hge].
  { destruct (Hlive e He Hlt) as [|Ho]; [by left|]. unfold offered in Ho. set_solver. }
  destruct (decide (e ∈ ListEventsSince (sub_after s) replay_limit (c_bus c))) as [Hin|Hout].
  - destruct (Hreplay e Hin ltac:(lia)) as [Ho|]; [unfold offered in Ho|]; set_solver.
  - right; right; right. split; [lia|done].
Qed.

(** A subscriber of an idle bus that is handed the first event and reads nothing. *)
Definition ev1 : Event := mkEvent 1 "node.updated" "n1" [].
Definition ev2 : Event := mkEvent 2 "node.updated" "n2" [].

Definition quiet : config :=
  mkConfig (mkBus [ev1; ev2] 2 {[1 := mkSub [ev1; ev2] [] [] 1 0]} 1) [] [].

Definition raced : config :=
  mkConfig (mkBus [ev1; ev2] 2 {[1 := mkSub [ev2; ev1; ev2] [] [] 1 0]} 1) [] [].

(** Prepend one concrete step to a run. *)
Ltac take_step H := eapply rtc_l; [eapply H; try reflexivity|simpl].

(** Register after [ev1]. *)
Lemma reach_registered :
  reachable (mkConfig (mkBus [ev1] 1 {[1 := mkSub [] [] [] 1 0]} 1) [] [(1, Querying 0)]).
Proof.
  take_step (step_insert "node.updated" "n1" []).
  take_step (λ b, step_fanout b [] ev1 []).
  take_step (λ b ps rs b', step_register b ps rs 1 b' 0). apply rtc_refl.
Qed.

Lemma reach_quiet : reachable quiet.
Proof.
  unfold reachable. etransitivity; [apply reach_registered|].
  take_step (λ b ps, step_query b ps [] 1 0 []).
  take_step (λ b ps, step_send b ps [] 1 ev1 [] []).
  take_step (λ b ps, step_subscribed b ps [] 1 []).
  take_step (step_insert "node.updated" "n2" []).
  take_step (λ b, step_fanout b [] ev2 []). apply rtc_refl.
Qed.

Lemma bus_at_least_once_witness :
  ev1 ∈ c_pending quiet ∨ ev1 ∈ [ev1; ev2] ∨ ev1 ∈ [] ∨
  (1 ≤ 1 ∧ ev1 ∉ ListEventsSince 0 replay_limit (c_bus quiet)).
Proof.
  apply (bus_at_least_once quiet 1 (mkSub [ev1; ev2] [] [] 1 0)).
  - apply reach_quiet.
  - reflexivity.
  - simpl. apply not_elem_of_nil.
  - simpl. apply elem_of_cons. by left.
  - simpl. lia.
Defined.

(** The replayed rows need not come first.  A publisher that runs between the registration and
    the replay's query has its event delivered ahead of the older rows, and then delivered again by
    the replay: a subscriber can be handed ids 2, 1, 2. *)
Theorem subscribe_out_of_order :
  ∃ c s, reachable c ∧ bus_subs (c_bus c) !! 1 = Some s ∧ c_replays c = [] ∧
         ev_id <$> delivered s = [2; 1; 2].
Proof.
  exists raced, (mkSub [ev2; ev1; ev2] [] [] 1 0). split; [|done].
  unfold reachable. etransitivity; [apply reach_registered|].
  take_step (step_insert "node.updated" "n2" []).
  take_step (λ b, step_fanout b [] ev2 []).
  take_step (λ b ps, step_query b ps [] 1 0 []).
  take_step (λ b ps, step_send b ps [] 1 ev1 [ev2] []).
  take_step (λ b ps, step_send b ps [] 1 ev2 [] []).
  take_step (λ b ps, step_subscribed b ps [] 1 []). apply rtc_refl.
Qed.

(** Run without interference, a new subscriber is handed exactly the resume window, in id order. *)
Lemma replay_sends rows b sid s :
  bus_subs b !! sid = Some s → (length (sub_ch s) + length rows ≤ channel_cap)%nat →
  sub_ch <$> bus_subs (fold_left (λ b ev, send sid ev b) rows b) !! sid = Some (sub_ch s ++ rows).
Proof.
  revert b s. induction rows as [|r rows IH]; intros b s Hs Hlen; simpl in *.
  { by rewrite Hs, app_nil_r. }
  rewrite (IH _ (offer r s)); [|by simpl; rewrite lookup_alter_eq, Hs|];
    unfold offer; rewrite (proj2 (Nat.ltb_lt _ _)) by lia; simpl.
  - by rewrite <-app_assoc.
  - rewrite length_app. simpl. lia.
Qed.

Lemma subscribe_replays after b sid b' :
  Subscribe after b = (sid, b') →
  sub_ch <$> bus_subs b' !! sid = Some (ListEventsSince (Z.max after 0) replay_limit b).
Proof.
  unfold Subscribe, register, replay. intros; simplify_eq/=.
  rewrite (replay_sends _ _ _ (mkSub [] [] [] (bus_seq b) (Z.max after 0)));
    [done|by simpl; rewrite lookup_insert_eq|].
  unfold replay_rows, ListEventsSince. simpl. rewrite length_take.
  unfold replay_limit, channel_cap. lia.
Qed.
