(* ===== verification/Leases.v ===== *)
(** * Resource leases: [internal/runs/upstream_leases.go], the lease half of
    [internal/runs/service.go] and the [leases] table

    A lease row gives one owner one resource while it is active.  The table has a unique index on
    the resource of the active rows; [AcquireLeases] adds the conflicts the index cannot see, those
    of a source-owned node with that node's managed GPUs and ports. *)

From S2P Require Import Prelude GoStrings.

(** ** Resource identities *)

Definition colon : ascii := ":"%char.

Definition upstreamNodeConflict (upstream resource : string) : bool :=
  let '(node, ok) := cut_prefix "upstream-node:" upstream in
  if negb ok || bool_decide (node = "") then false
  else
    let '(kind, rest, ok) := cut colon resource in
    if negb ok then false
    else if bool_decide (kind = "node") || bool_decide (kind = "upstream-node")
    then bool_decide (rest = node)
    else if bool_decide (kind = "gpu") || bool_decide (kind = "port")
    then let '(resourceNode, _, _) := cut colon rest in bool_decide (resourceNode = node)
    else false.

Definition ResourcesConflict (left right : string) : bool :=
  if bool_decide (left = right) then true
  else upstreamNodeConflict left right || upstreamNodeConflict right left.

(** ** The [leases] table *)

Record Lease := mkLease {
  l_resource : string;
  l_kind : string;
  l_owner : string;
  l_active : bool;
}.

#[export] Instance Lease_eq_dec : EqDecision Lease.
Proof. solve_decision. Defined.

Inductive lease_error :=
| ErrLeaseConflict (requested held owner : string)
| ErrLeaseConstraint (resource : string).

#[export] Instance lease_error_eq_dec : EqDecision lease_error.
Proof. solve_decision. Defined.

Definition owned_by (kind owner : string) (l : Lease) : bool :=
  bool_decide (l_kind l = kind) && bool_decide (l_owner l = owner).

(** [q.ActiveLeasesWithOwners] *)
Definition ActiveLeasesWithOwners (ls : list Lease) : list Lease := filter (λ l, l_active l = true) ls.

(** [q.AcquireLease]: the insert, refused by the partial unique index and the check on the kind *)
Definition AcquireLease (r kind owner : string) : ST (list Lease) lease_error unit :=
  ls ← get;
  if existsb (λ l, l_active l && bool_decide (l_resource l = r)) ls
     || negb (bool_decide (kind = "deployment") || bool_decide (kind = "run"))
  then throw (ErrLeaseConstraint r)
  else put (ls ++ [mkLease r kind owner true]).

(** The first held lease of another owner that conflicts with a requested resource *)
Definition first_conflict (kind owner : string) (requested : string) (active : list Lease) : option Lease :=
  List.find (λ held, negb (owned_by kind owner held) && ResourcesConflict requested (l_resource held)) active.

Fixpoint check_conflicts (kind owner : string) (resources : list string) (active : list Lease)
    : option lease_error :=
  match resources with
  | [] => None
  | requested :: resources =>
      match first_conflict kind owner requested active with
      | Some held => Some (ErrLeaseConflict requested (l_resource held) (l_owner held))
      | None => check_conflicts kind owner resources active
      end
  end.

Definition AcquireLeases (kind owner : string) (resources : list string)
    : ST (list Lease) lease_error unit :=
  ls ← get;
  match check_conflicts kind owner resources (ActiveLeasesWithOwners ls) with
  | Some e => throw e
  | None => forM (λ r, AcquireLease r kind owner) resources
  end.

(** [q.ReleaseLeases] *)
Definition release_one (kind owner : string) (l : Lease) : Lease :=
  if owned_by kind owner l && l_active l
  then mkLease (l_resource l) (l_kind l) (l_owner l) false else l.

Definition ReleaseLeases (kind owner : string) (ls : list Lease) : list Lease :=
  map (release_one kind owner) ls.

(** [q.ActiveLeaseOwners] *)
Definition ActiveOwners (resource : string) (ls : list Lease) : list (string * string) :=
  map (λ l, (l_kind l, l_owner l))
    (filter (λ l, l_resource l = resource ∧ l_active l = true) ls).

(** [q.LeasesForOwner]: every lease row of the owner, released ones included, by resource *)
Definition LeasesForOwner (kind owner : string) (ls : list Lease) : list string :=
  sort_strings (map l_resource (filter (λ l, owned_by kind owner l = true) ls)).

Record Resources := mkResources {
  Nodes : list string;
  Accelerators : list string;
  Fabrics : list string;
}.

(** The body of the loop of [ResourcesOf]; [seen] is shared by the three lists. *)
Definition add_resource (acc : list string * Resources) (resource : string) : list string * Resources :=
  let '(seen, res) := acc in
  let '(kind, rest, ok) := cut colon resource in
  if negb ok then acc
  else if bool_decide (kind = "node") || bool_decide (kind = "upstream-node") then
    if bool_decide (rest ∈ seen) then acc
    else (rest :: seen, mkResources (Nodes res ++ [rest]) (Accelerators res) (Fabrics res))
  else if bool_decide (kind = "gpu") then
    if bool_decide (resource ∈ seen) then acc
    else (resource :: seen, mkResources (Nodes res) (Accelerators res ++ [resource]) (Fabrics res))
  else if bool_decide (kind = "fabric") then
    if bool_decide (rest ∈ seen) then acc
    else (rest :: seen, mkResources (Nodes res) (Accelerators res) (Fabrics res ++ [rest]))
  else acc.

Definition ResourcesOf (kind owner : string) (ls : list Lease) : Resources :=
  let '(_, res) := fold_left add_resource (LeasesForOwner kind owner ls) ([], mkResources [] [] []) in
  mkResources (sort_strings (Nodes res)) (sort_strings (Accelerators res)) (sort_strings (Fabrics res)).

(** ** What a resource identity means *)

Inductive resource :=
| RNode (node : string)
| RUpstreamNode (node : string)
| RGpu (node uuid : string)
| RPort (node port : string)
| RFabric (fabric : string).

#[export] Instance resource_eq_dec : EqDecision resource.
Proof. solve_decision. Defined.

Definition render (r : resource) : string :=
  match r with
  | RNode n => "node:" +:+ n
  | RUpstreamNode n => "upstream-node:" +:+ n
  | RGpu n u => "gpu:" +:+ n +:+ String colon u
  | RPort n p => "port:" +:+ n +:+ String colon p
  | RFabric f => "fabric:" +:+ f
  end.

(** The node whose hardware a resource occupies, if any. *)
Definition node_of (r : resource) : option string :=
  match r with
  | RNode n | RUpstreamNode n | RGpu n _ | RPort n _ => Some n
  | RFabric _ => None
  end.

(** Node ids are nonempty and hold no colon. *)
Definition wf_resource (r : resource) : bool :=
  match node_of r with
  | Some n => negb (bool_decide (n = "")) && negb (contains_byte colon n)
  | None => true
  end.

(** [r] gives its owner the whole node [n]. *)
Definition claims_node (r : resource) (n : string) : Prop := r = RUpstreamNode n.

(** Two resources conflict when they are the same, or when one is a whole node and the other is on
    that node. *)
Definition conflict (a b : resource) : Prop :=
  a = b ∨ ∃ n, (claims_node a n ∧ node_of b = Some n) ∨ (claims_node b n ∧ node_of a = Some n).

(** ** Facts *)

Lemma ResourcesConflict_sym a b : ResourcesConflict a b = ResourcesConflict b a.
Proof.
  unfold ResourcesConflict.
  destruct (decide (a = b)) as [->|Hne]; [done|].
  rewrite !bool_decide_eq_false_2 by congruence. apply orb_comm.
Qed.

Lemma ResourcesConflict_refl a : ResourcesConflict a a = true.
Proof. unfold ResourcesConflict. by rewrite bool_decide_eq_true_2. Qed.

Lemma cut_render r : ∃ kind rest,
  cut colon (render r) = (kind, rest, true) ∧
  (kind, rest) = match r with
                 | RNode n => ("node", n)
                 | RUpstreamNode n => ("upstream-node", n)
                 | RGpu n u => ("gpu", n +:+ String colon u)
                 | RPort n p => ("port", n +:+ String colon p)
                 | RFabric f => ("fabric", f)
                 end.
Proof.
  destruct r as [n|n|n u|n p|f]; eexists _, _; (split; [|reflexivity]).
  - apply (cut_app colon "node" n). done.
  - apply (cut_app colon "upstream-node" n). done.
  - apply (cut_app colon "gpu" (n +:+ String colon u)). done.
  - apply (cut_app colon "port" (n +:+ String colon p)). done.
  - apply (cut_app colon "fabric" f). done.
Qed.

Lemma wf_resource_node r n : wf_resource r = true → node_of r = Some n →
  n ≠ "" ∧ contains_byte colon n = false.
Proof.
  unfold wf_resource. intros Hwf Hn. rewrite Hn in Hwf.
  apply andb_prop in Hwf as [H1 H2]. apply negb_true_iff in H1, H2.
  by apply bool_decide_eq_false in H1.
Qed.

Lemma upstream_prefix r : cut_prefix "upstream-node:" (render r) =
  match r with RUpstreamNode n => (n, true) | _ => (render r, false) end.
Proof.
  by destruct r.
Qed.

Lemma cut_node n s : contains_byte colon n = false →
  cut colon (n +:+ String colon s) = (n, s, true).
Proof. apply cut_app. Qed.

Lemma upstreamNodeConflict_render a b : wf_resource a = true → wf_resource b = true →
  upstreamNodeConflict (render a) (render b) = true ↔
  ∃ n, claims_node a n ∧ node_of b = Some n.
Proof.
  intros Ha Hb. unfold upstreamNodeConflict, claims_node. rewrite upstream_prefix.
  destruct a as [n|n|n u|n p|f]; try (simpl; split; [done|]; intros (? & ? & _); done).
  destruct (wf_resource_node _ n Ha eq_refl) as [Hn _].
  rewrite (bool_decide_eq_false_2 (n = "") Hn). simpl negb. cbn [orb].
  assert (H : ∀ o, (o = Some n) ↔ (∃ n0, RUpstreamNode n = RUpstreamNode n0 ∧ o = Some n0)).
  { intros o. split; [by exists n|]. intros (? & ? & ?). by simplify_eq. }
  rewrite <-H. clear H.
  destruct (cut_render b) as (kind & rest & -> & Hk).
  destruct b as [m|m|m u|m p|f]; simplify_eq; simpl.
  - rewrite bool_decide_eq_true. naive_solver.
  - rewrite bool_decide_eq_true. naive_solver.
  - rewrite (cut_node m u) by by apply (wf_resource_node (RGpu m u)).
    rewrite bool_decide_eq_true. naive_solver.
  - rewrite (cut_node m p) by by apply (wf_resource_node (RPort m p)).
    rewrite bool_decide_eq_true. naive_solver.
  - done.
Qed.

Lemma render_inj a b : wf_resource a = true → wf_resource b = true → render a = render b → a = b.
Proof.
  intros Ha Hb Heq. destruct (cut_render a) as (k & r & Hc & Hk), (cut_render b) as (k' & r' & Hc' & Hk').
  rewrite Heq in Hc. rewrite Hc in Hc'. simplify_eq.
  assert (Hsplit : ∀ x y u v, contains_byte colon x = false → contains_byte colon y = false →
            x +:+ String colon u = y +:+ String colon v → x = y ∧ u = v).
  { intros x y u v Hx Hy E. pose proof (cut_node x u Hx) as C. rewrite E, (cut_node y v Hy) in C.
    by simplify_eq. }
  destruct a as [n|n|n u|n p|f], b as [m|m|m v|m q|g]; simplify_eq; try done;
    destruct (wf_resource_node _ n Ha eq_refl), (wf_resource_node _ m Hb eq_refl).
  - destruct (Hsplit n m u v) as [-> ->]; done.
  - destruct (Hsplit n m p q) as [-> ->]; done.
Qed.

(** On well-formed resource identities [ResourcesConflict] decides exactly the intended
    relation: the same resource, or a source-owned node against anything on that node. *)
Theorem ResourcesConflict_spec a b : wf_resource a = true → wf_resource b = true →
  ResourcesConflict (render a) (render b) = true ↔ conflict a b.
Proof.
  intros Ha Hb. unfold ResourcesConflict, conflict. case_bool_decide as E.
  - apply render_inj in E; [|done..]. subst. naive_solver.
  - rewrite orb_true_iff, !upstreamNodeConflict_render by done. split.
    + intros [(n & ? & ?)|(n & ? & ?)]; right; exists n; tauto.
    + intros [->|(n & [?|?])]; [done|left|right]; by exists n.
Qed.

Lemma ResourcesConflict_spec_witness :
  (ResourcesConflict "upstream-node:n1" "gpu:n1:GPU-0" = true ↔
     conflict (RUpstreamNode "n1") (RGpu "n1" "GPU-0")) ∧
  (ResourcesConflict "node:n1" "gpu:n1:GPU-0" = true ↔ conflict (RNode "n1") (RGpu "n1" "GPU-0")) ∧
  ResourcesConflict "upstream-node:n1" "gpu:n1:GPU-0" = true ∧
  ResourcesConflict "node:n1" "gpu:n1:GPU-0" = false.
Proof.
  split; [|split; [|split; reflexivity]].
  - apply (ResourcesConflict_spec (RUpstreamNode "n1") (RGpu "n1" "GPU-0")); reflexivity.
  - apply (ResourcesConflict_spec (RNode "n1") (RGpu "n1" "GPU-0")); reflexivity.
Defined.

(** ** The table's invariant *)

(** Two active rows never share a resource, and never conflict unless one owner holds both. *)
Definition leases_exclusive (ls : list Lease) : Prop :=
  ∀ i j l l', i ≠ j → ls !! i = Some l → ls !! j = Some l' → l_active l = true → l_active l' = true →
    l_resource l ≠ l_resource l' ∧
    (ResourcesConflict (l_resource l) (l_resource l') = true →
     l_kind l = l_kind l' ∧ l_owner l = l_owner l').

(** What the table itself asks of an insert: a known owner kind, and resources no active row has. *)
Definition insertable (kind : string) (resources : list string) (ls : list Lease) : Prop :=
  (kind = "deployment" ∨ kind = "run" ∨ resources = []) ∧ NoDup resources ∧
  ∀ r l, r ∈ resources → l ∈ ls → l_active l = true → l_resource l ≠ r.

(** What [AcquireLeases] asks: the same, and no conflict with another owner's active row. *)
Definition acquirable (kind owner : string) (resources : list string) (ls : list Lease) : Prop :=
  insertable kind resources ls ∧
  ∀ r l, r ∈ resources → l ∈ ls → l_active l = true →
    ResourcesConflict r (l_resource l) = true → l_kind l = kind ∧ l_owner l = owner.

Definition granted (kind owner : string) (resources : list string) : list Lease :=
  map (λ r, mkLease r kind owner true) resources.

Lemma first_conflict_Some kind owner r active held :
  first_conflict kind owner r active = Some held →
  held ∈ active ∧ ResourcesConflict r (l_resource held) = true ∧ ¬ (l_kind held = kind ∧ l_owner held = owner).
Proof.
  unfold first_conflict. intros [Hin Hp]%List.find_some. apply list_elem_of_In in Hin.
  apply andb_prop in Hp as [Ho Hc]. split; [done|]. split; [done|]. intros [Hk Hw].
  unfold owned_by in Ho. by rewrite !bool_decide_eq_true_2 in Ho.
Qed.

Lemma first_conflict_None kind owner r active :
  first_conflict kind owner r active = None ↔
  ∀ l, l ∈ active → ResourcesConflict r (l_resource l) = true → l_kind l = kind ∧ l_owner l = owner.
Proof.
  unfold first_conflict. split.
  - intros Hf l Hin Hc. apply list_elem_of_In in Hin.
    pose proof (List.find_none _ _ Hf l Hin) as Hp. simpl in Hp. rewrite Hc, andb_true_r in Hp.
    apply negb_false_iff, andb_prop in Hp as [H1 H2]. by apply bool_decide_eq_true in H1, H2.
  - intros H. destruct (List.find _ active) as [held|] eqn:E; [|done].
    apply first_conflict_Some in E as (Hin & Hc & Ho). by destruct (Ho (H held Hin Hc)).
Qed.

Lemma check_conflicts_None kind owner rs active :
  check_conflicts kind owner rs active = None ↔
  ∀ r l, r ∈ rs → l ∈ active → ResourcesConflict r (l_resource l) = true →
         l_kind l = kind ∧ l_owner l = owner.
Proof.
  induction rs as [|r rs IH]; simpl; [set_solver|].
  destruct (first_conflict kind owner r active) as [held|] eqn:E.
  - split; [done|]. intros H. apply first_conflict_Some in E as (Hin & Hc & Ho).
    destruct Ho. by apply (H r held); [set_solver|..].
  - rewrite IH. rewrite first_conflict_None in E. set_solver.
Qed.

Lemma owner_kind_dec kind :
  bool_decide (kind = "deployment") || bool_decide (kind = "run") = true ↔
  kind = "deployment" ∨ kind = "run".
Proof. by rewrite orb_true_iff, !bool_decide_eq_true. Qed.

(** One insert. *)
Lemma AcquireLease_spec r kind owner ls :
  AcquireLease r kind owner ls = (Ok tt, ls ++ [mkLease r kind owner true]) ∧ insertable kind [r] ls ∨
  AcquireLease r kind owner ls = (Err (ErrLeaseConstraint r), ls) ∧ ¬ insertable kind [r] ls.
Proof.
  unfold AcquireLease, insertable. unfold_st.
  destruct (existsb _ ls) eqn:Ex; simpl.
  { right. split; [done|]. intros (_ & _ & H). apply existsb_exists in Ex as (l & Hin & Hl).
    apply andb_prop in Hl as [Ha Hr]. apply bool_decide_eq_true in Hr.
    apply list_elem_of_In in Hin. by apply (H r l ltac:(set_solver) Hin Ha). }
  destruct (_ || _) eqn:Ek; simpl.
  - left. apply owner_kind_dec in Ek. split; [done|]. split; [tauto|].
    split; [apply NoDup_singleton|]. intros r' l ->%list_elem_of_singleton Hin Ha E.
    apply not_true_iff_false in Ex. apply Ex, existsb_exists. exists l.
    by rewrite <-list_elem_of_In, Ha, bool_decide_eq_true_2.
  - right. split; [done|]. apply not_true_iff_false in Ek. rewrite owner_kind_dec in Ek. naive_solver.
Qed.

Lemma insertable_cons kind owner r rs ls :
  insertable kind (r :: rs) ls ↔
  insertable kind [r] ls ∧ insertable kind rs (ls ++ [mkLease r kind owner true]).
Proof.
  unfold insertable. rewrite !NoDup_cons. split.
  - intros (Hk & [Hni Hnd] & H). assert (kind = "deployment" ∨ kind = "run") by naive_solver.
    split; split_and!; [tauto|set_solver|apply NoDup_nil_2|set_solver|tauto|done|].
    intros r' l Hin [Hl|Hl]%elem_of_app Ha; [apply H; set_solver|].
    apply list_elem_of_singleton in Hl. subst. simpl. set_solver.
  - intros [(Hk & _ & H1) (Hk' & Hnd & H)]. assert (kind = "deployment" ∨ kind = "run") by naive_solver.
    split_and!; [tauto| |done|].
    + intros Hin. by apply (H r (mkLease r kind owner true) Hin); [set_solver|..].
    + intros r' l [-> |Hin]%elem_of_cons Hl Ha; [by apply (H1 r l); [set_solver|..]|].
      apply H; [done|set_solver|done].
Qed.

Lemma insert_leases kind owner rs ls :
  forM (λ r, AcquireLease r kind owner) rs ls = (Ok tt, ls ++ granted kind owner rs) ∧
    insertable kind rs ls
  ∨ (∃ e ls', forM (λ r, AcquireLease r kind owner) rs ls = (Err e, ls')) ∧ ¬ insertable kind rs ls.
Proof.
  revert ls. induction rs as [|r rs IH]; intros ls.
  { left. simpl. rewrite app_nil_r. unfold insertable. split; [done|].
    split_and!; [tauto|apply NoDup_nil_2|set_solver]. }
  rewrite (insertable_cons kind owner). simpl. unfold_st.
  destruct (AcquireLease_spec r kind owner ls) as [[-> Hr]|[-> Hr]]; [|right; naive_solver].
  destruct (IH (ls ++ [mkLease r kind owner true])) as [[-> Hrs]|[(e & ls' & ->) Hrs]].
  - left. split; [by rewrite <-app_assoc|done].
  - right. naive_solver.
Qed.

(** The two outcomes of an acquisition. *)
Lemma AcquireLeases_cases kind owner rs ls :
  (transact (AcquireLeases kind owner rs) ls = (Ok tt, ls ++ granted kind owner rs) ∧
   acquirable kind owner rs ls) ∨
  (∃ e, transact (AcquireLeases kind owner rs) ls = (Err e, ls) ∧ ¬ acquirable kind owner rs ls).
Proof.
  unfold AcquireLeases, acquirable. unfold_st.
  assert (Hact : check_conflicts kind owner rs (ActiveLeasesWithOwners ls) = None ↔
    ∀ r l, r ∈ rs → l ∈ ls → l_active l = true →
      ResourcesConflict r (l_resource l) = true → l_kind l = kind ∧ l_owner l = owner).
  { rewrite check_conflicts_None. unfold ActiveLeasesWithOwners. setoid_rewrite list_elem_of_filter.
    naive_solver. }
  destruct (check_conflicts _ _ _ _) as [e|].
  - right. exists e. split; [done|]. intros [_ H]. by apply Hact in H.
  - destruct (insert_leases kind owner rs ls) as [[-> ?]|[(e & ls' & ->) ?]].
    + left. split; [done|]. split; [done|]. by apply Hact.
    + right. exists e. naive_solver.
Qed.

(** [AcquireLeases] in its transaction is all or nothing and decides exactly [acquirable]: it
    grants every requested resource to the owner, or it fails and leaves the table as it was. *)
Theorem AcquireLeases_spec kind owner rs ls :
  (transact (AcquireLeases kind owner rs) ls = (Ok tt, ls ++ granted kind owner rs) ∧
   acquirable kind owner rs ls) ∨
  (∃ e, transact (AcquireLeases kind owner rs) ls = (Err e, ls) ∧ ¬ acquirable kind owner rs ls).
Proof. apply AcquireLeases_cases. Qed.

(** ** Invariant preservation *)

Lemma leases_exclusive_nil : leases_exclusive [].
Proof. intros i j l l' _ H. by rewrite lookup_nil in H. Qed.

Lemma release_one_active kind owner l : l_active (release_one kind owner l) = true →
  release_one kind owner l = l ∧ owned_by kind owner l = false.
Proof.
  unfold release_one. destruct (owned_by kind owner l), (l_active l) eqn:E; simpl; try done; congruence.
Qed.

Lemma release_exclusive kind owner ls : leases_exclusive ls → leases_exclusive (ReleaseLeases kind owner ls).
Proof.
  intros H i j l l' Hij Hi Hj Ha Ha'. unfold ReleaseLeases in *.
  apply list_lookup_fmap_Some in Hi as (l0 & -> & Hi), Hj as (l0' & -> & Hj).
  apply release_one_active in Ha as Ea, Ha' as Ea'. destruct Ea as [Ea _], Ea' as [Ea' _].
  rewrite Ea in *. rewrite Ea' in *. by apply (H i j).
Qed.

Lemma granted_lookup kind owner rs i l : granted kind owner rs !! i = Some l →
  rs !! i = Some (l_resource l) ∧ l_kind l = kind ∧ l_owner l = owner ∧ l_active l = true.
Proof. intros (r & -> & Hr)%list_lookup_fmap_Some. done. Qed.

Lemma acquire_exclusive kind owner rs ls :
  leases_exclusive ls → acquirable kind owner rs ls → leases_exclusive (ls ++ granted kind owner rs).
Proof.
  intros Hex [(_ & Hnd & Hfree) Hconf] i j l l' Hij Hi Hj Ha Ha'.
  apply lookup_app_Some in Hi as [Hi|[Hi0 Hi]], Hj as [Hj|[Hj0 Hj]].
  - by apply (Hex i j).
  - apply granted_lookup in Hj as (Hj & Hk & Ho & _). apply list_elem_of_lookup_2 in Hj, Hi.
    split; [by apply Hfree|]. rewrite ResourcesConflict_sym, Hk, Ho. by apply Hconf.
  - apply granted_lookup in Hi as (Hi & Hk & Ho & _). apply list_elem_of_lookup_2 in Hj, Hi.
    split; [by apply not_eq_sym, Hfree|]. rewrite Hk, Ho. intros Hc.
    by destruct (Hconf _ _ Hi Hj Ha' Hc) as [-> ->].
  - apply granted_lookup in Hi as (Hi & Hk & Ho & _), Hj as (Hj & Hk' & Ho' & _).
    split; [|by rewrite Hk, Ho, Hk', Ho']. intros E. rewrite E in Hi.
    pose proof (NoDup_lookup _ _ _ _ Hnd Hi Hj). lia.
Qed.

Lemma AcquireLeases_exclusive kind owner rs ls :
  leases_exclusive ls → leases_exclusive (snd (transact (AcquireLeases kind owner rs) ls)).
Proof.
  intros H. destruct (AcquireLeases_cases kind owner rs ls) as [[-> Hok]|(e & -> & _)]; simpl; [|done].
  by apply acquire_exclusive.
Qed.

(** Releasing an owner's leases leaves it none and every other owner's alone. *)
Lemma ReleaseLeases_spec kind owner ls l : l_active l = true →
  l ∈ ReleaseLeases kind owner ls ↔ l ∈ ls ∧ owned_by kind owner l = false.
Proof.
  intros Ha. unfold ReleaseLeases. rewrite list_elem_of_fmap. split.
  - intros (l0 & -> & Hin). apply release_one_active in Ha as [-> ?]. done.
  - intros [Hin Ho]. exists l. split; [|done]. unfold release_one. by rewrite Ho.
Qed.

#[export] Hint Resolve leases_exclusive_nil release_exclusive AcquireLeases_exclusive : lmw.
