(* ===== verification/Runs.v ===== *)
(** * The run ledger: [internal/runs/service.go]

    One row per run, the graph of allowed state moves, the lease table ([Leases]) and the event bus
    ([Events]).  Every operation of [Service] that writes is a computation in [ST Ledger run_error];
    the ledger survives an error return, as the database does.  [rid] and [now] are the values
    [id.New] and [time.Now] produced.  A failing database or a failing [Publish] is not modelled. *)

From S2P Require Import Prelude GoStrings Utf8 CJson Events Leases.

(** ** States *)

Inductive State :=
| Queued | Planning | Waiting | Running | Verifying
| Succeeded | Failed | Cancelling | Cancelled | Interrupted.

#[export] Instance State_eq_dec : EqDecision State.
Proof. solve_decision. Defined.

Definition state_name (s : State) : string :=
  match s with
  | Queued => "queued" | Planning => "planning" | Waiting => "waiting" | Running => "running"
  | Verifying => "verifying" | Succeeded => "succeeded" | Failed => "failed"
  | Cancelling => "cancelling" | Cancelled => "cancelled" | Interrupted => "interrupted"
  end.

Definition Terminal (s : State) : bool :=
  match s with Succeeded | Failed | Cancelled | Interrupted => true | _ => false end.

Definition transitions (s : State) : list State :=
  match s with
  | Queued => [Planning; Waiting; Running; Cancelling; Failed; Interrupted]
  | Planning => [Waiting; Running; Verifying; Cancelling; Failed; Interrupted]
  | Waiting => [Running; Cancelling; Failed; Interrupted]
  | Running => [Verifying; Cancelling; Failed; Interrupted]
  | Verifying => [Succeeded; Failed; Cancelling; Interrupted]
  | Cancelling => [Cancelled; Failed; Interrupted]
  | _ => []
  end.

Definition canTransition (from to : State) : bool :=
  existsb (λ t, bool_decide (t = to)) (transitions from).

Definition IsOneShot (kind : string) : bool :=
  negb (bool_decide (kind = "serve")) && negb (bool_decide (kind = "recipe-update")).

(** ** The ledger *)

Record RunRow := mkRun {
  r_module : string;
  r_kind : string;
  r_state : State;
  r_resources : bytes;
  r_input : bytes;
  r_output : option bytes;
  r_error_code : option string;
  r_error_message : option string;
  r_deployment : option string;
  r_created : string;
  r_started : option string;
  r_finished : option string;
  r_progress : bytes;
}.

Record Ledger := mkLedger {
  lg_runs : gmap string RunRow;
  lg_leases : list Lease;
  lg_bus : EventBus;
  lg_deployments : gset string;    (* the ids a run's foreign key may name *)
}.

Inductive run_error :=
| ErrUnknown
| ErrInvalidTransition (from to : State)
| ErrTerminal (s : State)
| ErrConstraint.

#[export] Instance run_error_eq_dec : EqDecision run_error.
Proof. solve_decision. Defined.

Notation RunM := (ST Ledger run_error).

Definition set_runs (f : gmap string RunRow → gmap string RunRow) (g : Ledger) : Ledger :=
  mkLedger (f (lg_runs g)) (lg_leases g) (lg_bus g) (lg_deployments g).
Definition set_leases (f : list Lease → list Lease) (g : Ledger) : Ledger :=
  mkLedger (lg_runs g) (f (lg_leases g)) (lg_bus g) (lg_deployments g).
Definition set_bus (f : EventBus → EventBus) (g : Ledger) : Ledger :=
  mkLedger (lg_runs g) (lg_leases g) (f (lg_bus g)) (lg_deployments g).

(** [mustJSON] of a flat object, and the publication of a run event *)
Definition mustJSON (fields : list (string * json)) : bytes := encode (JObject fields).

Definition publish (typ : string) (fields : list (string * json)) : RunM unit :=
  modify (set_bus (Publish typ "" (mustJSON fields))).

(** ** Queries *)

Definition GetRun (rid : string) : RunM RunRow :=
  g ← get;
  match lg_runs g !! rid with
  | Some row => mret row
  | None => throw ErrUnknown
  end.

(** [CreateRun]: refused on a duplicate id or a dangling deployment id *)
Definition CreateRun (rid : string) (row : RunRow) : RunM unit :=
  g ← get;
  if bool_decide (is_Some (lg_runs g !! rid))
     || match r_deployment row with
        | Some d => negb (bool_decide (d ∈ lg_deployments g))
        | None => false
        end
  then throw ErrConstraint
  else modify (set_runs <[rid := row]>).

(** [COALESCE(new, old)] *)
Definition coalesce {A} (new old : option A) : option A :=
  match new with Some _ => new | None => old end.

(** [UpdateRunState] *)
Definition update_state (to : State) (started finished code msg : option string) (row : RunRow) : RunRow :=
  mkRun (r_module row) (r_kind row) to (r_resources row) (r_input row) (r_output row)
    (coalesce code (r_error_code row)) (coalesce msg (r_error_message row))
    (r_deployment row) (r_created row)
    (coalesce started (r_started row)) (coalesce finished (r_finished row)) (r_progress row).

Definition set_progress (p : bytes) (row : RunRow) : RunRow :=
  mkRun (r_module row) (r_kind row) (r_state row) (r_resources row) (r_input row) (r_output row)
    (r_error_code row) (r_error_message row) (r_deployment row) (r_created row)
    (r_started row) (r_finished row) p.

Definition set_output (o : bytes) (row : RunRow) : RunRow :=
  mkRun (r_module row) (r_kind row) (r_state row) (r_resources row) (r_input row) (Some o)
    (r_error_code row) (r_error_message row) (r_deployment row) (r_created row)
    (r_started row) (r_finished row) (r_progress row).

(** ** Operations *)

Definition opt_string (s : string) : option string := if bool_decide (s = "") then None else Some s.

Definition Create (rid now module kind : string) (input : list (string * json)) (deploymentID : string)
    : RunM string :=
  let row := mkRun module kind Queued (encode (JObject [])) (encode (JObject input)) None None None
               (opt_string deploymentID) now None None (to_bytes "{}") in
  _ ← CreateRun rid row;
  _ ← publish "run.created" [("run_id", JString rid); ("module", JString module); ("kind", JString kind)];
  mret rid.

Definition SetProgress (rid : string) (progress : list (string * json)) : RunM unit :=
  _ ← modify (set_runs (alter (set_progress (encode (JObject progress))) rid));
  publish "run.progress" [("run_id", JString rid); ("progress", JObject progress)].

Definition SetOutput (rid : string) (output : list (string * json)) : RunM unit :=
  _ ← modify (set_runs (alter (set_output (encode (JObject output))) rid));
  publish "run.state" [("run_id", JString rid); ("output_updated", JBool true)].

(** The time stamps a move writes *)
Definition stamp_started (now : string) (row : RunRow) (to : State) : option string :=
  if bool_decide (r_state row = Queued) && bool_decide (r_started row = None) && negb (Terminal to)
  then Some now else None.

Definition stamp_finished (now : string) (to : State) : option string :=
  if Terminal to then Some now else None.

(** The write half of [SetState], after its read of [row] *)
Definition write_state (rid now : string) (row : RunRow) (to : State) (errorCode errorMessage : string)
    : RunM unit :=
  if negb (canTransition (r_state row) to) then throw (ErrInvalidTransition (r_state row) to)
  else
    _ ← modify (set_runs (alter
          (update_state to (stamp_started now row to) (stamp_finished now to)
             (opt_string errorCode) (opt_string errorMessage)) rid));
    publish "run.state" [("run_id", JString rid); ("from", JString (state_name (r_state row)));
                         ("to", JString (state_name to))].

Definition SetState (rid now : string) (to : State) (errorCode errorMessage : string) : RunM unit :=
  row ← GetRun rid;
  write_state rid now row to errorCode errorMessage.

Definition Cancel (rid now : string) : RunM unit :=
  row ← GetRun rid;
  if Terminal (r_state row) then throw (ErrTerminal (r_state row))
  else SetState rid now Cancelling "" "".

(** The owner whose leases a finished run releases *)
Definition lease_owner (rid : string) (row : RunRow) : string * string :=
  match r_deployment row with
  | Some d => ("deployment", d)
  | None => ("run", rid)
  end.

Definition ReleaseLeasesFor (kind owner : string) : RunM unit :=
  modify (set_leases (ReleaseLeases kind owner)).

Definition Complete (rid now : string) (to : State) (errorCode errorMessage : string) : RunM unit :=
  _ ← SetState rid now to errorCode errorMessage;
  row ← GetRun rid;
  let '(kind, owner) := lease_owner rid row in
  ReleaseLeasesFor kind owner.

(** [ListNonTerminalRuns] *)
Definition ListNonTerminalRuns (g : Ledger) : list (string * RunRow) :=
  filter (λ e, Terminal (r_state (snd e)) = false) (map_to_list (lg_runs g)).

(** The loop of [MarkInterrupted]; on an error the count so far is lost with it *)
Fixpoint interrupt_rows (now : string) (n : nat) (rows : list (string * RunRow)) : RunM nat :=
  match rows with
  | [] => mret n
  | (rid, row) :: rows =>
      if negb (IsOneShot (r_kind row)) then interrupt_rows now n rows
      else
        _ ← SetState rid now Interrupted "run.interrupted" "controller restart";
        interrupt_rows now (S n) rows
  end.

Definition MarkInterrupted (now : string) : RunM nat :=
  g ← get; interrupt_rows now 0 (ListNonTerminalRuns g).

(** The acquisition of a run's or a deployment's leases, in its transaction *)
Definition acquire_leases (kind owner : string) (resources : list string) (g : Ledger)
    : result lease_error unit * Ledger :=
  let '(r, ls) := transact (AcquireLeases kind owner resources) (lg_leases g) in
  (r, set_leases (λ _, ls) g).

(** ** [List] *)

Record Filter := mkFilter {
  f_module : option string;
  f_state : option string;
  f_deployment : option string;
  f_created_before : option string;
  f_limit : Z;
}.

Definition clamp_limit (limit : Z) : Z :=
  let limit := if (limit <=? 0)%Z then 50%Z else limit in
  if (200 <? limit)%Z then 200%Z else limit.

(** [:x IS NULL OR x = :x] *)
Definition opt_matches (f : option string) (v : string) : bool :=
  match f with None => true | Some x => bool_decide (v = x) end.

Definition created_before (f : option string) (v : string) : bool :=
  match f with None => true | Some x => String.ltb v x end.

(** Newest first: [ORDER BY created_at DESC] *)
Definition newer (a b : string * RunRow) : Prop := String.le (r_created (snd b)) (r_created (snd a)).

#[export] Instance newer_dec : RelDecision newer.
Proof. intros a b. apply _. Defined.

(** [ListRuns] *)
Definition ListRuns (f : Filter) (limit : Z) (g : Ledger) : list (string * RunRow) :=
  take (Z.to_nat limit) (merge_sort newer
    (filter (λ e, opt_matches (f_module f) (r_module (snd e)) &&
                  opt_matches (f_state f) (state_name (r_state (snd e))) &&
                  created_before (f_created_before f) (r_created (snd e)) = true)
       (map_to_list (lg_runs g)))).

(** [List], its rows left unrendered; the deployment filter applies to the page, after the limit *)
Definition deployment_matches (f : option string) (row : RunRow) : bool :=
  match f with None => true | Some d => bool_decide (r_deployment row = Some d) end.

Definition List_runs (f : Filter) (g : Ledger) : list (string * RunRow) :=
  filter (λ e, deployment_matches (f_deployment f) (snd e) = true)
    (ListRuns f (clamp_limit (f_limit f)) g).

(** ** Sequences of operations *)

Inductive op :=
| OpCreate (rid now module kind : string) (input : list (string * json)) (deployment : string)
| OpProgress (rid : string) (progress : list (string * json))
| OpOutput (rid : string) (output : list (string * json))
| OpSetState (rid now : string) (to : State) (code msg : string)
| OpCancel (rid now : string)
| OpComplete (rid now : string) (to : State) (code msg : string)
| OpInterrupt (now : string)
| OpAcquire (kind owner : string) (resources : list string)
| OpRelease (kind owner : string).

(** The ledger an operation leaves, whatever it returns *)
Definition exec (o : op) (g : Ledger) : Ledger :=
  match o with
  | OpCreate rid now module kind input dep => snd (Create rid now module kind input dep g)
  | OpProgress rid p => snd (SetProgress rid p g)
  | OpOutput rid o => snd (SetOutput rid o g)
  | OpSetState rid now to code msg => snd (SetState rid now to code msg g)
  | OpCancel rid now => snd (Cancel rid now g)
  | OpComplete rid now to code msg => snd (Complete rid now to code msg g)
  | OpInterrupt now => snd (MarkInterrupted now g)
  | OpAcquire kind owner rs => snd (acquire_leases kind owner rs g)
  | OpRelease kind owner => snd (ReleaseLeasesFor kind owner g)
  end.

Definition exec_all (os : list op) (g : Ledger) : Ledger := fold_left (λ g o, exec o g) os g.

Definition empty_ledger (deployments : gset string) : Ledger := mkLedger ∅ [] NewEventBus deployments.

(** ** The graph *)

Lemma canTransition_spec from to : canTransition from to = true ↔ to ∈ transitions from.
Proof.
  unfold canTransition. rewrite existsb_exists. setoid_rewrite bool_decide_eq_true.
  setoid_rewrite <-list_elem_of_In. naive_solver.
Qed.

Lemma terminal_stuck from to : Terminal from = true → canTransition from to = false.
Proof. by destruct from. Qed.

Lemma transition_not_queued from to : canTransition from to = true → to ≠ Queued.
Proof. by destruct from, to. Qed.

Lemma nonterminal_interruptible from : Terminal from = false → canTransition from Interrupted = true.
Proof. by destruct from. Qed.

(** ** What one state write does *)

(** The row [SetState] leaves *)
Definition moved (now : string) (to : State) (code msg : string) (row : RunRow) : RunRow :=
  update_state to (stamp_started now row to) (stamp_finished now to) (opt_string code) (opt_string msg) row.

Lemma SetState_cases rid now to code msg g :
  (∃ row, lg_runs g !! rid = Some row ∧ canTransition (r_state row) to = true ∧
     SetState rid now to code msg g =
       (Ok tt, set_bus (Publish "run.state" "" (mustJSON [("run_id", JString rid);
                 ("from", JString (state_name (r_state row))); ("to", JString (state_name to))]))
               (set_runs <[rid := moved now to code msg row]> g)))
  ∨ ∃ e, SetState rid now to code msg g = (Err e, g) ∧
      (lg_runs g !! rid = None ∧ e = ErrUnknown ∨
       ∃ row, lg_runs g !! rid = Some row ∧ canTransition (r_state row) to = false ∧
              e = ErrInvalidTransition (r_state row) to).
Proof.
  unfold SetState, GetRun, write_state, publish. unfold_st.
  destruct (lg_runs g !! rid) as [row|] eqn:E; cbn; [|by eauto 10].
  destruct (canTransition (r_state row) to) eqn:Ec; cbn; [|by eauto 10].
  left. exists row. split; [done|]. split; [done|]. do 2 f_equal.
  unfold set_runs. f_equal. apply map_eq. intros i. rewrite lookup_alter, lookup_insert.
  case_decide; [|done]. subst. by rewrite E.
Qed.

Lemma SetState_rejected rid now to code msg g row :
  lg_runs g !! rid = Some row → canTransition (r_state row) to = false →
  SetState rid now to code msg g = (Err (ErrInvalidTransition (r_state row) to), g).
Proof. intros E Hc. unfold SetState, GetRun, write_state. unfold_st. by rewrite E, Hc. Qed.

Lemma SetState_accepted rid now to code msg g row :
  lg_runs g !! rid = Some row → canTransition (r_state row) to = true →
  ∃ g', SetState rid now to code msg g = (Ok tt, g') ∧
    lg_runs g' = <[rid := moved now to code msg row]> (lg_runs g) ∧ lg_leases g' = lg_leases g.
Proof.
  intros E Hc. destruct (SetState_cases rid now to code msg g) as
    [(row' & E' & _ & ->)|(e & _ & [[? _]|(row' & E' & ? & _)])]; [|congruence..].
  simplify_eq. by eexists.
Qed.

(** Every operation but [Create] either leaves a row alone, moves it along the graph, or replaces its
    progress or output. *)
Inductive row_step : RunRow → RunRow → Prop :=
| rs_move now to code msg row :
    canTransition (r_state row) to = true → row_step row (moved now to code msg row)
| rs_progress p row : row_step row (set_progress p row)
| rs_output o row : row_step row (set_output o row).

(** The effect of an operation on the table: rows step, and fresh rows may be added queued. *)
Definition runs_evolve (g g' : Ledger) : Prop :=
  ∀ rid,
    match lg_runs g !! rid, lg_runs g' !! rid with
    | Some row, Some row' => rtc row_step row row'
    | Some _, None => False
    | None, Some row' => ∃ row, r_state row = Queued ∧ r_started row = None ∧ r_finished row = None ∧
                                rtc row_step row row'
    | None, None => True
    end.

#[export] Instance runs_evolve_preorder : PreOrder runs_evolve.
Proof.
  split; [intros g rid; by case_match|].
  intros g1 g2 g3 H12 H23 rid. specialize (H12 rid). specialize (H23 rid).
  destruct (lg_runs g1 !! rid), (lg_runs g2 !! rid), (lg_runs g3 !! rid); try done;
    [by etrans|]. destruct H12 as (row & ? & ? & ? & ?). exists row. split_and!; [done..|by etrans].
Qed.

Lemma runs_evolve_same g g' : lg_runs g' = lg_runs g → runs_evolve g g'.
Proof. intros E rid. rewrite E. by case_match. Qed.

Lemma runs_evolve_insert g g' rid row row' :
  lg_runs g !! rid = Some row → lg_runs g' = <[rid := row']> (lg_runs g) → row_step row row' →
  runs_evolve g g'.
Proof.
  intros E E' Hs rid'. rewrite E', lookup_insert. case_decide; [subst; rewrite E; by apply rtc_once|].
  by case_match.
Qed.

Lemma alter_lookup {A} (f : A → A) (m : gmap string A) rid x :
  m !! rid = Some x → alter f rid m = <[rid := f x]> m.
Proof.
  intros E. apply map_eq. intros i. rewrite lookup_alter, lookup_insert. case_decide; [|done].
  subst. by rewrite E.
Qed.

Lemma runs_evolve_alter g g' rid f :
  (∀ row, row_step row (f row)) → lg_runs g' = alter f rid (lg_runs g) → runs_evolve g g'.
Proof.
  intros Hf E. destruct (lg_runs g !! rid) as [row|] eqn:Er.
  - rewrite (alter_lookup _ _ _ row Er) in E. eauto using runs_evolve_insert.
  - apply runs_evolve_same. rewrite E. by apply alter_id; intros; congruence.
Qed.

Lemma SetState_evolves rid now to code msg g : runs_evolve g (snd (SetState rid now to code msg g)).
Proof.
  destruct (SetState_cases rid now to code msg g) as [(row & Er & Hc & ->)|(e & -> & _)]; simpl; [|done].
  eapply runs_evolve_insert; [done..|]. by constructor.
Qed.

Lemma SetState_leases rid now to code msg g :
  lg_leases (snd (SetState rid now to code msg g)) = lg_leases g.
Proof. destruct (SetState_cases rid now to code msg g) as [(row & _ & _ & ->)|(e & -> & _)]; done. Qed.

Lemma Cancel_SetState rid now g :
  snd (Cancel rid now g) = snd (SetState rid now Cancelling "" "" g).
Proof.
  unfold Cancel, GetRun. unfold_st. destruct (lg_runs g !! rid) as [row|] eqn:E; simpl.
  - destruct (Terminal (r_state row)) eqn:Et; simpl; [|done].
    destruct (SetState_cases rid now Cancelling "" "" g) as [(row' & Er & Hc & _)|(e & -> & _)]; [|done].
    simplify_eq. by rewrite terminal_stuck in Hc.
  - by destruct (SetState_cases rid now Cancelling "" "" g) as [(row' & Er & _)|(e & -> & _)]; [simplify_eq|].
Qed.

(** [Complete] after its state write *)
Lemma Complete_cases rid now to code msg g :
  (∃ row g', SetState rid now to code msg g = (Ok tt, g') ∧ lg_runs g !! rid = Some row ∧
     canTransition (r_state row) to = true ∧
     Complete rid now to code msg g =
       (Ok tt, let '(kind, owner) := lease_owner rid row in set_leases (ReleaseLeases kind owner) g'))
  ∨ ∃ e, SetState rid now to code msg g = (Err e, g) ∧ Complete rid now to code msg g = (Err e, g).
Proof.
  unfold Complete, GetRun. unfold_st.
  destruct (SetState_cases rid now to code msg g) as [(row & Er & Hc & E)|(e & E & _)]; rewrite E; [|by eauto].
  left. exists row. eexists. split; [done|]. split; [done|]. split; [done|]. simpl.
  rewrite lookup_insert_eq. unfold lease_owner. simpl. by destruct (r_deployment row).
Qed.

Lemma Complete_evolves rid now to code msg g : runs_evolve g (snd (Complete rid now to code msg g)).
Proof.
  pose proof (SetState_evolves rid now to code msg g) as H.
  destruct (Complete_cases rid now to code msg g) as [(row & g' & Es & _ & _ & ->)|(e & _ & ->)]; [|done].
  rewrite Es in H. simpl in *. etrans; [exact H|]. destruct (lease_owner rid row). by apply runs_evolve_same.
Qed.

Lemma interrupt_rows_evolves now rows n g : runs_evolve g (snd (interrupt_rows now n rows g)).
Proof.
  revert n g. induction rows as [|[rid row] rows IH]; intros n g; simpl; [done|].
  case_match; [apply IH|]. unfold_st.
  pose proof (SetState_evolves rid now Interrupted "run.interrupted" "controller restart" g) as H1.
  destruct (SetState _ _ _ _ _ g) as [[] g']; simpl in *; [|done]. by etrans; [|apply IH].
Qed.

Lemma Create_evolves rid now module kind input dep g :
  runs_evolve g (snd (Create rid now module kind input dep g)).
Proof.
  unfold Create, CreateRun, publish. unfold_st.
  destruct (bool_decide (is_Some _)) eqn:E; simpl; [done|].
  destruct (match opt_string dep with Some _ => _ | None => _ end); simpl; [done|].
  apply bool_decide_eq_false, eq_None_not_Some in E. intros rid'. simpl. rewrite lookup_insert.
  case_decide; [subst; rewrite E|by case_match].
  eexists. split_and!; [..|apply rtc_refl]; done.
Qed.

Lemma exec_evolves o g : runs_evolve g (exec o g).
Proof.
  destruct o; simpl.
  - apply Create_evolves.
  - eapply runs_evolve_alter; [apply rs_progress|done].
  - eapply runs_evolve_alter; [apply rs_output|done].
  - apply SetState_evolves.
  - rewrite Cancel_SetState. apply SetState_evolves.
  - apply Complete_evolves.
  - apply interrupt_rows_evolves.
  - unfold acquire_leases. destruct (transact _ _). by apply runs_evolve_same.
  - by apply runs_evolve_same.
Qed.

Lemma exec_all_evolves os g : runs_evolve g (exec_all os g).
Proof.
  revert g. induction os as [|o os IH]; intros g; simpl; [done|].
  etrans; [apply exec_evolves|apply IH].
Qed.

(** ** What holds of every row *)

(** The time stamps agree with the state. *)
Definition row_ok (row : RunRow) : Prop :=
  (Terminal (r_state row) = true ↔ is_Some (r_finished row)) ∧
  (r_state row = Queued → r_started row = None) ∧
  (r_state row ≠ Queued → Terminal (r_state row) = false → is_Some (r_started row)).

Lemma row_step_ok row row' : row_step row row' → row_ok row → row_ok row'.
Proof.
  intros [now to code msg r Hc|p r|o r] (Hf & Hq & Hs); [|done..].
  assert (Hnt : Terminal (r_state r) = false).
  { destruct (Terminal (r_state r)) eqn:E; [|done]. by rewrite terminal_stuck in Hc. }
  assert (Hfin : r_finished r = None).
  { apply eq_None_not_Some. intros H. apply Hf in H. congruence. }
  split_and!; simpl.
  - unfold stamp_finished. rewrite Hfin. destruct (Terminal to); simpl.
    + split; [by eexists|done].
    + split; [done|by intros []].
  - intros ->. by destruct (transition_not_queued _ _ Hc).
  - intros _ Ht. unfold stamp_started. rewrite Ht. destruct (decide (r_state r = Queued)) as [E|E].
    + rewrite (Hq E), !bool_decide_eq_true_2 by done. by eexists.
    + rewrite (bool_decide_eq_false_2 _ E). simpl. by apply Hs.
Qed.

(** What never changes, and what a terminal row keeps. *)
Definition row_frozen (row row' : RunRow) : Prop :=
  r_module row' = r_module row ∧ r_kind row' = r_kind row ∧ r_input row' = r_input row ∧
  r_deployment row' = r_deployment row ∧ r_created row' = r_created row ∧
  (is_Some (r_started row) → r_state row ≠ Queued → r_started row' = r_started row) ∧
  (Terminal (r_state row) = true →
     r_state row' = r_state row ∧ r_finished row' = r_finished row ∧ r_started row' = r_started row ∧
     r_error_code row' = r_error_code row ∧ r_error_message row' = r_error_message row).

Lemma row_step_frozen row row' : row_step row row' → row_frozen row row'.
Proof.
  intros [now to code msg r Hc|p r|o r]; unfold row_frozen; split_and!; simpl; try done.
  - intros _ Hq. unfold stamp_started. by rewrite (bool_decide_eq_false_2 _ Hq).
  - intros Ht. by rewrite terminal_stuck in Hc.
Qed.

Lemma row_frozen_trans a b c :
  (r_state a ≠ Queued → r_state b ≠ Queued) → row_frozen a b → row_frozen b c → row_frozen a c.
Proof.
  intros Hq (M1 & K1 & I1 & D1 & C1 & S1 & T1) (M2 & K2 & I2 & D2 & C2 & S2 & T2).
  split_and!; [congruence..| |].
  - intros Hs Hn. rewrite S2; [by apply S1| |by apply Hq]. by rewrite S1.
  - intros Ht. destruct (T1 Ht) as (E1 & E2 & E3 & E4 & E5). rewrite <-E1 in Ht.
    destruct (T2 Ht) as (F1 & F2 & F3 & F4 & F5). by rewrite F1, F2, F3, F4, F5.
Qed.

Lemma row_step_not_queued row row' : row_step row row' → r_state row ≠ Queued → r_state row' ≠ Queued.
Proof. intros [now to code msg r Hc|p r|o r]; simpl; eauto using transition_not_queued. Qed.

Lemma row_steps_frozen row row' : rtc row_step row row' → row_frozen row row'.
Proof.
  induction 1 as [row|x y z Hxy _ IH]; [by repeat split|].
  eapply row_frozen_trans; [|by apply row_step_frozen|done]. by apply row_step_not_queued.
Qed.

Lemma row_steps_path row row' : rtc row_step row row' →
  rtc (λ s t, canTransition s t = true) (r_state row) (r_state row').
Proof.
  induction 1 as [row|x y z Hxy _ IH]; [done|]. destruct Hxy; [|done..]. by eapply rtc_l.
Qed.

Definition rows_ok (g : Ledger) : Prop := ∀ rid row, lg_runs g !! rid = Some row → row_ok row.

Lemma row_steps_ok row row' : rtc row_step row row' → row_ok row → row_ok row'.
Proof. induction 1; eauto using row_step_ok. Qed.

Lemma evolve_rows_ok g g' : runs_evolve g g' → rows_ok g → rows_ok g'.
Proof.
  intros H Hok rid row' E. specialize (H rid). rewrite E in H.
  destruct (lg_runs g !! rid) as [row|] eqn:E0; [eauto using row_steps_ok|].
  destruct H as (row & Hq & Hs & Hf & Hr). eapply row_steps_ok; [done|].
  unfold row_ok. rewrite Hq, Hs, Hf. split_and!; [|done..]. split; [done|by intros []].
Qed.

(** ** [MarkInterrupted] *)

Definition interrupted (now : string) : RunRow → RunRow :=
  moved now Interrupted "run.interrupted" "controller restart".

Definition interruptible (row : RunRow) : bool := negb (Terminal (r_state row)) && IsOneShot (r_kind row).

Lemma interrupt_rows_spec now rows n g :
  NoDup rows.*1 →
  (∀ rid row, (rid, row) ∈ rows → lg_runs g !! rid = Some row ∧ Terminal (r_state row) = false) →
  ∃ g', interrupt_rows now n rows g = (Ok (n + length (filter (λ e, IsOneShot (r_kind (snd e)) = true) rows))%nat, g') ∧
    lg_leases g' = lg_leases g ∧
    ∀ rid, lg_runs g' !! rid =
      (λ row, if bool_decide (rid ∈ rows.*1) && IsOneShot (r_kind row) then interrupted now row else row)
        <$> lg_runs g !! rid.
Proof.
  revert n g. induction rows as [|[rid row] rows IH]; intros n g Hnd Hrows; csimpl.
  { exists g. rewrite Nat.add_0_r. split_and!; [done..|]. intros rid. by destruct (lg_runs g !! rid). }
  apply NoDup_cons in Hnd as [Hni Hnd]. csimpl in *.
  destruct (Hrows rid row ltac:(set_solver)) as [Er Ht].
  destruct (IsOneShot (r_kind row)) eqn:Eo; simpl.
  - unfold_st. destruct (SetState_cases rid now Interrupted "run.interrupted" "controller restart" g)
      as [(row' & Er' & _ & ->)|(e & _ & [[? _]|(row' & Er' & Hc & _)])]; simplify_eq;
      [|by rewrite nonterminal_interruptible in Hc].
    match goal with |- context [interrupt_rows _ _ _ ?g1] => set (g1' := g1) end.
    destruct (IH (S n) g1' Hnd) as (g' & -> & Hl & Hg).
    { intros rid' row' Hin. unfold g1'. simpl. rewrite lookup_insert_ne; [apply Hrows; set_solver|].
      intros ->. apply Hni, (list_elem_of_fmap_2 fst _ _ Hin). }
    exists g'. rewrite filter_cons_True by done. simpl. split; [f_equal; f_equal; lia|]. split; [done|].
    intros rid'. rewrite Hg. unfold g1'. simpl. rewrite lookup_insert. case_decide as Erid.
    + subst rid'. rewrite Er. simpl. rewrite (bool_decide_eq_false_2 _ Hni), Eo. simpl.
      by rewrite bool_decide_eq_true_2 by set_solver.
    + destruct (lg_runs g !! rid') as [r|]; simpl; [|done].
      rewrite (bool_decide_ext (rid' ∈ rows.*1) (rid' ∈ rid :: rows.*1)); [done|]. set_solver.
  - destruct (IH n g Hnd) as (g' & -> & Hl & Hg); [intros; apply Hrows; set_solver|].
    exists g'. rewrite filter_cons_False by (simpl; congruence). split; [done|]. split; [done|].
    intros rid'. rewrite Hg. destruct (lg_runs g !! rid') as [r|] eqn:E'; simpl; [|done].
    destruct (decide (rid' = rid)) as [->|Hne]; [by simplify_eq; rewrite Eo, !andb_false_r|].
    rewrite (bool_decide_ext (rid' ∈ rows.*1) (rid' ∈ rid :: rows.*1)); [done|]. set_solver.
Qed.

Lemma nonterminal_rows g rid row :
  (rid, row) ∈ ListNonTerminalRuns g ↔ lg_runs g !! rid = Some row ∧ Terminal (r_state row) = false.
Proof.
  unfold ListNonTerminalRuns. rewrite list_elem_of_filter, elem_of_map_to_list. naive_solver.
Qed.

Lemma NoDup_filter_fst {A} (P : string * A → Prop) `{∀ x, Decision (P x)} (l : list (string * A)) :
  NoDup l.*1 → NoDup (filter P l).*1.
Proof.
  intros H1. eapply sublist_NoDup; [exact H1|]. apply fmap_sublist, sublist_filter.
Qed.

(** Every nonterminal one-shot run is interrupted, whatever the ledger; nothing else changes. *)
Lemma MarkInterrupted_cases now g :
  ∃ n g', MarkInterrupted now g = (Ok n, g') ∧ lg_leases g' = lg_leases g ∧
    n = length (filter (λ e, interruptible (snd e) = true) (map_to_list (lg_runs g))) ∧
    lg_runs g' = (λ row, if interruptible row then interrupted now row else row) <$> lg_runs g.
Proof.
  unfold MarkInterrupted. unfold_st.
  destruct (interrupt_rows_spec now (ListNonTerminalRuns g) 0 g) as (g' & -> & Hl & Hg).
  { apply NoDup_filter_fst, NoDup_fst_map_to_list. }
  { intros. by apply nonterminal_rows. }
  eexists _, g'. split; [done|]. split; [done|]. split.
  - simpl. unfold ListNonTerminalRuns. rewrite list_filter_filter. f_equal.
    apply list_filter_iff. intros [rid row]. unfold interruptible. simpl.
    rewrite andb_true_iff, negb_true_iff. tauto.
  - apply map_eq. intros rid. rewrite Hg, lookup_fmap.
    destruct (lg_runs g !! rid) as [row|] eqn:E; simpl; [|done]. f_equal.
    unfold interruptible. destruct (Terminal (r_state row)) eqn:Et; simpl.
    + rewrite bool_decide_eq_false_2; [done|]. intros ([rid' row'] & -> & Hin)%list_elem_of_fmap.
      apply nonterminal_rows in Hin as [??]. simpl in *. simplify_eq. congruence.
    + rewrite bool_decide_eq_true_2; [done|]. apply list_elem_of_fmap. exists (rid, row). split; [done|].
      by apply nonterminal_rows.
Qed.

(** ** The invariant of the ledger *)

Lemma exec_leases_exclusive o g : leases_exclusive (lg_leases g) → leases_exclusive (lg_leases (exec o g)).
Proof.
  intros H. destruct o; simpl; auto with lmw.
  - unfold Create, CreateRun, publish. unfold_st. by destruct (_ || _).
  - by rewrite SetState_leases.
  - by rewrite Cancel_SetState, SetState_leases.
  - pose proof (SetState_leases rid now to code msg g) as E.
    destruct (Complete_cases rid now to code msg g) as [(row & g' & Es & _ & _ & ->)|(e & _ & ->)]; [|done].
    rewrite Es in E. simpl in *. destruct (lease_owner rid row). simpl. rewrite E. by apply release_exclusive.
  - destruct (MarkInterrupted_cases now g) as (n & g' & -> & E & _). simpl. by rewrite E.
  - unfold acquire_leases. pose proof (AcquireLeases_exclusive kind owner resources (lg_leases g) H) as H'.
    by destruct (transact _ _).
Qed.

Record ledger_inv (g : Ledger) : Prop := {
  li_rows : rows_ok g;
  li_leases : leases_exclusive (lg_leases g);
}.

Lemma ledger_inv_exec_all os g : ledger_inv g → ledger_inv (exec_all os g).
Proof.
  revert g. induction os as [|o os IH]; intros g [Hr Hl]; simpl; [done|]. apply IH. split.
  - eapply evolve_rows_ok; [apply exec_evolves|done].
  - by apply exec_leases_exclusive.
Qed.

Lemma ledger_inv_empty deps : ledger_inv (empty_ledger deps).
Proof. split; [intros rid row; simpl; by rewrite lookup_empty|apply leases_exclusive_nil]. Qed.

(** ** The properties *)

(** C1: the life of a run.  After any sequence of operations, whatever their outcomes, every row's
    time stamps agree with its state; and from there on, whatever else is done to the ledger, the
    run stays in it, its module, kind, input, deployment and creation time are kept, its state moves
    only along the graph, its start time is written at most once, and once its state is terminal its
    state, its times and its error never change again. *)
Theorem run_lifecycle deps os os' rid row :
  lg_runs (exec_all os (empty_ledger deps)) !! rid = Some row →
  row_ok row ∧
  ∃ row', lg_runs (exec_all os' (exec_all os (empty_ledger deps))) !! rid = Some row' ∧
    rtc (λ s t, canTransition s t = true) (r_state row) (r_state row') ∧ row_frozen row row'.
Proof.
  intros E. split; [apply (li_rows _ (ledger_inv_exec_all os _ (ledger_inv_empty deps)) _ _ E)|].
  pose proof (exec_all_evolves os' (exec_all os (empty_ledger deps)) rid) as H. rewrite E in H.
  destruct (lg_runs (exec_all os' _) !! rid) as [row'|]; [|done]. exists row'.
  eauto using row_steps_path, row_steps_frozen.
Qed.

(** C2: mutual exclusion of leases.  After any sequence of operations no two active leases name the
    same resource, and two active leases whose resources conflict belong to the same owner. *)
Theorem ledger_leases_exclusive deps os : leases_exclusive (lg_leases (exec_all os (empty_ledger deps))).
Proof. apply li_leases, ledger_inv_exec_all, ledger_inv_empty. Qed.

(** Recovery at controller start.  [MarkInterrupted] never fails, whatever the ledger holds: it
    returns the number of nonterminal one-shot runs, interrupts exactly those, and leaves every other
    run as it was. *)
Theorem MarkInterrupted_spec now g :
  ∃ g', MarkInterrupted now g =
      (Ok (length (filter (λ e, interruptible (snd e) = true) (map_to_list (lg_runs g)))), g') ∧
    lg_runs g' = (λ row, if interruptible row then interrupted now row else row) <$> lg_runs g ∧
    ∀ rid row, lg_runs g' !! rid = Some row → interruptible row = false.
Proof.
  destruct (MarkInterrupted_cases now g) as (n & g' & E & _ & -> & Hg). exists g'. split; [done|].
  split; [done|]. intros rid row. rewrite Hg, lookup_fmap. intros (r & _ & ->)%fmap_Some.
  by destruct (interruptible r) eqn:Ei.
Qed.

(** A run that is created, started, and given a GPU, on an otherwise empty ledger. *)
Definition sample_ops : list op :=
  [ OpCreate "r1" "t0" "bench" "benchmark" [] ""; OpAcquire "run" "r1" ["gpu:n1:GPU-0"];
    OpSetState "r1" "t1" Running "" "" ].

Definition sample_row : RunRow :=
  mkRun "bench" "benchmark" Running (to_bytes "{}") (to_bytes "{}") None None None None "t0"
    (Some "t1") None (to_bytes "{}").

Lemma run_lifecycle_witness :
  row_ok sample_row ∧
  ∃ row', lg_runs (exec_all [OpComplete "r1" "t2" Failed "run.failed" "boom"; OpCancel "r1" "t3"]
                     (exec_all sample_ops (empty_ledger ∅))) !! "r1" = Some row' ∧
    rtc (λ s t, canTransition s t = true) Running (r_state row') ∧ row_frozen sample_row row'.
Proof. apply (run_lifecycle ∅ sample_ops _ "r1" sample_row). vm_compute. reflexivity. Defined.

(** Finishing a run.  When the graph allows the move, [Complete] succeeds, the row gets the new
    state, and afterwards the run's owner (its deployment if it has one) holds no active lease while
    every other owner's active leases are exactly as before; when it does not, nothing changes. *)
Theorem Complete_spec rid now to code msg g row :
  lg_runs g !! rid = Some row →
  (canTransition (r_state row) to = true ∧
   ∃ g', Complete rid now to code msg g = (Ok tt, g') ∧
     lg_runs g' = <[rid := moved now to code msg row]> (lg_runs g) ∧
     ∀ l, l_active l = true →
       (l ∈ lg_leases g' ↔
        l ∈ lg_leases g ∧ owned_by (lease_owner rid row).1 (lease_owner rid row).2 l = false))
  ∨ (canTransition (r_state row) to = false ∧
     Complete rid now to code msg g = (Err (ErrInvalidTransition (r_state row) to), g)).
Proof.
  intros Er. destruct (SetState_cases rid now to code msg g) as
    [(row' & Er' & Hc & Es)|(e & Es & [[? _]|(row' & Er' & Hc & ->)])]; simplify_eq; [left|right].
  - split; [done|].
    destruct (Complete_cases rid now to code msg g) as [(r & g' & Es' & ? & _ & Ec)|(e & Es' & _)];
      [|congruence]. simplify_eq. rewrite Es in Es'. simplify_eq.
    eexists. split; [exact Ec|]. destruct (lease_owner rid row) as [kind owner]. split; [done|].
    intros l Hl. simpl. by apply ReleaseLeases_spec.
  - split; [done|].
    destruct (Complete_cases rid now to code msg g) as [(r & g' & Es' & _)|(e & Es' & Ec)]; congruence.
Qed.

Definition sample_ledger : Ledger := exec_all sample_ops (empty_ledger ∅).

Lemma Complete_spec_witness :
  (canTransition Running Failed = true ∧
   ∃ g', Complete "r1" "t2" Failed "run.failed" "boom" sample_ledger = (Ok tt, g') ∧
     lg_runs g' = <["r1" := moved "t2" Failed "run.failed" "boom" sample_row]> (lg_runs sample_ledger) ∧
     ∀ l, l_active l = true →
       (l ∈ lg_leases g' ↔ l ∈ lg_leases sample_ledger ∧ owned_by "run" "r1" l = false))
  ∨ (canTransition Running Failed = false ∧
     Complete "r1" "t2" Failed "run.failed" "boom" sample_ledger =
       (Err (ErrInvalidTransition Running Failed), sample_ledger)).
Proof.
  apply (Complete_spec "r1" "t2" Failed "run.failed" "boom" sample_ledger sample_row).
  vm_compute. reflexivity.
Defined.

(** An interrupted run keeps its leases for good.  [MarkInterrupted] leaves the lease table
    alone, and no later completion or cancellation of the interrupted run can release them: those
    calls are rejected and change nothing. *)
Theorem interrupted_runs_keep_leases now g rid row :
  lg_runs g !! rid = Some row → interruptible row = true →
  let g' := snd (MarkInterrupted now g) in
  lg_leases g' = lg_leases g ∧
  (∀ now' to code msg, exec (OpComplete rid now' to code msg) g' = g') ∧
  (∀ now', exec (OpCancel rid now') g' = g').
Proof.
  intros Er Hi. destruct (MarkInterrupted_cases now g) as (n & g' & -> & Hl & _ & Hg). simpl.
  assert (Er' : lg_runs g' !! rid = Some (interrupted now row)).
  { by rewrite Hg, lookup_fmap, Er; simpl; rewrite Hi. }
  assert (Hs : ∀ now' to code msg, ∃ e, SetState rid now' to code msg g' = (Err e, g')).
  { intros now' to code msg. destruct (SetState_cases rid now' to code msg g') as
      [(r & Er2 & Hc & _)|(e & Es & _)]; [|by eauto]. simplify_eq. }
  split; [done|]. split.
  - intros now' to code msg. destruct (Hs now' to code msg) as [e Es].
    destruct (Complete_cases rid now' to code msg g') as [(r & g2 & Es' & _)|(e' & _ & ->)]; [congruence|done].
  - intros now'. rewrite Cancel_SetState. by destruct (Hs now' Cancelling "" "") as [e ->].
Qed.

Lemma interrupted_runs_keep_leases_witness :
  let g' := snd (MarkInterrupted "t9" sample_ledger) in
  lg_leases g' = [mkLease "gpu:n1:GPU-0" "run" "r1" true] ∧
  (∀ now' to code msg, exec (OpComplete "r1" now' to code msg) g' = g') ∧
  (∀ now', exec (OpCancel "r1" now') g' = g').
Proof.
  apply (interrupted_runs_keep_leases "t9" sample_ledger "r1" sample_row);
    vm_compute; reflexivity.
Defined.

(** [SetState] checks and writes in two statements without a transaction.  Two concurrent calls
    that both read the row before either writes it can take a run out of a terminal state: after a
    failure is recorded, the second call's write puts the run back to [verifying], finished stamp and
    all. *)
Theorem SetState_race :
  ∃ os row g1 g2 row1 row2, let g := exec_all os (empty_ledger ∅) in
    GetRun "r1" g = (Ok row, g) ∧
    write_state "r1" "t2" row Failed "run.failed" "boom" g = (Ok tt, g1) ∧
    write_state "r1" "t3" row Verifying "" "" g1 = (Ok tt, g2) ∧
    lg_runs g1 !! "r1" = Some row1 ∧ Terminal (r_state row1) = true ∧
    lg_runs g2 !! "r1" = Some row2 ∧ r_state row2 = Verifying ∧ ¬ row_ok row2.
Proof.
  exists sample_ops, sample_row. do 2 eexists. do 2 eexists. cbv zeta.
  split; [vm_compute; reflexivity|]. split; [vm_compute; reflexivity|]. split; [vm_compute; reflexivity|].
  split; [vm_compute; reflexivity|]. split; [vm_compute; reflexivity|]. split; [vm_compute; reflexivity|].
  split; [reflexivity|]. intros [Hf _]. destruct Hf as [_ Hf]. discriminate Hf. by eexists.
Qed.

(** ** Listing *)

#[export] Instance newer_transitive : Transitive newer.
Proof. intros a b c H1 H2. unfold newer in *. by etrans. Qed.

#[export] Instance newer_total : Total newer.
Proof. intros a b. unfold newer. apply total, _. Qed.

Definition list_matches (f : Filter) (e : string * RunRow) : Prop :=
  opt_matches (f_module f) (r_module (snd e)) &&
  opt_matches (f_state f) (state_name (r_state (snd e))) &&
  created_before (f_created_before f) (r_created (snd e)) = true.

Lemma clamp_limit_bounds limit : (1 ≤ clamp_limit limit ≤ 200)%Z.
Proof. unfold clamp_limit. destruct (Z.leb_spec limit 0); [by simpl|]. destruct (Z.ltb_spec 200 limit); lia. Qed.

Lemma sorted_take_drop {A} (R : relation A) n (l : list A) x y :
  StronglySorted R l → x ∈ take n l → y ∈ drop n l → R x y.
Proof.
  intros Hs Hx Hy. rewrite <-(take_drop n l) in Hs. by eapply StronglySorted_app_1_elem_of.
Qed.

Lemma ListRuns_spec f limit g :
  let page := ListRuns f limit g in
  StronglySorted newer page ∧ (length page ≤ Z.to_nat limit)%nat ∧
  (∀ e, e ∈ page → lg_runs g !! fst e = Some (snd e) ∧ list_matches f e) ∧
  ∀ rid row, lg_runs g !! rid = Some row → list_matches f (rid, row) → (rid, row) ∉ page →
    length page = Z.to_nat limit ∧ ∀ e, e ∈ page → newer e (rid, row).
Proof.
  unfold ListRuns. set (rows := filter _ (map_to_list (lg_runs g))).
  assert (Hrows : ∀ e, e ∈ rows ↔ lg_runs g !! fst e = Some (snd e) ∧ list_matches f e).
  { intros [rid row]. unfold rows. rewrite list_elem_of_filter, elem_of_map_to_list. simpl.
    unfold list_matches. simpl. tauto. }
  assert (Hs : StronglySorted newer (merge_sort newer rows)).
  { apply StronglySorted_merge_sort; apply _. }
  cbv zeta. split_and!.
  - rewrite <-(take_drop (Z.to_nat limit) (merge_sort newer rows)) in Hs.
    by apply StronglySorted_app_1_l in Hs.
  - rewrite length_take. lia.
  - intros e He. apply Hrows. rewrite <-(merge_sort_Permutation newer rows).
    apply elem_of_take in He as (i & Hi & _). by apply list_elem_of_lookup_2 in Hi.
  - intros rid row Er Hm Hout.
    assert (Hin : (rid, row) ∈ merge_sort newer rows).
    { rewrite merge_sort_Permutation. by apply Hrows. }
    rewrite <-(take_drop (Z.to_nat limit) (merge_sort newer rows)), elem_of_app in Hin.
    destruct Hin as [|Hin]; [done|]. split.
    + rewrite length_take. apply list_elem_of_lookup in Hin as [i Hi].
      rewrite lookup_drop in Hi. apply lookup_lt_Some in Hi. lia.
    + intros e He. by eapply sorted_take_drop.
Qed.

(** [List] without a deployment filter returns the newest matching runs: a page of at most 200
    rows, newest first, all of them matching, and a matching run is left out only when the page is
    full of runs at least as new. *)
Theorem List_newest f g :
  f_deployment f = None →
  let page := List_runs f g in
  StronglySorted newer page ∧ (length page ≤ 200)%nat ∧
  (∀ e, e ∈ page → lg_runs g !! fst e = Some (snd e) ∧ list_matches f e) ∧
  ∀ rid row, lg_runs g !! rid = Some row → list_matches f (rid, row) → (rid, row) ∉ page →
    Z.of_nat (length page) = clamp_limit (f_limit f) ∧ ∀ e, e ∈ page → newer e (rid, row).
Proof.
  intros Hd. unfold List_runs. rewrite Hd. cbv zeta.
  assert (E : ∀ l : list (string * RunRow), filter (λ e, deployment_matches None (snd e) = true) l = l).
  { induction l as [|e l IH]; [done|]. by rewrite filter_cons_True, IH. }
  rewrite E. pose proof (clamp_limit_bounds (f_limit f)).
  destruct (ListRuns_spec f (clamp_limit (f_limit f)) g) as (H1 & H2 & H3 & H4).
  split_and!; [done|lia|done|]. intros rid row Er Hm Hout. destruct (H4 rid row Er Hm Hout) as [Hlen ?].
  split; [|done]. rewrite Hlen. lia.
Qed.

Lemma List_newest_witness :
  let page := List_runs (mkFilter (Some "bench") None None None 0) sample_ledger in
  StronglySorted newer page ∧ (length page ≤ 200)%nat ∧
  (∀ e, e ∈ page → lg_runs sample_ledger !! fst e = Some (snd e) ∧
                   list_matches (mkFilter (Some "bench") None None None 0) e) ∧
  ∀ rid row, lg_runs sample_ledger !! rid = Some row →
    list_matches (mkFilter (Some "bench") None None None 0) (rid, row) → (rid, row) ∉ page →
    Z.of_nat (length page) = clamp_limit 0 ∧ ∀ e, e ∈ page → newer e (rid, row).
Proof. apply (List_newest (mkFilter (Some "bench") None None None 0) sample_ledger). reflexivity. Defined.

(** The deployment filter of [List] is applied after the limit, so a page can come back empty
    although the ledger holds a run of that deployment. *)
Theorem List_deployment_misses :
  ∃ os deps, let g := exec_all os (empty_ledger deps) in
  let f := mkFilter None None (Some "d1") None 1 in
  (∃ row, lg_runs g !! "r1" = Some row ∧ r_deployment row = Some "d1") ∧ List_runs f g = [].
Proof.
  exists [OpCreate "r1" "t1" "serving" "serve" [] "d1"; OpCreate "r2" "t2" "bench" "benchmark" [] ""],
    {["d1"]}. cbv zeta. split; [|vm_compute; reflexivity].
  eexists. split; vm_compute; reflexivity.
Qed.
