(* ===== verification/RunLogs.v ===== *)
(** * Run logs: the log half of [internal/runs/service.go]

    Log files live below the run root, one per run, deployment, rank and stream.  Writers append;
    readers poll with a byte cursor; a terminal marker records where a stream ended.  Files are byte
    strings keyed by path; offsets are [uint64] values. *)

From S2P Require Import Prelude GoStrings Utf8 Paths.
Open Scope Z_scope.

(** ** [itoa] *)

(** The digit loop over a 20-byte buffer: [fuel] is the buffer's room, enough for an [int64]. *)
Fixpoint itoa_loop (fuel : nat) (n : Z) (acc : string) : string :=
  match fuel with
  | O => acc
  | S fuel =>
      if 0 <? n then itoa_loop fuel (n / 10) (String (ascii_of_nat (48 + Z.to_nat (n mod 10))) acc)
      else acc
  end.

Definition itoa (n : Z) : string := if bool_decide (n = 0) then "0" else itoa_loop 20 n "".

(** ** Paths *)

Definition space : ascii := " "%char.

(** ["" ] stands for an ad hoc run without a deployment *)
Definition log_deployment (deploymentID : string) : string :=
  if bool_decide (deploymentID = "") then "adhoc" else deploymentID.

Definition log_stream (stream : string) : string :=
  if negb (bool_decide (stream = "stdout")) && negb (bool_decide (stream = "stderr"))
  then "stdout" else stream.

Definition log_file (deploymentID : string) (rank : Z) (stream : string) : string :=
  Base (replace_byte space "_" deploymentID) +:+ "-rank" +:+ itoa rank +:+ "_" +:+ stream +:+ ".log".

Definition LogPath (runRoot runID deploymentID : string) (rank : Z) (stream : string) : string :=
  let deploymentID := log_deployment deploymentID in
  if bool_decide (runID = "") || bool_decide (runID = ".") || bool_decide (runID = "..")
     || bool_decide (deploymentID = ".") || bool_decide (deploymentID = "..")
     || negb (bool_decide (Base runID = runID)) || negb (bool_decide (Base deploymentID = deploymentID))
  then ""
  else
    let stream := log_stream stream in
    Join [runRoot; runID; "logs"; deploymentID; log_file deploymentID rank stream].

(** ** Files *)

Inductive log_error := ErrUnsafeID.

(** The files below the run root *)
Notation files := (gmap string bytes).

Definition AppendLog (runRoot runID deploymentID : string) (rank : Z) (stream : string) (data : bytes)
    : ST files log_error unit :=
  let path := LogPath runRoot runID deploymentID rank stream in
  if bool_decide (path = "") then throw ErrUnsafeID
  else modify (λ fs, <[path := default [] (fs !! path) ++ data]> fs).

Definition MaxLogChunk : Z := 2 ^ 20.

Definition chunk_limit (maxBytes : Z) : Z :=
  let maxBytes := if maxBytes <=? 0 then 2 ^ 18 else maxBytes in
  if MaxLogChunk <? maxBytes then MaxLogChunk else maxBytes.

(** The read of an existing file: chunk, next offset and size *)
Definition read_chunk (file : bytes) (offset maxBytes : Z) : bytes * Z * Z :=
  let size := Z.of_nat (length file) in
  let offset := if size <? offset then size else offset in
  if bool_decide (offset = size) then ([], size, size)
  else
    let n := Z.min (chunk_limit maxBytes) (size - offset) in
    let chunk := take (Z.to_nat n) (drop (Z.to_nat offset) file) in
    (chunk, offset + Z.of_nat (length chunk), size).

Definition ReadLog (runRoot runID deploymentID : string) (rank : Z) (stream : string)
    (offset maxBytes : Z) (fs : files) : result log_error (bytes * Z * Z) :=
  let path := LogPath runRoot runID deploymentID rank stream in
  if bool_decide (path = "") then Err ErrUnsafeID
  else match fs !! path with
       | None => Ok ([], 0, 0)
       | Some file => Ok (read_chunk file offset maxBytes)
       end.

(** ** End markers *)

Record logEndKey := mkKey { k_run : string; k_deployment : string; k_rank : Z; k_stream : string }.

#[export] Instance logEndKey_eq_dec : EqDecision logEndKey.
Proof. solve_decision. Defined.

#[export] Instance logEndKey_countable : Countable logEndKey.
Proof.
  apply (inj_countable' (λ k, (k_run k, k_deployment k, k_rank k, k_stream k))
           (λ '(a, b, c, d), mkKey a b c d)). by intros [].
Qed.

(** [logEnds], and the keys [logEndCh] holds an open channel for *)
Record ends := mkEnds { logEnds : gmap logEndKey Z; logEndCh : gset logEndKey }.

Definition end_key (runID deploymentID : string) (rank : Z) (stream : string) : logEndKey :=
  mkKey runID (log_deployment deploymentID) rank stream.

Definition MarkLogEnd (runID deploymentID : string) (rank : Z) (stream : string) (endOffset : Z) (s : ends)
    : ends :=
  let key := end_key runID deploymentID rank stream in
  if match logEnds s !! key with Some prev => endOffset <=? prev | None => false end then s
  else mkEnds (<[key := endOffset]> (logEnds s)) (logEndCh s ∖ {[key]}).

Definition LogEnded (runID deploymentID : string) (rank : Z) (stream : string) (s : ends) : option Z :=
  logEnds s !! end_key runID deploymentID rank stream.

(** [WaitLogEnd] up to its [select]: the offset at once, or a channel to wait on *)
Definition WaitLogEnd (runID deploymentID : string) (rank : Z) (stream : string) (s : ends)
    : option Z * ends :=
  let key := end_key runID deploymentID rank stream in
  match logEnds s !! key with
  | Some v => (Some v, s)
  | None => (None, mkEnds (logEnds s) (logEndCh s ∪ {[key]}))
  end.

(** ** Digits *)

Definition digit (a : ascii) : bool := byte_in 48 57 a.

Fixpoint dec_go (v : Z) (s : string) : Z :=
  match s with
  | EmptyString => v
  | String a s => dec_go (10 * v + (Z.of_nat (byte_nat a) - 48)) s
  end.

Lemma digit_char d : 0 ≤ d < 10 →
  digit (ascii_of_nat (48 + Z.to_nat d)) = true ∧
  Z.of_nat (byte_nat (ascii_of_nat (48 + Z.to_nat d))) - 48 = d.
Proof.
  intros Hd. unfold digit, byte_in, byte_nat. rewrite nat_ascii_embedding by lia.
  split; [apply andb_true_iff; split; apply Nat.leb_le; lia|lia].
Qed.

Lemma itoa_loop_spec fuel n acc : 0 ≤ n < 10 ^ Z.of_nat fuel →
  dec_go 0 (itoa_loop fuel n acc) = dec_go n acc.
Proof.
  revert n acc. induction fuel as [|fuel IH]; intros n acc Hn; cbn [itoa_loop].
  { simpl in Hn. replace n with 0 by lia. done. }
  destruct (Z.ltb_spec 0 n) as [Hpos|Hle]; [|assert (n = 0) as -> by lia; done].
  destruct (digit_char (n mod 10)) as [Hd Hv]; [apply Z.mod_pos_bound; lia|].
  rewrite IH.
  2: { split; [apply Z.div_pos; lia|]. apply Z.div_lt_upper_bound; [lia|].
    rewrite Nat2Z.inj_succ, Z.pow_succ_r in Hn by lia. lia. }
  cbn [dec_go]. rewrite Hv. f_equal. pose proof (Z.div_mod n 10). lia.
Qed.

Lemma itoa_spec n : 0 ≤ n ≤ max_int64 → dec_go 0 (itoa n) = n.
Proof.
  intros Hn. unfold itoa. case_bool_decide as E; [by subst|].
  apply (itoa_loop_spec 20 n ""). unfold max_int64 in Hn. simpl. lia.
Qed.

Lemma itoa_inj n m : 0 ≤ n ≤ max_int64 → 0 ≤ m ≤ max_int64 → itoa n = itoa m → n = m.
Proof. intros Hn Hm E. rewrite <-(itoa_spec n Hn), <-(itoa_spec m Hm). by rewrite E. Qed.

Lemma itoa_loop_digits fuel n acc : sforallb digit acc = true → sforallb digit (itoa_loop fuel n acc) = true.
Proof.
  revert n acc. induction fuel as [|fuel IH]; intros n acc Hacc; cbn [itoa_loop]; [done|].
  case_match; [|done]. apply IH. cbn [sforallb]. rewrite Hacc, andb_true_r.
  apply digit_char, Z.mod_pos_bound. lia.
Qed.

Lemma itoa_digits n : sforallb digit (itoa n) = true.
Proof. unfold itoa. case_bool_decide; [done|]. by apply itoa_loop_digits. Qed.

Lemma no_byte c p s : p c = false → sforallb p s = true → contains_byte c s = false.
Proof.
  intros Hc. induction s as [|a s IH]; simpl; [done|]. intros [Ha Hs]%andb_prop.
  rewrite IH by done. rewrite bool_decide_eq_false_2; [done|]. by intros ->; congruence.
Qed.

Lemma no_byte_digits c n : digit c = false → contains_byte c (itoa n) = false.
Proof. intros Hc. apply (no_byte _ digit); [done|apply itoa_digits]. Qed.

(** ** Containment *)

Lemma replace_space_slash s : contains_byte slash (replace_byte space "_" s) = contains_byte slash s.
Proof.
  induction s as [|a s IH]; simpl; [done|]. rewrite contains_byte_app, IH.
  case_decide as E; [by subst|]. simpl. by rewrite orb_false_r.
Qed.

Lemma replace_space_nonempty s : s ≠ "" → replace_byte space "_" s ≠ "".
Proof. destruct s as [|a s]; [done|]. intros _. simpl. by case_decide. Qed.

Lemma log_stream_cases stream : log_stream stream = "stdout" ∨ log_stream stream = "stderr".
Proof. unfold log_stream. repeat case_bool_decide; simpl; auto. Qed.

(** The file name behind its prefix *)
Definition log_suffix (rank : Z) (stream : string) : string :=
  "-rank" +:+ itoa rank +:+ "_" +:+ stream +:+ ".log".

Lemma log_suffix_no_slash rank stream : contains_byte slash (log_suffix rank (log_stream stream)) = false.
Proof.
  unfold log_suffix. rewrite !contains_byte_app. rewrite (no_byte_digits slash) by done.
  by destruct (log_stream_cases stream) as [-> | ->].
Qed.

Lemma long_name p rank stream : contains_byte slash p = false → name (p +:+ log_suffix rank (log_stream stream)) = true.
Proof.
  intros Hp. apply name_spec.
  assert (Hlen : (5 ≤ String.length (p +:+ log_suffix rank (log_stream stream)))%nat).
  { unfold log_suffix. rewrite !slength_app. simpl. lia. }
  split_and!; try (intros E; rewrite E in Hlen; simpl in Hlen; lia).
  rewrite contains_byte_app, Hp. apply log_suffix_no_slash.
Qed.

(** The ids [LogPath] accepts: a name, or a lone slash. *)
Definition safe_id (id : string) : Prop := id = "/" ∨ name id = true.

Lemma safe_id_spec id : id ≠ "" → id ≠ "." → id ≠ ".." → Base id = id → safe_id id.
Proof.
  intros H1 H2 H3 Hb. destruct (Base_fixpoint id H1 Hb); [by left|right]. by apply name_spec.
Qed.

Lemma LogPath_accepts root runID dep rank stream :
  LogPath root runID dep rank stream ≠ "" →
  safe_id runID ∧ safe_id (log_deployment dep) ∧
  LogPath root runID dep rank stream =
    Join [root; runID; "logs"; log_deployment dep; log_file (log_deployment dep) rank (log_stream stream)].
Proof.
  unfold LogPath. destruct (_ || _) eqn:E; [done|]. intros _.
  rewrite !orb_false_iff, !negb_false_iff, !bool_decide_eq_false, !bool_decide_eq_true in E.
  destruct E as [[[[[[E1 E2] E3] E4] E5] E6] E7]. split_and!; [by apply safe_id_spec| |done].
  apply safe_id_spec; try done. unfold log_deployment. by case_bool_decide.
Qed.

Lemma safe_id_quiet id : safe_id id → id ≠ "" ∧ Forall quiet_element (elements id).
Proof. intros [-> |H]; [split; [done|by repeat constructor; left]|by apply name_quiet]. Qed.

Lemma log_file_quiet dep rank stream : safe_id dep →
  log_file dep rank (log_stream stream) ≠ "" ∧
  Forall quiet_element (elements (log_file dep rank (log_stream stream))).
Proof.
  intros [-> |Hn].
  - change (log_file "/" rank (log_stream stream)) with ("" +:+ String slash (log_suffix rank (log_stream stream))).
    split; [done|]. rewrite elements_app. simpl. constructor; [by left|].
    pose proof (long_name "" rank stream eq_refl) as H. by apply name_quiet in H as [_ ?].
  - apply name_quiet. apply name_spec in Hn as (Hne & _ & _ & Hs). unfold log_file.
    rewrite Base_no_slash; [|by apply replace_space_nonempty|by rewrite replace_space_slash].
    apply long_name. by rewrite replace_space_slash.
Qed.

(** Log files stay below the run root.  Whatever run id, deployment id, rank and stream are
    asked for, [LogPath] refuses or names a path that is the cleaned run root followed by plain names:
    no element is empty, a dot or a dot-dot, and none holds a slash. *)
Theorem LogPath_contained root runID dep rank stream :
  root ≠ "" →
  LogPath root runID dep rank stream = "" ∨
  ∃ names, LogPath root runID dep rank stream = render_path (IsAbs root) (clean_of root ++ names) ∧
           names ≠ [] ∧ Forall (λ e, name e = true) names.
Proof.
  intros Hroot. destruct (decide (LogPath root runID dep rank stream = "")) as [E|E]; [by left|right].
  apply LogPath_accepts in E as (Hr & Hd & ->).
  assert (Hq : Forall (λ p, p ≠ "" ∧ Forall quiet_element (elements p))
    [runID; "logs"; log_deployment dep; log_file (log_deployment dep) rank (log_stream stream)]).
  { constructor; [by apply safe_id_quiet|]. constructor; [by apply name_quiet|].
    constructor; [by apply safe_id_quiet|]. constructor; [by apply log_file_quiet|constructor]. }
  rewrite Join_below by done. eexists. split; [done|]. split.
  - simpl. intros E. assert (H : "logs" ∈ nonempty (elements runID ++ "logs" :: elements (log_deployment dep)
      ++ elements (log_file (log_deployment dep) rank (log_stream stream)) ++ [])).
    { apply list_elem_of_filter. split; [done|set_solver]. } by rewrite E in H; apply not_elem_of_nil in H.
  - apply nonempty_names. induction Hq as [|p ps [_ Hp] _ IH]; [constructor|]. by apply Forall_app.
Qed.

Lemma LogPath_contained_witness :
  LogPath "/var/lib/lmw/runs" "../../etc" "d1" 0 "stdout" = "" ∧
  (LogPath "/var/lib/lmw/runs" "r1" "d1" 0 "stdout" = "" ∨
   ∃ names, LogPath "/var/lib/lmw/runs" "r1" "d1" 0 "stdout" =
       render_path true (clean_of "/var/lib/lmw/runs" ++ names) ∧
     names ≠ [] ∧ Forall (λ e, name e = true) names).
Proof.
  split; [vm_compute; reflexivity|].
  apply (LogPath_contained "/var/lib/lmw/runs" "r1" "d1" 0 "stdout"). discriminate.
Defined.

(** ** Distinct streams have distinct files *)

Lemma LogPath_names root runID dep rank stream :
  root ≠ "" → name runID = true → name (log_deployment dep) = true →
  LogPath root runID dep rank stream =
    render_path (IsAbs root) (clean_of root ++
      [runID; "logs"; log_deployment dep;
       replace_byte space "_" (log_deployment dep) +:+ log_suffix rank (log_stream stream)]).
Proof.
  intros Hroot Hr Hd. apply name_spec in Hr as Hr', Hd as Hd'.
  destruct Hr' as (R1 & R2 & R3 & R4), Hd' as (D1 & D2 & D3 & D4). unfold LogPath.
  rewrite !(bool_decide_eq_false_2 (_ = _)) by done. rewrite !Base_no_slash by done.
  rewrite !bool_decide_eq_true_2 by done. cbn [negb orb]. unfold log_file.
  rewrite Base_no_slash; [|by apply replace_space_nonempty|by rewrite replace_space_slash].
  apply Join_names; [done|]. do 3 (constructor; [done|]). constructor; [|constructor].
  apply long_name. by rewrite replace_space_slash.
Qed.

Lemma log_suffix_inj r1 r2 s1 s2 :
  0 ≤ r1 ≤ max_int64 → 0 ≤ r2 ≤ max_int64 →
  log_suffix r1 (log_stream s1) = log_suffix r2 (log_stream s2) → r1 = r2 ∧ log_stream s1 = log_stream s2.
Proof.
  intros H1 H2 E. unfold log_suffix in E. simplify_eq/=.
  assert (C : ∀ r s, cut "_"%char (itoa r +:+ String "_" (s +:+ ".log")) = (itoa r, s +:+ ".log", true)).
  { intros r s. apply cut_app. by apply no_byte_digits. }
  pose proof (C r1 (log_stream s1)) as C1. rewrite E, C in C1. simplify_eq.
  split; [by apply itoa_inj|]. symmetry. by apply (sapp_inj_r _ _ ".log").
Qed.

(** No two streams share a file.  For ids that are plain names and ranks that are not negative,
    two requests name the same path only if they agree on the run, the deployment, the rank and the
    stream. *)
Theorem LogPath_injective root run1 run2 dep1 dep2 r1 r2 s1 s2 :
  root ≠ "" → name run1 = true → name run2 = true →
  name (log_deployment dep1) = true → name (log_deployment dep2) = true →
  0 ≤ r1 < 2 ^ 31 → 0 ≤ r2 < 2 ^ 31 →
  LogPath root run1 dep1 r1 s1 = LogPath root run2 dep2 r2 s2 →
  run1 = run2 ∧ log_deployment dep1 = log_deployment dep2 ∧ r1 = r2 ∧ log_stream s1 = log_stream s2.
Proof.
  intros Hroot Hr1 Hr2 Hd1 Hd2 B1 B2. rewrite !LogPath_names by done. intros E.
  assert (Hs : ∀ run dep r s, name run = true → name (log_deployment dep) = true →
    Forall (λ e, contains_byte slash e = false) (clean_of root ++ [run; "logs"; log_deployment dep;
       replace_byte space "_" (log_deployment dep) +:+ log_suffix r (log_stream s)])).
  { intros run dep r s (_ & _ & _ & ?)%name_spec (_ & _ & _ & ?)%name_spec. apply Forall_app.
    split; [apply clean_of_no_slash|]. do 3 (constructor; [done|]). constructor; [|constructor].
    rewrite contains_byte_app, replace_space_slash. apply orb_false_iff.
    split; [done|apply log_suffix_no_slash]. }
  apply render_path_inj in E; [|by destruct (clean_of root)|by destruct (clean_of root)|by apply Hs..].
  apply app_inv_head in E. injection E as -> Ed Ef. rewrite Ed in Ef. apply (inj (String.append _)) in Ef.
  apply log_suffix_inj in Ef as [-> ->]; [done|unfold max_int64; lia..].
Qed.

Lemma LogPath_injective_witness :
  "r1" = "r1" ∧ log_deployment "" = log_deployment "adhoc" ∧ 3 = 3 ∧ log_stream "bogus" = log_stream "stdout".
Proof.
  apply (LogPath_injective "/runs" "r1" "r1" "" "adhoc" 3 3 "bogus" "stdout");
    try (vm_compute; reflexivity); try lia. discriminate.
Defined.

(** ** Cursor streaming *)

(** A writer and a polling reader of one log file: appends, and reads that resume at the offset the
    last read returned. *)
Inductive log_op :=
| LAppend (data : bytes)
| LRead (maxBytes : Z).

Record reader := mkReader {
  rd_file : bytes;
  rd_cursor : Z;
  rd_got : bytes;
}.

Definition log_step (s : reader) (o : log_op) : reader :=
  match o with
  | LAppend data => mkReader (rd_file s ++ data) (rd_cursor s) (rd_got s)
  | LRead maxBytes =>
      let '(chunk, next, _) := read_chunk (rd_file s) (rd_cursor s) maxBytes in
      mkReader (rd_file s) next (rd_got s ++ chunk)
  end.

Definition log_run (s : reader) (os : list log_op) : reader := fold_left log_step os s.

(** The bytes read so far are exactly the file up to the cursor. *)
Definition reader_ok (s : reader) : Prop :=
  0 ≤ rd_cursor s ≤ Z.of_nat (length (rd_file s)) ∧ rd_got s = take (Z.to_nat (rd_cursor s)) (rd_file s).

Lemma chunk_limit_bounds maxBytes : 1 ≤ chunk_limit maxBytes ≤ MaxLogChunk.
Proof.
  unfold chunk_limit, MaxLogChunk. destruct (Z.leb_spec maxBytes 0); [by simpl|].
  destruct (Z.ltb_spec (2 ^ 20) maxBytes); lia.
Qed.

(** One read from a cursor inside the file. *)
Lemma read_chunk_spec file offset maxBytes :
  0 ≤ offset ≤ Z.of_nat (length file) →
  ∃ n, read_chunk file offset maxBytes =
         (take (Z.to_nat n) (drop (Z.to_nat offset) file), offset + n, Z.of_nat (length file)) ∧
       n = Z.min (chunk_limit maxBytes) (Z.of_nat (length file) - offset).
Proof.
  intros Ho. eexists. split; [|done]. unfold read_chunk. pose proof (chunk_limit_bounds maxBytes).
  destruct (Z.ltb_spec (Z.of_nat (length file)) offset); [lia|]. case_bool_decide as E.
  - rewrite Z.min_r by lia. rewrite <-E, Z.sub_diag, Z.add_0_r. done.
  - f_equal. f_equal. rewrite length_take, length_drop. lia.
Qed.

Lemma log_step_ok s o : reader_ok s →
  reader_ok (log_step s o) ∧
  match o with
  | LAppend _ => rd_cursor (log_step s o) = rd_cursor s
  | LRead m => rd_cursor (log_step s o) =
      rd_cursor s + Z.min (chunk_limit m) (Z.of_nat (length (rd_file s)) - rd_cursor s)
  end.
Proof.
  intros [Hc Hg]. destruct o as [data|m]; simpl.
  - split; [|done]. split; simpl; [rewrite length_app; lia|]. rewrite take_app_le by lia. done.
  - destruct (read_chunk_spec (rd_file s) (rd_cursor s) m Hc) as (n & -> & Hn).
    split; [|by rewrite <-Hn]. pose proof (chunk_limit_bounds m). split; simpl; [lia|].
    rewrite Hg, Z2Nat.inj_add by lia. by rewrite take_take_drop.
Qed.

Lemma log_run_ok s os : reader_ok s → reader_ok (log_run s os).
Proof.
  revert s. induction os as [|o os IH]; intros s Hs; simpl; [done|]. apply IH. by apply log_step_ok.
Qed.

(** [n] reads in a row advance the cursor by at least [n] bytes or to the end. *)
Lemma log_reads_progress s (ms : list Z) : reader_ok s →
  Z.min (Z.of_nat (length (rd_file s))) (rd_cursor s + Z.of_nat (length ms))
    ≤ rd_cursor (log_run s (LRead <$> ms)) ∧ rd_file (log_run s (LRead <$> ms)) = rd_file s.
Proof.
  revert s. induction ms as [|m ms IH]; intros s Hs.
  { simpl. split; [lia|done]. }
  rewrite fmap_cons. change (log_run s (LRead m :: (LRead <$> ms)))
    with (log_run (log_step s (LRead m)) (LRead <$> ms)). cbn [length].
  destruct (log_step_ok s (LRead m) Hs) as [Hs' Hc].
  assert (Hf : rd_file (log_step s (LRead m)) = rd_file s).
  { simpl. by destruct (read_chunk _ _ _) as [[??]?]. }
  destruct (IH _ Hs') as [H1 H2]. rewrite Hf in *. split; [|done].
  pose proof (chunk_limit_bounds m). destruct Hs as [? _]. lia.
Qed.

(** Cursor streaming loses and repeats nothing, and catches up.  However appends and reads of
    one log interleave, and whatever chunk sizes the reader asks for, the chunks read so far are
    exactly the file up to the cursor; and once the writer stops, as many reads as bytes are left
    give the reader the whole file. *)
Theorem log_streaming s os ms :
  rd_file s = [] → rd_cursor s = 0 → rd_got s = [] →
  let s1 := log_run s os in
  rd_got s1 = take (Z.to_nat (rd_cursor s1)) (rd_file s1) ∧
  (Z.of_nat (length (rd_file s1)) - rd_cursor s1 ≤ Z.of_nat (length ms) →
   rd_got (log_run s1 (LRead <$> ms)) = rd_file s1).
Proof.
  intros Hf Hc Hg. cbv zeta. assert (H0 : reader_ok s).
  { unfold reader_ok. rewrite Hf, Hc, Hg. split; [simpl; lia|done]. }
  pose proof (log_run_ok s os H0) as H1. split; [apply H1|]. intros Hms.
  destruct (log_reads_progress _ ms H1) as [Hp Hfile].
  destruct (log_run_ok _ (LRead <$> ms) H1) as [Hb ->]. rewrite Hfile in *.
  apply take_ge. destruct H1 as [? _]. lia.
Qed.

Lemma log_streaming_witness :
  let s1 := log_run (mkReader [] 0 []) [LAppend (to_bytes "hello "); LRead 4; LAppend (to_bytes "world")] in
  rd_got s1 = take (Z.to_nat (rd_cursor s1)) (rd_file s1) ∧
  (Z.of_nat (length (rd_file s1)) - rd_cursor s1 ≤ 7 →
   rd_got (log_run s1 (LRead <$> [3; 3; 3; 3; 3; 3; 3])) = rd_file s1).
Proof.
  apply (log_streaming (mkReader [] 0 []) [LAppend (to_bytes "hello "); LRead 4; LAppend (to_bytes "world")]
           [3; 3; 3; 3; 3; 3; 3]); reflexivity.
Defined.

(** ** End markers *)

Inductive end_op :=
| EMark (runID dep : string) (rank : Z) (stream : string) (offset : Z)
| EWait (runID dep : string) (rank : Z) (stream : string).

Definition end_step (s : ends) (o : end_op) : ends :=
  match o with
  | EMark r d k st off => MarkLogEnd r d k st off s
  | EWait r d k st => snd (WaitLogEnd r d k st s)
  end.

(** The largest offset marked for a key *)
Definition marked (key : logEndKey) (acc : option Z) (o : end_op) : option Z :=
  match o with
  | EMark r d k st off =>
      if bool_decide (end_key r d k st = key)
      then Some (match acc with Some v => Z.max v off | None => off end) else acc
  | EWait _ _ _ _ => acc
  end.

Lemma end_step_marked key s o : logEnds (end_step s o) !! key = marked key (logEnds s !! key) o.
Proof.
  destruct o as [r d k st off|r d k st]; simpl.
  - unfold MarkLogEnd. case_bool_decide as E.
    + rewrite <-E. destruct (logEnds s !! end_key r d k st) as [v|] eqn:Ev.
      * destruct (Z.leb_spec off v); simpl; [rewrite Ev; f_equal; lia|]. rewrite lookup_insert_eq. f_equal. lia.
      * simpl. by rewrite lookup_insert_eq.
    + case_match; [done|]. simpl. by rewrite lookup_insert_ne.
  - unfold WaitLogEnd. by case_match.
Qed.

Lemma end_step_waiters s o :
  (∀ key, key ∈ logEndCh s → logEnds s !! key = None) →
  ∀ key, key ∈ logEndCh (end_step s o) → logEnds (end_step s o) !! key = None.
Proof.
  intros H key. destruct o as [r d k st off|r d k st]; simpl.
  - unfold MarkLogEnd. case_match; [apply H|]. simpl. intros [Hin Hne]%elem_of_difference.
    rewrite lookup_insert_ne by set_solver. by apply H.
  - unfold WaitLogEnd. case_match; [apply H|]. simpl. set_solver.
Qed.

(** The end marker of a stream.  After any sequence of marks and waits the recorded offset of a
    stream is the largest one marked, and no caller is left waiting on a stream whose end is already
    recorded. *)
Theorem log_ends_spec os :
  let s := fold_left end_step os (mkEnds ∅ ∅) in
  ∀ r d k st,
    LogEnded r d k st s = fold_left (marked (end_key r d k st)) os None ∧
    (end_key r d k st ∈ logEndCh s → LogEnded r d k st s = None).
Proof.
  cbv zeta. intros r d k st. unfold LogEnded.
  assert (Hm : ∀ s key, logEnds (fold_left end_step os s) !! key = fold_left (marked key) os (logEnds s !! key)).
  { induction os as [|o os IH]; intros s key; simpl; [done|]. by rewrite IH, end_step_marked. }
  assert (Hw : ∀ s, (∀ key, key ∈ logEndCh s → logEnds s !! key = None) →
    ∀ key, key ∈ logEndCh (fold_left end_step os s) → logEnds (fold_left end_step os s) !! key = None).
  { clear Hm. induction os as [|o os IH]; intros s Hs; simpl; [done|]. apply IH. by apply end_step_waiters. }
  rewrite Hm. split; [done|]. intros H. rewrite <-Hm. by apply Hw; [set_solver|].
Qed.
