(* ===== verification/Jobs.v ===== *)
(** * One-shot jobs: [internal/jobs/jobs.go]

    A registry of job kinds over the run ledger.  [Submit] validates an input, creates the run, takes
    its leases and starts a goroutine; the goroutine drives the run through its states around the
    executor.  Goroutines, cancellations and submissions interleave at the granularity of one ledger
    call ([step]).  Inputs and outputs are JSON objects as [normalizeJSON] returns them.  Artifact
    publication, schedules and log lines are not part of this file. *)

From S2P Require Import Prelude GoStrings Utf8 CJson Events Leases Runs.

(** ** The schema compiler, a library the registry calls *)

Class SchemaCompiler := {
  schema : Type;
  compile : string → bytes → option schema;
  validate : schema → json → bool;
}.

(** The secret store: which scope names it can open *)
Class SecretStore := { open_secret : string → option string }.

Section jobs.
Context `{SC : SchemaCompiler, SS : SecretStore}.

Notation fields := (list (string * json)).

Record Spec := mkSpec {
  Kind : string;
  InputSchema : option bytes;
  OutputSchema : option bytes;
  SecretScopes : list string;
  LeaseResources : option (fields → list string);
  has_executor : bool;
}.

(** Where a job's goroutine stands *)
Inductive pc :=
| PSecrets                                              (* about to load its secrets *)
| PStart                                                (* about to record [running] *)
| PExecute                                              (* inside the executor *)
| PVerify (out : option fields)                         (* the executor returned no error *)
| PFinish (to : State) (code msg : string) (out : option fields)
| PComplete (to : State) (code msg : string).           (* leases released, about to [Complete] *)

Record Job := mkJob {
  j_spec : Spec;
  j_pc : pc;
  j_cancelled : bool;          (* its context was cancelled *)
}.

Record Registry := mkRegistry {
  specs : gmap string Spec;
  moduleOf : gmap string string;
  inSchemas : gmap string schema;
  outSchemas : gmap string schema;
  live : gmap string Job;
  lc_done : bool;              (* the lifecycle context is done: ledger calls made with it fail *)
  ledger : Ledger;
}.

Inductive job_error :=
| ErrSpec
| ErrRegisteredTwice
| ErrSchema
| ErrUnknownKind
| ErrInput
| ErrNoWorkspace
| ErrSecret
| ErrOutput
| ErrRun (e : run_error)
| ErrLease (e : lease_error).

Definition set_live (f : gmap string Job → gmap string Job) (r : Registry) : Registry :=
  mkRegistry (specs r) (moduleOf r) (inSchemas r) (outSchemas r) (f (live r)) (lc_done r) (ledger r).
Definition set_ledger (f : Ledger → Ledger) (r : Registry) : Registry :=
  mkRegistry (specs r) (moduleOf r) (inSchemas r) (outSchemas r) (live r) (lc_done r) (f (ledger r)).
Definition set_in (f : gmap string schema → gmap string schema) (r : Registry) : Registry :=
  mkRegistry (specs r) (moduleOf r) (f (inSchemas r)) (outSchemas r) (live r) (lc_done r) (ledger r).
Definition set_out (f : gmap string schema → gmap string schema) (r : Registry) : Registry :=
  mkRegistry (specs r) (moduleOf r) (inSchemas r) (f (outSchemas r)) (live r) (lc_done r) (ledger r).
Definition set_spec (kind : string) (spec : Spec) (module : string) (r : Registry) : Registry :=
  mkRegistry (<[kind := spec]> (specs r)) (<[kind := module]> (moduleOf r)) (inSchemas r) (outSchemas r)
    (live r) (lc_done r) (ledger r).

(** ** Registration *)

(** Compile an optional schema and store it *)
Definition add_schema (name : string) (raw : option bytes)
    (store : (gmap string schema → gmap string schema) → Registry → Registry) (kind : string)
    : ST Registry job_error unit :=
  match raw with
  | None => mret tt
  | Some raw =>
      match compile name raw with
      | None => throw ErrSchema
      | Some s => modify (store <[kind := s]>)
      end
  end.

Definition Register (moduleID : string) (spec : Spec) : ST Registry job_error unit :=
  if bool_decide (Kind spec = "") || negb (has_executor spec) then throw ErrSpec
  else
    r ← get;
    if bool_decide (is_Some (specs r !! Kind spec)) then throw ErrRegisteredTwice
    else
      _ ← add_schema ("job://" +:+ Kind spec +:+ "/input") (InputSchema spec) set_in (Kind spec);
      _ ← add_schema ("job://" +:+ Kind spec +:+ "/output") (OutputSchema spec) set_out (Kind spec);
      modify (set_spec (Kind spec) spec moduleID).

Definition Lookup (kind : string) (r : Registry) : option Spec := specs r !! kind.

Definition Kinds (r : Registry) : list string := sort_strings (map_to_list (specs r)).*1.

(** ** Submission *)

(** Put a goroutine on a run *)
Definition start (spec : Spec) (runID : string) : Registry → Registry :=
  set_live <[runID := mkJob spec PSecrets false]>.

Definition lift_run {A} (m : RunM A) : ST Registry job_error A := λ r,
  match m (ledger r) with
  | (Ok a, g) => (Ok a, set_ledger (λ _, g) r)
  | (Err e, g) => (Err (ErrRun e), set_ledger (λ _, g) r)
  end.

Definition lift_leases (kind owner : string) (rs : list string) : ST Registry job_error unit := λ r,
  match acquire_leases kind owner rs (ledger r) with
  | (Ok a, g) => (Ok a, set_ledger (λ _, g) r)
  | (Err e, g) => (Err (ErrLease e), set_ledger (λ _, g) r)
  end.

(** On an error of [m], run the cleanup (its own error ignored) and return the error *)
Definition on_error {S E A} (m : ST S E A) (cleanup : E → ST S E unit) : ST S E A := λ s,
  match m s with
  | (Ok a, s) => (Ok a, s)
  | (Err e, s) => (Err e, snd (cleanup e s))
  end.

(** [Submit]; [mkdir] is whether the workspace could be made, [describe] the text of an error *)
Definition Submit (describe : job_error → string) (rid now : string) (mkdir : bool)
    (kind : string) (input : fields) : ST Registry job_error string :=
  r ← get;
  match specs r !! kind with
  | None => throw ErrUnknownKind
  | Some spec =>
      let module := default "" (moduleOf r !! kind) in
      if match inSchemas r !! kind with
         | Some s => negb (validate s (JObject input))
         | None => false
         end
      then throw ErrInput
      else
        runID ← lift_run (Create rid now module kind input "");
        _ ← on_error (if mkdir then mret tt else throw ErrNoWorkspace)
              (λ e, ignore_err (lift_run (Complete runID now Failed "run.workspace_failed" (describe e))));
        _ ← match LeaseResources spec with
            | None => mret tt
            | Some f =>
                match f input with
                | [] => mret tt
                | rs => on_error (lift_leases "run" runID rs)
                    (λ e, ignore_err (lift_run (Complete runID now Failed "run.lease_conflict" (describe e))))
                end
            end;
        _ ← modify (start spec runID);
        mret runID
  end.

(** [Cancel] *)
Definition Cancel_job (now runID : string) : ST Registry job_error unit :=
  _ ← modify (set_live (alter (λ j, mkJob (j_spec j) (j_pc j) true) runID));
  lift_run (Cancel runID now).

(** ** The goroutine, one ledger call at a time *)

(** [loadSecrets]; a cancelled context fails the first lookup *)
Fixpoint loadSecrets (ctx_err : bool) (scopes : list string) : option (list (string * string)) :=
  match scopes with
  | [] => Some []
  | name :: scopes =>
      match (if ctx_err then None else open_secret name) with
      | None => None
      | Some v => match loadSecrets ctx_err scopes with
                  | None => None
                  | Some vs => Some ((name, v) :: vs)
                  end
      end
  end.

(** A ledger call made with the lifecycle context *)
Definition with_lc (m : RunM unit) (r : Registry) : Registry :=
  if lc_done r then r else set_ledger (λ g, snd (m g)) r.

Definition goto (runID : string) (p : pc) : Registry → Registry :=
  set_live (alter (λ j, mkJob (j_spec j) p (j_cancelled j)) runID).

(** What the output schema makes of a successful output *)
Definition check_output (describe : job_error → string) (r : Registry) (spec : Spec) (to : State)
    (code msg : string) (out : option fields) : State * string * string :=
  match to, out with
  | Succeeded, Some o =>
      match outSchemas r !! Kind spec with
      | Some s => if validate s (JObject o) then (to, code, msg)
                  else (Failed, "run.output_invalid", describe ErrOutput)
      | None => (to, code, msg)
      end
  | _, _ => (to, code, msg)
  end.

(** The switch to [cancelled]: the guard asks for a state that is not terminal *)
Definition land_cancelled (g : Ledger) (runID : string) (to : State) (code : string) : State * string :=
  match lg_runs g !! runID with
  | Some row => if bool_decide (r_state row = Cancelling) && negb (Terminal to)
                then (Cancelled, "run.cancelled") else (to, code)
  | None => (to, code)
  end.

(** [finish] up to the release of the leases *)
Definition finish (describe : job_error → string) (runID : string) (spec : Spec) (to : State)
    (code msg : string) (out : option fields) (r : Registry) : Registry :=
  let '(to, code, msg) := check_output describe r spec to code msg out in
  let r := match to, out with
           | Succeeded, Some o => with_lc (SetOutput runID o) r
           | _, _ => r
           end in
  let '(to, code) := if lc_done r then (to, code) else land_cancelled (ledger r) runID to code in
  goto runID (PComplete to code msg) (with_lc (ReleaseLeasesFor "run" runID) r).

(** What the executor returned *)
Inductive exec_result :=
| Returned (out : option fields)
| Errored (msg : string).

(** The branch on the executor's error *)
Definition after_exec (cancelled : bool) (res : exec_result) : pc :=
  match res with
  | Returned out => PVerify out
  | Errored msg =>
      if cancelled then PFinish Cancelled "run.cancelled" "job cancelled" None
      else PFinish Failed "run.failed" msg None
  end.

(** One step of a job's goroutine; [res] is what the executor returns if it is the executor's turn *)
Definition job_step (describe : job_error → string) (now runID : string) (res : exec_result) (r : Registry)
    : Registry :=
  match live r !! runID with
  | None => r
  | Some j =>
      match j_pc j with
      | PSecrets =>
          match loadSecrets (j_cancelled j || lc_done r) (SecretScopes (j_spec j)) with
          | None => goto runID (PComplete Failed "run.secret_scope" (describe ErrSecret))
                      (with_lc (ReleaseLeasesFor "run" runID) r)
          | Some _ => goto runID PStart r
          end
      | PStart => goto runID PExecute (with_lc (SetState runID now Running "" "") r)
      | PExecute => goto runID (after_exec (j_cancelled j || lc_done r) res) r
      | PVerify out =>
          goto runID (PFinish Succeeded "" "" out) (with_lc (SetState runID now Verifying "" "") r)
      | PFinish to code msg out => finish describe runID (j_spec j) to code msg out r
      | PComplete to code msg =>
          set_live (delete runID) (with_lc (Complete runID now to code msg) r)
      end
  end.

(** ** Interleaving *)

Inductive jstep (describe : job_error → string) : Registry → Registry → Prop :=
| js_register moduleID spec r : jstep describe r (snd (Register moduleID spec r))
| js_submit rid now mkdir kind input r :
    jstep describe r (snd (Submit describe rid now mkdir kind input r))
| js_cancel now rid r : jstep describe r (snd (Cancel_job now rid r))
| js_job now rid res r : jstep describe r (job_step describe now rid res r)
| js_progress rid p r : jstep describe r (set_ledger (λ g, snd (SetProgress rid p g)) r)
| js_shutdown r :
    jstep describe r (mkRegistry (specs r) (moduleOf r) (inSchemas r) (outSchemas r) (live r) true (ledger r)).

Definition new_registry (g : Ledger) : Registry := mkRegistry ∅ ∅ ∅ ∅ ∅ false g.

(** ** Ledger calls only add runs and only give up leases *)

Definition calms (m : Ledger → Ledger) : Prop :=
  ∀ g, runs_evolve g (m g) ∧
       ∀ l, l_active l = true → l ∈ lg_leases (m g) → l ∈ lg_leases g.

Lemma calms_SetState rid now to code msg : calms (λ g, snd (SetState rid now to code msg g)).
Proof. intros g. split; [apply SetState_evolves|]. intros l _. by rewrite SetState_leases. Qed.

Lemma calms_release kind owner : calms (λ g, snd (ReleaseLeasesFor kind owner g)).
Proof.
  intros g. split; [by apply runs_evolve_same|]. simpl. intros l Hl Hin.
  by apply ReleaseLeases_spec in Hin as [? _].
Qed.

Lemma calms_Complete rid now to code msg : calms (λ g, snd (Complete rid now to code msg g)).
Proof.
  intros g. split; [apply Complete_evolves|]. intros l Hl.
  pose proof (SetState_leases rid now to code msg g) as E.
  destruct (Complete_cases rid now to code msg g) as [(row & g' & Es & _ & _ & ->)|(e & _ & ->)]; [|done].
  rewrite Es in E. simpl in *. destruct (lease_owner rid row) as [kind owner]. simpl. rewrite E.
  intros Hin. by apply ReleaseLeases_spec in Hin as [? _].
Qed.

Lemma calms_SetOutput rid o : calms (λ g, snd (SetOutput rid o g)).
Proof. intros g. split; [apply (exec_evolves (OpOutput rid o))|done]. Qed.

Lemma calms_SetProgress rid p : calms (λ g, snd (SetProgress rid p g)).
Proof. intros g. split; [apply (exec_evolves (OpProgress rid p))|done]. Qed.

Lemma calms_Cancel rid now : calms (λ g, snd (Cancel rid now g)).
Proof.
  intros g. rewrite Cancel_SetState. apply calms_SetState.
Qed.

Lemma calms_Create rid now module kind input dep : calms (λ g, snd (Create rid now module kind input dep g)).
Proof.
  intros g. split; [apply Create_evolves|]. intros l _. unfold Create, CreateRun, publish. unfold_st.
  by destruct (_ || _).
Qed.

(** ** The invariant *)

Definition holds_leases (p : pc) : bool := match p with PComplete _ _ _ => false | _ => true end.

Record jobs_inv (r : Registry) : Prop := {
  ji_runs : ∀ rid, is_Some (live r !! rid) → is_Some (lg_runs (ledger r) !! rid);
  ji_leases : lc_done r = false → ∀ l, l ∈ lg_leases (ledger r) → l_active l = true → l_kind l = "run" →
    ∃ j, live r !! l_owner l = Some j ∧ holds_leases (j_pc j) = true;
}.

Lemma evolve_some g g' rid : runs_evolve g g' → is_Some (lg_runs g !! rid) → is_Some (lg_runs g' !! rid).
Proof.
  intros H [row E]. specialize (H rid). rewrite E in H. by destruct (lg_runs g' !! rid).
Qed.

Lemma jobs_inv_calms m r : calms m → jobs_inv r → jobs_inv (set_ledger m r).
Proof.
  intros Hm [H1 H2]. destruct (Hm (ledger r)) as [He Hl]. split; simpl.
  - intros rid Hr. eapply evolve_some; [done|by apply H1].
  - intros Hd l Hin Ha Hk. apply H2; auto.
Qed.

Lemma jobs_inv_with_lc (m : RunM unit) r : calms (λ g, snd (m g)) → jobs_inv r → jobs_inv (with_lc m r).
Proof. intros Hm H. unfold with_lc. destruct (lc_done r); [done|by apply (jobs_inv_calms _ _ Hm)]. Qed.

(** Moving a goroutine on while it may hold leases, or once its run holds none. *)
Lemma jobs_inv_goto rid p r :
  (holds_leases p = true ∨
   ∀ l, lc_done r = false → l ∈ lg_leases (ledger r) → l_active l = true → l_kind l = "run" → l_owner l ≠ rid) →
  jobs_inv r → jobs_inv (goto rid p r).
Proof.
  intros Hp [H1 H2]. split; simpl.
  - intros rid' Hr. apply H1. rewrite lookup_alter in Hr. case_decide; [subst|done].
    by destruct (live r !! rid').
  - intros Hd l Hin Ha Hk. destruct (H2 Hd l Hin Ha Hk) as (j & Hj & Hh). rewrite lookup_alter.
    case_decide as E; [|by eauto]. subst. rewrite Hj. eexists. split; [done|]. simpl.
    destruct Hp as [?|Hp]; [done|]. by destruct (Hp l Hd Hin Ha Hk).
Qed.

(** Releasing a run's leases leaves none of them active. *)
Lemma released_none rid (m : RunM unit) r l : m = ReleaseLeasesFor "run" rid →
  lc_done (with_lc m r) = false → l ∈ lg_leases (ledger (with_lc m r)) → l_active l = true →
  l_kind l = "run" → l_owner l ≠ rid.
Proof.
  intros -> . unfold with_lc. destruct (lc_done r) eqn:Ed; [congruence|]. simpl. intros _ Hin Ha Hk Eo.
  apply ReleaseLeases_spec in Hin as [_ Ho]; [|done]. unfold owned_by in Ho.
  by rewrite !bool_decide_eq_true_2 in Ho.
Qed.

Lemma jobs_inv_release_goto rid to code msg r :
  jobs_inv r → jobs_inv (goto rid (PComplete to code msg) (with_lc (ReleaseLeasesFor "run" rid) r)).
Proof.
  intros H. apply jobs_inv_goto; [right|by apply jobs_inv_with_lc; [apply calms_release|]].
  intros l. by eapply released_none.
Qed.

Lemma jobs_inv_job_step describe now rid res r : jobs_inv r → jobs_inv (job_step describe now rid res r).
Proof.
  intros H. unfold job_step. destruct (live r !! rid) as [j|] eqn:Ej; [|done].
  destruct (j_pc j) as [| | |out|to code msg out|to code msg] eqn:Ep.
  - case_match; [by apply jobs_inv_goto; [left|]|by apply jobs_inv_release_goto].
  - apply jobs_inv_goto; [by left|]. apply jobs_inv_with_lc; [apply calms_SetState|done].
  - apply jobs_inv_goto; [left; destruct res; simpl; [done|by case_match]|done].
  - apply jobs_inv_goto; [by left|]. apply jobs_inv_with_lc; [apply calms_SetState|done].
  - unfold finish. destruct (check_output _ _ _ _ _ _ _) as [[to' code'] msg'].
    match goal with |- context [with_lc (ReleaseLeasesFor _ _) ?r'] => set (r1 := r') end.
    assert (H1 : jobs_inv r1).
    { unfold r1. repeat case_match; try done. by apply jobs_inv_with_lc; [apply calms_SetOutput|]. }
    destruct (if lc_done r1 then _ else _) as [to'' code'']. by apply jobs_inv_release_goto.
  - pose proof (jobs_inv_with_lc _ _ (calms_Complete rid now to code msg) H) as [H1 H2].
    assert (El : live (with_lc (Complete rid now to code msg) r) = live r) by (unfold with_lc; by case_match).
    split; simpl.
    + intros rid' [j' [_ Hr]%lookup_delete_Some]. apply H1. by exists j'.
    + intros Hd l Hin Ha Hk. destruct (H2 Hd l Hin Ha Hk) as (j' & Hj' & Hh). exists j'. split; [|done].
      rewrite lookup_delete_ne; [done|]. intros E. rewrite El, <-E, Ej in Hj'. simplify_eq. by rewrite Ep in Hh.
Qed.

Lemma jobs_inv_register describe_mod spec r : jobs_inv r → jobs_inv (snd (Register describe_mod spec r)).
Proof.
  intros [H1 H2]. unfold Register, add_schema. unfold_st.
  repeat case_match; simplify_eq; simpl; by split.
Qed.

Lemma jobs_inv_cancel now rid r : jobs_inv r → jobs_inv (snd (Cancel_job now rid r)).
Proof.
  intros [H1 H2]. unfold Cancel_job, lift_run. unfold_st. simpl.
  pose proof (calms_Cancel rid now (ledger r)) as Hc.
  assert (H : jobs_inv (set_ledger (λ g, snd (Cancel rid now g))
            (set_live (alter (λ j, mkJob (j_spec j) (j_pc j) true) rid) r))).
  { apply jobs_inv_calms; [apply calms_Cancel|]. split; simpl.
    - intros rid' Hr. apply H1. rewrite lookup_alter in Hr. case_decide; [subst|done]. by destruct (live r !! rid').
    - intros Hd l Hin Ha Hk. destruct (H2 Hd l Hin Ha Hk) as (j & Hj & Hh). rewrite lookup_alter.
      case_decide; [|by eauto]. subst. rewrite Hj. by eexists. }
  unfold set_ledger in *. simpl in *. by destruct (Cancel rid now (ledger r)) as [[] g].
Qed.

(** A successful [Create] puts the row in, and a failing one changes nothing. *)
Lemma Create_cases rid now module kind input dep g :
  (∃ g', Create rid now module kind input dep g = (Ok rid, g') ∧ is_Some (lg_runs g' !! rid) ∧
     lg_runs g !! rid = None ∧ lg_leases g' = lg_leases g) ∨
  (∃ e, Create rid now module kind input dep g = (Err e, g)).
Proof.
  unfold Create, CreateRun, publish. unfold_st. destruct (bool_decide (is_Some _)) eqn:E; simpl; [by eauto|].
  destruct (match opt_string dep with Some _ => _ | None => _ end); simpl; [by eauto|].
  left. eexists. split; [done|]. simpl. rewrite lookup_insert_eq.
  apply bool_decide_eq_false, eq_None_not_Some in E. split_and!; [by eexists|done..].
Qed.

Lemma jobs_inv_lift_ignore (m : RunM unit) r :
  calms (λ g, snd (m g)) → jobs_inv r → jobs_inv (snd (ignore_err (lift_run m) r)).
Proof.
  intros Hm H. pose proof (jobs_inv_calms _ _ Hm H) as H'. unfold ignore_err, lift_run, set_ledger in *. simpl.
  by destruct (m (ledger r)) as [[] g].
Qed.

(** Starting the goroutine of a run that has just taken its leases. *)
Lemma jobs_inv_start spec rid r ls :
  is_Some (lg_runs (ledger r) !! rid) →
  (∀ l, l ∈ ls → l ∈ lg_leases (ledger r) ∨ l_owner l = rid) →
  jobs_inv r → jobs_inv (start spec rid (set_ledger (set_leases (λ _, ls)) r)).
Proof.
  intros Hr Hls [H1 H2]. split; simpl.
  - intros rid' Hl. rewrite lookup_insert in Hl. case_decide; [by subst|by apply H1].
  - intros Hd l Hin Ha Hk. rewrite lookup_insert. case_decide as E; [by eexists|].
    destruct (Hls l Hin) as [Hold|]; [by apply H2|congruence].
Qed.

Lemma jobs_inv_start_bare spec rid r :
  is_Some (lg_runs (ledger r) !! rid) → jobs_inv r → jobs_inv (start spec rid r).
Proof.
  intros Hr H. pose proof (jobs_inv_start spec rid r (lg_leases (ledger r)) Hr ltac:(auto) H) as H'.
  destruct r as [? ? ? ? ? ? [? ? ? ?]]. exact H'.
Qed.

Lemma jobs_inv_submit describe rid now mkdir kind input r :
  jobs_inv r → jobs_inv (snd (Submit describe rid now mkdir kind input r)).
Proof.
  intros H. unfold Submit. unfold_st. destruct (specs r !! kind) as [spec|]; [|done].
  destruct (match inSchemas r !! kind with Some _ => _ | None => _ end); [done|].
  unfold lift_run at 1.
  destruct (Create_cases rid now (default "" (moduleOf r !! kind)) kind input "" (ledger r))
    as [(g' & Ec & Hrow & Hnew & Hl)|(e & Ec)]; rewrite Ec; simpl; [|by destruct r].
  assert (H1 : jobs_inv (set_ledger (λ _, g') r)).
  { pose proof (jobs_inv_calms _ _ (calms_Create rid now (default "" (moduleOf r !! kind)) kind input "") H) as H'.
    unfold set_ledger in *. by rewrite Ec in H'. }
  unfold on_error. destruct mkdir; simpl; cycle 1.
  { by apply (jobs_inv_lift_ignore (Complete rid now Failed _ _) _ (calms_Complete _ _ _ _ _)). }
  destruct (LeaseResources spec) as [f|]; simpl; cycle 1.
  { by apply jobs_inv_start_bare. }
  destruct (f input) as [|res rs]; simpl.
  { by apply jobs_inv_start_bare. }
  unfold lift_leases, acquire_leases. simpl.
  destruct (AcquireLeases_cases "run" rid (res :: rs) (lg_leases g')) as [[-> _]|(e & -> & _)]; simpl.
  - apply (jobs_inv_start spec rid (set_ledger (λ _, g') r)); [done| |done].
    intros l [?|Hl']%elem_of_app; [by left|right].
    apply list_elem_of_lookup in Hl' as [i Hi]. by apply (granted_lookup "run" rid (res :: rs)) in Hi as (_ & _ & ? & _).
  - apply (jobs_inv_lift_ignore (Complete rid now Failed _ _) _ (calms_Complete _ _ _ _ _)).
    by destruct g'.
Qed.

Lemma jobs_inv_step describe r r' : jstep describe r r' → jobs_inv r → jobs_inv r'.
Proof.
  destruct 1; eauto using jobs_inv_register, jobs_inv_submit, jobs_inv_cancel, jobs_inv_job_step,
    jobs_inv_calms, calms_SetProgress.
  intros [H1 H2]. by split.
Qed.

(** ** The properties *)


(** A goroutine run to its end without interference, from [n] steps on *)
Fixpoint run_job (describe : job_error → string) (n : nat) (now rid : string) (res : exec_result) (r : Registry)
    : Registry :=
  match n with
  | O => r
  | S n => run_job describe n now rid res (job_step describe now rid res r)
  end.

Lemma live_with_lc m r : live (with_lc m r) = live r.
Proof. unfold with_lc. by case_match. Qed.

Lemma lookup_goto rid p r j : live r !! rid = Some j →
  live (goto rid p r) !! rid = Some (mkJob (j_spec j) p (j_cancelled j)).
Proof. intros E. simpl. by rewrite lookup_alter_eq, E. Qed.

Lemma set_ledger_id r g : g = ledger r → set_ledger (λ _, g) r = r.
Proof. intros ->. by destruct r. Qed.

Lemma with_lc_rejected rid now to code msg r row :
  lg_runs (ledger r) !! rid = Some row → canTransition (r_state row) to = false →
  with_lc (SetState rid now to code msg) r = r ∧ with_lc (Complete rid now to code msg) r = r.
Proof.
  intros E Hc. pose proof (SetState_rejected rid now to code msg _ _ E Hc) as Es.
  unfold with_lc, Complete. unfold_st. destruct (lc_done r); [done|].
  unfold set_ledger. rewrite Es. by destruct r.
Qed.

(** The ledger [finish] leaves, for a state the schema check keeps. *)
Lemma finish_keeps describe rid j to code msg out r row :
  live r !! rid = Some j → lc_done r = false → Terminal to = true →
  check_output describe r (j_spec j) to code msg out = (to, code, msg) →
  lg_runs (ledger r) !! rid = Some row →
  let r' := finish describe rid (j_spec j) to code msg out r in
  live r' !! rid = Some (mkJob (j_spec j) (PComplete to code msg) (j_cancelled j)) ∧
  lc_done r' = false ∧
  ∃ row', lg_runs (ledger r') !! rid = Some row' ∧ r_state row' = r_state row.
Proof.
  intros Hj Hd Ht Hco Hrow. unfold finish. rewrite Hco.
  match goal with |- context [with_lc (ReleaseLeasesFor _ _) ?x] => set (r1 := x) end.
  assert (H1 : lc_done r1 = false ∧ live r1 = live r ∧
               ∃ row1, lg_runs (ledger r1) !! rid = Some row1 ∧ r_state row1 = r_state row).
  { unfold r1, with_lc. rewrite Hd. split_and!; [by repeat case_match..|].
    destruct to, out; simpl; eauto; rewrite lookup_alter_eq, Hrow; by eexists. }
  destruct H1 as (Hd1 & Hl1 & row1 & Hrow1 & Hs1). rewrite Hd1.
  assert (E : land_cancelled (ledger r1) rid to code = (to, code)).
  { unfold land_cancelled. by rewrite Hrow1, Ht, andb_false_r. }
  rewrite E. cbv zeta. unfold with_lc. rewrite Hd1. split_and!.
  - apply lookup_goto. simpl. by rewrite Hl1.
  - done.
  - by exists row1.
Qed.

(** A job that succeeds after its cancellation was recorded never finishes.  If the run is
    [cancelling] when the executor returns without an error, and its output is acceptable, the
    goroutine's remaining steps leave it [cancelling] and end the goroutine: the run is stuck in a
    state that is not terminal with nobody left to finish it. *)
Theorem success_after_cancel_sticks describe now rid out r j row :
  live r !! rid = Some j → j_pc j = PVerify out → lc_done r = false →
  check_output describe r (j_spec j) Succeeded "" "" out = (Succeeded, "", "") →
  lg_runs (ledger r) !! rid = Some row → r_state row = Cancelling →
  let r' := run_job describe 3 now rid (Returned out) r in
  live r' !! rid = None ∧
  ∃ row', lg_runs (ledger r') !! rid = Some row' ∧ r_state row' = Cancelling.
Proof.
  intros Hj Hp Hd Hco Hrow Hs. cbn [run_job].
  assert (E1 : job_step describe now rid (Returned out) r = goto rid (PFinish Succeeded "" "" out) r).
  { unfold job_step. rewrite Hj, Hp. f_equal.
    apply (with_lc_rejected rid now Verifying "" "" r row Hrow). by rewrite Hs. }
  rewrite E1. set (r1 := goto rid (PFinish Succeeded "" "" out) r).
  pose proof (lookup_goto rid (PFinish Succeeded "" "" out) r j Hj) as Hj1.
  assert (E2 : job_step describe now rid (Returned out) r1 = finish describe rid (j_spec j) Succeeded "" "" out r1).
  { unfold job_step, r1. by rewrite Hj1. }
  rewrite E2.
  destruct (finish_keeps describe rid _ Succeeded "" "" out r1 row Hj1 Hd eq_refl Hco Hrow)
    as (Hj2 & Hd2 & row2 & Hrow2 & Hs2).
  cbn [j_spec j_cancelled] in *. set (r2 := finish describe rid (j_spec j) Succeeded "" "" out r1) in *.
  assert (E3 : job_step describe now rid (Returned out) r2 = set_live (delete rid) r2).
  { unfold job_step. rewrite Hj2. cbn [j_pc]. f_equal.
    apply (with_lc_rejected rid now Succeeded "" "" r2 row2 Hrow2). by rewrite Hs2, Hs. }
  rewrite E3. split; [simpl; apply lookup_delete_eq|]. exists row2. split; [done|congruence].
Qed.

(** ** A job that nobody cancels *)

(** A goroutine at [p] on a run in state [s]. *)
Record at_pc (r : Registry) (rid : string) (spec : Spec) (p : pc) (s : State) : Prop := {
  ap_live : live r !! rid = Some (mkJob spec p false);
  ap_lc : lc_done r = false;
  ap_row : ∃ row, lg_runs (ledger r) !! rid = Some row ∧ r_state row = s ∧ r_deployment row = None;
}.

Lemma at_pc_set_state r rid spec p s now to q :
  at_pc r rid spec p s → canTransition s to = true →
  at_pc (goto rid q (with_lc (SetState rid now to "" "") r)) rid spec q to.
Proof.
  intros [Hl Hd (row & Hrow & Hs & Hdep)] Hc. rewrite <-Hs in Hc.
  destruct (SetState_accepted rid now to "" "" _ _ Hrow Hc) as (g' & Es & Hg & _).
  unfold with_lc. rewrite Hd. split.
  - by apply (lookup_goto rid q _ (mkJob spec p false)).
  - done.
  - simpl. rewrite Es. simpl. rewrite Hg, lookup_insert_eq. by eexists.
Qed.

Lemma at_pc_goto r rid spec p s q : at_pc r rid spec p s → at_pc (goto rid q r) rid spec q s.
Proof. intros [Hl Hd Hrow]. split; [by apply (lookup_goto rid q _ (mkJob spec p false))|done..]. Qed.

(** The row a release leaves is the row it found. *)
Lemma at_pc_release r rid spec p s q :
  at_pc r rid spec p s → at_pc (goto rid q (with_lc (ReleaseLeasesFor "run" rid) r)) rid spec q s.
Proof.
  intros [Hl Hd Hrow]. apply (at_pc_goto _ _ _ p). unfold with_lc. rewrite Hd. by split.
Qed.

Lemma at_pc_finish describe r rid spec p s to code msg out :
  at_pc r rid spec p s → Terminal to = true →
  let '(to', code', msg') := check_output describe r spec to code msg out in
  at_pc (finish describe rid spec to code msg out r) rid spec (PComplete to' code' msg') s ∧
  Terminal to' = true.
Proof.
  intros H Ht. unfold finish.
  assert (Ht' : Terminal (check_output describe r spec to code msg out).1.1 = true).
  { unfold check_output. by repeat case_match. }
  destruct (check_output _ _ _ _ _ _ _) as [[to' code'] msg']. simpl in Ht'. split; [|done].
  match goal with |- context [with_lc (ReleaseLeasesFor _ _) ?x] => set (r1 := x) end.
  assert (H1 : at_pc r1 rid spec p s).
  { destruct H as [Hl Hd (row & Hrow & Hs & Hdep)]. unfold r1, with_lc. rewrite Hd.
    split; [by repeat case_match..|].
    destruct to', out; simpl; eauto 10; rewrite lookup_alter_eq, Hrow; by eexists. }
  pose proof H1 as [Hl1 Hd1 (row1 & Hrow1 & Hs1 & Hdep1)]. rewrite Hd1.
  assert (E : land_cancelled (ledger r1) rid to' code' = (to', code')).
  { unfold land_cancelled. by rewrite Hrow1, Ht', andb_false_r. }
  rewrite E. by apply (at_pc_release _ _ _ p).
Qed.

(** The last step ends the goroutine and leaves no lease behind. *)
Lemma at_pc_complete describe r rid spec s to code msg now res :
  at_pc r rid spec (PComplete to code msg) s → canTransition s to = true →
  let r' := job_step describe now rid res r in
  live r' !! rid = None ∧
  (∃ row, lg_runs (ledger r') !! rid = Some row ∧ r_state row = to) ∧
  ∀ l, l ∈ lg_leases (ledger r') → l_active l = true → l_kind l = "run" → l_owner l ≠ rid.
Proof.
  intros [Hl Hd (row & Hrow & Hs & Hdep)] Hc. unfold job_step. rewrite Hl. cbn [j_pc]. cbv zeta.
  destruct (Complete_cases rid now to code msg (ledger r)) as [(row' & g' & Es & Hrow' & _ & Ec)|(e & Es & _)].
  - simplify_eq. unfold with_lc. rewrite Hd. simpl. rewrite Ec. unfold lease_owner. rewrite Hdep. simpl.
    destruct (SetState_accepted rid now to code msg _ _ Hrow Hc) as (g2 & Es2 & Hg & Hlg).
    rewrite Es in Es2. simplify_eq. rewrite Hg. split_and!.
    + apply lookup_delete_eq.
    + rewrite lookup_insert_eq. by eexists.
    + intros l Hin Ha Hk Eo. apply ReleaseLeases_spec in Hin as [_ Ho]; [|done].
      unfold owned_by in Ho. by rewrite !bool_decide_eq_true_2 in Ho.
  - exfalso. rewrite <-Hs in Hc. destruct (SetState_accepted rid now to code msg _ _ Hrow Hc) as (? & ? & _). congruence.
Qed.

(** The state an undisturbed job ends in *)
Definition expected (describe : job_error → string) (r : Registry) (spec : Spec) (res : exec_result) : State :=
  match loadSecrets false (SecretScopes spec), res with
  | None, _ => Failed
  | Some _, Errored _ => Failed
  | Some _, Returned out => (check_output describe r spec Succeeded "" "" out).1.1
  end.

Lemma outSchemas_with_lc m r : outSchemas (with_lc m r) = outSchemas r.
Proof. unfold with_lc. by case_match. Qed.

Lemma check_output_ext describe r r' spec to code msg out :
  outSchemas r' = outSchemas r → check_output describe r' spec to code msg out = check_output describe r spec to code msg out.
Proof. intros E. unfold check_output. by rewrite E. Qed.

Lemma job_step_idle describe now rid res r : live r !! rid = None → job_step describe now rid res r = r.
Proof. intros E. unfold job_step. by rewrite E. Qed.

Lemma run_job_S describe n now rid res r :
  run_job describe (S n) now rid res r = run_job describe n now rid res (job_step describe now rid res r).
Proof. done. Qed.

Lemma run_job_idle describe n now rid res r : live r !! rid = None → run_job describe n now rid res r = r.
Proof. intros E. induction n as [|n IH]; simpl; [done|]. by rewrite job_step_idle. Qed.

Lemma job_step_at describe now rid res r spec p s : at_pc r rid spec p s →
  job_step describe now rid res r =
    match p with
    | PSecrets =>
        match loadSecrets false (SecretScopes spec) with
        | None => goto rid (PComplete Failed "run.secret_scope" (describe ErrSecret))
                    (with_lc (ReleaseLeasesFor "run" rid) r)
        | Some _ => goto rid PStart r
        end
    | PStart => goto rid PExecute (with_lc (SetState rid now Running "" "") r)
    | PExecute => goto rid (after_exec false res) r
    | PVerify out => goto rid (PFinish Succeeded "" "" out) (with_lc (SetState rid now Verifying "" "") r)
    | PFinish to code msg out => finish describe rid spec to code msg out r
    | PComplete to code msg => set_live (delete rid) (with_lc (Complete rid now to code msg) r)
    end.
Proof. intros [Hl Hd _]. unfold job_step. rewrite Hl, Hd. by destruct p. Qed.

(** From [finish] on. *)
Lemma run_job_finish describe n now rid res r spec s to code msg out :
  at_pc r rid spec (PFinish to code msg out) s → Terminal to = true →
  (∀ to', Terminal to' = true → (to' = to ∨ to' = Failed) → canTransition s to' = true) →
  let r' := run_job describe (2 + n) now rid res r in
  live r' !! rid = None ∧
  (∃ row, lg_runs (ledger r') !! rid = Some row ∧
          r_state row = (check_output describe r spec to code msg out).1.1) ∧
  ∀ l, l ∈ lg_leases (ledger r') → l_active l = true → l_kind l = "run" → l_owner l ≠ rid.
Proof.
  intros H Ht Hc. pose proof (at_pc_finish describe r rid spec _ s to code msg out H Ht) as Hf.
  assert (Hto : (check_output describe r spec to code msg out).1.1 = to ∨
                (check_output describe r spec to code msg out).1.1 = Failed).
  { unfold check_output. repeat case_match; simpl; auto. }
  cbn [run_job Nat.add]. rewrite (job_step_at _ _ _ _ _ _ _ _ H).
  destruct (check_output _ _ _ _ _ _ _) as [[to' code'] msg']. simpl in Hto. destruct Hf as [Hf Ht'].
  destruct (at_pc_complete describe _ rid spec s to' code' msg' now res Hf (Hc _ Ht' Hto)) as (Hl & Hrow & Hls).
  rewrite run_job_idle by done. by split_and!.
Qed.

(** C4: a job that nobody cancels reaches the state its executor earned.  Six steps of its
    goroutine end it; the run is [succeeded] when the secrets load, the executor returns and the
    output passes its schema, and [failed] otherwise; and no active lease of the run is left. *)
Theorem job_completes describe now rid spec res r :
  at_pc r rid spec PSecrets Queued →
  let r' := run_job describe 6 now rid res r in
  live r' !! rid = None ∧
  (∃ row, lg_runs (ledger r') !! rid = Some row ∧ r_state row = expected describe r spec res) ∧
  ∀ l, l ∈ lg_leases (ledger r') → l_active l = true → l_kind l = "run" → l_owner l ≠ rid.
Proof.
  intros H0. unfold expected. cbv zeta. rewrite run_job_S.
  assert (E0 := job_step_at describe now rid res _ _ _ _ H0). cbn beta iota in E0.
  destruct (loadSecrets false (SecretScopes spec)) as [vs|]; cycle 1.
  { apply (at_pc_release r rid spec _ _ (PComplete Failed "run.secret_scope" (describe ErrSecret))) in H0.
    destruct (at_pc_complete describe _ _ _ _ _ _ _ now res H0 eq_refl) as (Hl & Hrow & Hls).
    rewrite E0, run_job_S, run_job_idle by done. by split_and!. }
  rewrite run_job_S, run_job_S.
  assert (Ho : ∀ p r0, outSchemas (goto rid p r0) = outSchemas r0) by done.
  pose proof (at_pc_goto _ _ _ _ _ PStart H0) as H1. rewrite <-E0 in H1.
  apply (f_equal outSchemas) in E0. rewrite Ho in E0.
  generalize dependent (job_step describe now rid res r). intros r1 E0 H1.
  assert (E1 := job_step_at describe now rid res _ _ _ _ H1). cbn beta iota in E1.
  pose proof (at_pc_set_state _ _ _ _ _ now Running PExecute H1 eq_refl) as H2. rewrite <-E1 in H2.
  apply (f_equal outSchemas) in E1. rewrite Ho, outSchemas_with_lc, E0 in E1.
  generalize dependent (job_step describe now rid res r1). intros r2 E1 H2.
  assert (E2 := job_step_at describe now rid res _ _ _ _ H2). cbn beta iota in E2.
  pose proof (at_pc_goto _ _ _ _ _ (after_exec false res) H2) as H3. rewrite <-E2 in H3.
  apply (f_equal outSchemas) in E2. rewrite Ho, E1 in E2.
  generalize dependent (job_step describe now rid res r2). intros r3 E2 H3.
  destruct res as [out|msg]; cbn [after_exec] in H3.
  - rewrite run_job_S. assert (E3 := job_step_at describe now rid (Returned out) _ _ _ _ H3). cbn beta iota in E3.
    pose proof (at_pc_set_state _ _ _ _ _ now Verifying (PFinish Succeeded "" "" out) H3 eq_refl) as H4.
    rewrite <-E3 in H4. apply (f_equal outSchemas) in E3. rewrite Ho, outSchemas_with_lc, E2 in E3.
    generalize dependent (job_step describe now rid (Returned out) r3). intros r4 E3 H4.
    rewrite <-(check_output_ext describe r r4) by done.
    apply (run_job_finish describe 0 now rid (Returned out) _ _ _ _ _ _ _ H4 eq_refl).
    intros to' _ [-> | ->]; done.
  - apply (run_job_finish describe 1 now rid (Errored msg) _ _ _ _ _ _ _ H3 eq_refl).
    intros to' _ [-> | ->]; done.
Qed.
End jobs.

(** ** Concrete runs *)

(** A compiler whose schemas accept every object with a field of the schema's name, and a store with
    one secret. *)
#[export] Instance sample_compiler : SchemaCompiler := {|
  schema := string;
  compile := λ _ raw, match raw with [] => None | _ => Some (of_bytes raw) end;
  validate := λ s v, match v with JObject m => bool_decide (is_Some (assoc s m)) | _ => false end;
|}.

#[export] Instance sample_store : SecretStore := {|
  open_secret := λ n, if bool_decide (n = "hf-token") then Some "s3cret" else None;
|}.

Definition sample_spec : Spec :=
  mkSpec "migration:scan" None (Some (to_bytes "version")) ["hf-token"]
    (Some (λ _, ["gpu:n1:GPU-0"])) true.

Definition no_text (e : job_error) : string := "".

Definition submitted : Registry :=
  snd (Submit no_text "r1" "t0" true "migration:scan" []
    (snd (Register "migration" sample_spec (new_registry (empty_ledger ∅))))).

Lemma reach_submitted : rtc (jstep no_text) (new_registry (empty_ledger ∅)) submitted.
Proof. eapply rtc_l; [apply js_register|]. eapply rtc_l; [apply js_submit|]. apply rtc_refl. Qed.


Definition sample_out : list (string * json) := [("version", JNumber "1")].

(** The same job, cancelled while its executor runs, whose executor returns nevertheless. *)
Definition cancelled_job : Registry :=
  snd (Cancel_job "t2" "r1" (run_job no_text 2 "t1" "r1" (Returned (Some sample_out)) submitted)).
Definition returned_job : Registry := job_step no_text "t3" "r1" (Returned (Some sample_out)) cancelled_job.

Lemma success_after_cancel_sticks_witness :
  live (run_job no_text 3 "t4" "r1" (Returned (Some sample_out)) returned_job) !! "r1" = None ∧
  ∃ row', lg_runs (ledger (run_job no_text 3 "t4" "r1" (Returned (Some sample_out)) returned_job)) !! "r1"
            = Some row' ∧ r_state row' = Cancelling.
Proof.
  eapply (success_after_cancel_sticks no_text "t4" "r1" (Some sample_out) returned_job
           (mkJob sample_spec (PVerify (Some sample_out)) true));
    vm_compute; reflexivity.
Defined.

Lemma job_completes_witness :
  live (run_job no_text 6 "t1" "r1" (Returned (Some sample_out)) submitted) !! "r1" = None ∧
  (∃ row, lg_runs (ledger (run_job no_text 6 "t1" "r1" (Returned (Some sample_out)) submitted)) !! "r1"
            = Some row ∧ r_state row = Succeeded) ∧
  ∀ l, l ∈ lg_leases (ledger (run_job no_text 6 "t1" "r1" (Returned (Some sample_out)) submitted)) →
    l_active l = true → l_kind l = "run" → l_owner l ≠ "r1".
Proof.
  assert (E : expected no_text submitted sample_spec (Returned (Some sample_out)) = Succeeded)
    by (vm_compute; reflexivity). rewrite <-E.
  apply (job_completes no_text "t1" "r1" sample_spec (Returned (Some sample_out)) submitted).
  split; [vm_compute; reflexivity|vm_compute; reflexivity|].
  eexists. split; [vm_compute; reflexivity|]. split; vm_compute; reflexivity.
Defined.
