(* ===== verification/JobArtifacts.v ===== *)
(** * Artifact publication: [publishArtifact] of [internal/jobs/jobs.go]

    An executor publishes a regular file of its workspace; the artifact is named after the file's
    content.  [fs] holds the regular files; a symbolic link in the middle of a path is not modelled. *)

From S2P Require Import Prelude GoStrings Utf8 CJson Paths.

Record PublishedArtifact := mkPublished {
  pa_id : string;
  pa_kind : string;
  pa_identity : string;
  pa_path : string;
  pa_size : Z;
}.

(** A row of [artifacts] *)
Record ArtifactRow := mkArtifact {
  a_kind : string;
  a_identity : string;
  a_digest : string;
  a_metadata : bytes;
}.

Inductive publish_error := ErrKind | ErrEscapes | ErrNotRegular.

Section publish.
(** [hex.EncodeToString(sha256.Sum256(...))] *)
Variable sha256_hex : bytes → string.

(** [INSERT OR IGNORE]: a row with the same id or the same identity wins *)
Definition CreateArtifact (aid : string) (row : ArtifactRow) (t : gmap string ArtifactRow)
    : gmap string ArtifactRow :=
  if bool_decide (is_Some (t !! aid)) || existsb (λ e, bool_decide (a_identity (snd e) = a_identity row)) (map_to_list t)
  then t else <[aid := row]> t.

(** The path a request names, if it stays in the workspace *)
Definition publish_path (workspace requestedPath : string) : option string :=
  let path := if IsAbs requestedPath then requestedPath else Join [workspace; requestedPath] in
  let path := Clean path in
  match Rel workspace path with
  | None => None
  | Some relative =>
      if bool_decide (relative = "..") || has_prefix "../" relative then None else Some path
  end.

Definition identity_of (content : bytes) : string := "file://" +:+ "sha256:" +:+ sha256_hex content.

(** The first 8 of the 32 hash bytes, as 16 hex digits *)
Definition artifact_id (identity : string) : string := "artifact-" +:+ stake 16 (sha256_hex (to_bytes identity)).

Definition publishArtifact (runID workspace kind requestedPath : string) (fs : gmap string bytes)
    : ST (gmap string ArtifactRow) publish_error PublishedArtifact :=
  match publish_path workspace requestedPath with
  | None => throw ErrEscapes
  | Some path =>
      match fs !! path with
      | None => throw ErrNotRegular
      | Some content =>
          let identity := identity_of content in
          let aid := artifact_id identity in
          let metadata := encode (JObject [("run_id", JString runID); ("path", JString path)]) in
          _ ← modify (CreateArtifact aid (mkArtifact kind identity ("sha256:" +:+ sha256_hex content) metadata));
          mret (mkPublished aid kind identity path (Z.of_nat (length content)))
      end
  end.

(** The executor's handle: only declared kinds *)
Definition PublishArtifact (allowed : list string) (runID workspace kind requestedPath : string)
    (fs : gmap string bytes) : ST (gmap string ArtifactRow) publish_error PublishedArtifact :=
  if negb (bool_decide (kind ∈ allowed)) then throw ErrKind
  else publishArtifact runID workspace kind requestedPath fs.

Lemma publish_path_below workspace requested path :
  IsAbs workspace = true → publish_path workspace requested = Some path →
  ∃ es, path = render_path true (clean_of workspace ++ es) ∧ names es.
Proof.
  intros Hw. unfold publish_path.
  set (p0 := if IsAbs requested then requested else Join [workspace; requested]).
  destruct (Rel workspace (Clean p0)) as [rel|] eqn:Er; [|done].
  destruct (_ || _) eqn:Eg; [done|]. intros [= <-].
  apply orb_false_iff in Eg as [E1 E2]. apply bool_decide_eq_false in E1.
  destruct (Rel_below _ _ _ Hw Er E1 E2) as (es & Hc & Hn). exists es. split; [|done].
  rewrite <-Hc. destruct (IsAbs p0) eqn:Ea.
  - assert (Ec : Clean p0 = render_path true (clean_of p0)) by (unfold Clean; by rewrite Ea).
    rewrite Ec. symmetry. by apply Clean_render, clean_of_rooted.
  - exfalso. unfold p0 in Ea. destruct (IsAbs requested) eqn:Eq; [congruence|].
    unfold Join in Ea. destruct workspace as [|a w]; [done|].
    rewrite filter_cons_True in Ea by done. unfold Clean in Ea.
    rewrite IsAbs_join in Ea by done. rewrite Hw in Ea. done.
Qed.

(** An executor publishes only files of its own workspace.  Whatever path it asks for, absolute
    or relative, with dots or without, a publication that succeeds is of a declared kind and names a
    path that is the workspace followed by plain names, and the artifact is named after the bytes of
    that file alone. *)
Theorem publish_contained allowed runID workspace kind requested fs t a t' :
  IsAbs workspace = true →
  PublishArtifact allowed runID workspace kind requested fs t = (Ok a, t') →
  kind ∈ allowed ∧
  (∃ es, pa_path a = render_path true (clean_of workspace ++ es) ∧ names es) ∧
  ∃ content, fs !! pa_path a = Some content ∧ pa_identity a = identity_of content ∧
    pa_id a = artifact_id (pa_identity a) ∧ pa_size a = Z.of_nat (length content).
Proof.
  intros Hw. unfold PublishArtifact, publishArtifact. case_bool_decide as Hk; [simpl|done].
  destruct (publish_path workspace requested) as [path|] eqn:Ep; [|done].
  destruct (fs !! path) as [content|] eqn:Ef; [|done]. unfold_st. intros E. simplify_eq/=.
  split; [done|]. split; [by eapply publish_path_below|]. by exists content.
Qed.
End publish.

(** A stand-in for the hash: the length in unary, enough to tell the samples apart. *)
Definition sample_hash (b : bytes) : string := String.string_of_list_ascii (replicate (length b) "0"%char).

Definition sample_fs : gmap string bytes := {["/runs/jobs/r1/out/report.json" := to_bytes "[]"]}.

Lemma publish_contained_witness :
  "report" ∈ ["report"] ∧
  (∃ es, "/runs/jobs/r1/out/report.json" = render_path true (clean_of "/runs/jobs/r1" ++ es) ∧ names es) ∧
  ∃ content, sample_fs !! "/runs/jobs/r1/out/report.json" = Some content ∧
    identity_of sample_hash (to_bytes "[]") = identity_of sample_hash content ∧
    artifact_id sample_hash (identity_of sample_hash (to_bytes "[]")) =
      artifact_id sample_hash (identity_of sample_hash (to_bytes "[]")) ∧
    2%Z = Z.of_nat (length content).
Proof.
  eapply (publish_contained sample_hash ["report"] "r1" "/runs/jobs/r1" "report" "tmp/../out/report.json"
    sample_fs ∅ (mkPublished _ "report" _ "/runs/jobs/r1/out/report.json" 2)).
  - reflexivity.
  - vm_compute. reflexivity.
Defined.
