(* ===== verification/Broker.v ===== *)
(** * The command-result broker: [internal/commands/broker.go]

    Waiters register a one-slot channel per command id; [Deliver] keeps a bounded window of results
    for late waiters and sends to every registered channel while holding the mutex.  Every method is
    one atomic step.  A channel records its command and, for the specification, everything ever sent
    on it. *)

From stdpp Require Import pretty.
From S2P Require Import Prelude.

Record CommandResult := mkResult { CommandId : string; cr_body : string }.

#[export] Instance CommandResult_eq_dec : EqDecision CommandResult.
Proof. solve_decision. Defined.

Definition replaySize : nat := 1024.

(** A channel of capacity one *)
Record Chan := mkChan {
  ch_cmd : string;
  ch_buf : list CommandResult;
  ch_sent : list CommandResult;      (* everything sent so far *)
}.

Record Broker := mkBroker {
  waiters : gmap string (list nat);
  replay : gmap string CommandResult;
  order : list string;
  chans : gmap nat Chan;
  next_chan : nat;
}.

Definition New : Broker := mkBroker ∅ ∅ [] ∅ 0.

(** [ch <- cr]; [None] when the channel is full and the send blocks *)
Definition send (cr : CommandResult) (ch : nat) (cs : gmap nat Chan) : option (gmap nat Chan) :=
  match cs !! ch with
  | None => Some cs
  | Some c =>
      match ch_buf c with
      | [] => Some (<[ch := mkChan (ch_cmd c) [cr] (ch_sent c ++ [cr])]> cs)
      | _ => None
      end
  end.

Fixpoint send_all (cr : CommandResult) (chs : list nat) (cs : gmap nat Chan) : option (gmap nat Chan) :=
  match chs with
  | [] => Some cs
  | ch :: chs => match send cr ch cs with None => None | Some cs => send_all cr chs cs end
  end.

(** [Wait]: the new channel *)
Definition Wait (cmd : string) (b : Broker) : nat * Broker :=
  let ch := next_chan b in
  match replay b !! cmd with
  | Some cr =>
      (ch, mkBroker (waiters b) (replay b) (order b) (<[ch := mkChan cmd [cr] [cr]]> (chans b)) (S ch))
  | None =>
      (ch, mkBroker (<[cmd := default [] (waiters b !! cmd) ++ [ch]]> (waiters b)) (replay b) (order b)
             (<[ch := mkChan cmd [] []]> (chans b)) (S ch))
  end.

(** [removeWaiter], the release function of a registered waiter *)
Definition removeWaiter (cmd : string) (ch : nat) (b : Broker) : Broker :=
  let out := filter (λ c, c ≠ ch) (default [] (waiters b !! cmd)) in
  mkBroker (match out with [] => delete cmd (waiters b) | _ => <[cmd := out]> (waiters b) end)
    (replay b) (order b) (chans b) (next_chan b).

(** [for b.order.Len() > replaySize] *)
Fixpoint evict (ord : list string) (rep : gmap string CommandResult) : list string * gmap string CommandResult :=
  match ord with
  | [] => ([], rep)
  | oldest :: rest =>
      if (replaySize <? length ord)%nat then evict rest (delete oldest rep) else (ord, rep)
  end.

(** [Deliver]; [None] when a send would block with the mutex held *)
Definition Deliver (cr : CommandResult) (b : Broker) : option Broker :=
  let id := CommandId cr in
  let '(ord, rep) := evict (order b ++ [id]) (<[id := cr]> (replay b)) in
  match send_all cr (default [] (waiters b !! id)) (chans b) with
  | None => None
  | Some cs => Some (mkBroker (delete id (waiters b)) rep ord cs (next_chan b))
  end.

(** A receive from a channel *)
Definition recv (ch : nat) (b : Broker) : Broker :=
  mkBroker (waiters b) (replay b) (order b)
    (alter (λ c, mkChan (ch_cmd c) (tail (ch_buf c)) (ch_sent c)) ch (chans b)) (next_chan b).

Inductive step : Broker → Broker → Prop :=
| step_wait cmd b : step b (snd (Wait cmd b))
| step_release cmd ch b : step b (removeWaiter cmd ch b)
| step_deliver cr b b' : Deliver cr b = Some b' → step b b'
| step_recv ch b : step b (recv ch b).

(** ** The invariant *)

Record broker_inv (b : Broker) : Prop := {
  bi_fresh : ∀ ch, is_Some (chans b !! ch) → (ch < next_chan b)%nat;
  bi_waiting : ∀ cmd chs, waiters b !! cmd = Some chs → NoDup chs ∧
    ∀ ch, ch ∈ chs → chans b !! ch = Some (mkChan cmd [] []);
  bi_once : ∀ ch c, chans b !! ch = Some c →
    (length (ch_sent c) ≤ 1)%nat ∧ ∀ cr, cr ∈ ch_sent c → CommandId cr = ch_cmd c;
  bi_replay : ∀ id cr, replay b !! id = Some cr → CommandId cr = id;
}.

Lemma evict_sub ord rep id cr : (evict ord rep).2 !! id = Some cr → rep !! id = Some cr.
Proof.
  revert rep. induction ord as [|o ord IH]; intros rep; cbn [evict]; [done|].
  destruct (_ <? _)%nat; [|done]. intros H. apply IH in H. by apply lookup_delete_Some in H as [_ ?].
Qed.

(** Sending to fresh channels of one command succeeds and fills each of them. *)
Lemma send_all_fresh cr chs cs :
  NoDup chs → (∀ ch, ch ∈ chs → cs !! ch = Some (mkChan (CommandId cr) [] [])) →
  ∃ cs', send_all cr chs cs = Some cs' ∧
    ∀ ch, cs' !! ch = if bool_decide (ch ∈ chs) then Some (mkChan (CommandId cr) [cr] [cr]) else cs !! ch.
Proof.
  revert cs. induction chs as [|ch chs IH]; intros cs Hnd Hcs; simpl; [by exists cs|].
  apply NoDup_cons in Hnd as [Hni Hnd]. unfold send. rewrite (Hcs ch) by set_solver. simpl.
  destruct (IH (<[ch := mkChan (CommandId cr) [cr] [cr]]> cs) Hnd) as (cs' & -> & Hcs').
  { intros ch' Hin. rewrite lookup_insert_ne by set_solver. apply Hcs. set_solver. }
  exists cs'. split; [done|]. intros ch'. rewrite Hcs', lookup_insert.
  destruct (decide (ch' = ch)) as [->|Hne].
  - rewrite (bool_decide_eq_false_2 _ Hni), (bool_decide_eq_true_2 (ch ∈ ch :: chs)) by set_solver.
    by rewrite decide_True.
  - rewrite decide_False by done. by rewrite (bool_decide_ext (ch' ∈ chs) (ch' ∈ ch :: chs)) by set_solver.
Qed.

Lemma waiting_default b id : broker_inv b → NoDup (default [] (waiters b !! id)) ∧
  ∀ ch, ch ∈ default [] (waiters b !! id) → chans b !! ch = Some (mkChan id [] []).
Proof.
  intros H. destruct (waiters b !! id) as [chs|] eqn:E; simpl; [by apply (bi_waiting _ H)|].
  split; [apply NoDup_nil_2|set_solver].
Qed.

Lemma Deliver_total b cr : broker_inv b → ∃ b', Deliver cr b = Some b' ∧
  ∀ ch, ch ∈ default [] (waiters b !! CommandId cr) →
        chans b' !! ch = Some (mkChan (CommandId cr) [cr] [cr]).
Proof.
  intros H. destruct (waiting_default b (CommandId cr) H) as [Hnd Hw].
  unfold Deliver. destruct (evict _ _) as [ord rep].
  destruct (send_all_fresh cr _ (chans b) Hnd Hw) as (cs' & -> & Hcs'). eexists. split; [done|].
  intros ch Hin. simpl. by rewrite Hcs', bool_decide_eq_true_2.
Qed.

Lemma broker_inv_deliver b cr b' : Deliver cr b = Some b' → broker_inv b → broker_inv b'.
Proof.
  intros Hd H. destruct (waiting_default b (CommandId cr) H) as [Hnd Hw].
  unfold Deliver in Hd. destruct (evict _ _) as [ord rep] eqn:Ee.
  destruct (send_all_fresh cr _ (chans b) Hnd Hw) as (cs' & E & Hcs'). rewrite E in Hd. simplify_eq.
  destruct H as [Hf Hwt Ho Hr]. split; simpl.
  - intros ch. rewrite Hcs'. case_bool_decide as Hin; [|by apply Hf]. intros _. apply Hf. by rewrite Hw.
  - intros cmd chs [Hne Hc]%lookup_delete_Some. destruct (Hwt cmd chs Hc) as [? Hchs].
    split; [done|]. intros ch Hin. rewrite Hcs'. rewrite bool_decide_eq_false_2; [by apply Hchs|].
    intros Hin'. pose proof (Hw ch Hin') as E1. rewrite (Hchs ch Hin) in E1. by simplify_eq.
  - intros ch c. rewrite Hcs'. case_bool_decide; [|by apply Ho]. intros. simplify_eq. simpl.
    split; [lia|]. set_solver.
  - intros id cr'. assert (rep = (evict (order b ++ [CommandId cr]) (<[CommandId cr:=cr]> (replay b))).2) as ->
      by (by rewrite Ee). intros Hin%evict_sub. rewrite lookup_insert in Hin. case_decide; [by simplify_eq|by apply Hr].
Qed.

Lemma broker_inv_wait b cmd : broker_inv b → broker_inv (snd (Wait cmd b)).
Proof.
  intros [Hf Hwt Ho Hr]. unfold Wait.
  assert (Hnew : chans b !! next_chan b = None).
  { apply eq_None_not_Some. intros Hs. apply Hf in Hs. lia. }
  assert (Hfresh : ∀ c ch, is_Some (<[next_chan b := c]> (chans b) !! ch) → (ch < S (next_chan b))%nat).
  { intros c ch. rewrite lookup_insert. case_decide; [lia|]. intros Hs. apply Hf in Hs. lia. }
  assert (Hold : ∀ c cmd' chs ch, waiters b !! cmd' = Some chs → ch ∈ chs →
    <[next_chan b := c]> (chans b) !! ch = Some (mkChan cmd' [] [])).
  { intros c cmd' chs ch Hc Hin. destruct (Hwt cmd' chs Hc) as [_ Hchs].
    rewrite lookup_insert_ne; [by apply Hchs|]. intros <-. by rewrite (Hchs _ Hin) in Hnew. }
  destruct (replay b !! cmd) as [cr|] eqn:Er; split; simpl; try done.
  - apply Hfresh.
  - intros cmd' chs Hc. split; [by apply (Hwt cmd')|]. eauto.
  - intros ch c. rewrite lookup_insert. case_decide; [|by apply Ho]. intros. simplify_eq. simpl.
    split; [lia|]. intros cr' ->%list_elem_of_singleton. by apply Hr.
  - apply Hfresh.
  - intros cmd' chs. rewrite lookup_insert. case_decide; [|by intros Hc; split; [by apply (Hwt cmd')|eauto]].
    intros [= <-]. subst cmd'. split.
    + apply NoDup_app. split; [|split; [|apply NoDup_singleton]].
      * destruct (waiters b !! cmd) as [chs|] eqn:E; [by apply (Hwt cmd)|apply NoDup_nil_2].
      * intros ch Hin ->%list_elem_of_singleton. destruct (waiters b !! cmd) as [chs|] eqn:E; simpl in Hin; [|set_solver].
        destruct (Hwt cmd chs E) as [_ Hc]. by rewrite (Hc _ Hin) in Hnew.
    + intros ch [Hin| ->%list_elem_of_singleton]%elem_of_app; [|by rewrite lookup_insert_eq].
      destruct (waiters b !! cmd) as [chs|] eqn:E; simpl in Hin; [by eauto|set_solver].
  - intros ch c. rewrite lookup_insert. case_decide; [|by apply Ho]. intros. simplify_eq. simpl.
    split; [lia|set_solver].
Qed.

Lemma broker_inv_release b cmd ch : broker_inv b → broker_inv (removeWaiter cmd ch b).
Proof.
  intros H. destruct (waiting_default b cmd H) as [Hnd Hw]. destruct H as [Hf Hwt Ho Hr].
  unfold removeWaiter. set (out := filter (λ c, c ≠ ch) (default [] (waiters b !! cmd))).
  assert (Hout : NoDup out ∧ ∀ c, c ∈ out → chans b !! c = Some (mkChan cmd [] [])).
  { split; [by apply NoDup_filter|]. intros c [_ Hin]%list_elem_of_filter. by apply Hw. }
  split; simpl; try done. intros cmd' chs. destruct out as [|o out'].
  - intros [_ Hc]%lookup_delete_Some. by apply Hwt.
  - rewrite lookup_insert. case_decide; [|by apply Hwt]. intros. simplify_eq. exact Hout.
Qed.

Lemma broker_inv_recv b ch : broker_inv b → broker_inv (recv ch b).
Proof.
  intros [Hf Hwt Ho Hr]. split; simpl; try done.
  - intros ch'. rewrite lookup_alter. case_decide; [subst|apply Hf]. intros Hs. apply Hf.
    by destruct (chans b !! ch').
  - intros cmd chs Hc. destruct (Hwt cmd chs Hc) as [? Hchs]. split; [done|]. intros ch' Hin.
    rewrite lookup_alter. case_decide; [subst|by apply Hchs]. by rewrite (Hchs _ Hin).
  - intros ch' c. rewrite lookup_alter. case_decide; [subst|apply Ho].
    destruct (chans b !! ch') as [c0|] eqn:E; intros; simplify_eq/=. by apply (Ho _ _ E).
Qed.

Lemma broker_inv_step b b' : step b b' → broker_inv b → broker_inv b'.
Proof.
  destruct 1; eauto using broker_inv_wait, broker_inv_release, broker_inv_deliver, broker_inv_recv.
Qed.

Lemma broker_inv_reachable b : rtc step New b → broker_inv b.
Proof.
  revert b. apply rtc_ind_r; [|by eauto using broker_inv_step]. split; simpl; intros.
  - destruct H as [c Hc]. by rewrite lookup_empty in Hc.
  - by rewrite lookup_empty in H.
  - by rewrite lookup_empty in H.
  - by rewrite lookup_empty in H.
Qed.

(** C7: the broker never blocks with its mutex held and never delivers twice.  In every reachable
    state [Deliver] completes, and hands the result to each waiter registered for its command; and
    every channel has been sent at most one result, the result of the command it waits for. *)
Theorem broker_delivers b cr :
  rtc step New b →
  (∃ b', Deliver cr b = Some b' ∧
     ∀ ch, ch ∈ default [] (waiters b !! CommandId cr) →
           chans b' !! ch = Some (mkChan (CommandId cr) [cr] [cr])) ∧
  ∀ ch c, chans b !! ch = Some c →
    (length (ch_sent c) ≤ 1)%nat ∧ ∀ cr', cr' ∈ ch_sent c → CommandId cr' = ch_cmd c.
Proof.
  intros Hr. pose proof (broker_inv_reachable b Hr) as H.
  split; [by apply Deliver_total|apply (bi_once _ H)].
Qed.

Definition two_waiters : Broker := snd (Wait "c1" (snd (Wait "c1" New))).

Lemma broker_delivers_witness :
  (∃ b', Deliver (mkResult "c1" "ok") two_waiters = Some b' ∧
     ∀ ch, ch ∈ [0%nat; 1%nat] →
           chans b' !! ch = Some (mkChan "c1" [mkResult "c1" "ok"] [mkResult "c1" "ok"])) ∧
  ∀ ch c, chans two_waiters !! ch = Some c →
    (length (ch_sent c) ≤ 1)%nat ∧ ∀ cr', cr' ∈ ch_sent c → CommandId cr' = ch_cmd c.
Proof.
  apply (broker_delivers two_waiters (mkResult "c1" "ok")).
  eapply rtc_l; [apply (step_wait "c1")|]. eapply rtc_l; [apply (step_wait "c1")|]. apply rtc_refl.
Defined.

(** ** The replay window *)

(** The last [replaySize] elements *)
Definition window {A} (l : list A) : list A := drop (length l - replaySize) l.

(** Deliveries in a row; a blocked one stops there *)
Fixpoint deliver_all (crs : list CommandResult) (b : Broker) : option Broker :=
  match crs with
  | [] => Some b
  | cr :: crs => match Deliver cr b with None => None | Some b => deliver_all crs b end
  end.

Lemma deliver_all_snoc crs cr b :
  deliver_all (crs ++ [cr]) b = (b ← deliver_all crs b; Deliver cr b).
Proof.
  revert b. induction crs as [|c crs IH]; intros b; simpl; [by destruct (Deliver cr b)|].
  destruct (Deliver c b); simpl; [apply IH|done].
Qed.

Lemma evict_small ord rep : (length ord ≤ replaySize)%nat → evict ord rep = (ord, rep).
Proof.
  destruct ord as [|o ord]; [done|]. cbn [evict]. intros H.
  destruct (Nat.ltb_spec replaySize (length (o :: ord))); [lia|done].
Qed.

Lemma evict_one o ord rep : length ord = replaySize → evict (o :: ord) rep = (ord, delete o rep).
Proof.
  intros H. cbn [evict]. destruct (Nat.ltb_spec replaySize (length (o :: ord))) as [_|Hle].
  - apply evict_small. lia.
  - simpl in Hle. lia.
Qed.

Lemma replaySize_pos : (1 ≤ replaySize)%nat.
Proof. unfold replaySize. lia. Qed.

Lemma tail_of_drop {A} n (l : list A) : tail (drop n l) = drop (S n) l.
Proof. revert l. induction n as [|n IH]; intros [|x l]; simpl; done. Qed.

Lemma window_snoc {A} (l : list A) x : window (l ++ [x]) =
  if (length l <? replaySize)%nat then window l ++ [x] else tail (window l) ++ [x].
Proof.
  unfold window. rewrite length_app. simpl. pose proof replaySize_pos. destruct (Nat.ltb_spec (length l) replaySize) as [Hlt|Hge].
  - replace (length l + 1 - replaySize)%nat with 0%nat by lia.
    by replace (length l - replaySize)%nat with 0%nat by lia.
  - rewrite drop_app_le by lia. f_equal. rewrite tail_of_drop.
    by replace (length l + 1 - replaySize)%nat with (S (length l - replaySize)) by lia.
Qed.

Lemma window_length {A} (l : list A) : length (window l) = Nat.min (length l) replaySize.
Proof. unfold window. rewrite length_drop. lia. Qed.

Lemma window_fmap {A B} (f : A → B) l : window (f <$> l) = f <$> window l.
Proof. unfold window. by rewrite length_fmap, fmap_drop. Qed.

Lemma window_sub {A} (l : list A) x : x ∈ window l → x ∈ l.
Proof. unfold window. intros H. rewrite <-(take_drop (length l - replaySize) l). set_solver. Qed.

(** What the window holds after distinct commands: their last [replaySize] results. *)
Record window_ok (crs : list CommandResult) (b : Broker) : Prop := {
  wo_inv : broker_inv b;
  wo_order : order b = window (CommandId <$> crs);
  wo_replay : ∀ id cr, replay b !! id = Some cr ↔ cr ∈ window crs ∧ CommandId cr = id;
}.

Lemma window_ok_deliver crs cr b :
  NoDup (CommandId <$> crs ++ [cr]) → window_ok crs b →
  ∃ b', Deliver cr b = Some b' ∧ window_ok (crs ++ [cr]) b'.
Proof.
  intros Hnd [Hinv Hord Hrep]. destruct (Deliver_total b cr Hinv) as (b' & Hd & _).
  exists b'. split; [done|]. pose proof (broker_inv_deliver _ _ _ Hd Hinv) as Hinv'.
  rewrite fmap_app in Hnd. apply NoDup_app in Hnd as (Hnd & Hni & _).
  assert (Hnew : CommandId cr ∉ CommandId <$> crs) by (intros H; by apply (Hni _ H); set_solver).
  assert (Hrep1 : ∀ id cr', <[CommandId cr := cr]> (replay b) !! id = Some cr' ↔
            cr' ∈ window crs ++ [cr] ∧ CommandId cr' = id).
  { intros id cr'. rewrite lookup_insert, elem_of_app, list_elem_of_singleton. case_decide as E; [|rewrite Hrep; naive_solver].
    subst id. split; [naive_solver|]. intros [[Hin%window_sub|?] Ec]; [|by subst].
    destruct Hnew. rewrite <-Ec. by apply list_elem_of_fmap_2. }
  unfold Deliver in Hd. rewrite Hord, window_fmap in Hd. pose proof replaySize_pos as Hpos.
  pose proof (window_length crs) as Hwl.
  destruct (Nat.ltb_spec (length crs) replaySize) as [Hlt|Hge].
  - rewrite evict_small in Hd by (rewrite length_app, length_fmap; simpl; lia).
    destruct (send_all _ _ _) as [cs|]; simplify_eq. split; [done|simpl..].
    + by rewrite window_fmap, window_snoc, (proj2 (Nat.ltb_lt _ _)), fmap_app by done.
    + intros id cr'. rewrite window_snoc, (proj2 (Nat.ltb_lt _ _)) by done. apply Hrep1.
  - destruct (window crs) as [|w ws] eqn:Ew; [simpl in Hwl; lia|]. simpl in Hwl.
    rewrite fmap_cons, <-app_comm_cons, evict_one in Hd by (rewrite length_app, length_fmap; simpl; lia).
    destruct (send_all _ _ _) as [cs|]; simplify_eq. split; [done|simpl..].
    + by rewrite window_fmap, window_snoc, (proj2 (Nat.ltb_ge _ _)), Ew, fmap_app by done.
    + intros id cr'. rewrite window_snoc, (proj2 (Nat.ltb_ge _ _)), Ew by done. simpl.
      rewrite lookup_delete_Some, Hrep1.
      assert (Hw : NoDup (CommandId <$> w :: ws)).
      { rewrite <-Ew. unfold window. eapply sublist_NoDup; [exact Hnd|]. apply fmap_sublist, sublist_drop. }
      apply NoDup_cons in Hw as [Hw _]. csimpl in Hw.
      assert (Hwc : CommandId w ≠ CommandId cr).
      { intros E. apply Hnew. rewrite <-E. apply list_elem_of_fmap_2, window_sub. rewrite Ew. set_solver. }
      split.
      * intros (Hne & [-> |Hin]%elem_of_cons & Hid); [done|]. done.
      * intros [Hin Hid]. split; [|set_solver]. subst id. intros E. apply elem_of_app in Hin as [Hin|Hin].
        -- apply Hw. rewrite E. by apply list_elem_of_fmap_2.
        -- apply list_elem_of_singleton in Hin. by subst.
Qed.

(** Late waiters see the last 1024 results.  After any number of deliveries of distinct
    commands, waiting for a command returns its result at once exactly when it is among the last
    1024 delivered. *)
Theorem broker_window crs :
  NoDup (CommandId <$> crs) →
  ∃ b, deliver_all crs New = Some b ∧
    ∀ cmd cr, chans (snd (Wait cmd b)) !! fst (Wait cmd b) = Some (mkChan cmd [cr] [cr]) ↔
              cr ∈ window crs ∧ CommandId cr = cmd.
Proof.
  intros Hnd. assert (H : ∃ b, deliver_all crs New = Some b ∧ window_ok crs b).
  { induction crs as [|cr crs IH] using rev_ind.
    - exists New. split; [done|]. split; [apply broker_inv_reachable, rtc_refl|done|].
      intros id cr. simpl. rewrite lookup_empty. set_solver.
    - rewrite fmap_app in Hnd. pose proof Hnd as (Hnd' & _ & _)%NoDup_app.
      destruct (IH Hnd') as (b & Hb & Hok). rewrite <-fmap_app in Hnd.
      destruct (window_ok_deliver _ _ _ Hnd Hok) as (b' & Hd & Hok'). exists b'.
      by rewrite deliver_all_snoc, Hb. }
  destruct H as (b & Hb & Hok). exists b. split; [done|]. intros cmd cr. rewrite <-(wo_replay _ _ Hok).
  unfold Wait. destruct (replay b !! cmd) as [cr'|] eqn:E; simpl; rewrite lookup_insert_eq; naive_solver.
Qed.

Definition sample_results : list CommandResult := [mkResult "c1" "ok"; mkResult "c2" "failed"].

Lemma broker_window_witness :
  ∃ b, deliver_all sample_results New = Some b ∧
    ∀ cmd cr, chans (snd (Wait cmd b)) !! fst (Wait cmd b) = Some (mkChan cmd [cr] [cr]) ↔
              cr ∈ window sample_results ∧ CommandId cr = cmd.
Proof. apply (broker_window sample_results). by apply (bool_decide_unpack _), I. Defined.

(** 1023 other commands *)
Definition others : list CommandResult := (λ n : nat, mkResult (pretty n) "") <$> seq 0 1023.

Definition redelivered : list CommandResult := mkResult "x" "old" :: others ++ [mkResult "x" "new"].

Lemma redelivered_lost :
  match deliver_all redelivered New with
  | Some b => bool_decide (replay b !! "x" = None)
  | None => false
  end = true.
Proof. vm_compute. reflexivity. Qed.

(** A result delivered twice can vanish at once.  The eviction order keeps one entry per
    delivery, not per command: when a command's result is delivered again 1024 deliveries after its
    first, the stale entry is evicted and takes the fresh result with it, so the next waiter waits
    for a result that was just delivered. *)
Theorem broker_redelivery_lost :
  length others = 1023%nat ∧ "x" ∉ CommandId <$> others ∧
  ∃ b, deliver_all (mkResult "x" "old" :: others ++ [mkResult "x" "new"]) New = Some b ∧
    chans (snd (Wait "x" b)) !! fst (Wait "x" b) = Some (mkChan "x" [] []).
Proof.
  split; [vm_compute; reflexivity|]. split; [apply (bool_decide_unpack _); vm_compute; exact I|].
  pose proof redelivered_lost as H. change (mkResult "x" "old" :: _) with redelivered.
  destruct (deliver_all redelivered New) as [b|]; [|done]. exists b. split; [done|].
  apply bool_decide_eq_true in H. unfold Wait. rewrite H. simpl. apply lookup_insert_eq.
Qed.
