(* ===== verification/Diag.v ===== *)
(** * Diagnostics: [internal/diag/diag.go]

    A resource carries a list of machine-coded findings.  [Compact] keeps the latest finding of each
    (code, resource) key at the position of the first, and [Upsert] replaces or appends one.  Both
    work in place on the caller's slice; the lists here are the slices they return. *)

From S2P Require Import Prelude GoStrings Utf8.

Record Diagnostic := mkDiagnostic {
  Code : string;
  Severity : string;
  Message : string;
  Resource : option string;
}.

#[export] Instance Diagnostic_eq_dec : EqDecision Diagnostic.
Proof. solve_decision. Defined.

Definition newf (sev code msg : string) : Diagnostic := mkDiagnostic code sev msg None.
Definition Info (code msg : string) : Diagnostic := newf "info" code msg.
Definition Warning (code msg : string) : Diagnostic := newf "warning" code msg.
Definition Error (code msg : string) : Diagnostic := newf "error" code msg.

Definition Res (resource : string) (d : Diagnostic) : Diagnostic :=
  mkDiagnostic (Code d) (Severity d) (Message d) (Some resource).

Definition IsError (d : Diagnostic) : bool := bool_decide (Severity d = "error").

Definition HasError (ds : list Diagnostic) : bool := existsb IsError ds.

(** [diagnosticKey]: a missing resource and an empty one are the same key *)
Definition keyOf (d : Diagnostic) : string * string := (Code d, default "" (Resource d)).

(** The loop of [Compact]: the compacted slice and the positions of its keys *)
Definition compact_step (acc : list Diagnostic * gmap (string * string) nat) (d : Diagnostic)
    : list Diagnostic * gmap (string * string) nat :=
  let '(compacted, positions) := acc in
  match positions !! keyOf d with
  | Some position => (<[position := d]> compacted, positions)
  | None => (compacted ++ [d], <[keyOf d := length compacted]> positions)
  end.

Definition Compact (existing : list Diagnostic) : list Diagnostic :=
  fst (fold_left compact_step existing ([], ∅)).

(** The loop of [Upsert] over the compacted slice *)
Fixpoint replace_key (next : Diagnostic) (ds : list Diagnostic) : option (list Diagnostic) :=
  match ds with
  | [] => None
  | d :: ds =>
      if bool_decide (keyOf d = keyOf next) then Some (next :: ds)
      else (λ ds, d :: ds) <$> replace_key next ds
  end.

Definition Upsert (existing : list Diagnostic) (next : Diagnostic) : list Diagnostic :=
  let existing := Compact existing in
  match replace_key next existing with
  | Some ds => ds
  | None => existing ++ [next]
  end.

(** ** The specification: one finding per key, the latest one *)

Definition latest (k : string * string) (ds : list Diagnostic) : option Diagnostic :=
  last (filter (λ d, keyOf d = k) ds).

Definition compact_spec (ds : list Diagnostic) : list Diagnostic :=
  omap (λ k, latest k ds) (dedup (keyOf <$> ds)).

Record positions_ok (ds : list Diagnostic) (pos : gmap (string * string) nat) : Prop := {
  po_nodup : NoDup (keyOf <$> ds);
  po_pos : ∀ k i, pos !! k = Some i ↔ (keyOf <$> ds) !! i = Some k;
}.

Lemma latest_snoc k ds d : latest k (ds ++ [d]) = if decide (keyOf d = k) then Some d else latest k ds.
Proof.
  unfold latest. rewrite filter_app. case_decide as E.
  - rewrite filter_cons_True by done. apply last_snoc.
  - rewrite filter_cons_False by done. simpl. by rewrite app_nil_r.
Qed.

Lemma dedup_go_snoc {A} `{EqDecision A} seen (l : list A) x :
  dedup_go seen (l ++ [x]) = dedup_go seen l ++ if decide (x ∈ seen ∨ x ∈ l) then [] else [x].
Proof.
  revert seen. induction l as [|y l IH]; intros seen; simpl.
  - destruct (decide (x ∈ seen)); [rewrite decide_True by tauto; done|].
    rewrite decide_False; [done|set_solver].
  - destruct (decide (y ∈ seen)) as [Hy|Hy]; rewrite IH; simpl; [|f_equal]; (f_equal; apply decide_ext; rewrite !elem_of_cons).
    + split; [tauto|]. intros [?|[-> |?]]; tauto.
    + tauto.
Qed.

Lemma dedup_snoc {A} `{EqDecision A} (l : list A) x :
  dedup (l ++ [x]) = dedup l ++ if decide (x ∈ l) then [] else [x].
Proof.
  unfold dedup. rewrite dedup_go_snoc. f_equal. apply decide_ext. set_solver.
Qed.

(** Replacing the value of one key of a list without duplicates *)
Lemma omap_latest_insert (ks : list (string * string)) ds d i :
  NoDup ks → ks !! i = Some (keyOf d) → (∀ k, k ∈ ks → is_Some (latest k ds)) →
  <[i := d]> (omap (λ k, latest k ds) ks) = omap (λ k, latest k (ds ++ [d])) ks.
Proof.
  revert i. induction ks as [|k ks IH]; intros i Hnd Hi Hs; [done|].
  apply NoDup_cons in Hnd as [Hni Hnd]. destruct (Hs k ltac:(set_solver)) as [v Hv].
  destruct i as [|i]; simpl in Hi.
  - simplify_eq. cbn [omap list_omap]. rewrite Hv, latest_snoc, decide_True by done. simpl. f_equal.
    apply list_omap_ext. clear IH Hs. induction ks as [|k' ks IH']; constructor.
    + rewrite latest_snoc, decide_False by set_solver. done.
    + apply IH'; [set_solver|by apply NoDup_cons in Hnd as [_ ?]].
  - cbn [omap list_omap]. rewrite Hv, latest_snoc, decide_False.
    + rewrite Hv. simpl. f_equal. apply IH; [done..|set_solver].
    + intros <-. apply Hni. by apply list_elem_of_lookup_2 in Hi.
Qed.

Lemma latest_some k ds : k ∈ keyOf <$> ds → is_Some (latest k ds).
Proof.
  intros (d & -> & Hin)%list_elem_of_fmap. unfold latest. apply last_is_Some. intros E.
  assert (H : d ∈ filter (λ d', keyOf d' = keyOf d) ds) by (by apply list_elem_of_filter).
  rewrite E in H. by apply not_elem_of_nil in H.
Qed.

Lemma latest_key k ds d : latest k ds = Some d → keyOf d = k.
Proof.
  unfold latest. intros H. apply last_Some_elem_of in H. by apply list_elem_of_filter in H as [? _].
Qed.

Lemma compact_spec_keys ds : keyOf <$> compact_spec ds = dedup (keyOf <$> ds).
Proof.
  unfold compact_spec. assert (H : ∀ k, k ∈ dedup (keyOf <$> ds) → is_Some (latest k ds)).
  { intros k Hk. apply latest_some. by apply elem_of_dedup. }
  induction (dedup (keyOf <$> ds)) as [|k ks IH]; [done|]. destruct (H k ltac:(set_solver)) as [d Hd].
  cbn [omap list_omap]. rewrite Hd. csimpl. rewrite (latest_key k ds d Hd). f_equal. apply IH. set_solver.
Qed.

Lemma compact_spec_snoc ds d : compact_spec (ds ++ [d]) =
  match list_find (λ k, k = keyOf d) (dedup (keyOf <$> ds)) with
  | Some (i, _) => <[i := d]> (compact_spec ds)
  | None => compact_spec ds ++ [d]
  end.
Proof.
  unfold compact_spec. rewrite fmap_app. csimpl. rewrite dedup_snoc.
  destruct (list_find _ _) as [[i k]|] eqn:E.
  - apply list_find_Some in E as (Hi & -> & _). rewrite decide_True; cycle 1.
    { apply elem_of_dedup. by apply list_elem_of_lookup_2 in Hi. }
    rewrite app_nil_r. symmetry. apply omap_latest_insert; [apply NoDup_dedup|done|].
    intros k Hk. apply latest_some. by apply elem_of_dedup.
  - apply list_find_None in E. rewrite Forall_forall in E.
    assert (Hni : keyOf d ∉ keyOf <$> ds).
    { intros Hin. apply (E (keyOf d)); [by apply elem_of_dedup|done]. }
    rewrite decide_False by done. rewrite omap_app. simpl. rewrite latest_snoc, decide_True by done.
    f_equal. apply list_omap_ext. apply Forall2_same_length_lookup_2; [done|]. intros i k k' Hk Hk'. simplify_eq.
    rewrite latest_snoc, decide_False; [done|]. intros <-. apply Hni. apply elem_of_dedup.
    by apply list_elem_of_lookup_2 in Hk.
Qed.

Lemma compact_fold ds : ∃ pos, fold_left compact_step ds ([], ∅) = (compact_spec ds, pos) ∧
  ∀ k, pos !! k = fst <$> list_find (λ k', k' = k) (dedup (keyOf <$> ds)).
Proof.
  induction ds as [|d ds IH] using rev_ind; [by exists ∅|].
  destruct IH as (pos & E & Hpos). rewrite fold_left_app, E, compact_spec_snoc. simpl. rewrite Hpos.
  rewrite fmap_app. csimpl. rewrite dedup_snoc.
  destruct (list_find (λ k, k = keyOf d) (dedup (keyOf <$> ds))) as [[i k]|] eqn:Ef; simpl.
  - exists pos. split; [done|]. intros k'. rewrite decide_True, app_nil_r; [apply Hpos|].
    apply elem_of_dedup. apply list_find_Some in Ef as (Hi & -> & _). by apply list_elem_of_lookup_2 in Hi.
  - eexists. split; [done|]. intros k'. apply list_find_None in Ef as Hn. rewrite Forall_forall in Hn.
    rewrite decide_False.
    2: { intros H. by apply (Hn (keyOf d)); [apply elem_of_dedup|]. }
    rewrite lookup_insert. case_decide as Ek.
    + subst k'. rewrite list_find_app_r by done. simpl. rewrite decide_True by done. simpl.
      rewrite <-compact_spec_keys, length_fmap. f_equal; lia.
    + rewrite Hpos. destruct (list_find (λ k, k = k') (dedup (keyOf <$> ds))) as [[i k]|] eqn:E'.
      * by erewrite list_find_app_l.
      * rewrite list_find_app_r by done. simpl. by rewrite decide_False.
Qed.

Lemma Compact_correct ds : Compact ds = compact_spec ds.
Proof. unfold Compact. by destruct (compact_fold ds) as (pos & -> & _). Qed.

Lemma latest_app_other k ds d : keyOf d ≠ k → latest k (ds ++ [d]) = latest k ds.
Proof. intros H. by rewrite latest_snoc, decide_False. Qed.

Lemma replace_key_find next ds : replace_key next ds =
  match list_find (λ k, k = keyOf next) (keyOf <$> ds) with
  | Some (i, _) => Some (<[i := next]> ds)
  | None => None
  end.
Proof.
  induction ds as [|d ds IH]; [done|]. csimpl. case_bool_decide as E.
  - by rewrite decide_True.
  - rewrite decide_False, IH by done. by destruct (list_find _ _) as [[i k]|].
Qed.

(** Compacting findings with distinct keys changes nothing. *)
Lemma compact_spec_id ds : NoDup (keyOf <$> ds) → compact_spec ds = ds.
Proof.
  induction ds as [|d ds IH] using rev_ind; [done|]. rewrite fmap_app. csimpl.
  intros (Hnd & Hni & _)%NoDup_app. rewrite compact_spec_snoc.
  destruct (list_find _ _) as [[i k]|] eqn:E; [|by rewrite IH].
  apply list_find_Some in E as (Hi & -> & _). apply list_elem_of_lookup_2 in Hi.
  rewrite elem_of_dedup in Hi. destruct (Hni _ Hi). set_solver.
Qed.

(** The findings after an upsert.  [Upsert] gives exactly one finding per (code, resource) key,
    the latest one, the new finding included, with the keys in the order of their first appearance;
    in particular the new finding is in the result and a second upsert of it changes nothing. *)
Theorem Upsert_spec ds next :
  Upsert ds next = compact_spec (ds ++ [next]) ∧
  next ∈ Upsert ds next ∧
  keyOf <$> Upsert ds next = dedup (keyOf <$> (ds ++ [next])) ∧
  Upsert (Upsert ds next) next = Upsert ds next.
Proof.
  assert (H : ∀ ds, Upsert ds next = compact_spec (ds ++ [next])).
  { clear ds. intros ds. unfold Upsert. rewrite Compact_correct, replace_key_find, compact_spec_keys, compact_spec_snoc.
    by destruct (list_find _ _) as [[i k]|]. }
  assert (Hin : ∀ ds, next ∈ compact_spec (ds ++ [next])).
  { clear ds. intros ds. unfold compact_spec. apply list_elem_of_omap. exists (keyOf next).
    split; [apply elem_of_dedup; set_solver|]. by rewrite latest_snoc, decide_True. }
  split; [done|]. rewrite !H. split; [done|]. split; [apply compact_spec_keys|].
  set (C := compact_spec (ds ++ [next])).
  assert (Hnd : NoDup (keyOf <$> C)) by (unfold C; rewrite compact_spec_keys; apply NoDup_dedup).
  rewrite compact_spec_snoc, <-compact_spec_keys, (compact_spec_id C Hnd).
  destruct (list_find _ _) as [[i k]|] eqn:E.
  - apply list_find_Some in E as (Hi & -> & _). apply list_insert_id.
    rewrite list_lookup_fmap_Some in Hi. destruct Hi as (d & Hd & Hi).
    pose proof (Hin ds) as Hn. fold C in Hn. apply list_elem_of_lookup in Hn as [j Hj].
    assert (i = j) as ->; [|done]. eapply NoDup_lookup; [exact Hnd| |]; rewrite list_lookup_fmap.
    + rewrite Hi. simpl. by rewrite <-Hd.
    + by rewrite Hj.
  - apply list_find_None in E. rewrite Forall_forall in E. exfalso. apply (E (keyOf next)); [|done].
    apply list_elem_of_fmap_2, Hin.
Qed.
