(* ===== verification/Nodes.v ===== *)
(** * Live agent sessions: [internal/nodes/nodes.go]

    The registry maps a node to its current session.  Sessions are shared objects compared by
    address, so they live in a store ([sessions]) and the registry holds their addresses.  [Send] is a
    [select] over the closed flag and a 64-slot channel: when both are ready Go picks either. *)

From S2P Require Import Prelude.

Definition send_cap : nat := 64.

Record Conn := mkConn {
  NodeID : string;
  SendCh : list string;        (* queued messages *)
  done_ : bool;                (* the session was closed *)
}.

Record Registry := mkRegistry {
  conns : gmap string nat;
  sessions : gmap nat Conn;    (* every session built so far, by address *)
  left_ : gset nat;            (* the sessions that were unregistered *)
}.

Definition NewRegistry : Registry := mkRegistry ∅ ∅ ∅.

(** [NewConn] at a fresh address *)
Definition NewConn (addr : nat) (nodeID : string) (r : Registry) : Registry :=
  mkRegistry (conns r) (<[addr := mkConn nodeID [] false]> (sessions r)) (left_ r).

Definition close_conn (c : Conn) : Conn := mkConn (NodeID c) (SendCh c) true.

(** [Close]; a second call does nothing *)
Definition Close (addr : nat) (r : Registry) : Registry :=
  mkRegistry (conns r) (alter close_conn addr (sessions r)) (left_ r).

Definition Register (addr : nat) (r : Registry) : Registry :=
  match sessions r !! addr with
  | None => r
  | Some conn =>
      let r := match conns r !! NodeID conn with
               | Some old => if bool_decide (old ≠ addr) then Close old r else r
               | None => r
               end in
      mkRegistry (<[NodeID conn := addr]> (conns r)) (sessions r) (left_ r)
  end.

Definition Unregister (addr : nat) (r : Registry) : Registry :=
  match sessions r !! addr with
  | None => r
  | Some conn =>
      let left_ := {[addr]} ∪ left_ r in
      if bool_decide (conns r !! NodeID conn = Some addr)
      then mkRegistry (delete (NodeID conn) (conns r)) (sessions r) left_
      else mkRegistry (conns r) (sessions r) left_
  end.

(** The outcomes of [Conn.Send]: [false] once the session is closed, [true] while the channel has
    room; with neither the call blocks. *)
Inductive conn_send (m : string) : Conn → bool → Conn → Prop :=
| send_done c : done_ c = true → conn_send m c false c
| send_queued c : (length (SendCh c) < send_cap)%nat →
    conn_send m c true (mkConn (NodeID c) (SendCh c ++ [m]) (done_ c)).

(** The outcomes of [Registry.Send] *)
Inductive registry_send (nodeID m : string) (r : Registry) : bool → Registry → Prop :=
| rsend_offline : conns r !! nodeID = None → registry_send nodeID m r false r
| rsend_online addr c ok c' :
    conns r !! nodeID = Some addr → sessions r !! addr = Some c → conn_send m c ok c' →
    registry_send nodeID m r ok (mkRegistry (conns r) (<[addr := c']> (sessions r)) (left_ r)).

Definition Online (nodeID : string) (r : Registry) : bool := bool_decide (is_Some (conns r !! nodeID)).
Definition OnlineCount (r : Registry) : nat := size (conns r).

Inductive step : Registry → Registry → Prop :=
| step_new addr nodeID r : sessions r !! addr = None → step r (NewConn addr nodeID r)
| step_register addr r : addr ∉ left_ r → step r (Register addr r)
| step_unregister addr r : step r (Unregister addr r)
| step_close addr r : step r (Close addr r)
| step_send nodeID m ok r r' : registry_send nodeID m r ok r' → step r r'
| step_recv addr m ms node d r : sessions r !! addr = Some (mkConn node (m :: ms) d) →
    step r (mkRegistry (conns r) (<[addr := mkConn node ms d]> (sessions r)) (left_ r)).

(** ** The invariant *)

Record registry_inv (r : Registry) : Prop := {
  ri_current : ∀ node addr, conns r !! node = Some addr →
    ∃ c, sessions r !! addr = Some c ∧ NodeID c = node;
  ri_cap : ∀ addr c, sessions r !! addr = Some c → (length (SendCh c) ≤ send_cap)%nat;
  ri_left : ∀ addr, addr ∈ left_ r → ∃ c, sessions r !! addr = Some c ∧ conns r !! NodeID c ≠ Some addr;
}.

Lemma conn_send_node m c ok c' : conn_send m c ok c' → NodeID c' = NodeID c.
Proof. by destruct 1. Qed.

Lemma conn_send_cap m c ok c' : conn_send m c ok c' →
  (length (SendCh c) ≤ send_cap)%nat → (length (SendCh c') ≤ send_cap)%nat.
Proof. destruct 1; simpl; [done|]. rewrite length_app. simpl. lia. Qed.

(** Changing a session without renaming it keeps the invariant. *)
Lemma registry_inv_update r addr c c' :
  sessions r !! addr = Some c → NodeID c' = NodeID c →
  (length (SendCh c') ≤ send_cap)%nat → registry_inv r →
  registry_inv (mkRegistry (conns r) (<[addr := c']> (sessions r)) (left_ r)).
Proof.
  intros Hc Hn Hcap [H1 H2 H3].
  assert (Hlk : ∀ a x, sessions r !! a = Some x → ∃ x', <[addr := c']> (sessions r) !! a = Some x' ∧ NodeID x' = NodeID x).
  { intros a x Hx. rewrite lookup_insert. case_decide; [|by eauto]. subst. simplify_eq. by eauto. }
  split; simpl.
  - intros node a Ha. destruct (H1 node a Ha) as (x & Hx & <-). by apply Hlk.
  - intros a x. rewrite lookup_insert. case_decide; [by intros [= <-]|apply H2].
  - intros a Ha. destruct (H3 a Ha) as (x & Hx & Hne). destruct (Hlk a x Hx) as (x' & Hx' & E).
    exists x'. by rewrite E.
Qed.

Lemma registry_inv_close r addr : registry_inv r → registry_inv (Close addr r).
Proof.
  intros H. unfold Close. destruct (sessions r !! addr) as [c|] eqn:E.
  - assert (alter close_conn addr (sessions r) = <[addr := close_conn c]> (sessions r)) as ->.
    { apply map_eq. intros i. rewrite lookup_alter, lookup_insert. case_decide; [by subst; rewrite E|done]. }
    eapply registry_inv_update; [done|done| |done]. by apply (ri_cap _ H _ _ E).
  - rewrite alter_id by (intros; congruence). by destruct r, H.
Qed.

Lemma registry_inv_step r r' : step r r' → registry_inv r → registry_inv r'.
Proof.
  intros Hs H. destruct Hs as [addr node r Hn|addr r Hl|addr r|addr r|node m ok r r' Hsend|addr m ms node d r Hc].
  - destruct H as [H1 H2 H3].
    assert (Hlk : ∀ a x, sessions r !! a = Some x → <[addr := mkConn node [] false]> (sessions r) !! a = Some x).
    { intros a x Hx. rewrite lookup_insert_ne; [done|]. intros ->. congruence. }
    split; simpl.
    + intros n a Ha. destruct (H1 n a Ha) as (c & Hc & <-). eauto.
    + intros a c. rewrite lookup_insert. case_decide; [intros [= <-]; simpl; lia|apply H2].
    + intros a Ha. destruct (H3 a Ha) as (c & Hc & Hne). eauto.
  - unfold Register. destruct (sessions r !! addr) as [c|] eqn:Ec; [|done].
    assert (H' : ∀ r1, registry_inv r1 → conns r1 = conns r → left_ r1 = left_ r →
              (∃ c1, sessions r1 !! addr = Some c1 ∧ NodeID c1 = NodeID c) →
              registry_inv (mkRegistry (<[NodeID c := addr]> (conns r1)) (sessions r1) (left_ r1))).
    { intros r1 [H1 H2 H3] Ecn Elf (c1 & Hc1 & En). split; simpl; [|done|].
      - intros n a. rewrite lookup_insert. case_decide; [intros [= <-]; subst; eauto|apply H1].
      - intros a Ha. destruct (H3 a Ha) as (x & Hx & Hne). exists x. split; [done|].
        rewrite lookup_insert. case_decide; [|done]. intros [= <-]. by rewrite Elf in Ha. }
    destruct (conns r !! NodeID c) as [old|] eqn:Eo; [|by apply H'; eauto].
    case_bool_decide as Eb; [|by apply H'; eauto].
    apply H'; [by apply registry_inv_close|done..|]. simpl. rewrite lookup_alter_ne by done. by eauto.
  - unfold Unregister. destruct (sessions r !! addr) as [c|] eqn:Ec; [|done]. destruct H as [H1 H2 H3].
    case_bool_decide as Eb; split; simpl; try done.
    + intros n a [_ Ha]%lookup_delete_Some. by apply H1.
    + intros a [->%elem_of_singleton|Ha]%elem_of_union.
      * exists c. split; [done|]. by rewrite lookup_delete_eq.
      * destruct (H3 a Ha) as (x & Hx & Hne). exists x. split; [done|]. rewrite lookup_delete.
        by case_decide.
    + intros a [->%elem_of_singleton|Ha]%elem_of_union; [by exists c|by apply H3].
  - by apply registry_inv_close.
  - destruct Hsend as [|a c ok c' Ha Hc Hsnd]; [done|]. eapply registry_inv_update; [done| | |done].
    + by eapply conn_send_node.
    + eapply conn_send_cap; [done|]. by apply (ri_cap _ H _ _ Hc).
  - eapply registry_inv_update; [done|done| |done]. pose proof (ri_cap _ H _ _ Hc) as Hcap. simpl in *. lia.
Qed.

Lemma registry_inv_reachable r : rtc step NewRegistry r → registry_inv r.
Proof.
  revert r. apply rtc_ind_r; [|by eauto using registry_inv_step]. split; simpl.
  - intros node addr H. by rewrite lookup_empty in H.
  - intros addr c H. by rewrite lookup_empty in H.
  - intros addr H. by apply elem_of_empty in H.
Qed.

(** One session per node.  In every reachable registry the current session of a node is a
    session of that node and was not unregistered; a session that registers becomes the current one
    and the one it replaces is closed; and unregistering a session that was replaced leaves its
    successor in place. *)
Theorem registry_sessions r addr c :
  rtc step NewRegistry r → sessions r !! addr = Some c →
  (∀ node a, conns r !! node = Some a →
     a ∉ left_ r ∧ ∃ x, sessions r !! a = Some x ∧ NodeID x = node) ∧
  conns (Register addr r) !! NodeID c = Some addr ∧
  (∀ old, conns r !! NodeID c = Some old → old ≠ addr →
     (∃ x, sessions (Register addr r) !! old = Some x ∧ done_ x = true) ∧
     Unregister old (Register addr r) =
       mkRegistry (conns (Register addr r)) (sessions (Register addr r)) ({[old]} ∪ left_ r)).
Proof.
  intros Hr Hc. pose proof (registry_inv_reachable r Hr) as [H1 H2 H3]. split_and!.
  - intros node a Ha. destruct (H1 node a Ha) as (x & Hx & Hn). split; [|by eauto].
    intros Hl. destruct (H3 a Hl) as (y & Hy & Hne). simplify_eq.
  - unfold Register. rewrite Hc. simpl. apply lookup_insert_eq.
  - intros old Ho Hne. destruct (H1 _ _ Ho) as (x & Hx & Hn).
    unfold Register. rewrite Hc, Ho, bool_decide_eq_true_2 by done. simpl.
    assert (Hold : alter close_conn old (sessions r) !! old = Some (close_conn x)).
    { by rewrite lookup_alter_eq, Hx. }
    split; [by exists (close_conn x)|]. unfold Unregister. simpl. rewrite Hold. simpl.
    rewrite Hn, bool_decide_eq_false_2; [done|]. rewrite lookup_insert_eq. congruence.
Qed.

Definition one_session : Registry := Register 0 (NewConn 1 "n1" (NewConn 0 "n1" NewRegistry)).

Lemma registry_sessions_witness :
  (∀ node a, conns one_session !! node = Some a →
     a ∉ left_ one_session ∧ ∃ x, sessions one_session !! a = Some x ∧ NodeID x = node) ∧
  conns (Register 1 one_session) !! "n1" = Some 1%nat ∧
  (∀ old, conns one_session !! "n1" = Some old → old ≠ 1%nat →
     (∃ x, sessions (Register 1 one_session) !! old = Some x ∧ done_ x = true) ∧
     Unregister old (Register 1 one_session) =
       mkRegistry (conns (Register 1 one_session)) (sessions (Register 1 one_session))
         ({[old]} ∪ left_ one_session)).
Proof.
  apply (registry_sessions one_session 1 (mkConn "n1" [] false)).
  - eapply rtc_l; [apply (step_new 0 "n1"); reflexivity|].
    eapply rtc_l; [apply (step_new 1 "n1"); reflexivity|].
    eapply rtc_l; [apply (step_register 0); apply not_elem_of_empty|]. apply rtc_refl.
  - reflexivity.
Defined.

(** [Send] on a closed session may report success.  While the channel has room, both arms of its
    [select] are ready after [Close], and either outcome is possible: the message can be queued on a
    session nobody will drain, and [true] returned. *)
Theorem send_after_close c m :
  (length (SendCh c) < send_cap)%nat →
  done_ (close_conn c) = true ∧
  conn_send m (close_conn c) false (close_conn c) ∧
  conn_send m (close_conn c) true (mkConn (NodeID c) (SendCh c ++ [m]) true).
Proof.
  intros Hroom. split; [done|]. split; [by apply send_done|]. by apply (send_queued m (close_conn c)).
Qed.

Lemma send_after_close_witness :
  done_ (close_conn (mkConn "n1" [] false)) = true ∧
  conn_send "stop" (close_conn (mkConn "n1" [] false)) false (close_conn (mkConn "n1" [] false)) ∧
  conn_send "stop" (close_conn (mkConn "n1" [] false)) true (mkConn "n1" ["stop"] true).
Proof. apply (send_after_close (mkConn "n1" [] false) "stop"). simpl. unfold send_cap. lia. Defined.
