(* ===== verification/ShellQuote.v ===== *)
(** * Shell quoting: the encoders of [internal/sourceconfig/config.go]

    Values are written into upstream shell text as literals: [quote] for a plain word, and variants
    that survive one more expansion phase (a heredoc, a double-quoted string, a second parse, a
    compose file).  The file models the encoders and, as their specification, the part of the shell
    that reads such words back. *)

From S2P Require Import Prelude GoStrings Utf8.

Definition MaxReplacementBytes : N := 2 ^ 20.

Definition squote : ascii := "'"%char.
Definition dollar : ascii := "$"%char.
Definition backtick : ascii := "096"%char.
Definition newline : ascii := "010"%char.
Definition carriage : ascii := "013"%char.
Definition nul : ascii := "000"%char.
Definition dq : string := String dquote "".
Definition bs : string := String backslash "".

(** ** The encoders *)

(** A literal the encoders accept *)
Definition literal_ok (value : string) : bool :=
  (N.of_nat (String.length value) <=? MaxReplacementBytes)%N && negb (contains_byte nul value)
  && valid_string value.

(** The text that stands for a quote inside single quotes *)
Definition quoted_quote : string := "'" +:+ dq +:+ "'" +:+ dq +:+ "'".

Definition quote (value : string) : option string :=
  if literal_ok value then Some ("'" +:+ replace_byte squote quoted_quote value +:+ "'") else None.

Definition deferLineBreaks (quoted : string) : string :=
  let quoted := replace_byte newline ("'$'" +:+ bs +:+ "n''") quoted in
  replace_byte carriage ("'$'" +:+ bs +:+ "r''") quoted.

(** [heredocEscape] and [doubleQuoteEscape] *)
Definition heredoc_table (a : ascii) : string :=
  if bool_decide (a = backslash) || bool_decide (a = dollar) || bool_decide (a = backtick)
  then bs +:+ String a "" else String a "".

Definition double_table (a : ascii) : string :=
  if bool_decide (a = backslash) || bool_decide (a = dollar) || bool_decide (a = backtick)
     || bool_decide (a = dquote)
  then bs +:+ String a "" else String a "".

Definition heredocEscape : string → string := replace_table heredoc_table.
Definition doubleQuoteEscape : string → string := replace_table double_table.

Definition quoteArgv (value format : string) : option string :=
  match quote value with
  | None => None
  | Some quoted =>
      if bool_decide (format = "argv") then Some quoted
      else
        let quoted := deferLineBreaks quoted in
        if bool_decide (format = "argv-heredoc") then Some (heredocEscape quoted) else Some quoted
  end.

(** A configuration value: a scalar as Go formats it, or something else.  A number is its text and
    whether it is finite. *)
Inductive value :=
| VString (s : string)
| VBool (b : bool)
| VNumber (finite : bool) (text : string)
| VOther.

Definition literal (v : value) : option string :=
  match v with
  | VString s => quote s
  | VBool true => quote "true"
  | VBool false => quote "false"
  | VNumber finite text => if finite then quote text else None
  | VOther => None
  end.

Definition scalar (v : value) (format : string) : option string :=
  match literal v with
  | None => None
  | Some quoted =>
      if bool_decide (format = "shell") then Some quoted
      else
        let quoted := deferLineBreaks quoted in
        if bool_decide (format = "shell-reparse") then quote quoted
        else if bool_decide (format = "shell-heredoc") then Some (heredocEscape quoted)
        else if bool_decide (format = "shell-double-quoted") then Some (doubleQuoteEscape quoted)
        else if bool_decide (format = "shell-compose") then Some (replace_byte dollar "$$" quoted)
        else Some quoted
  end.

(** ** What the shell reads back *)

Inductive mode := Bare | Single | Double | Ansi.

(** One word of shell text to the string it denotes: single quotes, double quotes around text with no
    expansion, and [$'...'] with the two escapes the encoders use.  [None] is anything else: an
    unquoted character, an expansion, or an unterminated quote. *)
Fixpoint shell_word (md : mode) (s : string) : option string :=
  match s with
  | EmptyString => match md with Bare => Some "" | _ => None end
  | String a s =>
      match md with
      | Bare =>
          if decide (a = squote) then shell_word Single s
          else if decide (a = dquote) then shell_word Double s
          else if decide (a = dollar) then
            match s with
            | String b s' => if decide (b = squote) then shell_word Ansi s' else None
            | EmptyString => None
            end
          else None
      | Single => if decide (a = squote) then shell_word Bare s else String a <$> shell_word Single s
      | Double =>
          if decide (a = dquote) then shell_word Bare s
          else if decide (a = backslash) then None
          else if decide (a = dollar) then None
          else if decide (a = backtick) then None
          else String a <$> shell_word Double s
      | Ansi =>
          if decide (a = squote) then shell_word Bare s
          else if decide (a = backslash) then
            match s with
            | String b s' =>
                if decide (b = "n"%char) then String newline <$> shell_word Ansi s'
                else if decide (b = "r"%char) then String carriage <$> shell_word Ansi s'
                else None
            | EmptyString => None
            end
          else String a <$> shell_word Ansi s
      end
  end.

Definition read_word (s : string) : option string := shell_word Bare s.

(** The expansion of an unquoted heredoc body, and of the inside of a double-quoted string: a
    backslash before one of [special] is removed, and an expansion makes it [None]. *)
Fixpoint expand (special : string) (s : string) : option string :=
  match s with
  | EmptyString => Some ""
  | String a s =>
      if decide (a = backslash) then
        match s with
        | String b s' =>
            if contains_byte b special then String b <$> expand special s'
            else String a <$> expand special s
        | EmptyString => Some (String a "")
        end
      else if decide (a = dollar) then None
      else if decide (a = backtick) then None
      else if contains_byte a special then None
      else String a <$> expand special s
  end.

Definition heredoc_special : string := String backslash (String dollar (String backtick "")).
Definition double_special : string := String backslash (String dollar (String backtick (String dquote ""))).

(** Compose interpolation of text whose only dollars are doubled *)
Fixpoint compose (s : string) : option string :=
  match s with
  | EmptyString => Some ""
  | String a s =>
      if decide (a = dollar) then
        match s with
        | String b s' => if decide (b = dollar) then String dollar <$> compose s' else None
        | EmptyString => None
        end
      else String a <$> compose s
  end.

(** A newline or carriage return in the text would end the line it is written on *)
Definition one_line (s : string) : bool := negb (contains_byte newline s) && negb (contains_byte carriage s).

(** The phases a format's text goes through before the word is read *)
Definition decode (format : string) (out : string) : option string :=
  if bool_decide (format = "shell-reparse") then read_word out ≫= read_word
  else if bool_decide (format = "shell-heredoc") || bool_decide (format = "argv-heredoc")
  then expand heredoc_special out ≫= read_word
  else if bool_decide (format = "shell-double-quoted") then expand double_special out ≫= read_word
  else if bool_decide (format = "shell-compose") then compose out ≫= read_word
  else read_word out.

(** The text a value stands for *)
Definition text (v : value) : string :=
  match v with
  | VString s => s
  | VBool true => "true"
  | VBool false => "false"
  | VNumber _ t => t
  | VOther => ""
  end.

(** ** Replacement tables *)

Lemma replace_table_ext f g s : (∀ a, f a = g a) → replace_table f s = replace_table g s.
Proof. intros H. induction s as [|a s IH]; simpl; [done|]. by rewrite H, IH. Qed.

Lemma replace_byte_over_table c r f s :
  replace_byte c r (replace_table f s) = replace_table (λ a, replace_byte c r (f a)) s.
Proof. induction s as [|a s IH]; simpl; [done|]. by rewrite replace_byte_app, IH. Qed.

(** What [quote] and then [deferLineBreaks] make of one byte *)
Definition deferred_byte (a : ascii) : string :=
  if decide (a = squote) then quoted_quote
  else if decide (a = newline) then "'$'" +:+ bs +:+ "n''"
  else if decide (a = carriage) then "'$'" +:+ bs +:+ "r''"
  else String a "".

Definition quoted_byte (a : ascii) : string := if decide (a = squote) then quoted_quote else String a "".

Lemma quote_table value : literal_ok value = true →
  quote value = Some ("'" +:+ replace_table quoted_byte value +:+ "'").
Proof. intros H. unfold quote. rewrite H, replace_byte_table. done. Qed.

Lemma defer_table value :
  deferLineBreaks ("'" +:+ replace_table quoted_byte value +:+ "'") =
  "'" +:+ replace_table deferred_byte value +:+ "'".
Proof.
  unfold deferLineBreaks. rewrite !replace_byte_app, !replace_byte_over_table.
  change (replace_byte newline _ "'") with "'". change (replace_byte carriage _ "'") with "'".
  do 2 f_equal. apply replace_table_ext. intros a. unfold quoted_byte, deferred_byte.
  destruct (decide (a = squote)); [done|]. destruct (decide (a = newline)); [by subst|].
  destruct (decide (a = carriage)) as [->|Hc]; [done|]. simpl. rewrite !decide_False by done. simpl.
  by rewrite decide_False.
Qed.

(** ** Reading words back *)

Lemma shell_single_byte f a rest :
  f = quoted_byte ∨ f = deferred_byte →
  shell_word Single (f a +:+ rest) = String a <$> shell_word Single rest.
Proof.
  intros Hf. assert (H : f a = quoted_quote ∧ a = squote ∨
    f a = "'$'" +:+ bs +:+ "n''" ∧ a = newline ∨ f a = "'$'" +:+ bs +:+ "r''" ∧ a = carriage ∨
    f a = String a "" ∧ a ≠ squote).
  { destruct Hf as [-> | ->]; unfold quoted_byte, deferred_byte; repeat case_decide; tauto. }
  destruct H as [[-> ->]|[[-> ->]|[[-> ->]|[-> Hne]]]]; [reflexivity..|].
  cbn [String.append shell_word]. by rewrite decide_False.
Qed.

Lemma shell_single_table f s rest :
  f = quoted_byte ∨ f = deferred_byte →
  shell_word Single (replace_table f s +:+ rest) = String.append s <$> shell_word Single rest.
Proof.
  intros Hf. induction s as [|a s IH]; simpl.
  - by destruct (shell_word Single rest).
  - rewrite sapp_assoc, shell_single_byte, IH by done. by destruct (shell_word Single rest).
Qed.

Lemma read_table f s : f = quoted_byte ∨ f = deferred_byte →
  read_word ("'" +:+ replace_table f s +:+ "'") = Some s.
Proof.
  intros Hf. change (read_word ("'" +:+ replace_table f s +:+ "'"))
    with (shell_word Single (replace_table f s +:+ "'")).
  rewrite shell_single_table by done. simpl. by rewrite sapp_nil_r.
Qed.

Lemma expand_table tbl special s :
  (∀ a rest, expand special (tbl a +:+ rest) = String a <$> expand special rest) →
  expand special (replace_table tbl s) = Some s.
Proof.
  intros H. induction s as [|a s IH]; simpl; [done|]. by rewrite H, IH.
Qed.

Lemma expand_heredoc s : expand heredoc_special (heredocEscape s) = Some s.
Proof.
  apply expand_table. intros a rest. unfold heredoc_table.
  destruct (decide (a = backslash)) as [->|H1]; [reflexivity|].
  destruct (decide (a = dollar)) as [->|H2]; [reflexivity|].
  destruct (decide (a = backtick)) as [->|H3]; [reflexivity|].
  rewrite !bool_decide_eq_false_2 by done. cbn [orb String.append expand].
  rewrite !decide_False by done. unfold heredoc_special. cbn [contains_byte].
  by rewrite !bool_decide_eq_false_2 by done.
Qed.

Lemma expand_double s : expand double_special (doubleQuoteEscape s) = Some s.
Proof.
  apply expand_table. intros a rest. unfold double_table.
  destruct (decide (a = backslash)) as [->|H1]; [reflexivity|].
  destruct (decide (a = dollar)) as [->|H2]; [reflexivity|].
  destruct (decide (a = backtick)) as [->|H3]; [reflexivity|].
  destruct (decide (a = dquote)) as [->|H4]; [reflexivity|].
  rewrite !bool_decide_eq_false_2 by done. cbn [orb String.append expand].
  rewrite !decide_False by done. unfold double_special. cbn [contains_byte].
  by rewrite !bool_decide_eq_false_2 by done.
Qed.

Lemma compose_doubled s : compose (replace_byte dollar "$$" s) = Some s.
Proof.
  induction s as [|a s IH]; cbn [replace_byte]; [done|]. case_decide as E.
  - subst. cbn [String.append compose]. rewrite !decide_True by done. by rewrite IH.
  - cbn [String.append compose]. rewrite decide_False by done. by rewrite IH.
Qed.

(** ** One line *)

Lemma one_line_app a b : one_line (a +:+ b) = one_line a && one_line b.
Proof. unfold one_line. rewrite !contains_byte_app. by repeat destruct (contains_byte _ _). Qed.

Lemma one_line_table f s : (∀ a, one_line (f a) = true) → one_line (replace_table f s) = true.
Proof. intros H. induction s as [|a s IH]; simpl; [done|]. by rewrite one_line_app, H. Qed.

Lemma one_line_map f s : (∀ a, one_line (String a "") = true → one_line (f a) = true) →
  one_line s = true → one_line (replace_table f s) = true.
Proof.
  intros H. induction s as [|a s IH]; [done|]. change (String a s) with (String a "" +:+ s).
  rewrite one_line_app. intros [Ha Hs]%andb_prop. change (replace_table f (String a "" +:+ s)) with (f a +:+ replace_table f s).
  rewrite one_line_app, H, IH; done.
Qed.

Lemma one_line_deferred s : one_line ("'" +:+ replace_table deferred_byte s +:+ "'") = true.
Proof.
  rewrite !one_line_app, one_line_table; [done|]. intros a. unfold deferred_byte.
  repeat case_decide; try reflexivity. unfold one_line. simpl. by rewrite !bool_decide_eq_false_2.
Qed.

(** The text an accepted value is encoded from *)
Lemma literal_text v quoted : literal v = Some quoted →
  quoted = "'" +:+ replace_table quoted_byte (text v) +:+ "'".
Proof.
  assert (H : ∀ s q, quote s = Some q → q = "'" +:+ replace_table quoted_byte s +:+ "'").
  { intros s q E. unfold quote in E. destruct (literal_ok s) eqn:Eo; [|done].
    rewrite replace_byte_table in E. by simplify_eq. }
  destruct v as [s|[]|[] t|]; cbn [literal text]; try done; apply H.
Qed.

Lemma heredocEscape_one_line s : one_line s = true → one_line (heredocEscape s) = true.
Proof.
  apply one_line_map. intros a Ha. unfold heredoc_table. case_match; [|done].
  rewrite one_line_app, Ha. done.
Qed.

Lemma doubleQuoteEscape_one_line s : one_line s = true → one_line (doubleQuoteEscape s) = true.
Proof.
  apply one_line_map. intros a Ha. unfold double_table. case_match; [|done].
  rewrite one_line_app, Ha. done.
Qed.

Lemma replace_byte_one_line c r s : one_line r = true → one_line s = true → one_line (replace_byte c r s) = true.
Proof.
  intros Hr. rewrite replace_byte_table. apply one_line_map. intros a Ha. by case_decide.
Qed.

(** C38: every shell encoding is read back as the literal it encodes.  Whatever the value, the text
    [scalar] writes for a format, after the expansion phases of that format's context, is one shell
    word that denotes exactly the value's text: no byte of it is expanded, split or dropped.  Every
    format but plain [shell] also stays on one line, so the value cannot end a heredoc or a YAML
    block. *)
Theorem scalar_roundtrip v format out :
  format ∈ ["shell"; "shell-reparse"; "shell-heredoc"; "shell-quoted-heredoc";
            "shell-double-quoted"; "shell-compose"] →
  scalar v format = Some out →
  decode format out = Some (text v) ∧ (format ≠ "shell" → one_line out = true).
Proof.
  intros Hf. unfold scalar. destruct (literal v) as [quoted|] eqn:E; [|done].
  apply literal_text in E as ->. rewrite defer_table.
  pose proof (read_table quoted_byte (text v) (or_introl eq_refl)) as Hq.
  pose proof (read_table deferred_byte (text v) (or_intror eq_refl)) as Hd.
  pose proof (one_line_deferred (text v)) as Hl.
  set (d := "'" +:+ replace_table deferred_byte (text v) +:+ "'") in *.
  rewrite !elem_of_cons in Hf. unfold decode.
  destruct Hf as [-> |[-> |[-> |[-> |[-> |[-> |Hf]]]]]]; [..|by apply not_elem_of_nil in Hf];
    simpl; intros E; simplify_eq.
  - done.
  - unfold quote in E. destruct (literal_ok d); [|done]. simplify_eq.
    assert (Hr : read_word ("'" +:+ replace_byte squote quoted_quote d +:+ "'") = Some d).
    { rewrite replace_byte_table. apply read_table. by left. }
    split; [by etransitivity; [exact (f_equal (λ x, x ≫= read_word) Hr)|]|]. intros _.
    change (one_line ("'" +:+ replace_byte squote quoted_quote d +:+ "'") = true).
    rewrite !one_line_app, replace_byte_one_line; done.
  - rewrite expand_heredoc. split; [done|]. intros _. by apply heredocEscape_one_line.
  - done.
  - rewrite expand_double. split; [done|]. intros _. by apply doubleQuoteEscape_one_line.
  - split; [by etransitivity; [exact (f_equal (λ x, x ≫= read_word) (compose_doubled d))|]|]. intros _.
    change (one_line (replace_byte dollar "$$" d) = true). by apply replace_byte_one_line.
Qed.

Lemma scalar_roundtrip_witness :
  decode "shell-heredoc" (default "" (scalar (VString "it's $HOME") "shell-heredoc")) = Some "it's $HOME" ∧
  ("shell-heredoc" ≠ "shell" →
   one_line (default "" (scalar (VString "it's $HOME") "shell-heredoc")) = true).
Proof.
  apply (scalar_roundtrip (VString "it's $HOME") "shell-heredoc").
  - rewrite !elem_of_cons. tauto.
  - vm_compute. reflexivity.
Defined.

(** Every argument encoding is read back as the argument.  In each of the three argv formats the
    text [quoteArgv] writes denotes exactly the argument, and in the two heredoc formats it stays on
    one line. *)
Theorem quoteArgv_roundtrip arg format out :
  format ∈ ["argv"; "argv-heredoc"; "argv-quoted-heredoc"] →
  quoteArgv arg format = Some out →
  decode format out = Some arg ∧ (format ≠ "argv" → one_line out = true).
Proof.
  intros Hf. unfold quoteArgv. destruct (quote arg) as [quoted|] eqn:E; [|done].
  pose proof (literal_text (VString arg) quoted E) as ->. cbn [text]. rewrite defer_table.
  pose proof (read_table quoted_byte arg (or_introl eq_refl)) as Hq.
  pose proof (read_table deferred_byte arg (or_intror eq_refl)) as Hd.
  pose proof (one_line_deferred arg) as Hl.
  set (d := "'" +:+ replace_table deferred_byte arg +:+ "'") in *.
  rewrite !elem_of_cons in Hf. unfold decode.
  destruct Hf as [-> |[-> |[-> |Hf]]]; [..|by apply not_elem_of_nil in Hf];
    simpl; intros E'; simplify_eq; [done| |done].
  rewrite expand_heredoc. split; [done|]. intros _. by apply heredocEscape_one_line.
Qed.

Lemma quoteArgv_roundtrip_witness :
  decode "argv-heredoc" (default "" (quoteArgv "a`b" "argv-heredoc")) = Some "a`b" ∧
  ("argv-heredoc" ≠ "argv" → one_line (default "" (quoteArgv "a`b" "argv-heredoc")) = true).
Proof.
  apply (quoteArgv_roundtrip "a`b" "argv-heredoc").
  - rewrite !elem_of_cons. tauto.
  - vm_compute. reflexivity.
Defined.
