(* ===== verification/SourceConfig.v ===== *)
(** * Byte-bound source edits: [internal/sourceconfig/config.go]

    A recipe names byte ranges of pinned upstream files and what to write there.  [Validate] checks
    the ranges and bindings, [Resolve] turns bindings into replacement text with the encoders of
    [ShellQuote], and [Apply] splices the text into the file.  Offsets are Go [int]s.  The renderer of
    templates and the decoder of a JSON array ([Argv]) are arguments. *)

From S2P Require Import Prelude GoStrings Utf8 Paths ShellQuote CJson.
Open Scope Z_scope.

Definition MaxSourceBytes : Z := 2 ^ 24.

(** ** Data *)

Record Edit := mkEdit {
  e_start : Z;
  e_end : Z;
  e_parameter : string;
  e_template : string;
  e_variable : string;
  e_command : string;
  e_indirect : bool;
  e_prefix : string;
  e_suffix : string;
  e_format : string;
  e_flag : string;
}.

Record File := mkFile { f_path : string; f_sha256 : string; f_edits : list Edit }.

Record ResolvedEdit := mkResolved { re_start : Z; re_end : Z; re_replacement : string }.

Record ResolvedFile := mkResolvedFile { rf_path : string; rf_sha256 : string; rf_edits : list ResolvedEdit }.

Inductive config_error :=
| ErrTooManyFiles | ErrFile (path : string) | ErrEdits (path : string) | ErrRange (path : string)
| ErrBindings (path : string) | ErrParameter (path : string) | ErrVariable (path : string)
| ErrCommand (path : string) | ErrAffixUse (path : string) | ErrAffixes (path : string)
| ErrTemplate (path : string) | ErrFlagUse | ErrShellWord | ErrFlag | ErrFormat (format : string)
| ErrArgv | ErrLiteral | ErrRender | ErrReplacement | ErrBoundary | ErrTooLarge | ErrSource
| ErrForbidden (arg flag : string) | ErrForbiddenList (flag : string) | ErrDocker (arg : string)
| ErrForbiddenEnv (key : string).

(** ** Regular expressions and character classes *)

Definition lower_digit (a : ascii) : bool := byte_in 97 122 a || byte_in 48 57 a.
Definition letter (a : ascii) : bool := byte_in 97 122 a || byte_in 65 90 a.
Definition hex_char (a : ascii) : bool := byte_in 48 57 a || byte_in 97 102 a || byte_in 65 70 a.
Definition is_char (c a : ascii) : bool := bool_decide (a = c).

(** [^[a-z0-9][a-z0-9_]{0,62}$] *)
Definition parameterName (s : string) : bool :=
  match s with
  | EmptyString => false
  | String a s => lower_digit a && sforallb (λ a, lower_digit a || is_char "_" a) s
                  && (String.length s <=? 62)%nat
  end.

(** [^[A-Za-z_][A-Za-z0-9_]*$] *)
Definition environmentName (s : string) : bool :=
  match s with
  | EmptyString => false
  | String a s => (letter a || is_char "_" a)
                  && sforallb (λ a, letter a || byte_in 48 57 a || is_char "_" a) s
  end.

(** [^--?[a-zA-Z0-9][a-zA-Z0-9_-]*$] *)
Definition flag_body (s : string) : bool :=
  match s with
  | EmptyString => false
  | String a s => (letter a || byte_in 48 57 a)
                  && sforallb (λ a, letter a || byte_in 48 57 a || is_char "_" a || is_char "-" a) s
  end.

Definition flagName (s : string) : bool :=
  match s with
  | String "-" (String "-" s) => flag_body s
  | String "-" s => flag_body s
  | _ => false
  end.

(** [strings.IndexFunc(s, unicode.IsControl) >= 0]: C0, DEL, and C1 as its two-byte encoding *)
Fixpoint has_control (s : string) : bool :=
  match s with
  | EmptyString => false
  | String a s' =>
      byte_in 0 31 a || byte_in 127 127 a
      || match s' with
         | String b _ => byte_in 194 194 a && byte_in 128 159 b
         | EmptyString => false
         end
      || has_control s'
  end.

(** [len(s) > n] *)
Definition longer (s : string) (n : N) : bool := (n <? N.of_nat (String.length s))%N.

(** [strings.TrimRight(component, ". ") != component] *)
Definition trailing_dot_space (s : string) : bool := has_suffix "." s || has_suffix " " s.

(** ** Paths and hashes *)

Definition SafePath (value : string) : bool :=
  if bool_decide (value = "") || longer value 1024 || negb (valid_string value) || IsAbs value
     || negb (bool_decide (Clean value = value)) || bool_decide (value = ".")
     || contains_any (String backslash ":") value || has_control value
  then false
  else forallb (λ c, negb (bool_decide (c = "..") || bool_decide (c = ".git") || trailing_dot_space c))
         (elements value).

(** 32 bytes of hex *)
Definition validHash (value : string) : bool :=
  sforallb hex_char value && (String.length value =? 64)%nat.

(** ** Validation *)

Definition bindings (e : Edit) : nat :=
  length (filter (λ b, b ≠ "") [e_parameter e; e_template e; e_variable e; e_command e]).

(** The formats of [Validate]'s switch *)
Definition plain_format (f : string) : bool :=
  bool_decide (f ∈ ["shell"; "shell-reparse"; "shell-heredoc"; "shell-quoted-heredoc"; "shell-double-quoted";
                    "shell-compose"; "json-compose"; "argv"; "argv-heredoc"; "argv-quoted-heredoc"]).

Definition check_format (e : Edit) : result config_error unit :=
  let f := e_format e in
  if plain_format f then (if bool_decide (e_flag e = "") then Ok tt else Err ErrFlagUse)
  else if bool_decide (f = "shell-word") then
    if (bool_decide (e_variable e = "") && bool_decide (e_command e = "")) || negb (bool_decide (e_flag e = ""))
    then Err ErrShellWord else Ok tt
  else if bool_decide (f = "flag") || bool_decide (f = "flag-compose") then
    (if flagName (e_flag e) then Ok tt else Err ErrFlag)
  else Err (ErrFormat f).

Definition computed_name_bad (name format : string) : bool :=
  negb (bool_decide (name = "")) &&
  (longer name 256 || negb (environmentName name) || negb (bool_decide (format = "shell-word"))).

(** One edit, after its range: the body of the inner loop *)
Definition check_binding (path : string) (e : Edit) : result config_error unit :=
  if negb (bindings e =? 1)%nat then Err (ErrBindings path)
  else if negb (bool_decide (e_parameter e = "")) && negb (parameterName (e_parameter e))
  then Err (ErrParameter path)
  else if computed_name_bad (e_variable e) (e_format e) then Err (ErrVariable path)
  else if computed_name_bad (e_command e) (e_format e) then Err (ErrCommand path)
  else if bool_decide (e_variable e = "") &&
          (negb (bool_decide (e_prefix e = "")) || negb (bool_decide (e_suffix e = "")) || e_indirect e)
  then Err (ErrAffixUse path)
  else if (MaxReplacementBytes <? N.of_nat (String.length (e_prefix e) + String.length (e_suffix e)))%N
          || negb (valid_string (e_prefix e)) || negb (valid_string (e_suffix e))
          || contains_byte nul (e_prefix e) || contains_byte nul (e_suffix e)
  then Err (ErrAffixes path)
  else if longer (e_template e) MaxReplacementBytes || negb (valid_string (e_template e))
          || contains_byte nul (e_template e)
  then Err (ErrTemplate path)
  else check_format e.

(** The loop over the edits in order of their starts; [start] and [end_] are the last edit's *)
Fixpoint check_edits (path : string) (start end_ : Z) (es : list Edit) : result config_error unit :=
  match es with
  | [] => Ok tt
  | e :: es =>
      if (e_start e <? end_) || (e_start e =? start) || (e_end e <? e_start e) || (MaxSourceBytes <? e_end e)
      then Err (ErrRange path)
      else
        _ ← check_binding path e;
        check_edits path (e_start e) (e_end e) es
  end.

Definition before (a b : Edit) : Prop := e_start a ≤ e_start b.

#[export] Instance before_dec : RelDecision before.
Proof. intros a b. unfold before. apply _. Defined.

Fixpoint check_files (seen : list string) (files : list File) : result config_error unit :=
  match files with
  | [] => Ok tt
  | f :: files =>
      if negb (SafePath (f_path f)) || bool_decide (f_path f ∈ seen) || negb (validHash (f_sha256 f))
      then Err (ErrFile (f_path f))
      else if (length (f_edits f) =? 0)%nat || (2048 <? Z.of_nat (length (f_edits f)))
      then Err (ErrEdits (f_path f))
      else
        _ ← check_edits (f_path f) (-1) 0 (merge_sort before (f_edits f));
        check_files (f_path f :: seen) files
  end.

Definition Validate (files : list File) : result config_error unit :=
  if 64 <? Z.of_nat (length files) then Err ErrTooManyFiles else check_files [] files.

Definition replacement_bad (r : string) : bool :=
  longer r MaxReplacementBytes || contains_byte nul r || negb (valid_string r).

(** The definitions [ValidateResolved] checks in place of the resolved edits *)
Definition definition_of (e : ResolvedEdit) : Edit :=
  mkEdit (re_start e) (re_end e) "resolved" "" "" "" false "" "" "shell" "".

Definition ValidateResolved (files : list ResolvedFile) : result config_error unit :=
  if existsb (λ f, existsb (λ e, replacement_bad (re_replacement e)) (rf_edits f)) files
  then Err ErrReplacement
  else Validate (map (λ f, mkFile (rf_path f) (rf_sha256 f) (map definition_of (rf_edits f))) files).

(** ** Application *)

Definition rbefore (a b : ResolvedEdit) : Prop := re_start a ≤ re_start b.

#[export] Instance rbefore_dec : RelDecision rbefore.
Proof. intros a b. unfold rbefore. apply _. Defined.

(** [i < len(original) && !utf8.RuneStart(original[i])] *)
Definition inside_rune (original : bytes) (i : Z) : bool :=
  match original !! Z.to_nat i with
  | Some a => negb (rune_start a)
  | None => false
  end.

(** [original[i:j]] *)
Definition slice (original : bytes) (i j : Z) : bytes := take (Z.to_nat j - Z.to_nat i) (drop (Z.to_nat i) original).

Fixpoint apply_edits (original : bytes) (start end_ : Z) (out : bytes) (es : list ResolvedEdit)
    : result config_error bytes :=
  match es with
  | [] =>
      let out := out ++ drop (Z.to_nat end_) original in
      if MaxSourceBytes <? Z.of_nat (length out) then Err ErrTooLarge else Ok out
  | e :: es =>
      if (re_start e <? end_) || (re_start e =? start) || (re_end e <? re_start e)
         || (Z.of_nat (length original) <? re_end e)
         || inside_rune original (re_start e) || inside_rune original (re_end e)
      then Err ErrBoundary
      else
        let out := out ++ slice original end_ (re_start e) ++ to_bytes (re_replacement e) in
        if MaxSourceBytes <? Z.of_nat (length out) then Err ErrTooLarge
        else apply_edits original (re_start e) (re_end e) out es
  end.

Definition Apply (original : bytes) (edits : list ResolvedEdit) : result config_error bytes :=
  if (MaxSourceBytes <? Z.of_nat (length original)) || negb (utf8_valid original) then Err ErrSource
  else apply_edits original (-1) 0 [] (merge_sort rbefore edits).

(** ** Resolution *)

(** [strings.ToLower] on a validated hash *)
Definition lower_byte (a : ascii) : ascii :=
  if byte_in 65 90 a then ascii_of_nat (byte_nat a + 32) else a.
Fixpoint to_lower (s : string) : string :=
  match s with EmptyString => "" | String a s => String (lower_byte a) (to_lower s) end.

Definition computedWord (e : Edit) : option string :=
  if negb (bool_decide (e_command e = ""))
  then Some ("$(printf '%q' " +:+ dq +:+ "$(" +:+ e_command e +:+ ")" +:+ dq +:+ ")")
  else
    match quoteArgv (e_prefix e) "argv-quoted-heredoc", quoteArgv (e_suffix e) "argv-quoted-heredoc" with
    | Some prefix, Some suffix =>
        let variable := if e_indirect e then "!" +:+ e_variable e +:+ ":-" else e_variable e in
        Some ("$(printf '%q' " +:+ prefix +:+ dq +:+ "${" +:+ variable +:+ "}" +:+ dq +:+ suffix +:+ ")")
    | _, _ => None
    end.

Definition IsArgvFormat (f : string) : bool :=
  bool_decide (f = "argv") || bool_decide (f = "argv-heredoc") || bool_decide (f = "argv-quoted-heredoc").

Section resolve.
(** [json.Unmarshal] of a JSON array, and the template renderer ([None] when there is none) *)
Variable json_array : string → option (list json).
Variable render : option (string → option string).

(** The elements of an argv: strings without a NUL *)
Fixpoint argv_strings (vs : list json) : option (list string) :=
  match vs with
  | [] => Some []
  | JString s :: vs =>
      if contains_byte nul s then None else (λ ss, s :: ss) <$> argv_strings vs
  | _ => None
  end.

Definition Argv (v : value) : option (list string) :=
  match v with
  | VString text =>
      if longer text MaxReplacementBytes || negb (valid_string text) then None
      else match json_array text with
           | None => None
           | Some vs => argv_strings vs
           end
  | _ => None
  end.

Fixpoint quote_all (format : string) (args : list string) : option (list string) :=
  match args with
  | [] => Some []
  | a :: args =>
      match quoteArgv a format, quote_all format args with
      | Some q, Some qs => Some (q :: qs)
      | _, _ => None
      end
  end.

(** A flag's value: a bool, or a template's ["true"] or ["false"] *)
Definition flag_value (templated : bool) (v : value) : option bool :=
  match v with
  | VBool b => Some b
  | VString s =>
      if templated then
        if bool_decide (s = "true") then Some true
        else if bool_decide (s = "false") then Some false else None
      else None
  | _ => None
  end.

Definition encode_value (e : Edit) (v : value) : result config_error string :=
  let f := e_format e in
  if bool_decide (f ∈ ["shell"; "shell-reparse"; "shell-heredoc"; "shell-quoted-heredoc";
                       "shell-double-quoted"; "shell-compose"])
  then match scalar v f with Some r => Ok r | None => Err ErrLiteral end
  else if bool_decide (f = "json-compose") then
    match v with
    | VString text =>
        if replacement_bad text then Err ErrLiteral
        else Ok (replace_byte dollar "$$" (of_bytes (json_string text)))
    | _ => Err ErrLiteral
    end
  else if bool_decide (f = "flag") || bool_decide (f = "flag-compose") then
    match flag_value (negb (bool_decide (e_template e = ""))) v with
    | None => Err ErrLiteral
    | Some true => Ok (e_flag e)
    | Some false => Ok (if bool_decide (f = "flag-compose") then "$${0:+}" else "")
    end
  else if IsArgvFormat f then
    match Argv v with
    | None => Err ErrArgv
    | Some args =>
        match quote_all f args with
        | None => Err ErrLiteral
        | Some qs => Ok (match qs with [] => " " | _ => " " +:+ join " " qs +:+ " " end)
        end
    end
  else Ok "".

(** The value an edit is bound to; [None] for a parameter without an override *)
Definition binding_value (values : gmap string value) (e : Edit) : result config_error (option value) :=
  if negb (bool_decide (e_template e = "")) then
    match render with
    | None => Err ErrRender
    | Some r => match r (e_template e) with None => Err ErrRender | Some s => Ok (Some (VString s)) end
    end
  else Ok (values !! e_parameter e).

Definition resolve_edit (values : gmap string value) (e : Edit) : result config_error (option ResolvedEdit) :=
  if negb (bool_decide (e_variable e = "")) || negb (bool_decide (e_command e = "")) then
    match computedWord e with
    | None => Err ErrLiteral
    | Some r => Ok (Some (mkResolved (e_start e) (e_end e) r))
    end
  else
    v ← binding_value values e;
    match v with
    | None => Ok None
    | Some v => r ← encode_value e v; Ok (Some (mkResolved (e_start e) (e_end e) r))
    end.

Fixpoint resolve_edits (values : gmap string value) (es : list Edit) : result config_error (list ResolvedEdit) :=
  match es with
  | [] => Ok []
  | e :: es =>
      r ← resolve_edit values e;
      rs ← resolve_edits values es;
      Ok (match r with Some r => r :: rs | None => rs end)
  end.

Fixpoint resolve_files (values : gmap string value) (files : list File) : result config_error (list ResolvedFile) :=
  match files with
  | [] => Ok []
  | f :: files =>
      es ← resolve_edits values (f_edits f);
      rest ← resolve_files values files;
      Ok (match es with [] => rest | _ => mkResolvedFile (f_path f) (to_lower (f_sha256 f)) es :: rest end)
  end.

Definition Resolve (files : list File) (values : gmap string value) : result config_error (list ResolvedFile) :=
  _ ← Validate files;
  out ← resolve_files values files;
  _ ← ValidateResolved out;
  Ok out.
End resolve.

(** ** Option policy *)

Definition canonical_option (aliases : bool) (option_ : string) : string :=
  if aliases && has_prefix "--" option_ then replace_byte "_" "-" option_ else option_.

Fixpoint protected_options (aliases : bool) (seen : list string) (forbidden : list string)
    : result config_error (list (string * string)) :=
  match forbidden with
  | [] => Ok []
  | flag :: forbidden =>
      if longer flag 128 || negb (flagName flag) || bool_decide (flag ∈ seen)
      then Err (ErrForbiddenList flag)
      else
        rest ← protected_options aliases (flag :: seen) forbidden;
        Ok ((flag, canonical_option aliases flag) :: rest)
  end.

(** [strings.Contains] of a one-byte needle: the letter of a short flag in a bundle *)
Definition short_bundle (flag option_ : string) : bool :=
  match flag, option_ with
  | String _ (String c ""), String a (String b rest) =>
      is_char "-" a && negb (is_char "-" b) && contains_byte c (String b rest)
  | _, _ => false
  end.

Definition option_matches (aliases : bool) (option_ : string) (p : string * string) : bool :=
  let canonical := canonical_option aliases option_ in
  let '(flag, pcanonical) := p in
  bool_decide (canonical = pcanonical)
  || (aliases && (2 <? String.length canonical)%nat && has_prefix "--" canonical && has_prefix "--" pcanonical
      && has_prefix canonical pcanonical)
  || short_bundle flag option_.

Fixpoint check_args (aliases : bool) (options : list (string * string)) (args : list string)
    : result config_error unit :=
  match args with
  | [] => Ok tt
  | arg :: args =>
      let '(option_, _, _) := cut "="%char arg in
      match List.find (option_matches aliases option_) options with
      | Some p => Err (ErrForbidden arg (fst p))
      | None => check_args aliases options args
      end
  end.

Definition CheckForbiddenArgs (args forbidden : list string) (engineAliases : bool) : result config_error unit :=
  if 128 <? Z.of_nat (length forbidden) then Err (ErrForbiddenList "")
  else
    options ← protected_options engineAliases [] forbidden;
    check_args engineAliases options args.

Fixpoint protected_env (seen : list string) (keys : list string) : result config_error (list string) :=
  match keys with
  | [] => Ok seen
  | k :: keys =>
      if longer k 256 || negb (environmentName k) || bool_decide (k ∈ seen) then Err (ErrForbiddenEnv k)
      else protected_env (k :: seen) keys
  end.

Definition check_docker_arg (protected : list string) (arg : string) : result config_error unit :=
  let '(option_, value, hasValue) := cut "="%char arg in
  if negb hasValue || negb (has_prefix "--" option_) || negb (flagName option_) then Err (ErrDocker arg)
  else if bool_decide (option_ = "--env-file") then Err (ErrDocker arg)
  else if bool_decide (option_ = "--env") then
    let '(key, _, _) := cut "="%char value in
    if negb (environmentName key) then Err (ErrDocker arg)
    else if bool_decide (key ∈ protected) then Err (ErrForbiddenEnv key) else Ok tt
  else Ok tt.

Fixpoint check_docker_args (protected : list string) (args : list string) : result config_error unit :=
  match args with
  | [] => Ok tt
  | arg :: args => _ ← check_docker_arg protected arg; check_docker_args protected args
  end.

Definition CheckDockerArgs (args forbiddenEnv : list string) : result config_error unit :=
  if 128 <? Z.of_nat (length forbiddenEnv) then Err (ErrForbiddenEnv "")
  else protected ← protected_env [] forbiddenEnv; check_docker_args protected args.

(** ** The reference splice: one edit at a time, from the last to the first *)

Definition apply_one (e : ResolvedEdit) (s : bytes) : bytes :=
  take (Z.to_nat (re_start e)) s ++ to_bytes (re_replacement e) ++ drop (Z.to_nat (re_end e)) s.

Definition splice (original : bytes) (es : list ResolvedEdit) : bytes := foldr apply_one original es.

(** What the loop has checked of the edits it went through *)
Fixpoint edits_ok (original : bytes) (start end_ : Z) (es : list ResolvedEdit) : Prop :=
  match es with
  | [] => True
  | e :: es =>
      end_ ≤ re_start e ∧ start ≠ re_start e ∧ re_start e ≤ re_end e ≤ Z.of_nat (length original) ∧
      inside_rune original (re_start e) = false ∧ inside_rune original (re_end e) = false ∧
      edits_ok original (re_start e) (re_end e) es
  end.

Lemma apply_edits_ok original start end_ out es res :
  apply_edits original start end_ out es = Ok res → edits_ok original start end_ es.
Proof.
  revert start end_ out. induction es as [|e es IH]; intros start end_ out; cbn [apply_edits edits_ok]; [done|].
  destruct (_ || inside_rune original (re_end e)) eqn:E; [done|].
  rewrite !orb_false_iff in E. destruct E as [[[[[E1 E2] E3] E4] E5] E6].
  apply Z.ltb_ge in E1, E3, E4. apply Z.eqb_neq in E2.
  destruct (_ <? _); [done|]. intros H. apply IH in H. naive_solver lia.
Qed.

Lemma edits_ok_starts original start end_ es : start ≤ end_ → edits_ok original start end_ es →
  Forall (λ e, end_ ≤ re_start e ∧ start < re_start e) es.
Proof.
  revert start end_. induction es as [|e es IH]; intros start end_ Hse; simpl; [constructor|].
  intros (H1 & H2 & H3 & _ & _ & H6). constructor; [lia|].
  eapply Forall_impl; [apply (IH _ _ (proj1 H3) H6)|]. simpl. lia.
Qed.

(** Edits that start at [n] or later leave the first [n] bytes alone. *)
Lemma take_splice original es n : (n ≤ length original)%nat →
  Forall (λ e, Z.of_nat n ≤ re_start e) es → take n (splice original es) = take n original.
Proof.
  intros Hn. induction 1 as [|e es He _ IH]; [done|]. simpl. unfold apply_one.
  rewrite take_app_le; [|rewrite length_take].
  - rewrite take_take. replace (n `min` Z.to_nat (re_start e))%nat with n by lia. exact IH.
  - assert (n ≤ length (splice original es))%nat.
    { rewrite <-(length_take_le original n Hn), <-IH, length_take. lia. }
    unfold splice in *. lia.
Qed.

Lemma length_splice_ge original es n : (n ≤ length original)%nat →
  Forall (λ e, Z.of_nat n ≤ re_start e) es → (n ≤ length (splice original es))%nat.
Proof.
  intros Hn He. pose proof (take_splice original es n Hn He) as H.
  apply (f_equal length) in H. rewrite !length_take in H. lia.
Qed.

(** The loop computes the splice of what is left of the file. *)
Lemma apply_edits_splice original start end_ out es res :
  0 ≤ end_ ≤ Z.of_nat (length original) → start ≤ end_ →
  apply_edits original start end_ out es = Ok res →
  res = out ++ drop (Z.to_nat end_) (splice original es).
Proof.
  revert start end_ out. induction es as [|e es IH]; intros start end_ out Hend Hse Happ.
  { cbn [apply_edits] in Happ. destruct (_ <? _); by simplify_eq. }
  pose proof (apply_edits_ok _ _ _ _ _ _ Happ) as (H1 & H2 & H3 & _ & _ & H6).
  pose proof (edits_ok_starts _ _ _ _ (proj1 H3) H6) as Hst.
  cbn [apply_edits] in Happ. destruct (_ || inside_rune original (re_end e)); [done|].
  destruct (_ <? _); [done|]. apply IH in Happ; [|lia..]. rewrite Happ. cbn [splice foldr].
  fold (splice original es). unfold apply_one, slice.
  assert (Hlen : (Z.to_nat (re_start e) ≤ length (splice original es))%nat).
  { apply length_splice_ge; [lia|]. eapply Forall_impl; [exact Hst|]. simpl. lia. }
  rewrite <-!app_assoc. f_equal. rewrite drop_app_le by (rewrite length_take; lia). f_equal.
  rewrite take_splice; [|lia|eapply Forall_impl; [exact Hst|]; simpl; lia].
  rewrite skipn_firstn_comm. done.
Qed.

(** ** Order does not matter *)

(** Two orderings of the same list by a key without repetitions are the same. *)
Lemma sorted_key_unique {A} (key : A → Z) (l1 l2 : list A) :
  l1 ≡ₚ l2 → NoDup (key <$> l1) →
  StronglySorted (λ a b, key a ≤ key b) l1 → StronglySorted (λ a b, key a ≤ key b) l2 → l1 = l2.
Proof.
  revert l2. induction l1 as [|x l1 IH]; intros l2 Hp Hnd H1 H2.
  { symmetry in Hp. by apply Permutation_nil_r in Hp. }
  destruct l2 as [|y l2]; [by apply Permutation_nil_r in Hp|].
  apply StronglySorted_inv in H1 as [H1 Hx], H2 as [H2 Hy]. rewrite Forall_forall in Hx, Hy.
  assert (x = y) as ->.
  { assert (Hy1 : y ∈ x :: l1) by (rewrite Hp; set_solver).
    assert (Hx2 : x ∈ y :: l2) by (rewrite <-Hp; set_solver).
    apply elem_of_cons in Hy1 as [|Hy1]; [done|]. apply elem_of_cons in Hx2 as [|Hx2]; [done|].
    pose proof (Hx y Hy1). pose proof (Hy x Hx2).
    csimpl in Hnd. apply NoDup_cons in Hnd as [Hni _]. destruct Hni.
    assert (key x = key y) as -> by lia. by apply list_elem_of_fmap_2. }
  f_equal. csimpl in Hnd. apply NoDup_cons in Hnd as [_ Hnd].
  apply IH; [by apply Permutation_cons_inv in Hp|done..].
Qed.

#[export] Instance rbefore_transitive : Transitive rbefore.
Proof. intros a b c. unfold rbefore. lia. Qed.

#[export] Instance rbefore_total : Total rbefore.
Proof. intros a b. unfold rbefore. lia. Qed.

Lemma edits_ok_nodup original start end_ es :
  start ≤ end_ → edits_ok original start end_ es → NoDup (re_start <$> es).
Proof.
  revert start end_. induction es as [|e es IH]; intros start end_ Hse; [constructor|].
  intros (H1 & H2 & H3 & _ & _ & H6). csimpl. constructor; [|by eapply IH; [|exact H6]; lia].
  intros (e' & E & Hin)%list_elem_of_fmap.
  pose proof (edits_ok_starts _ _ _ _ (proj1 H3) H6) as Hst. rewrite Forall_forall in Hst.
  destruct (Hst e' Hin). lia.
Qed.

Lemma Apply_perm original es es' res : es ≡ₚ es' → Apply original es = Ok res → Apply original es' = Ok res.
Proof.
  intros Hp. unfold Apply. destruct (_ || _); [done|]. intros H.
  pose proof (apply_edits_ok _ _ _ _ _ _ H) as Hok. apply edits_ok_nodup in Hok; [|lia].
  assert (merge_sort rbefore es = merge_sort rbefore es') as <-; [|done].
  apply (sorted_key_unique re_start); [by rewrite !merge_sort_Permutation|done|..];
    apply (StronglySorted_merge_sort rbefore); apply _.
Qed.

(** ** Well-formed text *)

Lemma starts_rune_drop original i : inside_rune original i = false → starts_rune (drop (Z.to_nat i) original).
Proof.
  unfold inside_rune. intros H. destruct (drop (Z.to_nat i) original) as [|a q] eqn:E; [done|].
  assert (Hi : original !! Z.to_nat i = Some a).
  { rewrite <-(Nat.add_0_r (Z.to_nat i)), <-lookup_drop, E. done. }
  rewrite Hi in H. simpl. by apply negb_false_iff in H.
Qed.

Lemma Utf8_drop original i : Utf8 original → inside_rune original i = false → Utf8 (drop (Z.to_nat i) original).
Proof.
  intros Hu Hi. rewrite <-(take_drop (Z.to_nat i) original) in Hu. apply starts_rune_drop in Hi.
  by apply Utf8_split in Hu as [_ ?].
Qed.

Lemma Utf8_slice original i j : Utf8 (drop (Z.to_nat i) original) → 0 ≤ i ≤ j →
  inside_rune original j = false → Utf8 (slice original i j).
Proof.
  intros Hu Hij Hj. unfold slice. apply starts_rune_drop in Hj.
  rewrite <-(take_drop (Z.to_nat j - Z.to_nat i) (drop (Z.to_nat i) original)) in Hu.
  apply Utf8_split in Hu as [? _]; [done|]. rewrite drop_drop.
  by replace (Z.to_nat i + (Z.to_nat j - Z.to_nat i))%nat with (Z.to_nat j) by lia.
Qed.

Lemma apply_edits_utf8 original start end_ out es res :
  Utf8 original → Forall (λ e, valid_string (re_replacement e) = true) es → 0 ≤ end_ →
  Utf8 out → Utf8 (drop (Z.to_nat end_) original) →
  apply_edits original start end_ out es = Ok res → Utf8 res.
Proof.
  intros Hu Hr. revert start end_ out. induction Hr as [|e es He Hr IH]; intros start end_ out Hend Hout Htail Happ.
  { cbn [apply_edits] in Happ. destruct (_ <? _); simplify_eq. by apply Utf8_app. }
  pose proof (apply_edits_ok _ _ _ _ _ _ Happ) as (H1 & _ & H3 & H4 & H5 & _).
  cbn [apply_edits] in Happ. destruct (_ || inside_rune original (re_end e)); [done|].
  destruct (_ <? _); [done|]. eapply IH; [| | |exact Happ]; [lia| |by apply Utf8_drop].
  apply Utf8_app; [done|]. apply Utf8_app; [by apply Utf8_slice|]. by apply utf8_valid_spec.
Qed.



(** ** Paths stay below the source root *)

(** A safe path stays below its root.  Joined to any root, a path that [SafePath] accepts is the
    cleaned root followed by the path's own elements, each of them a plain name and none of them
    [.git]. *)
Theorem SafePath_contained root value :
  root ≠ "" → SafePath value = true →
  Join [root; value] = render_path (IsAbs root) (clean_of root ++ elements value) ∧
  names (elements value) ∧ ".git" ∉ elements value.
Proof.
  intros Hroot. unfold SafePath. destruct (_ || has_control value) eqn:E; [done|]. intros Hall.
  rewrite !orb_false_iff, !bool_decide_eq_false, !negb_false_iff, bool_decide_eq_true in E.
  destruct E as [[[[[[[Hne _] _] Habs] Hclean] Hdot] _] _].
  rewrite forallb_forall in Hall.
  assert (Hel : ∀ c, c ∈ elements value → c ≠ ".." ∧ c ≠ ".git").
  { intros c Hin. apply list_elem_of_In, Hall in Hin. apply negb_true_iff in Hin.
    rewrite !orb_false_iff, !bool_decide_eq_false in Hin. tauto. }
  assert (Hn : names (elements value)).
  { apply clean_relative_names; [done..|]. intros Hin. by apply Hel in Hin as [? _]. }
  split_and!; [|done|intros Hin; by apply Hel in Hin as [_ ?]].
  rewrite Join_below; [|done|].
  - do 2 f_equal. simpl. rewrite app_nil_r. by apply nonempty_id.
  - constructor; [|constructor]. split; [done|]. eapply Forall_impl; [exact Hn|]. by right.
Qed.

Lemma SafePath_contained_witness :
  Join ["/srv/source"; "scripts/start.sh"] =
    render_path true (clean_of "/srv/source" ++ elements "scripts/start.sh") ∧
  names (elements "scripts/start.sh") ∧ ".git" ∉ elements "scripts/start.sh".
Proof. apply (SafePath_contained "/srv/source" "scripts/start.sh"); [discriminate|vm_compute; reflexivity]. Defined.

(** ** A resolved configuration applies *)

(** The ranges [check_edits] has accepted: increasing, disjoint, and bounded. *)
Fixpoint ranges_ok (start end_ : Z) (es : list (Z * Z)) : Prop :=
  match es with
  | [] => True
  | (s, e) :: es => end_ ≤ s ∧ start ≠ s ∧ s ≤ e ∧ ranges_ok s e es
  end.

Definition range (e : Edit) : Z * Z := (e_start e, e_end e).

Lemma check_edits_ranges path start end_ es :
  check_edits path start end_ es = Ok tt → ranges_ok start end_ (range <$> es).
Proof.
  revert start end_. induction es as [|e es IH]; intros start end_; [done|]. cbn [check_edits].
  destruct (_ || (MaxSourceBytes <? e_end e)) eqn:E; [done|].
  rewrite !orb_false_iff in E. destruct E as [[[E1 E2] E3] _]. apply Z.ltb_ge in E1, E3. apply Z.eqb_neq in E2.
  unfold mbind, result_bind. destruct (check_binding path e) as [[]|]; [|done]. intros H. apply IH in H.
  csimpl. unfold range at 1. naive_solver lia.
Qed.

Lemma ranges_ok_starts start end_ rs : start ≤ end_ → ranges_ok start end_ rs → Forall (λ r, start < fst r) rs.
Proof.
  revert start end_. induction rs as [|[s e] rs IH]; intros start end_ Hse; simpl; [constructor|].
  intros (H1 & H2 & H3 & H4). constructor; [simpl; lia|].
  eapply Forall_impl; [apply (IH s e H3 H4)|]. simpl. lia.
Qed.

Lemma ranges_ok_nodup start end_ rs : start ≤ end_ → ranges_ok start end_ rs → NoDup rs.*1.
Proof.
  revert start end_. induction rs as [|[s e] rs IH]; intros start end_ Hse; [constructor|].
  intros (H1 & H2 & H3 & H4). csimpl. constructor; [|by eapply IH; [|exact H4]; lia].
  intros ([s' e'] & E & Hin)%list_elem_of_fmap. simpl in E.
  pose proof (ranges_ok_starts s e rs H3 H4) as Hst. rewrite Forall_forall in Hst.
  pose proof (Hst _ Hin). simpl in *. lia.
Qed.

#[export] Instance before_transitive : Transitive before.
Proof. intros a b c. unfold before. lia. Qed.

#[export] Instance before_total : Total before.
Proof. intros a b. unfold before. lia. Qed.

Lemma StronglySorted_fmap_iff {A B} (R : relation A) (S : relation B) (f : A → B) l :
  (∀ a b, R a b → S (f a) (f b)) → StronglySorted R l → StronglySorted S (f <$> l).
Proof.
  intros Hf. induction 1 as [|a l Hl IH Ha]; [constructor|]. csimpl. constructor; [done|].
  rewrite Forall_forall in Ha. apply Forall_forall. intros b (x & -> & Hx)%list_elem_of_fmap.
  apply Hf. by apply Ha.
Qed.

(** Sorting the stand-in definitions is sorting the edits. *)
Lemma sorted_definitions path es :
  check_edits path (-1) 0 (merge_sort before (definition_of <$> es)) = Ok tt →
  ranges_ok (-1) 0 ((λ e, (re_start e, re_end e)) <$> merge_sort rbefore es).
Proof.
  intros H. apply check_edits_ranges in H as Hr.
  assert (E : merge_sort before (definition_of <$> es) = definition_of <$> merge_sort rbefore es).
  { apply (sorted_key_unique e_start).
    - by rewrite !merge_sort_Permutation.
    - apply ranges_ok_nodup in Hr; [|lia]. by rewrite <-list_fmap_compose in Hr.
    - apply (StronglySorted_merge_sort before); apply _.
    - eapply (StronglySorted_fmap_iff rbefore); [done|].
      apply (StronglySorted_merge_sort rbefore); apply _. }
  rewrite E, <-list_fmap_compose in Hr. exact Hr.
Qed.

(** The file an edit list fits: long enough, cut between runes, and small enough when edited. *)
Definition fits (original : bytes) (es : list ResolvedEdit) : Prop :=
  Z.of_nat (length original) ≤ MaxSourceBytes ∧ utf8_valid original = true ∧
  Forall (λ e, re_end e ≤ Z.of_nat (length original) ∧ inside_rune original (re_start e) = false ∧
               inside_rune original (re_end e) = false) es ∧
  Z.of_nat (length original + sum_list_with (λ e, length (to_bytes (re_replacement e))) es) ≤ MaxSourceBytes.

Lemma apply_edits_total original start end_ out es budget :
  0 ≤ end_ ≤ Z.of_nat (length original) →
  ranges_ok start end_ ((λ e, (re_start e, re_end e)) <$> es) →
  Forall (λ e, re_end e ≤ Z.of_nat (length original) ∧ inside_rune original (re_start e) = false ∧
               inside_rune original (re_end e) = false) es →
  Z.of_nat (length out) ≤ budget + end_ →
  budget + Z.of_nat (length original + sum_list_with (λ e, length (to_bytes (re_replacement e))) es) ≤ MaxSourceBytes →
  ∃ res, apply_edits original start end_ out es = Ok res.
Proof.
  intros Hend Hr Hf. revert start end_ out budget Hend Hr.
  induction Hf as [|e es (He & Hs & Hn) _ IH]; intros start end_ out budget Hend Hr Hout Hb; cbn [apply_edits].
  - simpl in Hb. destruct (Z.ltb_spec MaxSourceBytes (Z.of_nat (length (out ++ drop (Z.to_nat end_) original)))) as [Hlt|];
      [|by eexists]. rewrite length_app, length_drop in Hlt. lia.
  - csimpl in Hr. destruct Hr as (H1 & H2 & H3 & H4). rewrite Hs, Hn.
    rewrite (proj2 (Z.ltb_ge _ _) H1), (proj2 (Z.eqb_neq _ _) (not_eq_sym H2)), (proj2 (Z.ltb_ge _ _) H3),
      (proj2 (Z.ltb_ge _ _) He). cbn [orb].
    set (out' := out ++ _). simpl in Hb.
    assert (Hlen : Z.of_nat (length out') ≤
      Z.of_nat (length out) + (re_start e - end_) + Z.of_nat (length (to_bytes (re_replacement e)))).
    { unfold out', slice. rewrite !length_app, length_take, length_drop. lia. }
    destruct (Z.ltb_spec MaxSourceBytes (Z.of_nat (length out'))) as [Hlt|_]; [lia|].
    apply (IH _ _ _ (budget + Z.of_nat (length (to_bytes (re_replacement e))))); [lia|done|lia|lia].
Qed.

Lemma check_files_edits seen files f : check_files seen files = Ok tt → f ∈ files →
  check_edits (f_path f) (-1) 0 (merge_sort before (f_edits f)) = Ok tt.
Proof.
  revert seen. induction files as [|g files IH]; intros seen; cbn [check_files]; [intros _ H; by apply not_elem_of_nil in H|].
  destruct (_ || negb (validHash _)); [done|]. destruct (_ || _); [done|]. unfold mbind, result_bind.
  destruct (check_edits (f_path g) _ _ _) as [[]|] eqn:E; [|done]. intros H [-> |Hin]%elem_of_cons; [done|eauto].
Qed.

(** A configuration that resolves can be applied.  For every file [Resolve] returns, whatever the
    parameters, templates and formats, if the pinned source is as long as the edits say, the ranges
    fall between runes and the result stays within 16 MiB, then [Apply] succeeds. *)
Theorem Resolve_applies json_array render files values out rf original :
  Resolve json_array render files values = Ok out → rf ∈ out → fits original (rf_edits rf) →
  ∃ res, Apply original (rf_edits rf) = Ok res.
Proof.
  unfold Resolve, mbind, result_bind. destruct (Validate files) as [[]|]; [|done].
  destruct (resolve_files _ _ _ _) as [out'|]; [|done].
  destruct (ValidateResolved out') as [[]|] eqn:E; [|done]. intros [= ->] Hin (Hsz & Hu & Hf & Hb).
  unfold ValidateResolved in E. destruct (existsb _ out); [done|]. unfold Validate in E.
  destruct (_ <? _); [done|].
  eapply check_files_edits in E; [|by apply (list_elem_of_fmap_2 _ _ _ Hin)]. simpl in E.
  apply sorted_definitions in E. unfold Apply.
  rewrite (proj2 (Z.ltb_ge _ _) Hsz), Hu. simpl.
  apply (apply_edits_total original (-1) 0 [] _ 0); [lia|done|by rewrite merge_sort_Permutation|simpl; lia|].
  rewrite merge_sort_Permutation. lia.
Qed.

(** A script with one parameter, set to a name with a quote in it. *)
Definition sample_hash : string := "00000000000000000000000000000000000000000000000000000000000000ff".
Definition sample_files : list File :=
  [mkFile "scripts/start.sh" sample_hash
     [mkEdit 6 9 "model" "" "" "" false "" "" "shell" ""; mkEdit 2 3 "absent" "" "" "" false "" "" "shell" ""]].
Definition sample_values : gmap string value := {["model" := VString "it's"]}.
Definition sample_resolved : ResolvedFile :=
  mkResolvedFile "scripts/start.sh" sample_hash
    [mkResolved 6 9 (default "" (scalar (VString "it's") "shell"))].

Lemma Resolve_applies_witness : ∃ res, Apply (to_bytes "serve foo now") (rf_edits sample_resolved) = Ok res.
Proof.
  apply (Resolve_applies (λ _, None) None sample_files sample_values [sample_resolved] sample_resolved).
  - vm_compute. reflexivity.
  - apply elem_of_cons. by left.
  - split; [vm_compute; discriminate|]. split; [reflexivity|]. split; [|vm_compute; discriminate].
    constructor; [|constructor]. split; [vm_compute; discriminate|]. split; reflexivity.
Defined.
