(* ===== verification/Spaces.v ===== *)
(** * White space: [strings.Fields] and [strings.TrimSpace]

    Go's white space is [unicode.IsSpace]: six ASCII bytes and the runes U+0085, U+00A0, U+1680,
    U+2000 to U+200A, U+2028, U+2029, U+202F, U+205F and U+3000, here recognised by their UTF-8 bytes.
    Their leading bytes are never continuation bytes, so looking at bytes is the same as decoding. *)

From S2P Require Import Prelude GoStrings Utf8.

(** The width of the white-space rune that [s] starts with, or 0 *)
Definition space_width (s : string) : nat :=
  let at_ (i : nat) := match sdrop i s with String a _ => byte_nat a | EmptyString => 0%nat end in
  let b0 := at_ 0%nat in let b1 := at_ 1%nat in let b2 := at_ 2%nat in
  if bool_decide (9 ≤ b0 ≤ 13 ∨ b0 = 32)%nat then 1
  else if bool_decide (b0 = 194 ∧ (b1 = 133 ∨ b1 = 160))%nat then 2
  else if bool_decide (b0 = 225 ∧ b1 = 154 ∧ b2 = 128)%nat then 3
  else if bool_decide (b0 = 226 ∧ b1 = 128 ∧ (128 ≤ b2 ≤ 138 ∨ b2 = 168 ∨ b2 = 169 ∨ b2 = 175))%nat then 3
  else if bool_decide (b0 = 226 ∧ b1 = 129 ∧ b2 = 159)%nat then 3
  else if bool_decide (b0 = 227 ∧ b1 = 128 ∧ b2 = 128)%nat then 3
  else 0%nat.

Definition field (cur : string) : list string := if bool_decide (cur = "") then [] else [cur].

Fixpoint fields_go (skip : nat) (cur : string) (s : string) : list string :=
  match s with
  | EmptyString => field cur
  | String a r =>
      match skip with
      | S skip => fields_go skip cur r
      | O => match space_width s with
             | O => fields_go 0 (cur +:+ String a "") r
             | S k => field cur ++ fields_go k "" r
             end
      end
  end.

Definition Fields (s : string) : list string := fields_go 0 "" s.

(** The width of the white-space rune that [s] ends with, or 0 *)
Definition space_end (s : string) : nat :=
  let n := String.length s in
  if (1 <=? n)%nat && (space_width (sdrop (n - 1) s) =? 1)%nat then 1
  else if (2 <=? n)%nat && (space_width (sdrop (n - 2) s) =? 2)%nat then 2
  else if (3 <=? n)%nat && (space_width (sdrop (n - 3) s) =? 3)%nat then 3
  else 0%nat.

Fixpoint trim_left_go (skip : nat) (s : string) : string :=
  match s with
  | EmptyString => ""
  | String a r =>
      match skip with
      | S skip => trim_left_go skip r
      | O => match space_width s with O => s | S k => trim_left_go k r end
      end
  end.

(** Every round removes at least one byte, so the length of the string is enough fuel. *)
Fixpoint trim_right_go (fuel : nat) (s : string) : string :=
  match fuel with
  | O => s
  | S fuel => match space_end s with
              | O => s
              | k => trim_right_go fuel (stake (String.length s - k) s)
              end
  end.

Definition TrimSpace (s : string) : string :=
  let s := trim_left_go 0 s in trim_right_go (String.length s) s.

(** ** Facts *)

(** A printable ASCII byte other than the space *)
Definition plain (a : ascii) : bool := byte_in 33 126 a.

Lemma space_width_plain a r : plain a = true → space_width (String a r) = 0%nat.
Proof.
  unfold plain, byte_in. intros [?%Nat.leb_le ?%Nat.leb_le]%andb_prop. unfold space_width. cbn [sdrop].
  repeat rewrite bool_decide_eq_false_2 by lia. done.
Qed.

Lemma fields_go_plain w cur r :
  sforallb plain w = true → fields_go 0 cur (w +:+ r) = fields_go 0 (cur +:+ w) r.
Proof.
  revert cur. induction w as [|a w IH]; intros cur; cbn [sforallb]; [by rewrite sapp_nil_r|].
  intros [Ha Hw]%andb_prop. change (String a w +:+ r) with (String a (w +:+ r)). cbn [fields_go].
  rewrite space_width_plain, IH, sapp_assoc by done. done.
Qed.

Lemma fields_go_word w r :
  w ≠ "" → sforallb plain w = true → fields_go 0 "" (w +:+ " " +:+ r) = w :: fields_go 0 "" r.
Proof.
  intros Hw Hp. rewrite fields_go_plain by done.
  change (String.append "" w) with w. change (" " +:+ r) with (String " " r). cbn [fields_go].
  change (space_width (String " " r)) with 1%nat. cbn iota. unfold field. by rewrite bool_decide_eq_false_2.
Qed.

Lemma fields_go_some skip cur s : cur ≠ "" → ∃ f fs, fields_go skip cur s = f :: fs.
Proof.
  revert skip cur. induction s as [|a s IH]; intros skip cur Hc; cbn [fields_go].
  - unfold field. rewrite bool_decide_eq_false_2 by done. eauto.
  - destruct skip as [|skip]; [|by apply IH]. case_match.
    + apply IH. by destruct cur.
    + unfold field. rewrite bool_decide_eq_false_2 by done. simpl. eauto.
Qed.


Lemma space_width_bytes s i a r : (i < space_width s)%nat → sdrop i s = String a r → plain a = false.
Proof.
  unfold space_width, plain, byte_in. intros Hi Ha. apply andb_false_iff.
  rewrite !Nat.leb_gt.
  assert (∀ j, j = i → match sdrop j s with String a _ => byte_nat a | EmptyString => 0%nat end = byte_nat a) as Hj.
  { intros j ->. by rewrite Ha. }
  pose proof (Hj 0%nat) as H0. pose proof (Hj 1%nat) as H1. pose proof (Hj 2%nat) as H2. clear Hj Ha.
  generalize dependent (match sdrop 0 s with String a _ => byte_nat a | EmptyString => 0%nat end). intros b0.
  generalize dependent (match sdrop 1 s with String a _ => byte_nat a | EmptyString => 0%nat end). intros b1.
  generalize dependent (match sdrop 2 s with String a _ => byte_nat a | EmptyString => 0%nat end). intros b2.
  intros H2 H1. repeat case_bool_decide; lia.
Qed.

Lemma space_end_spec s : space_end s = 0%nat ∨
  (1 ≤ space_end s ≤ String.length s)%nat ∧ space_width (sdrop (String.length s - space_end s) s) = space_end s.
Proof.
  unfold space_end. repeat case_match; rewrite ?andb_true_iff, ?Nat.leb_le, ?Nat.eqb_eq in *; auto; right; (split; [lia|tauto]).
Qed.

Lemma sdrop_plain p q i : (i < String.length p)%nat → sforallb plain p = true →
  ∃ a r, sdrop i (p +:+ q) = String a r ∧ plain a = true.
Proof.
  revert i. induction p as [|a p IH]; intros i Hi; simpl in Hi; [lia|]. cbn [sforallb]. intros [Ha Hp]%andb_prop.
  destruct i as [|i]; [by eexists _, _|]. apply IH; [lia|done].
Qed.

Lemma sdrop_sdrop i j s : sdrop i (sdrop j s) = sdrop (j + i) s.
Proof. revert s. induction j as [|j IH]; intros s; [done|]. destruct s; simpl; [by destruct i|apply IH]. Qed.

(** White space at the end of a text stays clear of the printable bytes it starts with *)
Lemma space_end_prefix p q : sforallb plain p = true → (space_end (p +:+ q) ≤ String.length q)%nat.
Proof.
  intros Hp. destruct (space_end_spec (p +:+ q)) as [->|[Hk Hw]]; [lia|]. rewrite slength_app in *.
  set (k := space_end (p +:+ q)) in *. destruct (decide (k ≤ String.length q)%nat) as [|Hgt]; [done|]. exfalso.
  destruct (sdrop_plain p q (String.length p - 1)) as (a & r & Ha & Hpa); [lia|done|].
  assert (plain a = false); [|congruence].
  apply (space_width_bytes (sdrop (String.length p + String.length q - k) (p +:+ q)) (k - String.length q - 1) a r); [lia|].
  rewrite sdrop_sdrop. by replace (String.length p + String.length q - k + (k - String.length q - 1))%nat with (String.length p - 1)%nat by lia.
Qed.

Lemma stake_app_ge p q n : stake (String.length p + n) (p +:+ q) = p +:+ stake n q.
Proof. induction p as [|a p IH]; simpl; [done|by rewrite IH]. Qed.

Lemma trim_right_prefix fuel p q : sforallb plain p = true → ∃ q', trim_right_go fuel (p +:+ q) = p +:+ q'.
Proof.
  intros Hp. revert q. induction fuel as [|fuel IH]; intros q; [by exists q|]. cbn [trim_right_go].
  pose proof (space_end_prefix p q Hp) as Hk. destruct (space_end (p +:+ q)) as [|k]; [by exists q|].
  rewrite slength_app. replace (String.length p + String.length q - S k)%nat with (String.length p + (String.length q - S k))%nat by lia.
  rewrite stake_app_ge. apply IH.
Qed.

Lemma TrimSpace_prefix p q : p ≠ "" → sforallb plain p = true → ∃ q', TrimSpace (p +:+ q) = p +:+ q'.
Proof.
  intros Hne Hp. unfold TrimSpace. destruct p as [|a p]; [done|].
  assert (trim_left_go 0 (String a p +:+ q) = String a p +:+ q) as ->.
  { change (String a p +:+ q) with (String a (p +:+ q)). cbn [trim_left_go]. cbn [sforallb] in Hp.
    apply andb_prop in Hp as [Ha _]. by rewrite space_width_plain. }
  by apply trim_right_prefix.
Qed.

Lemma TrimSpace_plain p : sforallb plain p = true → TrimSpace p = p.
Proof.
  intros Hp. destruct p as [|a p]; [done|]. unfold TrimSpace.
  assert (trim_left_go 0 (String a p) = String a p) as ->.
  { cbn [trim_left_go]. cbn [sforallb] in Hp. apply andb_prop in Hp as [Ha _]. by rewrite space_width_plain. }
  pose proof (space_end_prefix (String a p) "" Hp) as Hk. rewrite sapp_nil_r in Hk. simpl in Hk.
  destruct (String.length (String a p)); [done|]. cbn [trim_right_go]. by replace (space_end (String a p)) with 0%nat by lia.
Qed.
