(* ===== verification/Merge.v ===== *)
(** * Three-way merge of source texts: [internal/sourceconfig/merge.go]

    Local edits of an upstream file are kept while independent incoming edits are adopted.  The edits
    of each side are read from the hunk headers of a zero-context [git diff], whose output is an
    argument of the model ([None] when git fails); writing its temporary input files is not modelled.  Texts are byte strings; line numbers are Go
    [int]s; a slice expression out of range is [ErrPanic]. *)

From S2P Require Import Prelude GoStrings Utf8 Spaces Paths RunLogs ShellQuote SourceConfig.
Open Scope Z_scope.

Inductive merge_error :=
| ErrSizeLimit | ErrUnsupportedText | ErrLineLimit | ErrDiff | ErrDiffInvalid | ErrHunkLimit | ErrMergeTooLarge
| ErrPanic.

(** ** [strconv.Atoi] *)

Definition digits (s : string) : option Z :=
  if bool_decide (s ≠ "") && sforallb digit s then Some (dec_go 0 s) else None.

(** [strconv.Atoi]: an optional sign, decimal digits, within [int64] *)
Definition Atoi (s : string) : option Z :=
  v ← match s with
      | String "+" r => digits r
      | String "-" r => Z.opp <$> digits r
      | _ => digits s
      end;
  if bool_decide (- 2 ^ 63 ≤ v ≤ max_int64) then Some v else None.

(** ** Hunks *)

Record sourceTextEdit := mkTextEdit { t_start : Z; t_end : Z; t_lines : list string }.

Definition sourceTextLines (data : string) : list string :=
  let lines := split_after newline data in
  if bool_decide (last lines = Some "") then take (length lines - 1) lines else lines.

Definition sourceTextRange (token : string) : result merge_error (Z * Z) :=
  let '(first, countText, counted) := cut "," (sdrop 1 token) in
  match Atoi first with
  | Some start =>
      if start <? 0 then Err ErrDiffInvalid
      else
        count ← (if counted : bool then
                   match Atoi countText with
                   | Some count => if count <? 0 then Err ErrDiffInvalid else Ok count
                   | None => Err ErrDiffInvalid
                   end
                 else Ok 1);
        let start := if bool_decide (count = 0) then start else start - 1 in
        if start <? 0 then Err ErrDiffInvalid else Ok (start, count)
  | None => Err ErrDiffInvalid
  end.

(** [lines[i:j]] *)
Definition lslice (lines : list string) (i j : Z) : list string := take (Z.to_nat (j - i)) (drop (Z.to_nat i) lines).

Definition hunk_edits (lines : list string) (start count next size : Z) : list sourceTextEdit :=
  if bool_decide (count = size) then
    (λ i : nat, mkTextEdit (wrap64 (start + Z.of_nat i)) (wrap64 (start + Z.of_nat i + 1))
                  (lslice lines (next + Z.of_nat i) (next + Z.of_nat i + 1))) <$> seq 0 (Z.to_nat count)
  else [mkTextEdit start (wrap64 (start + count)) (lslice lines next (next + size))].

(** One header line of the patch *)
Definition hunk_line (lines : list string) (line : string) : result merge_error (list sourceTextEdit) :=
  match Fields line with
  | _ :: old :: new :: _ :: _ =>
      '(start, count) ← sourceTextRange old;
      match sourceTextRange new with
      | Ok (next, size) =>
          if (Z.of_nat (length lines) <? next) || (Z.of_nat (length lines) - next <? size)
          then Err ErrDiffInvalid
          else Ok (hunk_edits lines start count next size)
      | Err _ => Err ErrDiffInvalid
      end
  | _ => Err ErrDiffInvalid
  end.

Fixpoint patch_lines (lines : list string) (edits : list sourceTextEdit) (patch : list string)
    : result merge_error (list sourceTextEdit) :=
  match patch with
  | [] => Ok edits
  | line :: patch =>
      if negb (has_prefix "@@ " line) then patch_lines lines edits patch
      else
        more ← hunk_line lines line;
        let edits := edits ++ more in
        if 4096 <? Z.of_nat (length edits) then Err ErrHunkLimit else patch_lines lines edits patch
  end.

Section merge.

(** The output of [git diff --unified=0 ... original other] *)
Context (git_diff : string → string → option string).

Definition sourceTextEdits (original content : string) : result merge_error (list sourceTextEdit) :=
  let lines := sourceTextLines content in
  if 65536 <? Z.of_nat (length lines) then Err ErrLineLimit
  else match git_diff original content with
       | None => Err ErrDiff
       | Some patch => patch_lines lines [] (split_byte newline patch)
       end.

(** ** The merge *)

Definition overlap (local candidate : sourceTextEdit) : bool :=
  ((t_start local <? t_end candidate) && (t_start candidate <? t_end local))
  || (bool_decide (t_start local = t_end local) && bool_decide (t_start candidate = t_end candidate)
      && bool_decide (t_start local = t_start candidate))
  || (bool_decide (t_start local = t_end local) && (t_start candidate <? t_start local)
      && (t_start local <? t_end candidate))
  || (bool_decide (t_start candidate = t_end candidate) && (t_start local <? t_start candidate)
      && (t_start candidate <? t_end local)).

(** The inner loop, with its early break *)
Fixpoint overlaps (locals : list sourceTextEdit) (candidate : sourceTextEdit) : bool :=
  match locals with
  | [] => false
  | local :: locals =>
      if t_end candidate <? t_start local then false
      else overlap local candidate || overlaps locals candidate
  end.

Definition adopt (locals incoming : list sourceTextEdit) : list sourceTextEdit :=
  locals ++ filter (λ candidate, overlaps locals candidate = false) incoming.

Definition edit_le (a b : sourceTextEdit) : Prop :=
  t_start a < t_start b ∨ t_start a = t_start b ∧ t_end a ≤ t_end b.

#[export] Instance edit_le_dec a b : Decision (edit_le a b).
Proof. unfold edit_le. apply _. Defined.

Definition too_large (s : string) : bool := MaxSourceBytes <? Z.of_nat (String.length s).

Fixpoint write_edits (lines : list string) (position : Z) (buf : string) (edits : list sourceTextEdit)
    : result merge_error string :=
  match edits with
  | [] =>
      if (position <? 0) || (Z.of_nat (length lines) <? position) then Err ErrPanic
      else
        let buf := buf +:+ sconcat (lslice lines position (Z.of_nat (length lines))) in
        if too_large buf then Err ErrMergeTooLarge else Ok buf
  | e :: edits =>
      if (t_start e <? position) || (Z.of_nat (length lines) <? t_end e) then Err ErrDiffInvalid
      else if (position <? 0) || (Z.of_nat (length lines) <? t_start e) then Err ErrPanic
      else
        let buf := buf +:+ sconcat (lslice lines position (t_start e)) +:+ sconcat (t_lines e) in
        if too_large buf then Err ErrMergeTooLarge else write_edits lines (t_end e) buf edits
  end.

Definition count_byte (c : ascii) (s : string) : nat := length (split_byte c s) - 1.

Fixpoint check_texts (texts : list string) : result merge_error unit :=
  match texts with
  | [] => Ok tt
  | data :: texts =>
      if contains_byte nul data || negb (valid_string data) then Err ErrUnsupportedText
      else if 65536 <? Z.of_nat (count_byte newline data) then Err ErrLineLimit
      else check_texts texts
  end.

Definition MergeLocalChanges (original local incoming : string) : result merge_error string :=
  if existsb too_large [original; local; incoming] then Err ErrSizeLimit
  else if bool_decide (original = local) || bool_decide (local = incoming) then Ok incoming
  else if bool_decide (original = incoming) then Ok local
  else
    _ ← check_texts [original; local; incoming];
    localEdits ← sourceTextEdits original local;
    incomingEdits ← sourceTextEdits original incoming;
    write_edits (sourceTextLines original) 0 "" (merge_sort edit_le (adopt localEdits incomingEdits)).

End merge.

(** ** What git prints *)

(** A hunk: [h_count] old lines at [h_start] become [h_size] new lines at [h_next] (from 0) *)
Record hunk := mkHunk {
  h_start : nat;
  h_count : nat;
  h_next : nat;
  h_size : nat;
  h_context : string;
  h_body : list string;
}.

(** A range of the unified format: the line before it when it is empty, its first line otherwise *)
Definition print_range (start count : nat) : string :=
  itoa (Z.of_nat (if decide (count = 0) then start else S start)%nat)
  +:+ (if decide (count = 1)%nat then "" else String "," (itoa (Z.of_nat count))).

Definition print_header (h : hunk) : string :=
  "@@ " +:+ String "-" (print_range (h_start h) (h_count h)) +:+ " "
  +:+ String "+" (print_range (h_next h) (h_size h)) +:+ " " +:+ ("@@" +:+ h_context h).

(** [hs] turns the lines [o], the file from line [p], into [n], the other from line [q]; hunks are
    separated by common lines *)
Fixpoint diff_at (first : bool) (o n : list string) (p q : nat) (hs : list hunk) : Prop :=
  match hs with
  | [] => o = n
  | h :: hs =>
      ∃ same del ins o' n', o = same ++ del ++ o' ∧ n = same ++ ins ++ n' ∧ (first = false → same ≠ []) ∧
        h_start h = (p + length same)%nat ∧ h_count h = length del ∧
        h_next h = (q + length same)%nat ∧ h_size h = length ins ∧ (del ≠ [] ∨ ins ≠ []) ∧
        diff_at false o' n' (h_start h + h_count h) (h_next h + h_size h) hs
  end.

Definition hunk_result (lines : list string) (h : hunk) : list sourceTextEdit :=
  hunk_edits lines (Z.of_nat (h_start h)) (Z.of_nat (h_count h)) (Z.of_nat (h_next h)) (Z.of_nat (h_size h)).

(** A zero-context patch from [original] to [content] within the limits of the code: lines that are
    no hunk header, and the headers of the hunks *)
Definition unified_patch (original content patch : string) (hs : list hunk) : Prop :=
  (∃ preamble, split_byte newline patch = preamble ++ flat_map (λ h, print_header h :: h_body h) hs ∧
     Forall (λ l, has_prefix "@@ " l = false) preamble ∧
     Forall (λ h, Forall (λ l, has_prefix "@@ " l = false) (h_body h)) hs) ∧
  diff_at true (sourceTextLines original) (sourceTextLines content) 0 0 hs ∧
  Z.of_nat (length (sourceTextLines original)) ≤ 65537 ∧ Z.of_nat (length (sourceTextLines content)) ≤ 65536 ∧
  Z.of_nat (length (flat_map (hunk_result (sourceTextLines content)) hs)) ≤ 4096.

(** ** Reading a header back *)

Lemma digit_plain s : sforallb digit s = true → sforallb plain s = true.
Proof.
  induction s as [|a s IH]; [done|]. cbn [sforallb]. intros [Ha Hs]%andb_prop. rewrite IH by done.
  rewrite andb_true_r. unfold digit, plain, byte_in in *. apply andb_prop in Ha as [?%Nat.leb_le ?%Nat.leb_le].
  apply andb_true_intro. split; apply Nat.leb_le; lia.
Qed.

Lemma print_range_plain start count : sforallb plain (print_range start count) = true.
Proof.
  unfold print_range. rewrite sforallb_app, digit_plain by apply itoa_digits. case_decide; [done|].
  cbn [sforallb]. by rewrite digit_plain by apply itoa_digits.
Qed.

Lemma Fields_header h :
  ∃ f fs, Fields (print_header h) =
    "@@" :: String "-" (print_range (h_start h) (h_count h)) :: String "+" (print_range (h_next h) (h_size h)) :: f :: fs.
Proof.
  unfold Fields, print_header. change ("@@ " +:+ ?r) with ("@@" +:+ " " +:+ r).
  rewrite !fields_go_word; [|done || (cbn [sforallb]; by rewrite print_range_plain)..].
  rewrite fields_go_plain by done.
  destruct (fields_go_some 0 "@@" (h_context h)) as (f & fs & E); [done|]. exists f, fs. by rewrite <- E.
Qed.

Lemma itoa_nonempty n : 0 ≤ n ≤ max_int64 → itoa n ≠ "".
Proof.
  intros Hn E. pose proof (itoa_spec n Hn) as H. rewrite E in H. simpl in H. subst. done.
Qed.

Lemma Atoi_itoa n : 0 ≤ n ≤ max_int64 → Atoi (itoa n) = Some n.
Proof.
  intros Hn. pose proof (itoa_nonempty n Hn) as Hne. pose proof (itoa_digits n) as Hd.
  assert (digits (itoa n) = Some n) as Hdig.
  { unfold digits. rewrite bool_decide_eq_true_2, Hd, itoa_spec by done. done. }
  unfold Atoi. destruct (itoa n) as [|a r] eqn:E; [done|].
  assert (a ≠ "+"%char ∧ a ≠ "-"%char) as [H1 H2].
  { cbn [sforallb] in Hd. apply andb_prop in Hd as [Ha _]. split; intros ->; done. }
  assert (match String a r with
          | String "+" r => digits r | String "-" r => Z.opp <$> digits r | _ => digits (String a r) end = Some n) as ->.
  { rewrite <- Hdig. destruct a as [[] [] [] [] [] [] [] []]; done. }
  cbn. unfold max_int64 in *. rewrite bool_decide_eq_true_2 by lia. done.
Qed.

Lemma sourceTextRange_print sign start count :
  Z.of_nat start < 2 ^ 62 → Z.of_nat count < 2 ^ 62 →
  sourceTextRange (String sign (print_range start count)) = Ok (Z.of_nat start, Z.of_nat count).
Proof.
  intros Hs Hc. unfold sourceTextRange, print_range. cbn [sdrop].
  set (first := itoa (Z.of_nat (if decide (count = 0)%nat then start else S start))).
  assert (Atoi first = Some (Z.of_nat (if decide (count = 0)%nat then start else S start))) as Hf.
  { apply Atoi_itoa. unfold max_int64. case_decide; lia. }
  assert (contains_byte "," first = false) as Hn by by apply no_byte_digits.
  destruct (decide (count = 1)%nat) as [->|H1].
  - rewrite sapp_nil_r, (proj2 (cut_false _ _ _ _)) by done. rewrite Hf, decide_False by done.
    cbn [mbind result_bind]. rewrite bool_decide_eq_false_2, !(proj2 (Z.ltb_ge _ 0)) by lia. f_equal. f_equal; lia.
  - rewrite cut_app by done. rewrite Hf.
    rewrite Atoi_itoa by (unfold max_int64; lia). cbn [mbind result_bind].
    rewrite !(proj2 (Z.ltb_ge _ 0)) by lia. cbn [mbind result_bind].
    destruct (decide (count = 0)%nat) as [->|].
    + rewrite bool_decide_eq_true_2, (proj2 (Z.ltb_ge _ 0)) by lia. done.
    + rewrite bool_decide_eq_false_2, !(proj2 (Z.ltb_ge _ 0)) by lia. f_equal. f_equal. lia.
Qed.

(** A hunk within the bounds of the two texts *)
Definition hunk_in (len_o len_n : nat) (h : hunk) : Prop :=
  (h_start h + h_count h ≤ len_o)%nat ∧ (h_next h + h_size h ≤ len_n)%nat.

Lemma hunk_line_print len_o lines h :
  hunk_in len_o (length lines) h → Z.of_nat len_o < 2 ^ 62 → Z.of_nat (length lines) < 2 ^ 62 →
  hunk_line lines (print_header h) = Ok (hunk_result lines h).
Proof.
  intros [H1 H2] Ho Hn. unfold hunk_line. destruct (Fields_header h) as (f & fs & ->).
  rewrite !sourceTextRange_print by lia. cbn [mbind result_bind].
  rewrite !(proj2 (Z.ltb_ge _ _)) by lia. done.
Qed.

Lemma patch_lines_skip lines edits pre rest :
  Forall (λ l, has_prefix "@@ " l = false) pre → patch_lines lines edits (pre ++ rest) = patch_lines lines edits rest.
Proof. induction 1 as [|l pre Hl _ IH]; [done|]. cbn [app patch_lines]. by rewrite Hl. Qed.

Lemma patch_lines_hunks len_o lines edits hs :
  Forall (hunk_in len_o (length lines)) hs → Z.of_nat len_o < 2 ^ 62 → Z.of_nat (length lines) < 2 ^ 62 →
  Forall (λ h, Forall (λ l, has_prefix "@@ " l = false) (h_body h)) hs →
  Z.of_nat (length (edits ++ flat_map (hunk_result lines) hs)) ≤ 4096 →
  patch_lines lines edits (flat_map (λ h, print_header h :: h_body h) hs) =
    Ok (edits ++ flat_map (hunk_result lines) hs).
Proof.
  intros Hin Ho Hn Hb. revert edits. induction hs as [|h hs IH]; intros edits Hl; simpl.
  - by rewrite app_nil_r.
  - inversion_clear Hin. inversion_clear Hb. cbn [flat_map] in *.
    rewrite (hunk_line_print len_o) by done. cbn [mbind result_bind].
    rewrite app_assoc in Hl |- *.
    assert (Z.of_nat (length (edits ++ hunk_result lines h)) ≤ 4096) as Hl'.
    { rewrite length_app in Hl. lia. }
    rewrite (proj2 (Z.ltb_ge _ _)) by done. rewrite patch_lines_skip by done. by apply IH.
Qed.

Lemma diff_at_in first o n p q hs :
  diff_at first o n p q hs → Forall (hunk_in (p + length o) (q + length n)) hs.
Proof.
  revert first o n p q. induction hs as [|h hs IH]; intros first o n p q; [constructor|].
  intros (same & del & ins & o' & n' & -> & -> & _ & Hs & Hc & Hn & Hz & _ & Hr). constructor.
  - unfold hunk_in. rewrite !length_app. lia.
  - apply IH in Hr. eapply Forall_impl; [exact Hr|]. intros x. unfold hunk_in. rewrite !length_app. lia.
Qed.

(** Reading back what git prints: on a zero-context unified patch within its limits,
    [sourceTextEdits] returns the edits of exactly the hunks, in order. *)
Lemma sourceTextEdits_patch git_diff original content patch hs :
  git_diff original content = Some patch → unified_patch original content patch hs →
  sourceTextEdits git_diff original content = Ok (flat_map (hunk_result (sourceTextLines content)) hs).
Proof.
  intros Hg [(pre & Hp & Hpre & Hbody) (Hd & Ho & Hn & Hl)]. unfold sourceTextEdits.
  rewrite (proj2 (Z.ltb_ge _ _)), Hg, Hp, patch_lines_skip by done.
  rewrite (patch_lines_hunks (length (sourceTextLines original))); [done| |lia|lia|done|done].
  by apply diff_at_in in Hd.
Qed.

(** ** Edit lists *)

Definition edit_in (len : Z) (e : sourceTextEdit) : Prop := 0 ≤ t_start e ≤ t_end e ∧ t_end e ≤ len.

(** [a] lies before [b]; they are not two insertions at one place *)
Definition apart (a b : sourceTextEdit) : Prop := t_end a ≤ t_start b ∧ t_start a < t_end b.

(** Ordered, disjoint edits of a text of [len] lines *)
Definition proper (len : Z) (es : list sourceTextEdit) : Prop := Forall (edit_in len) es ∧ StronglySorted apart es.

(** The text with its edits, from line [pos] *)
Fixpoint written (lines : list string) (pos : Z) (es : list sourceTextEdit) : string :=
  match es with
  | [] => sconcat (lslice lines pos (Z.of_nat (length lines)))
  | e :: es => sconcat (lslice lines pos (t_start e)) +:+ sconcat (t_lines e) +:+ written lines (t_end e) es
  end.

Definition end_of (pos : Z) (es : list sourceTextEdit) : Prop :=
  match es with [] => True | e :: _ => pos ≤ t_start e end.

Lemma too_large_app a b : too_large a = true → too_large (a +:+ b) = true.
Proof. unfold too_large. rewrite slength_app, !Z.ltb_lt. lia. Qed.

Lemma write_edits_proper lines pos buf es :
  0 ≤ pos ≤ Z.of_nat (length lines) → proper (Z.of_nat (length lines)) es → end_of pos es →
  write_edits lines pos buf es =
    (let out := buf +:+ written lines pos es in if too_large out then Err ErrMergeTooLarge else Ok out).
Proof.
  revert pos buf. induction es as [|e es IH]; intros pos buf Hpos [Hin Hs] He; cbn [write_edits written].
  - by rewrite !(proj2 (Z.ltb_ge _ _)) by lia.
  - inversion_clear Hin as [|? ? He' Hin']. inversion_clear Hs as [|? ? Hs' Hall]. simpl in He.
    destruct He' as [? ?]. rewrite !(proj2 (Z.ltb_ge _ _)) by lia. cbn [orb].
    cbn zeta. set (out := buf +:+ sconcat _ +:+ sconcat _). destruct (too_large out) eqn:Et.
    + apply (too_large_app _ (written lines (t_end e) es)) in Et. subst out. rewrite !sapp_assoc in Et. by rewrite Et.
    + rewrite IH; [subst out; by rewrite !sapp_assoc|lia|done|].
      destruct es as [|e' es]; [done|]. inversion_clear Hall as [|? ? [? ?]]. done.
Qed.

Lemma overlap_spec a b :
  overlap a b = true ↔
  (t_start a < t_end b ∧ t_start b < t_end a) ∨
  (t_start a = t_end a ∧ t_start b = t_end b ∧ t_start a = t_start b) ∨
  (t_start a = t_end a ∧ t_start b < t_start a ∧ t_start a < t_end b) ∨
  (t_start b = t_end b ∧ t_start a < t_start b ∧ t_start b < t_end a).
Proof.
  unfold overlap. rewrite !orb_true_iff, !andb_true_iff, !bool_decide_eq_true, !Z.ltb_lt. tauto.
Qed.

Lemma overlap_false a b : overlap a b = false ↔ ¬ (overlap a b = true).
Proof. by rewrite not_true_iff_false. Qed.

Lemma overlap_sym a b : overlap a b = overlap b a.
Proof. apply eq_bool_prop_intro. rewrite !Is_true_true, !overlap_spec. lia. Qed.

Lemma apart_overlap len a b : edit_in len a → edit_in len b → apart a b → overlap a b = false.
Proof. unfold edit_in, apart. intros. rewrite overlap_false, overlap_spec. lia. Qed.

Lemma edit_le_apart len a b : edit_in len a → edit_in len b → edit_le a b → overlap a b = false → apart a b.
Proof. unfold edit_in, edit_le, apart. rewrite overlap_false, overlap_spec. lia. Qed.

(** The early break of the inner loop loses nothing *)
Lemma overlaps_spec len locals c :
  Forall (edit_in len) locals → StronglySorted apart locals → edit_in len c →
  overlaps locals c = false ↔ Forall (λ l, overlap l c = false) locals.
Proof.
  intros Hin Hs Hc. induction Hs as [|l ls Hs IH Hall]; simpl; [done|]. inversion_clear Hin as [|? ? Hl Hls].
  rewrite Forall_cons. destruct (Z.ltb_spec (t_end c) (t_start l)) as [Hlt|Hge].
  - split; [intros _|done]. assert (∀ x, t_start l ≤ t_start x → overlap x c = false) as Hx.
    { intros x Hx. rewrite overlap_false, overlap_spec. destruct Hc. lia. }
    split; [by apply Hx|]. apply Forall_forall. intros x Hxin. apply Hx.
    rewrite Forall_forall in Hall. destruct (Hall x Hxin). destruct Hl. lia.
  - rewrite orb_false_iff, IH by done. done.
Qed.

(** Pairwise, whatever the order *)
Lemma ForallOrdPairs_perm {A} (R : A → A → Prop) xs ys :
  Symmetric R → xs ≡ₚ ys → ForallOrdPairs R xs → ForallOrdPairs R ys.
Proof.
  intros Hsym. induction 1 as [|x xs ys Hp IH|x y xs|]; [done| | |auto].
  - inversion_clear 1. constructor; [by rewrite <- Hp|auto].
  - intros H. inversion_clear H as [|? ? Hy Hxs]. inversion_clear Hxs as [|? ? Hx Hrest].
    inversion_clear Hy. repeat constructor; auto.
Qed.

Definition independent (a b : sourceTextEdit) : Prop := overlap a b = false.

#[export] Instance independent_sym : Symmetric independent.
Proof. intros a b. unfold independent. by rewrite overlap_sym. Qed.

Lemma proper_independent len es : proper len es → ForallOrdPairs independent es.
Proof.
  intros [Hin Hs]. induction Hs as [|e es Hs IH Hall]; [constructor|]. inversion_clear Hin as [|? ? He Hes].
  constructor; [|auto]. rewrite Forall_forall in *. intros x Hx. eapply apart_overlap; eauto.
Qed.

Lemma sorted_proper len es :
  Forall (edit_in len) es → ForallOrdPairs independent es → StronglySorted edit_le es → proper len es.
Proof.
  intros Hin Hi Hs. split; [done|]. induction Hs as [|e es Hs IH Hall]; [constructor|].
  inversion_clear Hin as [|? ? He Hes]. inversion_clear Hi as [|? ? Hie Hies]. constructor; [auto|].
  rewrite Forall_forall in *. intros x Hx. eapply edit_le_apart; [eauto..|]. by apply Hie.
Qed.

#[export] Instance edit_le_total : Total edit_le.
Proof. intros a b. unfold edit_le. lia. Qed.
#[export] Instance edit_le_trans : Transitive edit_le.
Proof. intros a b c. unfold edit_le. lia. Qed.

Lemma merge_sort_proper len es :
  Forall (edit_in len) es → ForallOrdPairs independent es → proper len (merge_sort edit_le es).
Proof.
  intros Hin Hi. apply sorted_proper.
  - by rewrite merge_sort_Permutation.
  - eapply ForallOrdPairs_perm; [apply _| |exact Hi]. by rewrite merge_sort_Permutation.
  - apply StronglySorted_merge_sort; apply _.
Qed.

Lemma adopt_independent len locals incoming :
  proper len locals → proper len incoming →
  Forall (edit_in len) (adopt locals incoming) ∧ ForallOrdPairs independent (adopt locals incoming).
Proof.
  intros Hl [Hi Hs]. pose proof (proper_independent _ _ Hl) as Hli. destruct Hl as [Hl Hls]. unfold adopt.
  set (kept := filter _ incoming).
  assert (Forall (edit_in len) kept) as Hk.
  { rewrite Forall_forall in *. intros x [_ Hx]%list_elem_of_filter. by apply Hi. }
  assert (ForallOrdPairs independent kept) as Hki.
  { apply (proper_independent len). split; [done|]. subst kept. clear Hk Hi.
    induction Hs as [|c cs Hs IH Hall]; [constructor|]. rewrite filter_cons. case_decide; [|done].
    constructor; [done|]. rewrite Forall_forall in *. intros x [_ Hx]%list_elem_of_filter. by apply Hall. }
  split; [by apply Forall_app|].
  assert (Forall (λ l, Forall (independent l) kept) locals) as Hx.
  { apply Forall_forall. intros l Hlin. apply Forall_forall. intros c [Hc Hcin]%list_elem_of_filter.
    apply (overlaps_spec len) in Hc; [|done..|by eapply Forall_forall in Hi]. by eapply Forall_forall in Hc. }
  clearbody kept. clear Hls. induction locals as [|l ls IH]; [done|]. simpl. inversion_clear Hli. inversion_clear Hl. inversion_clear Hx.
  constructor; [by apply Forall_app|by apply IH].
Qed.

(** ** The edits of a patch *)

(** An equal-size replacement, line by line *)
Fixpoint singles (news : list string) (start next k : nat) : list sourceTextEdit :=
  match k with
  | O => []
  | S k => mkTextEdit (Z.of_nat start) (Z.of_nat start + 1) (lslice news (Z.of_nat next) (Z.of_nat next + 1))
           :: singles news (S start) (S next) k
  end.

Lemma hunk_edits_equal news start next k :
  Z.of_nat (start + k) < 2 ^ 62 →
  hunk_edits news (Z.of_nat start) (Z.of_nat k) (Z.of_nat next) (Z.of_nat k) = singles news start next k.
Proof.
  intros Hb. unfold hunk_edits. rewrite bool_decide_eq_true_2, Nat2Z.id by done.
  revert start next Hb. induction k as [|k IH]; intros start next Hb; [done|].
  cbn [seq singles]. rewrite fmap_cons, <- IH by lia. f_equal.
  - rewrite !wrap64_id by (unfold in_int64, max_int64; lia). f_equal; [lia|lia|f_equal; lia].
  - rewrite <- fmap_S_seq, <- list_fmap_compose. apply list_fmap_ext. intros i x _. unfold Basics.compose.
    replace (Z.of_nat start + Z.of_nat (S x)) with (Z.of_nat (S start) + Z.of_nat x) by lia.
    by replace (Z.of_nat next + Z.of_nat (S x)) with (Z.of_nat (S next) + Z.of_nat x) by lia.
Qed.

Lemma hunk_edits_unequal news start count next size :
  count ≠ size → Z.of_nat (start + count) < 2 ^ 62 →
  hunk_edits news (Z.of_nat start) (Z.of_nat count) (Z.of_nat next) (Z.of_nat size) =
    [mkTextEdit (Z.of_nat start) (Z.of_nat (start + count)) (lslice news (Z.of_nat next) (Z.of_nat next + Z.of_nat size))].
Proof.
  intros Hne Hb. unfold hunk_edits. rewrite bool_decide_eq_false_2 by lia.
  rewrite wrap64_id by (unfold in_int64, max_int64; lia). by rewrite Nat2Z.inj_add.
Qed.

(** The edits of a hunk lie in its range, in order *)
Lemma hunk_result_range news h :
  Z.of_nat (h_start h + h_count h) < 2 ^ 62 → (h_count h ≠ 0 ∨ h_size h ≠ 0)%nat →
  Forall (λ e, Z.of_nat (h_start h) ≤ t_start e ≤ t_end e ∧ t_end e ≤ Z.of_nat (h_start h + h_count h)) (hunk_result news h) ∧
  StronglySorted apart (hunk_result news h).
Proof.
  intros Hb Hz. unfold hunk_result. destruct (decide (h_count h = h_size h)) as [E|E].
  - rewrite <- E, hunk_edits_equal by done. clear. generalize (h_next h) as next.
    generalize (h_start h) as start, (h_count h) as k. intros start k. revert start.
    induction k as [|k IH]; intros start next; [by repeat constructor|].
    destruct (IH (S start) (S next)) as [Hf Hs]. cbn [singles]. split; constructor; simpl; try lia.
    + eapply Forall_impl; [exact Hf|]. simpl. intros e ?. lia.
    + done.
    + eapply Forall_impl; [exact Hf|]. unfold apart. simpl. intros e ?. lia.
  - rewrite hunk_edits_unequal by done. split; repeat constructor; simpl; lia.
Qed.

Lemma lslice_cut lines i j k :
  0 ≤ i ≤ j → j ≤ k → sconcat (lslice lines i k) = sconcat (lslice lines i j) +:+ sconcat (lslice lines j k).
Proof.
  intros Hij Hjk. rewrite <- sconcat_app. f_equal. unfold lslice.
  replace (Z.to_nat (k - i)) with (Z.to_nat (j - i) + Z.to_nat (k - j))%nat by lia.
  rewrite <- take_take_drop, drop_drop. do 3 f_equal. lia.
Qed.

Lemma lslice_nil lines i : lslice lines i i = [].
Proof. unfold lslice. by rewrite Z.sub_diag. Qed.

Lemma written_cut lines i j es :
  0 ≤ i ≤ j → j ≤ Z.of_nat (length lines) → end_of j es →
  written lines i es = sconcat (lslice lines i j) +:+ written lines j es.
Proof.
  intros Hij Hj He. destruct es as [|e es]; simpl in *; [by apply lslice_cut|].
  by rewrite (lslice_cut lines i j), sapp_assoc.
Qed.

(** ... and write its new lines *)
Lemma hunk_result_written olds news h es :
  Z.of_nat (h_start h + h_count h) < 2 ^ 62 → (h_count h ≠ 0 ∨ h_size h ≠ 0)%nat →
  written olds (Z.of_nat (h_start h)) (hunk_result news h ++ es) =
    sconcat (lslice news (Z.of_nat (h_next h)) (Z.of_nat (h_next h + h_size h)))
    +:+ written olds (Z.of_nat (h_start h + h_count h)) es.
Proof.
  intros Hb Hz. unfold hunk_result. destruct (decide (h_count h = h_size h)) as [E|E].
  - rewrite <- E, hunk_edits_equal by done. clear. generalize (h_next h) as next.
    generalize (h_start h) as start, (h_count h) as k. intros start k. revert start.
    induction k as [|k IH]; intros start next.
    + rewrite !Nat.add_0_r, lslice_nil. done.
    + cbn [singles app written]. cbn [t_start t_end t_lines]. rewrite lslice_nil. cbn [sconcat].
      change ("" +:+ ?x) with x. rewrite (lslice_cut news (Z.of_nat next) (Z.of_nat next + 1) (Z.of_nat (next + S k))), sapp_assoc by lia. f_equal.
      replace (Z.of_nat start + 1) with (Z.of_nat (S start)) by lia. rewrite IH. f_equal; [|f_equal; lia].
      f_equal. f_equal; lia.
  - rewrite hunk_edits_unequal by done. cbn [app written t_start t_end t_lines]. rewrite lslice_nil. cbn [sconcat].
    by rewrite <- Nat2Z.inj_add.
Qed.

Lemma lslice_app_r pre l i j :
  0 ≤ i ≤ j → lslice (pre ++ l) (Z.of_nat (length pre) + i) (Z.of_nat (length pre) + j) = lslice l i j.
Proof.
  intros Hij. unfold lslice. replace (Z.to_nat (Z.of_nat (length pre) + i)) with (length pre + Z.to_nat i)%nat by lia.
  rewrite drop_app_add. f_equal. lia.
Qed.

Lemma lslice_prefix pre a b :
  lslice (pre ++ a ++ b) (Z.of_nat (length pre)) (Z.of_nat (length pre + length a)) = a.
Proof.
  rewrite <- (Z.add_0_r (Z.of_nat (length pre))), Nat2Z.inj_add, lslice_app_r by lia. unfold lslice.
  by rewrite Z.sub_0_r, Nat2Z.id, Z2Nat.inj_0, drop_0, take_app_length.
Qed.

(** The edits read from a patch are ordered and disjoint, and applied to the old text give the new *)
Lemma diff_at_edits first olds news op nq o n hs :
  olds = op ++ o → news = nq ++ n → Z.of_nat (length olds) < 2 ^ 62 →
  diff_at first o n (length op) (length nq) hs →
  let es := flat_map (hunk_result news) hs in
  Forall (λ e, Z.of_nat (length op) ≤ t_start e ≤ t_end e ∧ t_end e ≤ Z.of_nat (length olds) ∧
               (first = false → Z.of_nat (length op) < t_start e)) es ∧
  StronglySorted apart es ∧ written olds (Z.of_nat (length op)) es = sconcat n.
Proof.
  intros Eo En Hb. revert first op nq o n Eo En. induction hs as [|h hs IH]; intros first op nq o n Eo En.
  - intros ->. split_and!; [constructor|constructor|]. simpl. f_equal.
    pose proof (lslice_prefix op n []) as H. rewrite app_nil_r in H. by rewrite Eo, length_app.
  - intros (same & del & ins & o' & n' & -> & -> & Hf & Hs & Hc & Hn & Hz & Ha & Hr).
    assert (Z.of_nat (h_start h + h_count h) < 2 ^ 62) as Hlt by (rewrite Eo, !length_app in Hb; lia).
    assert (h_count h ≠ 0 ∨ h_size h ≠ 0)%nat as Hnz.
    { rewrite Hc, Hz. destruct Ha as [Ha|Ha]; [left|right]; by intros ?%length_zero_iff_nil. }
    destruct (hunk_result_range news h Hlt Hnz) as [Hrange Hsort].
    destruct (IH false (op ++ same ++ del) (nq ++ same ++ ins) o' n') as (IHr & IHs & IHw).
    { by rewrite Eo, <- !app_assoc. }
    { by rewrite En, <- !app_assoc. }
    { rewrite !length_app, !Nat.add_assoc, <- Hs, <- Hc, <- Hn, <- Hz. done. }
    replace (length (op ++ same ++ del)) with (h_start h + h_count h)%nat in IHr, IHw by (rewrite !length_app; lia).
    cbn [flat_map]. set (es := flat_map (hunk_result news) hs) in *. cbn zeta. split_and!.
    + apply Forall_app. split.
      * eapply Forall_impl; [exact Hrange|]. intros e [? ?]. rewrite Eo, !length_app.
        split_and!; [lia..|]. intros Hff%Hf. destruct same; [done|]. simpl in *. lia.
      * eapply Forall_impl; [exact IHr|]. intros e (? & ? & He). specialize (He eq_refl). split_and!; lia.
    + apply StronglySorted_app. split_and!; [|done|done]. rewrite Forall_forall in Hrange, IHr.
      intros a b Ha' Hb'. destruct (Hrange a Ha') as [? ?], (IHr b Hb') as (? & ? & Hgt).
      specialize (Hgt eq_refl). unfold apart. lia.
    + rewrite (written_cut _ _ (Z.of_nat (h_start h))); [|lia|rewrite Eo, !length_app; lia|].
      * rewrite hunk_result_written, IHw by done. rewrite !sconcat_app. f_equal; [|f_equal].
        -- rewrite Hs, Eo. f_equal. apply lslice_prefix.
        -- rewrite Hn, En, Hz, app_assoc, <- length_app. f_equal. apply lslice_prefix.
      * destruct (hunk_result news h ++ es) as [|e rest] eqn:E; [done|]. simpl.
        assert (e ∈ hunk_result news h ++ es) as [He|He]%elem_of_app by (rewrite E; set_solver).
        -- rewrite Forall_forall in Hrange. destruct (Hrange e He). lia.
        -- rewrite Forall_forall in IHr. destruct (IHr e He). lia.
Qed.

Lemma patch_edits_proper original content patch hs :
  unified_patch original content patch hs →
  let es := flat_map (hunk_result (sourceTextLines content)) hs in
  proper (Z.of_nat (length (sourceTextLines original))) es ∧
  written (sourceTextLines original) 0 es = sconcat (sourceTextLines content).
Proof.
  intros (_ & Hd & Ho & _). apply (diff_at_edits true (sourceTextLines original) (sourceTextLines content) [] []) in Hd as (Hr & Hs & Hw); [|done|done|lia].
  split; [|done]. split; [|done]. eapply Forall_impl; [exact Hr|]. unfold edit_in. simpl. intros e ?. lia.
Qed.

Lemma sconcat_sourceTextLines s : sconcat (sourceTextLines s) = s.
Proof.
  unfold sourceTextLines. pose proof (sconcat_split_after newline s) as H.
  case_bool_decide as E; [|done]. apply last_Some in E as [l E]. rewrite E in *.
  rewrite length_app. simpl. rewrite Nat.add_sub, take_app_length. rewrite sconcat_app in H. simpl in H.
  by rewrite sapp_nil_r in H.
Qed.

(** ** The merge theorems *)

(** The edits a patch stands for *)
Definition patch_edits (content : string) (hs : list hunk) : list sourceTextEdit :=
  flat_map (hunk_result (sourceTextLines content)) hs.

Section merged.
Context (git_diff : string → string → option string) (original local incoming : string).
Context (local_patch incoming_patch : string) (local_hunks incoming_hunks : list hunk).

(** Three different texts the merge accepts, and the patches git prints for the two changes *)
Record mergeable : Prop := {
  mg_size : existsb too_large [original; local; incoming] = false;
  mg_texts : check_texts [original; local; incoming] = Ok tt;
  mg_local : original ≠ local;
  mg_both : local ≠ incoming;
  mg_incoming : original ≠ incoming;
  mg_local_diff : git_diff original local = Some local_patch;
  mg_incoming_diff : git_diff original incoming = Some incoming_patch;
  mg_local_patch : unified_patch original local local_patch local_hunks;
  mg_incoming_patch : unified_patch original incoming incoming_patch incoming_hunks;
}.

Lemma MergeLocalChanges_sorted :
  mergeable →
  let lines := sourceTextLines original in
  let es := merge_sort edit_le (adopt (patch_edits local local_hunks) (patch_edits incoming incoming_hunks)) in
  proper (Z.of_nat (length lines)) es ∧
  MergeLocalChanges git_diff original local incoming =
    (let out := written lines 0 es in if too_large out then Err ErrMergeTooLarge else Ok out).
Proof.
  intros []. destruct (patch_edits_proper _ _ _ _ mg_local_patch0) as [Hl _].
  destruct (patch_edits_proper _ _ _ _ mg_incoming_patch0) as [Hi _].
  destruct (adopt_independent _ _ _ Hl Hi) as [Ha Hind].
  pose proof (merge_sort_proper _ _ Ha Hind) as Hp. split; [done|].
  unfold MergeLocalChanges. rewrite mg_size0, !bool_decide_eq_false_2, mg_texts0 by done. cbn [orb mbind result_bind].
  erewrite !sourceTextEdits_patch by done. cbn [mbind result_bind].
  rewrite write_edits_proper; [done|lia|done|].
  unfold end_of. case_match; [done|]. destruct Hp as [Hp _]. inversion_clear Hp as [|? ? [? ?]]. lia.
Qed.
End merged.

Lemma check_texts_ok texts :
  check_texts texts = Ok tt ↔
  Forall (λ t, contains_byte nul t || negb (valid_string t) = false ∧ Z.of_nat (count_byte newline t) ≤ 65536) texts.
Proof.
  induction texts as [|t texts IH]; simpl; [done|]. rewrite Forall_cons, <- IH.
  destruct (contains_byte nul t || negb (valid_string t)); [naive_solver|].
  destruct (Z.ltb_spec 65536 (Z.of_nat (count_byte newline t))); [|naive_solver].
  split; [done|]. intros [[_ ?] _]. lia.
Qed.

Lemma mergeable_swap git_diff o l i lp ip lh ih :
  mergeable git_diff o l i lp ip lh ih → mergeable git_diff o i l ip lp ih lh.
Proof.
  intros []. split; try done.
  - simpl in *. rewrite !orb_false_iff in *. tauto.
  - rewrite check_texts_ok, !Forall_cons in *. tauto.
Qed.


(** Merging independent changes does not depend on which side is called local. *)
Theorem merge_symmetric git_diff original local incoming local_patch incoming_patch local_hunks incoming_hunks :
  mergeable git_diff original local incoming local_patch incoming_patch local_hunks incoming_hunks →
  (∀ l e, l ∈ patch_edits local local_hunks → e ∈ patch_edits incoming incoming_hunks → overlap l e = false) →
  MergeLocalChanges git_diff original local incoming = MergeLocalChanges git_diff original incoming local.
Proof.
  intros Hm Hind. pose proof (mergeable_swap _ _ _ _ _ _ _ _ Hm) as Hm'.
  destruct (MergeLocalChanges_sorted _ _ _ _ _ _ _ _ Hm) as [Hp HM].
  destruct (MergeLocalChanges_sorted _ _ _ _ _ _ _ _ Hm') as [Hp' HM']. rewrite HM, HM'. cbn zeta.
  destruct Hm. destruct (patch_edits_proper _ _ _ _ mg_local_patch0) as [[Hl Hls] _].
  destruct (patch_edits_proper _ _ _ _ mg_incoming_patch0) as [[Hi His] _].
  set (es := merge_sort edit_le _) in *. set (es' := merge_sort edit_le (adopt (patch_edits incoming _) _)) in *.
  enough (es = es') as -> by done.
  apply (StronglySorted_unique_strong apart); [|apply Hp|apply Hp'|].
  - unfold apart. intros a b _ _ ? ?. destruct (decide (t_start a < t_end b)); lia.
  - subst es es'. rewrite !merge_sort_Permutation. unfold adopt.
    rewrite !filter_all; [by rewrite Permutation_app_comm| |].
    + intros e He. apply (overlaps_spec _ _ _ Hi His); [by eapply Forall_forall in Hl|]. apply Forall_forall.
      intros x Hx. rewrite overlap_sym. by apply Hind.
    + intros e He. apply (overlaps_spec _ _ _ Hl Hls); [by eapply Forall_forall in Hi|]. apply Forall_forall.
      intros x Hx. by apply Hind.
Qed.

(** ** Witnesses *)

Definition nl : string := String newline "".
Definition sample_original : string := "a" +:+ nl +:+ "b" +:+ nl +:+ "c" +:+ nl.
Definition sample_local : string := "a" +:+ nl +:+ "B" +:+ nl +:+ "c" +:+ nl.
Definition sample_incoming : string := "a" +:+ nl +:+ "b" +:+ nl +:+ "c" +:+ nl +:+ "d" +:+ nl.
Definition sample_local_patch : string :=
  "--- original" +:+ nl +:+ "+++ local" +:+ nl +:+ "@@ -2 +2 @@ a" +:+ nl +:+ "-b" +:+ nl +:+ "+B" +:+ nl.
Definition sample_incoming_patch : string :=
  "--- original" +:+ nl +:+ "+++ incoming" +:+ nl +:+ "@@ -3,0 +4 @@ c" +:+ nl +:+ "+d" +:+ nl.
Definition sample_git (o n : string) : option string :=
  if bool_decide (n = sample_local) then Some sample_local_patch else Some sample_incoming_patch.
Definition sample_local_hunks : list hunk := [mkHunk 1 1 1 1 " a" ["-b"; "+B"; ""]].
Definition sample_incoming_hunks : list hunk := [mkHunk 3 0 3 1 " c" ["+d"; ""]].

Lemma sample_mergeable :
  mergeable sample_git sample_original sample_local sample_incoming sample_local_patch sample_incoming_patch
    sample_local_hunks sample_incoming_hunks.
Proof.
  split; try (vm_compute; done).
  - split; [|split_and!; [|vm_compute; done..]].
    + exists ["--- original"; "+++ local"]. split_and!; [vm_compute; done|repeat constructor..].
    + exists ["a" +:+ nl], ["b" +:+ nl], ["B" +:+ nl], ["c" +:+ nl], ["c" +:+ nl]. by repeat (split; [done || by left|]).
  - split; [|split_and!; [|vm_compute; done..]].
    + exists ["--- original"; "+++ incoming"]. split_and!; [vm_compute; done|repeat constructor..].
    + exists ["a" +:+ nl; "b" +:+ nl; "c" +:+ nl], [], ["d" +:+ nl], [], []. by repeat (split; [done || by right|]).
Defined.


Lemma merge_symmetric_witness :
  MergeLocalChanges sample_git sample_original sample_local sample_incoming =
  MergeLocalChanges sample_git sample_original sample_incoming sample_local.
Proof.
  apply (merge_symmetric _ _ _ _ _ _ _ _ sample_mergeable).
  intros l e Hl He. vm_compute in Hl, He.
  apply list_elem_of_singleton in Hl as ->. apply list_elem_of_singleton in He as ->. vm_compute. reflexivity.
Defined.
