(* ===== verification/Downloads.v ===== *)
(** * Download items and destination locks: [internal/downloads/execution.go], its queries and the
    triggers of [migrations/021]

    A download run has one item per resource.  An item is acquired under a lock on its destination
    path of its device; the device's writer is told to start only after a command id is bound to the
    item.  Each SQL statement, with the checks and triggers of its table, is one atomic step; the Go
    functions are sequences of statements that other goroutines can interleave with.  JSON columns
    are their decoded fields; foreign keys to runs and nodes are not modelled. *)

From S2P Require Import Prelude GoStrings.

(** ** Data *)

Inductive ItemState :=
| ItemPending | ItemChecking | ItemTransferring | ItemVerifying | ItemCancelling
| ItemSucceeded | ItemFailed | ItemCancelled | ItemInterrupted.

#[export] Instance ItemState_eq_dec : EqDecision ItemState.
Proof. solve_decision. Defined.

Inductive Action := ActionReuse | ActionValidateLocal | ActionDownloadOrigin | ActionPeerCopy.

#[export] Instance Action_eq_dec : EqDecision Action.
Proof. solve_decision. Defined.

Inductive OwnerKind := OwnerDownload | OwnerServing | OwnerTransfer.

#[export] Instance OwnerKind_eq_dec : EqDecision OwnerKind.
Proof. solve_decision. Defined.

Inductive QuiescenceProof := QuiescenceTerminalAck | QuiescenceNodeBarrier | QuiescenceNeverDispatched.

#[export] Instance QuiescenceProof_eq_dec : EqDecision QuiescenceProof.
Proof. solve_decision. Defined.

Record DownloadItem := mkItem {
  d_run : string;
  d_key : string;
  d_node : string;
  d_destination : string;
  d_identity : string;
  d_platform : string;
  d_action : Action;
  d_state : ItemState;
  d_command : option string;
  d_transfer : option string;
  d_checkpoint : string;
  d_error : option string;
}.

#[export] Instance DownloadItem_eq_dec : EqDecision DownloadItem.
Proof. solve_decision. Defined.

Inductive LockState := LockHeld | LockCancelling | LockQuiesced.

#[export] Instance LockState_eq_dec : EqDecision LockState.
Proof. solve_decision. Defined.

Record DestinationLock := mkLock {
  k_identity : string;
  k_platform : string;
  k_kind : OwnerKind;
  k_owner : string;
  k_run : option string;
  k_item : option string;
  k_state : LockState;
  k_proof : option QuiescenceProof;
}.

#[export] Instance DestinationLock_eq_dec : EqDecision DestinationLock.
Proof. solve_decision. Defined.

(** The two tables; locks are keyed by device and destination. *)
Record Store := mkStore {
  items : gmap string DownloadItem;
  locks : gmap (string * string) DestinationLock;
}.

(** A statement refused by a constraint or a trigger *)
Inductive sql_error := ErrAbort.

Notation Sql := (ST Store sql_error).

Definition set_items (f : gmap string DownloadItem → gmap string DownloadItem) (s : Store) : Store :=
  mkStore (f (items s)) (locks s).
Definition set_locks (f : gmap (string * string) DestinationLock → gmap (string * string) DestinationLock)
    (s : Store) : Store := mkStore (items s) (f (locks s)).

(** ** States *)

Definition active (st : ItemState) : bool :=
  match st with ItemPending | ItemChecking | ItemTransferring | ItemVerifying => true | _ => false end.

Definition item_terminal (st : ItemState) : bool :=
  match st with ItemSucceeded | ItemFailed | ItemCancelled | ItemInterrupted => true | _ => false end.

(** The graph of the trigger [immutable_download_item] *)
Definition item_moves (st : ItemState) : list ItemState :=
  match st with
  | ItemPending => [ItemChecking; ItemCancelling; ItemFailed; ItemInterrupted]
  | ItemChecking => [ItemTransferring; ItemVerifying; ItemSucceeded; ItemCancelling; ItemFailed; ItemInterrupted]
  | ItemTransferring => [ItemVerifying; ItemCancelling; ItemFailed; ItemInterrupted]
  | ItemVerifying => [ItemSucceeded; ItemCancelling; ItemFailed; ItemInterrupted]
  | ItemCancelling => [ItemCancelled; ItemInterrupted]
  | _ => []
  end.

Definition opt_frozen (old new : option string) : bool :=
  match old with None => true | Some _ => bool_decide (new = old) end.

(** The trigger [immutable_download_item]: may [old] become [new]? *)
Definition item_update_ok (old new : DownloadItem) : bool :=
  bool_decide (d_run new = d_run old) && bool_decide (d_key new = d_key old)
  && bool_decide (d_node new = d_node old) && bool_decide (d_destination new = d_destination old)
  && bool_decide (d_identity new = d_identity old) && bool_decide (d_platform new = d_platform old)
  && bool_decide (d_action new = d_action old)
  && opt_frozen (d_command old) (d_command new) && opt_frozen (d_transfer old) (d_transfer new)
  && negb (item_terminal (d_state old))
  && (bool_decide (d_state new = d_state old) || bool_decide (d_state new ∈ item_moves (d_state old))).

(** An update of one item row through the trigger and the unique indexes on the attempt ids *)
Definition ids_unique (id : string) (new : DownloadItem) (m : gmap string DownloadItem) : bool :=
  forallb (λ e, bool_decide (fst e = id) ||
     (match d_command new with Some _ => negb (bool_decide (d_command (snd e) = d_command new)) | None => true end
      && match d_transfer new with Some _ => negb (bool_decide (d_transfer (snd e) = d_transfer new)) | None => true end))
    (map_to_list m).

Definition update_item (id : string) (old new : DownloadItem) : Sql unit :=
  s ← get;
  if item_update_ok old new && ids_unique id new (items s) then modify (set_items <[id := new]>)
  else throw ErrAbort.

Definition with_state (st : ItemState) (cp : string) (err : option string) (it : DownloadItem) : DownloadItem :=
  mkItem (d_run it) (d_key it) (d_node it) (d_destination it) (d_identity it) (d_platform it) (d_action it)
    st (d_command it) (d_transfer it) cp err.

Definition with_command (c : string) (it : DownloadItem) : DownloadItem :=
  mkItem (d_run it) (d_key it) (d_node it) (d_destination it) (d_identity it) (d_platform it) (d_action it)
    (d_state it) (Some c) (d_transfer it) (d_checkpoint it) (d_error it).

Definition with_transfer (t : string) (it : DownloadItem) : DownloadItem :=
  mkItem (d_run it) (d_key it) (d_node it) (d_destination it) (d_identity it) (d_platform it) (d_action it)
    (d_state it) (d_command it) (Some t) (d_checkpoint it) (d_error it).

(** ** Statements *)

(** [CreateDownloadItem]; the trigger on predecessors is not modelled *)
Definition CreateDownloadItem (id run key node destination identity platform : string) (action : Action)
    : Sql unit :=
  s ← get;
  if bool_decide (is_Some (items s !! id)) || bool_decide (id = "") || bool_decide (key = "")
     || existsb (λ e, bool_decide (d_run (snd e) = run) && bool_decide (d_key (snd e) = key)) (map_to_list (items s))
  then throw ErrAbort
  else modify (set_items <[id := mkItem run key node destination identity platform action
                                   ItemPending None None "{}" None]>).

Definition GetDownloadItem (id : string) (s : Store) : option DownloadItem := items s !! id.

(** [TransitionDownloadItem]: a compare-and-set; the number of rows changed *)
Definition TransitionDownloadItem (id : string) (row : DownloadItem) (st : ItemState) (cp : string)
    (err : option string) : Sql nat :=
  s ← get;
  match items s !! id with
  | Some it =>
      if bool_decide (d_node it = d_node row) && bool_decide (d_state it = d_state row)
         && negb (item_terminal (d_state it))
         && bool_decide (d_command it = d_command row) && bool_decide (d_transfer it = d_transfer row)
      then _ ← update_item id it (with_state st cp err it); mret 1%nat
      else mret 0%nat
  | None => mret 0%nat
  end.

(** The lock an item holds, in state [held] *)
Definition holds_lock (id : string) (s : Store) : bool :=
  existsb (λ e, bool_decide (k_item (snd e) = Some id) && bool_decide (k_state (snd e) = LockHeld))
    (map_to_list (locks s)).

Definition BindDownloadItemCommand (id : string) (row : DownloadItem) (command : string) : Sql nat :=
  s ← get;
  match items s !! id with
  | Some it =>
      if bool_decide (d_node it = d_node row) && bool_decide (d_state it = d_state row) && active (d_state it)
         && bool_decide (d_command it = None) && holds_lock id s
      then _ ← update_item id it (with_command command it); mret 1%nat
      else mret 0%nat
  | None => mret 0%nat
  end.

Definition BindDownloadItemTransfer (id : string) (row : DownloadItem) (transfer : string) : Sql nat :=
  s ← get;
  match items s !! id with
  | Some it =>
      if bool_decide (d_node it = d_node row) && bool_decide (d_state it = d_state row) && active (d_state it)
         && bool_decide (d_transfer it = None) && holds_lock id s
      then _ ← update_item id it (with_transfer transfer it); mret 1%nat
      else mret 0%nat
  | None => mret 0%nat
  end.

(** [InterruptDownloadItemsForRun] *)
Definition interrupt_one (run : string) (it : DownloadItem) : DownloadItem :=
  if bool_decide (d_run it = run) && negb (item_terminal (d_state it))
  then with_state ItemInterrupted (d_checkpoint it) (d_error it) it else it.

Definition InterruptDownloadItemsForRun (run : string) : Sql unit := modify (set_items (fmap (interrupt_one run))).

Definition RecordDownloadItemCheckpoint (id : string) (row : DownloadItem) (cp : string) : Sql nat :=
  s ← get;
  match items s !! id with
  | Some it =>
      if bool_decide (d_node it = d_node row) && bool_decide (d_state it = d_state row)
         && negb (item_terminal (d_state it)) && negb (bool_decide (d_state it = ItemPending))
         && bool_decide (d_command it = d_command row) && bool_decide (d_transfer it = d_transfer row)
         && bool_decide (d_checkpoint it = d_checkpoint row)
      then _ ← update_item id it (with_state (d_state it) cp (d_error it) it); mret 1%nat
      else mret 0%nat
  | None => mret 0%nat
  end.

(** [AcquireDestinationLock]: the primary key, the checks, and the trigger [download_destination_owner] *)
Definition lock_matches_item (node destination : string) (l : DestinationLock) (s : Store) : bool :=
  match k_kind l, k_item l, k_run l with
  | OwnerDownload, Some id, Some run =>
      bool_decide (k_owner l = id) &&
      match items s !! id with
      | Some it => bool_decide (d_run it = run) && bool_decide (d_node it = node) && active (d_state it)
                   && bool_decide (d_identity it = k_identity l) && bool_decide (d_destination it = destination)
                   && bool_decide (d_platform it = k_platform l)
      | None => false
      end
  | OwnerDownload, _, _ => false
  | _, None, _ => true
  | _, Some _, _ => false
  end.

Definition AcquireDestinationLock (node destination identity platform : string) (kind : OwnerKind)
    (owner : string) (run item : option string) : Sql unit :=
  s ← get;
  let l := mkLock identity platform kind owner run item LockHeld None in
  if bool_decide (is_Some (locks s !! (node, destination))) || bool_decide (destination = "")
     || bool_decide (identity = "") || bool_decide (owner = "") || negb (lock_matches_item node destination l s)
  then throw ErrAbort
  else modify (set_locks <[(node, destination) := l]>).

Definition GetDestinationLock (node destination : string) (s : Store) : option DestinationLock :=
  locks s !! (node, destination).

Definition lock_state (st : LockState) (proof : option QuiescenceProof) (l : DestinationLock) : DestinationLock :=
  mkLock (k_identity l) (k_platform l) (k_kind l) (k_owner l) (k_run l) (k_item l) st proof.

Definition lock_owned (kind : OwnerKind) (owner : string) (l : DestinationLock) : bool :=
  bool_decide (k_kind l = kind) && bool_decide (k_owner l = owner).

Definition CancelDestinationLock (node destination : string) (kind : OwnerKind) (owner : string) : Sql unit :=
  modify (set_locks (alter (λ l, if lock_owned kind owner l && bool_decide (k_state l = LockHeld)
                                 then lock_state LockCancelling None l else l) (node, destination))).

Definition QuiesceDestinationLock (node destination : string) (kind : OwnerKind) (owner : string)
    (expected : LockState) (proof : QuiescenceProof) : Sql unit :=
  modify (set_locks (alter (λ l, if lock_owned kind owner l && bool_decide (k_state l = expected)
                                    && negb (bool_decide (k_state l = LockQuiesced))
                                 then lock_state LockQuiesced (Some proof) l else l) (node, destination))).

Definition ReleaseDestinationLock (node destination : string) (kind : OwnerKind) (owner : string) : Sql unit :=
  s ← get;
  match locks s !! (node, destination) with
  | Some l => if lock_owned kind owner l && bool_decide (k_state l = LockQuiesced)
              then modify (set_locks (delete (node, destination))) else mret tt
  | None => mret tt
  end.

(** ** The service *)

Inductive download_error :=
| ErrDestinationBusy | ErrLockOwner | ErrStatement | ErrInspect | ErrObservation | ErrPlanChanged
| ErrStorageChanged | ErrCancelled | ErrAcquisition | ErrVerification.

Notation Dl := (ST Store download_error).

(** A statement whose error the caller reports *)
Definition sql {A} (m : Sql A) : Dl A := λ s,
  match m s with
  | (Ok a, s) => (Ok a, s)
  | (Err _, s) => (Err ErrStatement, s)
  end.

(** [sql.NullString] of an optional id *)
Definition ns (v : string) : option string := if bool_decide (v = "") then None else Some v.

Definition Lock (node destination identity platform : string) (kind : OwnerKind) (owner run item : string)
    : Dl unit := λ s,
  match AcquireDestinationLock node destination identity platform kind owner (ns run) (ns item) s with
  | (Ok _, s) => (Ok tt, s)
  | (Err _, s) => (Err ErrDestinationBusy, s)
  end.

Definition MarkCancelling (node destination : string) (kind : OwnerKind) (owner : string) : Dl unit :=
  sql (CancelDestinationLock node destination kind owner).

(** [Unlock]: one transaction *)
Definition Unlock (node destination : string) (kind : OwnerKind) (owner : string) (proof : QuiescenceProof)
    : Dl unit :=
  transact (
    s ← get;
    match GetDestinationLock node destination s with
    | None => mret tt
    | Some l =>
        if negb (lock_owned kind owner l) then throw ErrLockOwner
        else
          _ ← (if bool_decide (k_state l = LockQuiesced) then mret tt
               else sql (QuiesceDestinationLock node destination kind owner (k_state l) proof));
          sql (ReleaseDestinationLock node destination kind owner)
    end).

Definition quiesce (id : string) (row : DownloadItem) (proof : QuiescenceProof) : Dl unit :=
  Unlock (d_node row) (d_destination row) OwnerDownload id proof.

(** [transition]: whether the row moved *)
Definition transition (id : string) (row : DownloadItem) (st : ItemState) (err : option string) : Dl bool :=
  n ← sql (TransitionDownloadItem id row st (d_checkpoint row) (match err with Some _ => err | None => d_error row end));
  mret (n =? 1)%nat.

(** [row, _ = q.GetDownloadItem(id)]; on an error the zero row, whose CAS matches nothing *)
Definition reload (id : string) (row : DownloadItem) : Dl DownloadItem :=
  s ← get; mret (default row (GetDownloadItem id s)).

(** What one inspection of the device reports *)
Record Observation := mkObservation {
  o_verified : bool;              (* available, with a verification time *)
  o_remaining : option Z;         (* [BytesRemaining], or else [SizeBytes] *)
  o_available : option Z;         (* the storage's free bytes *)
}.

Definition StorageReserveBytes : Z := 5 * 1024 * 1024 * 1024.

(** The capacity check before dispatch, in [int64] arithmetic *)
Definition storage_short (o : Observation) : bool :=
  match o_remaining o, o_available o with
  | Some remaining, Some available =>
      (remaining <? 0)%Z || ((2 ^ 62 - StorageReserveBytes) <? remaining)%Z
      || (available <? wrap64 (wrap64 (2 * remaining) + StorageReserveBytes))%Z
  | _, _ => true
  end.

(** What the device and the coordinator answer during one acquisition *)
Record Answers := mkAnswers {
  a_inspect : option Observation;
  a_record : bool;                (* the verified placement was stored *)
  a_command : string;             (* the new command id *)
  a_prepared : bool;              (* a peer's transfer was prepared and its row created *)
  a_transfer : string;            (* the new transfer id *)
  a_fetch : bool;                 (* the device acknowledged the fetch *)
  a_cancelled : bool;             (* the executor's context ended while fetching *)
  a_verify : option Observation;
  a_record_again : bool;
}.

Definition fail (id : string) (row : DownloadItem) (msg : string) (proof : QuiescenceProof) (e : download_error)
    : Dl unit :=
  _ ← ignore_err (transition id row ItemFailed (Some msg));
  _ ← ignore_err (quiesce id row proof);
  throw e.

(** The part after a successful fetch *)
Definition verify_item (a : Answers) (id : string) (row : DownloadItem) : Dl unit :=
  _ ← transition id row ItemVerifying None;
  row ← reload id row;
  match a_verify a with
  | Some o =>
      if negb (o_verified o) then fail id row "download.verification_failed" QuiescenceTerminalAck ErrVerification
      else if negb (a_record_again a)
      then fail id row "download.observation_failed" QuiescenceTerminalAck ErrObservation
      else
        changed ← transition id row ItemSucceeded None;
        if changed : bool then quiesce id row QuiescenceTerminalAck else mret tt
  | None => fail id row "download.verification_failed" QuiescenceTerminalAck ErrVerification
  end.

(** [copyPeer] up to its reply: the binding is one transaction, the item is read again before sending *)
Definition copyPeer (a : Answers) (id : string) (row : DownloadItem) : Dl bool := λ s,
  if negb (a_prepared a) then (Ok false, s)
  else
    match BindDownloadItemTransfer id row (a_transfer a) s with
    | (Ok 1%nat, s) =>
        match GetDownloadItem id s with
        | Some current =>
            (Ok (bool_decide (d_state current = ItemTransferring)
                 && bool_decide (d_transfer current = Some (a_transfer a)) && a_fetch a), s)
        | None => (Ok false, s)
        end
    | _ => (Ok false, s)
    end.

(** [command] with [DOWNLOAD_OP_FETCH] up to its reply *)
Definition fetch (a : Answers) (id : string) : Dl bool :=
  s ← get;
  match GetDownloadItem id s with
  | Some row => mret (bool_decide (d_state row = ItemTransferring)
                      && bool_decide (d_command row = Some (a_command a)) && a_fetch a)
  | None => mret false
  end.

(** What follows the reply *)
Definition after_fetch (a : Answers) (id : string) (fetched : bool) : Dl unit :=
  s ← get;
  match GetDownloadItem id s with
  | None => throw ErrStatement
  | Some row =>
      if a_cancelled a then throw ErrCancelled
      else if bool_decide (d_state row ∈ [ItemCancelling; ItemCancelled; ItemInterrupted]) then throw ErrCancelled
      else if negb fetched then
        _ ← ignore_err (transition id row ItemCancelling (Some "download.acquisition_failed"));
        throw ErrAcquisition
      else verify_item a id row
  end.

(** The dispatch; the command is bound unless the source is a peer *)
Definition dispatch_item (a : Answers) (id : string) (row : DownloadItem) : Dl unit :=
  row ← reload id row;
  changed ← transition id row ItemTransferring None;
  if negb changed then mret tt
  else
    row ← reload id row;
    fetched ← (if bool_decide (d_action row = ActionPeerCopy) then copyPeer a id row else fetch a id);
    after_fetch a id fetched.

Definition bind_command (a : Answers) (id : string) (row : DownloadItem) : Dl unit := λ s,
  match BindDownloadItemCommand id row (a_command a) s with
  | (Ok 1%nat, s) => (Ok tt, s)
  | (Ok _, s) => (Err ErrCancelled, snd (quiesce id row QuiescenceNeverDispatched s))
  | (Err _, s) => (Err ErrStatement, snd (quiesce id row QuiescenceNeverDispatched s))
  end.

(** After the inspection under ownership *)
Definition acquire_inspected (a : Answers) (id : string) (row : DownloadItem) (o : Observation) : Dl unit :=
  if o_verified o then
    if negb (a_record a) then fail id row "download.observation_failed" QuiescenceNeverDispatched ErrObservation
    else
      changed ← transition id row ItemSucceeded None;
      if changed : bool then quiesce id row QuiescenceNeverDispatched else mret tt
  else if bool_decide (d_action row = ActionReuse)
  then fail id row "download.plan_changed" QuiescenceNeverDispatched ErrPlanChanged
  else if storage_short o
  then fail id row "download.storage_changed" QuiescenceNeverDispatched ErrStorageChanged
  else
    _ ← (if bool_decide (d_action row = ActionPeerCopy) then mret tt else bind_command a id row);
    dispatch_item a id row.

Definition acquireItem (a : Answers) (id : string) (row : DownloadItem) : Dl unit := λ s,
  match Lock (d_node row) (d_destination row) (d_identity row) (d_platform row) OwnerDownload id (d_run row) id s with
  | (Err e, s) => (Err e, snd (transition id row ItemFailed (Some "download.destination_busy") s))
  | (Ok _, s) =>
      match transition id row ItemChecking None s with
      | (Err e, s) => (Err e, snd (quiesce id row QuiescenceNeverDispatched s))
      | (Ok false, s) => (Ok tt, snd (quiesce id row QuiescenceNeverDispatched s))
      | (Ok true, s) =>
          (row ← reload id row;
           match a_inspect a with
           | None => fail id row "download.inspect_failed" QuiescenceNeverDispatched ErrInspect
           | Some o => acquire_inspected a id row o
           end) s
      end
  end.

(** ** Cancellation, statement by statement *)

(** Whether [Cancel] takes an item for one that no device was ever told about *)
Definition never_dispatched (row : DownloadItem) : bool :=
  bool_decide (d_transfer row = None) &&
  (bool_decide (d_action row = ActionPeerCopy) || bool_decide (d_command row = None)).

(** The first two statements of [Cancel]'s loop on a listed row: the move, and the reload *)
Definition cancel_move (id : string) (row : DownloadItem) : Dl DownloadItem :=
  if active (d_state row) then
    _ ← transition id row ItemCancelling None;
    reload id row
  else mret row.

(** Its lock statement *)
Definition cancel_mark (id : string) (row : DownloadItem) : Dl unit :=
  ignore_err (MarkCancelling (d_node row) (d_destination row) OwnerDownload id).

(** Its treatment of an item that was never dispatched; the other items are left to [cancelItem] *)
Definition cancel_settle (id : string) (row : DownloadItem) : Dl unit :=
  if never_dispatched row then
    _ ← ignore_err (quiesce id row QuiescenceNeverDispatched);
    ignore_err (transition id row ItemCancelled None)
  else mret tt.

(** The loop body, undisturbed *)
Definition cancel_item (id : string) (row : DownloadItem) : Dl unit :=
  if item_terminal (d_state row) then mret tt
  else
    row ← cancel_move id row;
    _ ← cancel_mark id row;
    cancel_settle id row.

(** [cancelItem] after the device acknowledged *)
Definition cancel_acknowledged (id : string) (row : DownloadItem) : Dl unit :=
  let proof := if bool_decide (d_action row = ActionPeerCopy) && bool_decide (d_transfer row = None)
               then QuiescenceNeverDispatched else QuiescenceTerminalAck in
  _ ← ignore_err (quiesce id row proof);
  s ← get;
  match GetDownloadItem id s with
  | Some latest =>
      if bool_decide (d_state latest = ItemCancelling)
      then ignore_err (transition id latest ItemCancelled None) else mret tt
  | None => mret tt
  end.

(** ** Every interleaving of statements *)

Inductive step : Store → Store → Prop :=
| st_create id run key node dest ident plat act s :
    step s (snd (CreateDownloadItem id run key node dest ident plat act s))
| st_transition id row st cp err s : step s (snd (TransitionDownloadItem id row st cp err s))
| st_bind id row c s : step s (snd (BindDownloadItemCommand id row c s))
| st_transfer id row t s : step s (snd (BindDownloadItemTransfer id row t s))
| st_interrupt run s : step s (snd (InterruptDownloadItemsForRun run s))
| st_checkpoint id row cp s : step s (snd (RecordDownloadItemCheckpoint id row cp s))
| st_lock node dest ident plat kind owner run item s :
    step s (snd (AcquireDestinationLock node dest ident plat kind owner run item s))
| st_cancel_lock node dest kind owner s : step s (snd (CancelDestinationLock node dest kind owner s))
| st_quiesce node dest kind owner expected proof s :
    step s (snd (QuiesceDestinationLock node dest kind owner expected proof s))
| st_release node dest kind owner s : step s (snd (ReleaseDestinationLock node dest kind owner s)).

(** What an item keeps *)
Record item_kept (it it' : DownloadItem) : Prop := {
  ik_place : d_run it' = d_run it ∧ d_key it' = d_key it ∧ d_node it' = d_node it ∧
             d_destination it' = d_destination it ∧ d_identity it' = d_identity it ∧
             d_platform it' = d_platform it ∧ d_action it' = d_action it;
  ik_command : ∀ c, d_command it = Some c → d_command it' = Some c;
  ik_transfer : ∀ t, d_transfer it = Some t → d_transfer it' = Some t;
  ik_terminal : item_terminal (d_state it) = true → it' = it;
  ik_path : rtc (λ a b, b ∈ item_moves a) (d_state it) (d_state it');
}.

#[export] Instance item_kept_preorder : PreOrder item_kept.
Proof.
  split.
  - intros it. split; eauto using rtc_refl. tauto.
  - intros a b c [P1 C1 T1 E1 R1] [P2 C2 T2 E2 R2]. split.
    + destruct P1 as (?&?&?&?&?&?&?), P2 as (?&?&?&?&?&?&?). split_and!; congruence.
    + eauto.
    + eauto.
    + intros Ht. pose proof (E1 Ht) as ->. by apply E2.
    + by etrans.
Qed.

Lemma opt_frozen_spec old new c : opt_frozen old new = true → old = Some c → new = Some c.
Proof. intros H ->. simpl in H. by apply bool_decide_eq_true in H. Qed.

Lemma item_update_kept old new : item_update_ok old new = true → item_kept old new.
Proof.
  unfold item_update_ok. rewrite !andb_true_iff, orb_true_iff, !bool_decide_eq_true, negb_true_iff.
  intros [[[[[[[[[[P1 P2] P3] P4] P5] P6] P7] Hc] Ht] Hnt] Hm]. split.
  - done.
  - intros c. by apply opt_frozen_spec.
  - intros t. by apply opt_frozen_spec.
  - congruence.
  - destruct Hm as [->|Hm]; [done|by apply rtc_once].
Qed.

Definition items_kept (s s' : Store) : Prop :=
  ∀ id it, items s !! id = Some it → ∃ it', items s' !! id = Some it' ∧ item_kept it it'.

#[export] Instance items_kept_preorder : PreOrder items_kept.
Proof.
  split; [intros s id it H; by exists it|]. intros a b c H1 H2 id it H.
  destruct (H1 id it H) as (it1 & E1 & K1), (H2 id it1 E1) as (it2 & E2 & K2). exists it2. by split; [|etrans].
Qed.

Lemma items_kept_same s s' : items s' = items s → items_kept s s'.
Proof. intros E id it H. exists it. by rewrite E. Qed.

Lemma update_item_kept id old new s : items s !! id = Some old → items_kept s (snd (update_item id old new s)).
Proof.
  intros E. unfold update_item. unfold_st. destruct (item_update_ok old new) eqn:Eu; simpl; [|done].
  destruct (ids_unique _ _ _); simpl; [|done]. intros id' it H. simpl. rewrite lookup_insert. case_decide; [|by exists it].
  subst. simplify_eq. exists new. split; [done|by apply item_update_kept].
Qed.

Lemma interrupt_one_kept run it : item_kept it (interrupt_one run it).
Proof.
  unfold interrupt_one. destruct (_ && negb _) eqn:E; [|done]. apply andb_prop in E as [_ E].
  apply negb_true_iff in E. split; simpl; [tauto|done|done|congruence|]. apply rtc_once.
  destruct (d_state it); simpl in *; try done; set_solver.
Qed.

(** A compare-and-set on one item row, whatever its guard *)
Lemma cas_kept id (guard : Store → DownloadItem → bool) (f : DownloadItem → DownloadItem) s :
  items_kept s (snd ((s ← get;
    match items s !! id with
    | Some it => if guard s it then (_ ← update_item id it (f it); mret 1%nat) else mret 0%nat
    | None => mret 0%nat
    end) s)).
Proof.
  unfold_st. destruct (items s !! id) as [it|] eqn:E; [|done]. destruct (guard s it); [|done].
  pose proof (update_item_kept id it (f it) s E) as H. by destruct (update_item id it (f it) s) as [[] s'].
Qed.

Lemma step_items_kept s s' : step s s' → items_kept s s'.
Proof.
  destruct 1.
  - unfold CreateDownloadItem. unfold_st. destruct (bool_decide (is_Some _)) eqn:E; [done|].
    destruct (_ || _); [done|]. intros id' it H. simpl. rewrite lookup_insert_ne; [by exists it|].
    intros ->. apply bool_decide_eq_false, eq_None_not_Some in E. congruence.
  - apply (cas_kept id (λ _ it, _)).
  - apply (cas_kept id).
  - apply (cas_kept id).
  - intros id it H. simpl. rewrite lookup_fmap, H. eexists. split; [done|apply interrupt_one_kept].
  - apply (cas_kept id (λ _ it, _)).
  - unfold AcquireDestinationLock. unfold_st. destruct (_ || negb _); [done|by apply items_kept_same].
  - by apply items_kept_same.
  - by apply items_kept_same.
  - unfold ReleaseDestinationLock. unfold_st. destruct (locks s !! _); [|done].
    destruct (_ && _); [by apply items_kept_same|done].
Qed.

(** C35: However the statements of any number of goroutines interleave, an item keeps its run,
    resource and action; a bound command or transfer id never changes; its state only follows the
    graph; and a terminal item never changes again. *)
Theorem items_lifecycle s s' : rtc step s s' → items_kept s s'.
Proof. induction 1 as [|s m s' Hs _ IH]; [done|]. etrans; [by apply step_items_kept|done]. Qed.

(** ** Destination locks *)

Definition lock_rank (st : LockState) : nat :=
  match st with LockHeld => 0 | LockCancelling => 1 | LockQuiesced => 2 end.

(** The same ownership, further along; quiescence comes with a proof *)
Record lock_kept (l l' : DestinationLock) : Prop := {
  lk_owner : k_identity l' = k_identity l ∧ k_platform l' = k_platform l ∧ k_kind l' = k_kind l ∧
             k_owner l' = k_owner l ∧ k_run l' = k_run l ∧ k_item l' = k_item l;
  lk_rank : (lock_rank (k_state l) ≤ lock_rank (k_state l'))%nat;
  lk_proof : k_state l' = LockQuiesced → l' = l ∨ is_Some (k_proof l');
}.

#[export] Instance lock_kept_preorder : PreOrder lock_kept.
Proof.
  split.
  - intros l. split; [tauto|done|by left].
  - intros a b c [O1 R1 P1] [O2 R2 P2]. split.
    + destruct O1 as (?&?&?&?&?&?), O2 as (?&?&?&?&?&?). split_and!; congruence.
    + lia.
    + intros Hc. destruct (P2 Hc) as [->|]; [auto|by right].
Qed.

Lemma CancelDestinationLock_kept kind owner (l : DestinationLock) :
  lock_kept l (if lock_owned kind owner l && bool_decide (k_state l = LockHeld)
               then lock_state LockCancelling None l else l).
Proof.
  destruct (_ && _) eqn:E; [|done]. apply andb_prop in E as [_ E%bool_decide_eq_true].
  split; simpl; [tauto|rewrite E; simpl; lia|done].
Qed.

Lemma QuiesceDestinationLock_kept kind owner expected proof (l : DestinationLock) :
  lock_kept l (if lock_owned kind owner l && bool_decide (k_state l = expected)
                  && negb (bool_decide (k_state l = LockQuiesced))
               then lock_state LockQuiesced (Some proof) l else l).
Proof. destruct (_ && negb _); [|done]. split; simpl; [tauto|destruct (k_state l); simpl; lia|by right; eexists]. Qed.

Definition locks_kept_or_quiesced (s s' : Store) : Prop :=
  ∀ k l, locks s !! k = Some l →
    (∃ l', locks s' !! k = Some l' ∧ lock_kept l l') ∨ k_state l = LockQuiesced.

Lemma locks_same_kept s s' : locks s' = locks s → locks_kept_or_quiesced s s'.
Proof. intros E k l H. left. exists l. by rewrite E. Qed.

Lemma locks_alter_kept f k0 s :
  (∀ l, lock_kept l (f l)) → locks_kept_or_quiesced s (set_locks (alter f k0) s).
Proof.
  intros Hf k l H. left. simpl. destruct (decide (k = k0)) as [->|].
  - exists (f l). split; [|done]. by rewrite lookup_alter_eq, H.
  - exists l. by rewrite lookup_alter_ne.
Qed.

Lemma update_item_locks id old new s : locks (snd (update_item id old new s)) = locks s.
Proof. unfold update_item. unfold_st. by destruct (_ && _). Qed.

Lemma cas_locks id (guard : Store → DownloadItem → bool) (f : DownloadItem → DownloadItem) s :
  locks (snd ((s ← get;
    match items s !! id with
    | Some it => if guard s it then (_ ← update_item id it (f it); mret 1%nat) else mret 0%nat
    | None => mret 0%nat
    end) s)) = locks s.
Proof.
  unfold_st. destruct (items s !! id) as [it|] eqn:E; [|done]. destruct (guard s it); [|done].
  rewrite <- (update_item_locks id it (f it) s). by destruct (update_item id it (f it) s) as [[] s'].
Qed.

Lemma step_locks s s' : step s s' → locks_kept_or_quiesced s s'.
Proof.
  destruct 1.
  - unfold CreateDownloadItem. unfold_st. destruct (_ || _); by apply locks_same_kept.
  - apply locks_same_kept, (cas_locks id (λ _ it, _)).
  - apply locks_same_kept, (cas_locks id).
  - apply locks_same_kept, (cas_locks id).
  - by apply locks_same_kept.
  - apply locks_same_kept, (cas_locks id (λ _ it, _)).
  - unfold AcquireDestinationLock. unfold_st. destruct (bool_decide _) eqn:E; [by apply locks_same_kept|].
    destruct (_ || negb _); [by apply locks_same_kept|]. intros k l H. left. exists l. split; [|done].
    simpl. rewrite lookup_insert_ne; [done|]. intros <-.
    apply bool_decide_eq_false in E. destruct E. by eexists.
  - apply locks_alter_kept, CancelDestinationLock_kept.
  - apply locks_alter_kept, QuiesceDestinationLock_kept.
  - unfold ReleaseDestinationLock. unfold_st. set (k0 := (_, _)). destruct (locks s !! k0) as [l0|] eqn:E; [|by apply locks_same_kept].
    destruct (_ && bool_decide _) eqn:Eq; [|by apply locks_same_kept]. intros k l H. simpl.
    destruct (decide (k = k0)) as [->|Hne].
    + right. simplify_eq. apply andb_prop in Eq as [_ Eq%bool_decide_eq_true]. done.
    + left. exists l. by rewrite lookup_delete_ne.
Qed.

(** A destination changes hands only through quiescence: whatever statements run, the lock of an
    acquisition that has not quiesced is either still there, with the same owner, identity, run and
    item and at least as far along, or there was a moment when this same lock stood quiesced with its
    proof. *)
Theorem destination_quiesced_first s s' k l :
  rtc step s s' → locks s !! k = Some l → k_state l ≠ LockQuiesced →
  (∃ l', locks s' !! k = Some l' ∧ lock_kept l l') ∨
  ∃ m lm, rtc step s m ∧ rtc step m s' ∧ locks m !! k = Some lm ∧ lock_kept l lm ∧
    k_state lm = LockQuiesced ∧ is_Some (k_proof lm).
Proof.
  intros Hr Hl Hq.
  enough (∀ a la, rtc step s a → rtc step a s' → locks a !! k = Some la → lock_kept l la →
    (∃ l', locks s' !! k = Some l' ∧ lock_kept l l') ∨
    ∃ m lm, rtc step s m ∧ rtc step m s' ∧ locks m !! k = Some lm ∧ lock_kept l lm ∧
      k_state lm = LockQuiesced ∧ is_Some (k_proof lm)) as H by (by apply (H s l)).
  intros a la Hsa Has. revert la Hsa.
  induction Has as [a|a b c Hab Hbc IH]; intros la Hsa Ha Hk; [left; by exists la|].
  destruct (step_locks a b Hab k la Ha) as [(lb & Hb & Kb)|Q].
  - apply (IH Hr lb); [by eapply rtc_r|done|by etrans].
  - right. exists a, la. split_and!; [done|by eapply rtc_l|done|done|done|].
    destruct (lk_proof _ _ Hk Q) as [->|]; done.
Qed.

(** The capacity check before dispatch is exact: no sum in it overflows, so it passes only when
    the free space holds the remaining bytes twice (file and staging) and the reserve. *)
Theorem storage_short_exact o :
  (∀ available, o_available o = Some available → in_int64 available) →
  storage_short o = false ↔
  ∃ remaining available, o_remaining o = Some remaining ∧ o_available o = Some available ∧
    (0 ≤ remaining ≤ 2 ^ 62 - StorageReserveBytes)%Z ∧ (2 * remaining + StorageReserveBytes ≤ available)%Z.
Proof.
  intros Hin. unfold storage_short, StorageReserveBytes.
  destruct (o_remaining o) as [r|], (o_available o) as [av|]; try (split; [done|naive_solver]).
  destruct (decide (0 ≤ r ≤ 2 ^ 62 - 5 * 1024 * 1024 * 1024)%Z) as [Hr|Hr].
  - rewrite !wrap64_id by (rewrite ?wrap64_id; unfold in_int64, max_int64; lia).
    rewrite !orb_false_iff, !Z.ltb_ge. split.
    + intros [[? ?] ?]. exists r, av. split_and!; done || lia.
    + intros (?&?&[= <-]&[= <-]&?&?). lia.
  - split; [|intros (?&?&[= <-]&[= <-]&?&?); lia].
    rewrite !orb_false_iff, !Z.ltb_ge. lia.
Qed.

(** ** One acquisition, undisturbed *)

Lemma ids_unique_spec id new m :
  ids_unique id new m = true ↔
  ∀ j it, m !! j = Some it → j ≠ id →
    (∀ c, d_command new = Some c → d_command it ≠ Some c) ∧ (∀ t, d_transfer new = Some t → d_transfer it ≠ Some t).
Proof.
  unfold ids_unique. rewrite forallb_forall. split.
  - intros H j it Hj Hne. specialize (H (j, it)). rewrite <- list_elem_of_In, elem_of_map_to_list in H.
    specialize (H Hj). simpl in H. rewrite bool_decide_eq_false_2 in H by done. simpl in H.
    apply andb_prop in H as [Hc Ht]. split.
    + intros c E E'. rewrite E, bool_decide_eq_true_2 in Hc by done. done.
    + intros t E E'. rewrite E, bool_decide_eq_true_2 in Ht by done. done.
  - intros H [j it]. rewrite <- list_elem_of_In, elem_of_map_to_list. intros Hj. simpl.
    destruct (bool_decide (j = id)) eqn:Ej; [done|]. apply bool_decide_eq_false in Ej.
    destruct (H j it Hj Ej) as [Hc Ht]. simpl. apply andb_true_intro. split.
    + destruct (d_command new) as [c|]; [|done]. rewrite bool_decide_eq_false_2; [done|by apply Hc].
    + destruct (d_transfer new) as [t|]; [|done]. rewrite bool_decide_eq_false_2; [done|by apply Ht].
Qed.

Lemma ids_unique_insert id new x m : ids_unique id new (<[id := x]> m) = ids_unique id new m.
Proof.
  apply eq_bool_prop_intro. rewrite !Is_true_true, !ids_unique_spec. split; intros H j it Hj Hne; apply (H j it); try done.
  - by rewrite lookup_insert_ne.
  - by rewrite lookup_insert_ne in Hj.
Qed.

Lemma ids_unique_same id new new' m :
  d_command new' = d_command new → d_transfer new' = d_transfer new → ids_unique id new' m = ids_unique id new m.
Proof. intros E1 E2. unfold ids_unique. by rewrite E1, E2. Qed.

(** The lock [acquireItem] takes *)
Definition item_lock (id : string) (it : DownloadItem) : DestinationLock :=
  mkLock (d_identity it) (d_platform it) OwnerDownload id (ns (d_run it)) (ns id) LockHeld None.

(** A store during and after the acquisition of [id] that began in [s0] *)
Definition owned (s0 : Store) (id : string) (it : DownloadItem) : Store :=
  mkStore (<[id := it]> (items s0)) (<[(d_node it, d_destination it) := item_lock id it]> (locks s0)).
Definition released (s0 : Store) (id : string) (it : DownloadItem) : Store :=
  mkStore (<[id := it]> (items s0)) (locks s0).

Lemma item_update_ok_moves st cp err it :
  item_terminal (d_state it) = false → st ∈ item_moves (d_state it) →
  item_update_ok it (with_state st cp err it) = true.
Proof.
  intros Ht Hm. unfold item_update_ok, opt_frozen. apply andb_true_intro. split.
  - simpl. rewrite Ht, !bool_decide_eq_true_2 by done. simpl.
    destruct (d_command it), (d_transfer it); simpl; by rewrite ?bool_decide_eq_true_2.
  - apply orb_true_iff. right. by apply bool_decide_eq_true.
Qed.

Section acquisition.
Context (s0 : Store) (id : string).

Lemma transition_owned it st err :
  item_terminal (d_state it) = false → st ∈ item_moves (d_state it) → ids_unique id it (items s0) = true →
  transition id it st err (owned s0 id it) =
    (Ok true, owned s0 id (with_state st (d_checkpoint it) (match err with Some _ => err | None => d_error it end) it)).
Proof.
  intros Ht Hm Hu. unfold transition, sql, TransitionDownloadItem, update_item. unfold_st. simpl.
  rewrite lookup_insert_eq, !bool_decide_eq_true_2, Ht by done. simpl.
  rewrite item_update_ok_moves, ids_unique_insert, (ids_unique_same id it), Hu by done. simpl.
  unfold owned, set_items. simpl. by rewrite insert_insert_eq.
Qed.

Lemma reload_owned row it : reload id row (owned s0 id it) = (Ok it, owned s0 id it).
Proof. unfold reload, GetDownloadItem. unfold_st. simpl. by rewrite lookup_insert_eq. Qed.

Lemma quiesce_owned it proof :
  locks s0 !! (d_node it, d_destination it) = None →
  quiesce id it proof (owned s0 id it) = (Ok tt, released s0 id it).
Proof.
  intros Hn. unfold quiesce, Unlock, GetDestinationLock, sql, QuiesceDestinationLock, ReleaseDestinationLock.
  unfold_st. simpl. rewrite lookup_insert_eq. unfold lock_owned. simpl.
  rewrite (bool_decide_eq_true_2 (id = id)) by done. simpl. rewrite lookup_alter_eq, lookup_insert_eq. simpl.
  rewrite (bool_decide_eq_true_2 (id = id)) by done. simpl. rewrite (bool_decide_eq_true_2 (id = id)) by done. simpl.
  unfold set_locks, released. simpl. rewrite alter_insert_eq, delete_insert_eq. by rewrite delete_id.
Qed.

Lemma fail_owned it msg proof e :
  item_terminal (d_state it) = false → ItemFailed ∈ item_moves (d_state it) → ids_unique id it (items s0) = true →
  locks s0 !! (d_node it, d_destination it) = None →
  fail id it msg proof e (owned s0 id it) =
    (Err e, released s0 id (with_state ItemFailed (d_checkpoint it) (Some msg) it)).
Proof.
  intros Ht Hm Hu Hn. unfold fail. unfold_st. rewrite transition_owned by done. simpl.
  change (quiesce id it proof) with (quiesce id (with_state ItemFailed (d_checkpoint it) (Some msg) it) proof).
  by rewrite quiesce_owned.
Qed.

Lemma holds_lock_owned it : id ≠ "" → holds_lock id (owned s0 id it) = true.
Proof.
  intros Hid. unfold holds_lock. apply existsb_exists. exists ((d_node it, d_destination it), item_lock id it).
  rewrite <- list_elem_of_In, elem_of_map_to_list. simpl. rewrite lookup_insert_eq. split; [done|].
  unfold ns. rewrite (bool_decide_eq_false_2 (id = "")) by done. by rewrite !bool_decide_eq_true_2.
Qed.

Lemma BindDownloadItemCommand_owned it c :
  id ≠ "" → active (d_state it) = true → d_command it = None → ids_unique id (with_command c it) (items s0) = true →
  BindDownloadItemCommand id it c (owned s0 id it) = (Ok 1%nat, owned s0 id (with_command c it)).
Proof.
  intros Hid Ha Hc Hu. unfold BindDownloadItemCommand, update_item. unfold_st.
  rewrite holds_lock_owned by done. simpl. rewrite lookup_insert_eq, !bool_decide_eq_true_2, Ha by done. simpl.
  rewrite ids_unique_insert, Hu. replace (item_update_ok it (with_command c it)) with true.
  - simpl. unfold owned, set_items. simpl. by rewrite insert_insert_eq.
  - unfold item_update_ok, opt_frozen. simpl. rewrite !bool_decide_eq_true_2, Hc by done. simpl.
    destruct (d_transfer it), (d_state it); simpl in *; done || by rewrite ?bool_decide_eq_true_2.
Qed.

Lemma BindDownloadItemTransfer_owned it t :
  id ≠ "" → active (d_state it) = true → d_transfer it = None → ids_unique id (with_transfer t it) (items s0) = true →
  BindDownloadItemTransfer id it t (owned s0 id it) = (Ok 1%nat, owned s0 id (with_transfer t it)).
Proof.
  intros Hid Ha Hc Hu. unfold BindDownloadItemTransfer, update_item. unfold_st.
  rewrite holds_lock_owned by done. simpl. rewrite lookup_insert_eq, !bool_decide_eq_true_2, Ha by done. simpl.
  rewrite ids_unique_insert, Hu. replace (item_update_ok it (with_transfer t it)) with true.
  - simpl. unfold owned, set_items. simpl. by rewrite insert_insert_eq.
  - unfold item_update_ok, opt_frozen. simpl. rewrite !bool_decide_eq_true_2, Hc by done. simpl.
    destruct (d_command it), (d_state it); simpl in *; done || by rewrite ?bool_decide_eq_true_2.
Qed.

(** How an acquisition that began with [row] may end *)
Definition outcome (row : DownloadItem) (r : result download_error unit * Store) : Prop :=
  ∃ it, item_kept row it ∧
    match fst r with
    | Ok _ => d_state it = ItemSucceeded ∧ snd r = released s0 id it
    | Err ErrCancelled => d_state it = ItemTransferring ∧ snd r = owned s0 id it
    | Err ErrAcquisition => d_state it = ItemCancelling ∧ snd r = owned s0 id it
    | Err _ => d_state it = ItemFailed ∧ snd r = released s0 id it
    end.

Lemma kept_moves st cp err it :
  item_terminal (d_state it) = false → st ∈ item_moves (d_state it) → item_kept it (with_state st cp err it).
Proof. intros. by apply item_update_kept, item_update_ok_moves. Qed.

Lemma outcome_kept row it r : item_kept row it → outcome it r → outcome row r.
Proof. intros Hk (it' & Hk' & H). exists it'. split; [by etrans|done]. Qed.

Lemma fail_outcome it msg proof e :
  item_terminal (d_state it) = false → ItemFailed ∈ item_moves (d_state it) → ids_unique id it (items s0) = true →
  locks s0 !! (d_node it, d_destination it) = None → e ≠ ErrCancelled → e ≠ ErrAcquisition →
  outcome it (fail id it msg proof e (owned s0 id it)).
Proof.
  intros. rewrite fail_owned by done. eexists. split; [by apply kept_moves|]. simpl. by destruct e.
Qed.

Lemma succeed_outcome it proof :
  item_terminal (d_state it) = false → ItemSucceeded ∈ item_moves (d_state it) → ids_unique id it (items s0) = true →
  locks s0 !! (d_node it, d_destination it) = None →
  outcome it ((changed ← transition id it ItemSucceeded None;
               if changed : bool then quiesce id it proof else mret tt) (owned s0 id it)).
Proof.
  intros. unfold_st. rewrite transition_owned by done. set (it' := with_state _ _ _ it).
  change (quiesce id it proof) with (quiesce id it' proof). rewrite quiesce_owned by done.
  exists it'. split; [by apply kept_moves|done].
Qed.

Lemma verify_outcome a it :
  d_state it = ItemTransferring → ids_unique id it (items s0) = true →
  locks s0 !! (d_node it, d_destination it) = None → outcome it (verify_item a id it (owned s0 id it)).
Proof.
  intros Hs Hu Hn. unfold verify_item. unfold_st.
  rewrite transition_owned by (rewrite ?Hs; done || set_solver). rewrite reload_owned. set (it' := with_state _ _ _ it).
  apply (outcome_kept _ it'); [apply kept_moves; rewrite Hs; done || set_solver|].
  assert (ids_unique id it' (items s0) = true) by (by rewrite (ids_unique_same id it)).
  destruct (a_verify a) as [o|]; [|apply fail_outcome; done || set_solver].
  destruct (o_verified o); simpl; [|apply fail_outcome; done || set_solver].
  destruct (a_record_again a); simpl; [|apply fail_outcome; done || set_solver].
  apply succeed_outcome; done || set_solver.
Qed.

Lemma after_fetch_outcome a it fetched :
  d_state it = ItemTransferring → ids_unique id it (items s0) = true →
  locks s0 !! (d_node it, d_destination it) = None → outcome it (after_fetch a id fetched (owned s0 id it)).
Proof.
  intros Hs Hu Hn. unfold after_fetch, GetDownloadItem. unfold_st. simpl. rewrite lookup_insert_eq.
  destruct (a_cancelled a); [by exists it|].
  rewrite Hs. rewrite bool_decide_eq_false_2 by set_solver.
  destruct fetched; simpl; [by apply verify_outcome|].
  rewrite transition_owned by (rewrite ?Hs; done || set_solver). set (it' := with_state _ _ _ it).
  exists it'. split; [|done]. apply kept_moves; rewrite Hs; done || set_solver.
Qed.

(** What the steps of one acquisition need to know about the ids it draws *)
Definition fresh_ids (a : Answers) : Prop :=
  ∀ j it, items s0 !! j = Some it → j ≠ id → d_command it ≠ Some (a_command a) ∧ d_transfer it ≠ Some (a_transfer a).

Lemma copyPeer_owned a it :
  id ≠ "" → d_state it = ItemTransferring → d_transfer it = None → d_command it = None → fresh_ids a →
  ∃ fetched it', copyPeer a id it (owned s0 id it) = (Ok fetched, owned s0 id it') ∧ item_kept it it' ∧
    d_state it' = ItemTransferring ∧ ids_unique id it' (items s0) = true ∧
    d_node it' = d_node it ∧ d_destination it' = d_destination it.
Proof.
  intros Hid Hs Ht Hc Hf. unfold copyPeer.
  assert (ids_unique id it (items s0) = true) as Hu by (apply ids_unique_spec; intros; rewrite Ht, Hc; done).
  destruct (a_prepared a); simpl; [|by exists false, it].
  assert (ids_unique id (with_transfer (a_transfer a) it) (items s0) = true) as Hu'.
  { apply ids_unique_spec. intros j x Hj Hne. simpl. rewrite Hc. split; [done|]. intros t [= <-]. by apply (Hf j). }
  rewrite BindDownloadItemTransfer_owned by (rewrite ?Hs; done). unfold GetDownloadItem. simpl. rewrite lookup_insert_eq.
  eexists _, _. split_and!; [done| |done..].
  split; simpl; [tauto|done|congruence|by rewrite Hs|done].
Qed.

Lemma dispatch_reload a row it : dispatch_item a id row (owned s0 id it) = dispatch_item a id it (owned s0 id it).
Proof. unfold dispatch_item, mbind, ST_bind. by rewrite !reload_owned. Qed.

Lemma dispatch_outcome a it :
  id ≠ "" → d_state it = ItemChecking → d_transfer it = None →
  (d_action it = ActionPeerCopy → d_command it = None) → ids_unique id it (items s0) = true → fresh_ids a →
  locks s0 !! (d_node it, d_destination it) = None → outcome it (dispatch_item a id it (owned s0 id it)).
Proof.
  intros Hid Hs Ht Hc Hu Hf Hn. unfold dispatch_item. unfold_st. rewrite reload_owned.
  rewrite transition_owned by (rewrite ?Hs; done || set_solver). cbn [negb]. rewrite reload_owned.
  set (it' := with_state _ _ _ it).
  apply (outcome_kept _ it'); [apply kept_moves; rewrite Hs; done || set_solver|].
  assert (ids_unique id it' (items s0) = true) as Hu' by (by rewrite (ids_unique_same id it)).
  destruct (bool_decide (d_action it' = ActionPeerCopy)) eqn:Ep.
  - apply bool_decide_eq_true in Ep.
    destruct (copyPeer_owned a it') as (fetched & x & -> & Hk & Hx & Hux & En & Ed); [done..|by apply Hc|done|].
    apply (outcome_kept _ x); [done|]. apply after_fetch_outcome; [done|done|by rewrite En, Ed].
  - unfold fetch, GetDownloadItem. unfold_st. simpl. rewrite lookup_insert_eq. by apply after_fetch_outcome.
Qed.

Lemma acquire_inspected_outcome a it o :
  id ≠ "" → d_state it = ItemChecking → d_transfer it = None → d_command it = None → fresh_ids a →
  locks s0 !! (d_node it, d_destination it) = None → outcome it (acquire_inspected a id it o (owned s0 id it)).
Proof.
  intros Hid Hs Ht Hc Hf Hn.
  assert (ids_unique id it (items s0) = true) as Hu by (apply ids_unique_spec; intros; rewrite Ht, Hc; done).
  assert (∀ msg e, e ≠ ErrCancelled → e ≠ ErrAcquisition →
    outcome it (fail id it msg QuiescenceNeverDispatched e (owned s0 id it))) as Hfail.
  { intros. apply fail_outcome; rewrite ?Hs; done || set_solver. }
  unfold acquire_inspected. destruct (o_verified o).
  { destruct (a_record a); simpl; [|by apply Hfail]. apply succeed_outcome; rewrite ?Hs; done || set_solver. }
  destruct (bool_decide _); [by apply Hfail|]. destruct (storage_short o); [by apply Hfail|]. unfold_st.
  destruct (bool_decide (d_action it = ActionPeerCopy)) eqn:Ep; [by apply dispatch_outcome|].
  assert (ids_unique id (with_command (a_command a) it) (items s0) = true) as Hu'.
  { apply ids_unique_spec. intros j x Hj Hne. simpl. rewrite Ht. split; [|done]. intros c [= <-]. by apply (Hf j). }
  unfold bind_command. rewrite BindDownloadItemCommand_owned by (rewrite ?Hs; done).
  apply bool_decide_eq_false in Ep. apply (outcome_kept _ (with_command (a_command a) it)).
  - split; simpl; [tauto|congruence|done|by rewrite Hs|done].
  - rewrite (dispatch_reload _ _ (with_command (a_command a) it)). by apply dispatch_outcome.
Qed.
End acquisition.

Lemma Lock_free s id row :
  items s !! id = Some row → active (d_state row) = true → locks s !! (d_node row, d_destination row) = None →
  id ≠ "" → d_run row ≠ "" → d_destination row ≠ "" → d_identity row ≠ "" →
  Lock (d_node row) (d_destination row) (d_identity row) (d_platform row) OwnerDownload id (d_run row) id s =
    (Ok tt, owned s id row).
Proof.
  intros Hi Ha Hl Hid Hr Hd Hy. unfold Lock, AcquireDestinationLock, lock_matches_item. unfold_st. rewrite Hl. simpl.
  unfold ns. rewrite !(bool_decide_eq_false_2 (_ = "")) by done. simpl. rewrite Hi, Ha.
  rewrite !bool_decide_eq_true_2 by done. simpl. f_equal. unfold owned, set_locks, item_lock, ns. simpl.
  rewrite !(bool_decide_eq_false_2 (_ = "")) by done. by rewrite (insert_id (items s)).
Qed.

(** An acquisition of a pending item whose destination is free, undisturbed, always ends in one
    of four ways, whatever the device and the coordinator answer: verified, with the item succeeded and
    the destination free; refused or failed before or after the writer ran, with the item failed and
    the destination free; the fetch not acknowledged, with the item cancelling and the destination
    still locked; or the executor stopped, with the item transferring and the destination still locked.
    The item keeps its resource, and no other item or lock changes. *)
Theorem acquireItem_outcome a id row s :
  items s !! id = Some row → d_state row = ItemPending → d_command row = None → d_transfer row = None →
  locks s !! (d_node row, d_destination row) = None →
  id ≠ "" → d_run row ≠ "" → d_destination row ≠ "" → d_identity row ≠ "" → fresh_ids s id a →
  outcome s id row (acquireItem a id row s).
Proof.
  intros Hi Hp Hc Ht Hl Hid Hr Hd Hy Hf. unfold acquireItem. rewrite Lock_free by (rewrite ?Hp; done).
  assert (ids_unique id row (items s) = true) as Hu by (apply ids_unique_spec; intros; rewrite Ht, Hc; done).
  rewrite transition_owned by (rewrite ?Hp; done || set_solver). set (it := with_state _ _ _ row).
  apply (outcome_kept _ _ _ it); [apply kept_moves; rewrite Hp; done || set_solver|].
  unfold_st. rewrite reload_owned. destruct (a_inspect a) as [o|].
  - by apply acquire_inspected_outcome.
  - apply fail_outcome; done || set_solver.
Qed.

(** ** An interleaving of [acquireItem] and [Cancel] *)

(** [acquireItem] and [Cancel] on the row [Cancel] listed while it was pending: [Cancel]'s move misses
    the row, which is being checked, and its reload precedes the binding of the command *)
Definition race_schedule (a : Answers) (id : string) (row : DownloadItem) : Dl bool :=
  _ ← Lock (d_node row) (d_destination row) (d_identity row) (d_platform row) OwnerDownload id (d_run row) id;
  _ ← transition id row ItemChecking None;
  mine ← reload id row;
  seen ← cancel_move id row;
  _ ← bind_command a id mine;
  _ ← cancel_mark id seen;
  _ ← cancel_settle id seen;
  mine ← reload id mine;
  _ ← transition id mine ItemTransferring None;
  fetch a id.

Definition sample_item : DownloadItem :=
  mkItem "run-1" "model" "node-1" "/models/m" "hf://org/m@rev" "" ActionDownloadOrigin ItemPending None None "{}" None.
Definition sample_store : Store := mkStore {[ "item-1" := sample_item ]} ∅.
Definition sample_observation : Observation := mkObservation false (Some 10%Z) (Some (2 ^ 40)%Z).
Definition sample_answers : Answers :=
  mkAnswers (Some sample_observation) true "cmd-1" true "tr-1" true false
    (Some (mkObservation true None None)) true.

(** [Cancel] can release the destination of an item that is then dispatched: it trusts a reload
    made before the command was bound to say that no writer was told to start.  The item ends
    transferring with its fetch sent, its destination unlocked, and another acquisition locks the same
    destination while the writer runs. *)
Theorem cancel_dispatch_race :
  let '(sent, s) := race_schedule sample_answers "item-1" sample_item sample_store in
  sent = Ok true ∧ locks s = ∅ ∧
  fmap d_state (items s !! "item-1") = Some ItemTransferring ∧
  fst (Lock "node-1" "/models/m" "other" "" OwnerTransfer "tr-9" "" "" s) = Ok tt.
Proof. vm_compute. done. Qed.

(** ** Witnesses *)

Lemma items_lifecycle_witness :
  items_kept sample_store (snd (InterruptDownloadItemsForRun "run-1" sample_store)) ∧
  items (snd (InterruptDownloadItemsForRun "run-1" sample_store)) ≠ items sample_store.
Proof.
  split.
  - apply items_lifecycle, rtc_once. constructor.
  - intros H. apply (f_equal (λ m, fmap d_state (m !! "item-1"))) in H. vm_compute in H. discriminate.
Defined.

Definition sample_held : Store := mkStore ∅ {[ ("node-1", "/models/m") :=
  mkLock "hf://org/m@rev" "" OwnerTransfer "tr-1" None None LockHeld None ]}.

Lemma destination_quiesced_first_witness :
  let s := snd (CancelDestinationLock "node-1" "/models/m" OwnerTransfer "tr-1" sample_held) in
  let l := mkLock "hf://org/m@rev" "" OwnerTransfer "tr-1" None None LockHeld None in
  (∃ l', locks s !! ("node-1", "/models/m") = Some l' ∧ lock_kept l l') ∨
  ∃ m lm, rtc step sample_held m ∧ rtc step m s ∧ locks m !! ("node-1", "/models/m") = Some lm ∧ lock_kept l lm ∧
    k_state lm = LockQuiesced ∧ is_Some (k_proof lm).
Proof.
  apply (destination_quiesced_first sample_held _ ("node-1", "/models/m")).
  - apply rtc_once. constructor.
  - vm_compute. reflexivity.
  - discriminate.
Defined.

Lemma storage_short_exact_witness :
  storage_short sample_observation = false ↔
  ∃ remaining available, o_remaining sample_observation = Some remaining ∧
    o_available sample_observation = Some available ∧
    (0 ≤ remaining ≤ 2 ^ 62 - StorageReserveBytes)%Z ∧ (2 * remaining + StorageReserveBytes ≤ available)%Z.
Proof.
  apply (storage_short_exact sample_observation). intros available H. injection H as <-.
  unfold in_int64, max_int64. lia.
Defined.

Lemma acquireItem_outcome_witness :
  outcome sample_store "item-1" sample_item (acquireItem sample_answers "item-1" sample_item sample_store) ∧
  fst (acquireItem sample_answers "item-1" sample_item sample_store) = Ok tt.
Proof.
  split; [|vm_compute; reflexivity].
  apply (acquireItem_outcome sample_answers "item-1" sample_item sample_store); try discriminate; try reflexivity.
  intros j it Hj Hne. change (({[ "item-1" := sample_item ]} : gmap string DownloadItem) !! j = Some it) in Hj.
  apply lookup_singleton_Some in Hj. naive_solver.
Defined.
