(* ===== verification/DownloadRuns.v ===== *)
(** * Download runs: the rest of [internal/downloads/execution.go] over the run ledger

    A recipe download is a run of the ledger with one item per resource.  [Cancel] settles the items
    that no device was told about and leaves the others to be acknowledged; [finishCancelled] lands the
    run when its last item is settled; [Reconcile] interrupts what a restart left behind; [OnReconnect]
    and a late reply finish what an offline device had kept open.  The goroutines a call starts are
    part of its result; each is [cancelItem], which ends in [cancel_acknowledged] when the device
    confirms.  [now] is the clock. *)

From S2P Require Import Prelude GoStrings Utf8 CJson Downloads Leases Runs.

(** The tables of both components *)
Record World := mkWorld { w_store : Store; w_ledger : Ledger }.

Inductive world_error := ErrRun (e : run_error) | ErrDownload (e : download_error) | ErrNotDownload.

Notation W := (ST World world_error).

Definition on_store {A} (m : Dl A) : W A := λ w,
  match m (w_store w) with
  | (Ok a, s) => (Ok a, mkWorld s (w_ledger w))
  | (Err e, s) => (Err (ErrDownload e), mkWorld s (w_ledger w))
  end.

Definition on_ledger {A} (m : ST Ledger run_error A) : W A := λ w,
  match m (w_ledger w) with
  | (Ok a, g) => (Ok a, mkWorld (w_store w) g)
  | (Err e, g) => (Err (ErrRun e), mkWorld (w_store w) g)
  end.

Definition JobKind : string := "recipe-download".

(** ** Statements *)

Definition by_resource (a b : string * DownloadItem) : Prop := String.le (d_key (snd a)) (d_key (snd b)).

#[export] Instance by_resource_dec a b : Decision (by_resource a b).
Proof. unfold by_resource. apply _. Defined.

(** [ListDownloadItems]: the items of a run, by resource *)
Definition ListDownloadItems (run : string) (s : Store) : list (string * DownloadItem) :=
  merge_sort by_resource (filter (λ e, d_run (snd e) = run) (map_to_list (items s))).

Definition by_run (a b : string * DownloadItem) : Prop :=
  String.ltb (d_run (snd a)) (d_run (snd b)) = true ∨
  d_run (snd a) = d_run (snd b) ∧ String.le (d_key (snd a)) (d_key (snd b)).

#[export] Instance by_run_dec a b : Decision (by_run a b).
Proof. unfold by_run. apply _. Defined.

(** [ListActiveDownloadItemsByNode] *)
Definition ListActiveDownloadItemsByNode (node : string) (s : Store) : list (string * DownloadItem) :=
  merge_sort by_run (filter (λ e, d_node (snd e) = node ∧ item_terminal (d_state (snd e)) = false) (map_to_list (items s))).

(** [ListUnquiescedDestinationLocksByNode], the destination with each lock *)
Definition by_destination (a b : (string * string) * DestinationLock) : Prop := String.le (snd (fst a)) (snd (fst b)).

#[export] Instance by_destination_dec a b : Decision (by_destination a b).
Proof. unfold by_destination. apply _. Defined.

Definition ListUnquiescedDestinationLocksByNode (node : string) (s : Store) : list ((string * string) * DestinationLock) :=
  merge_sort by_destination (filter (λ e, fst (fst e) = node ∧ k_state (snd e) ≠ LockQuiesced) (map_to_list (locks s))).

(** ** The end of a cancelled run *)

(** The loop over the items: [None] while one is unsettled, else whether one failed *)
Fixpoint settled (rows : list (string * DownloadItem)) (failed : bool) : option bool :=
  match rows with
  | [] => Some failed
  | (_, row) :: rows =>
      if negb (item_terminal (d_state row)) then None
      else settled rows (failed || bool_decide (d_state row = ItemFailed) || bool_decide (is_Some (d_error row)))
  end.

Definition finishCancelled (now run : string) : W unit :=
  w ← get;
  match settled (ListDownloadItems run (w_store w)) false with
  | None => mret tt
  | Some failed =>
      match lg_runs (w_ledger w) !! run with
      | None => mret tt
      | Some row =>
          if negb (bool_decide (r_state row = Cancelling)) then mret tt
          else if failed
          then ignore_err (on_ledger (Complete run now Failed "download.failed" "A required resource failed; partial successes remain available"))
          else ignore_err (on_ledger (Complete run now Cancelled "run.cancelled" "Device acquisition has stopped"))
      end
  end.

(** ** [Cancel] *)

(** The loop over the listed rows; the result is the goroutines it starts *)
Fixpoint cancel_rows (online : string → bool) (rows : list (string * DownloadItem)) : Dl (list (string * DownloadItem)) :=
  match rows with
  | [] => mret []
  | (id, row) :: rows =>
      if item_terminal (d_state row) then cancel_rows online rows
      else
        row ← cancel_move id row;
        _ ← cancel_mark id row;
        if never_dispatched row then _ ← cancel_settle id row; cancel_rows online rows
        else
          started ← cancel_rows online rows;
          mret (if online (d_node row) then (id, row) :: started else started)
  end.

Definition Cancel (now : string) (online : string → bool) (run : string) : W (list (string * DownloadItem)) :=
  row ← on_ledger (GetRun run);
  if negb (bool_decide (r_kind row = JobKind)) then throw ErrNotDownload
  else if Terminal (r_state row) then mret []
  else
    _ ← (if bool_decide (r_state row = Cancelling) then mret tt else on_ledger (Runs.Cancel run now));
    w ← get;
    started ← on_store (cancel_rows online (ListDownloadItems run (w_store w)));
    _ ← finishCancelled now run;
    mret started.

(** [cancelItem] when the device has acknowledged *)
Definition cancelItem_acknowledged (now id : string) (row : DownloadItem) : W unit :=
  _ ← on_store (cancel_acknowledged id row);
  finishCancelled now (d_run row).

(** ** Late replies *)

(** [GetDownloadItemByCommand] and [GetDownloadItemByTransfer]; NULL equals nothing *)
Definition item_with (id : DownloadItem → option string) (attempt node : string) (s : Store)
    : option (string * DownloadItem) :=
  head (filter (λ e, attempt ≠ "" ∧ id (snd e) = Some attempt ∧ d_node (snd e) = node) (map_to_list (items s))).

Definition GetDownloadItemByCommand : string → string → Store → option (string * DownloadItem) := item_with d_command.
Definition GetDownloadItemByTransfer : string → string → Store → option (string * DownloadItem) := item_with d_transfer.

(** The fields of [CommandOutput] a late reply is matched on *)
Record CommandOutput := mkOutput { out_item : string; out_identity : string; out_path : string; out_platform : string }.

Definition output_matches (out : CommandOutput) (id : string) (row : DownloadItem) : bool :=
  bool_decide (out_item out = id) && bool_decide (out_identity out = d_identity row)
  && bool_decide (out_path out = d_destination row) && bool_decide (out_platform out = d_platform row).

(** What a terminal acknowledgement of an item nobody waits for does *)
Definition late_ack (now id : string) (row : DownloadItem) : W unit :=
  _ ← on_store (ignore_err (quiesce id row QuiescenceTerminalAck));
  if bool_decide (d_state row = ItemCancelling) then
    _ ← on_store (ignore_err (transition id row ItemCancelled None));
    finishCancelled now (d_run row)
  else mret tt.

Definition unwaited (st : ItemState) : bool := bool_decide (st = ItemInterrupted) || bool_decide (st = ItemCancelling).

(** [onPeerResult] when nobody waits for the reply *)
Definition onPeerResult (now node command : string) : W bool :=
  w ← get;
  match GetDownloadItemByTransfer command node (w_store w) with
  | None => mret false
  | Some (id, row) =>
      _ ← (if unwaited (d_state row) then late_ack now id row else mret tt);
      mret true
  end.

Definition ownsCommand (command : string) (s : Store) : bool :=
  existsb (λ e, bool_decide (d_command (snd e) = Some command) || bool_decide (d_transfer (snd e) = Some command))
    (map_to_list (items s)).

(** [OnResult] when nobody waits for the reply; [out] is its decoded output *)
Definition OnResult (now node command : string) (out : option CommandOutput) : W bool :=
  w ← get;
  match GetDownloadItemByCommand command node (w_store w) with
  | None =>
      handled ← onPeerResult now node command;
      if handled : bool then mret true else w ← get; mret (ownsCommand command (w_store w))
  | Some (id, row) =>
      _ ← (match out with
           | Some o => if unwaited (d_state row) && output_matches o id row then late_ack now id row else mret tt
           | None => mret tt
           end);
      mret true
  end.

(** ** [Reconcile] and [OnReconnect] *)

Fixpoint reconcile_items (now : string) (seen : list string) (rows : list (string * DownloadItem)) : W (list string) :=
  match rows with
  | [] => mret seen
  | (_, row) :: rows =>
      if bool_decide (d_run row ∈ seen) then reconcile_items now seen rows
      else
        _ ← on_store (sql (InterruptDownloadItemsForRun (d_run row)));
        _ ← ignore_err (on_ledger (SetState (d_run row) now Interrupted "download.interrupted"
              "Acquisition was interrupted; review a fresh plan and choose Resume"));
        reconcile_items now (d_run row :: seen) rows
  end.

Fixpoint reconcile_nodes (now : string) (seen nodes : list string) : W unit :=
  match nodes with
  | [] => mret tt
  | node :: nodes =>
      w ← get;
      seen ← reconcile_items now seen (ListActiveDownloadItemsByNode node (w_store w));
      reconcile_nodes now seen nodes
  end.

Definition Reconcile (now : string) (nodes : list string) : W unit := reconcile_nodes now [] nodes.

(** The loop of [OnReconnect]; the result is the goroutines it starts *)
Fixpoint reconnect_locks (ls : list ((string * string) * DestinationLock)) : Dl (list (string * DownloadItem)) :=
  match ls with
  | [] => mret []
  | (_, l) :: ls =>
      match k_kind l, k_item l with
      | OwnerDownload, Some id =>
          s ← get;
          match GetDownloadItem id s with
          | None => reconnect_locks ls
          | Some row =>
              if bool_decide (d_command row = None) && bool_decide (d_transfer row = None)
              then _ ← ignore_err (quiesce id row QuiescenceNeverDispatched); reconnect_locks ls
              else started ← reconnect_locks ls; mret ((id, row) :: started)
          end
      | _, _ => reconnect_locks ls
      end
  end.

Definition OnReconnect (node : string) : Dl (list (string * DownloadItem)) :=
  s ← get; reconnect_locks (ListUnquiescedDestinationLocksByNode node s).


(** ** Landing a cancelled run *)

Definition all_settled (run : string) (s : Store) : Prop :=
  ∀ id it, items s !! id = Some it → d_run it = run → item_terminal (d_state it) = true.

(** A cancelled run with such an item is a failed one *)
Definition any_failed (run : string) (s : Store) : Prop :=
  ∃ id it, items s !! id = Some it ∧ d_run it = run ∧ (d_state it = ItemFailed ∨ is_Some (d_error it)).

Lemma elem_of_ListDownloadItems run s id it :
  (id, it) ∈ ListDownloadItems run s ↔ items s !! id = Some it ∧ d_run it = run.
Proof.
  unfold ListDownloadItems. rewrite merge_sort_Permutation, list_elem_of_filter, elem_of_map_to_list. simpl. tauto.
Qed.

Lemma NoDup_ListDownloadItems run s : NoDup (ListDownloadItems run s).*1.
Proof.
  unfold ListDownloadItems. rewrite merge_sort_Permutation. apply NoDup_filter_fst, NoDup_fst_map_to_list.
Qed.

Definition item_bad (row : DownloadItem) : bool :=
  bool_decide (d_state row = ItemFailed) || bool_decide (is_Some (d_error row)).

Lemma settled_eq rows failed :
  settled rows failed =
  if forallb (λ e, item_terminal (d_state (snd e))) rows
  then Some (failed || existsb (λ e, item_bad (snd e)) rows) else None.
Proof.
  revert failed. induction rows as [|[id row] rows IH]; intros failed; simpl; [by rewrite orb_false_r|].
  destruct (item_terminal (d_state row)); simpl; [|done]. rewrite IH. unfold item_bad. by rewrite !orb_assoc.
Qed.

Lemma settled_list run s :
  (∃ failed, settled (ListDownloadItems run s) false = Some failed ∧ all_settled run s ∧
     (failed = true ↔ any_failed run s))
  ∨ settled (ListDownloadItems run s) false = None ∧ ¬ all_settled run s.
Proof.
  rewrite settled_eq. destruct (forallb _ _) eqn:E.
  - left. eexists. split; [done|]. rewrite forallb_forall in E. split.
    + intros id it H Hr. apply (E (id, it)), list_elem_of_In, elem_of_ListDownloadItems. done.
    + simpl. rewrite existsb_exists. unfold any_failed, item_bad. split.
      * intros ([id it] & Hin & Hb). apply list_elem_of_In, elem_of_ListDownloadItems in Hin as [Hi Hr].
        exists id, it. simpl in Hb. rewrite orb_true_iff, !bool_decide_eq_true in Hb. done.
      * intros (id & it & Hi & Hr & Hb). exists (id, it).
        rewrite <- list_elem_of_In, elem_of_ListDownloadItems, orb_true_iff, !bool_decide_eq_true. done.
  - right. split; [done|]. intros H. apply not_true_iff_false in E. apply E, forallb_forall.
    intros [id it] Hin%list_elem_of_In%elem_of_ListDownloadItems. destruct Hin. by apply (H id).
Qed.

(** The ledger after a run of downloads has landed in [to] *)
Definition landed (run : string) (to : State) (g g' : Ledger) : Prop :=
  fmap r_state (lg_runs g' !! run) = Some to ∧
  (∀ r, r ≠ run → lg_runs g' !! r = lg_runs g !! r) ∧
  (∀ row l, lg_runs g !! run = Some row → l_active l = true →
     l ∈ lg_leases g' ↔ l ∈ lg_leases g ∧ owned_by (fst (lease_owner run row)) (snd (lease_owner run row)) l = false).

Lemma Complete_lands run now to code msg g row :
  lg_runs g !! run = Some row → canTransition (r_state row) to = true →
  landed run to g (snd (Complete run now to code msg g)).
Proof.
  intros Hr Hc. destruct (SetState_accepted run now to code msg g row Hr Hc) as (g1 & Es & E1 & E2).
  destruct (Complete_cases run now to code msg g) as [(r & g' & Es' & Er & _ & ->)|(e & Es' & _)]; [|congruence].
  rewrite Es in Es'. simplify_eq. unfold landed. destruct (lease_owner run row) as [kind owner] eqn:Eo. simpl.
  rewrite E1, E2. split_and!.
  - by rewrite lookup_insert_eq.
  - intros x Hx. by rewrite lookup_insert_ne.
  - intros row' l ? Hl. simplify_eq. rewrite Eo. by apply ReleaseLeases_spec.
Qed.

(** What [finishCancelled] does *)
Lemma finishCancelled_cases now run w :
  (fmap r_state (lg_runs (w_ledger w) !! run) = Some Cancelling ∧ all_settled run (w_store w) ∧
   ∃ to g', finishCancelled now run w = (Ok tt, mkWorld (w_store w) g') ∧
     (any_failed run (w_store w) ∧ to = Failed ∨ ¬ any_failed run (w_store w) ∧ to = Cancelled) ∧
     landed run to (w_ledger w) g')
  ∨ ((¬ all_settled run (w_store w) ∨ fmap r_state (lg_runs (w_ledger w) !! run) ≠ Some Cancelling) ∧
     finishCancelled now run w = (Ok tt, w)).
Proof.
  unfold finishCancelled, on_ledger. unfold_st.
  destruct (settled_list run (w_store w)) as [(failed & -> & Hs & Hf)|[-> Hs]]; [|right; auto].
  destruct (lg_runs (w_ledger w) !! run) as [row|] eqn:Er; [|right; auto].
  destruct (bool_decide (r_state row = Cancelling)) eqn:Ec; simpl.
  2: { right. split; [|done]. right. apply bool_decide_eq_false in Ec. congruence. }
  apply bool_decide_eq_true in Ec. left. split; [by rewrite Ec|]. split; [done|].
  exists (if failed then Failed else Cancelled). set (code := if failed then "download.failed" else "run.cancelled").
  set (msg := if failed then "A required resource failed; partial successes remain available" else "Device acquisition has stopped").
  exists (snd (Complete run now (if failed then Failed else Cancelled) code msg (w_ledger w))). split_and!.
  - unfold code, msg. destruct failed; by destruct (Complete _ _ _ _ _ _) as [[]].
  - destruct failed; [left|right]; split; try done; [by apply Hf|]. intros H%Hf. done.
  - apply (Complete_lands _ _ _ _ _ _ row); [done|]. rewrite Ec. by destruct failed.
Qed.

(** ** Attempt ids stay unique *)

Definition empty_store : Store := mkStore ∅ ∅.

Definition unique_attempts (s : Store) : Prop := ∀ id it, items s !! id = Some it → ids_unique id it (items s) = true.

(** A row keeps its attempt ids *)
Definition same_ids (a b : DownloadItem) : Prop := d_command b = d_command a ∧ d_transfer b = d_transfer a.

Lemma unique_attempts_map s s' :
  (∀ id it', items s' !! id = Some it' → ∃ it, items s !! id = Some it ∧ same_ids it it') →
  unique_attempts s → unique_attempts s'.
Proof.
  intros Hm Hu id it' H. apply ids_unique_spec. intros j x' Hj Hne.
  destruct (Hm id it' H) as (it & Hi & -> & ->), (Hm j x' Hj) as (x & Hx & -> & ->).
  by apply (proj1 (ids_unique_spec id it (items s)) (Hu id it Hi) j x).
Qed.

Lemma unique_attempts_insert id new s :
  ids_unique id new (items s) = true → unique_attempts s → unique_attempts (set_items <[id := new]> s).
Proof.
  intros Hn Hu j it. simpl. rewrite ids_unique_spec in Hn. rewrite lookup_insert. case_decide as Ej.
  - intros [= <-]. subst j. rewrite ids_unique_insert. by apply ids_unique_spec.
  - intros Hj. apply ids_unique_spec. intros k x. rewrite lookup_insert. case_decide as Ek.
    + intros [= <-] _. subst k. destruct (Hn j it Hj ltac:(done)) as [Hc Ht]. split; naive_solver.
    + by apply (proj1 (ids_unique_spec j it (items s)) (Hu j it Hj)).
Qed.

Lemma unique_attempts_same s s' : items s' = items s → unique_attempts s → unique_attempts s'.
Proof. intros E Hu id it. rewrite E. apply Hu. Qed.

Lemma cas_unique id (guard : Store → DownloadItem → bool) (f : DownloadItem → DownloadItem) s :
  unique_attempts s →
  unique_attempts (snd ((s ← get;
    match items s !! id with
    | Some it => if guard s it then (_ ← update_item id it (f it); mret 1%nat) else mret 0%nat
    | None => mret 0%nat
    end : Sql nat) s)).
Proof.
  intros Hu. unfold_st. destruct (items s !! id) as [it|]; [|done]. destruct (guard s it); [|done].
  unfold update_item. unfold_st. destruct (item_update_ok _ _); [|done].
  destruct (ids_unique _ _ _) eqn:E; [|done]. simpl. by apply unique_attempts_insert.
Qed.

Lemma step_unique s s' : step s s' → unique_attempts s → unique_attempts s'.
Proof.
  intros [] Hu.
  - unfold CreateDownloadItem. unfold_st. destruct (_ || _); [done|]. apply unique_attempts_insert; [|done].
    by apply ids_unique_spec.
  - by apply (cas_unique id (λ _ it, _)).
  - by apply (cas_unique id).
  - by apply (cas_unique id).
  - apply (unique_attempts_map s0); [|done]. intros id it'. simpl. rewrite lookup_fmap. intros (it & H & ->)%fmap_Some_1.
    exists it. split; [done|]. unfold interrupt_one. by destruct (_ && _).
  - by apply (cas_unique id (λ _ it, _)).
  - unfold AcquireDestinationLock. unfold_st. by destruct (_ || _).
  - by apply (unique_attempts_same s0).
  - by apply (unique_attempts_same s0).
  - unfold ReleaseDestinationLock. unfold_st. destruct (locks s0 !! _); [|done]. by destruct (_ && _).
Qed.

Lemma reachable_unique s : rtc step empty_store s → unique_attempts s.
Proof.
  assert (unique_attempts empty_store) as H0 by (by intros ??).
  intros H. revert H0. induction H; eauto using step_unique.
Qed.

(** ** Effects on one item *)

Lemma transition_ok id it st err s :
  items s !! id = Some it → item_terminal (d_state it) = false → st ∈ item_moves (d_state it) → unique_attempts s →
  transition id it st err s =
    (Ok true, set_items <[id := with_state st (d_checkpoint it) (match err with Some _ => err | None => d_error it end) it]> s).
Proof.
  intros Hi Ht Hm Hu. unfold transition, sql, TransitionDownloadItem, update_item. unfold_st.
  rewrite Hi, !bool_decide_eq_true_2, Ht by done. simpl.
  by rewrite item_update_ok_moves, (ids_unique_same id it), (Hu id it) by done.
Qed.

(** The place of an item, and the locks after its owner gave it up or was told to stop *)
Definition place (it : DownloadItem) : string * string := (d_node it, d_destination it).

Definition drop_lock (id : string) (k : string * string) (m : gmap (string * string) DestinationLock)
    : gmap (string * string) DestinationLock :=
  partial_alter (λ ol, l ← ol; if lock_owned OwnerDownload id l then None else Some l) k m.

Definition mark_lock (id : string) (l : DestinationLock) : DestinationLock :=
  if lock_owned OwnerDownload id l && bool_decide (k_state l = LockHeld) then lock_state LockCancelling None l else l.

Lemma lock_owned_state kind owner st proof l : lock_owned kind owner (lock_state st proof l) = lock_owned kind owner l.
Proof. done. Qed.

Lemma mark_lock_owned id l : lock_owned OwnerDownload id (mark_lock id l) = lock_owned OwnerDownload id l.
Proof. unfold mark_lock. by destruct (_ && _). Qed.

Lemma lookup_drop_lock id k m j :
  drop_lock id k m !! j =
  if decide (j = k) then (l ← m !! j; if lock_owned OwnerDownload id l then None else Some l) else m !! j.
Proof.
  unfold drop_lock. case_decide; [subst; by rewrite lookup_partial_alter_eq|by rewrite lookup_partial_alter_ne].
Qed.

Lemma quiesce_effect id it proof s : snd (quiesce id it proof s) = set_locks (drop_lock id (place it)) s.
Proof.
  destruct s as [im ls]. unfold quiesce, Unlock, GetDestinationLock, sql, QuiesceDestinationLock, ReleaseDestinationLock.
  unfold_st. unfold set_locks, place. simpl. set (k := (d_node it, d_destination it)).
  assert (∀ m, (∀ j, m !! j = drop_lock id k ls !! j) → mkStore im m = mkStore im (drop_lock id k ls)) as Heq.
  { intros m Hm. f_equal. by apply map_eq. }
  destruct (ls !! k) as [l|] eqn:E; simpl.
  2: { apply Heq. intros j. rewrite lookup_drop_lock. case_decide; [subst; by rewrite E|done]. }
  destruct (lock_owned OwnerDownload id l) eqn:Eo; simpl.
  2: { apply Heq. intros j. rewrite lookup_drop_lock. case_decide; [subst; by rewrite E; simpl; rewrite Eo|done]. }
  destruct (bool_decide (k_state l = LockQuiesced)) eqn:Eq; simpl.
  - rewrite E, Eo, Eq. simpl. apply Heq. intros j. rewrite lookup_drop_lock, lookup_delete.
    repeat case_decide; simplify_eq; [|done]. by rewrite E; simpl; rewrite Eo.
  - rewrite lookup_alter_eq, E. simpl. rewrite Eo, Eq, bool_decide_eq_true_2 by done. simpl.
    rewrite lock_owned_state, Eo. simpl. apply Heq. intros j. rewrite lookup_drop_lock, lookup_delete.
    repeat case_decide; simplify_eq; [|by rewrite lookup_alter_ne]. by rewrite E; simpl; rewrite Eo.
Qed.

(** ** [Cancel]'s loop *)

(** An item after [Cancel] *)
Definition cancelled_item (it : DownloadItem) : DownloadItem :=
  if item_terminal (d_state it) then it
  else with_state (if never_dispatched it then ItemCancelled else ItemCancelling) (d_checkpoint it) (d_error it) it.

Definition cancel_effect (id : string) (it : DownloadItem) (s : Store) : Store :=
  mkStore (<[id := cancelled_item it]> (items s))
    (if never_dispatched it then drop_lock id (place it) (alter (mark_lock id) (place it) (locks s))
     else alter (mark_lock id) (place it) (locks s)).

Lemma cancelled_item_ids it : same_ids it (cancelled_item it).
Proof. unfold cancelled_item. by destruct (item_terminal _). Qed.

Lemma cancel_effect_unique id it s :
  items s !! id = Some it → unique_attempts s → unique_attempts (cancel_effect id it s).
Proof.
  intros Hi. apply unique_attempts_map. intros j x. simpl. rewrite lookup_insert. case_decide as E.
  - intros [= <-]. subst j. exists it. split; [done|]. apply cancelled_item_ids.
  - intros Hx. by exists x.
Qed.

Definition stopping (it : DownloadItem) : DownloadItem := with_state ItemCancelling (d_checkpoint it) (d_error it) it.

Lemma cancel_move_effect id it s :
  items s !! id = Some it → item_terminal (d_state it) = false → unique_attempts s →
  cancel_move id it s = (Ok (stopping it), set_items <[id := stopping it]> s).
Proof.
  intros Hi Ht Hu. unfold cancel_move. destruct (active (d_state it)) eqn:Ea.
  - unfold_st. rewrite transition_ok; [|done..|destruct (d_state it); try done; set_solver|done].
    unfold reload, GetDownloadItem. unfold_st. simpl. by rewrite lookup_insert_eq.
  - assert (stopping it = it) as -> by (unfold stopping; destruct it as [???????[]]; done).
    destruct s as [im lm]. unfold set_items. simpl in *. by rewrite (insert_id im id it).
Qed.

Lemma cancel_row_effect id it s :
  items s !! id = Some it → item_terminal (d_state it) = false → unique_attempts s →
  ∃ s1, cancel_move id it s = (Ok (stopping it), s1) ∧
    ∃ s2, cancel_mark id (stopping it) s1 = (Ok tt, s2) ∧
      (if never_dispatched it then cancel_settle id (stopping it) s2 = (Ok tt, cancel_effect id it s)
       else s2 = cancel_effect id it s).
Proof.
  intros Hi Ht Hu. rewrite cancel_move_effect by done. eexists. split; [done|]. eexists. split; [done|].
  unfold cancel_effect, cancelled_item. rewrite Ht. destruct (never_dispatched it) eqn:En; [|done].
  unfold cancel_settle. change (never_dispatched (stopping it)) with (never_dispatched it). rewrite En. unfold_st.
  rewrite quiesce_effect. change (place (stopping it)) with (place it). f_equal.
  rewrite transition_ok; [|simpl; by rewrite lookup_insert_eq|done|set_solver|].
  - unfold set_items, set_locks. simpl. rewrite insert_insert_eq. done.
  - apply (unique_attempts_map s); [|done]. intros j x. simpl. rewrite lookup_insert. case_decide as E.
    + intros [= <-]. subst j. by exists it.
    + intros Hx. by exists x.
Qed.

(** The goroutines started for [rows] *)
Definition goroutines (online : string → bool) (rows : list (string * DownloadItem)) : list (string * DownloadItem) :=
  (λ e, (fst e, stopping (snd e))) <$>
    filter (λ e, item_terminal (d_state (snd e)) = false ∧ never_dispatched (snd e) = false ∧ online (d_node (snd e)) = true) rows.

(** What the loop has done when it has handled the items [ids] *)
Definition cancelled_lock (ids : list string) (s0 : Store) (k : string * string) (l : DestinationLock)
    : option DestinationLock :=
  match items s0 !! k_owner l with
  | Some it =>
      if decide (k_kind l = OwnerDownload ∧ k_owner l ∈ ids ∧ place it = k ∧ item_terminal (d_state it) = false)
      then if never_dispatched it then None else Some (mark_lock (k_owner l) l)
      else Some l
  | None => Some l
  end.

Record cancelled_upto (ids : list string) (s0 s : Store) : Prop := {
  cu_items id : items s !! id = (λ it, if decide (id ∈ ids) then cancelled_item it else it) <$> items s0 !! id;
  cu_locks k : locks s !! k = l ← locks s0 !! k; cancelled_lock ids s0 k l;
}.

Lemma cancelled_upto_nil s : cancelled_upto [] s s.
Proof.
  split.
  - intros id. by destruct (items s !! id).
  - intros k. destruct (locks s !! k) as [l|]; [|done]. simpl. unfold cancelled_lock.
    destruct (items s !! k_owner l); [|done]. by rewrite decide_False by set_solver.
Qed.

Lemma cancelled_upto_unique ids s0 s : cancelled_upto ids s0 s → unique_attempts s0 → unique_attempts s.
Proof.
  intros [Hi _]. apply unique_attempts_map. intros id it'. rewrite Hi. intros (it & E & ->)%fmap_Some_1.
  exists it. split; [done|]. case_decide; [apply cancelled_item_ids|done].
Qed.

Lemma cancelled_lock_owner ids s0 k l l' :
  cancelled_lock ids s0 k l = Some l' → ∀ id, lock_owned OwnerDownload id l' = lock_owned OwnerDownload id l.
Proof.
  unfold cancelled_lock. intros H id. destruct (items s0 !! k_owner l); [|by simplify_eq].
  case_decide; [|by simplify_eq]. destruct (never_dispatched _); simplify_eq. unfold mark_lock. by destruct (_ && _).
Qed.

Lemma lock_owned_spec id l : lock_owned OwnerDownload id l = true ↔ k_kind l = OwnerDownload ∧ k_owner l = id.
Proof. unfold lock_owned. by rewrite andb_true_iff, !bool_decide_eq_true. Qed.

(** One more item *)
Lemma cancelled_lock_other ids s0 k l id it :
  items s0 !! id = Some it → (k ≠ place it ∨ lock_owned OwnerDownload id l = false) →
  cancelled_lock (id :: ids) s0 k l = cancelled_lock ids s0 k l.
Proof.
  intros Hi Hk. unfold cancelled_lock. destruct (items s0 !! k_owner l) as [x|] eqn:Ex; [|done].
  destruct (decide (k_owner l = id)) as [<-|Hne].
  - rewrite !decide_False; [done| |]; intros (Ek & _ & Ep & _); simplify_eq.
    all: destruct Hk as [|Hk]; [congruence|]; apply not_true_iff_false in Hk; by apply Hk, lock_owned_spec.
  - f_equal. apply decide_ext. set_solver.
Qed.

Lemma cancelled_lock_new ids s0 l id it :
  items s0 !! id = Some it → item_terminal (d_state it) = false → id ∉ ids → lock_owned OwnerDownload id l = true →
  cancelled_lock ids s0 (place it) l = Some l ∧
  cancelled_lock (id :: ids) s0 (place it) l = if never_dispatched it then None else Some (mark_lock id l).
Proof.
  intros Hi Ht Hn [Hk <-]%lock_owned_spec. unfold cancelled_lock. rewrite Hi. split.
  - by rewrite decide_False by tauto.
  - by rewrite decide_True by set_solver.
Qed.

Lemma cancelled_upto_cons ids s0 s id it :
  items s0 !! id = Some it → item_terminal (d_state it) = false → id ∉ ids → cancelled_upto ids s0 s →
  cancelled_upto (id :: ids) s0 (cancel_effect id it s).
Proof.
  intros Hi Ht Hn [Ui Ul]. split.
  - intros j. simpl. rewrite lookup_insert. case_decide as E.
    + subst j. rewrite Hi. simpl. by rewrite decide_True by set_solver.
    + rewrite Ui. destruct (items s0 !! j); [|done]. simpl. f_equal. repeat case_decide; set_solver.
  - intros k. simpl. destruct (decide (k = place it)) as [->|Hk].
    + transitivity (l ← locks s !! place it; if lock_owned OwnerDownload id l
        then if never_dispatched it then None else Some (mark_lock id l) else Some l).
      { destruct (never_dispatched it).
        - rewrite lookup_drop_lock, decide_True, lookup_alter_eq by done. destruct (locks s !! place it) as [l|]; [|done].
          simpl. rewrite mark_lock_owned. destruct (lock_owned _ _ l) eqn:E; [done|]. unfold mark_lock. by rewrite E.
        - rewrite lookup_alter_eq. destruct (locks s !! place it) as [l|]; [|done]. simpl.
          destruct (lock_owned _ _ l) eqn:E; [done|]. unfold mark_lock. by rewrite E. }
      rewrite Ul. destruct (locks s0 !! place it) as [l|]; [|done]. simpl.
      destruct (lock_owned OwnerDownload id l) eqn:Eo.
      * destruct (cancelled_lock_new ids s0 l id it) as [-> ->]; [done..|]. simpl. by rewrite Eo.
      * rewrite (cancelled_lock_other _ _ _ _ id it) by auto. destruct (cancelled_lock ids s0 _ l) as [l'|] eqn:El; [|done].
        simpl. by rewrite (cancelled_lock_owner _ _ _ _ _ El), Eo.
    + transitivity (locks s !! k).
      { destruct (never_dispatched it); [rewrite lookup_drop_lock, decide_False by done|]; by rewrite lookup_alter_ne. }
      rewrite Ul. destruct (locks s0 !! k) as [l|]; [|done]. simpl. symmetry. by apply (cancelled_lock_other _ _ _ _ id it); auto.
Qed.

(** A settled item is passed over *)
Lemma cancelled_upto_skip ids s0 s id it :
  items s0 !! id = Some it → item_terminal (d_state it) = true → cancelled_upto ids s0 s → cancelled_upto (id :: ids) s0 s.
Proof.
  intros Hi Ht [Ui Ul]. split.
  - intros j. rewrite Ui. destruct (items s0 !! j) as [x|] eqn:Ej; [|done]. simpl. f_equal.
    destruct (decide (j = id)) as [->|Hj]; [|repeat case_decide; set_solver]. simplify_eq.
    rewrite (decide_True (P := id ∈ id :: ids)) by set_solver. unfold cancelled_item. rewrite Ht. by case_decide.
  - intros k. rewrite Ul. destruct (locks s0 !! k) as [l|]; [|done]. simpl. unfold cancelled_lock.
    destruct (items s0 !! k_owner l) as [x|] eqn:Ex; [|done]. destruct (decide (k_owner l = id)) as [E|E].
    + subst id. simplify_eq. rewrite !decide_False; [done| |]; intros (_ & _ & _ & Hf); congruence.
    + f_equal. apply decide_ext. set_solver.
Qed.

Lemma cancel_rows_spec online rows ids s0 s :
  unique_attempts s0 → NoDup rows.*1 → (∀ id it, (id, it) ∈ rows → items s0 !! id = Some it ∧ id ∉ ids) →
  cancelled_upto ids s0 s →
  ∃ s', cancel_rows online rows s = (Ok (goroutines online rows), s') ∧ cancelled_upto (reverse rows.*1 ++ ids) s0 s'.
Proof.
  intros Hu. revert ids s. induction rows as [|[id it] rows IH]; intros ids s Hd Hr Hc; [by exists s|].
  apply NoDup_cons in Hd as [Hd Hnd]. destruct (Hr id it ltac:(set_solver)) as [Hi Hn].
  assert (∀ j x, (j, x) ∈ rows → items s0 !! j = Some x ∧ j ∉ id :: ids) as Hr'.
  { intros j x Hj. destruct (Hr j x ltac:(set_solver)) as [Hx Hnx]. split; [done|].
    apply not_elem_of_cons. split; [|done]. intros ->. apply Hd. by apply (list_elem_of_fmap_2 fst _ (id, x)). }
  simpl. rewrite reverse_cons, <- (assoc_L (++)). simpl.
  unfold goroutines. rewrite filter_cons. simpl. destruct (item_terminal (d_state it)) eqn:Ht.
  { rewrite decide_False by naive_solver. apply (IH (id :: ids)); [done..|by apply (cancelled_upto_skip _ _ _ id it)]. }
  assert (items s !! id = Some it) as Hs by (rewrite (cu_items _ _ _ Hc), Hi; simpl; by rewrite decide_False).
  pose proof (cancelled_upto_unique _ _ _ Hc Hu) as Hus.
  destruct (cancel_row_effect id it s Hs Ht Hus) as (s1 & E1 & s2 & E2 & E3).
  destruct (IH (id :: ids) (cancel_effect id it s)) as (s' & Es & Hs'); [done..|by apply cancelled_upto_cons|].
  exists s'. split; [|done]. unfold_st. rewrite E1, E2.
  change (never_dispatched (stopping it)) with (never_dispatched it). destruct (never_dispatched it).
  - rewrite E3, Es. rewrite decide_False by naive_solver. done.
  - subst s2. rewrite Es. change (d_node (stopping it)) with (d_node it). destruct (online (d_node it)).
    + rewrite decide_True by done. done.
    + rewrite decide_False by naive_solver. done.
Qed.

(** [Cancel] on the store: every unsettled item of the run, and the lock it holds *)
Record run_cancelled (run : string) (s s' : Store) : Prop := {
  rc_items id it : items s !! id = Some it →
    items s' !! id = Some (if decide (d_run it = run) then cancelled_item it else it);
  rc_new id : items s !! id = None → items s' !! id = None;
  rc_dropped id it k l : items s !! id = Some it → d_run it = run → item_terminal (d_state it) = false →
    k = place it → locks s !! k = Some l → lock_owned OwnerDownload id l = true →
    locks s' !! k = if never_dispatched it then None else Some (mark_lock id l);
  rc_kept k l : locks s !! k = Some l →
    (∀ id it, items s !! id = Some it → lock_owned OwnerDownload id l = true →
       d_run it ≠ run ∨ item_terminal (d_state it) = true ∨ k ≠ place it) →
    locks s' !! k = Some l;
  rc_owner k l' : locks s' !! k = Some l' →
    ∃ l, locks s !! k = Some l ∧ ∀ id, lock_owned OwnerDownload id l' = lock_owned OwnerDownload id l;
}.

Lemma cancel_rows_run online run s :
  unique_attempts s →
  ∃ s', cancel_rows online (ListDownloadItems run s) s = (Ok (goroutines online (ListDownloadItems run s)), s') ∧
    run_cancelled run s s'.
Proof.
  intros Hu. destruct (cancel_rows_spec online (ListDownloadItems run s) [] s s) as (s' & E & [Hi Hl]).
  - done.
  - apply NoDup_ListDownloadItems.
  - intros id it [? _]%elem_of_ListDownloadItems. split; [done|set_solver].
  - apply cancelled_upto_nil.
  - exists s'. split; [done|]. rewrite app_nil_r in Hi, Hl.
    assert (∀ id it, items s !! id = Some it →
      id ∈ reverse (ListDownloadItems run s).*1 ↔ d_run it = run) as Hin.
    { intros id it Hx. rewrite elem_of_reverse, list_elem_of_fmap. split.
      - intros ([j x] & -> & Hj%elem_of_ListDownloadItems). simpl in *. naive_solver.
      - intros Hr. exists (id, it). split; [done|]. by apply elem_of_ListDownloadItems. }
    split.
    + intros id it Hx. rewrite Hi, Hx. simpl. f_equal. specialize (Hin id it Hx). repeat case_decide; tauto.
    + intros id Hx. by rewrite Hi, Hx.
    + intros id it k l Hx Hr Ht -> Hk [Ek Eo]%lock_owned_spec. rewrite Hl, Hk. simpl. unfold cancelled_lock.
      rewrite Eo, Hx, decide_True; [done|]. rewrite Hin by done. done.
    + intros k l Hk Hno. rewrite Hl, Hk. simpl. unfold cancelled_lock.
      destruct (items s !! k_owner l) as [it|] eqn:Hx; [|done]. rewrite decide_False; [done|].
      rewrite Hin by done. intros (Ek & Hr & Hp & Ht). destruct (Hno (k_owner l) it) as [|[|]]; [done| |congruence..].
      by apply lock_owned_spec.
    + intros k l'. rewrite Hl. destruct (locks s !! k) as [l|]; [|done]. simpl. intros E'. exists l. split; [done|].
      by apply (cancelled_lock_owner _ _ _ _ _ E').
Qed.

(** A writer may still be running for an item of the run *)
Definition still_writing (run : string) (s : Store) : Prop :=
  ∃ id it, items s !! id = Some it ∧ d_run it = run ∧ item_terminal (d_state it) = false ∧ never_dispatched it = false.

#[export] Instance still_writing_dec run s : Decision (still_writing run s).
Proof.
  refine (cast_if (decide (Exists (λ e : string * DownloadItem, d_run (snd e) = run ∧
    item_terminal (d_state (snd e)) = false ∧ never_dispatched (snd e) = false) (map_to_list (items s)))));
    unfold still_writing; setoid_rewrite <- elem_of_map_to_list.
  - abstract (apply Exists_exists in e as ([id it] & ? & ?); by exists id, it).
  - abstract (intros (id & it & ? & ?); apply n, Exists_exists; by exists (id, it)).
Defined.

Lemma cancelled_item_terminal it :
  item_terminal (d_state (cancelled_item it)) = item_terminal (d_state it) || never_dispatched it.
Proof. unfold cancelled_item. destruct (item_terminal (d_state it)) eqn:E; [done|]. simpl. by destruct (never_dispatched it). Qed.

Lemma cancelled_item_failed it :
  d_state (cancelled_item it) = ItemFailed ∨ is_Some (d_error (cancelled_item it)) ↔
  d_state it = ItemFailed ∨ is_Some (d_error it).
Proof.
  unfold cancelled_item. destruct (item_terminal (d_state it)) eqn:E; [done|]. simpl.
  destruct (d_state it), (never_dispatched it); naive_solver.
Qed.

Lemma cancelled_item_run it : d_run (cancelled_item it) = d_run it.
Proof. unfold cancelled_item. by destruct (item_terminal _). Qed.

(** The items of the run after [Cancel] *)
Lemma run_cancelled_inv run s s' id it' :
  run_cancelled run s s' → items s' !! id = Some it' → d_run it' = run →
  ∃ it, items s !! id = Some it ∧ d_run it = run ∧ it' = cancelled_item it.
Proof.
  intros H Hi Hr. destruct (items s !! id) as [it|] eqn:E.
  - pose proof (rc_items _ _ _ H id it E) as E'. rewrite Hi in E'. exists it. case_decide; by simplify_eq.
  - rewrite (rc_new _ _ _ H id E) in Hi. done.
Qed.

Lemma run_cancelled_item run s s' id it :
  run_cancelled run s s' → items s !! id = Some it → d_run it = run → items s' !! id = Some (cancelled_item it).
Proof. intros H Hi Hr. rewrite (rc_items _ _ _ H id it Hi). by rewrite decide_True. Qed.

Lemma run_cancelled_settled run s s' : run_cancelled run s s' → all_settled run s' ↔ ¬ still_writing run s.
Proof.
  intros H. split.
  - intros Ha (id & it & Hi & Hr & Ht & Hn).
    pose proof (Ha id _ (run_cancelled_item _ _ _ _ _ H Hi Hr)) as E.
    rewrite cancelled_item_run, cancelled_item_terminal, Ht, Hn in E. by specialize (E Hr).
  - intros Hn id it' Hi Hr. destruct (run_cancelled_inv _ _ _ _ _ H Hi Hr) as (it & Hx & Hr' & ->).
    rewrite cancelled_item_terminal. destruct (item_terminal (d_state it)) eqn:E; [done|].
    destruct (never_dispatched it) eqn:E'; [done|]. destruct Hn. by exists id, it.
Qed.

Lemma run_cancelled_failed run s s' : run_cancelled run s s' → any_failed run s' ↔ any_failed run s.
Proof.
  intros H. split.
  - intros (id & it' & Hi & Hr & Hb). destruct (run_cancelled_inv _ _ _ _ _ H Hi Hr) as (it & Hx & Hr' & ->).
    exists id, it. by rewrite <- cancelled_item_failed.
  - intros (id & it & Hi & Hr & Hb). exists id, (cancelled_item it).
    rewrite cancelled_item_run, cancelled_item_failed. split; [by apply (run_cancelled_item run s)|done].
Qed.

(** The request for cancellation in the ledger *)
Lemma request_cancel run now g row :
  lg_runs g !! run = Some row → Terminal (r_state row) = false →
  ∃ g', (if bool_decide (r_state row = Cancelling) then mret tt else Runs.Cancel run now : RunM unit) g = (Ok tt, g') ∧
    fmap r_state (lg_runs g' !! run) = Some Cancelling.
Proof.
  intros Hr Ht. destruct (bool_decide (r_state row = Cancelling)) eqn:E.
  - apply bool_decide_eq_true in E. exists g. split; [done|]. by rewrite Hr, <- E.
  - apply bool_decide_eq_false in E.
    destruct (SetState_accepted run now Cancelling "" "" g row Hr) as (g1 & E1 & E2 & _).
    { by destruct (r_state row). }
    exists g1. unfold Runs.Cancel, GetRun. unfold_st. rewrite Hr, Ht. split; [done|]. by rewrite E2, lookup_insert_eq.
Qed.

(** [Cancel] as a whole *)
Lemma Cancel_result now online run w row :
  rtc step empty_store (w_store w) → lg_runs (w_ledger w) !! run = Some row → r_kind row = JobKind →
  Terminal (r_state row) = false →
  ∃ s' g' to,
    Cancel now online run w = (Ok (goroutines online (ListDownloadItems run (w_store w))), mkWorld s' g') ∧
    run_cancelled run (w_store w) s' ∧ fmap r_state (lg_runs g' !! run) = Some to ∧
    (still_writing run (w_store w) ∧ to = Cancelling ∨
     ¬ still_writing run (w_store w) ∧ any_failed run (w_store w) ∧ to = Failed ∨
     ¬ still_writing run (w_store w) ∧ ¬ any_failed run (w_store w) ∧ to = Cancelled).
Proof.
  intros Hw Hr Hk Ht. pose proof (reachable_unique _ Hw) as Hu.
  destruct (cancel_rows_run online run (w_store w) Hu) as (s' & Es & Hc).
  destruct (request_cancel run now (w_ledger w) row Hr Ht) as (g1 & Eg & Hg1).
  assert (Cancel now online run w =
    (_ ← finishCancelled now run; mret (goroutines online (ListDownloadItems run (w_store w)))) (mkWorld s' g1)) as ->.
  { unfold Cancel, on_ledger, on_store, GetRun. unfold_st. rewrite Hr. simpl. rewrite bool_decide_eq_true_2 by done.
    simpl. rewrite Ht. destruct (bool_decide (r_state row = Cancelling)).
    - injection Eg as <-. simpl. by rewrite Es.
    - simpl. rewrite Eg. simpl. by rewrite Es. }
  pose proof (run_cancelled_settled _ _ _ Hc) as Hset. pose proof (run_cancelled_failed _ _ _ Hc) as Hf.
  unfold_st. destruct (finishCancelled_cases now run (mkWorld s' g1)) as [(_ & Ha & to & g' & -> & Hto & Hl)|[Hno ->]]; simpl in *.
  - exists s', g', to. split_and!; [done..|by destruct Hl|]. right. rewrite <- Hset. rewrite <- Hf. destruct Hto as [[]|[]]; auto.
  - exists s', g1, Cancelling. split_and!; [done..|]. left. split; [|done]. destruct Hno as [Hno|]; [|done].
    apply dec_stable. by rewrite <- Hset.
Qed.

(** [Cancel] of a recipe download that is not over never fails.  Every unsettled item no device was
    told about is cancelled and gives its destination up at once; every other unsettled item becomes
    cancelling and keeps its destination, marked, until its device acknowledges; one goroutine is
    started for each of these whose device is online; no other item and no other lock changes.  The run
    stays cancelling while a writer may be running; otherwise it lands at once, failed if an item
    failed and cancelled if none did. *)
Theorem Cancel_spec now online run w row :
  rtc step empty_store (w_store w) → lg_runs (w_ledger w) !! run = Some row → r_kind row = JobKind →
  Terminal (r_state row) = false →
  ∃ s' g' to,
    Cancel now online run w = (Ok (goroutines online (ListDownloadItems run (w_store w))), mkWorld s' g') ∧
    run_cancelled run (w_store w) s' ∧ fmap r_state (lg_runs g' !! run) = Some to ∧
    (still_writing run (w_store w) ∧ to = Cancelling ∨
     ¬ still_writing run (w_store w) ∧ any_failed run (w_store w) ∧ to = Failed ∨
     ¬ still_writing run (w_store w) ∧ ¬ any_failed run (w_store w) ∧ to = Cancelled).
Proof. apply Cancel_result. Qed.

(** ** The acknowledgements *)

Definition settle_effect (id : string) (it : DownloadItem) (s : Store) : Store :=
  mkStore (<[id := with_state ItemCancelled (d_checkpoint it) (d_error it) it]> (items s)) (drop_lock id (place it) (locks s)).

Lemma cancel_acknowledged_effect id row it s :
  items s !! id = Some it → d_state it = ItemCancelling → place row = place it → unique_attempts s →
  cancel_acknowledged id row s = (Ok tt, settle_effect id it s).
Proof.
  intros Hi Hs Hp Hu. unfold cancel_acknowledged. unfold_st. rewrite quiesce_effect, Hp.
  unfold GetDownloadItem. simpl. rewrite Hi, Hs. simpl. rewrite transition_ok; [done|done|by rewrite Hs|rewrite Hs; set_solver|].
  by apply (unique_attempts_same s).
Qed.

Lemma settle_effect_unique id it s :
  items s !! id = Some it → unique_attempts s → unique_attempts (settle_effect id it s).
Proof.
  intros Hi. apply unique_attempts_map. intros j x. simpl. rewrite lookup_insert. case_decide as E.
  - intros [= <-]. subst j. by exists it.
  - intros Hx. by exists x.
Qed.

Lemma settle_effect_failed run id it s :
  items s !! id = Some it → d_state it = ItemCancelling → any_failed run (settle_effect id it s) ↔ any_failed run s.
Proof.
  intros Hi Hs. split.
  - intros (j & x & Hj & Hr & Hb). simpl in Hj. rewrite lookup_insert in Hj. case_decide as E; [|by exists j, x].
    subst j. injection Hj as <-. exists id, it. split; [done|]. split; [done|]. destruct Hb as [|Hb]; [done|by right].
  - intros (j & x & Hj & Hr & Hb). destruct (decide (j = id)) as [->|Hne].
    + simplify_eq. eexists id, _. simpl. rewrite lookup_insert_eq. split; [done|]. split; [done|].
      destruct Hb as [|Hb]; [congruence|by right].
    + exists j, x. simpl. by rewrite lookup_insert_ne.
Qed.

(** The run's items that wait for an acknowledgement are exactly those of [acks] *)
Definition awaiting (run : string) (acks : list string) (s : Store) : Prop :=
  ∀ id it, items s !! id = Some it → d_run it = run → item_terminal (d_state it) = false →
    id ∈ acks ∧ d_state it = ItemCancelling.

(** The reply to the goroutine of an item, which was started with the row [stopping] left *)
Definition acknowledge (now id : string) : W unit :=
  w ← get;
  match items (w_store w) !! id with
  | Some it => cancelItem_acknowledged now id it
  | None => mret tt
  end.

Lemma acknowledge_effect now run id it w :
  items (w_store w) !! id = Some it → d_run it = run → d_state it = ItemCancelling → unique_attempts (w_store w) →
  acknowledge now id w = finishCancelled now run (mkWorld (settle_effect id it (w_store w)) (w_ledger w)).
Proof.
  intros Hi Hr Hs Hu. unfold acknowledge, cancelItem_acknowledged, on_store. unfold_st. rewrite Hi.
  rewrite (cancel_acknowledged_effect id it it) by done. by rewrite Hr.
Qed.

Lemma awaiting_settle run id it ids s :
  items s !! id = Some it → awaiting run (id :: ids) s → awaiting run ids (settle_effect id it s).
Proof.
  intros Hi Ha j x. simpl. rewrite lookup_insert. case_decide as E; [intros [= <-]; done|].
  intros Hj Hr Ht. destruct (Ha j x Hj Hr Ht). set_solver.
Qed.

(** No lock of [id] at [k] *)
Definition given_up (id : string) (k : string * string) (s : Store) : Prop :=
  ∀ l, locks s !! k = Some l → lock_owned OwnerDownload id l = false.

Lemma settle_effect_given_up id it j k s :
  (j = id ∧ k = place it) ∨ given_up j k s → given_up j k (settle_effect id it s).
Proof.
  intros H l. simpl. rewrite lookup_drop_lock. case_decide as E.
  - destruct (locks s !! k) as [l0|] eqn:El; [|done]. simpl. destruct (lock_owned OwnerDownload id l0) eqn:Eo; [done|].
    intros [= <-]. destruct H as [[-> _]|H]; [done|by apply H].
  - destruct H as [[_ ->]|H]; [done|]. apply H.
Qed.

(** Every item of [ids] waits for an acknowledgement *)
Definition all_stopping (run : string) (ids : list string) (s : Store) : Prop :=
  ∀ id, id ∈ ids → ∃ it, items s !! id = Some it ∧ d_run it = run ∧ d_state it = ItemCancelling.

Lemma acknowledge_all now run ids w :
  unique_attempts (w_store w) → NoDup ids → all_stopping run ids (w_store w) →
  awaiting run ids (w_store w) → fmap r_state (lg_runs (w_ledger w) !! run) = Some Cancelling → ids ≠ [] →
  ∃ w' to, forM (acknowledge now) ids w = (Ok tt, w') ∧ all_settled run (w_store w') ∧
    fmap r_state (lg_runs (w_ledger w') !! run) = Some to ∧
    (any_failed run (w_store w) ∧ to = Failed ∨ ¬ any_failed run (w_store w) ∧ to = Cancelled) ∧
    (∀ id k, given_up id k (w_store w) → given_up id k (w_store w')) ∧
    (∀ id it, id ∈ ids → items (w_store w) !! id = Some it → given_up id (place it) (w_store w')).
Proof.
  revert w. induction ids as [|id ids IH]; intros w Hu Hd Hs Ha Hc Hne; [done|].
  apply NoDup_cons in Hd as [Hd Hnd]. destruct (Hs id ltac:(set_solver)) as (it & Hi & Hr & Ht).
  set (s1 := settle_effect id it (w_store w)).
  assert (unique_attempts s1) as Hu1 by (by apply settle_effect_unique).
  assert (awaiting run ids s1) as Ha1 by (by apply awaiting_settle).
  assert (any_failed run s1 ↔ any_failed run (w_store w)) as Hf1 by (by apply settle_effect_failed).
  assert (all_stopping run ids s1) as Hs1.
  { intros j Hj. destruct (Hs j ltac:(set_solver)) as (x & Hx & Hrx & Hsx). exists x. simpl.
    rewrite lookup_insert_ne; [done|]. by intros ->. }
  simpl. unfold_st. rewrite (acknowledge_effect now run id it) by done. fold s1.
  destruct (finishCancelled_cases now run (mkWorld s1 (w_ledger w)))
    as [(_ & Hall & to & g' & -> & Hto & Hl & _)|[Hno ->]]; simpl in *.
  - destruct ids as [|j ids].
    + exists (mkWorld s1 g'), to. rewrite <- Hf1. split_and!; [done..| |].
      * intros j k Hg. by apply settle_effect_given_up; right.
      * intros j x ->%list_elem_of_singleton Hx. simplify_eq. by apply settle_effect_given_up; left.
    + destruct (Hs1 j ltac:(set_solver)) as (x & Hx & Hrx & Hsx). specialize (Hall j x Hx Hrx). by rewrite Hsx in Hall.
  - destruct ids as [|j ids].
    { destruct Hno as [Hno|]; [|done]. destruct Hno. intros j x Hx Hrx. destruct (item_terminal _) eqn:E; [done|].
      destruct (Ha1 j x Hx Hrx E). set_solver. }
    destruct (IH (mkWorld s1 (w_ledger w))) as (w' & to & E & Hall & Hto & Hcase & Hg & Hgi); [done..|].
    exists w', to. rewrite <- Hf1. split_and!; [done..| |].
    + intros i k Hgu. apply Hg. simpl. by apply settle_effect_given_up; right.
    + intros i x [->|Hin]%elem_of_cons Hx; [|apply Hgi; [done|]].
      * simplify_eq. apply Hg. simpl. by apply settle_effect_given_up; left.
      * simpl. rewrite lookup_insert_ne; [done|]. by intros ->.
Qed.

Lemma elem_of_goroutines online rows id :
  id ∈ (goroutines online rows).*1 ↔
  ∃ it, (id, it) ∈ rows ∧ item_terminal (d_state it) = false ∧ never_dispatched it = false ∧ online (d_node it) = true.
Proof.
  unfold goroutines. rewrite list_elem_of_fmap. setoid_rewrite list_elem_of_fmap. setoid_rewrite list_elem_of_filter. split.
  - intros (x & -> & [j it] & -> & H & Hin). simpl in *. exists it. tauto.
  - intros (it & Hin & H). exists (id, stopping it). split; [done|]. by exists (id, it).
Qed.

Lemma run_cancelled_unique run s s' : run_cancelled run s s' → unique_attempts s → unique_attempts s'.
Proof.
  intros H. apply unique_attempts_map. intros id it' Hi. destruct (items s !! id) as [it|] eqn:E.
  - exists it. split; [done|]. rewrite (rc_items _ _ _ H id it E) in Hi. injection Hi as <-.
    case_decide; [apply cancelled_item_ids|done].
  - by rewrite (rc_new _ _ _ H id E) in Hi.
Qed.

(** The items [Cancel] leaves cancelling are those it starts goroutines for, when every device is online *)
Lemma run_cancelled_awaiting run s s' ids :
  run_cancelled run s s' → (∀ id, id ∈ ids ↔ id ∈ (goroutines (λ _, true) (ListDownloadItems run s)).*1) →
  all_stopping run ids s' ∧ awaiting run ids s'.
Proof.
  intros H Hids. split.
  - intros id. rewrite Hids, elem_of_goroutines. intros (it & [Hi Hr]%elem_of_ListDownloadItems & Ht & Hn & _).
    exists (cancelled_item it). rewrite cancelled_item_run. split; [by apply (run_cancelled_item run s)|].
    split; [done|]. unfold cancelled_item. by rewrite Ht, Hn.
  - intros id it' Hi Hr Ht. destruct (run_cancelled_inv _ _ _ _ _ H Hi Hr) as (it & Hx & Hr' & ->).
    rewrite cancelled_item_terminal in Ht. apply orb_false_iff in Ht as [Ht Hn]. split.
    + apply Hids, elem_of_goroutines. exists it. by rewrite elem_of_ListDownloadItems.
    + unfold cancelled_item. by rewrite Ht, Hn.
Qed.

Lemma run_cancelled_given_up run s s' id it :
  run_cancelled run s s' → items s !! id = Some it → d_run it = run → item_terminal (d_state it) = false →
  never_dispatched it = true → given_up id (place it) s'.
Proof.
  intros H Hi Hr Ht Hn l' Hl'. destruct (rc_owner _ _ _ H _ _ Hl') as (l & Hl & E). rewrite E.
  destruct (lock_owned OwnerDownload id l) eqn:Eo; [|done].
  rewrite (rc_dropped _ _ _ H id it _ l), Hn in Hl' by done. done.
Qed.

Lemma NoDup_goroutines online run s : NoDup (goroutines online (ListDownloadItems run s)).*1.
Proof.
  unfold goroutines. rewrite <- list_fmap_compose. apply (NoDup_filter_fst _ _ (NoDup_ListDownloadItems run s)).
Qed.

Lemma goroutines_some run s ids :
  ids ≡ₚ (goroutines (λ _, true) (ListDownloadItems run s)).*1 → ids ≠ [] → still_writing run s.
Proof.
  intros Hids Hne. destruct ids as [|id ids]; [done|]. assert (id ∈ id :: ids) as Hin by set_solver.
  rewrite Hids, elem_of_goroutines in Hin. destruct Hin as (it & [Hi Hr]%elem_of_ListDownloadItems & Ht & Hn & _).
  by exists id, it.
Qed.

Lemma goroutines_none run s :
  (goroutines (λ _, true) (ListDownloadItems run s)).*1 = [] → ¬ still_writing run s.
Proof.
  intros E (id & it & Hi & Hr & Ht & Hn). apply (not_elem_of_nil id). rewrite <- E.
  apply elem_of_goroutines. exists it. by rewrite elem_of_ListDownloadItems.
Qed.

Lemma cancelled_item_place it : place (cancelled_item it) = place it.
Proof. unfold cancelled_item. by destruct (item_terminal _). Qed.

(** C36: A cancelled download lands.  When every device is online and acknowledges, in whatever order,
    the run ends failed if an item failed and cancelled if none did, all its items are settled, and no
    item that [Cancel] found unsettled owns its destination any more. *)
Theorem cancel_lands now run w row ids :
  rtc step empty_store (w_store w) → lg_runs (w_ledger w) !! run = Some row → r_kind row = JobKind →
  Terminal (r_state row) = false → ids ≡ₚ (goroutines (λ _, true) (ListDownloadItems run (w_store w))).*1 →
  ∃ w' to, (_ ← Cancel now (λ _, true) run; forM (acknowledge now) ids) w = (Ok tt, w') ∧
    all_settled run (w_store w') ∧ fmap r_state (lg_runs (w_ledger w') !! run) = Some to ∧
    (any_failed run (w_store w) ∧ to = Failed ∨ ¬ any_failed run (w_store w) ∧ to = Cancelled) ∧
    ∀ id it, items (w_store w) !! id = Some it → d_run it = run → item_terminal (d_state it) = false →
      given_up id (place it) (w_store w').
Proof.
  intros Hw Hr Hk Ht Hids. destruct (Cancel_result now (λ _, true) run w row) as (s' & g' & to & E & Hc & Hto & Hcase); [done..|].
  destruct (run_cancelled_awaiting run (w_store w) s' ids) as [Hst Ha]; [done|intros id; by rewrite Hids|].
  pose proof (run_cancelled_failed _ _ _ Hc) as Hf.
  assert (NoDup ids) as Hnd by (rewrite Hids; apply NoDup_goroutines).
  unfold_st. rewrite E. destruct (decide (ids = [])) as [->|Hne].
  - assert (¬ still_writing run (w_store w)) as Hn by (by apply (goroutines_none run (w_store w)), Permutation_nil).
    exists (mkWorld s' g'), to. split_and!; [done| |done| |].
    + by apply (run_cancelled_settled run (w_store w)).
    + naive_solver.
    + intros id it Hi Hrun Hu. apply (run_cancelled_given_up run (w_store w)); try done.
      destruct (never_dispatched it) eqn:En; [done|]. destruct Hn. by exists id, it.
  - assert (still_writing run (w_store w)) as Hsw by (by apply (goroutines_some run _ ids)).
    assert (to = Cancelling) as -> by naive_solver.
    destruct (acknowledge_all now run ids (mkWorld s' g')) as (w' & to & E' & Hall & Hto' & Hcase' & Hg & Hgi); try done.
    { by apply (run_cancelled_unique run (w_store w)), reachable_unique. }
    exists w', to. simpl in Hcase'. rewrite <- Hf. split_and!; [done..|]. intros id it Hi Hrun Hu.
    destruct (never_dispatched it) eqn:En; [by apply Hg, (run_cancelled_given_up run (w_store w))|].
    rewrite <- cancelled_item_place. apply Hgi; [|by apply (run_cancelled_item run (w_store w))].
    rewrite Hids. apply elem_of_goroutines. exists it. by rewrite elem_of_ListDownloadItems.
Qed.

(** ** [Reconcile] *)

Definition interrupted_row (now : string) (row : RunRow) : RunRow :=
  if Terminal (r_state row) then row
  else moved now Interrupted "download.interrupted" "Acquisition was interrupted; review a fresh plan and choose Resume" row.

(** The world after the runs [seen] were interrupted *)
Record interrupted_upto (now : string) (seen : list string) (w0 w : World) : Prop := {
  iu_items id : items (w_store w) !! id =
    (λ it, if decide (d_run it ∈ seen) then interrupt_one (d_run it) it else it) <$> items (w_store w0) !! id;
  iu_locks : locks (w_store w) = locks (w_store w0);
  iu_runs r : lg_runs (w_ledger w) !! r =
    (λ row, if decide (r ∈ seen) then interrupted_row now row else row) <$> lg_runs (w_ledger w0) !! r;
  iu_leases : lg_leases (w_ledger w) = lg_leases (w_ledger w0);
}.

Lemma SetState_interrupted now r code msg g :
  lg_leases (snd (SetState r now Interrupted code msg g)) = lg_leases g ∧
  ∀ x, lg_runs (snd (SetState r now Interrupted code msg g)) !! x =
    (λ row, if decide (x = r) then if Terminal (r_state row) then row else moved now Interrupted code msg row else row)
      <$> lg_runs g !! x.
Proof.
  destruct (SetState_cases r now Interrupted code msg g) as
    [(row & Hr & Hc & ->)|(e & -> & [[Hr _]|(row & Hr & Hc & _)])]; (split; [done|]); intros x; simpl.
  - rewrite lookup_insert. case_decide as E; subst.
    + rewrite Hr. simpl. rewrite decide_True by done. destruct (Terminal (r_state row)) eqn:Et; [|done].
      by rewrite terminal_stuck in Hc.
    + destruct (lg_runs g !! x); [|done]. simpl. by rewrite decide_False.
  - destruct (lg_runs g !! x) eqn:Ex; [|done]. simpl. rewrite decide_False by congruence. done.
  - destruct (lg_runs g !! x) as [row'|] eqn:Ex; [|done]. simpl. case_decide; [|done]. subst. simplify_eq.
    destruct (Terminal (r_state row)) eqn:Et; [done|]. by rewrite nonterminal_interruptible in Hc.
Qed.

Lemma interrupted_upto_nil now w : interrupted_upto now [] w w.
Proof. split; try done; intros x; [by destruct (items _ !! x)|by destruct (lg_runs _ !! x)]. Qed.

(** One more run *)
Lemma interrupted_upto_cons now seen w0 w r :
  r ∉ seen → interrupted_upto now seen w0 w →
  interrupted_upto now (r :: seen) w0
    (mkWorld (set_items (fmap (interrupt_one r)) (w_store w))
       (snd (SetState r now Interrupted "download.interrupted"
               "Acquisition was interrupted; review a fresh plan and choose Resume" (w_ledger w)))).
Proof.
  intros Hn [Hi Hl Hr Hs].
  destruct (SetState_interrupted now r "download.interrupted"
    "Acquisition was interrupted; review a fresh plan and choose Resume" (w_ledger w)) as [El Er].
  split; simpl.
  - intros id. rewrite lookup_fmap, Hi. destruct (items (w_store w0) !! id) as [it|]; [|done]. simpl. f_equal.
    destruct (decide (d_run it = r)) as [E|E].
    + rewrite (decide_False (P := d_run it ∈ seen)), decide_True by set_solver. by rewrite E.
    + assert (∀ x, d_run x = d_run it → interrupt_one r x = x) as Hx.
      { intros x Ex. unfold interrupt_one. by rewrite bool_decide_eq_false_2 by congruence. }
      rewrite Hx by (case_decide; [unfold interrupt_one; by destruct (_ && _)|done]). repeat case_decide; set_solver.
  - done.
  - intros x. rewrite Er, Hr. destruct (lg_runs (w_ledger w0) !! x) as [row|]; [|done]. simpl. f_equal.
    destruct (decide (x = r)) as [->|E].
    + rewrite (decide_False (P := r ∈ seen)), (decide_True (P := r ∈ r :: seen)) by set_solver. done.
    + repeat case_decide; set_solver.
  - by rewrite El.
Qed.

Lemma reconcile_items_spec now rows seen w0 w :
  interrupted_upto now seen w0 w →
  ∃ seen' w', reconcile_items now seen rows w = (Ok seen', w') ∧ interrupted_upto now seen' w0 w' ∧
    ∀ r, r ∈ seen' ↔ r ∈ seen ∨ ∃ id it, (id, it) ∈ rows ∧ d_run it = r.
Proof.
  revert seen w. induction rows as [|[id it] rows IH]; intros seen w Hu.
  { exists seen, w. split; [done|]. split; [done|]. set_solver. }
  simpl. destruct (bool_decide (d_run it ∈ seen)) eqn:E.
  - apply bool_decide_eq_true in E. destruct (IH seen w Hu) as (seen' & w' & -> & Hu' & Hs).
    exists seen', w'. split; [done|]. split; [done|]. intros r. rewrite Hs. split.
    + intros [|(j & x & ? & ?)]; [by left|]. right. exists j, x. set_solver.
    + intros [|(j & x & [?|?]%elem_of_cons & ?)]; simplify_eq; [by left|by left|]. right. by exists j, x.
  - apply bool_decide_eq_false in E. unfold_st.
    pose proof (interrupted_upto_cons now seen w0 w (d_run it) E Hu) as Hu1.
    set (g1 := SetState (d_run it) now Interrupted "download.interrupted"
       "Acquisition was interrupted; review a fresh plan and choose Resume" (w_ledger w)) in *.
    destruct (IH (d_run it :: seen) _ Hu1) as (seen' & w' & E' & Hu' & Hs). exists seen', w'. split_and!; [|done|].
    + rewrite <- E'. unfold on_store, on_ledger, sql, InterruptDownloadItemsForRun. unfold_st. simpl. fold g1.
      by destruct g1 as [[]].
    + intros r. rewrite Hs. split.
      * intros [[->|]%elem_of_cons|(j & x & ? & ?)]; [right; exists id, it; set_solver|by left|].
        right. exists j, x. set_solver.
      * intros [|(j & x & [?|?]%elem_of_cons & ?)]; simplify_eq; [left; set_solver|left; set_solver|]. right. by exists j, x.
Qed.

(** The runs with an unsettled item on one of [nodes] *)
Definition stranded (nodes : list string) (s : Store) (r : string) : Prop :=
  ∃ id it, items s !! id = Some it ∧ d_run it = r ∧ d_node it ∈ nodes ∧ item_terminal (d_state it) = false.

Lemma elem_of_ListActive node s id it :
  (id, it) ∈ ListActiveDownloadItemsByNode node s ↔
  items s !! id = Some it ∧ d_node it = node ∧ item_terminal (d_state it) = false.
Proof.
  unfold ListActiveDownloadItemsByNode. rewrite merge_sort_Permutation, list_elem_of_filter, elem_of_map_to_list. simpl. tauto.
Qed.

Lemma interrupt_one_terminal it : item_terminal (d_state (interrupt_one (d_run it) it)) = true.
Proof.
  unfold interrupt_one. rewrite bool_decide_eq_true_2 by done. simpl.
  destruct (item_terminal (d_state it)) eqn:E; simpl; [done|by rewrite ?E].
Qed.

(** A run that was not seen still has the items it had *)
Lemma interrupted_upto_active now seen w0 w node r :
  interrupted_upto now seen w0 w → r ∉ seen →
  (∃ id it, (id, it) ∈ ListActiveDownloadItemsByNode node (w_store w) ∧ d_run it = r) ↔ stranded [node] (w_store w0) r.
Proof.
  intros Hu Hn. unfold stranded. setoid_rewrite elem_of_ListActive. setoid_rewrite (iu_items _ _ _ _ Hu). split.
  - intros (id & it & (Hi & Hd & Ht) & Hr). apply fmap_Some_1 in Hi as (x & Hx & ->).
    case_decide as E; [by rewrite interrupt_one_terminal in Ht|]. exists id, x. set_solver.
  - intros (id & it & Hi & Hr & Hd & Ht). exists id, it. rewrite Hi. simpl. rewrite decide_False by congruence. set_solver.
Qed.

Lemma reconcile_nodes_spec now nodes seen w0 w :
  interrupted_upto now seen w0 w →
  ∃ seen' w', reconcile_nodes now seen nodes w = (Ok tt, w') ∧ interrupted_upto now seen' w0 w' ∧
    ∀ r, r ∈ seen' ↔ r ∈ seen ∨ stranded nodes (w_store w0) r.
Proof.
  revert seen w. induction nodes as [|node nodes IH]; intros seen w Hu; simpl.
  { exists seen, w. split; [done|]. split; [done|]. unfold stranded. set_solver. }
  unfold_st.
  destruct (reconcile_items_spec now (ListActiveDownloadItemsByNode node (w_store w)) seen w0 w Hu)
    as (seen1 & w1 & -> & Hu1 & Hs1).
  destruct (IH seen1 w1 Hu1) as (seen' & w' & -> & Hu' & Hs'). exists seen', w'. split; [done|]. split; [done|].
  intros r. rewrite Hs', Hs1. destruct (decide (r ∈ seen)) as [|Hr]; [tauto|].
  rewrite (interrupted_upto_active now seen w0 w node r Hu Hr). unfold stranded. set_solver.
Qed.

(** After a restart [Reconcile] never fails.  Every unsettled item of a run with an unsettled item
    on a listed device is interrupted and keeps its attempt ids; that run is interrupted unless it was
    over; no lock is released, so a writer that may still run keeps its destination; no lease and no
    other item or run changes.  In particular no listed device has an unsettled item left. *)
Theorem Reconcile_spec now nodes w :
  ∃ w', Reconcile now nodes w = (Ok tt, w') ∧
    locks (w_store w') = locks (w_store w) ∧ lg_leases (w_ledger w') = lg_leases (w_ledger w) ∧
    (∀ id it, items (w_store w) !! id = Some it → ∃ it', items (w_store w') !! id = Some it' ∧
       (stranded nodes (w_store w) (d_run it) ∧ it' = interrupt_one (d_run it) it ∨
        ¬ stranded nodes (w_store w) (d_run it) ∧ it' = it)) ∧
    (∀ r row, lg_runs (w_ledger w) !! r = Some row → ∃ row', lg_runs (w_ledger w') !! r = Some row' ∧
       (stranded nodes (w_store w) r ∧ row' = interrupted_row now row ∨
        ¬ stranded nodes (w_store w) r ∧ row' = row)) ∧
    ∀ r, ¬ stranded nodes (w_store w') r.
Proof.
  destruct (reconcile_nodes_spec now nodes [] w w (interrupted_upto_nil now w)) as (seen & w' & E & [Hi Hl Hr Hs] & Hseen).
  exists w'. split_and!; [done..| | |].
  - intros id it H. rewrite Hi, H. eexists. split; [done|]. case_decide as Ed; rewrite Hseen in Ed; set_solver.
  - intros r row H. rewrite Hr, H. eexists. split; [done|]. case_decide as Ed; rewrite Hseen in Ed; set_solver.
  - intros r (id & it & H & Er & Hn & Ht). rewrite Hi in H. apply fmap_Some_1 in H as (x & Hx & ->).
    case_decide as Ed; [by rewrite interrupt_one_terminal in Ht|]. rewrite Hseen in Ed. apply Ed. right. by exists id, x.
Qed.

(** ** Late replies *)

Lemma item_with_command s id it command node :
  unique_attempts s → items s !! id = Some it → d_command it = Some command → command ≠ "" → d_node it = node →
  GetDownloadItemByCommand command node s = Some (id, it).
Proof.
  intros Hu Hi Hc Hne Hn. unfold GetDownloadItemByCommand, item_with.
  destruct (filter _ _) as [|[j x] l] eqn:E.
  - assert ((id, it) ∈ ([] : list (string * DownloadItem))) as Hin; [|set_solver].
    rewrite <- E, list_elem_of_filter, elem_of_map_to_list. done.
  - assert ((j, x) ∈ (j, x) :: l) as Hin by set_solver. rewrite <- E, list_elem_of_filter, elem_of_map_to_list in Hin.
    destruct Hin as [(_ & Hx & _) Hj]. simpl in *. destruct (decide (j = id)) as [->|Hd]; [by simplify_eq|].
    destruct (proj1 (ids_unique_spec id it (items s)) (Hu id it Hi) j x Hj Hd) as [H _]. by destruct (H command Hc).
Qed.

(** What a late acknowledgement leaves of the item's row *)
Definition late_item (it : DownloadItem) : DownloadItem :=
  if bool_decide (d_state it = ItemCancelling) then with_state ItemCancelled (d_checkpoint it) (d_error it) it else it.

Lemma late_ack_store now id it w :
  items (w_store w) !! id = Some it → unwaited (d_state it) = true → unique_attempts (w_store w) →
  ∃ w', late_ack now id it w = (Ok tt, w') ∧
    w_store w' = mkStore (<[id := late_item it]> (items (w_store w))) (drop_lock id (place it) (locks (w_store w))) ∧
    (d_state it = ItemInterrupted → w_ledger w' = w_ledger w).
Proof.
  intros Hi Hun Hu. unfold late_ack, on_store. unfold_st. rewrite quiesce_effect. unfold late_item.
  destruct (bool_decide (d_state it = ItemCancelling)) eqn:Ec.
  - apply bool_decide_eq_true in Ec. simpl.
    rewrite transition_ok; [|done|by rewrite Ec|rewrite Ec; set_solver|by apply (unique_attempts_same (w_store w))]. simpl.
    match goal with |- context [finishCancelled now ?r ?x] =>
      destruct (finishCancelled_cases now r x) as [(_ & _ & to & g' & -> & _)|[_ ->]] end;
      eexists; (split; [done|]); (split; [done|]); congruence.
  - eexists. split; [done|]. simpl. split; [|done]. unfold set_locks. by rewrite insert_id.
Qed.

(** A late reply of a device, for a command nobody waits for any more, that matches the item it was
    sent for proves that its writer stopped: the destination is given up, a cancelling item is
    cancelled, an interrupted item stays exactly as it is, and nothing else of the store changes.  A
    reply that does not match, or whose output cannot be decoded, changes nothing. *)
Theorem late_reply now node command out w id it :
  rtc step empty_store (w_store w) → items (w_store w) !! id = Some it → d_command it = Some command → command ≠ "" →
  d_node it = node → unwaited (d_state it) = true →
  ∃ w', OnResult now node command out w = (Ok true, w') ∧
    ((∃ o, out = Some o ∧ output_matches o id it = true ∧ given_up id (place it) (w_store w') ∧
        items (w_store w') = <[id := late_item it]> (items (w_store w)) ∧
        (d_state it = ItemInterrupted → w_ledger w' = w_ledger w ∧ items (w_store w') = items (w_store w)) ∧
        ∀ k l, locks (w_store w) !! k = Some l → k ≠ place it ∨ lock_owned OwnerDownload id l = false →
          locks (w_store w') !! k = Some l)
     ∨ (∀ o, out = Some o → output_matches o id it = false) ∧ w' = w).
Proof.
  intros Hw Hi Hc Hne Hn Hun. pose proof (reachable_unique _ Hw) as Hu. unfold OnResult. unfold_st.
  rewrite (item_with_command _ id it) by done. destruct out as [o|]; [|by exists w; split; [|right]].
  rewrite Hun. destruct (output_matches o id it) eqn:Eo; simpl; [|exists w; split; [done|right; naive_solver]].
  destruct (late_ack_store now id it w Hi Hun Hu) as (w' & -> & Es & El). exists w'. split; [done|]. left. exists o.
  split_and!; [done|done| | | |].
  - intros l. rewrite Es. simpl. rewrite lookup_drop_lock, decide_True by done.
    destruct (locks (w_store w) !! place it) as [l0|]; [|done]. simpl.
    destruct (lock_owned OwnerDownload id l0) eqn:E; [done|]. by intros [= <-].
  - by rewrite Es.
  - intros Hin. split; [by apply El|]. rewrite Es. simpl. unfold late_item. rewrite Hin. simpl. by rewrite insert_id.
  - intros k l Hk Hcase. rewrite Es. simpl. rewrite lookup_drop_lock, Hk. case_decide as E; [|done]. simpl.
    destruct Hcase as [?| ->]; done.
Qed.

(** ** Witnesses *)

Definition sample_create (id key : string) (s : Store) : Store :=
  snd (CreateDownloadItem id "run-1" key "node-1" (String.append "/models/" key) "hf://org/m@rev" "" ActionDownloadOrigin s).

Definition sample_row (key : string) (st : ItemState) (command : option string) : DownloadItem :=
  mkItem "run-1" key "node-1" (String.append "/models/" key) "hf://org/m@rev" "" ActionDownloadOrigin st command None "{}" None.

(** Two items; the first is transferring under a command, the second is pending *)
Definition sample_downloads : Store :=
  snd (TransitionDownloadItem "item-1" (sample_row "a" ItemChecking (Some "cmd-1")) ItemTransferring "{}" None
    (snd (BindDownloadItemCommand "item-1" (sample_row "a" ItemChecking None) "cmd-1"
      (snd (TransitionDownloadItem "item-1" (sample_row "a" ItemPending None) ItemChecking "{}" None
        (snd (AcquireDestinationLock "node-1" "/models/a" "hf://org/m@rev" "" OwnerDownload "item-1" (Some "run-1") (Some "item-1")
          (sample_create "item-2" "b" (sample_create "item-1" "a" empty_store))))))))).

Lemma sample_downloads_reachable : rtc step empty_store sample_downloads.
Proof. repeat (eapply rtc_r; [|constructor]). apply rtc_refl. Qed.

Definition sample_runs : Ledger :=
  exec_all [OpCreate "run-1" "t0" "library" JobKind [] ""; OpSetState "run-1" "t1" Running "" ""] (empty_ledger ∅).

Definition sample_world : World := mkWorld sample_downloads sample_runs.

Definition sample_run_row : RunRow :=
  mkRun "library" JobKind Running (encode (JObject [])) (encode (JObject [])) None None None None "t0" (Some "t1") None (to_bytes "{}").

Lemma Cancel_spec_witness :
  ∃ s' g' to,
    Cancel "t2" (λ _, true) "run-1" sample_world =
      (Ok (goroutines (λ _, true) (ListDownloadItems "run-1" sample_downloads)), mkWorld s' g') ∧
    run_cancelled "run-1" sample_downloads s' ∧ fmap r_state (lg_runs g' !! "run-1") = Some to ∧
    (still_writing "run-1" sample_downloads ∧ to = Cancelling ∨
     ¬ still_writing "run-1" sample_downloads ∧ any_failed "run-1" sample_downloads ∧ to = Failed ∨
     ¬ still_writing "run-1" sample_downloads ∧ ¬ any_failed "run-1" sample_downloads ∧ to = Cancelled).
Proof.
  apply (Cancel_spec "t2" (λ _, true) "run-1" sample_world sample_run_row).
  - exact sample_downloads_reachable.
  - vm_compute. reflexivity.
  - reflexivity.
  - reflexivity.
Defined.

Lemma cancel_lands_witness :
  ∃ w' to, (_ ← Cancel "t3" (λ _, true) "run-1"; forM (acknowledge "t3") ["item-1"]) sample_world = (Ok tt, w') ∧
    all_settled "run-1" (w_store w') ∧ fmap r_state (lg_runs (w_ledger w') !! "run-1") = Some to ∧
    (any_failed "run-1" sample_downloads ∧ to = Failed ∨ ¬ any_failed "run-1" sample_downloads ∧ to = Cancelled) ∧
    ∀ id it, items sample_downloads !! id = Some it → d_run it = "run-1" → item_terminal (d_state it) = false →
      given_up id (place it) (w_store w').
Proof.
  apply (cancel_lands "t3" "run-1" sample_world sample_run_row ["item-1"]).
  - exact sample_downloads_reachable.
  - vm_compute. reflexivity.
  - reflexivity.
  - reflexivity.
  - vm_compute. reflexivity.
Defined.

(** The same store after a restart *)
Definition sample_restarted : World := mkWorld (snd (InterruptDownloadItemsForRun "run-1" sample_downloads)) sample_runs.

Lemma late_reply_witness :
  let it := sample_row "a" ItemInterrupted (Some "cmd-1") in
  ∃ w', OnResult "t4" "node-1" "cmd-1" (Some (mkOutput "item-1" "hf://org/m@rev" "/models/a" "")) sample_restarted = (Ok true, w') ∧
    ((∃ o, Some (mkOutput "item-1" "hf://org/m@rev" "/models/a" "") = Some o ∧ output_matches o "item-1" it = true ∧
        given_up "item-1" (place it) (w_store w') ∧
        items (w_store w') = <["item-1" := late_item it]> (items (w_store sample_restarted)) ∧
        (d_state it = ItemInterrupted → w_ledger w' = w_ledger sample_restarted ∧ items (w_store w') = items (w_store sample_restarted)) ∧
        ∀ k l, locks (w_store sample_restarted) !! k = Some l → k ≠ place it ∨ lock_owned OwnerDownload "item-1" l = false →
          locks (w_store w') !! k = Some l)
     ∨ (∀ o, Some (mkOutput "item-1" "hf://org/m@rev" "/models/a" "") = Some o → output_matches o "item-1" it = false) ∧
       w' = sample_restarted).
Proof.
  apply (late_reply "t4" "node-1" "cmd-1" _ sample_restarted "item-1").
  - eapply rtc_r; [exact sample_downloads_reachable|constructor].
  - vm_compute. reflexivity.
  - reflexivity.
  - discriminate.
  - reflexivity.
  - reflexivity.
Defined.
