(* ===== verification/StoragePlan.v ===== *)
(** * Storage estimates of a download plan: [storagePlan] of [internal/downloads/planning.go]

    The resources of a plan are grouped by device and filesystem; each group sums what is still to
    be fetched, counts it again for staging, and is compared with the least free space reported.
    Byte counts are [int64] with wrap-around. *)

From S2P Require Import Prelude GoStrings ShellQuote Downloads.
Open Scope Z_scope.

(** ** Data *)

Record PlanResource := mkPlanResource {
  pr_key : string;
  pr_node : string;
  pr_destination : string;
  pr_action : Action;
  pr_remaining : option Z;
}.

Record StorageObservation := mkStorageObservation {
  so_filesystem : string;
  so_available : option Z;
  so_total : option Z;
}.

Record Storage := mkStorage {
  st_node : string;
  st_filesystem : string;
  st_destination : string;
  st_keys : list string;
  st_required : option Z;
  st_staging : option Z;
  st_available : option Z;
  st_total : option Z;
  st_reserve : Z;
  st_sufficient : option bool;
}.

(** A group while resources are added, with its entry of [unknown] *)
Record Group := mkGroup {
  g_node : string;
  g_filesystem : string;
  g_destination : string;
  g_keys : list string;
  g_required : Z;
  g_staging : Z;
  g_available : option Z;
  g_total : option Z;
  g_unknown : bool;
}.

Notation Observations := (gmap string StorageObservation).

(** ** Operations *)

Definition filesystem_of (obs : Observations) (r : PlanResource) : string :=
  match obs !! pr_key r with
  | Some o => if bool_decide (so_filesystem o = "") then pr_destination r else so_filesystem o
  | None => pr_destination r
  end.

Definition storage_key (obs : Observations) (r : PlanResource) : string :=
  pr_node r +:+ String newline (filesystem_of obs r).

Definition new_group (obs : Observations) (r : PlanResource) : Group :=
  mkGroup (pr_node r) (filesystem_of obs r) (pr_destination r) [] 0 0 None None false.

(** The smaller of the free spaces seen *)
Definition least (seen new : option Z) : option Z :=
  match new, seen with
  | Some a, Some m => if a <? m then Some a else Some m
  | Some a, None => Some a
  | None, _ => seen
  end.

Definition observe (o : option StorageObservation) (r : PlanResource) (g : Group) : Group :=
  let keys := g_keys g ++ [pr_key r] in
  match o with
  | Some o => mkGroup (g_node g) (g_filesystem g) (g_destination g) keys (g_required g) (g_staging g)
                (least (g_available g) (so_available o)) (so_total o) (g_unknown g)
  | None => mkGroup (g_node g) (g_filesystem g) (g_destination g) keys (g_required g) (g_staging g)
              (g_available g) (g_total g) (g_unknown g)
  end.

Definition mark_unknown (g : Group) : Group :=
  mkGroup (g_node g) (g_filesystem g) (g_destination g) (g_keys g) (g_required g) (g_staging g)
    (g_available g) (g_total g) true.

Definition count_bytes (b : Z) (g : Group) : Group :=
  mkGroup (g_node g) (g_filesystem g) (g_destination g) (g_keys g)
    (wrap64 (g_required g + b)) (wrap64 (g_staging g + b)) (g_available g) (g_total g) (g_unknown g).

(** The loop body on the resource's own group *)
Definition add_to_group (obs : Observations) (g : option Group) (r : PlanResource) : option Group :=
  let g := observe (obs !! pr_key r) r (default (new_group obs r) g) in
  Some (if bool_decide (pr_action r = ActionReuse) then g
        else match pr_remaining r with
             | None => mark_unknown g
             | Some b => if (b <? 0) || (wrap64 (2 ^ 62 - g_required g) <? b) then mark_unknown g else count_bytes b g
             end).

Definition add_resource (obs : Observations) (groups : gmap string Group) (r : PlanResource) : gmap string Group :=
  partial_alter (λ g, add_to_group obs g r) (storage_key obs r) groups.

Definition finish_group (g : Group) : Storage :=
  if g_unknown g then
    mkStorage (g_node g) (g_filesystem g) (g_destination g) (g_keys g) None None (g_available g) (g_total g)
      StorageReserveBytes None
  else
    mkStorage (g_node g) (g_filesystem g) (g_destination g) (g_keys g) (Some (g_required g)) (Some (g_staging g))
      (g_available g) (g_total g) StorageReserveBytes
      (match g_available g with
       | Some available =>
           let need := wrap64 (g_required g + g_staging g) in
           if need <=? max_int64 - StorageReserveBytes
           then Some (wrap64 (need + StorageReserveBytes) <=? available) else None
       | None => None
       end).

Definition storagePlan (resources : list PlanResource) (obs : Observations) : list Storage :=
  let groups := foldl (add_resource obs) ∅ resources in
  let keys := sort_strings (map_to_list groups).*1 in
  omap (λ key, finish_group <$> groups !! key) keys.

(** ** Groups *)

(** The resources that share a group *)
Definition members (obs : Observations) (key : string) (rs : list PlanResource) : list PlanResource :=
  filter (λ r, storage_key obs r = key) rs.

Lemma groups_lookup obs rs groups key :
  foldl (add_resource obs) groups rs !! key = foldl (add_to_group obs) (groups !! key) (members obs key rs).
Proof.
  revert groups. induction rs as [|r rs IH]; intros groups; [done|]. simpl. rewrite IH. unfold members.
  rewrite filter_cons. unfold add_resource at 1. case_decide as E.
  - subst. simpl. by rewrite lookup_partial_alter_eq.
  - by rewrite lookup_partial_alter_ne.
Qed.

(** What a group still fetches; [None] when a size is unknown or the sum exceeds [2^62] *)
Definition to_fetch (r : PlanResource) : Z :=
  if bool_decide (pr_action r = ActionReuse) then 0 else default 0 (pr_remaining r).

Fixpoint total (ms : list PlanResource) : Z :=
  match ms with [] => 0 | r :: ms => to_fetch r + total ms end.

Definition size_known (r : PlanResource) : Prop :=
  pr_action r = ActionReuse ∨ ∃ b, pr_remaining r = Some b ∧ 0 ≤ b.

Lemma total_app xs ys : total (xs ++ ys) = total xs + total ys.
Proof. induction xs as [|x xs IH]; simpl; [done|]. rewrite IH. lia. Qed.

(** What a group says of the resources added to it *)
Record summary (obs : Observations) (ms : list PlanResource) (g : Group) : Prop := {
  sm_keys : g_keys g = pr_key <$> ms;
  sm_range : 0 ≤ g_required g ≤ 2 ^ 62;
  sm_staging : g_staging g = g_required g;
  sm_total : g_unknown g = false → Forall size_known ms ∧ g_required g = total ms;
  sm_unknown : g_unknown g = true → ¬ Forall size_known ms ∨ 2 ^ 62 < total ms;
  sm_available : ∀ m, g_available g = Some m →
    (∃ r o, r ∈ ms ∧ obs !! pr_key r = Some o ∧ so_available o = Some m) ∧
    ∀ r o a, r ∈ ms → obs !! pr_key r = Some o → so_available o = Some a → m ≤ a;
  sm_no_available : g_available g = None → ∀ r o, r ∈ ms → obs !! pr_key r = Some o → so_available o = None;
}.

Lemma new_group_summary obs r : summary obs [] (new_group obs r).
Proof. split; simpl; done || set_solver. Qed.

Lemma size_known_fetch r : size_known r → 0 ≤ to_fetch r.
Proof.
  intros [E|(b & E & Hb)]; unfold to_fetch; [by rewrite bool_decide_eq_true_2|]. case_bool_decide; [done|]. by rewrite E.
Qed.

Lemma total_nonneg ms : Forall size_known ms → 0 ≤ total ms.
Proof. induction 1 as [|r ms Hr _ IH]; simpl; [done|]. apply size_known_fetch in Hr. lia. Qed.

Lemma unknown_snoc ms r :
  (¬ Forall size_known ms ∨ 2 ^ 62 < total ms) → ¬ Forall size_known (ms ++ [r]) ∨ 2 ^ 62 < total (ms ++ [r]).
Proof.
  rewrite Forall_app, Forall_singleton, total_app. simpl. intros [H|H]; [tauto|].
  destruct (decide (bool_decide (pr_action r = ActionReuse) = true)) as [Ha|Ha].
  - apply bool_decide_eq_true in Ha. right. unfold to_fetch. rewrite bool_decide_eq_true_2 by done. lia.
  - destruct (pr_remaining r) as [b|] eqn:Eb.
    + destruct (decide (0 ≤ b)).
      * right. assert (size_known r) as Hk%size_known_fetch by (right; eauto). lia.
      * left. intros [_ [Hr|(b' & Hb & ?)]]; [by rewrite bool_decide_eq_true_2 in Ha|by simplify_eq].
    + left. intros [_ [Hr|(b' & Hb & ?)]]; [by rewrite bool_decide_eq_true_2 in Ha|congruence].
Qed.

(** Recording the observation of a resource *)
Lemma least_spec seen new m :
  least seen new = Some m →
  (seen = Some m ∨ new = Some m) ∧ (∀ a, seen = Some a → m ≤ a) ∧ (∀ a, new = Some a → m ≤ a).
Proof.
  unfold least. destruct new as [a|], seen as [s|]; try (intros; by split_and!; naive_solver lia).
  destruct (Z.ltb_spec a s); intros; simplify_eq; split_and!; naive_solver lia.
Qed.

Lemma least_none seen new : least seen new = None → seen = None ∧ new = None.
Proof. unfold least. destruct new, seen; try done. by case_match. Qed.

(** The observation of one more resource, before its bytes are counted *)
Lemma observe_available obs ms g r :
  summary obs ms g → let g' := observe (obs !! pr_key r) r g in
  (∀ m, g_available g' = Some m →
    (∃ r' o, r' ∈ ms ++ [r] ∧ obs !! pr_key r' = Some o ∧ so_available o = Some m) ∧
    ∀ r' o a, r' ∈ ms ++ [r] → obs !! pr_key r' = Some o → so_available o = Some a → m ≤ a) ∧
  (g_available g' = None → ∀ r' o, r' ∈ ms ++ [r] → obs !! pr_key r' = Some o → so_available o = None).
Proof.
  intros [_ _ _ _ _ Ha Hn].
  assert (∀ r', r' ∈ ms ++ [r] → r' ∈ ms ∨ r' = r) as Hcase by set_solver.
  unfold observe. destruct (obs !! pr_key r) as [o|] eqn:Eo; cbn; split.
  - intros m (H1 & H2 & H3)%least_spec. split.
    + destruct H1 as [H1|H1]; [|exists r, o; set_solver].
      destruct (Ha m H1) as [(r' & o' & ? & ? & ?) _]. exists r', o'. set_solver.
    + intros r' o' a [Hr'| ->]%Hcase Ho' Hoa; [|simplify_eq; by apply H3].
      destruct (g_available g) as [m'|] eqn:Eg.
      * destruct (Ha m' eq_refl) as [_ Hle]. specialize (Hle _ _ _ Hr' Ho' Hoa). specialize (H2 m' eq_refl). lia.
      * rewrite (Hn eq_refl _ _ Hr' Ho') in Hoa. done.
  - intros [H1 H2]%least_none r' o' [Hr'| ->]%Hcase Ho'; [by eapply Hn|by simplify_eq].
  - intros m Hm. destruct (Ha m Hm) as [(r' & o' & ? & ? & ?) Hle]. split; [exists r', o'; set_solver|].
    intros r0 o0 a [Hr0| ->]%Hcase Ho0; [by eapply Hle|congruence].
  - intros Hm r' o' [Hr'| ->]%Hcase Ho'; [by eapply Hn|congruence].
Qed.

Lemma observe_fields o r g :
  g_keys (observe o r g) = g_keys g ++ [pr_key r] ∧ g_required (observe o r g) = g_required g ∧
  g_staging (observe o r g) = g_staging g ∧ g_unknown (observe o r g) = g_unknown g.
Proof. by destruct o. Qed.


Lemma mark_unknown_summary obs ms g g1 r :
  summary obs ms g → g1 = observe (obs !! pr_key r) r g →
  ¬ Forall size_known (ms ++ [r]) ∨ 2 ^ 62 < total (ms ++ [r]) → summary obs (ms ++ [r]) (mark_unknown g1).
Proof.
  intros Hs -> Hu. destruct (observe_available obs ms g r Hs) as [Ha Hn]. destruct Hs as [Hk Hr Hst _ _ _ _].
  destruct (observe_fields (obs !! pr_key r) r g) as (Ek & Er & Es & _).
  split; cbn; [|lia|lia|done|done|exact Ha|exact Hn]. by rewrite Ek, Hk, fmap_app.
Qed.

Lemma keep_summary obs ms g g1 r :
  summary obs ms g → g1 = observe (obs !! pr_key r) r g → pr_action r = ActionReuse → summary obs (ms ++ [r]) g1.
Proof.
  intros Hs -> Hre. destruct (observe_available obs ms g r Hs) as [Ha Hn]. destruct Hs as [Hk Hr Hst Ht Hu _ _].
  destruct (observe_fields (obs !! pr_key r) r g) as (Ek & Er & Es & Eu).
  assert (to_fetch r = 0) as Hf by (unfold to_fetch; by rewrite bool_decide_eq_true_2).
  split; [by rewrite Ek, Hk, fmap_app|lia|lia| | |exact Ha|exact Hn]; rewrite Eu.
  - intros [H1 H2]%Ht. rewrite Forall_app, Forall_singleton, total_app. simpl. split; [|lia]. split; [done|by left].
  - intros H. by apply unknown_snoc, Hu.
Qed.

Lemma count_summary obs ms g g1 r b :
  summary obs ms g → g1 = observe (obs !! pr_key r) r g → pr_action r ≠ ActionReuse → pr_remaining r = Some b →
  0 ≤ b ≤ 2 ^ 62 - g_required g → summary obs (ms ++ [r]) (count_bytes b g1).
Proof.
  intros Hs -> Hre Hb Hle. destruct (observe_available obs ms g r Hs) as [Ha Hn]. destruct Hs as [Hk Hr Hst Ht Hu _ _].
  destruct (observe_fields (obs !! pr_key r) r g) as (Ek & Er & Es & Eu).
  assert (to_fetch r = b) as Hf by (unfold to_fetch; by rewrite bool_decide_eq_false_2, Hb).
  assert (wrap64 (g_required g + b) = g_required g + b) as Hw.
  { apply wrap64_id. unfold in_int64, max_int64. lia. }
  split; cbn; rewrite ?Es, ?Er, ?Eu, ?Hst, ?Hw; [by rewrite Ek, Hk, fmap_app|lia|done| | |exact Ha|exact Hn].
  - intros [H1 H2]%Ht. rewrite Forall_app, Forall_singleton, total_app. simpl. split; [|lia]. split; [done|right; eauto].
    exists b. split; [done|lia].
  - intros H. by apply unknown_snoc, Hu.
Qed.

Lemma add_to_group_summary obs ms g r :
  summary obs ms g → ∃ g', add_to_group obs (Some g) r = Some g' ∧ summary obs (ms ++ [r]) g'.
Proof.
  intros Hs. unfold add_to_group. cbn [default from_option id]. eexists. split; [done|].
  destruct (observe_fields (obs !! pr_key r) r g) as (_ & Er & _ & _). pose proof (sm_range _ _ _ Hs) as Hr.
  case_bool_decide as Hre; [by eapply keep_summary|].
  destruct (pr_remaining r) as [b|] eqn:Hb.
  - rewrite Er, (wrap64_id (2 ^ 62 - _)) by (unfold in_int64, max_int64; lia).
    destruct (Z.ltb_spec b 0) as [Hneg|Hpos]; cbn [orb].
    { eapply mark_unknown_summary; [done..|]. left. rewrite Forall_app, Forall_singleton.
      intros [_ [?|(b' & ? & ?)]]; [done|]. assert (b' = b) by congruence. lia. }
    destruct (Z.ltb_spec (2 ^ 62 - g_required g) b) as [Hbig|Hfit]; [|eapply count_summary; done || lia].
    eapply mark_unknown_summary; [done..|]. destruct (g_unknown g) eqn:Eu.
    { apply unknown_snoc. by eapply sm_unknown. }
    destruct (sm_total _ _ _ Hs Eu) as [_ Ht]. right. rewrite total_app. simpl. unfold to_fetch.
    rewrite bool_decide_eq_false_2, Hb by done. simpl. lia.
  - eapply mark_unknown_summary; [done..|]. left. rewrite Forall_app, Forall_singleton.
    intros [_ [?|(b' & ? & ?)]]; [done|congruence].
Qed.

Lemma group_summary obs key rs g :
  foldl (add_to_group obs) None (members obs key rs) = Some g → summary obs (members obs key rs) g.
Proof.
  generalize (members obs key rs) as ms. intros ms. destruct ms as [|r ms]; [done|]. cbn [foldl].
  change (add_to_group obs None r) with (add_to_group obs (Some (new_group obs r)) r).
  destruct (add_to_group_summary obs [] _ r (new_group_summary obs r)) as (g1 & -> & H1).
  change (r :: ms) with ([r] ++ ms). change ([] ++ [r]) with [r] in H1. revert H1. generalize [r] as done_. revert g1.
  induction ms as [|r' ms IH]; intros g1 done_ H1 H; simpl in H; [simplify_eq; by rewrite app_nil_r|].
  destruct (add_to_group_summary obs done_ g1 r' H1) as (g2 & E2 & H2). rewrite E2 in H.
  rewrite (app_assoc done_ [r'] ms : done_ ++ r' :: ms = _). by apply (IH g2).
Qed.

(** What a line of the plan promises about the resources [ms] it stands for *)
Record estimate (obs : Observations) (ms : list PlanResource) (st : Storage) : Prop := {
  es_keys : st_keys st = pr_key <$> ms;
  es_required : ∀ n, st_required st = Some n ↔ Forall size_known ms ∧ total ms = n ∧ n ≤ 2 ^ 62;
  es_staging : st_staging st = st_required st;
  es_available : ∀ m, st_available st = Some m →
    (∃ r o, r ∈ ms ∧ obs !! pr_key r = Some o ∧ so_available o = Some m) ∧
    ∀ r o a, r ∈ ms → obs !! pr_key r = Some o → so_available o = Some a → m ≤ a;
  es_sufficient : total ms < 2 ^ 62 → ∀ b, st_sufficient st = Some b →
    Forall size_known ms ∧ ∃ available, st_available st = Some available ∧
      (b = true ↔ 2 * total ms + StorageReserveBytes ≤ available);
}.

Lemma finish_group_estimate obs ms g : summary obs ms g → estimate obs ms (finish_group g).
Proof.
  intros [Hk Hr Hst Ht Hu Ha Hn]. unfold finish_group. destruct (g_unknown g); split; cbn; try done.
  - intros n. split; [done|]. intros (H1 & H2 & H3). destruct (Hu eq_refl); [done|lia].
  - intros n. destruct (Ht eq_refl) as [H1 H2]. rewrite <- H2. split.
    + intros [= <-]. split_and!; [done|done|lia].
    + intros (_ & -> & _). done.
  - by rewrite Hst.
  - intros Hlt b Hb. destruct (Ht eq_refl) as [H1 H2]. split; [done|].
    destruct (g_available g) as [available|]; [|done]. exists available. split; [done|].
    rewrite Hst in Hb. rewrite wrap64_id in Hb by (unfold in_int64, max_int64; lia).
    destruct (Z.leb_spec (g_required g + g_required g) (max_int64 - StorageReserveBytes)) as [Hfit|]; [|done].
    rewrite wrap64_id in Hb by (unfold in_int64, max_int64, StorageReserveBytes in *; lia).
    injection Hb as <-. rewrite Z.leb_le, H2. lia.
Qed.

Lemma omap_Forall2 {A B} (f : A → option B) (P : A → B → Prop) xs :
  (∀ x, x ∈ xs → ∃ y, f x = Some y ∧ P x y) → Forall2 P xs (omap f xs).
Proof.
  induction xs as [|x xs IH]; intros H; [constructor|]. destruct (H x) as (y & E & Hy); [set_solver|].
  simpl. rewrite E. constructor; [done|]. apply IH. set_solver.
Qed.

Lemma groups_some obs ms g : is_Some g ∨ ms ≠ [] → is_Some (foldl (add_to_group obs) g ms).
Proof.
  revert g. induction ms as [|r ms IH]; intros g H; [by destruct H|]. apply IH. left. by eexists.
Qed.

Lemma group_none obs key rs :
  foldl (add_to_group obs) None (members obs key rs) = None → members obs key rs = [].
Proof.
  intros H. destruct (decide (members obs key rs = [])) as [|Hne]; [done|].
  destruct (groups_some obs (members obs key rs) None) as [g Hg]; [by right|congruence].
Qed.

(** The storage estimate of a plan is exact.  It has one line per device and filesystem that a
    resource needs, in order; each line lists the resources of its group; its required bytes are their
    sum, and are given exactly when every size is known and the sum is at most [2^62]; its free space is
    the least that was observed; and below [2^62] its verdict is whether the free space holds the bytes
    twice and the reserve, with no overflow. *)
Theorem storagePlan_exact resources obs :
  ∃ keys, StronglySorted String.le keys ∧ NoDup keys ∧
    (∀ key, key ∈ keys ↔ ∃ r, r ∈ resources ∧ storage_key obs r = key) ∧
    Forall2 (λ key st, estimate obs (members obs key resources) st) keys (storagePlan resources obs).
Proof.
  unfold storagePlan. set (groups := foldl (add_resource obs) ∅ resources).
  assert (∀ key, groups !! key = foldl (add_to_group obs) None (members obs key resources)) as Hg.
  { intros key. unfold groups. by rewrite groups_lookup, lookup_empty. }
  exists (sort_strings (map_to_list groups).*1). split_and!.
  - apply sort_strings_sorted.
  - rewrite sort_strings_perm. apply NoDup_fst_map_to_list.
  - intros key. rewrite elem_of_sort_strings, list_elem_of_fmap. split.
    + intros ([k g] & -> & Hin%elem_of_map_to_list). simpl.
      destruct (members obs k resources) as [|r ms] eqn:E.
      { rewrite Hg, E in Hin. done. }
      assert (r ∈ members obs k resources) as [? ?]%list_elem_of_filter by (rewrite E; set_solver). eauto.
    + intros (r & Hr & Hk). destruct (groups !! key) as [g|] eqn:E.
      * exists (key, g). by rewrite elem_of_map_to_list.
      * rewrite Hg in E. apply group_none in E. assert (r ∈ members obs key resources) as Hm by by apply list_elem_of_filter.
        rewrite E in Hm. set_solver.
  - apply omap_Forall2. intros key Hkey. rewrite elem_of_sort_strings, list_elem_of_fmap in Hkey.
    destruct Hkey as ([k g] & -> & Hin%elem_of_map_to_list). simpl. rewrite Hin. eexists. split; [done|].
    rewrite Hg in Hin. by apply finish_group_estimate, group_summary.
Qed.

(** A group of exactly [2^62] bytes is called sufficient on a full disk: its sum with the staging
    bytes wraps to the least [int64]. *)
Theorem storagePlan_overflow :
  let r := mkPlanResource "model" "node-1" "/models" ActionDownloadOrigin (Some (2 ^ 62)) in
  st_sufficient <$> storagePlan [r] {[ "model" := mkStorageObservation "" (Some 0) None ]} = [Some true].
Proof. vm_compute. done. Qed.
