(* ===== verification/ArtifactIdentity.v ===== *)
(** * Artifact identities: [internal/artifactidentity/identity.go]

    An artifact is named by a canonical immutable identity: a Hugging Face repository at a revision,
    an OCI repository at a digest, or a file's digest.  [Canonical] builds it from a source, [Parse]
    reads it back when it is stored.  Error messages are not modelled. *)

From S2P Require Import Prelude GoStrings Utf8 Paths SourceConfig.

(** ** The patterns *)

Definition at_sign : ascii := "@"%char.
Definition slash_char : ascii := "/"%char.

Definition lower_hex (a : ascii) : bool := byte_in 48 57 a || byte_in 97 102 a.

(** [^[0-9a-f]{40}$] *)
Definition revision40 (s : string) : bool := (String.length s =? 40)%nat && sforallb lower_hex s.

(** [^sha256:[0-9a-f]{64}$] *)
Definition sha256RE (s : string) : bool :=
  let '(rest, ok) := cut_prefix "sha256:" s in
  ok && (String.length rest =? 64)%nat && sforallb lower_hex rest.

Definition alnum (a : ascii) : bool := letter a || byte_in 48 57 a.
Definition word_char (a : ascii) : bool :=
  alnum a || is_char "." a || is_char "_" a || is_char "-" a.

(** [[A-Za-z0-9][A-Za-z0-9._-]*] *)
Definition hf_name (s : string) : bool :=
  match s with
  | EmptyString => false
  | String a s => alnum a && sforallb word_char s
  end.

(** [hfRepoRE]: two names around one slash *)
Definition hfRepoRE (s : string) : bool :=
  let '(owner, repo, ok) := cut slash_char s in ok && hf_name owner && hf_name repo.

(** ** Operations *)

Inductive identity_error := ErrConflict | ErrInvalid | ErrUnsupported.

(** The base and the pin of an identity that may carry its pin after an at sign *)
Definition split_pin (identity pin : string) : result identity_error (string * string) :=
  let '(before, after, ok) := cut at_sign identity in
  if ok : bool then
    if bool_decide (pin = "") then Ok (before, after)
    else if negb (bool_decide (pin = after)) then Err ErrConflict
    else Ok (before, pin)
  else Ok (identity, pin).

Definition white : string := String " " (String "009" (String "013" (String "010" ""))).

Definition Canonical (sourceType identity revision digest : string) : result identity_error string :=
  if bool_decide (sourceType = "huggingface") then
    '(base, revision) ← split_pin (trim_prefix "huggingface://" (trim_prefix "hf://" identity)) revision;
    if negb (hfRepoRE base) || negb (revision40 revision) then Err ErrInvalid
    else Ok ("hf://" +:+ base +:+ String at_sign revision)
  else if bool_decide (sourceType = "oci") then
    '(base, digest) ← split_pin identity digest;
    if bool_decide (base = "") || contains_any white base || negb (sha256RE digest) then Err ErrInvalid
    else Ok (base +:+ String at_sign digest)
  else if bool_decide (sourceType = "file" ∨ sourceType = "local") then
    let identity := trim_prefix "file://" identity in
    let digest := if bool_decide (digest = "") && sha256RE identity then identity else digest in
    if negb (sha256RE digest) then Err ErrInvalid else Ok ("file://" +:+ digest)
  else Err ErrUnsupported.

Record Parsed := mkParsed { p_kind : string; p_revision : string; p_digest : string }.

#[export] Instance Parsed_eq_dec : EqDecision Parsed.
Proof. solve_decision. Defined.
#[export] Instance identity_error_eq_dec : EqDecision identity_error.
Proof. solve_decision. Defined.

Definition Parse (identity : string) : result identity_error Parsed :=
  if has_prefix "hf://" identity then
    let '(base, revision, ok) := cut at_sign (trim_prefix "hf://" identity) in
    if negb ok then Err ErrInvalid
    else if bool_decide (Canonical "huggingface" base revision "" = Ok identity)
    then Ok (mkParsed "model" revision "") else Err ErrInvalid
  else if has_prefix "file://" identity then
    let digest := trim_prefix "file://" identity in
    if negb (sha256RE digest) then Err ErrInvalid else Ok (mkParsed "file" "" digest)
  else if has_prefix "recipe://" identity then
    let digest := trim_prefix "recipe://" identity in
    if negb (sha256RE digest) then Err ErrInvalid else Ok (mkParsed "recipe" "" digest)
  else
    let '(base, digest, ok) := cut at_sign identity in
    if ok && negb (bool_decide (base = "")) && sha256RE digest then Ok (mkParsed "oci" "" digest)
    else Err ErrUnsupported.

Definition Revision (identity : string) : string :=
  if has_prefix "hf://" identity then snd (fst (cut at_sign identity)) else "".

(** ** Bytes the patterns exclude *)

Lemma hf_name_word s : hf_name s = true → sforallb word_char s = true.
Proof.
  destruct s as [|a s]; [done|]. cbn [hf_name sforallb]. intros [Ha Hs]%andb_prop. unfold word_char at 1. by rewrite Ha, Hs.
Qed.

Lemma hfRepoRE_no_byte c s :
  hfRepoRE s = true → word_char c = false → c ≠ slash_char → contains_byte c s = false.
Proof.
  unfold hfRepoRE. destruct (cut slash_char s) as [[owner repo] ok] eqn:E. destruct ok; [|done].
  cbn [andb]. intros [Ho%hf_name_word Hr%hf_name_word]%andb_prop Hc Hne. apply cut_true in E as [-> _].
  rewrite contains_byte_app. cbn [contains_byte]. rewrite bool_decide_eq_false_2 by done.
  assert (∀ w, sforallb word_char w = true → contains_byte c w = false) as H.
  { intros w. induction w as [|a w IH]; [done|]. simpl. intros [Ha Hw]%andb_prop. rewrite IH by done.
    rewrite bool_decide_eq_false_2; [done|]. intros ->. congruence. }
  by rewrite !H.
Qed.

Lemma no_prefix_byte c p s : contains_byte c p = true → contains_byte c s = false → has_prefix p s = false.
Proof.
  intros Hp Hs. apply not_true_iff_false. intros [r ->]%has_prefix_spec. rewrite contains_byte_app, Hp in Hs. done.
Qed.

Lemma trim_prefix_none p s : has_prefix p s = false → trim_prefix p s = s.
Proof. unfold trim_prefix. by intros ->. Qed.

Lemma hfRepoRE_bare s : hfRepoRE s = true → contains_byte at_sign s = false ∧ has_prefix "huggingface://" s = false.
Proof.
  intros H. split; [by apply hfRepoRE_no_byte|]. apply (no_prefix_byte ":"%char); [done|]. by apply hfRepoRE_no_byte.
Qed.

Lemma split_pin_spec identity pin base pin' :
  split_pin identity pin = Ok (base, pin') → contains_byte at_sign base = false ∧ (pin ≠ "" → pin' = pin).
Proof.
  unfold split_pin. destruct (cut at_sign identity) as [[before after] ok] eqn:E. destruct ok.
  - apply cut_true in E as [-> Hb]. repeat case_bool_decide; simpl; intros; by simplify_eq.
  - apply cut_false in E as (-> & -> & Hb). intros [= <- <-]. done.
Qed.

Lemma split_pin_pinned base pin : contains_byte at_sign base = false → split_pin (base +:+ String at_sign pin) "" = Ok (base, pin).
Proof. intros H. unfold split_pin. by rewrite cut_app. Qed.

(** ** Identities of each kind *)

Lemma hf_canonical base revision :
  hfRepoRE base = true → revision40 revision = true →
  let c := "hf://" +:+ base +:+ String at_sign revision in
  Canonical "huggingface" c "" "" = Ok c ∧ Parse c = Ok (mkParsed "model" revision "") ∧ Revision c = revision.
Proof.
  intros Hb Hr c. destruct (hfRepoRE_bare base Hb) as [Hat Hp].
  assert (has_prefix "huggingface://" (base +:+ String at_sign revision) = false) as Hp'.
  { apply not_true_iff_false. intros [r Hr']%has_prefix_spec.
    assert (cut at_sign (base +:+ String at_sign revision) = (base, revision, true)) as Hcut by by apply cut_app.
    rewrite Hr' in Hcut. apply cut_true in Hcut as [E _].
    assert (contains_byte ":" base = false) as Hcol by by apply hfRepoRE_no_byte.
    do 12 (destruct base as [|? base]; [done|simpl in Hr'; injection Hr' as ? Hr']; subst). done. }
  assert (Canonical "huggingface" base revision "" = Ok c) as Hc.
  { unfold Canonical. cbn [bool_decide decide]. change (bool_decide ("huggingface" = "huggingface")) with true. cbn iota.
    rewrite (trim_prefix_none "hf://" base), (trim_prefix_none "huggingface://") by
      first [done | apply (no_prefix_byte ":"%char); [done|by apply hfRepoRE_no_byte]].
    unfold split_pin. rewrite (proj2 (cut_false _ _ _ _)) by done. cbn. by rewrite Hb, Hr. }
  split_and!.
  - unfold Canonical. change (bool_decide ("huggingface" = "huggingface")) with true. cbn iota. unfold c.
    rewrite trim_prefix_app, trim_prefix_none, split_pin_pinned by done. cbn. by rewrite Hb, Hr.
  - unfold Parse. unfold c at 1. rewrite has_prefix_app. unfold c at 1. rewrite trim_prefix_app, cut_app by done. cbn [negb].
    by rewrite Hc, bool_decide_eq_true_2.
  - unfold Revision, c. rewrite has_prefix_app. change ("hf://" +:+ ?x) with ("hf://" +:+ x).
    rewrite <- sapp_assoc, cut_app; [done|]. by rewrite contains_byte_app, Hat.
Qed.

Lemma file_canonical st digest :
  st = "file" ∨ st = "local" → sha256RE digest = true →
  let c := "file://" +:+ digest in
  Canonical st c "" "" = Ok c ∧ Parse c = Ok (mkParsed "file" "" digest).
Proof.
  intros Hst Hd c. split.
  - unfold Canonical. rewrite (bool_decide_eq_false_2 (st = "huggingface")), (bool_decide_eq_false_2 (st = "oci")), bool_decide_eq_true_2
      by (done || (destruct Hst; by subst)). unfold c.
    rewrite trim_prefix_app, Hd, bool_decide_eq_true_2 by done. cbn. by rewrite Hd.
  - unfold Parse, c. change (has_prefix "hf://" ("file://" +:+ digest)) with false. rewrite has_prefix_app, trim_prefix_app.
    by rewrite Hd.
Qed.

(** An identity that a scheme of [Parse] does not claim *)
Definition scheme_free (identity : string) : bool :=
  negb (has_prefix "hf://" identity) && negb (has_prefix "file://" identity) && negb (has_prefix "recipe://" identity).

Lemma oci_canonical base digest :
  base ≠ "" → contains_any white base = false → contains_byte at_sign base = false → sha256RE digest = true →
  let c := base +:+ String at_sign digest in
  Canonical "oci" c "" "" = Ok c ∧ (scheme_free c = true → Parse c = Ok (mkParsed "oci" "" digest)).
Proof.
  intros Hne Hw Hat Hd c. split.
  - unfold Canonical. rewrite bool_decide_eq_false_2, bool_decide_eq_true_2 by done. unfold c.
    rewrite split_pin_pinned by done. cbn. by rewrite bool_decide_eq_false_2, Hw, Hd.
  - unfold scheme_free. rewrite !andb_true_iff, !negb_true_iff. intros [[H1 H2] H3]. unfold Parse. rewrite H1, H2, H3.
    unfold c. by rewrite cut_app, bool_decide_eq_false_2, Hd.
Qed.

(** The kind a source type is stored under *)
Definition kind_of (sourceType : string) : string :=
  if bool_decide (sourceType = "huggingface") then "model" else if bool_decide (sourceType = "oci") then "oci" else "file".

(** A canonical identity is a fixed point and is read back: [Canonical] of it, with nothing
    else, is itself, and [Parse] returns the kind of its source and its pin, which is the revision or
    digest the caller gave, if any.  For an OCI repository this needs a name that does not begin with
    the scheme of another kind. *)
Theorem Canonical_roundtrip st identity revision digest c :
  Canonical st identity revision digest = Ok c → (st = "oci" → scheme_free c = true) →
  Canonical st c "" "" = Ok c ∧
  ∃ p, Parse c = Ok p ∧ p_kind p = kind_of st ∧ p_revision p = Revision c ∧
    (st = "huggingface" → revision ≠ "" → p_revision p = revision) ∧
    (st ≠ "huggingface" → digest ≠ "" → p_digest p = digest).
Proof.
  unfold Canonical at 1, kind_of. case_bool_decide as E1; [|case_bool_decide as E2; [|case_bool_decide as E3]]; intros H Hs.
  - destruct (split_pin _ revision) as [[base rev]|] eqn:Ep; [|done]. apply split_pin_spec in Ep as [_ Hpin]. cbn in H.
    destruct (hfRepoRE base) eqn:Hb; [|done]. destruct (revision40 rev) eqn:Hr; [|done]. simplify_eq/=.
    destruct (hf_canonical base rev Hb Hr) as (Hc & Hp & Hrev). split; [done|]. eexists. split; [exact Hp|].
    cbn [p_kind p_revision p_digest]. split_and!; [done|by symmetry|auto|done].
  - destruct (split_pin _ digest) as [[base dg]|] eqn:Ep; [|done]. apply split_pin_spec in Ep as [Hat Hpin]. cbn in H.
    destruct (bool_decide (base = "")) eqn:Hb; [done|]. apply bool_decide_eq_false in Hb.
    destruct (contains_any white base) eqn:Hw; [done|]. destruct (sha256RE dg) eqn:Hd; [|done]. simplify_eq/=.
    destruct (oci_canonical base dg Hb Hw Hat Hd) as [Hc Hp]. specialize (Hs eq_refl). split; [done|].
    eexists. split; [by apply Hp|]. cbn [p_kind p_revision p_digest]. split_and!; [done| |done|auto].
    unfold Revision. unfold scheme_free in Hs. rewrite !andb_true_iff, !negb_true_iff in Hs. by destruct Hs as [[-> _] _].
  - set (dg := if bool_decide (digest = "") && _ then _ else digest) in H. destruct (sha256RE dg) eqn:Hd; [|done]. simplify_eq/=.
    destruct (file_canonical st dg E3 Hd) as [Hc Hp]. split; [done|]. eexists. split; [exact Hp|]. split_and!; [done..|].
    intros _ Hdig. simpl. subst dg. by rewrite bool_decide_eq_false_2.
  - done.
Qed.

Definition sample_digest : string := "sha256:bbbbbbbbbbbbbbbbbbbbbbbbbbbbbbbbbbbbbbbbbbbbbbbbbbbbbbbbbbbbbbbb".
Definition sample_revision : string := "aaaaaaaaaaaaaaaaaaaaaaaaaaaaaaaaaaaaaaaa".

(** An OCI repository named like another kind's scheme has a canonical identity that [Parse] rejects. *)
Theorem oci_scheme_rejected :
  Canonical "oci" "hf://acme/model" "" sample_digest = Ok ("hf://acme/model@" +:+ sample_digest) ∧
  is_ok (Parse ("hf://acme/model@" +:+ sample_digest)) = false.
Proof. vm_compute. done. Qed.

Lemma Canonical_roundtrip_witness :
  let c := "hf://Qwen/Qwen3.8-27B@" +:+ sample_revision in
  Canonical "huggingface" c "" "" = Ok c ∧
  ∃ p, Parse c = Ok p ∧ p_kind p = kind_of "huggingface" ∧ p_revision p = Revision c ∧
    ("huggingface" = "huggingface" → sample_revision ≠ "" → p_revision p = sample_revision) ∧
    ("huggingface" ≠ "huggingface" → "" ≠ "" → p_digest p = "").
Proof.
  apply (Canonical_roundtrip "huggingface" "huggingface://Qwen/Qwen3.8-27B" sample_revision "").
  - vm_compute. reflexivity.
  - discriminate.
Defined.
