(* ===== verification/Resources.v ===== *)
(** * Download resources: [internal/downloads/resource.go], [types.go] and the pure parts of [images.go] and [service.go]

    A resource is an artifact, a recipe package or an image, named by an immutable identity; controller and agent
    share [Validate].  JSON decoding and [url.Parse] are arguments; [strings.ToLower] and [unicode.IsControl] are
    taken as in [SourceConfig], the former on ASCII letters; times are nanoseconds. *)

From S2P Require Import Prelude GoStrings Utf8 Paths SourceConfig ArtifactIdentity Downloads StoragePlan.
Open Scope Z_scope.

(** ** Data *)

Inductive ResourceKind := ResourceArtifact | ResourceRecipe | ResourceImage.
Inductive SourceType := SourceHuggingFace | SourceOCI | SourceFile | SourceLocal | SourceRecipe | SourceOther (t : string).
Inductive ResourceState := ResourceUnknown | ResourceMissing | ResourcePartial | ResourceVerifying | ResourceAvailable | ResourceInvalid
| ResourceOther (s : string).

#[export] Instance ResourceKind_eq_dec : EqDecision ResourceKind.
Proof. solve_decision. Defined.
#[export] Instance SourceType_eq_dec : EqDecision SourceType.
Proof. solve_decision. Defined.
#[export] Instance ResourceState_eq_dec : EqDecision ResourceState.
Proof. solve_decision. Defined.

Definition kind_name (k : ResourceKind) : string := match k with ResourceArtifact => "artifact" | ResourceRecipe => "recipe" | ResourceImage => "image" end.
Definition source_name (t : SourceType) : string :=
  match t with
  | SourceHuggingFace => "huggingface" | SourceOCI => "oci" | SourceFile => "file" | SourceLocal => "local" | SourceRecipe => "recipe"
  | SourceOther t => t
  end.

Record SourceSpec := mkSourceSpec { s_type : SourceType; s_reference : string; s_url : string; s_revision : string; s_digest : string }.

Record ResourceSpec := mkSpec {
  rs_kind : ResourceKind;
  rs_identity : string;
  rs_source : SourceSpec;
  rs_destination : string;
  rs_platform : string;
  rs_index : string;
  rs_manifest : string;
  rs_size : option Z;
}.

#[export] Instance SourceSpec_eq_dec : EqDecision SourceSpec.
Proof. solve_decision. Defined.
#[export] Instance ResourceSpec_eq_dec : EqDecision ResourceSpec.
Proof. solve_decision. Defined.

Definition MaxResourceJSONBytes : Z := 16 * 1024.
Definition MaxIdentityBytes : Z := 2048.
Definition MaxDestinationBytes : Z := 4096.
Definition MaxSourceURLBytes : Z := 4096.

(** ** Texts *)

Definition bytes_of (s : string) : Z := Z.of_nat (String.length s).

Definition boundedText (text : string) (limit : Z) : bool :=
  negb (bool_decide (text = "")) && (bytes_of text <=? limit) && negb (has_control text).

(** [^[a-z0-9]+/[a-z0-9_]+(?:/[a-z0-9_.-]+)?$] *)
Definition low_alnum (a : ascii) : bool := byte_in 97 122 a || byte_in 48 57 a.
Definition some_of (p : ascii → bool) (s : string) : bool := negb (bool_decide (s = "")) && sforallb p s.
Definition low_word (a : ascii) : bool := low_alnum a || is_char "_" a.

Definition resourcePlatformPattern (s : string) : bool :=
  match split_byte slash_char s with
  | [os; arch] => some_of low_alnum os && some_of low_word arch
  | [os; arch; variant] => some_of low_alnum os && some_of low_word arch && some_of (λ a, low_word a || is_char "." a || is_char "-" a) variant
  | _ => false
  end.

(** [^[a-z0-9]+(?:(?:[._]|__|-+)[a-z0-9]+)*$], as the automaton of what was just read *)
Inductive oci_state := OStart | OWord | ODot | OUnder | OUnders | ODash.

Definition oci_next (st : oci_state) (a : ascii) : option oci_state :=
  if low_alnum a then Some OWord
  else match st with
       | OWord => if is_char "." a then Some ODot else if is_char "_" a then Some OUnder else if is_char "-" a then Some ODash else None
       | OUnder => if is_char "_" a then Some OUnders else None
       | ODash => if is_char "-" a then Some ODash else None
       | _ => None
       end.

Fixpoint oci_run (st : oci_state) (s : string) : bool :=
  match s with
  | EmptyString => match st with OWord => true | _ => false end
  | String a s => match oci_next st a with Some st => oci_run st s | None => false end
  end.

Definition ociComponentPattern (s : string) : bool := oci_run OStart s.

(** [s == strings.ToLower(s)] *)
Definition is_lower (s : string) : bool := sforallb (λ a, negb (byte_in 65 90 a)) s.

(** What [url.Parse] gives *)
Record Url := mkUrl { u_scheme : string; u_host : string; u_hostname : string; u_user : bool; u_fragment : string; u_opaque : string }.

Definition space_chars : string := String " " (String "\" (String "009" (String "013" (String "010" "@?#")))).

Section resources.
Context (parse_url : string → option Url).

Definition validOCIRepository (reference : string) : bool :=
  let '(registry, repository, ok) := cut slash_char reference in
  if negb ok || bool_decide (registry = "") || bool_decide (repository = "") || contains_any space_chars reference || negb (is_lower registry) then false
  else
    match parse_url ("https://" +:+ registry) with
    | None => false
    | Some u =>
        bool_decide (u_host u = registry) && negb (u_user u) && negb (bool_decide (u_hostname u = ""))
        && (contains_any ".:" registry || bool_decide (registry = "localhost"))
        && negb (bool_decide (registry = "registry-1.docker.io")) && negb (bool_decide (registry = "index.docker.io"))
        && forallb ociComponentPattern (split_byte slash_char repository)
    end.

Definition https_url (url : string) : bool :=
  match parse_url url with
  | None => false
  | Some u => bool_decide (u_scheme u = "https") && negb (bool_decide (u_hostname u = "")) && negb (u_user u)
              && bool_decide (u_fragment u = "") && bool_decide (u_opaque u = "")
  end.

(** The canonical identity of a source, where it may be the source of a resource of that kind *)
Definition canonical_source (k : ResourceKind) (s : SourceSpec) : option string :=
  let canonical := match (Canonical (source_name (s_type s)) (s_reference s) (s_revision s) (s_digest s)) with Ok c => Some c | Err _ => None end in
  match s_type s with
  | SourceRecipe =>
      if negb (bool_decide (k = ResourceRecipe)) || negb (sha256RE (s_digest s)) || negb (bool_decide (s_reference s = ""))
         || negb (bool_decide (s_url s = "")) || negb (bool_decide (s_revision s = "")) then None
      else Some ("recipe://" +:+ s_digest s)
  | SourceHuggingFace =>
      if negb (bool_decide (k = ResourceArtifact)) || contains_any ":@" (s_reference s) || negb (bool_decide (s_url s = ""))
         || negb (bool_decide (s_digest s = "")) then None
      else canonical
  | SourceOCI =>
      if (negb (bool_decide (k = ResourceArtifact)) && negb (bool_decide (k = ResourceImage))) || negb (validOCIRepository (s_reference s))
         || negb (bool_decide (s_url s = "")) || negb (bool_decide (s_revision s = "")) then None
      else canonical
  | SourceFile | SourceLocal =>
      if negb (bool_decide (k = ResourceArtifact)) || negb (bool_decide (s_reference s = "")) || negb (bool_decide (s_revision s = ""))
         || (bool_decide (s_type s = SourceLocal) && negb (bool_decide (s_url s = ""))) then None
      else if negb (bool_decide (s_url s = "")) && negb (https_url (s_url s)) then None
      else canonical
  | SourceOther _ => None
  end.

Definition destination_ok (d : string) : bool :=
  boundedText d MaxDestinationBytes && IsAbs d && negb (bool_decide (d = "/")) && bool_decide (Clean d = d) && negb (contains_byte backslash d).

Definition source_bounded (s : SourceSpec) : bool :=
  (bytes_of (s_reference s) <=? MaxIdentityBytes) && (bytes_of (s_url s) <=? MaxSourceURLBytes) && (bytes_of (s_revision s) <=? 40)
  && (bytes_of (s_digest s) <=? 71)
  && forallb (λ t, negb (has_control t)) [s_reference s; s_url s; s_revision s; s_digest s].

Definition image_fields_ok (s : ResourceSpec) : bool :=
  match rs_kind s with
  | ResourceImage =>
      (bytes_of (rs_platform s) <=? 128) && resourcePlatformPattern (rs_platform s) && sha256RE (rs_index s) && sha256RE (rs_manifest s)
      && bool_decide (rs_index s = s_digest (rs_source s))
  | _ => bool_decide (rs_platform s = "") && bool_decide (rs_index s = "") && bool_decide (rs_manifest s = "")
  end.

Definition Validate (s : ResourceSpec) : bool :=
  boundedText (rs_identity s) MaxIdentityBytes && destination_ok (rs_destination s)
  && match rs_size s with Some n => 0 <=? n | None => true end
  && source_bounded (rs_source s)
  && bool_decide (canonical_source (rs_kind s) (rs_source s) = Some (rs_identity s))
  && image_fields_ok s.

Definition with_manifest (d : string) (s : ResourceSpec) : ResourceSpec :=
  mkSpec (rs_kind s) (rs_identity s) (rs_source s) (rs_destination s) (rs_platform s) (rs_index s) d (rs_size s).

Definition ValidateInspection (s : ResourceSpec) : bool :=
  Validate (if bool_decide (rs_kind s = ResourceImage) && bool_decide (rs_manifest s = "") then with_manifest (rs_index s) s else s).

(** One JSON value of the known fields and nothing after it: [decode] *)
Definition decodeResourceSpec (decode : string → option ResourceSpec) (data : string) (inspect : bool) : option ResourceSpec :=
  if bool_decide (data = "") || (MaxResourceJSONBytes <? bytes_of data) then None
  else
    spec ← decode data;
    if (if inspect then ValidateInspection spec else Validate spec) then Some spec else None.

(** ** What a device answers *)

Record CommandOutput := mkCommandOutput {
  co_item : string;
  co_identity : string;
  co_path : string;
  co_platform : string;
  co_verified : option Z;
  co_state : ResourceState;
  co_size : option Z;
  co_storage : option (string * StorageObservation);    (* its destination *)
  co_tree : string;
  co_tree_size : option Z;
  co_index : string;
  co_manifest : string;
  co_remaining : option Z;
}.

Definition nonneg (n : option Z) : bool := match n with Some n => 0 <=? n | None => true end.

Definition known_state (s : ResourceState) : bool := match s with ResourceOther _ => false | _ => true end.

Definition minute : Z := 60 * 10 ^ 9.

Definition fresh (now : Z) (verified : option Z) : bool :=
  match verified with Some t => (now - t <=? 2 * minute) && (t <=? now + minute) | None => false end.

Definition storage_ok (spec : ResourceSpec) (o : option (string * StorageObservation)) : bool :=
  match o with
  | None => true
  | Some (destination, o) =>
      bool_decide (destination = rs_destination spec) && negb (bool_decide (so_filesystem o = ""))
      && (bytes_of (so_filesystem o) <=? MaxDestinationBytes) && nonneg (so_available o) && nonneg (so_total o)
  end.

Definition validateOutput (now : Z) (out : CommandOutput) (item : string) (spec : ResourceSpec) : bool :=
  bool_decide (co_item out = item) && bool_decide (co_identity out = rs_identity spec) && bool_decide (co_path out = rs_destination spec)
  && bool_decide (co_platform out = rs_platform spec)
  && nonneg (co_size out)
  && match co_remaining out with
     | Some r => (0 <=? r) && match co_size out with Some n => r <=? n | None => true end
     | None => true
     end
  && nonneg (co_tree_size out)
  && (negb (bool_decide (rs_kind spec = ResourceImage)) || negb (bool_decide (co_state out = ResourceAvailable))
      || (bool_decide (co_index out = rs_index spec) && sha256RE (co_manifest out)
          && (bool_decide (rs_manifest spec = "") || bool_decide (co_manifest out = rs_manifest spec))))
  && known_state (co_state out)
  && (negb (bool_decide (co_state out = ResourceAvailable)) || fresh now (co_verified out))
  && storage_ok spec (co_storage out).

(** ** Hosts and images *)

Definition resourceHost (spec : ResourceSpec) : string :=
  match s_type (rs_source spec) with
  | SourceHuggingFace => "huggingface.co"
  | SourceOCI => let '(host, _, _) := cut slash_char (s_reference (rs_source spec)) in host
  | SourceFile => match parse_url (s_url (rs_source spec)) with Some u => u_host u | None => "" end
  | _ => ""
  end.
End resources.

Definition colon_char : ascii := ":"%char.

Definition normalizeImage (ref : string) : string :=
  let ref := trim_prefix "oci://" ref in
  let '(ref, _, _) := cut at_sign ref in
  let ref := match last_index colon_char ref, last_index slash_char ref with
             | Some colon, Some slash => if (slash <? colon)%nat then stake colon ref else ref
             | Some colon, None => stake colon ref
             | None, _ => ref
             end in
  let '(first, _, slash) := cut slash_char ref in
  if negb slash then "docker.io/library/" +:+ ref
  else if negb (contains_any ".:" first) && negb (bool_decide (first = "localhost")) then "docker.io/" +:+ ref
  else if bool_decide (first = "registry-1.docker.io") || bool_decide (first = "index.docker.io")
  then "docker.io" +:+ sdrop (String.length first) ref
  else ref.

Definition CanonicalImagePlatform (os architecture variant : string) : string :=
  let variant := if bool_decide (architecture = "arm64") && bool_decide (variant = "v8") then "" else variant in
  os +:+ "/" +:+ architecture +:+ (if bool_decide (variant = "") then "" else "/" +:+ variant).

(** ** An identity names one source *)

Lemma contains_any_byte chars s c : contains_any chars s = false → contains_byte c chars = true → contains_byte c s = false.
Proof.
  induction s as [|a s IH]; [done|]. simpl. intros [Ha Hs]%orb_false_elim Hc. rewrite (IH Hs Hc), orb_false_r.
  apply bool_decide_eq_false. intros <-. congruence.
Qed.

Lemma hex_no_at s : sforallb lower_hex s = true → contains_byte at_sign s = false.
Proof. induction s as [|a s IH]; [done|]. simpl. intros [Ha Hs]%andb_prop. rewrite IH by done. rewrite bool_decide_eq_false_2; [done|]. by intros ->. Qed.

Lemma sha256RE_no_at s : sha256RE s = true → contains_byte at_sign s = false.
Proof.
  unfold sha256RE, cut_prefix. destruct (has_prefix "sha256:" s) eqn:E; [|done]. apply has_prefix_spec in E as [r ->].
  rewrite sdrop_app, contains_byte_app. intros [_ H]%andb_prop. by rewrite (hex_no_at r H).
Qed.

Lemma revision40_no_sha s : revision40 s = true → sha256RE s = false.
Proof.
  unfold revision40, sha256RE, cut_prefix. intros [Hl _]%andb_prop. apply Nat.eqb_eq in Hl. destruct (has_prefix "sha256:" s) eqn:E; [|done].
  apply has_prefix_spec in E as [r ->]. rewrite sdrop_app. rewrite slength_app in Hl. simpl in Hl.
  assert (String.length r =? 64 = false)%nat as -> by (apply Nat.eqb_neq; lia). done.
Qed.

Section identities.
Context (parse_url : string → option Url).

(** The identities by the form of their source *)
Inductive pinned (s : SourceSpec) : string → Prop :=
| pinned_recipe : s_type s = SourceRecipe → sha256RE (s_digest s) = true → s_reference s = "" → s_revision s = "" → pinned s ("recipe://" +:+ s_digest s)
| pinned_hf : s_type s = SourceHuggingFace → hfRepoRE (s_reference s) = true → revision40 (s_revision s) = true → s_digest s = "" →
    pinned s ("hf://" +:+ s_reference s +:+ String at_sign (s_revision s))
| pinned_oci : s_type s = SourceOCI → contains_byte at_sign (s_reference s) = false → sha256RE (s_digest s) = true → s_revision s = "" →
    pinned s (s_reference s +:+ String at_sign (s_digest s))
| pinned_file : s_type s = SourceFile ∨ s_type s = SourceLocal → sha256RE (s_digest s) = true → s_reference s = "" → s_revision s = "" →
    pinned s ("file://" +:+ s_digest s).

Lemma validOCI_no_at r : validOCIRepository parse_url r = true → contains_byte at_sign r = false.
Proof.
  unfold validOCIRepository. destruct (cut slash_char r) as [[registry repository] ok].
  destruct (contains_any space_chars r) eqn:E; [by rewrite !orb_true_r|]. intros _. by apply (contains_any_byte _ _ _ E).
Qed.

Lemma split_pin_bare base pin : contains_byte at_sign base = false → split_pin base pin = Ok (base, pin).
Proof. intros H. unfold split_pin. by rewrite (proj2 (cut_false at_sign base base "")). Qed.

Lemma file_pinned s t k c :
  t = SourceFile ∨ t = SourceLocal → s_type s = t →
  (if negb (bool_decide (k = ResourceArtifact)) || negb (bool_decide (s_reference s = "")) || negb (bool_decide (s_revision s = ""))
      || (bool_decide (t = SourceLocal) && negb (bool_decide (s_url s = ""))) then None
   else if negb (bool_decide (s_url s = "")) && negb (https_url parse_url (s_url s)) then None
   else match Canonical (source_name t) (s_reference s) (s_revision s) (s_digest s) with Ok c => Some c | Err _ => None end) = Some c →
  pinned s c.
Proof.
  intros Ht Hs. destruct (bool_decide (k = ResourceArtifact)); [|done]. destruct (bool_decide_reflect (s_reference s = "")) as [Hr|]; [|done].
  destruct (bool_decide_reflect (s_revision s = "")) as [Hv|]; [|done]. destruct (_ && negb (bool_decide (s_url s = ""))); [done|]. cbn [negb orb].
  destruct (_ && negb (https_url _ _)); [done|]. rewrite Hr.
  assert (Canonical (source_name t) "" (s_revision s) (s_digest s) = if sha256RE (s_digest s) then Ok ("file://" +:+ s_digest s) else Err ErrInvalid) as ->.
  { destruct Ht as [-> | ->]; unfold Canonical; cbn; destruct (bool_decide (s_digest s = "")); cbn; by destruct (sha256RE (s_digest s)). }
  destruct (sha256RE (s_digest s)) eqn:Ed; [|done]. intros [= <-]. constructor; [|done..]. by rewrite Hs.
Qed.

Lemma canonical_pinned k s c : canonical_source parse_url k s = Some c → pinned s c.
Proof.
  unfold canonical_source. destruct (s_type s) eqn:Et; cbn [source_name].
  - destruct (bool_decide (k = ResourceArtifact)); [|done]. destruct (contains_any ":@" (s_reference s)) eqn:Ec; [done|].
    destruct (bool_decide (s_url s = "")); [|done]. destruct (bool_decide_reflect (s_digest s = "")); [|done]. cbn [negb orb].
    assert (contains_byte at_sign (s_reference s) = false) as Ha by (by apply (contains_any_byte _ _ _ Ec)).
    assert (contains_byte ":"%char (s_reference s) = false) as Hc by (by apply (contains_any_byte _ _ _ Ec)).
    unfold Canonical. change (bool_decide ("huggingface" = "huggingface")) with true. cbn iota.
    rewrite (trim_prefix_none "hf://"), (trim_prefix_none "huggingface://"), split_pin_bare by first [done|by apply (no_prefix_byte ":"%char)]. cbn.
    destruct (hfRepoRE (s_reference s)) eqn:Eh; [|done]. destruct (revision40 (s_revision s)) eqn:Er; [|done]. intros [= <-]. by constructor.
  - destruct (_ && _); [done|]. destruct (validOCIRepository parse_url (s_reference s)) eqn:Ev; [|done]. apply validOCI_no_at in Ev.
    destruct (bool_decide (s_url s = "")); [|done]. destruct (bool_decide_reflect (s_revision s = "")); [|done]. cbn [negb orb].
    unfold Canonical. change (bool_decide ("oci" = "huggingface")) with false. change (bool_decide ("oci" = "oci")) with true. cbn iota.
    rewrite split_pin_bare by done. cbn. destruct (_ || contains_any _ _); [done|]. destruct (sha256RE (s_digest s)) eqn:Ed; [|done].
    intros [= <-]. by constructor.
  - apply (file_pinned s SourceFile); [by left|done].
  - apply (file_pinned s SourceLocal); [by right|done].
  - destruct (bool_decide (k = ResourceRecipe)); [|done]. destruct (sha256RE (s_digest s)) eqn:Ed; [|done].
    destruct (bool_decide_reflect (s_reference s = "")); [|done]. destruct (bool_decide (s_url s = "")); [|done].
    destruct (bool_decide_reflect (s_revision s = "")); [|done]. intros [= <-]. by constructor.
  - done.
Qed.

Lemma Validate_pinned s : Validate parse_url s = true → pinned (rs_source s) (rs_identity s).
Proof. unfold Validate. rewrite !andb_true_iff. intros [[_ Hc%bool_decide_eq_true] _]. by apply canonical_pinned in Hc. Qed.

Lemma pinned_at s c : pinned s c →
  (contains_byte at_sign c = false ∧ s_type s ≠ SourceHuggingFace ∧ s_type s ≠ SourceOCI) ∨
  (∃ base, cut at_sign c = (base, s_revision s, true) ∧ s_type s = SourceHuggingFace ∧ base = "hf://" +:+ s_reference s) ∨
  (cut at_sign c = (s_reference s, s_digest s, true) ∧ s_type s = SourceOCI).
Proof.
  intros [Ht Hd Hr Hv|Ht Hr Hv Hd|Ht Hr Hd Hv|Ht Hd Hr Hv].
  - left. rewrite contains_byte_app, (sha256RE_no_at _ Hd), Ht. done.
  - right; left. exists ("hf://" +:+ s_reference s). split_and!; [|done..]. rewrite <- sapp_assoc, cut_app; [done|].
    rewrite contains_byte_app. by destruct (hfRepoRE_bare _ Hr) as [-> _].
  - right; right. by rewrite cut_app.
  - left. rewrite contains_byte_app, (sha256RE_no_at _ Hd). destruct Ht as [-> | ->]; done.
Qed.

Definition file_like (t : SourceType) : bool := bool_decide (t = SourceFile) || bool_decide (t = SourceLocal).

Lemma pinned_inj s1 s2 c :
  pinned s1 c → pinned s2 c →
  s_reference s1 = s_reference s2 ∧ s_revision s1 = s_revision s2 ∧ s_digest s1 = s_digest s2 ∧
  (s_type s1 = s_type s2 ∨ (file_like (s_type s1) = true ∧ file_like (s_type s2) = true)).
Proof.
  intros H1 H2. destruct (pinned_at _ _ H1) as [(Ha & Hh & Ho)|[(b & Hc & Ht & ->)|[Hc Ht]]].
  - assert (∀ x y, cut at_sign c ≠ (x, y, true)) as Hcut.
    { intros x y [-> _]%cut_true. rewrite contains_byte_app in Ha. simpl in Ha. by rewrite orb_true_r in Ha. }
    destruct (pinned_at _ _ H2) as [(_ & Hh2 & Ho2)|[(b & Hc & _)|[Hc _]]]; [|by destruct (Hcut _ _ Hc)..].
    destruct H1 as [Ht1 Hd1 Hr1 Hv1| | |Ht1 Hd1 Hr1 Hv1]; [|done|done|]; inversion H2 as [Ht2 Hd2 Hr2 Hv2 E2| | |Ht2 Hd2 Hr2 Hv2 E2]; try congruence.
    + split_and!; [congruence..|left; congruence].
    + split_and!; [congruence..|]. right. unfold file_like. by destruct Ht1 as [-> | ->], Ht2 as [-> | ->].
  - destruct (pinned_at _ _ H2) as [(Ha & _)|[(b' & Hc' & Ht' & ->)|[Hc' Ht']]].
    + apply cut_true in Hc as [-> _]. rewrite contains_byte_app in Ha. simpl in Ha. by rewrite orb_true_r in Ha.
    + rewrite Hc in Hc'. injection Hc' as Er Ev. split_and!; [done|done| |left; congruence].
      inversion H1; inversion H2; try congruence; destruct_or?; congruence.
    + exfalso. rewrite Hc in Hc'. injection Hc' as _ Ev. inversion H1 as [| ? ? Hv1| |[]]; try congruence.
      inversion H2 as [| |? ? Hd2|[]]; try congruence. apply revision40_no_sha in Hv1. congruence.
  - destruct (pinned_at _ _ H2) as [(Ha & _)|[(b' & Hc' & Ht' & ->)|[Hc' Ht']]].
    + apply cut_true in Hc as [-> _]. rewrite contains_byte_app in Ha. simpl in Ha. by rewrite orb_true_r in Ha.
    + exfalso. rewrite Hc in Hc'. injection Hc' as _ Ev. inversion H1 as [| |? ? Hd1|[]]; try congruence.
      inversion H2 as [| ? ? Hv2| |[]]; try congruence. apply revision40_no_sha in Hv2. congruence.
    + rewrite Hc in Hc'. injection Hc' as Er Ed. split_and!; [done| |done|left; congruence].
      inversion H1; inversion H2; try congruence; destruct_or?; congruence.
Qed.

(** The identity of a valid resource pins its content: two valid resources with one identity name the same
    repository at the same revision or digest, over the same kind of source (a local file counts as a file), and two
    images the same index.  So what was verified for one may be used for the other. *)
Theorem identity_pins_source s1 s2 :
  Validate parse_url s1 = true → Validate parse_url s2 = true → rs_identity s1 = rs_identity s2 →
  s_reference (rs_source s1) = s_reference (rs_source s2) ∧ s_revision (rs_source s1) = s_revision (rs_source s2) ∧
  s_digest (rs_source s1) = s_digest (rs_source s2) ∧
  (s_type (rs_source s1) = s_type (rs_source s2) ∨ (file_like (s_type (rs_source s1)) = true ∧ file_like (s_type (rs_source s2)) = true)) ∧
  (rs_kind s1 = rs_kind s2 → rs_index s1 = rs_index s2).
Proof.
  intros H1 H2 E. pose proof (Validate_pinned _ H1) as P1. pose proof (Validate_pinned _ H2) as P2. rewrite <- E in P2.
  destruct (pinned_inj _ _ _ P1 P2) as (Hr & Hv & Hd & Ht). split_and!; [done..|]. intros Hk. revert H1 H2.
  unfold Validate. intros [_ I1]%andb_prop [_ I2]%andb_prop. unfold image_fields_ok in *. rewrite <- Hk in I2.
  destruct (rs_kind s1); rewrite !andb_true_iff, !bool_decide_eq_true in I1, I2; naive_solver congruence.
Qed.
End identities.

(** ** Concrete resources *)

Definition no_urls (u : string) : option Url :=
  if bool_decide (u = "https://docker.io") then Some (mkUrl "https" "docker.io" "docker.io" false "" "") else None.

Definition image_spec (platform manifest : string) : ResourceSpec :=
  mkSpec ResourceImage ("docker.io/library/busybox@" +:+ sample_digest) (mkSourceSpec SourceOCI (normalizeImage "busybox:1.36") "" "" sample_digest)
    "/var/lib/docker" platform sample_digest manifest None.

Lemma identity_pins_source_witness :
  normalizeImage "oci://index.docker.io/library/busybox:1.36@sha256:x" = "docker.io/library/busybox" ∧
  Validate no_urls (image_spec "linux/amd64" "") = false ∧ ValidateInspection no_urls (image_spec "linux/amd64" "") = true ∧
  rs_index (image_spec "linux/amd64" sample_digest) = rs_index (image_spec "linux/arm64/v7" sample_digest).
Proof.
  split_and!; [vm_compute; reflexivity..|].
  apply (identity_pins_source no_urls (image_spec "linux/amd64" sample_digest) (image_spec "linux/arm64/v7" sample_digest));
    vm_compute; reflexivity.
Defined.
