(* ===== verification/Recipe.v ===== *)
(** * Recipes: [internal/recipe/recipe.go]

    The typed manifest, the [${...}] templates of its arguments and environment, the effective
    settings of a launch, the choice of a workload variant and of an artifact's source.  Fields that no
    modelled function reads (labels, descriptions, the bodies of probes) are left out.  A [float64] is the dyadic
    number it denotes; decoding and printing a float, and printing a composite value, are arguments of
    the definitions that use them, as is the decoder of a JSON array. *)

From S2P Require Import Prelude GoStrings Utf8 CJson RunLogs ShellQuote SourceConfig.
Open Scope Z_scope.

(** ** Values of settings *)

(** The finite [float64] [fl_mant * 2 ^ fl_exp] *)
Record float := mkFloat { fl_mant : Z; fl_exp : Z }.

(** Both mantissas at the smaller exponent *)
Definition fl_scaled (a b : float) : Z * Z :=
  let e := Z.min (fl_exp a) (fl_exp b) in
  (fl_mant a * 2 ^ (fl_exp a - e), fl_mant b * 2 ^ (fl_exp b - e)).

Definition fl_lt (a b : float) : bool := let '(x, y) := fl_scaled a b in x <? y.

(** [n == float64(int64(n))]: an integer that fits, with the out-of-range conversion of amd64 *)
Definition fl_integer (a : float) : bool :=
  let '(whole, exact) :=
    if fl_exp a <? 0 then (fl_mant a / 2 ^ (- fl_exp a), fl_mant a mod 2 ^ (- fl_exp a) =? 0)
    else (fl_mant a * 2 ^ fl_exp a, true) in
  exact && (- 2 ^ 63 <=? whole) && (whole <? 2 ^ 63).

(** [float64(z)] of an [int], to nearest with ties to even *)
Definition fl_of_int (z : Z) : float :=
  let a := Z.abs z in
  let k := Z.max 0 (Z.log2 a - 52) in
  let q := a / 2 ^ k in
  let r := 2 * (a mod 2 ^ k) in
  let up := (2 ^ k <? r) || ((2 ^ k =? r) && Z.odd q) in
  mkFloat (Z.sgn z * (if up then q + 1 else q)) k.

(** What an [any] holds here *)
Inductive any :=
| ANil
| ABool (b : bool)
| AString (s : string)
| AJsonNumber (literal : string)
| AFloat (f : float)
| AInt (z : Z)
| AComposite (j : json).

(** The view [sourceconfig] has of a value *)
Definition source_value (v : any) : value :=
  match v with AString s => VString s | ABool b => VBool b | _ => VOther end.

(** [strconv.Itoa] on an [int] *)
Definition Itoa (z : Z) : string := if z <? 0 then "-" +:+ itoa (- z) else itoa z.

(** ** The manifest *)

Record ArtSource := mkArtSource { src_type : string; src_identity : string; src_revision : string; src_digest : string }.
Record ArtVariant := mkArtVariant { av_name : string; av_source : ArtSource }.
Record Artifact := mkArtifact {
  ar_name : string;
  ar_kind : string;
  ar_size : Z;
  ar_source : option ArtSource;
  ar_default : string;
  ar_variants : list ArtVariant;
  ar_mount : string;
}.

Record RecipeParameter := mkParameter {
  p_name : string;
  p_type : string;
  p_default : any;
  p_format : string;
  p_optional : bool;
  p_sensitive : bool;
  p_forbidden_args : list string;
  p_argv_policy : string;
  p_forbidden_env : list string;
  p_min : option float;
  p_max : option float;
  p_min_length : option Z;
  p_max_length : option Z;
  p_enum : list any;
}.

Record MatchAcc := mkMatchAcc { ma_vendor : string; ma_architectures : list string; ma_features : list string }.
Record Match := mkMatch { mt_accelerator : option MatchAcc; mt_node_count : Z }.

#[export] Instance MatchAcc_eq_dec : EqDecision MatchAcc.
Proof. solve_decision. Defined.
#[export] Instance Match_eq_dec : EqDecision Match.
Proof. solve_decision. Defined.

Record Image := mkImage { im_reference : string; im_digest : string }.
Record Port := mkPort { po_container : Z; po_host : Z; po_protocol : string }.
Record DevAcc := mkDevAcc { da_all : bool; da_indices : list Z }.
Record DevRdma := mkDevRdma { dr_all : bool; dr_devices : list string }.

Record HostPreparation := mkHostPreparation { hp_require_swap : bool; hp_swappiness : option Z; hp_drop_cache : bool }.

Record UpstreamExecution := mkUpstream {
  up_install : list (list string);
  up_install_by_rank : list (Z * list (list string));
  up_start : list string;
  up_stop : list string;
  up_containers : list string;
  up_coordinator : option Z;
  up_containers_by_rank : list (Z * list string);
  up_auxiliary : list string;
  up_configuration : list File;
}.

Record Workload := mkWorkload {
  w_match : option Match;
  w_image : Image;
  w_args : list string;
  w_env : list (string * string);
  w_ports : list Port;
  w_shm : Z;
  w_accelerator : option DevAcc;
  w_rdma : option DevRdma;
  w_network : string;
  w_ranks : list Z;
  w_start_order : string;
  w_readiness_path : option string;    (* the paths of the HTTP probes *)
  w_verify_path : option string;
  w_host_preparation : option HostPreparation;
  w_permissions : list string;
  w_upstream : option UpstreamExecution;
}.

Record Extension := mkExtension {
  x_image : Image;
  x_args : list string;
  x_env : list (string * string);
  x_network : string;
}.

Record Source := mkSource { so_url : string; so_revision : string; so_path : string; so_procedure : string }.

Record AccCompat := mkAccCompat {
  ac_vendor : string; ac_architectures : list string; ac_count : Z; ac_min_memory : Z; ac_features : list string }.

Record FabricCompat := mkFabricCompat { fc_transport : string; fc_shared_gid : bool }.

Record Manifest := mkManifest {
  m_model : string;
  m_source : option Source;
  m_node_count : Z;
  m_accelerator : option AccCompat;
  m_fabric : option FabricCompat;
  m_artifacts : list Artifact;
  m_parameters : list RecipeParameter;
  m_workloads : list Workload;
  m_assets : list string;
  m_prepare : option Extension;
  m_verify : option Extension;
}.

Definition ArtifactByName (m : Manifest) (name : string) : option Artifact :=
  find (λ a, bool_decide (ar_name a = name)) (m_artifacts m).

Definition ParameterByName (m : Manifest) (name : string) : option RecipeParameter :=
  find (λ p, bool_decide (p_name p = name)) (m_parameters m).

Definition HasFabricRequirement (m : Manifest) : bool := bool_decide (is_Some (m_fabric m)).

Definition VariantTable (m : Manifest) : gmap string (list string) :=
  foldl (λ t a, <[ar_name a := av_name <$> ar_variants a]> t) ∅ (m_artifacts m).

(** ** The source of an artifact *)

Inductive recipe_error :=
| ErrNoSource | ErrNoDefaultVariant | ErrUnknownVariant
| ErrUnresolved (template : string)
| ErrNoWorkload
| ErrUndeclared (setting : string) | ErrInvalidSetting (setting : string) | ErrRequired (setting : string)
| ErrNoFabric | ErrRank (rank : Z) | ErrNoArtifact (name : string) | ErrNoTemplate.

Definition EffectiveSource (a : Artifact) (variant : string) : result recipe_error ArtSource :=
  match ar_variants a with
  | [] => match ar_source a with Some s => Ok s | None => Err ErrNoSource end
  | vs =>
      let name := if bool_decide (variant = "") then ar_default a else variant in
      if bool_decide (name = "") then Err ErrNoDefaultVariant
      else match find (λ v, bool_decide (av_name v = name)) vs with
           | Some v => Ok (av_source v)
           | None => Err ErrUnknownVariant
           end
  end.

(** ** Templates *)

Definition TemplNodeID : string := "${node.id}".
Definition TemplNodeRank : string := "${node.rank}".
Definition TemplNodeAddress : string := "${node.address}".
Definition TemplNodeAccelerators : string := "${node.accelerators}".
Definition TemplFabricAddr : string := "${fabric.address}".
Definition TemplFabricNodeAddr : string := "${fabric.node_address}".
Definition TemplFabricInterface : string := "${fabric.interface}".
Definition TemplFabricRDMADevice : string := "${fabric.rdma_device}".
Definition TemplFabricGIDIndex : string := "${fabric.gid_index}".
Definition TemplArtifact : string := "${artifact.".
Definition TemplSetting : string := "${setting.".

(** The matches of [templateVar], a dollar and a braced body without a closing brace, leftmost and not
    overlapping, and the bytes between them *)
Inductive piece := Lit (c : ascii) | Var (t : string).

Definition close_brace : ascii := "}"%char.

(** The body of a match that starts here *)
Definition var_at (s : string) : option string :=
  match s with
  | String c (String d rest) =>
      if bool_decide (c = "$"%char) && bool_decide (d = "{"%char) then
        match cut close_brace rest with (body, _, true) => Some body | _ => None end
      else None
  | _ => None
  end.

Definition template_of (body : string) : string := "${" +:+ body +:+ "}".

Fixpoint pieces_go (skip : nat) (s : string) : list piece :=
  match s with
  | EmptyString => []
  | String c s' =>
      match skip with
      | S skip => pieces_go skip s'
      | O =>
          match var_at s with
          | Some body => Var (template_of body) :: pieces_go (String.length body + 2) s'
          | None => Lit c :: pieces_go 0 s'
          end
      end
  end.

Definition pieces (s : string) : list piece := pieces_go 0 s.

Definition vars_of (ps : list piece) : list string := omap (λ p, match p with Var t => Some t | Lit _ => None end) ps.

Definition TemplateVars (vals : list string) : list string := sort_strings (dedup (vals ≫= λ v, vars_of (pieces v))).

Record RenderNode := mkRenderNode {
  rn_id : string; rn_address : string; rn_fabric_addr : string;
  rn_interface : string; rn_rdma : string; rn_gid : string }.

Record RenderContext := mkRenderContext {
  rc_id : string;
  rc_rank : Z;
  rc_address : string;
  rc_accelerators : string;
  rc_fabric_addr : string;
  rc_fabric_node_addr : string;
  rc_interface : string;
  rc_rdma : string;
  rc_gid : string;
  rc_artifacts : gmap string string;
  rc_settings : gmap string any;
  rc_nodes : gmap Z RenderNode;
}.

(** [strconv.Atoi] followed by the test that [strconv.Itoa] gives the text back, on ranks that are not negative *)
Definition rank_text (s : string) : option Z :=
  if negb (bool_decide (s = "")) && sforallb digit s && (dec_go 0 s <=? max_int64) && bool_decide (itoa (dec_go 0 s) = s)
  then Some (dec_go 0 s) else None.

Definition cluster_prefix : string := "${cluster.node.".

Definition cluster_fields : list string :=
  ["id"; "address"; "fabric.node_addr"; "fabric.interface"; "fabric.rdma_device"; "fabric.gid_index"].

Definition clusterTemplate (v : string) : option (Z * string) :=
  if has_prefix cluster_prefix v && has_suffix "}" v then
    let '(rankText, field, found) := cut "."%char (trim_suffix "}" (trim_prefix cluster_prefix v)) in
    if found : bool then
      match rank_text rankText with
      | Some rank => if bool_decide (field ∈ cluster_fields) then Some (rank, field) else None
      | None => None
      end
    else None
  else None.

Definition node_field (n : RenderNode) (field : string) : string :=
  if bool_decide (field = "id") then rn_id n
  else if bool_decide (field = "address") then rn_address n
  else if bool_decide (field = "fabric.node_addr") then rn_fabric_addr n
  else if bool_decide (field = "fabric.interface") then rn_interface n
  else if bool_decide (field = "fabric.rdma_device") then rn_rdma n
  else if bool_decide (field = "fabric.gid_index") then rn_gid n
  else "".

(** The name in [${artifact.<name>.path}], the name in [${setting.<name>}] *)
Definition artifact_name (v : string) : option string :=
  if has_prefix TemplArtifact v && has_suffix ".path}" v then Some (trim_suffix ".path}" (trim_prefix TemplArtifact v)) else None.

Definition setting_name (v : string) : option string :=
  if has_prefix TemplSetting v && has_suffix "}" v then Some (trim_suffix "}" (trim_prefix TemplSetting v)) else None.

Section values.
(** [%v] of a float and of a composite value, [json.Number.Float64], and [json.Unmarshal] of an array *)
Context (format_float : float → string) (format_composite : json → string)
        (parse_float : string → option float) (json_array : string → option (list json)).

(** [fmt.Sprintf("%v", v)] *)
Definition format_v (v : any) : string :=
  match v with
  | ANil => "<nil>"
  | ABool b => if b then "true" else "false"
  | AString s => s
  | AJsonNumber l => l
  | AFloat f => format_float f
  | AInt z => Itoa z
  | AComposite j => format_composite j
  end.

Definition formatSettingValue (v : any) : string := match v with ANil => "" | _ => format_v v end.

Definition Resolve (c : RenderContext) (v : string) : option string :=
  if bool_decide (v = TemplNodeID) then Some (rc_id c)
  else if bool_decide (v = TemplNodeRank) then Some (Itoa (rc_rank c))
  else if bool_decide (v = TemplNodeAddress) then Some (rc_address c)
  else if bool_decide (v = TemplNodeAccelerators)
       then if bool_decide (rc_accelerators c = "") then None else Some (rc_accelerators c)
  else if bool_decide (v = TemplFabricAddr) then Some (rc_fabric_addr c)
  else if bool_decide (v = TemplFabricNodeAddr) then Some (rc_fabric_node_addr c)
  else if bool_decide (v = TemplFabricInterface) then Some (rc_interface c)
  else if bool_decide (v = TemplFabricRDMADevice) then Some (rc_rdma c)
  else if bool_decide (v = TemplFabricGIDIndex) then Some (rc_gid c)
  else match clusterTemplate v with
       | Some (rank, field) =>
           n ← rc_nodes c !! rank;
           if bool_decide (node_field n field = "") then None else Some (node_field n field)
       | None =>
           match artifact_name v with
           | Some name => rc_artifacts c !! name
           | None => match setting_name v with
                     | Some name => formatSettingValue <$> rc_settings c !! name
                     | None => None
                     end
           end
       end.

(** The replacement of each match; the last unresolved one is the error of the whole rendering *)
Fixpoint render_pieces (c : RenderContext) (ps : list piece) : result recipe_error string :=
  match ps with
  | [] => Ok ""
  | Lit a :: ps => out ← render_pieces c ps; Ok (String a out)
  | Var t :: ps =>
      match Resolve c t with
      | Some got => out ← render_pieces c ps; Ok (got +:+ out)
      | None => match render_pieces c ps with Err e => Err e | Ok _ => Err (ErrUnresolved t) end
      end
  end.

Definition Render (v : string) (c : RenderContext) : result recipe_error string := render_pieces c (pieces v).

(** ** Parameters *)

Definition asNumber (v : any) : option float :=
  match v with
  | AJsonNumber l => parse_float l
  | AFloat f => Some f
  | AInt z => Some (fl_of_int z)
  | _ => None
  end.

(** The bounds check of a number *)
Definition out_of_range (p : RecipeParameter) (n : float) : bool :=
  match p_min p with Some lo => fl_lt n lo | None => false end
  || match p_max p with Some hi => fl_lt hi n | None => false end.

Definition argv_bad (p : RecipeParameter) (v : any) : bool :=
  match Argv json_array (source_value v) with
  | None => true
  | Some args =>
      negb (is_ok (CheckForbiddenArgs args (p_forbidden_args p) (negb (bool_decide (p_argv_policy p = "docker")))))
      || (bool_decide (p_argv_policy p = "docker") && negb (is_ok (CheckDockerArgs args (p_forbidden_env p))))
  end.

(** [checkParamValue]: whether it reports a finding *)
Definition checkParamValue (p : RecipeParameter) (v : any) : bool :=
  (bool_decide (p_format p = "argv") && argv_bad p v)
  || (if bool_decide (p_type p = "int") then
        match asNumber v with None => true | Some n => negb (fl_integer n) || out_of_range p n end
      else if bool_decide (p_type p = "float") then
        match asNumber v with None => true | Some n => out_of_range p n end
      else if bool_decide (p_type p = "bool") then match v with ABool _ => false | _ => true end
      else if bool_decide (p_type p = "string") then
        match v with
        | AString s =>
            let len := Z.of_nat (String.length s) in
            match p_min_length p with Some lo => len <? lo | None => false end
            || match p_max_length p with Some hi => hi <? len | None => false end
        | _ => true
        end
      else if bool_decide (p_type p = "enum") then negb (existsb (λ e, bool_decide (format_v e = format_v v)) (p_enum p))
      else false).

(** [EffectiveSettings]: the overrides in the order the map is ranged over *)
Definition default_settings (ps : list RecipeParameter) : gmap string any :=
  foldl (λ out p, match p_default p with ANil => out | d => <[p_name p := d]> out end) ∅ ps.

Fixpoint apply_settings (m : Manifest) (overrides : list (string * any)) (out : gmap string any)
    : result recipe_error (gmap string any) :=
  match overrides with
  | [] => Ok out
  | (k, v) :: overrides =>
      match ParameterByName m k with
      | None => Err (ErrUndeclared k)
      | Some p => if checkParamValue p v then Err (ErrInvalidSetting k) else apply_settings m overrides (<[k := v]> out)
      end
  end.

Fixpoint check_required (ps : list RecipeParameter) (out : gmap string any) : result recipe_error unit :=
  match ps with
  | [] => Ok tt
  | p :: ps =>
      if bool_decide (out !! p_name p = None) && negb (p_optional p) then Err (ErrRequired (p_name p))
      else check_required ps out
  end.

Definition EffectiveSettings (m : Manifest) (overrides : gmap string any) : result recipe_error (gmap string any) :=
  out ← apply_settings m (map_to_list overrides) (default_settings (m_parameters m));
  _ ← check_required (m_parameters m) out;
  Ok out.
End values.

(** ** The choice of a workload *)

Record Target := mkTarget { t_node_count : Z; t_vendor : string; t_architecture : string; t_features : list string }.

Definition SatisfiedBy (mt : option Match) (t : Target) : bool :=
  match mt with
  | None => true
  | Some mt =>
      if negb (mt_node_count mt =? 0) && negb (mt_node_count mt =? t_node_count t) then false
      else match mt_accelerator mt with
           | None => true
           | Some a =>
               if negb (bool_decide (ma_vendor a = "")) && negb (bool_decide (ma_vendor a = t_vendor t)) then false
               else if negb (bool_decide (ma_architectures a = [])) && negb (bool_decide (t_architecture t ∈ ma_architectures a))
               then false
               else forallb (λ f, bool_decide (f ∈ t_features t)) (ma_features a)
           end
  end.

Fixpoint select_from (i : nat) (ws : list Workload) (t : Target) : result recipe_error (nat * Workload) :=
  match ws with
  | [] => Err ErrNoWorkload
  | w :: ws => if SatisfiedBy (w_match w) t then Ok (i, w) else select_from (S i) ws t
  end.

Definition SelectWorkload (m : Manifest) (t : Target) : result recipe_error (nat * Workload) := select_from 0 (m_workloads m) t.

(** ** Permissions *)

Definition GiB : Z := 1024 * 1024 * 1024.

Definition uses_rdma (w : Workload) : bool :=
  match w_rdma w with Some r => dr_all r || negb (bool_decide (dr_devices r = [])) | None => false end.

Definition when {A} (b : bool) (x : A) : list A := if b then [x] else [].

Definition workload_permissions (w : Workload) : list string :=
  when (bool_decide (is_Some (w_upstream w))) "host.upstream-exec"
  ++ when (bool_decide (w_network w = "host")) "network.host"
  ++ when (uses_rdma w) "devices.rdma"
  ++ when (GiB <=? w_shm w) "memory.shm-large"
  ++ w_permissions w.

Definition egress (x : option Extension) : bool :=
  match x with Some x => bool_decide (x_network x = "egress") | None => false end.

Definition HighRiskPermissions (m : Manifest) : list string :=
  sort_strings (dedup ((m_workloads m ≫= workload_permissions)
    ++ when (egress (m_prepare m)) "network.egress" ++ when (egress (m_verify m)) "network.egress")).

(** ** Templates: what the matches are *)

Definition piece_text (p : piece) : string := match p with Lit c => String c "" | Var t => t end.

Lemma var_at_spec s body :
  var_at s = Some body ↔ (∃ rest, s = template_of body +:+ rest) ∧ contains_byte close_brace body = false.
Proof.
  unfold template_of. split.
  - destruct s as [|c [|d rest]]; simpl; try done. destruct (bool_decide (c = _)) eqn:Ec; simpl; [|done].
    destruct (bool_decide (d = _)) eqn:Ed; simpl; [|done].
    apply bool_decide_eq_true in Ec as ->, Ed as ->. destruct (cut close_brace rest) as [[b r] []] eqn:E; [|done].
    intros [= <-]. apply cut_true in E as [-> Hb]. split; [|done]. exists r. simpl. by rewrite sapp_assoc.
  - intros [[rest ->] Hb]. simpl. rewrite sapp_assoc. simpl. by rewrite cut_app.
Qed.

Lemma template_length body : String.length (template_of body) = (String.length body + 3)%nat.
Proof. unfold template_of. simpl. rewrite slength_app. simpl. lia. Qed.

Lemma pieces_skip n s : pieces_go n s = pieces_go 0 (sdrop n s).
Proof. revert n. induction s as [|c s IH]; intros [|n]; [done..|]. simpl. apply IH. Qed.

Lemma pieces_var body rest :
  contains_byte close_brace body = false → pieces (template_of body +:+ rest) = Var (template_of body) :: pieces rest.
Proof.
  intros Hb. unfold pieces. set (s := template_of body +:+ rest).
  assert (var_at s = Some body) as Hv by (apply var_at_spec; eauto).
  assert (s = String "$" (String "{" (body +:+ "}") +:+ rest)) as Es by done.
  rewrite Es at 1. cbn [pieces_go]. rewrite <- Es, Hv. f_equal. rewrite pieces_skip. f_equal.
  assert (String.length (String "{" (body +:+ "}")) = (String.length body + 2)%nat) as <-.
  { simpl. rewrite slength_app. simpl. lia. }
  apply sdrop_app.
Qed.

Lemma pieces_lit c s : var_at (String c s) = None → pieces (String c s) = Lit c :: pieces s.
Proof. intros Hv. unfold pieces. cbn [pieces_go]. by rewrite Hv. Qed.

(** Induction along the matches of a text *)
Lemma pieces_ind (P : string → Prop) :
  P "" →
  (∀ body rest, contains_byte close_brace body = false → P rest → P (template_of body +:+ rest)) →
  (∀ c s, var_at (String c s) = None → P s → P (String c s)) →
  ∀ s, P s.
Proof.
  intros Hn Hv Hl s. remember (String.length s) as n eqn:En. revert s En.
  induction (lt_wf n) as [n _ IH]. intros [|c s] En; [done|].
  destruct (var_at (String c s)) as [body|] eqn:E.
  - apply var_at_spec in E as [[rest Es] Hb]. rewrite Es. apply Hv; [done|]. apply (IH (String.length rest)); [|done].
    subst n. rewrite Es, slength_app, template_length. lia.
  - apply Hl; [done|]. apply (IH (String.length s)); [simpl in En; lia|done].
Qed.

(** The matches and the bytes between them make up the text, and a match ends at its first closing brace *)
Lemma pieces_text s :
  sconcat (piece_text <$> pieces s) = s ∧
  Forall (λ p, ∀ t, p = Var t → ∃ body, t = template_of body ∧ contains_byte close_brace body = false) (pieces s).
Proof.
  induction s as [|body rest Hb [IH1 IH2]|c s Hv [IH1 IH2]] using pieces_ind.
  - done.
  - rewrite pieces_var, fmap_cons by done. cbn [sconcat piece_text]. rewrite IH1. split; [done|]. constructor; [|done]. intros t [= <-]. by exists body.
  - rewrite pieces_lit, fmap_cons by done. cbn [sconcat piece_text]. rewrite IH1. split; [done|]. by constructor.
Qed.

Lemma elem_of_TemplateVars v t : t ∈ TemplateVars [v] ↔ Var t ∈ pieces v.
Proof.
  unfold TemplateVars. rewrite elem_of_sort_strings, elem_of_dedup. simpl. rewrite app_nil_r.
  unfold vars_of. rewrite list_elem_of_omap. split.
  - intros ([c|t'] & Hin & [= <-]). done.
  - intros Hin. by exists (Var t).
Qed.

Section render_facts.
Context (format_float : float → string) (format_composite : json → string).

Notation resolve := (Resolve format_float format_composite).

Definition piece_value (c : RenderContext) (p : piece) : string :=
  match p with Lit a => String a "" | Var t => default t (resolve c t) end.

Lemma render_pieces_spec c ps :
  match render_pieces format_float format_composite c ps with
  | Ok out => (∀ t, Var t ∈ ps → is_Some (resolve c t)) ∧ out = sconcat (piece_value c <$> ps)
  | Err e => ∃ t, Var t ∈ ps ∧ resolve c t = None ∧ e = ErrUnresolved t
  end.
Proof.
  induction ps as [|[a|t] ps IH]; simpl.
  - split; [set_solver|done].
  - destruct (render_pieces _ _ c ps) as [out|e]; simpl.
    + destruct IH as [H ->]. split; [set_solver|done].
    + destruct IH as (t & ? & ?). exists t. set_solver.
  - destruct (resolve c t) as [got|] eqn:E; destruct (render_pieces _ _ c ps) as [out|e]; simpl.
    + destruct IH as [H ->]. split; [|done]. intros t' [[= <-]|?]%elem_of_cons; [by rewrite E|auto].
    + destruct IH as (t' & ? & ?). exists t'. set_solver.
    + exists t. set_solver.
    + destruct IH as (t' & ? & ?). exists t'. set_solver.
Qed.

(** Rendering replaces the template variables of a text and nothing else: the text is a sequence of
    bytes and variables, each variable ending at its first closing brace; rendering succeeds exactly
    when every variable [TemplateVars] lists resolves, and then yields the bytes with each variable
    replaced by its value; otherwise it fails with a variable of the text that does not resolve. *)
Theorem Render_spec v c :
  v = sconcat (piece_text <$> pieces v) ∧
  (∀ t, t ∈ TemplateVars [v] → ∃ body, t = template_of body ∧ contains_byte close_brace body = false) ∧
  match Render format_float format_composite v c with
  | Ok out => (∀ t, t ∈ TemplateVars [v] → is_Some (resolve c t)) ∧ out = sconcat (piece_value c <$> pieces v)
  | Err e => ∃ t, t ∈ TemplateVars [v] ∧ resolve c t = None ∧ e = ErrUnresolved t
  end.
Proof.
  destruct (pieces_text v) as [E F]. split; [done|]. split.
  - intros t Ht%elem_of_TemplateVars. rewrite Forall_forall in F. by apply (F (Var t)).
  - pose proof (render_pieces_spec c (pieces v)) as H. unfold Render.
    destruct (render_pieces _ _ c (pieces v)); setoid_rewrite elem_of_TemplateVars; done.
Qed.

End render_facts.

(** ** Settings *)

Lemma ParameterByName_spec m k p : ParameterByName m k = Some p → p ∈ m_parameters m ∧ p_name p = k.
Proof. unfold ParameterByName. intros [H1 H2]%find_some. by apply list_elem_of_In in H1; apply bool_decide_eq_true in H2. Qed.

Lemma ParameterByName_declared m p : p ∈ m_parameters m → is_Some (ParameterByName m (p_name p)).
Proof.
  intros Hin. destruct (ParameterByName m (p_name p)) eqn:E; [by eexists|].
  pose proof (find_none _ _ E p (proj1 (list_elem_of_In _ _) Hin)) as H. by apply bool_decide_eq_false in H.
Qed.

Lemma check_required_spec ps (out : gmap string any) :
  is_ok (check_required ps out) = true ↔ ∀ p, p ∈ ps → p_optional p = false → is_Some (out !! p_name p).
Proof.
  induction ps as [|p ps IH]; simpl; [set_solver|].
  destruct (bool_decide (out !! p_name p = None) && negb (p_optional p)) eqn:E; simpl.
  - apply andb_prop in E as [E1%bool_decide_eq_true E2%negb_true_iff]. split; [done|].
    intros H. destruct (H p ltac:(set_solver) E2) as [? ?]. congruence.
  - rewrite IH. split; [|set_solver]. intros H q [->|Hq]%elem_of_cons Ho; [|by apply H].
    apply andb_false_iff in E as [E%bool_decide_eq_false|E]; [|by rewrite Ho in E]. by apply not_eq_None_Some.
Qed.

Lemma check_required_missing ps (out : gmap string any) e :
  check_required ps out = Err e → ∃ p, p ∈ ps ∧ p_optional p = false ∧ out !! p_name p = None.
Proof.
  induction ps as [|p ps IH]; [done|]. simpl. intros Ec.
  destruct (bool_decide (out !! p_name p = None) && negb (p_optional p)) eqn:E.
  - apply andb_prop in E as [E1%bool_decide_eq_true E2%negb_true_iff]. exists p. set_solver.
  - destruct (IH Ec) as (q & Hq & ?). exists q. set_solver.
Qed.

Section settings_facts.
Context (format_float : float → string) (format_composite : json → string)
        (parse_float : string → option float) (json_array : string → option (list json)).

Notation check := (checkParamValue format_float format_composite parse_float json_array).
Notation effective := (EffectiveSettings format_float format_composite parse_float json_array).

Lemma apply_settings_spec m kvs out :
  NoDup kvs.*1 →
  match apply_settings format_float format_composite parse_float json_array m kvs out with
  | Ok out' => (∀ k v, (k, v) ∈ kvs → ∃ p, ParameterByName m k = Some p ∧ check p v = false) ∧
      ∀ k, out' !! k = match (list_to_map kvs : gmap string any) !! k with Some v => Some v | None => out !! k end
  | Err e => ∃ k v, (k, v) ∈ kvs ∧ ∀ p, ParameterByName m k = Some p → check p v = true
  end.
Proof.
  revert out. induction kvs as [|[k v] kvs IH]; intros out Hnd; simpl.
  { split; [set_solver|]. intros k. by rewrite lookup_empty. }
  apply NoDup_cons in Hnd as [Hk Hnd].
  destruct (ParameterByName m k) as [p|] eqn:Ep; [|exists k, v; split; [set_solver|congruence]].
  destruct (check p v) eqn:Ec; [exists k, v; split; [set_solver|]; intros; by simplify_eq|].
  specialize (IH (<[k := v]> out) Hnd). destruct (apply_settings _ _ _ _ m kvs _) as [out'|e]; simpl in *.
  - destruct IH as [H1 H2]. split.
    + intros k' v' [[= -> ->]|Hin]%elem_of_cons; [by exists p|by apply H1].
    + intros k'. rewrite H2, !lookup_insert. destruct (decide (k = k')) as [<-|].
      * by rewrite not_elem_of_list_to_map_1.
      * done.
  - destruct IH as (k' & v' & Hin & H). exists k', v'. set_solver.
Qed.

(** [EffectiveSettings] as a whole *)
Lemma EffectiveSettings_cases m overrides :
  let out := overrides ∪ default_settings (m_parameters m) in
  match effective m overrides with
  | Ok settings => settings = out ∧
      (∀ k v, overrides !! k = Some v → ∃ p, ParameterByName m k = Some p ∧ check p v = false) ∧
      (∀ p, p ∈ m_parameters m → p_optional p = false → is_Some (out !! p_name p))
  | Err _ => (∃ k v, overrides !! k = Some v ∧ ∀ p, ParameterByName m k = Some p → check p v = true) ∨
      ∃ p, p ∈ m_parameters m ∧ p_optional p = false ∧ out !! p_name p = None
  end.
Proof.
  intros out. unfold EffectiveSettings.
  pose proof (apply_settings_spec m (map_to_list overrides) (default_settings (m_parameters m)) (NoDup_fst_map_to_list overrides)) as H.
  destruct (apply_settings _ _ _ _ m _ _) as [settings|e]; simpl.
  2: { left. destruct H as (k & v & Hin%elem_of_map_to_list & H). by exists k, v. }
  destruct H as [H1 H2]. assert (settings = out) as ->.
  { apply map_eq. intros k. rewrite H2, list_to_map_to_list. unfold out. rewrite lookup_union.
    by destruct (overrides !! k), (default_settings (m_parameters m) !! k). }
  pose proof (check_required_spec (m_parameters m) out) as Hr.
  destruct (check_required (m_parameters m) out) as [u|e] eqn:Ec; simpl.
  - split; [done|]. split; [|by apply Hr]. intros k v Hk. by apply H1, elem_of_map_to_list.
  - right. by apply (check_required_missing _ _ e).
Qed.

(** A launch gets its settings exactly when every override is of a declared parameter and has a
    value that parameter accepts, and every parameter that is not optional has an override or a
    default; the settings are then the overrides, and the defaults where there is none. *)
Theorem EffectiveSettings_spec m overrides :
  let out := overrides ∪ default_settings (m_parameters m) in
  match effective m overrides with
  | Ok settings => settings = out ∧
      (∀ k v, overrides !! k = Some v → ∃ p, ParameterByName m k = Some p ∧ check p v = false) ∧
      (∀ p, p ∈ m_parameters m → p_optional p = false → is_Some (out !! p_name p))
  | Err _ => (∃ k v, overrides !! k = Some v ∧ ∀ p, ParameterByName m k = Some p → check p v = true) ∨
      ∃ p, p ∈ m_parameters m ∧ p_optional p = false ∧ out !! p_name p = None
  end.
Proof. apply EffectiveSettings_cases. Qed.
End settings_facts.

(** The defaults: the last parameter of the name that has one *)
Lemma default_settings_valid (P : RecipeParameter → any → Prop) m k v :
  (∀ p, p ∈ m → p_default p ≠ ANil → P p (p_default p)) → default_settings m !! k = Some v →
  ∃ p, p ∈ m ∧ p_name p = k ∧ P p v.
Proof.
  unfold default_settings. intros HP.
  enough (∀ l (acc : gmap string any), (∀ p, p ∈ l → p ∈ m) → (∀ v', acc !! k = Some v' → ∃ p, p ∈ m ∧ p_name p = k ∧ P p v') →
    foldl (λ out p, match p_default p with ANil => out | d => <[p_name p := d]> out end) acc l !! k = Some v →
    ∃ p, p ∈ m ∧ p_name p = k ∧ P p v) as H by (apply (H m ∅); [done|]; intros v'; by rewrite lookup_empty).
  induction l as [|p l IH]; intros acc Hl Hacc; simpl; [apply Hacc|]. apply IH; [set_solver|].
  intros v' Hv'. specialize (HP p (Hl p ltac:(set_solver))).
  destruct (p_default p) eqn:Ed; [by apply Hacc|..];
    (rewrite lookup_insert in Hv'; case_decide; [simplify_eq; exists p; split_and!; [set_solver|done|by apply HP]|by apply Hacc]).
Qed.

(** ** Selection *)

Lemma select_from_spec i ws t :
  match select_from i ws t with
  | Ok (j, w) => ∃ n, j = (i + n)%nat ∧ ws !! n = Some w ∧ SatisfiedBy (w_match w) t = true ∧
      ∀ n' w', (n' < n)%nat → ws !! n' = Some w' → SatisfiedBy (w_match w') t = false
  | Err e => e = ErrNoWorkload ∧ ∀ n w, ws !! n = Some w → SatisfiedBy (w_match w) t = false
  end.
Proof.
  revert i. induction ws as [|w ws IH]; intros i; simpl; [done|].
  destruct (SatisfiedBy (w_match w) t) eqn:E.
  - exists 0%nat. split_and!; [lia|done|done|]. intros; lia.
  - specialize (IH (S i)). destruct (select_from (S i) ws t) as [[j w']|e].
    + destruct IH as (n & -> & Hn & Hs & Hl). exists (S n). split_and!; [lia|done|done|].
      intros [|n'] w'' Hlt Hw; [by simplify_eq/=|]. apply (Hl n'); [lia|done].
    + destruct IH as [-> H]. split; [done|]. intros [|n] w'' Hw; [by simplify_eq/=|]. by apply (H n).
Qed.

(** What a predicate demands of a target *)
Definition satisfies (mt : Match) (t : Target) : Prop :=
  (mt_node_count mt = 0 ∨ mt_node_count mt = t_node_count t) ∧
  ∀ a, mt_accelerator mt = Some a →
    (ma_vendor a = "" ∨ ma_vendor a = t_vendor t) ∧
    (ma_architectures a = [] ∨ t_architecture t ∈ ma_architectures a) ∧
    ∀ f, f ∈ ma_features a → f ∈ t_features t.

Lemma SatisfiedBy_spec mt t : SatisfiedBy (Some mt) t = true ↔ satisfies mt t.
Proof.
  unfold satisfies. simpl.
  destruct (mt_node_count mt =? 0) eqn:E0, (mt_node_count mt =? t_node_count t) eqn:E1; simpl.
  all: try (split; [done|]; lia).
  all: assert (mt_node_count mt = 0 ∨ mt_node_count mt = t_node_count t) as Hn by lia.
  all: destruct (mt_accelerator mt) as [a|]; [|split; [done|done]].
  all: repeat case_bool_decide; simpl; try (split; [done|]; intros [_ H']; specialize (H' a eq_refl); tauto).
  all: rewrite forallb_forall; setoid_rewrite bool_decide_eq_true; setoid_rewrite <- list_elem_of_In.
  all: split; [intros Hf; split; [done|]; intros ? [= <-]; tauto|intros [_ H']; specialize (H' a eq_refl); tauto].
Qed.

(** [SelectWorkload] takes the first variant whose predicate the target meets, where no predicate
    is met by every target, and fails only when none is met. *)
Theorem SelectWorkload_spec m t :
  let meets (w : Workload) := ∀ mt, w_match w = Some mt → satisfies mt t in
  match SelectWorkload m t with
  | Ok (i, w) => m_workloads m !! i = Some w ∧ meets w ∧
      ∀ j w', (j < i)%nat → m_workloads m !! j = Some w' → ¬ meets w'
  | Err e => e = ErrNoWorkload ∧ ∀ i w, m_workloads m !! i = Some w → ¬ meets w
  end.
Proof.
  intros meets. assert (∀ w, SatisfiedBy (w_match w) t = true ↔ meets w) as Hm.
  { intros w. unfold meets. destruct (w_match w) as [mt|]; [|naive_solver]. rewrite SatisfiedBy_spec. naive_solver. }
  assert (∀ w, SatisfiedBy (w_match w) t = false → ¬ meets w) as Hn by (intros w E H%Hm; congruence).
  unfold SelectWorkload. pose proof (select_from_spec 0 (m_workloads m) t) as H.
  destruct (select_from 0 (m_workloads m) t) as [[i w]|e].
  - destruct H as (n & -> & Hw & Hs & Hl). simpl. split; [done|]. split; [by apply Hm|].
    intros j w' Hj Hw'. apply Hn. by apply (Hl j).
  - destruct H as [-> H]. split; [done|]. intros i w Hw. apply Hn. by apply (H i).
Qed.
