(* ===== verification/RecipeValidate.v ===== *)
(** * The semantic rules of a recipe: [internal/recipe/validate.go]

    What [semanticDiagnostics] reports for a manifest that passed the schema, rule by rule and in the
    code's order; a finding is its code and path, the message is dropped.  A Go map is the list of its
    entries in the order it is ranged over.  The variant predicates are compared as values, which is
    how their JSON texts compare on well-formed strings.  [url.Parse] is an argument. *)

From S2P Require Import Prelude GoStrings Utf8 CJson RunLogs ShellQuote SourceConfig ArtifactIdentity Recipe.
Open Scope Z_scope.

Record Finding := mkFinding { fd_code : string; fd_path : string }.

Definition index_path (name : string) (i : nat) : string := name +:+ "[" +:+ Itoa (Z.of_nat i) +:+ "]".

(** A loop over [xs] with an index and a [seen] set of keys *)
Section loop.
Context {A K : Type} `{EqDecision K} (key : A → K) (body : nat → bool → A → list Finding).

Fixpoint loop (i : nat) (seen : list K) (xs : list A) : list Finding :=
  match xs with
  | [] => []
  | x :: xs => body i (bool_decide (key x ∈ seen)) x ++ loop (S i) (key x :: seen) xs
  end.
End loop.

(** A loop with an index only *)
Fixpoint iloop {A} (body : nat → A → list Finding) (i : nat) (xs : list A) : list Finding :=
  match xs with
  | [] => []
  | x :: xs => body i x ++ iloop body (S i) xs
  end.

(** ** Images, artifacts, assets *)

Definition latestTag (s : string) : bool := bool_decide (s = "latest") || has_suffix ":latest" s.

Definition traversal (s : string) : bool := existsb (λ w, bool_decide (w = "..")) (split_byte "/"%char s).

Definition check_image (img : Image) (path : string) : list Finding :=
  when (latestTag (im_reference img)) (mkFinding "recipe.image-latest" (path +:+ ".image.reference")).

Definition sensitiveMount (mount : string) : bool :=
  bool_decide (mount = "/var/run/docker.sock") || bool_decide (mount = "/run/docker.sock")
  || has_prefix "/dev/" mount || has_prefix "/proc/" mount || has_prefix "/sys/" mount.

Definition check_source (src : ArtSource) (path : string) : list Finding :=
  when (bool_decide (src_type src = "huggingface") && negb (revision40 (src_revision src)))
    (mkFinding "recipe.hf-unpinned" (path +:+ ".revision"))
  ++ when (bool_decide (src_type src = "file") && bool_decide (src_digest src = ""))
       (mkFinding "recipe.file-unpinned" (path +:+ ".digest")).

Definition check_variant (p : string) (vi : nat) (dup : bool) (v : ArtVariant) : list Finding :=
  when dup (mkFinding "recipe.variant-duplicate" (index_path (p +:+ ".variants") vi +:+ ".name"))
  ++ check_source (av_source v) (index_path (p +:+ ".variants") vi +:+ ".source").

Definition check_variants (p : string) (a : Artifact) : list Finding :=
  match ar_variants a with
  | [] => match ar_source a with Some src => check_source src (p +:+ ".source") | None => [] end
  | vs =>
      when (bool_decide (ar_default a = "")) (mkFinding "recipe.variant-default" (p +:+ ".defaultVariant"))
      ++ loop av_name (check_variant p) 0 [] vs
      ++ when (negb (bool_decide (ar_default a = "")) && negb (bool_decide (ar_default a ∈ av_name <$> vs)))
           (mkFinding "recipe.variant-default-unknown" (p +:+ ".defaultVariant"))
  end.

Definition check_artifact (i : nat) (dup : bool) (a : Artifact) : list Finding :=
  let p := index_path "artifacts" i in
  when (traversal (ar_mount a)) (mkFinding "recipe.mount-traversal" (p +:+ ".mount"))
  ++ when (sensitiveMount (ar_mount a)) (mkFinding "recipe.mount-sensitive" (p +:+ ".mount"))
  ++ when dup (mkFinding "recipe.mount-duplicate" (p +:+ ".mount"))
  ++ check_variants p a.

Definition check_asset (i : nat) (dup : bool) (a : string) : list Finding :=
  when (has_prefix "/" a || traversal a) (mkFinding "recipe.asset-path" (index_path "assets" i))
  ++ when dup (mkFinding "recipe.asset-duplicate" (index_path "assets" i)).

(** ** Template variables *)

Definition upstreamRankSelected (m : Manifest) (w : Workload) (rank : Z) : bool :=
  if (rank <? 0) || (m_node_count m <=? rank) then false
  else match w_ranks w with
       | [] => rank =? 0
       | ranks => bool_decide (rank ∈ ranks)
       end.

Definition node_templates : list string := [TemplNodeID; TemplNodeRank; TemplNodeAddress; TemplNodeAccelerators].
Definition fabric_templates : list string :=
  [TemplFabricAddr; TemplFabricNodeAddr; TemplFabricInterface; TemplFabricRDMADevice; TemplFabricGIDIndex].

Definition rank_undeclared (m : Manifest) (w : option Workload) (rank : Z) : bool :=
  (m_node_count m <=? rank)
  || match w with
     | Some w => bool_decide (is_Some (w_upstream w)) && negb (upstreamRankSelected m w rank)
     | None => false
     end.

Definition checkTemplateVar (tv : string) (m : Manifest) (w : option Workload) : result recipe_error unit :=
  if bool_decide (tv ∈ node_templates) then Ok tt
  else if bool_decide (tv ∈ fabric_templates) then
    if HasFabricRequirement m then Ok tt else Err ErrNoFabric
  else match clusterTemplate tv with
       | Some (rank, field) =>
           if rank_undeclared m w rank then Err (ErrRank rank)
           else if has_prefix "fabric." field && negb (HasFabricRequirement m) then Err ErrNoFabric
           else Ok tt
       | None =>
           match artifact_name tv with
           | Some name =>
               if bool_decide (name = "package") then Ok tt
               else match ArtifactByName m name with Some _ => Ok tt | None => Err (ErrNoArtifact name) end
           | None =>
               match setting_name tv with
               | Some name => match ParameterByName m name with Some _ => Ok tt | None => Err (ErrUndeclared name) end
               | None => Err ErrNoTemplate
               end
           end
       end.

Definition check_template (m : Manifest) (w : option Workload) (path : string) (s : string) : list Finding :=
  TemplateVars [s] ≫= λ tv, when (negb (is_ok (checkTemplateVar tv m w))) (mkFinding "recipe.template" path).

(** [checkTempl] *)
Definition checkTempl (m : Manifest) (vals : list string) (path : string) (env : list (string * string))
    (w : option Workload) : list Finding :=
  (vals ≫= check_template m w path)
  ++ (env ≫= λ kv, check_template m w (path +:+ ".env." +:+ fst kv) (snd kv)).

Section rules.
Context (format_float : float → string) (format_composite : json → string)
        (parse_float : string → option float) (json_array : string → option (list json)).

(** [url.Parse]: the scheme and the host *)
Context (url_parse : string → option (string * string)).

(** ** Parameters *)

Definition check_parameter (i : nat) (dup : bool) (p : RecipeParameter) : list Finding :=
  let px := index_path "parameters" i in
  let argv := bool_decide (p_format p = "argv") in
  when dup (mkFinding "recipe.param-duplicate" (px +:+ ".name"))
  ++ when (negb (bool_decide (p_format p = "")) && (negb argv || negb (bool_decide (p_type p = "string"))))
       (mkFinding "recipe.param-format" (px +:+ ".format"))
  ++ when (negb (bool_decide (p_forbidden_args p = [])) && negb argv)
       (mkFinding "recipe.param-forbidden-args" (px +:+ ".forbiddenArgs"))
  ++ when (negb (is_ok (CheckForbiddenArgs [] (p_forbidden_args p) false)))
       (mkFinding "recipe.param-forbidden-args" (px +:+ ".forbiddenArgs"))
  ++ when (negb (bool_decide (p_argv_policy p = "")) && (negb (bool_decide (p_argv_policy p = "docker")) || negb argv))
       (mkFinding "recipe.param-argv-policy" (px +:+ ".argvPolicy"))
  ++ when (negb (bool_decide (p_forbidden_env p = [])) && negb (bool_decide (p_argv_policy p = "docker")))
       (mkFinding "recipe.param-forbidden-env" (px +:+ ".forbiddenEnv"))
  ++ when (negb (is_ok (CheckDockerArgs [] (p_forbidden_env p))))
       (mkFinding "recipe.param-forbidden-env" (px +:+ ".forbiddenEnv"))
  ++ match p_default p with
     | ANil => []
     | d => when (checkParamValue format_float format_composite parse_float json_array p d)
              (mkFinding "recipe.param-default" (px +:+ ".default"))
     end.

(** ** Upstream workloads *)

Definition incompatible_format (e : Edit) (p : RecipeParameter) : bool :=
  let flag := bool_decide (e_format e = "flag") || bool_decide (e_format e = "flag-compose") in
  let argv := IsArgvFormat (e_format e) in
  (flag && negb (bool_decide (p_type p = "bool")))
  || (argv && (negb (bool_decide (p_type p = "string")) || negb (bool_decide (p_format p = "argv"))))
  || (negb flag && negb argv && bool_decide (p_format p = "argv"))
  || (bool_decide (e_format e = "json-compose") && negb (bool_decide (p_type p = "string"))
      && negb (bool_decide (p_type p = "enum"))).

Definition check_edit (m : Manifest) (w : Workload) (path : string) (e : Edit) : list Finding :=
  if negb (bool_decide (e_template e = "")) then checkTempl m [e_template e] path [] (Some w)
  else if negb (bool_decide (e_variable e = "")) || negb (bool_decide (e_command e = "")) then []
  else match ParameterByName m (e_parameter e) with
       | None => [mkFinding "recipe.upstream-configuration" path]
       | Some p => when (incompatible_format e p) (mkFinding "recipe.upstream-configuration" path)
       end.

Definition rank_path (p name : string) (rank : Z) : string := p +:+ ".upstream." +:+ name +:+ "." +:+ Itoa rank.

Definition check_container_rank (m : Manifest) (w : Workload) (p : string) (e : Z * list string) : list Finding :=
  let path := rank_path p "containersByRank" (fst e) in
  checkTempl m (snd e) path [] (Some w)
  ++ when (negb (upstreamRankSelected m w (fst e))) (mkFinding "recipe.upstream-rank" path).

Definition check_install (m : Manifest) (w : Workload) (path : string) (j : nat) (argv : list string) : list Finding :=
  checkTempl m argv (index_path path j) [] (Some w).

Definition check_install_rank (m : Manifest) (w : Workload) (p : string) (e : Z * list (list string)) : list Finding :=
  let path := rank_path p "installByRank" (fst e) in
  when (negb (upstreamRankSelected m w (fst e))) (mkFinding "recipe.upstream-rank" path)
  ++ iloop (check_install m w path) 0 (snd e).

Definition source_url_ok (u : string) : bool :=
  match url_parse u with
  | None => false
  | Some (scheme, host) =>
      (bool_decide (scheme = "https") || bool_decide (scheme = "ssh")) && negb (bool_decide (host = "")) && negb (has_control u)
  end.

Definition check_upstream_source (m : Manifest) : list Finding :=
  match m_source m with
  | None => [mkFinding "recipe.upstream-source" "metadata.source"]
  | Some s =>
      if negb (revision40 (so_revision s)) then [mkFinding "recipe.upstream-source" "metadata.source"]
      else when (negb (source_url_ok (so_url s))) (mkFinding "recipe.upstream-source" "metadata.source.url")
  end.

Definition coordinator_bad (m : Manifest) (w : Workload) (u : UpstreamExecution) : bool :=
  match up_coordinator u with
  | Some rank => negb (rank =? 0) || negb (upstreamRankSelected m w rank)
  | None => false
  end.

Definition check_upstream (m : Manifest) (p : string) (w : Workload) (u : UpstreamExecution) : list Finding :=
  checkTempl m [] p (w_env w) (Some w)
  ++ when (negb (is_ok (Validate (up_configuration u)))) (mkFinding "recipe.upstream-configuration" (p +:+ ".upstream.configuration"))
  ++ (up_configuration u ≫= λ f, f_edits f ≫= check_edit m w (p +:+ ".upstream.configuration"))
  ++ checkTempl m (up_start u) (p +:+ ".upstream.start") [] (Some w)
  ++ checkTempl m (up_stop u) (p +:+ ".upstream.stop") [] (Some w)
  ++ checkTempl m (up_containers u) (p +:+ ".upstream.containers") [] (Some w)
  ++ checkTempl m (up_auxiliary u) (p +:+ ".upstream.auxiliaryContainers") [] (Some w)
  ++ (up_containers_by_rank u ≫= check_container_rank m w p)
  ++ (w_ranks w ≫= λ rank, when ((rank <? 0) || (m_node_count m <=? rank)) (mkFinding "recipe.upstream-rank" (p +:+ ".ranks")))
  ++ when (coordinator_bad m w u) (mkFinding "recipe.upstream-rank" (p +:+ ".upstream.coordinatorRank"))
  ++ iloop (check_install m w (p +:+ ".upstream.install")) 0 (up_install u)
  ++ (up_install_by_rank u ≫= check_install_rank m w p)
  ++ check_upstream_source m.

Definition check_workload_templates (m : Manifest) (i : nat) (w : Workload) : list Finding :=
  let p := index_path "workloads" i in
  match w_upstream w with
  | None => checkTempl m (w_args w) (p +:+ ".args") (w_env w) (Some w)
  | Some u => check_upstream m p w u
  end.

Definition check_extension (m : Manifest) (name : string) (x : option Extension) : list Finding :=
  match x with Some x => checkTempl m (x_args x) (name +:+ ".args") (x_env x) None | None => [] end.

(** ** Ports, permissions, predicates, ranks *)

Definition check_port (p : string) (_ : nat) (dup : bool) (_ : Port) : list Finding :=
  when dup (mkFinding "recipe.port-duplicate" (p +:+ ".ports")).

Definition missing_permissions (w : Workload) : list string :=
  when (bool_decide (w_network w = "host") && negb (bool_decide ("network.host" ∈ w_permissions w))) "network.host"
  ++ when (uses_rdma w && negb (bool_decide ("devices.rdma" ∈ w_permissions w))) "devices.rdma"
  ++ when ((GiB <=? w_shm w) && negb (bool_decide ("memory.shm-large" ∈ w_permissions w))) "memory.shm-large"
  ++ when (bool_decide (is_Some (w_host_preparation w)) && negb (bool_decide ("host.memory-tuning" ∈ w_permissions w))) "host.memory-tuning".

Definition check_workload (i : nat) (w : Workload) : list Finding :=
  let p := index_path "workloads" i in
  loop po_container (check_port p) 0 [] (w_ports w)
  ++ ((λ _, mkFinding "recipe.permission-missing" (p +:+ ".permissions")) <$> missing_permissions w).

(** The predicates of the workloads from index [i] on; [last] is the index of the last workload *)
Fixpoint check_predicates (last i : nat) (seen : list (option Match)) (ws : list Workload) : list Finding :=
  match ws with
  | [] => []
  | w :: ws =>
      let p := index_path "workloads" i +:+ ".match" in
      let dup := bool_decide (w_match w ∈ seen) in
      match w_match w with
      | None =>
          if negb (i =? last)%nat
          then mkFinding "recipe.variant-ambiguous" p :: check_predicates last (S i) seen ws
          else when dup (mkFinding "recipe.variant-ambiguous" p) ++ check_predicates last (S i) (None :: seen) ws
      | Some mt => when dup (mkFinding "recipe.variant-ambiguous" p) ++ check_predicates last (S i) (Some mt :: seen) ws
      end
  end.

Definition check_ranks (m : Manifest) : list Finding :=
  when ((1 <? m_node_count m) && negb (existsb (λ w, negb (bool_decide (w_ranks w = []))) (m_workloads m)))
    (mkFinding "recipe.ranks-missing" "workloads").

Definition semanticDiagnostics (m : Manifest) : list Finding :=
  iloop (λ i w, check_image (w_image w) (index_path "workloads" i)) 0 (m_workloads m)
  ++ match m_prepare m with Some x => check_image (x_image x) "prepare" | None => [] end
  ++ match m_verify m with Some x => check_image (x_image x) "verify" | None => [] end
  ++ loop ar_mount check_artifact 0 [] (m_artifacts m)
  ++ loop id check_asset 0 [] (m_assets m)
  ++ loop p_name check_parameter 0 [] (m_parameters m)
  ++ iloop (check_workload_templates m) 0 (m_workloads m)
  ++ check_extension m "prepare" (m_prepare m)
  ++ check_extension m "verify" (m_verify m)
  ++ iloop check_workload 0 (m_workloads m)
  ++ check_predicates (length (m_workloads m) - 1) 0 [] (m_workloads m)
  ++ check_ranks m.

(** [Validate] on a document that decodes and passes the schema: the findings by path, then code *)
Definition finding_le (a b : Finding) : Prop :=
  String.ltb (fd_path a) (fd_path b) = true ∨ fd_path a = fd_path b ∧ String.le (fd_code a) (fd_code b).

#[export] Instance finding_le_dec : RelDecision finding_le.
Proof. intros a b. unfold finding_le. apply _. Defined.

Definition Validate_manifest (m : Manifest) : list Finding := merge_sort finding_le (semanticDiagnostics m).
End rules.

(** ** Launchable recipes *)

(** A pinned source *)
Definition pinned (src : ArtSource) : Prop :=
  (src_type src = "huggingface" → revision40 (src_revision src) = true) ∧ (src_type src = "file" → src_digest src ≠ "").

Definition variants_ok (a : Artifact) : Prop :=
  match ar_variants a with
  | [] => ∀ src, ar_source a = Some src → pinned src
  | vs => NoDup (av_name <$> vs) ∧ (∀ v, v ∈ vs → pinned (av_source v)) ∧ ar_default a ≠ "" ∧ ar_default a ∈ av_name <$> vs
  end.

Definition artifact_ok (a : Artifact) : Prop :=
  traversal (ar_mount a) = false ∧ sensitiveMount (ar_mount a) = false ∧ variants_ok a.

Definition asset_ok (a : string) : Prop := has_prefix "/" a = false ∧ traversal a = false.

(** Every variable of the texts is declared *)
Definition templates_ok (m : Manifest) (w : option Workload) (vals : list string) : Prop :=
  ∀ s tv, s ∈ vals → tv ∈ TemplateVars [s] → checkTemplateVar tv m w = Ok tt.

Definition image_ok (img : Image) : Prop := latestTag (im_reference img) = false.

Definition extension_ok (m : Manifest) (x : Extension) : Prop :=
  image_ok (x_image x) ∧ templates_ok m None (x_args x ++ (x_env x).*2).

Definition permissions_ok (w : Workload) : Prop :=
  (w_network w = "host" → "network.host" ∈ w_permissions w) ∧
  (uses_rdma w = true → "devices.rdma" ∈ w_permissions w) ∧
  (GiB ≤ w_shm w → "memory.shm-large" ∈ w_permissions w) ∧
  (is_Some (w_host_preparation w) → "host.memory-tuning" ∈ w_permissions w).

(** Only the last workload has no predicate, and no two have the same *)
Definition predicates_ok (ws : list Workload) : Prop :=
  NoDup (w_match <$> ws) ∧ ∀ i w, ws !! i = Some w → w_match w = None → S i = length ws.

Definition argv_ok (p : RecipeParameter) : Prop :=
  (p_format p = "" ∨ p_format p = "argv" ∧ p_type p = "string") ∧
  (p_forbidden_args p = [] ∨ p_format p = "argv") ∧ CheckForbiddenArgs [] (p_forbidden_args p) false = Ok tt ∧
  (p_argv_policy p = "" ∨ p_argv_policy p = "docker" ∧ p_format p = "argv") ∧
  (p_forbidden_env p = [] ∨ p_argv_policy p = "docker") ∧ CheckDockerArgs [] (p_forbidden_env p) = Ok tt.

(** What a source edit writes *)
Definition edit_ok (m : Manifest) (w : Workload) (e : Edit) : Prop :=
  if bool_decide (e_template e = "") then
    e_variable e ≠ "" ∨ e_command e ≠ "" ∨
    ∃ p, ParameterByName m (e_parameter e) = Some p ∧ incompatible_format e p = false
  else templates_ok m (Some w) [e_template e].

Section launchable.
Context (format_float : float → string) (format_composite : json → string)
        (parse_float : string → option float) (json_array : string → option (list json))
        (url_parse : string → option (string * string)).

Definition parameter_ok (p : RecipeParameter) : Prop :=
  argv_ok p ∧ (p_default p ≠ ANil → checkParamValue format_float format_composite parse_float json_array p (p_default p) = false).

Definition upstream_ok (m : Manifest) (w : Workload) (u : UpstreamExecution) : Prop :=
  templates_ok m (Some w) ((w_env w).*2 ++ up_start u ++ up_stop u ++ up_containers u ++ up_auxiliary u
    ++ mjoin (up_containers_by_rank u).*2 ++ mjoin (up_install u) ++ mjoin (mjoin (up_install_by_rank u).*2)) ∧
  Validate (up_configuration u) = Ok tt ∧
  (∀ f e, f ∈ up_configuration u → e ∈ f_edits f → edit_ok m w e) ∧
  (∀ rank, rank ∈ (up_containers_by_rank u).*1 ∨ rank ∈ (up_install_by_rank u).*1 → upstreamRankSelected m w rank = true) ∧
  (∀ rank, rank ∈ w_ranks w → 0 ≤ rank < m_node_count m) ∧
  (∀ rank, up_coordinator u = Some rank → rank = 0 ∧ upstreamRankSelected m w 0 = true) ∧
  ∃ s, m_source m = Some s ∧ revision40 (so_revision s) = true ∧ source_url_ok url_parse (so_url s) = true.

Definition workload_ok (m : Manifest) (w : Workload) : Prop :=
  image_ok (w_image w) ∧ NoDup (po_container <$> w_ports w) ∧ permissions_ok w ∧
  match w_upstream w with
  | None => templates_ok m (Some w) (w_args w ++ (w_env w).*2)
  | Some u => upstream_ok m w u
  end.

Record launchable (m : Manifest) : Prop := {
  l_mounts : NoDup (ar_mount <$> m_artifacts m);
  l_artifacts a : a ∈ m_artifacts m → artifact_ok a;
  l_assets : NoDup (m_assets m);
  l_asset a : a ∈ m_assets m → asset_ok a;
  l_names : NoDup (p_name <$> m_parameters m);
  l_parameters p : p ∈ m_parameters m → parameter_ok p;
  l_workloads w : w ∈ m_workloads m → workload_ok m w;
  l_prepare x : m_prepare m = Some x → extension_ok m x;
  l_verify x : m_verify m = Some x → extension_ok m x;
  l_predicates : predicates_ok (m_workloads m);
  l_ranks : 1 < m_node_count m → ∃ w, w ∈ m_workloads m ∧ w_ranks w ≠ [];
}.
End launchable.

(** ** When the rules are silent *)

Lemma when_nil {A} b (x : A) : when b x = [] ↔ b = false.
Proof. by destruct b. Qed.

Lemma app_nil_iff {A} (xs ys : list A) : xs ++ ys = [] ↔ xs = [] ∧ ys = [].
Proof. split; [apply app_eq_nil|by intros [-> ->]]. Qed.

Lemma bind_nil {A B} (f : A → list B) xs : xs ≫= f = [] ↔ ∀ x, x ∈ xs → f x = [].
Proof.
  induction xs as [|x xs IH]; simpl; [set_solver|]. rewrite app_nil_iff, IH. set_solver.
Qed.

Lemma fmap_nil {A B} (f : A → B) xs : f <$> xs = [] ↔ xs = [].
Proof. by destruct xs. Qed.

Lemma is_ok_unit {E} (r : result E unit) : is_ok r = true ↔ r = Ok tt.
Proof. by destruct r as [[]|]. Qed.

Create HintDb findings.
#[export] Hint Rewrite @when_nil @app_nil_iff @bind_nil @fmap_nil @is_ok_unit : findings.
#[export] Hint Rewrite andb_false_iff orb_false_iff negb_false_iff bool_decide_eq_true bool_decide_eq_false : findings.

(** Reduce a list of findings being empty to the conditions of its rules. *)
Ltac silent := autorewrite with findings.

Lemma iloop_nil {A} (body : nat → A → list Finding) (P : A → Prop) i xs :
  (∀ j x, body j x = [] ↔ P x) → iloop body i xs = [] ↔ ∀ x, x ∈ xs → P x.
Proof.
  intros Hb. revert i. induction xs as [|x xs IH]; intros i; simpl; [set_solver|].
  rewrite app_nil_iff, Hb, IH. set_solver.
Qed.

Lemma loop_nil {A K} `{EqDecision K} (key : A → K) body (P : A → Prop) i seen xs :
  (∀ j x, body j false x = [] ↔ P x) → (∀ j x, body j true x ≠ []) →
  loop key body i seen xs = [] ↔ NoDup (key <$> xs) ∧ ∀ x, x ∈ xs → key x ∉ seen ∧ P x.
Proof.
  intros Hf Ht. revert i seen. induction xs as [|x xs IH]; intros i seen; simpl; [split; [split; [constructor|set_solver]|done]|].
  rewrite app_nil_iff, IH, NoDup_cons, list_elem_of_fmap. case_bool_decide as E.
  - split; [by intros [?%Ht _]|]. intros [_ H]. destruct (H x ltac:(set_solver)). done.
  - rewrite Hf. split.
    + intros (HP & Hnd & H). split_and!; [|done|].
      * intros (y & Ey & Hy). destruct (H y Hy) as [Hn _]. set_solver.
      * intros y [->|Hy]%elem_of_cons; [done|]. destruct (H y Hy). set_solver.
    + intros ((Hn & Hnd) & H). split_and!; [by apply H; set_solver|done|]. intros y Hy.
      destruct (H y ltac:(set_solver)) as [Hs HPy]. split; [|done]. apply not_elem_of_cons. split; [|done].
      intros Ey. apply Hn. by exists y.
Qed.

Lemma loop_nil_all {A K} `{EqDecision K} (key : A → K) body (P : A → Prop) xs :
  (∀ j x, body j false x = [] ↔ P x) → (∀ j x, body j true x ≠ []) →
  loop key body 0 [] xs = [] ↔ NoDup (key <$> xs) ∧ ∀ x, x ∈ xs → P x.
Proof. intros Hf Ht. rewrite (loop_nil key body P) by done. set_solver. Qed.

Lemma check_image_nil img path : check_image img path = [] ↔ image_ok img.
Proof. unfold check_image, image_ok. by silent. Qed.

Lemma check_source_nil src path : check_source src path = [] ↔ pinned src.
Proof.
  unfold check_source, pinned. silent. split.
  - intros [H1 H2]. split; [by destruct H1|by destruct H2].
  - intros [H1 H2]. split.
    + destruct (decide (src_type src = "huggingface")); [right; auto|by left].
    + destruct (decide (src_type src = "file")); [right; auto|by left].
Qed.

Lemma check_variants_nil p a : check_variants p a = [] ↔ variants_ok a.
Proof.
  unfold check_variants, variants_ok. destruct (ar_variants a) as [|v vs].
  - destruct (ar_source a) as [src|]; [rewrite check_source_nil|]; naive_solver.
  - rewrite !app_nil_iff, (loop_nil_all av_name _ (λ v, pinned (av_source v))).
    + silent. tauto.
    + intros j x. unfold check_variant. simpl. by rewrite check_source_nil.
    + intros j x. done.
Qed.

Lemma check_artifacts_nil m :
  loop ar_mount check_artifact 0 [] (m_artifacts m) = [] ↔
  NoDup (ar_mount <$> m_artifacts m) ∧ ∀ a, a ∈ m_artifacts m → artifact_ok a.
Proof.
  apply loop_nil_all.
  - intros j a. unfold check_artifact, artifact_ok. silent. rewrite check_variants_nil. tauto.
  - intros j a. unfold check_artifact. silent. intros (_ & _ & H & _). done.
Qed.

Lemma check_assets_nil m :
  loop id check_asset 0 [] (m_assets m) = [] ↔ NoDup (m_assets m) ∧ ∀ a, a ∈ m_assets m → asset_ok a.
Proof.
  rewrite (loop_nil_all id check_asset asset_ok); [by rewrite list_fmap_id|..].
  - intros j a. unfold check_asset, asset_ok. silent. tauto.
  - intros j a. unfold check_asset. silent. intros [_ H]. done.
Qed.

Lemma check_template_nil m w path s :
  check_template m w path s = [] ↔ ∀ tv, tv ∈ TemplateVars [s] → checkTemplateVar tv m w = Ok tt.
Proof. unfold check_template. silent. setoid_rewrite when_nil. setoid_rewrite negb_false_iff. by setoid_rewrite is_ok_unit. Qed.

Lemma checkTempl_nil m vals path env w : checkTempl m vals path env w = [] ↔ templates_ok m w (vals ++ env.*2).
Proof.
  unfold checkTempl, templates_ok. silent. setoid_rewrite check_template_nil. split.
  - intros [H1 H2] s tv [Hs|Hs]%elem_of_app Ht; [by apply (H1 s)|].
    apply list_elem_of_fmap in Hs as (kv & -> & Hkv). by apply (H2 kv).
  - intros H. split; [intros s Hs tv Ht; apply (H s); [set_solver|done]|].
    intros kv Hkv tv Ht. apply (H (snd kv)); [|done]. apply elem_of_app. right. by apply list_elem_of_fmap_2.
Qed.

Lemma templates_ok_app m w xs ys : templates_ok m w (xs ++ ys) ↔ templates_ok m w xs ∧ templates_ok m w ys.
Proof. unfold templates_ok. set_solver. Qed.

Lemma templates_ok_nil m w : templates_ok m w [].
Proof. unfold templates_ok. set_solver. Qed.

Lemma templates_ok_join m w xss : templates_ok m w (mjoin xss) ↔ ∀ xs, xs ∈ xss → templates_ok m w xs.
Proof.
  unfold templates_ok. split.
  - intros H xs Hxs s tv Hs. apply H, list_elem_of_join. eauto.
  - intros H s tv (xs & Hs & Hxs)%list_elem_of_join. by apply (H xs).
Qed.

Lemma check_parameters_nil ff fc pf ja m :
  loop p_name (check_parameter ff fc pf ja) 0 [] (m_parameters m) = [] ↔
  NoDup (p_name <$> m_parameters m) ∧ ∀ p, p ∈ m_parameters m → parameter_ok ff fc pf ja p.
Proof.
  apply loop_nil_all.
  - intros j p. unfold check_parameter, parameter_ok, argv_ok.
    set (d := match p_default p with ANil => [] | _ => _ end).
    assert (d = [] ↔ (p_default p ≠ ANil → checkParamValue ff fc pf ja p (p_default p) = false)) as Hd.
    { unfold d. destruct (p_default p); rewrite ?when_nil; naive_solver. }
    silent. rewrite Hd. tauto.
  - intros j p. unfold check_parameter. silent. intros [H _]. done.
Qed.

Lemma check_edit_nil m w path e : check_edit m w path e = [] ↔ edit_ok m w e.
Proof.
  unfold check_edit, edit_ok. destruct (bool_decide (e_template e = "")); simpl.
  2: { by rewrite checkTempl_nil. }
  destruct (decide (e_variable e = "")) as [E1|E1]; [|rewrite (bool_decide_eq_false_2 _ E1); naive_solver].
  destruct (decide (e_command e = "")) as [E2|E2]; [|rewrite (bool_decide_eq_false_2 _ E2), orb_true_r; naive_solver].
  rewrite !bool_decide_eq_true_2 by done. simpl.
  destruct (ParameterByName m (e_parameter e)) as [p|]; [rewrite when_nil; naive_solver|naive_solver].
Qed.

Lemma check_container_rank_nil m w p e :
  check_container_rank m w p e = [] ↔ templates_ok m (Some w) (snd e) ∧ upstreamRankSelected m w (fst e) = true.
Proof. unfold check_container_rank. silent. rewrite checkTempl_nil. simpl. by rewrite app_nil_r. Qed.

Lemma check_installs_nil m w path argvs :
  iloop (check_install m w path) 0 argvs = [] ↔ templates_ok m (Some w) (mjoin argvs).
Proof.
  rewrite (iloop_nil _ (λ argv, templates_ok m (Some w) argv)), templates_ok_join; [done|].
  intros j x. unfold check_install. rewrite checkTempl_nil. simpl. by rewrite app_nil_r.
Qed.

Lemma check_install_rank_nil m w p e :
  check_install_rank m w p e = [] ↔ upstreamRankSelected m w (fst e) = true ∧ templates_ok m (Some w) (mjoin (snd e)).
Proof. unfold check_install_rank. silent. by rewrite check_installs_nil. Qed.

Lemma check_upstream_source_nil up m :
  check_upstream_source up m = [] ↔
  ∃ s, m_source m = Some s ∧ revision40 (so_revision s) = true ∧ source_url_ok up (so_url s) = true.
Proof.
  unfold check_upstream_source. destruct (m_source m) as [s|]; [|naive_solver].
  destruct (revision40 (so_revision s)) eqn:E; simpl.
  - rewrite when_nil, negb_false_iff. split; [by exists s|]. by intros (? & [= <-] & _ & ?).
  - split; [done|]. intros (? & [= <-] & ? & _). congruence.
Qed.

Lemma coordinator_bad_false m w u :
  coordinator_bad m w u = false ↔ ∀ rank, up_coordinator u = Some rank → rank = 0 ∧ upstreamRankSelected m w 0 = true.
Proof.
  unfold coordinator_bad. destruct (up_coordinator u) as [rank|]; [|naive_solver].
  rewrite orb_false_iff, !negb_false_iff, Z.eqb_eq. split; [intros [-> H] ? [= <-]; done|].
  intros H. destruct (H rank eq_refl) as [-> ?]. done.
Qed.

(** The rules on the ranks of an upstream workload *)
Lemma rank_rules_nil m w path :
  (w_ranks w ≫= λ rank, when ((rank <? 0) || (m_node_count m <=? rank)) (mkFinding "recipe.upstream-rank" path)) = [] ↔
  ∀ rank, rank ∈ w_ranks w → 0 ≤ rank < m_node_count m.
Proof.
  rewrite bind_nil. split; intros H rank Hr; specialize (H rank Hr).
  - rewrite when_nil, orb_false_iff in H. lia.
  - rewrite when_nil, orb_false_iff. lia.
Qed.

Lemma elem_of_keys {A} (xs : list (Z * A)) (P : Z → Prop) : (∀ e, e ∈ xs → P (fst e)) ↔ ∀ k, k ∈ xs.*1 → P k.
Proof.
  split.
  - intros H k (e & -> & He)%list_elem_of_fmap. by apply H.
  - intros H e He. by apply H, list_elem_of_fmap_2.
Qed.

Lemma elem_of_values {A B} (xs : list (A * B)) (P : B → Prop) : (∀ e, e ∈ xs → P (snd e)) ↔ ∀ v, v ∈ xs.*2 → P v.
Proof.
  split.
  - intros H v (e & -> & He)%list_elem_of_fmap. by apply H.
  - intros H e He. by apply H, list_elem_of_fmap_2.
Qed.

Lemma check_upstream_nil up m p w u : check_upstream up m p w u = [] ↔ upstream_ok up m w u.
Proof.
  unfold check_upstream, upstream_ok.
  rewrite !app_nil_iff, !checkTempl_nil, !templates_ok_app, !check_installs_nil, rank_rules_nil,
    check_upstream_source_nil, !bind_nil, !when_nil, negb_false_iff, is_ok_unit, coordinator_bad_false. simpl.
  setoid_rewrite check_container_rank_nil. setoid_rewrite check_install_rank_nil. setoid_rewrite bind_nil.
  setoid_rewrite check_edit_nil.
  rewrite (templates_ok_join m (Some w) (up_containers_by_rank u).*2), (templates_ok_join m (Some w) (mjoin _)).
  assert (∀ (P Q : Z → Prop), (∀ rank, P rank ∨ Q rank → upstreamRankSelected m w rank = true) ↔
    (∀ rank, P rank → upstreamRankSelected m w rank = true) ∧ (∀ rank, Q rank → upstreamRankSelected m w rank = true)) as Hor by naive_solver.
  rewrite Hor, <- !(elem_of_keys _ (λ r, upstreamRankSelected m w r = true)), <- elem_of_values.
  assert ((∀ xs, xs ∈ mjoin (up_install_by_rank u).*2 → templates_ok m (Some w) xs) ↔
    ∀ e, e ∈ up_install_by_rank u → templates_ok m (Some w) (mjoin (snd e))) as Hin.
  { rewrite (elem_of_values _ (λ v, templates_ok m (Some w) (mjoin v))). setoid_rewrite templates_ok_join.
    setoid_rewrite list_elem_of_join. naive_solver. }
  rewrite Hin. clear Hor Hin. pose proof (templates_ok_nil m (Some w)). naive_solver.
Qed.

Lemma check_predicates_nil last i seen ws :
  (i + length ws = S last)%nat ∨ ws = [] →
  check_predicates last i seen ws = [] ↔
  NoDup (w_match <$> ws) ∧ (∀ w, w ∈ ws → w_match w ∉ seen) ∧
  ∀ j w, ws !! j = Some w → w_match w = None → S j = length ws.
Proof.
  revert i seen. induction ws as [|w ws IH]; intros i seen Hl; cbn [check_predicates].
  { split; [|done]. intros _. split_and!; [constructor|set_solver|done]. }
  assert (i + S (length ws) = S last)%nat as Hl' by (destruct Hl; done).
  assert ((S i + length ws = S last)%nat ∨ ws = []) as Hl1 by (left; lia).
  assert ((∀ j x, (w :: ws) !! j = Some x → w_match x = None → S j = length (w :: ws)) ↔
    (w_match w = None → ws = []) ∧ ∀ j x, ws !! j = Some x → w_match x = None → S j = length ws) as Hlast.
  { split.
    - intros H. split; [intros Hw; specialize (H 0%nat w eq_refl Hw); by destruct ws|].
      intros j x Hx Hn. specialize (H (S j) x Hx Hn). simpl in H. lia.
    - intros [H1 H2] [|j] x Hx Hn; simplify_eq/=; [by rewrite (H1 Hn)|]. f_equal. by apply (H2 j x). }
  rewrite Hlast, fmap_cons, NoDup_cons. clear Hlast.
  assert (∀ y (ys : list Workload), y ∉ w_match <$> ys ↔ ∀ x, x ∈ ys → w_match x ≠ y) as Hnin.
  { intros y ys. rewrite list_elem_of_fmap. naive_solver. }
  assert (∀ k, check_predicates last (S i) (k :: seen) ws = [] ∧ k ∉ seen ↔
    (k ∉ w_match <$> ws ∧ NoDup (w_match <$> ws)) ∧ (∀ x, x ∈ ws → w_match x ∉ seen) ∧ k ∉ seen ∧
    ∀ j x, ws !! j = Some x → w_match x = None → S j = length ws) as Hk.
  { intros k. rewrite IH, Hnin by done. setoid_rewrite not_elem_of_cons. split.
    - intros [(H1 & H2 & H3) H4]. split_and!; try done; intros x Hx; by apply H2.
    - intros ((H1 & H2) & H3 & H4 & H5). split; [|done]. split_and!; try done. intros x Hx. by split; [apply H1|apply H3]. }
  assert ((∀ x, x ∈ w :: ws → w_match x ∉ seen) ↔ w_match w ∉ seen ∧ ∀ x, x ∈ ws → w_match x ∉ seen) as Hall.
  { split; [intros H; split; [apply H, list_elem_of_here|intros x Hx; apply H; by right]|].
    intros [H1 H2] x [->|Hx]%elem_of_cons; auto. }
  rewrite Hall. clear Hall Hnin IH. destruct (w_match w) as [mt|] eqn:Ew.
  - rewrite app_nil_iff, when_nil, bool_decide_eq_false, (and_comm (_ ∉ _)), Hk.
    assert (Some mt = None → ws = []) by done. tauto.
  - destruct (Nat.eqb_spec i last) as [->|Hne]; simpl.
    + assert (ws = []) as -> by (destruct ws; [done|simpl in Hl'; lia]).
      rewrite app_nil_iff, when_nil, bool_decide_eq_false, (and_comm (_ ∉ _)), Hk. tauto.
    + split; [done|]. intros (_ & _ & H & _). specialize (H eq_refl). subst ws. simpl in *. lia.
Qed.

Lemma missing_permissions_nil w : missing_permissions w = [] ↔ permissions_ok w.
Proof.
  unfold missing_permissions, permissions_ok. silent. rewrite Z.leb_gt, ?bool_decide_eq_false.
  destruct (decide (w_network w = "host")), (decide (GiB ≤ w_shm w)), (uses_rdma w), (decide (is_Some (w_host_preparation w))); naive_solver lia.
Qed.

Lemma check_workload_nil i w : check_workload i w = [] ↔ NoDup (po_container <$> w_ports w) ∧ permissions_ok w.
Proof.
  unfold check_workload. rewrite app_nil_iff, fmap_nil, missing_permissions_nil, (loop_nil_all po_container _ (λ _, True)).
  - naive_solver.
  - done.
  - done.
Qed.

Lemma check_extensions_nil m name x :
  match x with Some x => check_image (x_image x) name | None => [] end = [] ∧ check_extension m name x = [] ↔
  ∀ y, x = Some y → extension_ok m y.
Proof.
  unfold check_extension, extension_ok. destruct x as [x|]; [|naive_solver].
  rewrite check_image_nil, checkTempl_nil. naive_solver.
Qed.

Lemma check_ranks_nil m : check_ranks m = [] ↔ (1 < m_node_count m → ∃ w, w ∈ m_workloads m ∧ w_ranks w ≠ []).
Proof.
  unfold check_ranks. rewrite when_nil, andb_false_iff, negb_false_iff, existsb_exists, Z.ltb_ge.
  setoid_rewrite <- list_elem_of_In. setoid_rewrite negb_true_iff. setoid_rewrite bool_decide_eq_false.
  split; [intros [|]; [lia|done]|]. intros H. destruct (decide (1 < m_node_count m)); [right; auto|left; lia].
Qed.

Section equivalence.
Context (ff : float → string) (fc : json → string) (pf : string → option float)
        (ja : string → option (list json)) (up : string → option (string * string)).

Lemma workloads_nil m :
  (∀ w, w ∈ m_workloads m → image_ok (w_image w)) ∧
  iloop (check_workload_templates up m) 0 (m_workloads m) = [] ∧ iloop check_workload 0 (m_workloads m) = [] ↔
  ∀ w, w ∈ m_workloads m → workload_ok up m w.
Proof.
  rewrite (iloop_nil _ (λ w, match w_upstream w with
    | None => templates_ok m (Some w) (w_args w ++ (w_env w).*2) | Some u => upstream_ok up m w u end)).
  2: { intros j w. unfold check_workload_templates. destruct (w_upstream w); [apply check_upstream_nil|apply checkTempl_nil]. }
  rewrite (iloop_nil _ (λ w, NoDup (po_container <$> w_ports w) ∧ permissions_ok w)) by apply check_workload_nil.
  unfold workload_ok. split.
  - intros (H1 & H2 & H3) w Hw. destruct (H3 w Hw). split_and!; auto. by apply H2.
  - intros H. split_and!; intros w Hw; destruct (H w Hw) as (? & ? & ? & ?); auto.
Qed.

Lemma semanticDiagnostics_nil m : semanticDiagnostics ff fc pf ja up m = [] ↔ launchable ff fc pf ja up m.
Proof.
  unfold semanticDiagnostics. rewrite !app_nil_iff, check_artifacts_nil, check_assets_nil, check_parameters_nil, check_ranks_nil.
  rewrite (iloop_nil _ (λ w, image_ok (w_image w))) by (intros; apply check_image_nil).
  pose proof (check_extensions_nil m "prepare" (m_prepare m)) as Hp.
  pose proof (check_extensions_nil m "verify" (m_verify m)) as Hv. pose proof (workloads_nil m) as Hw.
  assert (check_predicates (length (m_workloads m) - 1) 0 [] (m_workloads m) = [] ↔ predicates_ok (m_workloads m)) as Hc.
  { rewrite check_predicates_nil by (destruct (m_workloads m); [by right|left; simpl; lia]). unfold predicates_ok. set_solver. }
  split.
  - intros (H1 & H2 & H3 & [H4 H4'] & [H5 H5'] & [H6 H6'] & H7 & H8 & H9 & H10 & H11 & H12).
    split; try done; [by apply Hw|by apply Hp|by apply Hv|by apply Hc].
  - intros [M1 M2 A1 A2 P1 P2 W Xp Xv C R]. destruct (proj2 Hp Xp), (proj2 Hv Xv), (proj2 Hw W) as (? & ? & ?).
    split_and!; try done. by apply Hc.
Qed.
End equivalence.

Section theorems.
Context (ff : float → string) (fc : json → string) (pf : string → option float)
        (ja : string → option (list json)) (up : string → option (string * string)).

Notation launchable := (launchable ff fc pf ja up).
Notation check := (checkParamValue ff fc pf ja).
Notation effective := (EffectiveSettings ff fc pf ja).


(** Every source a launchable recipe can select is pinned, and its default selection never fails:
    with no variant named, an artifact that has a source or variants resolves. *)
Theorem launchable_sources m a :
  launchable m → a ∈ m_artifacts m →
  (∀ variant src, EffectiveSource a variant = Ok src → pinned src) ∧
  (is_Some (ar_source a) ∨ ar_variants a ≠ [] → ∃ src, EffectiveSource a "" = Ok src).
Proof.
  intros Hm Ha. destruct (l_artifacts _ _ _ _ _ _ Hm a Ha) as (_ & _ & Hv). unfold variants_ok in Hv. unfold EffectiveSource.
  destruct (ar_variants a) as [|v vs] eqn:Ev.
  - split.
    + intros variant src. destruct (ar_source a) eqn:Es; [|done]. intros [= <-]. by apply Hv.
    + intros [[src ->]|?]; [by exists src|done].
  - destruct Hv as (_ & Hp & Hd & Hin). split.
    + intros variant src. case_bool_decide as E1; case_bool_decide as E2; try done;
        destruct (find _ _) as [x|] eqn:Ef; try done; intros [= <-]; apply Hp, list_elem_of_In; by destruct (find_some _ _ Ef).
    + intros _. rewrite (bool_decide_eq_true_2 ("" = "")) by done. rewrite (bool_decide_eq_false_2 (ar_default a = "")) by done.
      destruct (find _ _) as [x|] eqn:Ef; [by exists (av_source x)|].
      apply list_elem_of_fmap in Hin as (x & Ex & Hx%list_elem_of_In). pose proof (find_none _ _ Ef x Hx) as H.
      apply bool_decide_eq_false in H. congruence.
Qed.

Lemma ParameterByName_unique m p : launchable m → p ∈ m_parameters m → ParameterByName m (p_name p) = Some p.
Proof.
  intros Hm Hp. destruct (ParameterByName_declared m p Hp) as [q Hq]. rewrite Hq. f_equal.
  apply ParameterByName_spec in Hq as [Hq En].
  apply list_elem_of_lookup in Hq as [i Hi]. apply list_elem_of_lookup in Hp as [j Hj].
  pose proof (proj1 (NoDup_alt _) (l_names _ _ _ _ _ _ Hm) i j (p_name p)) as H.
  rewrite !list_lookup_fmap, Hi, Hj in H. simpl in H. rewrite En in H. specialize (H eq_refl eq_refl). congruence.
Qed.


(** ** Rendering *)

(** The texts of a workload that are rendered *)
Definition workload_texts (w : Workload) : list string :=
  match w_upstream w with
  | None => w_args w ++ (w_env w).*2
  | Some u => (w_env w).*2 ++ up_start u ++ up_stop u ++ up_containers u ++ up_auxiliary u
      ++ mjoin (up_containers_by_rank u).*2 ++ mjoin (up_install u) ++ mjoin (mjoin (up_install_by_rank u).*2)
  end.

(** A reviewed placement of [w]: paths for the artifacts, accelerators, and every declared rank with its
    addresses, the fabric's too where the recipe needs one *)
Record placed (m : Manifest) (w : Workload) (c : RenderContext) : Prop := {
  pl_accelerators : rc_accelerators c ≠ "";
  pl_artifacts name : name = "package" ∨ is_Some (ArtifactByName m name) → is_Some (rc_artifacts c !! name);
  pl_nodes rank : 0 ≤ rank → rank_undeclared m (Some w) rank = false →
    ∃ n, rc_nodes c !! rank = Some n ∧ rn_id n ≠ "" ∧ rn_address n ≠ "" ∧
      (HasFabricRequirement m = true → rn_fabric_addr n ≠ "" ∧ rn_interface n ≠ "" ∧ rn_rdma n ≠ "" ∧ rn_gid n ≠ "");
}.

Lemma dec_go_nonneg v s : 0 ≤ v → sforallb digit s = true → 0 ≤ dec_go v s.
Proof.
  revert v. induction s as [|a s IH]; intros v Hv; simpl; [done|]. intros [Ha Hs]%andb_prop.
  apply IH; [|done]. unfold digit, byte_in in Ha. apply andb_prop in Ha as [Ha _]. apply Nat.leb_le in Ha. lia.
Qed.

Lemma clusterTemplate_field tv rank field : clusterTemplate tv = Some (rank, field) → 0 ≤ rank ∧ field ∈ cluster_fields.
Proof.
  unfold clusterTemplate. destruct (_ && _); [|done]. destruct (cut _ _) as [[r f] []]; [|done].
  destruct (rank_text r) as [n|] eqn:Er; [|done]. case_bool_decide; [|done]. intros [= <- <-]. split; [|done].
  unfold rank_text in Er. destruct (_ && bool_decide _) eqn:E in Er; [|done]. injection Er as <-.
  apply andb_prop in E as [E _]. apply andb_prop in E as [E _]. apply andb_prop in E as [_ E].
  by apply dec_go_nonneg.
Qed.

(** A declared field of a placed node has a value *)
Lemma node_field_placed m w c rank field :
  placed m w c → 0 ≤ rank → rank_undeclared m (Some w) rank = false → field ∈ cluster_fields →
  has_prefix "fabric." field && negb (HasFabricRequirement m) = false →
  ∃ n, rc_nodes c !! rank = Some n ∧ node_field n field ≠ "".
Proof.
  intros Hp H0 Hr Hf Hfab. destruct (pl_nodes _ _ _ Hp rank H0 Hr) as (n & Hn & Hid & Haddr & Hfn). exists n. split; [done|].
  unfold cluster_fields in Hf. repeat (apply elem_of_cons in Hf as [->|Hf]); [..|set_solver].
  all: simpl in Hfab; try rewrite negb_false_iff in Hfab; try destruct (Hfn Hfab) as (? & ? & ? & ?); done.
Qed.

Lemma checked_resolves m w c tv :
  placed m w c → (∀ p, p ∈ m_parameters m → is_Some (rc_settings c !! p_name p)) →
  checkTemplateVar tv m (Some w) = Ok tt → is_Some (Resolve ff fc c tv).
Proof.
  intros Hp Hs. unfold checkTemplateVar, Resolve. case_bool_decide as En.
  { intros _. unfold node_templates in En. repeat (apply elem_of_cons in En as [->|En]); [..|set_solver]; simpl; try done.
    rewrite bool_decide_eq_false_2; [done|]. apply (pl_accelerators _ _ _ Hp). }
  case_bool_decide as Ef.
  { intros _. unfold fabric_templates in Ef. repeat (apply elem_of_cons in Ef as [->|Ef]); [..|set_solver]; done. }
  intros H. unfold node_templates, fabric_templates in *. rewrite !(bool_decide_eq_false_2 (tv = _)) by set_solver.
  destruct (clusterTemplate tv) as [[rank field]|] eqn:Ec.
  - destruct (rank_undeclared m (Some w) rank) eqn:Er; [done|].
    destruct (has_prefix "fabric." field && negb (HasFabricRequirement m)) eqn:Ep; [done|].
    destruct (clusterTemplate_field tv rank field Ec).
    destruct (node_field_placed m w c rank field) as (n & -> & Hne); [done..|].
    simpl. by rewrite bool_decide_eq_false_2.
  - destruct (artifact_name tv) as [name|].
    + apply (pl_artifacts _ _ _ Hp). case_bool_decide; [by left|right]. by destruct (ArtifactByName m name).
    + destruct (setting_name tv) as [name|]; [|done]. destruct (ParameterByName m name) as [p|] eqn:E; [|done].
      apply ParameterByName_spec in E as [Hin <-]. rewrite fmap_is_Some. by apply Hs.
Qed.

(** What [Validate] lets through can be rendered: in a reviewed placement, with the effective
    settings of the launch, every argument, environment value and upstream command of a workload of a
    launchable recipe renders, provided the optional parameters have values. *)
Theorem launchable_renders m w overrides c s :
  launchable m → w ∈ m_workloads m → effective m overrides = Ok (rc_settings c) → placed m w c →
  (∀ p, p ∈ m_parameters m → p_optional p = true → is_Some (rc_settings c !! p_name p)) →
  s ∈ workload_texts w → ∃ out, Render ff fc s c = Ok out.
Proof.
  intros Hm Hw He Hp Ho Hs.
  assert (templates_ok m (Some w) (workload_texts w)) as Ht.
  { destruct (l_workloads _ _ _ _ _ _ Hm w Hw) as (_ & _ & _ & H). unfold workload_texts.
    destruct (w_upstream w); [by destruct H|done]. }
  assert (∀ p, p ∈ m_parameters m → is_Some (rc_settings c !! p_name p)) as Hset.
  { intros p Hpin. destruct (p_optional p) eqn:E; [by apply Ho|].
    pose proof (EffectiveSettings_cases ff fc pf ja m overrides) as H. rewrite He in H. destruct H as (-> & _ & H). by apply H. }
  pose proof (render_pieces_spec ff fc c (pieces s)) as H. unfold Render.
  destruct (render_pieces ff fc c (pieces s)) as [out|e]; [by exists out|].
  destruct H as (t & Hin%elem_of_TemplateVars & Hn & _).
  destruct (checked_resolves m w c t Hp Hset (Ht s t Hs Hin)). congruence.
Qed.
End theorems.

(** ** Samples *)

Definition sample_parameter (name type : string) (d : any) : RecipeParameter :=
  mkParameter name type d "" false false [] "" [] None None None None [].

Definition sample_source : ArtSource :=
  mkArtSource "huggingface" "hf://org/m" "aaaaaaaaaaaaaaaaaaaaaaaaaaaaaaaaaaaaaaaa" "".

Definition sample_artifact : Artifact :=
  mkArtifact "model" "model" 10 None "small" [mkArtVariant "small" sample_source] "/models/m".

Definition sample_workload (mt : option Match) : Workload :=
  mkWorkload mt (mkImage "registry.local/engine" "sha256:00") ["--model"; "${artifact.model.path}"; "--port=${setting.port}"]
    [("PEER", "${cluster.node.0.address}")] [mkPort 8000 8000 ""] 0 None None "" [] "" None None None [] None.

Definition sample_manifest (ws : list Workload) : Manifest :=
  mkManifest "" None 1 None None [sample_artifact] [sample_parameter "port" "int" (AFloat (mkFloat 8000 0))] ws [] None None.

Definition sample_context : RenderContext :=
  mkRenderContext "node-1" 0 "10.0.0.1" "GPU-0" "" "" "" "" "" (list_to_map [("model", "/cache/m"); ("package", "/pkg")])
    {[ "port" := AFloat (mkFloat 8000 0) ]} {[ 0 := mkRenderNode "node-1" "10.0.0.1" "" "" "" "" ]}.

Definition no_float : float → string := λ f, Itoa (fl_mant f).
Definition no_composite : json → string := λ _, "".
Definition no_parse : string → option float := λ _, None.
Definition no_array : string → option (list json) := λ _, None.
Definition no_url : string → option (string * string) := λ _, None.

Lemma sample_launchable : launchable no_float no_composite no_parse no_array no_url (sample_manifest [sample_workload None]).
Proof. apply semanticDiagnostics_nil. vm_compute. reflexivity. Qed.

(** A predicate with no condition is met by every target, but only a missing one has to come last: a
    recipe whose first variant has an empty predicate is launchable and its second variant can never
    be selected. *)
Theorem empty_predicate_shadows :
  let m := sample_manifest [sample_workload (Some (mkMatch None 0)); sample_workload None] in
  Validate_manifest no_float no_composite no_parse no_array no_url m = [] ∧
  ∀ t, ∃ w, SelectWorkload m t = Ok (0%nat, w).
Proof. split; [vm_compute; reflexivity|]. intros t. eexists. reflexivity. Qed.

(** ** Witnesses *)

Lemma launchable_sources_witness :
  (∀ variant src, EffectiveSource sample_artifact variant = Ok src → pinned src) ∧
  (is_Some (ar_source sample_artifact) ∨ ar_variants sample_artifact ≠ [] → ∃ src, EffectiveSource sample_artifact "" = Ok src).
Proof.
  apply (launchable_sources no_float no_composite no_parse no_array no_url (sample_manifest [sample_workload None])).
  - exact sample_launchable.
  - apply list_elem_of_here.
Defined.


Lemma launchable_renders_witness :
  ∃ out, Render no_float no_composite "--port=${setting.port}" sample_context = Ok out.
Proof.
  apply (launchable_renders no_float no_composite no_parse no_array no_url (sample_manifest [sample_workload None])
    (sample_workload None) ∅ sample_context).
  - exact sample_launchable.
  - apply list_elem_of_here.
  - vm_compute. reflexivity.
  - split.
    + discriminate.
    + intros name [->|[a Ha]]; [by eexists|]. unfold ArtifactByName in Ha. apply find_some in Ha as [[<-|[]] E].
      apply bool_decide_eq_true in E. subst name. by eexists.
    + intros rank H0 Hr. assert (rank = 0) as -> by (unfold rank_undeclared in Hr; apply orb_false_iff in Hr as [Hr _]; simpl in Hr; lia).
      exists (mkRenderNode "node-1" "10.0.0.1" "" "" "" ""). split_and!; done.
  - intros p Hp Ho. apply list_elem_of_singleton in Hp. subst p. discriminate.
  - simpl. set_solver.
Defined.
