(* ===== verification/Inventory.v ===== *)
(** * Node inventories: [internal/inventory/inventory.go] and the address a node is reached at

    The report an agent sends about its node, decoded, with the accessors that fabric validation,
    planning and dispatch use, and [firstNonLoopback] of [internal/deploy/plan.go].  Fields that no
    modelled function reads are left out.  An IP address is its sixteen bytes, as [net.ParseIP] returns
    it. *)

From S2P Require Import Prelude GoStrings.
Open Scope Z_scope.

Record Accelerator := mkAccelerator {
  ac_index : Z;
  acc_vendor : string;
  acc_architecture : string;
  ac_uuid : string;
  ac_memory : Z;
  acc_features : list string;
}.

#[export] Instance Accelerator_eq_dec : EqDecision Accelerator.
Proof. solve_decision. Defined.

Record Interface := mkInterface { if_name : string; if_addresses : list string }.
Record RdmaGID := mkGID { gid_index : Z; gid_value : string }.
Record RdmaDevice := mkDevice { rd_name : string; rd_interfaces : list string; rd_ports : list (list RdmaGID) }.

Record CacheRoot := mkCacheRoot { ca_path : string; ca_backend : string; ca_writable : bool }.

Record Inventory := mkInventory {
  inv_accelerators : list Accelerator;
  inv_interfaces : list Interface;
  inv_rdma : list RdmaDevice;
  inv_cache_roots : list CacheRoot;
  inv_advertise : string;
  inv_protocol : list string;
  inv_username : string;
  inv_home : string;
  inv_workspace : string;
}.

(** The inventory column of a node: absent, empty or null, not decodable, or a report *)
Inductive inventory_column := NoInventory | Unreadable | Reported (inv : Inventory).

Definition HasInterface (inv : Inventory) (name : string) : bool :=
  existsb (λ i, bool_decide (if_name i = name)) (inv_interfaces inv).

Fixpoint first_addresses (ifs : list Interface) (name : string) : list string :=
  match ifs with
  | [] => []
  | i :: ifs => if bool_decide (if_name i = name) then if_addresses i else first_addresses ifs name
  end.

Definition InterfaceAddresses (inv : Inventory) (name : string) : list string :=
  first_addresses (inv_interfaces inv) name.

Definition RDMADevice (inv : Inventory) (name : string) : option RdmaDevice :=
  find (λ d, bool_decide (rd_name d = name)) (inv_rdma inv).

(** ** [net.ParseIP] *)

Definition byte_val (c : ascii) : Z := Z.of_nat (nat_of_ascii c).

Definition dec_digit (c : ascii) : option Z :=
  let n := byte_val c in if (48 <=? n) && (n <=? 57) then Some (n - 48) else None.

Definition hex_digit (c : ascii) : option Z :=
  let n := byte_val c in
  if (48 <=? n) && (n <=? 57) then Some (n - 48)
  else if (97 <=? n) && (n <=? 102) then Some (n - 87)
  else if (65 <=? n) && (n <=? 70) then Some (n - 55)
  else None.

(** One field of a dotted address: digits, no leading zero, at most 255 *)
Fixpoint octet_go (acc : Z) (len : nat) (s : string) : option Z :=
  match s with
  | "" => if (len =? 0)%nat then None else Some acc
  | String c s =>
      match dec_digit c with
      | None => None
      | Some d =>
          if (len =? 1)%nat && (acc =? 0) then None
          else if 255 <? acc * 10 + d then None
          else octet_go (acc * 10 + d) (S len) s
      end
  end.

Definition octet (s : string) : option Z := octet_go 0 0 s.

Definition parseIPv4 (s : string) : option (list Z) :=
  match split_byte "."%char s with
  | [a; b; c; d] => mapM octet [a; b; c; d]
  | _ => None
  end.

(** The hexadecimal digits at the front: their value, their number, and what follows *)
Fixpoint hex_group (acc : Z) (len : nat) (s : string) : Z * nat * string :=
  match s with
  | String c s' => match hex_digit c with Some d => hex_group (acc * 16 + d) (S len) s' | None => (acc, len, s) end
  | "" => (acc, len, s)
  end.

(** The loop over the groups; [out] are the bytes so far and [ell] the position of the ellipsis *)
Fixpoint ipv6_groups (fuel : nat) (out : list Z) (ell : option nat) (s : string) : option (list Z * option nat) :=
  match fuel with
  | O => if bool_decide (s = "") then Some (out, ell) else None
  | S fuel =>
      let '(acc, len, rest) := hex_group 0 0 s in
      if (len =? 0)%nat || (4 <? len)%nat then None
      else match rest with
           | "" => Some (out ++ [acc / 256; acc mod 256], ell)
           | String c rest' =>
               if bool_decide (c = "."%char) then
                 if (bool_decide (ell = None) && negb (length out =? 12)%nat) || (12 <? length out)%nat then None
                 else ip ← parseIPv4 s; Some (out ++ ip, ell)
               else if negb (bool_decide (c = ":"%char)) then None
               else
                 let out := out ++ [acc / 256; acc mod 256] in
                 match rest' with
                 | "" => None
                 | String d rest'' =>
                     if bool_decide (d = ":"%char) then
                       if bool_decide (is_Some ell) then None
                       else if bool_decide (rest'' = "") then Some (out, Some (length out))
                       else ipv6_groups fuel out (Some (length out)) rest''
                     else ipv6_groups fuel out ell rest'
                 end
           end
  end.

Definition expand_ellipsis (out : list Z) (ell : option nat) : option (list Z) :=
  match ell with
  | None => if (length out =? 16)%nat then Some out else None
  | Some e => if (length out <? 16)%nat then Some (take e out ++ repeat 0 (16 - length out) ++ drop e out) else None
  end.

Definition parseIPv6 (s : string) : option (list Z) :=
  match s with
  | String ":" (String ":" "") => Some (repeat 0 16)
  | String ":" (String ":" rest) => r ← ipv6_groups 8 [] (Some O) rest; expand_ellipsis (fst r) (snd r)
  | _ => r ← ipv6_groups 8 [] None s; expand_ellipsis (fst r) (snd r)
  end.

(** Which of the two notations: the first dot or colon decides, a zone is refused *)
Fixpoint notation_of (s : string) : option ascii :=
  match s with
  | "" => None
  | String c s => if bool_decide (c = "."%char) || bool_decide (c = ":"%char) || bool_decide (c = "%"%char) then Some c else notation_of s
  end.

Definition v4_mapped : list Z := repeat 0 10 ++ [255; 255].

Definition ParseIP (s : string) : option (list Z) :=
  match notation_of s with
  | Some "."%char => (app v4_mapped) <$> parseIPv4 s
  | Some ":"%char => if contains_byte "%"%char s then None else parseIPv6 s
  | _ => None
  end.

Definition To4 (ip : list Z) : option (list Z) := if bool_decide (take 12 ip = v4_mapped) then Some (drop 12 ip) else None.

Definition IsLoopback (ip : list Z) : bool :=
  match To4 ip with
  | Some (a :: _) => a =? 127
  | _ => bool_decide (ip = repeat 0 15 ++ [1])
  end.

Definition IsUnspecified (ip : list Z) : bool :=
  bool_decide (ip = v4_mapped ++ [0; 0; 0; 0]) || bool_decide (ip = repeat 0 16).

(** ** [firstNonLoopback] *)

(** The carrier-grade range 100.64.0.0/10 *)
Definition shared_range (ip : list Z) : bool :=
  match To4 ip with
  | Some (a :: b :: _) => (a =? 100) && (64 <=? b) && (b <=? 127)
  | _ => false
  end.

Definition address_host (address : string) : string := fst (fst (cut "/"%char address)).

(** The loop over the addresses; [fallback] is the first usable one seen *)
Fixpoint discover (fallback : string) (addresses : list string) : string :=
  match addresses with
  | [] => fallback
  | address :: addresses =>
      let host := address_host address in
      match ParseIP host with
      | None => discover fallback addresses
      | Some ip =>
          if IsLoopback ip || IsUnspecified ip then discover fallback addresses
          else if shared_range ip then host
          else discover (if bool_decide (fallback = "") then host else fallback) addresses
      end
  end.

Definition firstNonLoopback (inv : option Inventory) : string :=
  match inv with
  | None => ""
  | Some inv =>
      if bool_decide (inv_advertise inv = "") then discover "" (inv_interfaces inv ≫= if_addresses)
      else inv_advertise inv
  end.

(** ** What discovery returns *)

(** An address the controller can use *)
Definition usable (host : string) : bool :=
  match ParseIP host with Some ip => negb (IsLoopback ip) && negb (IsUnspecified ip) | None => false end.

Definition shared (host : string) : bool := match ParseIP host with Some ip => shared_range ip | None => false end.

(** The reference definition: the first usable address of the shared range, else the first usable one *)
Definition discover_spec (addresses : list string) : string :=
  let hosts := filter (λ h, usable h = true) (address_host <$> addresses) in
  default "" (match filter (λ h, shared h = true) hosts with h :: _ => Some h | [] => head hosts end).

Lemma discover_fallback fb addresses :
  discover fb addresses =
  let hosts := filter (λ h, usable h = true) (address_host <$> addresses) in
  match filter (λ h, shared h = true) hosts with
  | h :: _ => h
  | [] => if bool_decide (fb = "") then default "" (head hosts) else fb
  end.
Proof.
  revert fb. induction addresses as [|a addresses IH]; intros fb; cbn [discover fmap list_fmap].
  - simpl. by case_bool_decide.
  - rewrite filter_cons. destruct (ParseIP (address_host a)) as [ip|] eqn:E.
    + destruct (IsLoopback ip || IsUnspecified ip) eqn:Eu.
      * rewrite IH. destruct (decide _) as [Hu|]; [|done]. unfold usable in Hu. rewrite E in Hu.
        apply orb_true_iff in Eu as [Eu|Eu]; rewrite Eu in Hu; [done|by rewrite andb_false_r in Hu].
      * apply orb_false_iff in Eu as [El Eu].
        rewrite decide_True by (unfold usable; rewrite E, El, Eu; done).
        cbn zeta. rewrite filter_cons. destruct (shared_range ip) eqn:Es.
        -- by rewrite decide_True by (unfold shared; rewrite E; done).
        -- rewrite decide_False by (unfold shared; rewrite E, Es; done). rewrite IH. cbn zeta.
           destruct (filter _ (filter _ _)); [|done].
           destruct (decide (fb = "")) as [->|Hfb].
           ++ rewrite (bool_decide_eq_true_2 ("" = "")) by done. simpl.
              rewrite bool_decide_eq_false_2; [done|]. intros E0. rewrite E0 in E. done.
           ++ by rewrite !(bool_decide_eq_false_2 (fb = "")) by done.
    + rewrite IH, decide_False by (unfold usable; rewrite E; done). done.
Qed.

(** Discovery implements the reference definition *)
Lemma discover_refines addresses : discover "" addresses = discover_spec addresses.
Proof.
  rewrite discover_fallback. unfold discover_spec. cbn zeta.
  rewrite (bool_decide_eq_true_2 ("" = "")) by done. by destruct (filter _ (filter _ _)).
Qed.

Example ParseIP_dotted : ParseIP "100.64.0.1" = Some (v4_mapped ++ [100; 64; 0; 1]).
Proof. reflexivity. Qed.
Example ParseIP_ellipsis : ParseIP "fe80::1" = Some ([254; 128] ++ repeat 0 13 ++ [1]).
Proof. reflexivity. Qed.
Example ParseIP_mapped : ParseIP "::ffff:127.0.0.1" = Some (v4_mapped ++ [127; 0; 0; 1]).
Proof. reflexivity. Qed.
Example ParseIP_refused : ParseIP <$> ["10.0.0.01"; "1:2"; "::1%eth0"; "1::2::3"; "256.0.0.1"; ":1"] = [None; None; None; None; None; None].
Proof. reflexivity. Qed.
