(* ===== verification/DownloadPlan.v ===== *)
(** * Download plans: [Plan] and its helpers of [internal/downloads/planning.go], [imageSpec] of [images.go], [Submit],
      [Resume] and the checks of [Acquire] of [service.go]

    A plan says for every selected device which resources a recipe needs there and how each is obtained.  Planning asks
    the devices: the [i]th inspection has its own item identifier, time and answer, so that two questions about one
    resource may be answered differently.  The artifact and placement tables are state, since inspections are recorded;
    an artifact is known by its identity, which is unique.  The registry's HTTP answers, the JSON decoders, SHA-256 in
    hex, and the secret store are arguments.  Attempts are listed newest first. *)

From S2P Require Import Prelude GoStrings Utf8 Paths ShellQuote SourceConfig Spaces Diag Downloads StoragePlan ArtifactIdentity Resources Recipe Inventory.
Open Scope Z_scope.

(** ** Data *)

Record NodeReport := mkReport {
  nr_accelerators : list Accelerator;
  nr_roots : list CacheRoot;
  nr_features : list string;
  nr_peer : string;
  nr_recipe_root : string;
  nr_image_root : string;
  nr_platform : string;
}.

Record Target := mkTarget { tg_node : string; tg_root : string }.
Record CredentialSelection := mkCredential { cs_resource : string; cs_host : string; cs_secret : string }.
Record CredentialMaterial := mkMaterial { cm_purpose : string; cm_host : string; cm_value : string }.

#[export] Instance Target_eq_dec : EqDecision Target.
Proof. solve_decision. Defined.
#[export] Instance CredentialSelection_eq_dec : EqDecision CredentialSelection.
Proof. solve_decision. Defined.

(** Credentials that are not given at all are [None] *)
Record PlanRequest := mkRequest {
  rq_recipe : string;
  rq_targets : list Target;
  rq_workload : option Z;
  rq_variants : gmap string string;
  rq_profile : string;
  rq_credentials : option (list CredentialSelection);
  rq_resume : string;
}.

Record Verification := mkVerification { vf_state : ResourceState; vf_at : option Z; vf_stale : bool }.

#[export] Instance Verification_eq_dec : EqDecision Verification.
Proof. solve_decision. Defined.

Record Resource := mkResource {
  re_spec : ResourceSpec;
  re_key : string;
  re_node : string;
  re_action : Action;
  re_source_node : string;
  re_source_path : string;
  re_total : option Z;
  re_remaining : option Z;
  re_credential : string;
  re_verification : Verification;
  re_required : bool;
}.

#[export] Instance Resource_eq_dec : EqDecision Resource.
Proof. solve_decision. Defined.

Record Plan := mkPlan {
  pl_recipe : string;
  pl_workload : Z;
  pl_variants : gmap string string;
  pl_targets : list Target;
  pl_resources : list Resource;
  pl_storage : list Storage;
  pl_diagnostics : list Diagnostic;
  pl_ready : bool;
  pl_digest : string;
}.

(** [AttemptInput] in its run *)
Record Attempt := mkAttempt {
  at_run : string;
  at_state : string;
  at_plan : Plan;
  at_credentials : option (list CredentialSelection);
}.

(** Rows of [artifacts] by identity and of [artifact_placements] by identity, node and path *)
Record ArtifactRow := mkArtifactRow { aw_kind : string; aw_revision : string; aw_digest : string }.
Record PlacementRow := mkPlacementRow { pw_state : string; pw_verified : option Z; pw_size : Z }.

(** The tables, and how many inspections were sent *)
Record Tables := mkTables {
  tb_count : nat;
  tb_artifacts : gmap string ArtifactRow;
  tb_placements : gmap (string * (string * string)) PlacementRow;
}.

Definition ProtocolFeature : string := "downloads-v1".
Definition HostPreparationImage : string := "docker.io/library/busybox@sha256:9db7b59979c38555a39def84a31fb98b5296952f9e3afd4f6f11f05b07adfab0".
Definition MaxTargets : Z := 256.
Definition MaxResources : Z := 4096.
Definition MaxCredentials : Z := 256.

Definition blocker (code : string) : Diagnostic := Error code "".

(** ** Reports *)

Definition hasFeature (v : NodeReport) : bool := bool_decide (ProtocolFeature ∈ nr_features v).

Definition accelerator_match (m : MatchAcc) (a : Accelerator) : bool :=
  (bool_decide (ma_vendor m = "") || bool_decide (ma_vendor m = acc_vendor a))
  && (bool_decide (ma_architectures m = []) || bool_decide (acc_architecture a ∈ ma_architectures m))
  && forallb (λ f, bool_decide (f ∈ acc_features a)) (ma_features m).

Definition runtimeMatch (w : Workload) (inv : NodeReport) : bool :=
  match w_match w ≫= mt_accelerator with
  | None => true
  | Some m => existsb (accelerator_match m) (nr_accelerators inv)
  end.

Definition validPeerAddress (address : string) : bool :=
  match SplitHostPort address with
  | None => false
  | Some (host, port) => negb (bool_decide (host = "")) && negb (bool_decide (port = "")) && negb (bool_decide (host = "0.0.0.0")) && negb (bool_decide (host = "::"))
  end.

(** The root of a target: the first writable one that is the requested one, if one is requested *)
Definition choose_root (t : Target) (inv : NodeReport) : option string :=
  ca_path <$> find (λ r, ca_writable r && (bool_decide (tg_root t = "") || bool_decide (tg_root t = ca_path r))) (nr_roots inv).

Definition with_destination (d : string) (s : ResourceSpec) : ResourceSpec :=
  mkSpec (rs_kind s) (rs_identity s) (rs_source s) d (rs_platform s) (rs_index s) (rs_manifest s) (rs_size s).

Definition with_size (n : option Z) (s : ResourceSpec) : ResourceSpec :=
  mkSpec (rs_kind s) (rs_identity s) (rs_source s) (rs_destination s) (rs_platform s) (rs_index s) (rs_manifest s) n.

(** The directory of a repository in a Hugging Face cache *)
Definition model_dir (reference : string) : string := "models--" +:+ replace_byte slash_char "--" reference.

(** ** Keys *)

Section plan.
Context (parse_url : string → option Url) (hash : string → string).

Definition lines (ls : list string) : string := join (String newline "") ls.

Definition resource_key (node : string) (s : ResourceSpec) : string :=
  hash (lines [kind_name (rs_kind s); rs_identity s; node; rs_destination s; rs_platform s]).

(** [Reference] and [Revision] or [Digest] are read back from the identity *)
Definition selectedArtifact (a : Artifact) (variant root : string) : option ResourceSpec :=
  match EffectiveSource a variant with
  | Err _ => None
  | Ok source =>
      match Canonical (src_type source) (src_identity source) (src_revision source) (src_digest source) with
      | Err _ => None
      | Ok identity =>
          let size := if 0 <? ar_size a then Some (ar_size a) else None in
          let spec :=
            if bool_decide (src_type source = "huggingface") then
              let '(reference, revision, _) := cut at_sign (trim_prefix "hf://" identity) in
              mkSpec ResourceArtifact identity (mkSourceSpec SourceHuggingFace reference "" revision "")
                (Join [root; "hub"; model_dir reference]) "" "" "" size
            else if bool_decide (src_type source = "oci") then
              let '(reference, digest, _) := cut at_sign identity in
              mkSpec ResourceArtifact identity (mkSourceSpec SourceOCI reference "" "" digest)
                (Join [root; "oci"; trim_prefix "sha256:" digest]) "" "" "" size
            else
              let digest := trim_prefix "file://" identity in
              let file := bool_decide (src_type source = "file") in
              let url := if file && has_prefix "https://" (src_identity source) then src_identity source else "" in
              mkSpec ResourceArtifact identity (mkSourceSpec (if file then SourceFile else SourceLocal) "" url "" digest)
                (Join [root; "files"; trim_prefix "sha256:" digest]) "" "" "" size in
          if Validate parse_url spec then Some spec else None
      end
  end.

(** ** Credentials and inspections *)

(** A secret by its identifier: its purpose, and its value where it opens *)
Context (secrets : option (string → option (string * option string))).
Context (nodes : gmap string NodeReport) (online : string → bool).
Context (new_id : nat → string) (now : nat → Z) (answer : nat → string → ResourceSpec → option CommandOutput).

(** [None] is an error, [Some None] no credential *)
Definition credential (spec : ResourceSpec) (selections : list CredentialSelection) : option (option CredentialMaterial) :=
  match find (λ c, bool_decide (cs_resource c = rs_identity spec)) selections with
  | None => Some None
  | Some c =>
      let host := resourceHost parse_url spec in
      let purpose := if bool_decide (s_type (rs_source spec) = SourceHuggingFace) then "huggingface" else "registry" in
      if negb (bool_decide (cs_host c = host)) || bool_decide (host = "") then None
      else if negb (bool_decide (s_type (rs_source spec) = SourceOCI)) && negb (bool_decide (s_type (rs_source spec) = SourceHuggingFace)) then None
      else
        store ← secrets;
        '(p, value) ← store (cs_secret c);
        if negb (bool_decide (p = purpose)) then None
        else value ← value; Some (Some (mkMaterial purpose host value))
  end.

Definition SupportsNode (node : string) : bool := match nodes !! node with Some v => hasFeature v | None => false end.

Definition asked (tb : Tables) : Tables := mkTables (S (tb_count tb)) (tb_artifacts tb) (tb_placements tb).

(** [inspect], with [command] and the part of [OnResult] that answers it *)
Definition inspect (node : string) (spec : ResourceSpec) (creds : list CredentialSelection) (tb : Tables) : option CommandOutput * Tables :=
  if negb (SupportsNode node) then (None, tb)
  else match credential spec creds with
       | None => (None, tb)
       | Some _ =>
           let i := tb_count tb in
           (out ← answer i node spec; if validateOutput (now i) out (new_id i) spec then Some out else None, asked tb)
       end.

Definition available (out : CommandOutput) : bool := bool_decide (co_state out = ResourceAvailable) && bool_decide (is_Some (co_verified out)).

(** [recordObservation]; [false] is an error *)
Definition recordObservation (node : string) (spec : ResourceSpec) (out : CommandOutput) (tb : Tables) : bool * Tables :=
  if bool_decide (rs_kind spec = ResourceImage) then (true, tb)
  else
    let row := mkPlacementRow (if available out then "valid" else "invalid") (co_verified out) (default 0 (co_size out)) in
    let placements := <[(rs_identity spec, (node, rs_destination spec)) := row]> (tb_placements tb) in
    match tb_artifacts tb !! rs_identity spec with
    | Some _ => (true, mkTables (tb_count tb) (tb_artifacts tb) placements)
    | None =>
        if negb (available out) then (true, tb)
        else match Parse (rs_identity spec) with
             | Err _ => (false, tb)
             | Ok facts =>
                 let art := mkArtifactRow (p_kind facts) (s_revision (rs_source spec)) (s_digest (rs_source spec)) in
                 (true, mkTables (tb_count tb) (<[rs_identity spec := art]> (tb_artifacts tb)) placements)
             end
    end.

(** [ListPlacements] of the artifact of an identity, by node and path *)
Definition by_place (a b : (string * string) * PlacementRow) : Prop :=
  String.ltb (fst (fst a)) (fst (fst b)) = true ∨ fst (fst a) = fst (fst b) ∧ String.le (snd (fst a)) (snd (fst b)).

#[export] Instance by_place_dec a b : Decision (by_place a b).
Proof. unfold by_place. apply _. Defined.

Definition placements_of (identity : string) (tb : Tables) : list ((string * string) * PlacementRow) :=
  match tb_artifacts tb !! identity with
  | None => []
  | Some _ => merge_sort by_place (omap (λ e, if bool_decide (fst (fst e) = identity) then Some (snd (fst e), snd e) else None) (map_to_list (tb_placements tb)))
  end.

(** *** Where the resource may already be *)

Definition under (root p : string) : bool := negb (bool_decide (root = "")) && (bool_decide (p = root) || has_prefix (root +:+ "/") p).

Definition candidate_roots (node : string) (target : Target) : list string :=
  tg_root target :: match nodes !! node with
                    | Some v => filter (λ r, r ≠ tg_root target) (ca_path <$> nr_roots v)
                    | None => []
                    end.

Definition candidate_paths (node : string) (spec : ResourceSpec) (target : Target) (tb : Tables) : list string :=
  let roots := candidate_roots node target in
  let recorded :=
    if bool_decide (rs_kind spec = ResourceArtifact)
    then omap (λ e, let '((n, p), _) := e in
                    if bool_decide (n = node) && negb (bool_decide (p = rs_destination spec)) && existsb (λ root, under root p) roots
                    then Some p else None) (placements_of (rs_identity spec) tb)
    else [] in
  let caches :=
    if bool_decide (s_type (rs_source spec) = SourceHuggingFace)
    then filter (λ r, r ≠ "") roots ≫= λ root, [Join [root; "hub"; model_dir (s_reference (rs_source spec))]; Join [root; model_dir (s_reference (rs_source spec))]]
    else [] in
  dedup (rs_destination spec :: recorded ++ caches).

(** The loop: the answer and the destination that counts; [first] is the answer at the destination of the plan *)
Fixpoint try_paths (node : string) (spec : ResourceSpec) (creds : list CredentialSelection) (first : option (option CommandOutput))
    (paths : list string) (tb : Tables) : option CommandOutput * string * Tables :=
  match paths with
  | [] => (mjoin first, rs_destination spec, tb)
  | p :: paths =>
      let '(out, tb) := inspect node (with_destination p spec) creds tb in
      let first := match first with None => Some out | _ => first end in
      match out with
      | None => try_paths node spec creds first paths tb
      | Some o =>
          if available o then (Some o, p, tb)
          else try_paths node spec creds first paths (snd (recordObservation node (with_destination p spec) o tb))
      end
  end.

Definition inspectCandidates (node : string) (spec : ResourceSpec) (target : Target) (creds : list CredentialSelection) (tb : Tables)
    : option CommandOutput * string * Tables :=
  try_paths node spec creds None (candidate_paths node spec target tb) tb.

Definition unverified : Verification := mkVerification ResourceUnknown None true.

Definition storedObservation (node : string) (spec : ResourceSpec) (tb : Tables) : Verification :=
  match tb_artifacts tb !! rs_identity spec, tb_placements tb !! (rs_identity spec, (node, rs_destination spec)) with
  | Some _, Some row =>
      mkVerification (if bool_decide (pw_state row = "valid") then ResourceAvailable
                      else if bool_decide (pw_state row = "invalid") then ResourceInvalid else ResourcePartial) (pw_verified row) true
  | _, _ => unverified
  end.

(** *** Peers *)

(** The source of a copy and, after an inspection, the size of its tree *)
Record Peer := mkPeer { pe_node : string; pe_path : string; pe_size : option Z }.

Definition peer_reachable (node peer : string) (row : PlacementRow) : bool :=
  negb (bool_decide (peer = node)) && bool_decide (pw_state row = "valid") && online peer
  && match nodes !! peer with Some report => hasFeature report && validPeerAddress (nr_peer report) | None => false end.

Definition peer_ready (out : CommandOutput) : option Z :=
  if available out && negb (bool_decide (co_tree out = "")) then co_tree_size out else None.

Fixpoint select_peer (node : string) (spec : ResourceSpec) (creds : list CredentialSelection) (refresh : bool)
    (rows : list ((string * string) * PlacementRow)) (tb : Tables) : option Peer * Tables :=
  match rows with
  | [] => (None, tb)
  | ((peer, p), row) :: rows =>
      if negb (peer_reachable node peer row) then select_peer node spec creds refresh rows tb
      else if negb refresh then (Some (mkPeer peer p None), tb)
      else
        let '(out, tb) := inspect peer (with_destination p spec) creds tb in
        match out ≫= peer_ready with
        | Some size => (Some (mkPeer peer p (Some size)), tb)
        | None => select_peer node spec creds refresh rows tb
        end
  end.

Definition selectPeer (node : string) (spec : ResourceSpec) (creds : list CredentialSelection) (refresh : bool) (tb : Tables) : option Peer * Tables :=
  select_peer node spec creds refresh (placements_of (rs_identity spec) tb) tb.

(** ** Images *)

Record Descriptor := mkDescriptor { de_digest : string; de_size : Z; de_os : string; de_architecture : string; de_variant : string }.

(** A decoded document; decoding a second one into the same variable keeps the configuration it does not mention *)
Record ImageDoc := mkImageDoc { dc_manifests : list Descriptor; dc_layers : list Descriptor; dc_config : option string }.

Context (http : string → option string → option string)
        (decode_doc : string → option ImageDoc) (decode_platform : string → option (string * string * string)).
Context (attempts : list Attempt).

Definition registryDocument (reference digest : string) (material : option CredentialMaterial) (kind : string) : option string :=
  if negb (sha256RE digest) then None
  else
    let '(host, repository, ok) := cut slash_char reference in
    if negb ok then None
    else
      let network := if bool_decide (host = "docker.io") then "registry-1.docker.io" else host in
      let refused := match material with
                     | Some m => negb (bool_decide (cm_host m = host)) || contains_any (String "013" (String "010" "")) (cm_value m)
                                 || has_prefix "{" (TrimSpace (cm_value m))
                     | None => false
                     end in
      if refused then None
      else
        raw ← http ("https://" +:+ network +:+ "/v2/" +:+ repository +:+ "/" +:+ kind +:+ "/" +:+ digest) (cm_value <$> material);
        if 4 * 2 ^ 20 <? bytes_of raw then None
        else if bool_decide ("sha256:" +:+ hash raw = digest) then Some raw else None.

(** The manifest of the platform in an index; [None] is ambiguous or missing *)
Fixpoint select_manifest (platform selected : string) (ds : list Descriptor) : option string :=
  match ds with
  | [] => if bool_decide (selected = "") then None else Some selected
  | d :: ds =>
      if bool_decide (CanonicalImagePlatform (de_os d) (de_architecture d) (de_variant d) = platform) then
        if negb (bool_decide (selected = "")) && negb (bool_decide (selected = de_digest d)) then None
        else select_manifest platform (de_digest d) ds
      else select_manifest platform selected ds
  end.

Definition layer_ok (d : Descriptor) : bool := sha256RE (de_digest d) && (0 <=? de_size d).

(** The first descriptor of every digest *)
Fixpoint first_layers (seen : list string) (ds : list Descriptor) : list Descriptor :=
  match ds with
  | [] => []
  | d :: ds => if bool_decide (de_digest d ∈ seen) then first_layers seen ds else d :: first_layers (de_digest d :: seen) ds
  end.

(** The platform manifest of an image from its registry *)
Definition resolve_manifest (spec : ResourceSpec) (material : option CredentialMaterial) : option string :=
  let reference := s_reference (rs_source spec) in
  raw ← registryDocument reference (rs_index spec) material "manifests";
  doc ← decode_doc raw;
  '(manifest, doc) ←
    (if bool_decide (dc_manifests doc = []) then Some (rs_index spec, doc)
     else
       selected ← select_manifest (rs_platform spec) "" (dc_manifests doc);
       raw ← registryDocument reference selected material "manifests";
       doc' ← decode_doc raw;
       Some (selected, mkImageDoc (dc_manifests doc') (dc_layers doc') (match dc_config doc' with Some c => Some c | None => dc_config doc end)));
  let config := default "" (dc_config doc) in
  if bool_decide (dc_layers doc = []) || negb (sha256RE config) then None
  else
    raw ← registryDocument reference config material "blobs";
    '(os, architecture, variant) ← decode_platform raw;
    if negb (bool_decide (CanonicalImagePlatform os architecture variant = rs_platform spec)) then None
    else if forallb layer_ok (first_layers [] (dc_layers doc)) then Some manifest else None.

(** The image as an earlier successful download reviewed it *)
Definition retained (spec : ResourceSpec) : option ResourceSpec :=
  head (omap (λ r, if bool_decide (rs_kind (re_spec r) = ResourceImage) && bool_decide (rs_identity (re_spec r) = rs_identity spec)
                      && bool_decide (rs_platform (re_spec r) = rs_platform spec) then Some (re_spec r) else None)
             (filter (λ a, at_state a = "succeeded") attempts ≫= λ a, pl_resources (at_plan a))).

Definition image_target (image : Image) (inv : NodeReport) : ResourceSpec :=
  let reference := normalizeImage (im_reference image) in
  mkSpec ResourceImage (reference +:+ "@" +:+ im_digest image) (mkSourceSpec SourceOCI reference "" "" (im_digest image))
    (nr_image_root inv) (nr_platform inv) (im_digest image) "" None.

(** [Validate] as the last word on a specification *)
Definition checked (spec : ResourceSpec) : option ResourceSpec := if Validate parse_url spec then Some spec else None.

Definition image_origin (spec : ResourceSpec) (creds : list CredentialSelection) : option ResourceSpec :=
  match retained spec with
  | Some prior =>
      if Validate parse_url prior && bool_decide (rs_index prior = rs_index spec) then Some (with_manifest (rs_manifest prior) spec)
      else material ← credential spec creds; m ← resolve_manifest spec material; checked (with_manifest m spec)
  | None => material ← credential spec creds; m ← resolve_manifest spec material; checked (with_manifest m spec)
  end.

Definition imageSpec (image : Image) (inv : NodeReport) (node : string) (creds : list CredentialSelection) (tb : Tables) : option ResourceSpec * Tables :=
  let spec := image_target image inv in
  if bool_decide (rs_destination spec = "") || bool_decide (rs_platform spec = "") then (None, tb)
  else if negb (ValidateInspection parse_url spec) then (None, tb)
  else
    let '(observed, tb) := if online node && hasFeature inv then inspect node spec creds tb else (None, tb) in
    match observed with
    | Some out =>
        if bool_decide (co_state out = ResourceAvailable) then (checked (with_size (co_size out) (with_manifest (co_manifest out) spec)), tb)
        else (image_origin spec creds, tb)
    | None => (image_origin spec creds, tb)
    end.

Definition needed_images (m : Manifest) (w : Workload) : list Image :=
  (match w_upstream w with None => [w_image w] | Some _ => [] end)
  ++ (match m_prepare m with Some x => [x_image x] | None => [] end)
  ++ (match m_verify m with Some x => [x_image x] | None => [] end)
  ++ (match w_host_preparation w with
      | Some _ => let '(reference, digest, _) := cut at_sign HostPreparationImage in [mkImage reference digest]
      | None => []
      end).

Definition image_key (i : Image) : string := normalizeImage (im_reference i) +:+ "@" +:+ im_digest i.

Fixpoint distinct_images (seen : list string) (imgs : list Image) : list Image :=
  match imgs with
  | [] => []
  | i :: imgs => if bool_decide (image_key i ∈ seen) then distinct_images seen imgs else i :: distinct_images (image_key i :: seen) imgs
  end.

(** ** The specifications of a target *)

Definition recipe_spec (digest : string) (inv : NodeReport) : ResourceSpec :=
  mkSpec ResourceRecipe ("recipe://" +:+ digest) (mkSourceSpec SourceRecipe "" "" "" digest)
    (Join [nr_recipe_root inv; trim_prefix "sha256:" digest]) "" "" "" None.

Definition artifact_specs (m : Manifest) (variants : gmap string string) (target : Target) : list (option ResourceSpec) :=
  if bool_decide (tg_root target = "") then []
  else (λ a, selectedArtifact a (default "" (variants !! ar_name a)) (tg_root target)) <$> m_artifacts m.

Fixpoint image_specs (inv : NodeReport) (node : string) (creds : list CredentialSelection) (imgs : list Image) (tb : Tables)
    : list (option ResourceSpec) * Tables :=
  match imgs with
  | [] => ([], tb)
  | i :: imgs =>
      let '(s, tb) := imageSpec i inv node creds tb in
      let '(ss, tb) := image_specs inv node creds imgs tb in (s :: ss, tb)
  end.

(** What blocks the plan, and what is found *)
Definition reported (code : string) (ss : list (option ResourceSpec)) : list ResourceSpec * list Diagnostic :=
  (omap id ss, omap (λ s, match s with None => Some (blocker code) | Some _ => None end) ss).

Definition target_specs (digest : string) (m : Manifest) (w : Workload) (variants : gmap string string) (creds : list CredentialSelection)
    (inv : NodeReport) (target : Target) (tb : Tables) : list ResourceSpec * list Diagnostic * Tables :=
  let '(package, pb) := if bool_decide (nr_recipe_root inv = "") then ([], [blocker "download.package_storage_unknown"]) else ([recipe_spec digest inv], []) in
  let '(artifacts, ab) := reported "download.identity_unverified" (artifact_specs m variants target) in
  let '(iss, tb) := image_specs inv (tg_node target) creds (distinct_images [] (needed_images m w)) tb in
  let '(images, ib) := reported "download.image_unavailable" iss in
  (package ++ artifacts ++ images, pb ++ ab ++ ib, tb).

(** ** One resource *)

Context (locks : gmap (string * string) DestinationLock).

(** What is known of a resource on its device *)
Record Sight := mkSight {
  si_spec : ResourceSpec;                      (* with the destination and the size that were found *)
  si_verification : Verification;
  si_remaining : option Z;
  si_storage : option (option StorageObservation);    (* of an inspection that was answered *)
  si_blocks : list Diagnostic;
}.

Definition found_spec (spec : ResourceSpec) (dest : string) (out : CommandOutput) : ResourceSpec :=
  with_destination dest (with_size (match co_size out with Some n => Some n | None => rs_size spec end) spec).

Definition look (refresh : bool) (inv : NodeReport) (target : Target) (creds : list CredentialSelection) (spec : ResourceSpec) (tb : Tables)
    : Sight * Tables :=
  let node := tg_node target in
  if refresh && online node && hasFeature inv then
    let '(out, dest, tb) := inspectCandidates node spec target creds tb in
    match out with
    | None => (mkSight spec unverified None None [blocker "download.inspect_failed"], tb)
    | Some o =>
        let spec := found_spec spec dest o in
        let '(ok, tb) := recordObservation node spec o tb in
        (mkSight spec (mkVerification (co_state o) (co_verified o) false) (co_remaining o) (Some (snd <$> co_storage o))
           (if ok then [] else [blocker "download.observation_failed"]), tb)
    end
  else (mkSight spec (storedObservation node spec tb) None None [], tb).

Definition choose_action (refresh : bool) (node : string) (creds : list CredentialSelection) (si : Sight) (tb : Tables) : Action * option Peer * Tables :=
  match vf_state (si_verification si) with
  | ResourceAvailable => (if vf_stale (si_verification si) then ActionDownloadOrigin else ActionReuse, None, tb)
  | ResourcePartial => (ActionDownloadOrigin, None, tb)
  | _ =>
      if bool_decide (rs_kind (si_spec si) = ResourceArtifact) then
        let '(peer, tb) := selectPeer node (si_spec si) creds refresh tb in
        match peer with
        | Some p => if bool_decide (pe_node p = "") then (ActionDownloadOrigin, None, tb) else (ActionPeerCopy, Some p, tb)
        | None => (ActionDownloadOrigin, None, tb)
        end
      else (ActionDownloadOrigin, None, tb)
  end.

Definition when_block (b : bool) (code : string) : list Diagnostic := if b then [blocker code] else [].

(** Nothing to fetch the resource from *)
Definition no_origin (spec : ResourceSpec) : bool :=
  bool_decide (s_type (rs_source spec) = SourceLocal) || (bool_decide (s_type (rs_source spec) = SourceFile) && bool_decide (s_url (rs_source spec) = "")).

Definition busy (node : string) (spec : ResourceSpec) : bool :=
  match locks !! (node, rs_destination spec) with Some l => negb (bool_decide (k_state l = LockQuiesced)) | None => false end.

Definition action_blocks (node : string) (spec : ResourceSpec) (a : Action) : list Diagnostic :=
  let fetch := bool_decide (a ≠ ActionReuse) && bool_decide (a ≠ ActionPeerCopy) in
  when_block (fetch && no_origin spec) "download.source_unavailable"
  ++ when_block (fetch && bool_decide (s_type (rs_source spec) = SourceOCI) && bool_decide (rs_kind spec = ResourceArtifact)) "download.artifact_layout_unsupported"
  ++ when_block (bool_decide (rs_kind spec = ResourceImage) && bool_decide (a ≠ ActionReuse) && bool_decide (rs_size spec = None)) "download.image_storage_unknown"
  ++ when_block (bool_decide (a ≠ ActionReuse) && busy node spec) "download.destination_busy".

(** The secret of the last selection for the resource *)
Definition credential_of (spec : ResourceSpec) (creds : list CredentialSelection) : string :=
  foldl (λ id c, if bool_decide (cs_resource c = rs_identity spec) then cs_secret c else id) "" creds.

Definition size_or (n size : option Z) : option Z := match n with Some _ => n | None => size end.

Definition settle (node : string) (creds : list CredentialSelection) (si : Sight) (a : Action) (peer : option Peer) : Resource :=
  let spec := si_spec si in
  let tree := peer ≫= pe_size in
  mkResource spec (resource_key node spec) node a (from_option pe_node "" peer) (from_option pe_path "" peer)
    (size_or tree (rs_size spec))
    (if bool_decide (a = ActionReuse) then Some 0 else size_or (size_or tree (si_remaining si)) (rs_size spec))
    (credential_of spec creds) (si_verification si) true.

Record Progress := mkProgress {
  pg_tables : Tables;
  pg_seen : list string;
  pg_observations : gmap string StorageObservation;
  pg_resources : list Resource;
  pg_blocks : list Diagnostic;
}.

Definition record_at (key : string) (o : option StorageObservation) (m : gmap string StorageObservation) : gmap string StorageObservation :=
  match o with Some o => <[key := o]> m | None => delete key m end.

Definition plan_spec (refresh : bool) (inv : NodeReport) (target : Target) (creds : list CredentialSelection) (pg : Progress) (spec : ResourceSpec) : Progress :=
  let node := tg_node target in
  if negb (Validate parse_url spec)
  then mkProgress (pg_tables pg) (pg_seen pg) (pg_observations pg) (pg_resources pg) (pg_blocks pg ++ [blocker "download.resource_invalid"])
  else
    let key := resource_key node spec in
    if bool_decide (key ∈ pg_seen pg) then pg
    else
      let '(si, tb) := look refresh inv target creds spec (pg_tables pg) in
      let '(a, peer, tb) := choose_action refresh node creds si tb in
      let r := settle node creds si a peer in
      let observations := match si_storage si with Some o => record_at key o (pg_observations pg) | None => pg_observations pg end in
      mkProgress tb (key :: pg_seen pg) (record_at (re_key r) (observations !! key) observations) (pg_resources pg ++ [r])
        (pg_blocks pg ++ si_blocks si ++ action_blocks node (si_spec si) a).

(** ** The plan *)

Context (recipes : gmap string Manifest) (profiles : gmap string (string * gmap string string)).
Context (encode_binding : Z * gmap string string * string * list Target * list (ResourceSpec * string * Action * string * string * string * bool) → string).

Definition plan_target (digest : string) (m : Manifest) (w : Workload) (variants : gmap string string) (refresh : bool) (creds : list CredentialSelection)
    (pg : Progress) (target : Target) : Progress :=
  match nodes !! tg_node target with
  | None => pg
  | Some inv =>
      let '(specs, blocks, tb) := target_specs digest m w variants creds inv target (pg_tables pg) in
      foldl (plan_spec refresh inv target creds)
        (mkProgress tb (pg_seen pg) (pg_observations pg) (pg_resources pg) (pg_blocks pg ++ blocks)) specs
  end.

(** [attempt] *)
Definition attempt_of (digest run : string) : option Attempt :=
  find (λ a, bool_decide (at_run a = run) && bool_decide (pl_recipe (at_plan a) = digest)) attempts.

(** The targets with their roots, and what blocks them *)
Fixpoint resolve_targets (seen : list string) (ts : list Target) : result string (list Target * list Diagnostic) :=
  match ts with
  | [] => Ok ([], [])
  | t :: ts =>
      if bool_decide (tg_node t = "") then Err "download.targets_required"
      else if bool_decide (tg_node t ∈ seen) then Err "download.targets_duplicate"
      else match nodes !! tg_node t with
           | None => Err "download.node_unknown"
           | Some inv =>
               '(ts, bs) ← resolve_targets (tg_node t :: seen) ts;
               let root := choose_root t inv in
               Ok (mkTarget (tg_node t) (default (tg_root t) root) :: ts,
                   when_block (negb (online (tg_node t))) "download.node_offline"
                   ++ when_block (negb (hasFeature inv)) "download.agent_upgrade_required"
                   ++ when_block (bool_decide (root = None)) "download.storage_unavailable" ++ bs)
           end
  end.

Definition by_node (a b : Target) : Prop := String.le (tg_node a) (tg_node b).

#[export] Instance by_node_dec a b : Decision (by_node a b).
Proof. unfold by_node. apply _. Defined.

Definition reports_of (ts : list Target) : list NodeReport := omap (λ t, nodes !! tg_node t) ts.

Definition choose_runtime (m : Manifest) (ts : list Target) (index : option Z) : result string Z :=
  match index with
  | Some i => if (i <? 0) || (Z.of_nat (length (m_workloads m)) <=? i) then Err "download.runtime_invalid" else Ok i
  | None =>
      if (length (m_workloads m) =? 1)%nat then Ok 0
      else match omap (λ iw, if forallb (runtimeMatch (snd iw)) (reports_of ts) then Some (Z.of_nat (fst iw)) else None) (imap pair (m_workloads m)) with
           | [i] => Ok i
           | _ => Err "download.runtime_selection_required"
           end
  end.

Definition variant_named (m : Manifest) (name : string) : bool :=
  existsb (λ a, bool_decide (ar_name a = name) && negb (bool_decide (ar_variants a = []))) (m_artifacts m).

Fixpoint plan_variants (requested resolved : gmap string string) (arts : list Artifact) : result string (gmap string string) :=
  match arts with
  | [] => Ok resolved
  | a :: arts =>
      if bool_decide (ar_variants a = []) then plan_variants requested resolved arts
      else
        let v := default "" (requested !! ar_name a) in
        let v := if bool_decide (v = "") then ar_default a else v in
        match EffectiveSource a v with
        | Err _ => Err "variant"
        | Ok _ => plan_variants requested (<[ar_name a := v]> resolved) arts
        end
  end.

Fixpoint credentials_ok (seen : list string) (creds : list CredentialSelection) : bool :=
  match creds with
  | [] => true
  | c :: creds =>
      negb (bool_decide (cs_resource c = "")) && negb (bool_decide (cs_host c = "")) && negb (bool_decide (cs_secret c = ""))
      && negb (bool_decide (cs_resource c ∈ seen)) && credentials_ok (cs_resource c :: seen) creds
  end.

Definition storage_view (r : Resource) : PlanResource :=
  mkPlanResource (re_key r) (re_node r) (rs_destination (re_spec r)) (re_action r) (re_remaining r).

Definition storage_blocks (st : Storage) : list Diagnostic :=
  match st_sufficient st with
  | None => [blocker "download.storage_unknown"]
  | Some true => []
  | Some false => [blocker "download.storage_insufficient"]
  end.

Definition by_key (a b : Resource) : Prop := String.le (re_key a) (re_key b).

#[export] Instance by_key_dec a b : Decision (by_key a b).
Proof. unfold by_key. apply _. Defined.

(** What the digest of a plan binds: not sizes, observations or storage *)
Definition binding (r : Resource) : ResourceSpec * string * Action * string * string * string * bool :=
  (with_size None (re_spec r), re_node r, re_action r, re_source_node r, re_source_path r, re_credential r, re_required r).

Definition planHash (recipe : string) (workload : Z) (variants : gmap string string) (targets : list Target) (rs : list Resource) : string :=
  "sha256:" +:+ hash (encode_binding (workload, variants, recipe, targets, binding <$> rs)).

Definition resumable (state : string) : bool :=
  bool_decide (state = "failed") || bool_decide (state = "cancelled") || bool_decide (state = "interrupted").

(** The choices of a resumed attempt *)
Definition same_choices (p : Plan) (recipe : string) (workload : Z) (variants : gmap string string) (targets : list Target) : bool :=
  bool_decide (pl_recipe p = recipe) && (pl_workload p =? workload) && bool_decide (pl_variants p = variants) && bool_decide (pl_targets p = targets).

Definition frozen_map (rs : list Resource) : gmap string Resource := foldl (λ m r, <[re_key r := r]> m) ∅ rs.

Definition frozen_same (prior rs : list Resource) : bool :=
  (Z.of_nat (size (frozen_map prior)) =? Z.of_nat (length rs))
  && forallb (λ r, match frozen_map prior !! re_key r with
                   | Some before => bool_decide (rs_manifest (re_spec before) = rs_manifest (re_spec r)) && bool_decide (rs_index (re_spec before) = rs_index (re_spec r))
                   | None => false
                   end) rs.

(** The attempt a request resumes, which must be over *)
Definition resumed (req : PlanRequest) (recipe : string) (workload : Z) (variants : gmap string string) (targets : list Target) : result string (option Attempt) :=
  if bool_decide (rq_resume req = "") then Ok None
  else match attempt_of recipe (rq_resume req) with
       | None => Err "download.not_found"
       | Some a =>
           if negb (resumable (at_state a)) then Err "download.resume_state"
           else if same_choices (at_plan a) recipe workload variants targets then Ok (Some a) else Err "download.resume_choices_changed"
       end.

(** The credentials of a request: its own, or those of the attempt it resumes *)
Definition request_credentials (req : PlanRequest) : result string (list CredentialSelection) :=
  match rq_credentials req with
  | Some cs => Ok cs
  | None =>
      if bool_decide (rq_resume req = "") then Ok []
      else match attempt_of (rq_recipe req) (rq_resume req) with
           | None => Err "download.not_found"
           | Some a => Ok (default [] (at_credentials a))
           end
  end.

Definition request_variants (req : PlanRequest) : result string (gmap string string) :=
  if bool_decide (rq_profile req = "") then Ok (rq_variants req)
  else if negb (bool_decide (rq_variants req = ∅)) || bool_decide (is_Some (rq_workload req)) then Err "download.profile_conflict"
  else match profiles !! rq_profile req with
       | None => Err "profile"
       | Some (recipe, variants) => if bool_decide (recipe = rq_recipe req) then Ok variants else Err "download.profile_mismatch"
       end.

(** What is chosen before any device is asked *)
Record Choices := mkChoices {
  ch_manifest : Manifest; ch_workload : Z; ch_runtime : Workload; ch_variants : gmap string string; ch_targets : list Target;
  ch_credentials : list CredentialSelection; ch_prior : option Attempt; ch_blocks : list Diagnostic }.

Definition choose (req : PlanRequest) : result string Choices :=
  let n := Z.of_nat (length (rq_targets req)) in
  if (n =? 0) || (MaxTargets <? n) then Err "download.targets_required"
  else
    creds ← request_credentials req;
    if MaxCredentials <? Z.of_nat (length creds) then Err "download.credentials_invalid"
    else
      requested ← request_variants req;
      match recipes !! rq_recipe req with
      | None => Err "recipe"
      | Some m =>
          '(ts, bs) ← resolve_targets [] (rq_targets req);
          let targets := merge_sort by_node ts in
          i ← choose_runtime m targets (rq_workload req);
          if negb (forallb (λ e, variant_named m (fst e)) (map_to_list requested)) then Err "download.variant_invalid"
          else
            variants ← plan_variants requested ∅ (m_artifacts m);
            prior ← resumed req (rq_recipe req) i variants targets;
            if negb (credentials_ok [] creds) then Err "download.credentials_invalid"
            else match m_workloads m !! Z.to_nat i with
                 | None => Err "runtime"
                 | Some w => Ok (mkChoices m i w variants targets creds prior bs)
                 end
      end.

Definition gather (refresh : bool) (req : PlanRequest) (ch : Choices) (tb : Tables) : Progress :=
  foldl (plan_target (rq_recipe req) (ch_manifest ch) (ch_runtime ch) (ch_variants ch) refresh (ch_credentials ch)) (mkProgress tb [] ∅ [] (ch_blocks ch)) (ch_targets ch).

(** The plan of what was gathered *)
Definition conclude (req : PlanRequest) (ch : Choices) (pg : Progress) : result string Plan :=
  let rs := merge_sort by_key (pg_resources pg) in
  if MaxResources <? Z.of_nat (length rs) then Err "download.resources_limit"
  else if negb (forallb (λ c, existsb (λ r, bool_decide (rs_identity (re_spec r) = cs_resource c)) rs) (ch_credentials ch)) then Err "download.credentials_invalid"
  else if match ch_prior ch with Some a => negb (frozen_same (pl_resources (at_plan a)) rs) | None => false end then Err "download.resume_choices_changed"
  else
    let storage := storagePlan (storage_view <$> rs) (pg_observations pg) in
    let blocks := pg_blocks pg ++ (storage ≫= storage_blocks) in
    Ok (mkPlan (rq_recipe req) (ch_workload ch) (ch_variants ch) (ch_targets ch) rs storage blocks (bool_decide (blocks = []))
          (planHash (rq_recipe req) (ch_workload ch) (ch_variants ch) (ch_targets ch) rs)).

Definition plan (refresh : bool) (req : PlanRequest) (tb : Tables) : result string Plan * Tables :=
  match choose req with
  | Err e => (Err e, tb)
  | Ok ch => let pg := gather refresh req ch tb in (conclude req ch pg, pg_tables pg)
  end.

(** ** Submitting a plan *)

(** What [Submit] hands to the job registry *)
Record AttemptInput := mkInput { in_plan : Plan; in_credentials : option (list CredentialSelection); in_predecessor : string }.

(** The request with the credentials of the attempt it resumes, where it gives none *)
Definition with_prior_credentials (req : PlanRequest) : result string PlanRequest :=
  if negb (bool_decide (rq_resume req = "")) && bool_decide (rq_credentials req = None) then
    match attempt_of (rq_recipe req) (rq_resume req) with
    | None => Err "download.not_found"
    | Some a => Ok (mkRequest (rq_recipe req) (rq_targets req) (rq_workload req) (rq_variants req) (rq_profile req) (at_credentials a) (rq_resume req))
    end
  else Ok req.

Definition Submit (jobs : bool) (req : PlanRequest) (digest : string) (tb : Tables) : result string AttemptInput * Tables :=
  match with_prior_credentials req with
  | Err e => (Err e, tb)
  | Ok req =>
      match plan true req tb with
      | (Err e, tb) => (Err e, tb)
      | (Ok p, tb) =>
          if bool_decide (digest = "") || negb (bool_decide (digest = pl_digest p)) then (Err "download.plan_changed", tb)
          else if negb (pl_ready p) then (Err "download.blocked", tb)
          else if negb jobs then (Err "download.unavailable", tb)
          else (Ok (mkInput p (rq_credentials req) (rq_resume req)), tb)
      end
  end.

Definition Resume (jobs : bool) (recipe run : string) (creds : option (list CredentialSelection)) (digest : string) (tb : Tables) : result string AttemptInput * Tables :=
  match attempt_of recipe run with
  | None => (Err "download.not_found", tb)
  | Some a =>
      if negb (resumable (at_state a)) then (Err "download.resume_state", tb)
      else
        let p := at_plan a in
        Submit jobs (mkRequest (pl_recipe p) (pl_targets p) (Some (pl_workload p)) (pl_variants p) "" creds run) digest tb
  end.

(** ** Acquisition for serving *)

(** The source of a resource that is not reused *)
Definition same_source (r before : Resource) : bool :=
  bool_decide (re_action r = ActionReuse)
  || (bool_decide (re_action r = re_action before) && bool_decide (re_source_node r = re_source_node before)
      && bool_decide (re_source_path r = re_source_path before) && bool_decide (re_credential r = re_credential before)).

Definition reviewed_same (reviewed p : Plan) : bool :=
  same_choices reviewed (pl_recipe p) (pl_workload p) (pl_variants p) (pl_targets p)
  && frozen_same (pl_resources reviewed) (pl_resources p)
  && forallb (λ r, match frozen_map (pl_resources reviewed) !! re_key r with Some before => same_source r before | None => false end) (pl_resources p).

(** The files of a resource are there *)
Definition on_device (r : Resource) : bool :=
  negb (re_required r)
  || (bool_decide (re_action r = ActionReuse) && bool_decide (vf_state (re_verification r) = ResourceAvailable) && negb (vf_stale (re_verification r))).

(** [Acquire] where the resources must exist: it plans and downloads nothing *)
Definition AcquireExisting (req : PlanRequest) (reviewed : option Plan) (tb : Tables) : result string unit * Tables :=
  match plan true req tb with
  | (Err e, tb) => (Err e, tb)
  | (Ok p, tb) =>
      (if match reviewed with Some q => negb (reviewed_same q p) | None => false end then Err "download.plan_changed"
       else if negb (pl_ready p) then Err "download.recheck_required"
       else if negb (forallb on_device (pl_resources p)) then Err "download.recheck_required"
       else if bool_decide (pl_resources p = []) then Err "download.recheck_required" else Ok tt, tb)
  end.

(** The runs [joinAcquisitions] waits for; an owner that is not a download of the same content is an error *)
Fixpoint join_owners (owners : list string) (rs : list Resource) : result string (list string) :=
  match rs with
  | [] => Ok owners
  | r :: rs =>
      match locks !! (re_node r, rs_destination (re_spec r)) with
      | None => join_owners owners rs
      | Some l =>
          if bool_decide (k_state l = LockQuiesced) then join_owners owners rs
          else if negb (bool_decide (k_identity l = rs_identity (re_spec r))) || negb (bool_decide (k_platform l = rs_platform (re_spec r)))
                  || negb (bool_decide (k_kind l = OwnerDownload)) then Err "download.destination_busy"
          else match k_run l with
               | None => Err "download.destination_busy"
               | Some run => join_owners (if bool_decide (run ∈ owners) then owners else owners ++ [run]) rs
               end
      end
  end.
End plan.
