(* ===== verification/DownloadPlanInv.v ===== *)
(** * What a ready download plan guarantees

    The theorems of [DownloadPlan]: what planning learned from the devices about every resource of a plan, what a ready
    plan contains, what resuming and submitting a reviewed plan keep. *)

From S2P Require Import Prelude GoStrings Utf8 Paths ShellQuote SourceConfig Spaces Diag Downloads StoragePlan ArtifactIdentity Resources Recipe Inventory DownloadPlan.
Open Scope Z_scope.

(** ** What planning learns *)

Section facts.
Context (parse_url : string → option Url) (hash : string → string).
Context (secrets : option (string → option (string * option string))).
Context (nodes : gmap string NodeReport) (online : string → bool).
Context (new_id : nat → string) (now : nat → Z) (answer : nat → string → ResourceSpec → option CommandOutput).
Notation ask := (inspect parse_url secrets nodes new_id now answer).
Notation paths_loop := (try_paths parse_url secrets nodes new_id now answer).
Notation candidates := (inspectCandidates parse_url secrets nodes new_id now answer).
Notation peers := (select_peer parse_url secrets nodes online new_id now answer).
Notation see := (look parse_url secrets nodes online new_id now answer).
Notation act := (choose_action parse_url secrets nodes online new_id now answer).

(** The device answered an inspection of exactly this resource, and the answer was accepted *)
Definition answered (node : string) (spec : ResourceSpec) (out : CommandOutput) : Prop :=
  SupportsNode nodes node = true ∧ ∃ i, answer i node spec = Some out ∧ validateOutput (now i) out (new_id i) spec = true.

Lemma inspect_answered node spec creds tb out tb' : ask node spec creds tb = (Some out, tb') → answered node spec out.
Proof.
  unfold inspect. destruct (SupportsNode nodes node) eqn:Es; [|done]. destruct (credential _ _ _ _) as [c|]; [|done]. intros [= H _]. split; [done|].
  exists (tb_count tb). destruct (answer _ _ _) as [o|]; [|done]. simpl in H. destruct (validateOutput _ _ _ _) eqn:Ev; [|done]. by simplify_eq.
Qed.

(** An accepted answer that the resource is there is a fresh one *)
Lemma answered_available node spec out : answered node spec out → co_state out = ResourceAvailable → available out = true.
Proof.
  intros (_ & i & _ & Hv) Ha. unfold available. rewrite Ha, bool_decide_eq_true_2 by done. cbn [andb]. apply bool_decide_eq_true_2.
  unfold validateOutput in Hv. rewrite Ha, (bool_decide_eq_true_2 (ResourceAvailable = ResourceAvailable)) in Hv by done.
  apply andb_prop in Hv as [Hv _]. apply andb_prop in Hv as [_ Hv]. simpl in Hv. unfold fresh in Hv. by destruct (co_verified out).
Qed.

Lemma try_paths_answered node spec creds x paths tb out dest tb' :
  (∀ o, x = Some o → answered node spec o) →
  paths_loop node spec creds (Some x) paths tb = (Some out, dest, tb') → answered node (with_destination dest spec) out.
Proof.
  intros Hx. assert (with_destination (rs_destination spec) spec = spec) as Hd by (by destruct spec).
  revert tb. induction paths as [|p paths IH]; intros tb; simpl; [intros [= -> <- _]; rewrite Hd; by apply Hx|].
  destruct (ask node (with_destination p spec) creds tb) as [[o|] tb1] eqn:Ea; [|apply IH].
  destruct (available o) eqn:Eo; [|apply IH]. intros [= <- <- _]. by eapply inspect_answered.
Qed.

Lemma inspectCandidates_answered node spec target creds tb out dest tb' :
  candidates node spec target creds tb = (Some out, dest, tb') → answered node (with_destination dest spec) out.
Proof.
  unfold inspectCandidates, candidate_paths, dedup. simpl. assert (with_destination (rs_destination spec) spec = spec) as Hd by (by destruct spec).
  destruct (ask node (with_destination (rs_destination spec) spec) creds tb) as [[o|] tb1] eqn:Ea; rewrite Hd in Ea.
  - destruct (available o) eqn:Eo.
    + intros [= <- <- _]. rewrite Hd. by eapply inspect_answered.
    + apply try_paths_answered. intros o' [= <-]. by eapply inspect_answered.
  - by apply try_paths_answered.
Qed.

Lemma select_peer_answered node spec creds rows tb p tb' :
  peers node spec creds true rows tb = (Some p, tb') →
  ∃ row out size, peer_reachable nodes online node (pe_node p) row = true ∧ answered (pe_node p) (with_destination (pe_path p) spec) out ∧
    peer_ready out = Some size ∧ pe_size p = Some size.
Proof.
  revert tb. induction rows as [|[[peer path] row] rows IH]; intros tb; simpl; [done|].
  destruct (peer_reachable nodes online node peer row) eqn:Er; [|apply IH]. simpl.
  destruct (ask peer (with_destination path spec) creds tb) as [o tb1] eqn:Ea. destruct (o ≫= peer_ready) as [size|] eqn:Ep; [|apply IH].
  apply bind_Some in Ep as (out & -> & Ep). intros [= <- _]. exists row, out, size. split_and!; [done| |done..]. by eapply inspect_answered.
Qed.

(** The resource a device was seen to have, with its destination *)
Definition same_content (s s' : ResourceSpec) : Prop :=
  rs_kind s' = rs_kind s ∧ rs_identity s' = rs_identity s ∧ rs_source s' = rs_source s ∧ rs_platform s' = rs_platform s ∧
  rs_index s' = rs_index s ∧ rs_manifest s' = rs_manifest s.

Lemma look_fresh inv target creds spec tb si tb' :
  online (tg_node target) = true → hasFeature inv = true → see true inv target creds spec tb = (si, tb') → si_blocks si = [] →
  same_content spec (si_spec si) ∧ vf_stale (si_verification si) = false ∧
  ∃ out size, answered (tg_node target) (with_size size (si_spec si)) out ∧
    vf_state (si_verification si) = co_state out ∧ vf_at (si_verification si) = co_verified out.
Proof.
  intros Ho Hf. unfold look. rewrite Ho, Hf. cbn [andb].
  destruct (candidates (tg_node target) spec target creds tb) as [[[o|] dest] tb1] eqn:Ec; [|by intros [= <- _]].
  apply inspectCandidates_answered in Ec. destruct (recordObservation _ _ _ _) as [ok tb2]. intros [= <- _] _. split_and!; [by split_and!|done|].
  exists o, (rs_size spec). by split_and!.
Qed.

(** How a planned resource is obtained *)
Definition obtained (locks : gmap (string * string) DestinationLock) (r : Resource) : Prop :=
  match re_action r with
  | ActionReuse => ∃ size out, answered (re_node r) (with_size size (re_spec r)) out ∧ co_state out = ResourceAvailable ∧ is_Some (co_verified out)
  | ActionPeerCopy =>
      re_source_node r ≠ re_node r ∧ online (re_source_node r) = true ∧
      ∃ out n, answered (re_source_node r) (with_destination (re_source_path r) (re_spec r)) out ∧ available out = true ∧
        co_tree out ≠ "" ∧ co_tree_size out = Some n ∧ re_remaining r = Some n
  | _ => no_origin (re_spec r) = false ∧ ¬ (s_type (rs_source (re_spec r)) = SourceOCI ∧ rs_kind (re_spec r) = ResourceArtifact)
  end ∧ (re_action r ≠ ActionReuse → busy locks (re_node r) (re_spec r) = false).

Lemma peer_obtained node spec p row remaining :
  peer_reachable nodes online node (pe_node p) row = true → (∃ out n, answered (pe_node p) (with_destination (pe_path p) spec) out ∧
    peer_ready out = Some n ∧ pe_size p = Some n) → remaining = pe_size p →
  pe_node p ≠ node ∧ online (pe_node p) = true ∧
  ∃ out n, answered (pe_node p) (with_destination (pe_path p) spec) out ∧ available out = true ∧ co_tree out ≠ "" ∧ co_tree_size out = Some n ∧ remaining = Some n.
Proof.
  unfold peer_reachable. rewrite !andb_true_iff, negb_true_iff, bool_decide_eq_false. intros (((Hn & _) & Ho) & _) (out & n & Ha & Hp & Hs) ->.
  split_and!; [done..|]. exists out, n. unfold peer_ready in Hp. destruct (available out); [|done].
  destruct (bool_decide_reflect (co_tree out = "")); [done|]. by split_and!.
Qed.

Lemma when_block_nil b code : when_block b code = [] → b = false.
Proof. by destruct b. Qed.

Lemma settle_obtained locks node creds si a peer tb tb' :
  act true node creds si tb = (a, peer, tb') → vf_stale (si_verification si) = false →
  (∃ out size, answered node (with_size size (si_spec si)) out ∧ vf_state (si_verification si) = co_state out) →
  action_blocks locks node (si_spec si) a = [] → obtained locks (settle hash node creds si a peer).
Proof.
  intros Ha Hs (out & size & Hout & Hst) Hb. unfold action_blocks in Hb.
  apply app_eq_nil in Hb as [H1%when_block_nil Hb]. apply app_eq_nil in Hb as [H2%when_block_nil Hb]. apply app_eq_nil in Hb as [_ H4%when_block_nil].
  split; cbn [settle re_action re_node re_spec re_source_node re_source_path re_remaining].
  2: { intros Hne. rewrite bool_decide_eq_true_2 in H4 by done. done. }
  assert (a = ActionDownloadOrigin → no_origin (si_spec si) = false ∧ ¬ (s_type (rs_source (si_spec si)) = SourceOCI ∧ rs_kind (si_spec si) = ResourceArtifact)) as Hor.
  { intros ->. simpl in H1, H2. split; [done|]. intros [E1 E2]. rewrite E1, E2 in H2. done. }
  unfold choose_action in Ha. rewrite Hs in Ha.
  assert (∀ r, (if bool_decide (rs_kind (si_spec si) = ResourceArtifact) then
      let '(p, tb) := selectPeer parse_url secrets nodes online new_id now answer node (si_spec si) creds true tb in
      match p with
      | Some p => if bool_decide (pe_node p = "") then (ActionDownloadOrigin, None, tb) else (ActionPeerCopy, Some p, tb)
      | None => (ActionDownloadOrigin, None, tb)
      end else (ActionDownloadOrigin, None, tb)) = r → r = (a, peer, tb') →
    match a with ActionReuse => False | ActionPeerCopy => ∃ p, peer = Some p ∧ ∃ row out n, peer_reachable nodes online node (pe_node p) row = true ∧
        answered (pe_node p) (with_destination (pe_path p) (si_spec si)) out ∧ peer_ready out = Some n ∧ pe_size p = Some n
    | _ => a = ActionDownloadOrigin end) as Hpeer.
  { intros r <-. destruct (bool_decide (rs_kind _ = _)); [|by intros [= <- _ _]]. unfold selectPeer.
    destruct (peers node (si_spec si) creds true (placements_of (rs_identity (si_spec si)) tb) tb) as [[p|] tb1] eqn:Ep; [|by intros [= <- _ _]].
    destruct (bool_decide (pe_node p = "")); [by intros [= <- _ _]|]. intros [= <- <- _]. exists p. split; [done|]. by eapply select_peer_answered. }
  destruct (vf_state (si_verification si)) eqn:Ev; try (specialize (Hpeer _ eq_refl Ha); clear Ha; destruct a; [done|done|by apply Hor|];
    destruct Hpeer as (p & -> & row & o & n & Hr & Hp & Hn & Hsz); apply (peer_obtained node (si_spec si) p row); [done|by exists o, n|];
    simpl; by rewrite Hsz); simplify_eq/=.
  - by apply Hor.
  - exists size, out. symmetry in Hst. split_and!; [done..|]. pose proof (answered_available _ _ _ Hout Hst) as Hav. unfold available in Hav.
    apply andb_prop in Hav as [_ Hav]. by apply bool_decide_eq_true in Hav.
Qed.

(** *** Keys *)

Lemma no_control_newline s : has_control s = false → contains_byte newline s = false.
Proof.
  induction s as [|a s IH]; [done|]. cbn [has_control contains_byte]. rewrite !orb_false_iff. intros (((H & _) & _) & Hs). rewrite (IH Hs).
  split; [|done]. apply bool_decide_eq_false. by intros ->.
Qed.

Lemma line_inj a a' x x' : contains_byte newline a = false → contains_byte newline a' = false →
  a +:+ String newline x = a' +:+ String newline x' → a = a' ∧ x = x'.
Proof. intros H H' E. pose proof (cut_app newline a x H) as Hc. rewrite E, (cut_app newline a' x' H') in Hc. by simplify_eq. Qed.

Lemma kind_no_newline k : contains_byte newline (kind_name k) = false.
Proof. by destruct k. Qed.

Lemma Validate_identity_line s : Validate parse_url s = true → contains_byte newline (rs_identity s) = false.
Proof.
  unfold Validate, boundedText. rewrite !andb_true_iff. intros H. apply no_control_newline, negb_true_iff. by destruct_and! H.
Qed.

Context (hash_inj : ∀ x y, hash x = hash y → x = y) (node_ids : ∀ n, is_Some (nodes !! n) → contains_byte newline n = false).

Lemma resource_key_inj node node' s s' :
  resource_key hash node s = resource_key hash node' s' →
  contains_byte newline (rs_identity s) = false → contains_byte newline (rs_identity s') = false →
  is_Some (nodes !! node) → is_Some (nodes !! node') → node = node' ∧ rs_identity s = rs_identity s' ∧ rs_kind s = rs_kind s'.
Proof.
  intros Hk%hash_inj Hs Hs' Hn%node_ids Hn'%node_ids. unfold lines in Hk. cbn [join] in Hk.
  apply line_inj in Hk as [Ek Hk]; [|apply kind_no_newline..]. apply line_inj in Hk as [Ei Hk]; [|done..].
  apply line_inj in Hk as [En Hk]; [|done..]. split_and!; [done..|]. by destruct (rs_kind s), (rs_kind s').
Qed.

(** *** The resources gathered *)

Context (locks : gmap (string * string) DestinationLock).
Notation one := (plan_spec parse_url hash secrets nodes online new_id now answer locks true).

Record progress_ok (pg : Progress) : Prop := {
  po_resource r : r ∈ pg_resources pg →
    obtained locks r ∧ pinned (rs_source (re_spec r)) (rs_identity (re_spec r)) ∧ is_Some (nodes !! re_node r) ∧ re_required r = true;
  po_seen key : key ∈ pg_seen pg →
    ∃ r spec, r ∈ pg_resources pg ∧ Validate parse_url spec = true ∧ key = resource_key hash (re_node r) spec ∧ same_content spec (re_spec r);
}.

(** A resource of the identity is planned for the node *)
Definition planned (rs : list Resource) (node identity : string) : Prop :=
  ∃ r, r ∈ rs ∧ re_node r = node ∧ rs_identity (re_spec r) = identity.

Lemma plan_spec_ok inv target creds pg spec :
  nodes !! tg_node target = Some inv → online (tg_node target) = true → hasFeature inv = true →
  let pg' := one inv target creds pg spec in
  pg_blocks pg' = [] →
  pg_blocks pg = [] ∧ pg_resources pg ⊆ pg_resources pg' ∧
  (progress_ok pg → progress_ok pg' ∧ planned (pg_resources pg') (tg_node target) (rs_identity spec)).
Proof.
  intros Hn Ho Hf pg'. unfold pg', plan_spec. destruct (Validate parse_url spec) eqn:Ev; simpl; [|intros H; by apply app_eq_nil in H as [_ ?]].
  destruct (bool_decide_reflect (resource_key hash (tg_node target) spec ∈ pg_seen pg)) as [Hseen|Hseen].
  - intros Hb. split_and!; [done|done|]. intros Hok. split; [done|]. destruct (po_seen _ Hok _ Hseen) as (r & s & Hr & Hs & Hk & (Hc1 & Hc2 & _)).
    destruct (po_resource _ Hok r Hr) as (_ & _ & Hnr & _). destruct (resource_key_inj _ _ _ _ Hk (Validate_identity_line _ Ev) (Validate_identity_line _ Hs) ltac:(by eexists) Hnr) as (E1 & E2 & _).
    exists r. split_and!; [done|done|congruence].
  - destruct (see true inv target creds spec (pg_tables pg)) as [si tb1] eqn:El. destruct (act true (tg_node target) creds si tb1) as [[a peer] tb2] eqn:Ea.
    cbn [pg_blocks pg_resources]. intros Hb. apply app_eq_nil in Hb as [Hb1 Hb]. apply app_eq_nil in Hb as [Hb2 Hb3].
    destruct (look_fresh _ _ _ _ _ _ _ Ho Hf El Hb2) as (Hsame & Hst & out & size & Hans & Hvs & _).
    set (r := settle hash (tg_node target) creds si a peer). split_and!; [done|set_solver|]. intros Hok. split.
    + split; cbn [pg_resources pg_seen].
      * intros r' [Hr'|Hr']%elem_of_app; [by apply (po_resource _ Hok)|]. apply list_elem_of_singleton in Hr' as ->.
        destruct Hsame as (_ & Hi & Hsrc & _). split_and!; [|simpl; rewrite Hi, Hsrc; by eapply Validate_pinned|by eexists|done].
        eapply settle_obtained; [exact Ea|done| |done]. by exists out, size.
      * intros key [->|Hk]%elem_of_cons.
        -- exists r, spec. split_and!; [set_solver|done..].
        -- destruct (po_seen _ Hok key Hk) as (r' & s & ? & ?). exists r', s. split; [set_solver|done].
    + exists r. split_and!; [set_solver|done|]. by destruct Hsame as (_ & Hi & _).
Qed.

(** The specifications of one target, one after the other *)
Lemma plan_specs_ok inv target creds specs pg :
  nodes !! tg_node target = Some inv → online (tg_node target) = true → hasFeature inv = true →
  let pg' := foldl (one inv target creds) pg specs in
  pg_blocks pg' = [] →
  pg_blocks pg = [] ∧ pg_resources pg ⊆ pg_resources pg' ∧
  (progress_ok pg → progress_ok pg' ∧ ∀ spec, spec ∈ specs → planned (pg_resources pg') (tg_node target) (rs_identity spec)).
Proof.
  intros Hn Ho Hf. revert pg. induction specs as [|spec specs IH]; intros pg; simpl; [intros ?; split_and!; [done|done|]; intros; split; [done|set_solver]|].
  intros Hb. destruct (IH _ Hb) as (Hb1 & Hsub & Hok1). destruct (plan_spec_ok inv target creds pg spec Hn Ho Hf Hb1) as (Hb2 & Hsub2 & Hok2).
  split_and!; [done|set_solver|]. intros Hok. destruct (Hok2 Hok) as [Hok' (r & Hr & ? & ?)]. destruct (Hok1 Hok') as [? Hall]. split; [done|].
  intros s [->|Hs]%elem_of_cons; [|by apply Hall]. exists r. split; [by apply Hsub|done].
Qed.

(** *** What a target needs *)

Context (http : string → option string → option string)
        (decode_doc : string → option ImageDoc) (decode_platform : string → option (string * string * string)) (attempts : list Attempt).
Notation image := (imageSpec parse_url hash secrets nodes online new_id now answer http decode_doc decode_platform attempts).
Notation images := (image_specs parse_url hash secrets nodes online new_id now answer http decode_doc decode_platform attempts).
Notation specs_of := (target_specs parse_url hash secrets nodes online new_id now answer http decode_doc decode_platform attempts).

Lemma imageSpec_identity i inv node creds tb spec tb' : image i inv node creds tb = (Some spec, tb') → rs_identity spec = image_key i.
Proof.
  unfold imageSpec. destruct (_ || _); [done|]. destruct (negb _); [done|].
  set (t := image_target i inv). assert (∀ s, image_origin parse_url hash secrets http decode_doc decode_platform attempts t creds = Some s → rs_identity s = image_key i) as Horigin.
  { intros s. unfold image_origin, checked.
    assert ((material ← credential parse_url secrets t creds; m ← resolve_manifest hash http decode_doc decode_platform t material;
      if Validate parse_url (with_manifest m t) then Some (with_manifest m t) else None) = Some s → rs_identity s = image_key i) as H.
    { intros (? & _ & (m & _ & H)%bind_Some)%bind_Some. destruct (Validate _ _); [|done]. by simplify_eq. }
    destruct (retained attempts t); [|exact H]. destruct (_ && _); [by intros [= <-]|exact H]. }
  destruct (if _ : bool then _ else _) as [[out|] tb1].
  - destruct (bool_decide _); [|intros [= H _]; by apply Horigin]. unfold checked. destruct (Validate _ _); [|done]. by intros [= <- _].
  - intros [= H _]. by apply Horigin.
Qed.

Lemma image_specs_identity inv node creds imgs tb ss tb' :
  images inv node creds imgs tb = (ss, tb') → Forall2 (λ i s, ∀ spec, s = Some spec → rs_identity spec = image_key i) imgs ss.
Proof.
  revert tb ss. induction imgs as [|i imgs IH]; intros tb ss; simpl; [by intros [= <- _]|].
  destruct (image i inv node creds tb) as [s tb1] eqn:Ei. destruct (images inv node creds imgs tb1) as [ss' tb2] eqn:Es.
  intros [= <- <-]. constructor; [|by eapply IH]. intros spec ->. by eapply imageSpec_identity.
Qed.

Lemma distinct_images_key seen imgs i : i ∈ imgs → image_key i ∈ seen ∨ ∃ i', i' ∈ distinct_images seen imgs ∧ image_key i' = image_key i.
Proof.
  revert seen. induction imgs as [|j imgs IH]; intros seen; simpl; [set_solver|].
  destruct (bool_decide_reflect (image_key j ∈ seen)) as [Hj|Hj]; intros [->|Hi]%elem_of_cons; [by left|by apply IH| |].
  - right. exists j. set_solver.
  - destruct (IH (image_key j :: seen) Hi) as [[->|?]%elem_of_cons|(i' & ? & ?)]; [right; exists j; set_solver|by left|right; exists i'; set_solver].
Qed.

(** Nothing is missing where nothing is reported *)
Lemma reported_nil code ss specs blocks : reported code ss = (specs, blocks) → blocks = [] → ss = Some <$> specs.
Proof.
  unfold reported. intros [= <- <-]. induction ss as [|[s|] ss IH]; simpl; [done| |done]. intros H. f_equal. by apply IH.
Qed.

Lemma target_specs_complete digest m w variants creds inv target tb specs blocks tb' :
  specs_of digest m w variants creds inv target tb = (specs, blocks, tb') → blocks = [] →
  (∃ spec, spec ∈ specs ∧ rs_identity spec = "recipe://" +:+ digest) ∧
  (tg_root target ≠ "" → ∀ a, a ∈ m_artifacts m →
    ∃ spec, selectedArtifact parse_url a (default "" (variants !! ar_name a)) (tg_root target) = Some spec ∧ spec ∈ specs) ∧
  (∀ i, i ∈ needed_images m w → ∃ spec, spec ∈ specs ∧ rs_identity spec = image_key i).
Proof.
  unfold target_specs. destruct (bool_decide (nr_recipe_root inv = "")); destruct (reported _ (artifact_specs parse_url m variants target)) as [as_ ab] eqn:Ea;
    destruct (images inv (tg_node target) creds (distinct_images [] (needed_images m w)) tb) as [iss tb1] eqn:Ei;
    destruct (reported _ iss) as [is_ ib] eqn:Eis; intros [= <- <- _]; [done|]. simpl. intros Hb. apply app_eq_nil in Hb as [-> ->].
  apply reported_nil in Ea, Eis; [|done..]. split_and!.
  - exists (recipe_spec digest inv). split; [set_solver|done].
  - intros Hr a Ha. unfold artifact_specs in Ea. rewrite bool_decide_eq_false_2 in Ea by done.
    assert (selectedArtifact parse_url a (default "" (variants !! ar_name a)) (tg_root target) ∈ Some <$> as_) as (spec & -> & Hs)%list_elem_of_fmap.
    { rewrite <- Ea. apply list_elem_of_fmap. by exists a. }
    exists spec. set_solver.
  - intros i Hi. destruct (distinct_images_key [] (needed_images m w) i Hi) as [Hn|(i' & Hi' & Hk)]; [set_solver|].
    apply image_specs_identity in Ei. rewrite Eis in Ei. apply list_elem_of_lookup in Hi' as [n Hn].
    destruct (Forall2_lookup_l _ _ _ _ _ Ei Hn) as (s & Hs & Hid). rewrite list_lookup_fmap in Hs. apply fmap_Some in Hs as (spec & Hs & ->).
    exists spec. split; [apply list_elem_of_lookup_2 in Hs; set_solver|]. rewrite <- Hk. by apply Hid.
Qed.

(** Everything a recipe needs on a device is planned *)
Definition needs (digest : string) (m : Manifest) (w : Workload) (variants : gmap string string) (rs : list Resource) (target : Target) : Prop :=
  planned rs (tg_node target) ("recipe://" +:+ digest) ∧
  (tg_root target ≠ "" → ∀ a, a ∈ m_artifacts m →
    ∃ spec, selectedArtifact parse_url a (default "" (variants !! ar_name a)) (tg_root target) = Some spec ∧ planned rs (tg_node target) (rs_identity spec)) ∧
  ∀ i, i ∈ needed_images m w → planned rs (tg_node target) (image_key i).

(** A target whose device can be asked *)
Definition reachable (t : Target) : Prop :=
  online (tg_node t) = true ∧ ∃ inv, nodes !! tg_node t = Some inv ∧ hasFeature inv = true ∧ ∃ root, root ∈ nr_roots inv ∧ ca_writable root = true ∧ ca_path root = tg_root t.

Notation per_target := (plan_target parse_url hash secrets nodes online new_id now answer http decode_doc decode_platform attempts locks).

Lemma planned_mono rs rs' node identity : rs ⊆ rs' → planned rs node identity → planned rs' node identity.
Proof. intros Hs (r & Hr & ?). exists r. split; [by apply Hs|done]. Qed.

Lemma needs_mono digest m w variants rs rs' t : rs ⊆ rs' → needs digest m w variants rs t → needs digest m w variants rs' t.
Proof.
  intros Hs (H1 & H2 & H3). split_and!; [by eapply planned_mono| |intros i Hi; eapply planned_mono; [done|by apply H3]].
  intros Hr a Ha. destruct (H2 Hr a Ha) as (spec & ? & ?). exists spec. split; [done|by eapply planned_mono].
Qed.

Lemma plan_target_ok digest m w variants creds pg t :
  reachable t → let pg' := per_target digest m w variants true creds pg t in
  pg_blocks pg' = [] →
  pg_blocks pg = [] ∧ pg_resources pg ⊆ pg_resources pg' ∧ (progress_ok pg → progress_ok pg' ∧ needs digest m w variants (pg_resources pg') t).
Proof.
  intros (Ho & inv & Hn & Hf & _) pg'. unfold pg', plan_target. rewrite Hn.
  destruct (specs_of digest m w variants creds inv t (pg_tables pg)) as [[specs blocks] tb] eqn:Es. intros Hb.
  destruct (plan_specs_ok inv t creds specs _ Hn Ho Hf Hb) as (Hb1 & Hsub & Hok). cbn [pg_blocks pg_resources] in Hb1, Hsub.
  apply app_eq_nil in Hb1 as [Hb1 Hb2]. split_and!; [done|done|]. intros Hpg.
  assert (progress_ok (mkProgress tb (pg_seen pg) (pg_observations pg) (pg_resources pg) (pg_blocks pg ++ blocks))) as Hpg'.
  { split; [apply (po_resource _ Hpg)|apply (po_seen _ Hpg)]. }
  destruct (Hok Hpg') as [Hok' Hall]. split; [done|]. destruct (target_specs_complete _ _ _ _ _ _ _ _ _ _ _ Es Hb2) as ((s & Hs & Hi) & Hart & Himg). split_and!.
  - rewrite <- Hi. by apply Hall.
  - intros Hr a Ha. destruct (Hart Hr a Ha) as (spec & ? & ?). exists spec. split; [done|by apply Hall].
  - intros i Him. destruct (Himg i Him) as (spec & ? & <-). by apply Hall.
Qed.

Lemma gather_ok digest m w variants creds ts pg :
  (∀ t, t ∈ ts → reachable t) → let pg' := foldl (per_target digest m w variants true creds) pg ts in
  pg_blocks pg' = [] →
  pg_blocks pg = [] ∧ pg_resources pg ⊆ pg_resources pg' ∧ (progress_ok pg → progress_ok pg' ∧ ∀ t, t ∈ ts → needs digest m w variants (pg_resources pg') t).
Proof.
  revert pg. induction ts as [|t ts IH]; intros pg Hts; simpl; [intros ?; split_and!; [done|done|]; intros; split; [done|set_solver]|].
  intros Hb. destruct (IH _ ltac:(set_solver) Hb) as (Hb1 & Hsub & Hok1).
  destruct (plan_target_ok digest m w variants creds pg t ltac:(set_solver) Hb1) as (Hb2 & Hsub2 & Hok2).
  split_and!; [done|set_solver|]. intros Hok. destruct (Hok2 Hok) as [Hok' Hn]. destruct (Hok1 Hok') as [? Hall]. split; [done|].
  intros t' [->|Ht]%elem_of_cons; [by eapply needs_mono|by apply Hall].
Qed.

Lemma resolve_targets_reachable seen ts ts' bs :
  resolve_targets nodes online seen ts = Ok (ts', bs) →
  tg_node <$> ts' = tg_node <$> ts ∧ (∀ t, t ∈ ts → is_Some (nodes !! tg_node t)) ∧ NoDup (tg_node <$> ts) ∧ (∀ t, t ∈ ts → tg_node t ∉ seen) ∧
  (bs = [] → ∀ t, t ∈ ts' → reachable t).
Proof.
  revert seen ts' bs. induction ts as [|t ts IH]; intros seen ts' bs; simpl; [intros [= <- <-]; split_and!; [done|set_solver|constructor|set_solver|set_solver]|].
  destruct (bool_decide (tg_node t = "")); [done|]. destruct (bool_decide_reflect (tg_node t ∈ seen)) as [|Hseen]; [done|].
  destruct (nodes !! tg_node t) as [inv|] eqn:En; [|done]. destruct (resolve_targets nodes online (tg_node t :: seen) ts) as [[ts1 bs1]|] eqn:Er; simpl; [|done].
  destruct (IH _ _ _ Er) as (H1 & H2 & H3 & H4 & H5). intros [= <- <-]. split_and!.
  - rewrite !fmap_cons. simpl. by f_equal.
  - intros t' [->|?]%elem_of_cons; [by eexists|by apply H2].
  - constructor; [|done]. rewrite list_elem_of_fmap. intros (t' & E & Ht'). apply (H4 t' Ht'). rewrite E. apply list_elem_of_here.
  - intros t' [->|Ht']%elem_of_cons; [done|]. specialize (H4 t' Ht'). set_solver.
  - intros Hb. apply app_eq_nil in Hb as [B1%when_block_nil Hb]. apply app_eq_nil in Hb as [B2%when_block_nil Hb]. apply app_eq_nil in Hb as [B3%when_block_nil Hb].
    intros t' [->|Ht']%elem_of_cons; [|by apply H5]. apply negb_false_iff in B1, B2. split; [done|]. exists inv. split_and!; [done|done|]. simpl.
    unfold choose_root in *. destruct (find _ (nr_roots inv)) as [root|] eqn:Ef; [|done]. apply find_some in Ef as [Hin [Hw _]%andb_prop].
    exists root. split_and!; [by apply list_elem_of_In|done|done].
Qed.

(** *** One resource per device and content *)

(** Where the specifications of a target put a resource *)
Definition home (inv : NodeReport) (root : string) (s : ResourceSpec) : string :=
  match rs_kind s with
  | ResourceRecipe => Join [nr_recipe_root inv; trim_prefix "sha256:" (s_digest (rs_source s))]
  | ResourceImage => nr_image_root inv
  | ResourceArtifact =>
      match s_type (rs_source s) with
      | SourceHuggingFace => Join [root; "hub"; model_dir (s_reference (rs_source s))]
      | SourceOCI => Join [root; "oci"; trim_prefix "sha256:" (s_digest (rs_source s))]
      | _ => Join [root; "files"; trim_prefix "sha256:" (s_digest (rs_source s))]
      end
  end.

Definition homed (inv : NodeReport) (root : string) (s : ResourceSpec) : Prop :=
  rs_destination s = home inv root s ∧ rs_platform s = match rs_kind s with ResourceImage => nr_platform inv | _ => "" end.

Lemma selectedArtifact_homed inv a variant root spec : selectedArtifact parse_url a variant root = Some spec → homed inv root spec.
Proof.
  unfold selectedArtifact. destruct (EffectiveSource a variant) as [source|]; [|done]. destruct (Canonical _ _ _ _) as [identity|]; [|done].
  repeat case_bool_decide; try destruct (cut at_sign _) as [[x y] z]; destruct (Validate _ _); intros [= <-]; done.
Qed.

Lemma imageSpec_homed i inv node creds tb spec tb' root : image i inv node creds tb = (Some spec, tb') → homed inv root spec.
Proof.
  unfold imageSpec. destruct (_ || _); [done|]. destruct (negb _); [done|]. set (t := image_target i inv).
  assert (∀ m n, homed inv root (with_size n (with_manifest m t)) ∧ homed inv root (with_manifest m t)) as Hh by done.
  assert (∀ s, image_origin parse_url hash secrets http decode_doc decode_platform attempts t creds = Some s → homed inv root s) as Horigin.
  { intros s. unfold image_origin, checked.
    assert ((material ← credential parse_url secrets t creds; m ← resolve_manifest hash http decode_doc decode_platform t material;
      if Validate parse_url (with_manifest m t) then Some (with_manifest m t) else None) = Some s → homed inv root s) as H.
    { intros (? & _ & (m & _ & H)%bind_Some)%bind_Some. destruct (Validate _ _); [|done]. simplify_eq. apply (proj2 (Hh m None)). }
    destruct (retained attempts t); [|exact H]. destruct (_ && _); [intros [= <-]; apply (proj2 (Hh _ None))|exact H]. }
  destruct (if _ : bool then _ else _) as [[out|] tb1]; [|intros [= H _]; by apply Horigin].
  destruct (bool_decide _); [|intros [= H _]; by apply Horigin]. unfold checked. destruct (Validate _ _); [|done]. intros [= <- _]. apply (proj1 (Hh _ _)).
Qed.

Lemma image_specs_homed inv node creds imgs tb ss tb' root spec : images inv node creds imgs tb = (ss, tb') → Some spec ∈ ss → homed inv root spec.
Proof.
  revert tb ss. induction imgs as [|i imgs IH]; intros tb ss; simpl; [intros [= <- _]; set_solver|].
  destruct (image i inv node creds tb) as [s tb1] eqn:Ei. destruct (images inv node creds imgs tb1) as [ss' tb2] eqn:Es.
  intros [= <- <-] [<-|H]%elem_of_cons; [by eapply imageSpec_homed|by eapply IH].
Qed.

Lemma reported_elem code ss specs blocks spec : reported code ss = (specs, blocks) → spec ∈ specs → Some spec ∈ ss.
Proof. unfold reported. intros [= <- _]. rewrite list_elem_of_omap. intros (s & Hs & Es). simpl in Es. by subst. Qed.

Lemma target_specs_homed digest m w variants creds inv target tb specs blocks tb' spec :
  specs_of digest m w variants creds inv target tb = (specs, blocks, tb') → spec ∈ specs → homed inv (tg_root target) spec.
Proof.
  unfold target_specs. destruct (if bool_decide (nr_recipe_root inv = "") then _ else _) as [package pb] eqn:Ep.
  destruct (reported _ (artifact_specs parse_url m variants target)) as [as_ ab] eqn:Ea.
  destruct (images inv (tg_node target) creds _ tb) as [iss tb1] eqn:Ei. destruct (reported _ iss) as [is_ ib] eqn:Eis. intros [= <- _ _].
  rewrite !elem_of_app. intros [H|[H|H]].
  - destruct (bool_decide _); simplify_eq; [set_solver|]. by apply list_elem_of_singleton in H as ->.
  - apply (reported_elem _ _ _ _ _ Ea) in H. unfold artifact_specs in H. destruct (bool_decide (tg_root target = "")); [set_solver|].
    apply list_elem_of_fmap in H as (a & H & _). symmetry in H. by eapply selectedArtifact_homed.
  - apply (reported_elem _ _ _ _ _ Eis) in H. by eapply image_specs_homed.
Qed.

(** Content has one home *)
Lemma homed_same inv root s s' :
  homed inv root s → homed inv root s' → Validate parse_url s = true → Validate parse_url s' = true → rs_kind s = rs_kind s' → rs_identity s = rs_identity s' →
  rs_destination s = rs_destination s' ∧ rs_platform s = rs_platform s'.
Proof.
  intros [H1 H2] [H1' H2'] Hv Hv' Hk Hi. rewrite H2, H2', <- Hk. split; [|done]. rewrite H1, H1'. unfold home. rewrite <- Hk.
  apply Validate_pinned in Hv, Hv'. rewrite <- Hi in Hv'. destruct (pinned_inj _ _ _ Hv Hv') as (Er & _ & Ed & [Et|[Et Et']]).
  - by rewrite Er, Ed, Et.
  - rewrite Er, Ed. destruct (rs_kind s); [|done..]. unfold file_like in Et, Et'. by destruct (s_type (rs_source s)), (s_type (rs_source s')).
Qed.

Lemma look_content refresh inv target creds spec tb si tb' : see refresh inv target creds spec tb = (si, tb') → same_content spec (si_spec si).
Proof.
  unfold look. destruct (_ && _); [|by intros [= <- _]]. destruct (candidates _ _ _ _ _) as [[[o|] dest] tb1]; [|by intros [= <- _]].
  destruct (recordObservation _ _ _ _) as [ok tb2]. by intros [= <- _].
Qed.

Definition content (r : Resource) : string * ResourceKind * string := (re_node r, rs_kind (re_spec r), rs_identity (re_spec r)).

(** Every resource was planned once, from a specification of its target *)
Record tidy (ts : list Target) (pg : Progress) : Prop := {
  ti_origin r : r ∈ pg_resources pg → ∃ t inv spec, t ∈ ts ∧ tg_node t = re_node r ∧ nodes !! re_node r = Some inv ∧ Validate parse_url spec = true ∧
    homed inv (tg_root t) spec ∧ same_content spec (re_spec r) ∧ resource_key hash (re_node r) spec ∈ pg_seen pg ∧ re_key r = resource_key hash (re_node r) (re_spec r);
  ti_distinct : NoDup (content <$> pg_resources pg);
}.

Lemma plan_spec_tidy refresh ts inv t creds pg spec :
  NoDup (tg_node <$> ts) → t ∈ ts → nodes !! tg_node t = Some inv → homed inv (tg_root t) spec → tidy ts pg →
  tidy ts (plan_spec parse_url hash secrets nodes online new_id now answer locks refresh inv t creds pg spec).
Proof.
  intros Hnd Ht Hn Hh Hti. unfold plan_spec. destruct (Validate parse_url spec) eqn:Ev; simpl; [|by split; [apply (ti_origin _ _ Hti)|apply (ti_distinct _ _ Hti)]].
  destruct (bool_decide_reflect (resource_key hash (tg_node t) spec ∈ pg_seen pg)) as [|Hseen]; [done|].
  destruct (see refresh inv t creds spec (pg_tables pg)) as [si tb1] eqn:El. destruct (act refresh (tg_node t) creds si tb1) as [[a peer] tb2] eqn:Ea.
  apply look_content in El. set (r := settle hash (tg_node t) creds si a peer). split; cbn [pg_resources pg_seen].
  - intros r' [Hr'|Hr']%elem_of_app.
    + destruct (ti_origin _ _ Hti r' Hr') as (t' & inv' & s & ? & ? & ? & ? & ? & ? & ? & ?). exists t', inv', s. split_and!; [done..|set_solver|done].
    + apply list_elem_of_singleton in Hr' as ->. exists t, inv, spec. split_and!; [done..|set_solver|done].
  - rewrite fmap_app. apply NoDup_app. split_and!; [apply (ti_distinct _ _ Hti)| |apply NoDup_singleton].
    intros x (r' & -> & Hr')%list_elem_of_fmap Hx. apply list_elem_of_singleton in Hx. unfold content in Hx. simpl in Hx. injection Hx as Hx1 Hx2 Hx3.
    destruct (ti_origin _ _ Hti r' Hr') as (t' & inv' & s & Ht' & Hn' & Hi' & Hv & Hh' & (Hk & Hid & _) & Hin & _).
    assert (t' = t) as ->.
    { apply list_elem_of_lookup in Ht as [j Hj], Ht' as [j' Hj']. assert (j' = j) as ->; [|congruence].
      eapply (NoDup_lookup _ j' j (tg_node t)); [exact Hnd|rewrite list_lookup_fmap, Hj'; simpl; f_equal; congruence|by rewrite list_lookup_fmap, Hj]. }
    assert (inv' = inv) as -> by congruence. destruct El as (Ek & Ei & _).
    destruct (homed_same inv (tg_root t) s spec Hh' Hh Hv Ev ltac:(congruence) ltac:(congruence)) as [Ed Ep].
    apply Hseen. unfold resource_key in *. rewrite <- Ed, <- Ep, <- Ek, <- Ei, <- Hx1, <- Hx2, <- Hx3, Hk, Hid. done.
Qed.

Lemma gather_tidy refresh digest m w variants creds ts ts' pg :
  NoDup (tg_node <$> ts) → ts' ⊆ ts → tidy ts pg → tidy ts (foldl (per_target digest m w variants refresh creds) pg ts').
Proof.
  intros Hnd. revert pg. induction ts' as [|t ts' IH]; intros pg Hts Hti; simpl; [done|]. apply IH; [set_solver|]. unfold plan_target.
  destruct (nodes !! tg_node t) as [inv|] eqn:En; [|done]. destruct (specs_of digest m w variants creds inv t (pg_tables pg)) as [[specs blocks] tb] eqn:Es.
  assert (∀ s, s ∈ specs → homed inv (tg_root t) s) as Hh by (intros s; by eapply target_specs_homed).
  assert (tidy ts (mkProgress tb (pg_seen pg) (pg_observations pg) (pg_resources pg) (pg_blocks pg ++ blocks))) as Hti'
    by (split; [apply (ti_origin _ _ Hti)|apply (ti_distinct _ _ Hti)]).
  revert Hti'. generalize (mkProgress tb (pg_seen pg) (pg_observations pg) (pg_resources pg) (pg_blocks pg ++ blocks)). clear Es.
  induction specs as [|s specs IHs]; intros pg0 Hpg0; simpl; [done|]. apply IHs; [intros s' Hs'; apply Hh; set_solver|].
  apply plan_spec_tidy; [done|set_solver|done|apply Hh; set_solver|done].
Qed.

(** So the keys of a plan are distinct *)
Lemma tidy_keys ts pg : tidy ts pg → NoDup (re_key <$> pg_resources pg).
Proof.
  intros Hti. pose proof (ti_distinct _ _ Hti) as Hd. apply NoDup_alt. intros i j key Hi Hj. rewrite NoDup_alt in Hd.
  rewrite list_lookup_fmap in Hi, Hj. apply fmap_Some in Hi as (r & Hr & ->). apply fmap_Some in Hj as (r' & Hr' & E).
  apply (Hd i j (content r)); [by rewrite list_lookup_fmap, Hr|]. rewrite list_lookup_fmap, Hr'. simpl. f_equal.
  destruct (ti_origin _ _ Hti r (list_elem_of_lookup_2 _ _ _ Hr)) as (t & inv & s & _ & _ & Hn & Hv & _ & (_ & Hi & _) & _ & Hk).
  destruct (ti_origin _ _ Hti r' (list_elem_of_lookup_2 _ _ _ Hr')) as (t' & inv' & s' & _ & _ & Hn' & Hv' & _ & (_ & Hi' & _) & _ & Hk').
  rewrite Hk, Hk' in E. apply Validate_identity_line in Hv, Hv'. rewrite <- Hi in Hv. rewrite <- Hi' in Hv'.
  destruct (resource_key_inj _ _ _ _ E Hv Hv' ltac:(by eexists) ltac:(by eexists)) as (? & ? & ?). unfold content. congruence.
Qed.

(** *** The plan *)

Context (recipes : gmap string Manifest) (profiles : gmap string (string * gmap string string)).
Context (encode_binding : Z * gmap string string * string * list Target * list (ResourceSpec * string * Action * string * string * string * bool) → string).
Notation the_plan := (plan parse_url hash secrets nodes online new_id now answer http decode_doc decode_platform attempts locks recipes profiles encode_binding).
Notation choices := (choose nodes online attempts recipes profiles).

(** What [choose] decides *)
Record chosen (req : PlanRequest) (ch : Choices) : Prop := {
  cn_recipe : recipes !! rq_recipe req = Some (ch_manifest ch);
  cn_runtime : m_workloads (ch_manifest ch) !! Z.to_nat (ch_workload ch) = Some (ch_runtime ch);
  cn_targets : tg_node <$> ch_targets ch ≡ₚ tg_node <$> rq_targets req;
  cn_distinct : NoDup (tg_node <$> ch_targets ch);
  cn_reachable : ch_blocks ch = [] → ∀ t, t ∈ ch_targets ch → reachable t;
  cn_prior : rq_resume req ≠ "" → ∃ a, ch_prior ch = Some a ∧ attempt_of attempts (rq_recipe req) (rq_resume req) = Some a ∧
    resumable (at_state a) = true ∧ same_choices (at_plan a) (rq_recipe req) (ch_workload ch) (ch_variants ch) (ch_targets ch) = true;
}.

Lemma choose_chosen req ch : choices req = Ok ch → chosen req ch.
Proof.
  unfold choose. destruct (_ || _); [done|]. destruct (request_credentials attempts req) as [creds|]; simpl; [|done]. destruct (_ <? _); [done|].
  destruct (request_variants profiles req) as [requested|]; simpl; [|done]. destruct (recipes !! rq_recipe req) as [m|] eqn:Em; [|done].
  destruct (resolve_targets nodes online [] (rq_targets req)) as [[ts bs]|] eqn:Et; simpl; [|done].
  destruct (choose_runtime _ _ _ _) as [i|]; simpl; [|done]. destruct (negb _); [done|].
  destruct (plan_variants requested ∅ (m_artifacts m)) as [variants|]; simpl; [|done].
  destruct (resumed _ _ _ _ _ _) as [prior|] eqn:Ep; simpl; [|done]. destruct (negb _); [done|].
  destruct (m_workloads m !! Z.to_nat i) as [w|] eqn:Ew; [|done]. intros [= <-].
  destruct (resolve_targets_reachable _ _ _ _ Et) as (H1 & _ & H3 & _ & H5). assert (merge_sort by_node ts ≡ₚ ts) as Hperm by apply merge_sort_Permutation.
  split; simpl; [done|done|by rewrite Hperm, H1|by rewrite Hperm, H1| |].
  - intros Hb t Ht. rewrite Hperm in Ht. by apply H5.
  - intros Hr. unfold resumed in Ep. rewrite bool_decide_eq_false_2 in Ep by done. destruct (attempt_of _ _ _) as [a|] eqn:Ea; [|done].
    destruct (resumable (at_state a)) eqn:Es; [|done]. simpl in Ep. destruct (same_choices _ _ _ _ _) eqn:Ec; [|done]. simplify_eq. by exists a.
Qed.

(** Blockers are only added *)
Lemma blocks_kept digest m w variants creds ts pg :
  pg_blocks (foldl (per_target digest m w variants true creds) pg ts) = [] → pg_blocks pg = [].
Proof.
  assert (∀ inv t pg spec, pg_blocks (one inv t creds pg spec) = [] → pg_blocks pg = []) as Hone.
  { intros inv t pg0 spec. unfold plan_spec. destruct (negb _); [by intros [? _]%app_eq_nil|]. destruct (bool_decide _); [done|].
    destruct (see _ _ _ _ _ _) as [si tb1]. destruct (act _ _ _ _ _) as [[a peer] tb2]. by intros [? _]%app_eq_nil. }
  assert (∀ inv t specs pg, pg_blocks (foldl (one inv t creds) pg specs) = [] → pg_blocks pg = []) as Hspecs.
  { intros inv t specs. induction specs as [|x specs IH]; intros pg0; simpl; [done|]. intros H%IH. by apply Hone in H. }
  revert pg. induction ts as [|t ts IH]; intros pg; simpl; [done|]. intros H%IH. revert H. unfold plan_target.
  destruct (nodes !! tg_node t) as [inv|]; [|done]. destruct (specs_of _ _ _ _ _ _ _ _) as [[specs blocks] tb]. intros H%Hspecs.
  by apply app_eq_nil in H as [? _].
Qed.

(** There is room for a group of resources: twice what is still to be fetched and the reserve *)
Definition room (obs : Observations) (ms : list PlanResource) : Prop :=
  Forall size_known ms ∧ ∃ r o available, r ∈ ms ∧ obs !! pr_key r = Some o ∧ so_available o = Some available ∧
    2 * total ms + StorageReserveBytes ≤ available.

Lemma storage_room resources obs :
  (storagePlan resources obs ≫= storage_blocks) = [] →
  ∀ r, r ∈ resources → let ms := members obs (storage_key obs r) resources in total ms < 2 ^ 62 → room obs ms.
Proof.
  intros Hb r Hr ms Ht. destruct (storagePlan_exact resources obs) as (keys & _ & _ & Hk & Hf).
  assert (storage_key obs r ∈ keys) as [n Hn]%list_elem_of_lookup by (apply Hk; by exists r).
  destruct (Forall2_lookup_l _ _ _ _ _ Hf Hn) as (st & Hst%list_elem_of_lookup_2 & He).
  assert (storage_blocks st = []) as Hs.
  { destruct (storage_blocks st) as [|d ds] eqn:E; [done|]. exfalso. eapply (not_elem_of_nil d). rewrite <- Hb. apply list_elem_of_bind. exists st. rewrite E. set_solver. }
  unfold storage_blocks in Hs. destruct (st_sufficient st) as [[]|] eqn:E; [|done..].
  destruct (es_sufficient _ _ _ He Ht true E) as (Hsz & available & Ha & [Hle _]). split; [done|].
  destruct (es_available _ _ _ He available Ha) as [(r' & o & ? & ? & ?) _]. exists r', o, available. split_and!; [done..|by apply Hle].
Qed.

(** What a ready plan is *)
Lemma ready_plan_cases req tb p tb' :
  the_plan true req tb = (Ok p, tb') → pl_ready p = true →
  (∃ m w, recipes !! rq_recipe req = Some m ∧ m_workloads m !! Z.to_nat (pl_workload p) = Some w ∧
    tg_node <$> pl_targets p ≡ₚ tg_node <$> rq_targets req ∧ NoDup (tg_node <$> pl_targets p) ∧
    ∀ t, t ∈ pl_targets p → reachable t ∧ needs (rq_recipe req) m w (pl_variants p) (pl_resources p) t) ∧
  (∀ r, r ∈ pl_resources p → obtained locks r ∧ pinned (rs_source (re_spec r)) (rs_identity (re_spec r)) ∧ re_required r = true) ∧
  ∃ obs, let rs := storage_view <$> pl_resources p in
    ∀ r, r ∈ rs → total (members obs (storage_key obs r) rs) < 2 ^ 62 → room obs (members obs (storage_key obs r) rs).
Proof.
  unfold plan. destruct (choices req) as [ch|] eqn:Ech; [|done]. destruct (choose_chosen _ _ Ech) as [Hm Hw Hts Hnd Hre _]. unfold gather.
  set (pg := foldl _ _ _). unfold conclude. destruct (_ <? _); [done|]. destruct (negb _); [done|]. destruct (match _ with Some _ => _ | None => _ end); [done|].
  intros [= <- _]. cbn [pl_ready pl_targets pl_workload pl_variants pl_resources]. rewrite bool_decide_eq_true.
  intros Hb. apply app_eq_nil in Hb as [Hb1 Hb2]. assert (merge_sort by_key (pg_resources pg) ≡ₚ pg_resources pg) as Hp by apply merge_sort_Permutation.
  pose proof (Hre (blocks_kept _ _ _ _ _ _ _ Hb1)) as Hreach.
  destruct (gather_ok _ _ _ _ _ _ _ Hreach Hb1) as (_ & _ & Hok). destruct Hok as [Hok Hn]; [by split; intros ? ?%not_elem_of_nil|].
  fold pg in Hok, Hn. split_and!.
  - exists (ch_manifest ch), (ch_runtime ch). split_and!; [done..|]. intros t Ht. split; [by apply Hreach|].
    eapply needs_mono; [|by apply Hn]. intros r. by rewrite Hp.
  - intros r Hr. rewrite Hp in Hr. by destruct (po_resource _ Hok r Hr) as (? & ? & _ & ?).
  - exists (pg_observations pg). intros rs r Hr. by apply storage_room.
Qed.


(** *** Resuming and submitting *)

Lemma frozen_map_lookup rs k r : frozen_map rs !! k = Some r → r ∈ rs ∧ re_key r = k.
Proof.
  unfold frozen_map. enough (∀ (m : gmap string Resource), foldl (λ m r, <[re_key r := r]> m) m rs !! k = Some r → m !! k = Some r ∨ (r ∈ rs ∧ re_key r = k)) as H.
  { intros [E|?]%H; [by rewrite lookup_empty in E|done]. }
  induction rs as [|x rs IH]; intros m; simpl; [by left|]. intros [E|[? ?]]%IH; [|right; set_solver].
  rewrite lookup_insert in E. case_decide; [right; simplify_eq; set_solver|by left].
Qed.

Lemma frozen_map_dom rs k : is_Some (frozen_map rs !! k) ↔ k ∈ re_key <$> rs.
Proof.
  split; [intros [r [? <-]%frozen_map_lookup]; by apply list_elem_of_fmap_2|]. unfold frozen_map.
  enough (∀ (m : gmap string Resource), is_Some (m !! k) ∨ k ∈ re_key <$> rs → is_Some (foldl (λ m r, <[re_key r := r]> m) m rs !! k)) as H by (intros ?; apply H; by right).
  induction rs as [|x rs IH]; intros m H; cbn [foldl]; [destruct H as [?|?%not_elem_of_nil]; done|]. apply IH. rewrite fmap_cons, elem_of_cons in H.
  rewrite lookup_insert. case_decide; [left; by eexists|]. destruct H as [?|[->|?]]; [by left|done|by right].
Qed.

Lemma frozen_same_spec prior rs :
  NoDup (re_key <$> rs) → frozen_same prior rs = true →
  (∀ key, key ∈ re_key <$> rs ↔ key ∈ re_key <$> prior) ∧
  ∀ r, r ∈ rs → ∃ before, before ∈ prior ∧ re_key before = re_key r ∧ rs_manifest (re_spec before) = rs_manifest (re_spec r) ∧ rs_index (re_spec before) = rs_index (re_spec r).
Proof.
  intros Hnd. unfold frozen_same. intros [Hsz Hall]%andb_prop. apply Z.eqb_eq, Nat2Z.inj in Hsz. rewrite forallb_forall in Hall.
  assert (∀ r, r ∈ rs → ∃ before, frozen_map prior !! re_key r = Some before ∧ rs_manifest (re_spec before) = rs_manifest (re_spec r) ∧ rs_index (re_spec before) = rs_index (re_spec r)) as Hb.
  { intros r Hr%list_elem_of_In%Hall. destruct (frozen_map prior !! re_key r) as [before|]; [|done]. apply andb_prop in Hr as [?%bool_decide_eq_true ?%bool_decide_eq_true].
    by exists before. }
  split; [|intros r Hr; destruct (Hb r Hr) as (before & [? ?]%frozen_map_lookup & ? & ?); by exists before].
  assert ((list_to_set (re_key <$> rs) : gset string) ≡ dom (frozen_map prior)) as Heq.
  { apply set_subseteq_size_equiv.
    - intros k (r & -> & Hr)%elem_of_list_to_set%list_elem_of_fmap. apply elem_of_dom. destruct (Hb r Hr) as (before & -> & _). by eexists.
    - rewrite size_dom, size_list_to_set, length_fmap by done. lia. }
  intros key. rewrite <- (frozen_map_dom prior key), <- elem_of_dom, <- (Heq key), elem_of_list_to_set. done.
Qed.

(** The resources of a plan have distinct keys *)
Lemma plan_keys refresh req tb p tb' : the_plan refresh req tb = (Ok p, tb') → NoDup (re_key <$> pl_resources p).
Proof.
  unfold plan. destruct (choices req) as [ch|] eqn:Ech; [|done]. destruct (choose_chosen _ _ Ech) as [_ _ _ Hnd _ _]. unfold gather. set (pg := foldl _ _ _).
  assert (tidy (ch_targets ch) pg) as Hti.
  { apply gather_tidy; [done|done|]. split; [intros ? ?%not_elem_of_nil; done|constructor]. }
  unfold conclude. destruct (_ <? _); [done|]. destruct (negb _); [done|]. destruct (match _ with Some _ => _ | None => _ end); [done|].
  intros [= <- _]. cbn [pl_resources]. rewrite (merge_sort_Permutation by_key). by eapply tidy_keys.
Qed.

(** The same place and the same image *)
Definition same_resource (before r : Resource) : Prop :=
  re_key before = re_key r ∧ rs_manifest (re_spec before) = rs_manifest (re_spec r) ∧ rs_index (re_spec before) = rs_index (re_spec r).

(** A resumed download is the download that was begun: the attempt belongs to the recipe and is over, and the new plan has
    its runtime, variants and devices with their roots, and exactly its resources, at the same places and with the same
    image manifests. *)
Theorem resumed_plan_same refresh req tb p tb' :
  the_plan refresh req tb = (Ok p, tb') → rq_resume req ≠ "" →
  ∃ a, attempt_of attempts (rq_recipe req) (rq_resume req) = Some a ∧ resumable (at_state a) = true ∧
    pl_recipe p = pl_recipe (at_plan a) ∧ pl_workload p = pl_workload (at_plan a) ∧ pl_variants p = pl_variants (at_plan a) ∧ pl_targets p = pl_targets (at_plan a) ∧
    (∀ key, key ∈ re_key <$> pl_resources p ↔ key ∈ re_key <$> pl_resources (at_plan a)) ∧
    ∀ r, r ∈ pl_resources p → ∃ before, before ∈ pl_resources (at_plan a) ∧ same_resource before r.
Proof.
  intros Hp Hres. pose proof (plan_keys _ _ _ _ _ Hp) as Hnd. revert Hp. unfold plan. destruct (choices req) as [ch|] eqn:Ech; [|done].
  destruct (choose_chosen _ _ Ech) as [_ _ _ _ _ Hpr]. destruct (Hpr Hres) as (a & Ha & Hat & Hst & Hsame). unfold conclude. rewrite Ha.
  destruct (_ <? _); [done|]. destruct (negb _); [done|]. destruct (frozen_same _ _) eqn:Ef; [|done]. intros [= <- _]. cbn [pl_resources negb] in *.
  exists a. unfold same_choices in Hsame. rewrite !andb_true_iff, !bool_decide_eq_true, Z.eqb_eq in Hsame. destruct Hsame as (((E1 & E2) & E3) & E4).
  split_and!; [done|done|done|done|done|done|..]; by apply frozen_same_spec.
Qed.

Notation submit := (Submit parse_url hash secrets nodes online new_id now answer http decode_doc decode_platform attempts locks recipes profiles encode_binding).
Notation acquire := (AcquireExisting parse_url hash secrets nodes online new_id now answer http decode_doc decode_platform attempts locks recipes profiles encode_binding).

(** What the digest of a plan stands for *)
Definition bound (p : Plan) := (pl_workload p, pl_variants p, pl_recipe p, pl_targets p, binding <$> pl_resources p).

Lemma plan_digest refresh req tb p tb' : the_plan refresh req tb = (Ok p, tb') → pl_digest p = "sha256:" +:+ hash (encode_binding (bound p)).
Proof.
  unfold plan. destruct (choices req) as [ch|]; [|done]. unfold conclude. destruct (_ <? _); [done|]. destruct (negb _); [done|].
  destruct (match _ with Some _ => _ | None => _ end); [done|]. by intros [= <- _].
Qed.

(** A download runs only as it was reviewed: where a plan is submitted under the digest of a reviewed one, the plan that
    goes into the run, made anew, is ready and has the reviewed recipe, runtime, variants and devices, and the reviewed
    resources with their places, actions, sources and credentials; only sizes and observations may differ. *)
Theorem submitted_plan_reviewed jobs req p0 tb inp tb' :
  pl_digest p0 = "sha256:" +:+ hash (encode_binding (bound p0)) →
  (∀ b, hash (encode_binding b) = hash (encode_binding (bound p0)) → b = bound p0) →
  submit jobs req (pl_digest p0) tb = (Ok inp, tb') →
  bound (in_plan inp) = bound p0 ∧ pl_ready (in_plan inp) = true ∧ in_predecessor inp = rq_resume req.
Proof.
  intros Hd Hinj. unfold Submit. destruct (with_prior_credentials attempts req) as [req'|] eqn:Er; [|done].
  assert (rq_resume req' = rq_resume req) as Hr.
  { unfold with_prior_credentials in Er. destruct (_ && _); [|by simplify_eq]. destruct (attempt_of _ _ _); [|done]. by simplify_eq. }
  destruct (the_plan true req' tb) as [[p|] tb1] eqn:Ep; [|done]. destruct (bool_decide_reflect (pl_digest p0 = pl_digest p)) as [E|]; [|by rewrite orb_true_r].
  destruct (_ || _); [done|]. destruct (pl_ready p) eqn:Hready; [|done]. destruct jobs; [|done]. simpl. intros [= <- _]. simpl. split_and!; [|done..].
  apply plan_digest in Ep. apply Hinj. rewrite Hd, Ep in E. by injection E.
Qed.

(** A launch that requires its files to exist goes on only if they do: every device of the request is online and has, for
    the recipe package, every artifact and every image, just now verified the exact content at the place of the plan; and
    where the launch was reviewed, at the reviewed places, on the reviewed devices, in the reviewed variants. *)
Theorem existing_resources_verified req reviewed tb tb' :
  acquire req reviewed tb = (Ok tt, tb') →
  ∃ p m w, the_plan true req tb = (Ok p, tb') ∧ recipes !! rq_recipe req = Some m ∧ m_workloads m !! Z.to_nat (pl_workload p) = Some w ∧
    tg_node <$> pl_targets p ≡ₚ tg_node <$> rq_targets req ∧
    (∀ t, t ∈ pl_targets p → reachable t ∧ needs (rq_recipe req) m w (pl_variants p) (pl_resources p) t) ∧
    (∀ r, r ∈ pl_resources p → ∃ size out, answered (re_node r) (with_size size (re_spec r)) out ∧ co_state out = ResourceAvailable ∧ is_Some (co_verified out)) ∧
    ∀ q, reviewed = Some q →
      pl_variants p = pl_variants q ∧ pl_targets p = pl_targets q ∧ (∀ key, key ∈ re_key <$> pl_resources p ↔ key ∈ re_key <$> pl_resources q).
Proof.
  unfold AcquireExisting. destruct (the_plan true req tb) as [[p|] tb1] eqn:Ep; [|done].
  destruct (match reviewed with Some _ => _ | None => _ end) eqn:Er; [done|]. destruct (pl_ready p) eqn:Hr; [|done].
  destruct (forallb on_device (pl_resources p)) eqn:Ed; [|done]. destruct (bool_decide _); [done|]. intros [= <-].
  destruct (ready_plan_cases _ _ _ _ Ep Hr) as ((m & w & Hm & Hw & Hts & Hnd & Hn) & Hres & _). exists p, m, w. split_and!; [done..| |].
  - intros r Hin. destruct (Hres r Hin) as ([Hob _] & _ & Hreq). rewrite forallb_forall in Ed. specialize (Ed r (proj1 (list_elem_of_In _ _) Hin)).
    unfold on_device in Ed. rewrite Hreq in Ed. simpl in Ed. apply andb_prop in Ed as [Ed _]. apply andb_prop in Ed as [Ha%bool_decide_eq_true _].
    by rewrite Ha in Hob.
  - intros q ->. apply negb_false_iff in Er. unfold reviewed_same, same_choices in Er. rewrite !andb_true_iff, !bool_decide_eq_true in Er.
    destruct Er as ((((_ & E3) & E4) & Ef) & _). split_and!; [done..|]. eapply frozen_same_spec; [by eapply plan_keys|done].
Qed.
End facts.

(** ** A small installation *)

(** Two devices; the weights are on the second, the image and the package on both *)
Definition sample_report (peer : string) : NodeReport :=
  mkReport [] [mkCacheRoot "/cache" "" true] [ProtocolFeature] peer "/recipes" "/images" "linux/amd64".

Definition sample_nodes : gmap string NodeReport := {["n1" := sample_report "10.0.0.1:7001"; "n2" := sample_report "10.0.0.2:7001"]}.

Definition sample_weights : Artifact :=
  mkArtifact "weights" "model" 1000 (Some (mkArtSource "file" "" "" sample_digest)) "" [] "/weights".

Definition sample_workload : Workload :=
  mkWorkload None (mkImage "busybox:1.36" sample_digest) [] [] [] 0 None None "" [0] "" None None None [] None.

Definition sample_recipe : Manifest := mkManifest "model" None 1 None None [sample_weights] [] [sample_workload] [] None None.

Definition sample_recipes : gmap string Manifest := {[sample_digest := sample_recipe]}.

(** The device has everything; or, the first one, everything but its artifacts *)
Definition sample_answer (complete : bool) (i : nat) (node : string) (s : ResourceSpec) : option CommandOutput :=
  let there := complete || bool_decide (node = "n2") || negb (bool_decide (rs_kind s = ResourceArtifact)) in
  Some (mkCommandOutput "item" (rs_identity s) (rs_destination s) (rs_platform s) (if there then Some 0 else None)
          (if there then ResourceAvailable else ResourceMissing) (Some 1000)
          (Some (rs_destination s, mkStorageObservation "disk" (Some (2 ^ 50)) None))
          (if there then "tree" else "") (if there then Some 1000 else None) (rs_index s) sample_digest None).

Definition sample_tables : Tables :=
  mkTables 0 {[("file://" +:+ sample_digest) := mkArtifactRow "file" "" sample_digest]}
    {[("file://" +:+ sample_digest, ("n2", "/cache/files/b")) := mkPlacementRow "valid" (Some 0) 1000]}.

Definition sample_request (resume : string) : PlanRequest := mkRequest sample_digest [mkTarget "n1" ""] None ∅ "" None resume.

Notation in_sample f complete attempts := (f no_urls id None sample_nodes (λ _, true) (λ _, "item") (λ _, 0) (sample_answer complete)
  (λ _ _, None) (λ _, None) (λ _, None) attempts ∅ sample_recipes ∅).

Definition plan_of (r : result string Plan * Tables) : Plan :=
  match fst r with Ok p => p | Err _ => mkPlan "" 0 ∅ [] [] [] [] false "" end.

Lemma plan_of_ready r : pl_ready (plan_of r) = true → r = (Ok (plan_of r), snd r).
Proof. by destruct r as [[p|] tb]. Qed.

Lemma sample_ids n : is_Some (sample_nodes !! n) → contains_byte newline n = false.
Proof.
  intros [v Hv]. unfold sample_nodes in Hv. rewrite lookup_insert in Hv. case_decide; subst; [done|]. rewrite lookup_singleton in Hv.
  by case_decide; subst.
Qed.

Definition sample_plan (complete : bool) (attempts : list Attempt) (resume : string) : result string Plan * Tables :=
  in_sample plan complete attempts (λ _, "") true (sample_request resume) sample_tables.


(** The plan of before, interrupted, resumed by a second one *)
Definition sample_attempts : list Attempt := [mkAttempt "run1" "interrupted" (plan_of (sample_plan false [] "")) None].

Lemma resumed_plan_same_witness :
  (re_action <$> pl_resources (plan_of (sample_plan true sample_attempts "run1")) = [ActionReuse; ActionReuse; ActionReuse]) ∧
  ∃ a, attempt_of sample_attempts sample_digest "run1" = Some a ∧
    pl_targets (plan_of (sample_plan true sample_attempts "run1")) = pl_targets (at_plan a).
Proof.
  split; [vm_compute; reflexivity|]. assert (pl_ready (plan_of (sample_plan true sample_attempts "run1")) = true) as Hr by (vm_compute; reflexivity).
  apply plan_of_ready in Hr. unfold sample_plan at 1 in Hr. assert (rq_resume (sample_request "run1") ≠ "") as Hne by discriminate.
  destruct (resumed_plan_same no_urls id None sample_nodes (λ _, true) (λ _, "item") (λ _, 0) (sample_answer true) (λ x y H, H) sample_ids ∅
    (λ _ _, None) (λ _, None) (λ _, None) sample_attempts sample_recipes ∅ (λ _, "") true (sample_request "run1") sample_tables _ _ Hr Hne)
    as (a & Ha & _ & _ & _ & _ & Ht & _).
  exists a. split; [exact Ha|exact Ht].
Defined.

(** An encoding that tells one value from any other *)
Definition marks `{EqDecision A} (a b : A) : string := if bool_decide (b = a) then "plan" else "".

Lemma marks_only `{EqDecision A} (a b b' : A) : b = a → marks a b' = marks a b → b' = b.
Proof. unfold marks. intros ->. rewrite (bool_decide_eq_true_2 (a = a)) by done. by case_bool_decide. Qed.

Definition sample_encoding := marks (bound (plan_of (sample_plan false [] ""))).

Lemma submitted_plan_reviewed_witness :
  let p0 := plan_of (in_sample plan false [] sample_encoding true (sample_request "") sample_tables) in
  let inp := in_sample Submit false [] sample_encoding true (sample_request "") (pl_digest p0) sample_tables in
  ∃ i tb, inp = (Ok i, tb) ∧ bound (in_plan i) = bound p0.
Proof.
  intros p0 inp. destruct inp as [[i|e] tb] eqn:E.
  - exists i, tb. split; [done|].
    assert (bool_decide (bound p0 = bound (plan_of (sample_plan false [] ""))) = true) as Hb by (vm_compute; reflexivity). apply bool_decide_eq_true in Hb.
    eapply (submitted_plan_reviewed no_urls id None sample_nodes (λ _, true) (λ _, "item") (λ _, 0) (sample_answer false) ∅
      (λ _ _, None) (λ _, None) (λ _, None) [] sample_recipes ∅ sample_encoding true (sample_request "") p0 sample_tables i tb); [| |exact E].
    + vm_compute. reflexivity.
    + intros b. exact (marks_only _ _ b Hb).
  - exfalso. assert (match fst inp with Ok _ => true | Err _ => false end = true) as H by (vm_compute; reflexivity). by rewrite E in H.
Defined.

Definition sample_acquire : result string unit * Tables :=
  in_sample AcquireExisting true [] (λ _, "") (sample_request "") (Some (plan_of (sample_plan true [] ""))) sample_tables.

Lemma acquired (r : result string unit * Tables) : match fst r with Ok _ => true | Err _ => false end = true → r = (Ok tt, snd r).
Proof. by destruct r as [[[]|] tb]. Qed.

Lemma existing_resources_verified_witness :
  let q := plan_of (sample_plan true [] "") in
  ∃ p tb', sample_plan true [] "" = (Ok p, tb') ∧ pl_targets p = pl_targets q ∧
    ∀ r, r ∈ pl_resources p → ∃ size out, answered sample_nodes (λ _, "item") (λ _, 0) (sample_answer true) (re_node r) (with_size size (re_spec r)) out.
Proof.
  intros q. assert (match fst sample_acquire with Ok _ => true | Err _ => false end = true) as Hrun by (vm_compute; reflexivity).
  apply acquired in Hrun. unfold sample_acquire at 1 in Hrun. fold q in Hrun.
  destruct (existing_resources_verified no_urls id None sample_nodes (λ _, true) (λ _, "item") (λ _, 0) (sample_answer true) (λ x y H, H) sample_ids ∅
    (λ _ _, None) (λ _, None) (λ _, None) [] sample_recipes ∅ (λ _, "") (sample_request "") (Some q) sample_tables _ Hrun)
    as (p & m & w & Hp & _ & _ & _ & _ & Hr & Hq).
  exists p, (snd sample_acquire). split_and!; [exact Hp|apply (Hq q eq_refl)|]. intros r Hin. destruct (Hr r Hin) as (size & out & Ho & _). by exists size, out.
Defined.
