(* ===== verification/AgentFiles.v ===== *)
(** * Paths on a device: [pathWithin] and [safeRelativePath] of [internal/agent/transfer.go], [safeDestination] of
      [acquisition.go]

    Every tree the agent writes is named by an absolute clean path; what [os.Lstat] says of a path is an argument. *)

From S2P Require Import Prelude GoStrings Paths.

(** What [os.Lstat] says *)
Inductive entry := EntryAbsent | EntryLink | EntryOther | EntryError.

Definition pathWithin (path root : string) : bool :=
  let path := Clean path in
  let root := Clean root in
  bool_decide (path = root) || has_prefix (root +:+ "/") path.

Definition safeRelativePath (value : string) : option string :=
  let clean := Clean value in
  if bool_decide (clean = ".") || IsAbs clean || bool_decide (clean = "..") || has_prefix "../" clean then None else Some clean.

(** A clean absolute path and its parents up to the root, nearest first *)
Definition ancestors (destination : string) : list string :=
  (λ n, render_path true (take n (clean_of destination))) <$> reverse (seq 0 (S (length (clean_of destination)))).

Fixpoint no_links (lstat : string → entry) (ps : list string) : result string unit :=
  match ps with
  | [] => Ok tt
  | p :: ps =>
      match lstat p with
      | EntryLink => Err "download.destination_symlink"
      | EntryError => Err "lstat"
      | _ => no_links lstat ps
      end
  end.

Definition safeDestination (lstat : string → entry) (destination : string) : result string unit :=
  if negb (IsAbs destination) || negb (bool_decide (Clean destination = destination)) then Err "download.destination_invalid"
  else no_links lstat (ancestors destination).

(** ** Trees *)

(** A path that may be the root of a tree *)
Definition tree_root (d : string) : Prop := IsAbs d = true ∧ Clean d = d ∧ d ≠ "/".

Lemma tree_root_names d : tree_root d → d = render_path true (clean_of d) ∧ names (clean_of d) ∧ clean_of d ≠ [].
Proof.
  intros (Ha & Hc & Hr). pose proof (clean_of_rooted d Ha) as Hn. unfold Clean in Hc. rewrite Ha in Hc. split_and!; [done..|].
  intros E. rewrite E in Hc. by apply Hr.
Qed.

Lemma safeDestination_root lstat d : safeDestination lstat d = Ok tt → d ≠ "/" → tree_root d.
Proof.
  unfold safeDestination. destruct (IsAbs d) eqn:Ha; [|done]. destruct (bool_decide_reflect (Clean d = d)); [|done]. by intros _ Hd.
Qed.

Lemma safeDestination_links lstat d n : safeDestination lstat d = Ok tt → n ≤ length (clean_of d) → lstat (render_path true (take n (clean_of d))) ≠ EntryLink.
Proof.
  unfold safeDestination. destruct (_ || _); [done|]. intros H Hn.
  assert (render_path true (take n (clean_of d)) ∈ ancestors d) as Hin.
  { apply list_elem_of_fmap. exists n. split; [done|]. rewrite elem_of_reverse, elem_of_seq. lia. }
  revert H Hin. generalize (ancestors d). intros ps. induction ps as [|p ps IH]; [set_solver|]. simpl. intros H [<-|Hin]%elem_of_cons.
  - intros E. by rewrite E in H.
  - apply IH; [by destruct (lstat p)|done].
Qed.

Lemma join_app_names xs ys : xs ≠ [] → ys ≠ [] → join "/" (xs ++ ys) = join "/" xs +:+ String slash (join "/" ys).
Proof.
  intros Hx Hy. induction xs as [|x xs IH]; [done|]. destruct xs as [|x' xs].
  - destruct ys; done.
  - change (join "/" ((x :: x' :: xs) ++ ys)) with (x +:+ String slash (join "/" ((x' :: xs) ++ ys))). rewrite IH by done.
    change (join "/" (x :: x' :: xs)) with (x +:+ String slash (join "/" (x' :: xs))). by rewrite sapp_assoc.
Qed.

Lemma nonempty_app xs ys : nonempty (xs ++ ys) = nonempty xs ++ nonempty ys.
Proof. apply filter_app. Qed.

(** Being within a tree is having its elements in front *)
Lemma pathWithin_prefix p r : IsAbs p = true → tree_root r → pathWithin p r = true ↔ clean_of r `prefix_of` clean_of p.
Proof.
  intros Ha Hr. destruct (tree_root_names r Hr) as (Er & Hrn & Hne). destruct Hr as (_ & Hc & _). pose proof (clean_of_rooted p Ha) as Hpn.
  unfold pathWithin. rewrite Hc. assert (Clean p = render_path true (clean_of p)) as -> by (unfold Clean; by rewrite Ha).
  pose proof (nonempty_elements_render _ Hpn) as Ep. pose proof (nonempty_elements_render _ Hrn) as Er'. split.
  - intros [H%bool_decide_eq_true|H]%orb_prop.
    + exists []. rewrite app_nil_r, <- Ep, H. rewrite <- Er'. by rewrite <- Er.
    + apply has_prefix_spec in H as [x Hx]. exists (nonempty (elements x)). rewrite <- Ep, Hx, sapp_assoc. change ("/" +:+ x) with (String slash x).
      rewrite elements_app, nonempty_app. f_equal. rewrite <- Er'. by rewrite <- Er.
  - intros [k Hk]. apply orb_true_iff. destruct k as [|e k].
    + left. rewrite app_nil_r in Hk. apply bool_decide_eq_true. by rewrite Hk, <- Er.
    + right. apply has_prefix_spec. exists (join "/" (e :: k)). transitivity ((render_path true (clean_of r) +:+ "/") +:+ join "/" (e :: k)); [|by rewrite <- Er].
      rewrite Hk. unfold render_path. rewrite join_app_names by done. by rewrite !sapp_assoc.
Qed.

(** Two trees neither of which is within the other have no path in common *)
Lemma trees_apart d d' p :
  tree_root d → tree_root d' → pathWithin d d' = false → pathWithin d' d = false → IsAbs p = true →
  ¬ (pathWithin p d = true ∧ pathWithin p d' = true).
Proof.
  intros Hd Hd' H1 H2 Hp [Hw Hw']. apply pathWithin_prefix in Hw, Hw'; [|done..]. destruct (prefix_weak_total _ _ _ Hw Hw') as [H|H].
  - apply (pathWithin_prefix d' d) in H; [congruence|by destruct Hd'|done].
  - apply (pathWithin_prefix d d') in H; [congruence|by destruct Hd|done].
Qed.

(** A tree is within itself *)
Lemma pathWithin_refl d : pathWithin d d = true.
Proof. unfold pathWithin. by rewrite bool_decide_eq_true_2. Qed.

(** A path that ends in a name is the root of a tree *)
Lemma Clean_tree_root p es e : IsAbs (Clean p) = true → elements p = es ++ [e] → name e = true → tree_root (Clean p).
Proof.
  intros Ha Hes He. assert (IsAbs p = true) as Hp.
  { unfold Clean, render_path in Ha. destruct (IsAbs p) eqn:E; [done|]. exfalso. revert Ha. unfold clean_of. rewrite E.
    destruct (clean_elements false (elements p)) as [|x xs] eqn:Ec; [done|]. intros Ha.
    pose proof (clean_of_no_slash p) as Hs. unfold clean_of in Hs. rewrite E, Ec in Hs. rewrite IsAbs_join in Ha.
    - apply Forall_cons in Hs as [Hs _]. unfold IsAbs in Ha. apply has_prefix_spec in Ha as [r ->]. discriminate Hs.
    - intros ->. eapply (never_kept false (elements p) [] ""); [by left|set_solver|]. unfold clean_elements in Ec.
      apply (f_equal reverse) in Ec. rewrite reverse_involutive in Ec. rewrite Ec, elem_of_reverse. left. }
  pose proof (clean_of_rooted p Hp) as Hn. unfold Clean. rewrite Hp. split_and!; [done|by apply Clean_render|].
  assert (clean_of p ≠ []) as Hc.
  { unfold clean_of. rewrite Hes, clean_elements_names by (by repeat constructor). by destruct (clean_elements _ _). }
  destruct (clean_of p) as [|x xs]; [done|]. intros E. apply Forall_cons in Hn as [Hx _]. apply name_spec in Hx as (Hx & _).
  destruct x as [|a x]; [done|]. destruct xs; simpl in E; by injection E.
Qed.

Lemma clean_of_render es : names es → clean_of (render_path true es) = es.
Proof.
  intros Hn. unfold clean_of. change (IsAbs (render_path true es)) with true. rewrite <- (app_nil_l (elements (render_path true es))), clean_elements_quiet.
  - by apply nonempty_elements_render.
  - rewrite elements_render by done. constructor; [by left|]. destruct Hn; [repeat constructor|]. apply Forall_cons. split; [by right|].
    eapply Forall_impl; [eassumption|]. intros e ?. by right.
Qed.

Lemma Join_tree_root ps e : IsAbs (Join (ps ++ [e])) = true → name e = true → tree_root (Join (ps ++ [e])).
Proof.
  intros Ha He. assert (e ≠ "") as Hne by (by apply name_spec in He as [? _]). revert Ha. unfold Join. rewrite filter_app, (filter_cons_True _ e []) by done.
  destruct (filter (λ p, p ≠ "") ps) as [|q qs] eqn:Eq; cbn [app].
  - intros Ha. by apply (Clean_tree_root e [] e); [|rewrite elements_name|].
  - intros Ha. eapply Clean_tree_root; [exact Ha| |exact He]. rewrite elements_join, map_app, concat_app. simpl.
    by rewrite app_nil_r, (elements_name e He), app_assoc.
Qed.

(** ** Relative paths *)

(** A cleaned relative path climbs first and then descends *)
Lemma clean_relative_shape es :
  Forall (λ e, contains_byte slash e = false) es → ∃ ns k, names ns ∧ fold_left (clean_step false) es [] = ns ++ replicate k "..".
Proof.
  intros Hes. assert (∃ ns k, names ns ∧ ([] : list string) = ns ++ replicate k "..") as H by (exists [], 0; split; [constructor|done]).
  revert H. generalize ([] : list string). induction Hes as [|e es He _ IH]; intros stack (ns & k & Hn & ->); simpl; [by exists ns, k|]. apply IH.
  unfold clean_step. destruct (bool_decide_reflect (e = "")); [by exists ns, k|]. destruct (bool_decide_reflect (e = ".")); [by exists ns, k|]. simpl.
  destruct (bool_decide_reflect (e = "..")) as [->|].
  - destruct Hn as [|x ns Hx Hn]; simpl.
    + exists [], (S k). split; [constructor|]. by destruct k.
    + apply name_spec in Hx as (_ & _ & Hx & _). rewrite bool_decide_eq_false_2 by done. by exists ns, k.
  - exists (e :: ns), k. split; [|done]. constructor; [|done]. by apply name_spec.
Qed.

(** So a safe relative path only descends *)
Lemma safeRelativePath_names value rel : safeRelativePath value = Some rel → ∃ ns, names ns ∧ ns ≠ [] ∧ rel = join "/" ns.
Proof.
  unfold safeRelativePath. destruct (bool_decide_reflect (Clean value = ".")) as [|Hdot]; [done|]. destruct (IsAbs (Clean value)) eqn:Ha; [done|].
  destruct (bool_decide_reflect (Clean value = "..")) as [|Hup]; [done|]. destruct (has_prefix "../" (Clean value)) eqn:Hp; [done|]. intros [= <-].
  assert (IsAbs value = false) as Hv.
  { destruct (IsAbs value) eqn:E; [|done]. unfold Clean in Ha. rewrite E in Ha. done. }
  destruct (clean_relative_shape (elements value)) as (ns & k & Hn & Hs); [apply split_byte_no_sep|].
  assert (Clean value = render_path false (replicate k ".." ++ reverse ns)) as Ec.
  { unfold Clean, clean_of, clean_elements. rewrite Hv, Hs, reverse_app, reverse_replicate. done. }
  rewrite Ec in *. destruct k as [|k]; simpl in *.
  - exists (reverse ns). split; [by apply Forall_reverse|]. destruct (reverse ns); [done|]. done.
  - exfalso. destruct (replicate k ".." ++ reverse ns) as [|x xs]; [done|]. simpl in Hp. discriminate Hp.
Qed.

(** ** Places below a tree *)

(** A path that descends by names only *)
Definition descends (p : string) : Prop := p ≠ "" ∧ names (elements p).

Lemma name_descends e : name e = true → descends e.
Proof. intros H. split; [by apply name_spec in H as [? _]|]. rewrite elements_name by done. by constructor. Qed.

Lemma join_descends ns : names ns → ns ≠ [] → descends (join "/" ns).
Proof.
  intros Hn Hne. assert (elements (join "/" ns) = ns) as En.
  { apply elements_join_names; [done|]. eapply Forall_impl; [exact Hn|]. intros e (_ & _ & _ & ?)%name_spec. done. }
  split; [|by rewrite En]. intros E. rewrite E in En. subst ns. by apply Forall_cons in Hn as [? _].
Qed.

Lemma safeRelativePath_descends value rel : safeRelativePath value = Some rel → descends rel.
Proof. intros (ns & Hn & Hne & ->)%safeRelativePath_names. by apply join_descends. Qed.

(** A name with a suffix is a name *)
Lemma name_suffix e x : name e = true → contains_byte slash x = false → (2 <= String.length x)%nat → name (e +:+ x) = true.
Proof.
  intros (H1 & _ & _ & H4)%name_spec Hx Hl. assert (3 <= String.length (e +:+ x))%nat as Hlen.
  { rewrite slength_app. destruct e; [done|simpl; lia]. }
  apply name_spec. split_and!; [by intros E; rewrite E in Hlen; simpl in Hlen; lia..|]. clear -H4 Hx.
  induction e as [|a e IH]; simpl in *; [done|]. destruct (bool_decide (a = slash)); [done|]. by apply IH.
Qed.

Lemma suffix_descends value rel x :
  safeRelativePath value = Some rel → contains_byte slash x = false → (2 <= String.length x)%nat → descends (rel +:+ x).
Proof.
  intros (ns & Hn & Hne & ->)%safeRelativePath_names Hx Hl. induction Hn as [|n ns Hn1 Hn IH]; [done|]. destruct ns as [|m ns].
  - apply name_descends. by apply name_suffix.
  - destruct (IH ltac:(done)) as [_ Hi]. change (join "/" (n :: m :: ns)) with (n +:+ String slash (join "/" (m :: ns))). rewrite sapp_assoc. split.
    + intros E. by destruct n.
    + change (String slash (join "/" (m :: ns)) +:+ x) with (String slash (join "/" (m :: ns) +:+ x)). rewrite elements_app, elements_name by done.
      by constructor.
Qed.

Lemma Join_descends root ps :
  tree_root root → Forall descends ps → Join (root :: ps) = render_path true (clean_of root ++ concat (map elements ps)) ∧
  clean_of (Join (root :: ps)) = clean_of root ++ concat (map elements ps).
Proof.
  intros Hr Hps. destruct (tree_root_names root Hr) as (_ & Hrn & _). assert (names (concat (map elements ps))) as Hn.
  { induction Hps as [|p ps [_ Hp] _ IH]; [constructor|]. by apply Forall_app. }
  assert (Join (root :: ps) = render_path true (clean_of root ++ concat (map elements ps))) as E.
  { rewrite Join_below; [|by destruct Hr as (? & _); intros ->|].
    - destruct Hr as (-> & _). by rewrite nonempty_id.
    - eapply Forall_impl; [exact Hps|]. intros p [Hp Hp']. split; [done|]. eapply Forall_impl; [exact Hp'|]. intros e ?. by right. }
  split; [done|]. rewrite E. apply clean_of_render. by apply Forall_app.
Qed.

Lemma Join_abs root ps : tree_root root → Forall descends ps → IsAbs (Join (root :: ps)) = true.
Proof. intros Hr Hps. by destruct (Join_descends root ps Hr Hps) as [-> _]. Qed.

Lemma Join_root root ps : tree_root root → Forall descends ps → tree_root (Join (root :: ps)).
Proof.
  intros Hr Hps. destruct (tree_root_names root Hr) as (_ & Hrn & Hrne). destruct (Join_descends root ps Hr Hps) as [E _]. rewrite E.
  assert (names (clean_of root ++ concat (map elements ps))) as Hn.
  { apply Forall_app. split; [done|]. clear -Hps. induction Hps as [|p ps [_ Hp] _ IH]; [constructor|]. by apply Forall_app. }
  split_and!; [done|by apply Clean_render|]. intros Eq. apply (f_equal clean_of) in Eq. rewrite clean_of_render in Eq by done.
  change (clean_of "/") with (@nil string) in Eq. by destruct (clean_of root).
Qed.

(** Whatever is below two different names is apart *)
Lemma Join_not_within root e e' ps ps' :
  tree_root root → name e = true → name e' = true → e ≠ e' → Forall descends ps → Forall descends ps' →
  pathWithin (Join (root :: e :: ps)) (Join (root :: e' :: ps')) = false.
Proof.
  intros Hr He He' Hne Hps Hps'. assert (Forall descends (e :: ps) ∧ Forall descends (e' :: ps')) as [Hd Hd'] by (split; by constructor; [apply name_descends|]).
  destruct (Join_descends root (e :: ps) Hr Hd) as [_ H], (Join_descends root (e' :: ps') Hr Hd') as [_ H'].
  apply not_true_is_false. rewrite pathWithin_prefix; [|by apply Join_abs|by apply Join_root]. rewrite H, H'. simpl. rewrite !elements_name by done.
  intros [k Hk]. rewrite <- app_assoc in Hk. apply app_inv_head in Hk. by injection Hk.
Qed.

Lemma Join_apart root e e' ps ps' :
  tree_root root → name e = true → name e' = true → e ≠ e' → Forall descends ps → Forall descends ps' → Join (root :: e :: ps) ≠ Join (root :: e' :: ps').
Proof.
  intros Hr He He' Hne Hps Hps' Heq. pose proof (Join_not_within root e e' ps ps' Hr He He' Hne Hps Hps') as H. by rewrite Heq, pathWithin_refl in H.
Qed.

Lemma Join_within root ps qs : tree_root root → Forall descends ps → Forall descends qs → pathWithin (Join (root :: ps ++ qs)) (Join (root :: ps)) = true.
Proof.
  intros Hr Hp Hq. assert (Forall descends (ps ++ qs)) as Hpq by (by apply Forall_app). apply pathWithin_prefix; [by apply Join_abs|by apply Join_root|].
  destruct (Join_descends root (ps ++ qs) Hr Hpq) as [_ ->], (Join_descends root ps Hr Hp) as [_ ->]. rewrite map_app, concat_app, app_assoc. by eexists.
Qed.

(** So a safe relative path stays below the directory it is joined to *)
Lemma Join_safe_within root value rel : tree_root root → safeRelativePath value = Some rel → pathWithin (Join [root; rel]) root = true ∧ tree_root (Join [root; rel]).
Proof.
  intros Hr Hs%safeRelativePath_descends. assert (Forall descends [rel]) as Hd by (by constructor). split; [|by apply Join_root].
  apply pathWithin_prefix; [by apply Join_abs|done|]. destruct (Join_descends root [rel] Hr Hd) as [_ ->]. by eexists.
Qed.
