(* ===== verification/AgentAcquire.v ===== *)
(** * The acquisitions of an agent: [internal/agent/acquisition.go] and the command handlers of [download.go],
      [transfer.go], [artifact.go] and [installation_update.go]

    A command that writes files is an acquisition: it is recorded in a file under the state root before it starts and
    again when it ends.  The state of the agent is the registry in memory, those files, the goroutines at work, the
    goroutines that wait for one, and the messages sent.  Each handler runs under the mutex up to its wait or its work,
    so it is one step; the work of a command ends in another.  What the file system, the container engine and JSON
    decoding answer is in the environment of a step or an argument; the progress messages are left out. *)

From S2P Require Import Prelude GoStrings Paths ArtifactIdentity StoragePlan Resources Recipe Inventory DownloadPlan AgentFiles.
Open Scope Z_scope.

(** ** Data *)

Inductive acq_state := AcqActive | AcqSucceeded | AcqFailed | AcqInterrupted.

#[export] Instance acq_state_eq_dec : EqDecision acq_state.
Proof. solve_decision. Defined.

(** [acquisitionAttempt]; [cancel] was called, [done] is closed *)
Record Acquisition := mkAcquisition {
  aq_id : string;
  aq_identity : string;
  aq_destination : string;
  aq_binding : string;
  aq_state : acq_state;
  aq_error : string;
  aq_output : option CommandOutput;
  aq_cancelled : bool;
  aq_done : bool;
}.

Inductive Payload := Output (o : CommandOutput) | Status (at_ : Acquisition).

(** A command result, the report that files are in place, and the negative acknowledgement of a failed transfer *)
Inductive Message :=
| Result (command : string) (output : option Payload) (error : option string)
| Placement (artifact path : string) (size : Z)
| Nack (command error : string).

(** What a goroutine at work was asked to do *)
Inductive Job :=
| DownloadJob (item : string) (fetch : bool) (spec : ResourceSpec) (root : string) (credential : option CredentialMaterial)
| TransferJob (identity artifact destination : string)
| UpdateJob (identity destination : string).

(** A goroutine that waits for an acquisition: a command that came twice, or its cancellation *)
Inductive Waiter := Repeated (command : string) | Cancelling (command target : string).

Definition waits_for (w : Waiter) : string := match w with Repeated c => c | Cancelling _ t => t end.

Record Agent := mkAgent {
  ag_memory : gmap string Acquisition;
  ag_files : gmap string Acquisition;
  ag_work : gmap string Job;
  ag_waiters : list Waiter;
  ag_sent : list Message;
}.

Record AgentConfig := mkAgentConfig { cfg_state_root : string; cfg_cache_roots : list string }.

Definition TransferDir (cfg : AgentConfig) : string := cfg_state_root cfg +:+ "/transfers".

(** What a step meets: the context is not cancelled, files can be read and written, [os.Lstat], whether [os.Stat] finds
    nothing or something, and the storage of the engine *)
Record Env := mkEnv {
  ev_live : bool;
  ev_reads : bool;
  ev_writes : bool;
  ev_lstat : string → entry;
  ev_absent : string → bool;
  ev_present : string → bool;
  ev_image_root : option string;
}.

Inductive DownloadOp := OpUnspecified | OpInspect | OpFetch | OpCancel.

Record DownloadCommand := mkDownload {
  dc_id : string; dc_item : string; dc_op : DownloadOp; dc_resource : string; dc_credential : string; dc_target : string }.

Inductive TransferOp := TransferUnspecified | TransferStart | TransferCancel | TransferStatus.

Record TransferCommand := mkTransfer {
  tc_id : string; tc_role : string; tc_peer : string; tc_credential : string; tc_identity : string; tc_source : string; tc_destination : string;
  tc_op : TransferOp; tc_target : string }.

(** The claims of a signed transfer credential *)
Record transferCred := mkCred {
  cr_transfer : string; cr_run : string; cr_source : string; cr_dest : string; cr_artifact : string; cr_src_path : string;
  cr_source_digest : string; cr_size : Z; cr_dest_path : string; cr_exp : Z; cr_identity : string; cr_tree : string; cr_operation : string;
  cr_signature : string }.

Inductive ArtifactOp := ArtifactFetch | ArtifactValidate | ArtifactCancel | ArtifactUpdate | ArtifactOther.

Record ArtifactCommand := mkArtifactCommand {
  ac_id : string; ac_op : ArtifactOp; ac_identity : string; ac_cache_root : string; ac_token : string; ac_target : string; ac_specs : string }.

Definition MaxCredentialJSONBytes : Z := 32 * 1024.

Section agent.
Context (cfg : AgentConfig) (hash : string → string) (parse_url : string → option Url).
Context (decode_spec : string → option ResourceSpec) (decode_material : string → option CredentialMaterial).
Context (decode_cred : string → option transferCred) (decode_updates : string → bool).
Context (encode_spec : ResourceSpec → string) (encode_material : CredentialMaterial → string) (json_size : Acquisition → Z).

(** ** The registry *)

Definition send (m : Message) (ag : Agent) : Agent := mkAgent (ag_memory ag) (ag_files ag) (ag_work ag) (ag_waiters ag) (ag_sent ag ++ [m]).

Definition downloadResult (id : string) (output : option Payload) (error : option string) (ag : Agent) : Agent := send (Result id output error) ag.

Definition with_memory (f : gmap string Acquisition → gmap string Acquisition) (ag : Agent) : Agent :=
  mkAgent (f (ag_memory ag)) (ag_files ag) (ag_work ag) (ag_waiters ag) (ag_sent ag).

Definition with_waiters (ws : list Waiter) (ag : Agent) : Agent := mkAgent (ag_memory ag) (ag_files ag) (ag_work ag) ws (ag_sent ag).

(** [saveAcquisition]: the file of an identifier is written whole or not at all *)
Definition saveAcquisition (writes : bool) (at_ : Acquisition) (ag : Agent) : bool * Agent :=
  if writes then (true, mkAgent (ag_memory ag) (<[hash (aq_id at_) := at_]> (ag_files ag)) (ag_work ag) (ag_waiters ag) (ag_sent ag)) else (false, ag).

(** An acquisition read from its file: nothing works on it, so one that was active is interrupted *)
Definition reloaded (f : Acquisition) : Acquisition :=
  if bool_decide (aq_state f = AcqActive)
  then mkAcquisition (aq_id f) (aq_identity f) (aq_destination f) (aq_binding f) AcqInterrupted "download.interrupted: explicit Resume required" (aq_output f) false true
  else mkAcquisition (aq_id f) (aq_identity f) (aq_destination f) (aq_binding f) (aq_state f) (aq_error f) (aq_output f) false true.

Definition loadAcquisition (reads : bool) (id : string) (ag : Agent) : result string (option Acquisition) * Agent :=
  match ag_memory ag !! id with
  | Some at_ => (Ok (Some at_), ag)
  | None =>
      if negb reads then (Err "read", ag)
      else match ag_files ag !! hash id with
           | None => (Ok None, ag)
           | Some f =>
               if (128 * 2 ^ 10 <? json_size f) || negb (bool_decide (aq_id f = id)) then (Err "download.checkpoint_invalid", ag)
               else (Ok (Some (reloaded f)), with_memory (insert id (reloaded f)) ag)
           end
  end.

Definition overlaps (d d' : string) : bool := pathWithin d d' || pathWithin d' d.

(** The acquisition, and whether it starts here *)
Definition beginAcquisition (env : Env) (id identity destination binding : string) (job : Job) (ag : Agent) : result string (Acquisition * bool) * Agent :=
  if bool_decide (id = "") || (256 <? bytes_of id) then (Err "download.command_id_invalid", ag)
  else if negb (ev_live env) then (Err "context canceled", ag)
  else
    let '(old, ag) := loadAcquisition (ev_reads env) id ag in
    match old with
    | Err e => (Err e, ag)
    | Ok (Some at_) =>
        if negb (bool_decide (aq_identity at_ = identity)) || negb (bool_decide (aq_destination at_ = destination)) || negb (bool_decide (aq_binding at_ = binding))
        then (Err "download.command_conflict", ag) else (Ok (at_, false), ag)
    | Ok None =>
        if existsb (λ e, bool_decide (aq_state (snd e) = AcqActive) && overlaps destination (aq_destination (snd e))) (map_to_list (ag_memory ag))
        then (Err "download.destination_busy", ag)
        else
          let at_ := mkAcquisition id identity destination binding AcqActive "" None false false in
          let '(saved, ag) := saveAcquisition (ev_writes env) at_ ag in
          if negb saved then (Err "write", ag)
          else (Ok (at_, true), mkAgent (<[id := at_]> (ag_memory ag)) (ag_files ag) (<[id := job]> (ag_work ag)) (ag_waiters ag) (ag_sent ag))
    end.

Definition ended (at_ : Acquisition) (st : acq_state) (error : string) (output : option CommandOutput) : Acquisition :=
  mkAcquisition (aq_id at_) (aq_identity at_) (aq_destination at_) (aq_binding at_) st error output (aq_cancelled at_) (aq_done at_).

(** [cancel()] and [close(done)] *)
Definition closed (at_ : Acquisition) : Acquisition :=
  mkAcquisition (aq_id at_) (aq_identity at_) (aq_destination at_) (aq_binding at_) (aq_state at_) (aq_error at_) (aq_output at_) true true.

(** [finishAcquisition], and the end of the goroutine; the acquisition as the goroutine sees it then *)
Definition finishAcquisition (writes : bool) (id : string) (output : option CommandOutput) (error : option string) (ag : Agent) : option Acquisition * Agent :=
  let over ag := mkAgent (ag_memory ag) (ag_files ag) (delete id (ag_work ag)) (ag_waiters ag) (ag_sent ag) in
  match ag_memory ag !! id with
  | None => (None, over ag)
  | Some at_ =>
      if negb (bool_decide (aq_state at_ = AcqActive)) then (Some at_, over ag)
      else
        let at_ := match error with
                   | Some e => ended at_ AcqFailed e output
                   | None => ended at_ AcqSucceeded (aq_error at_) output
                   end in
        let '(saved, ag) := saveAcquisition writes at_ ag in
        let at_ := closed (if saved then at_ else ended at_ AcqFailed "download.checkpoint_write_failed" output) in
        (Some at_, over (with_memory (insert id at_) ag))
  end.

Definition cancelled (at_ : Acquisition) : Acquisition :=
  mkAcquisition (aq_id at_) (aq_identity at_) (aq_destination at_) (aq_binding at_) (aq_state at_) (aq_error at_) (aq_output at_) true (aq_done at_).

(** [cancelAcquisition] up to its wait *)
Definition cancelAcquisition (env : Env) (command target : string) (ag : Agent) : Agent :=
  let '(old, ag) := loadAcquisition (ev_reads env) target ag in
  match old with
  | Err e => downloadResult command None (Some e) ag
  | Ok None => downloadResult command None (Some "download.cancel_target_unknown") ag
  | Ok (Some at_) => with_waiters (ag_waiters ag ++ [Cancelling command target]) (with_memory (insert target (if aq_done at_ then at_ else cancelled at_)) ag)
  end.

Definition stopAcquisitions (ag : Agent) : Agent :=
  with_memory (fmap (λ at_, if bool_decide (aq_state at_ = AcqActive) then cancelled at_ else at_)) ag.

(** ** What a command may touch *)

Definition downloadCredential (spec : ResourceSpec) (raw : string) : result string (option CredentialMaterial) :=
  if bool_decide (raw = "") then Ok None
  else if MaxCredentialJSONBytes <? bytes_of raw then Err "download.credential_invalid"
  else match decode_material raw with
       | None => Err "download.credential_invalid"
       | Some material =>
           if bool_decide (cm_value material = "") then Err "download.credential_invalid"
           else
             let scoped host purpose :=
               if negb (bool_decide (cm_host material = host)) || negb (bool_decide (cm_purpose material = purpose)) then Err "download.credential_scope_invalid"
               else Ok (Some material) in
             match s_type (rs_source spec) with
             | SourceHuggingFace => scoped "huggingface.co" "huggingface"
             | SourceOCI => scoped (default "" (head (split_byte slash (s_reference (rs_source spec))))) "registry"
             | _ => Err "download.credential_scope_invalid"
             end
       end.

(** Where the files of an artifact belong below a cache root *)
Definition artifact_homes (spec : ResourceSpec) (root : string) : list string :=
  match s_type (rs_source spec) with
  | SourceHuggingFace => [Join [root; "hub"; model_dir (s_reference (rs_source spec))]; Join [root; model_dir (s_reference (rs_source spec))]]
  | SourceFile | SourceLocal => [Join [root; "files"; trim_prefix "sha256:" (s_digest (rs_source spec))]]
  | SourceOCI => [Join [root; "oci"; trim_prefix "sha256:" (s_digest (rs_source spec))]]
  | _ => []
  end.

(** [authorizeDownload]: the cache root of an artifact *)
Definition authorizeDownload (env : Env) (spec : ResourceSpec) : result string string :=
  match safeDestination (ev_lstat env) (rs_destination spec) with
  | Err e => Err e
  | Ok _ =>
      match rs_kind spec with
      | ResourceImage =>
          match ev_image_root env with
          | None => Err "download.image_storage_unavailable"
          | Some root => if bool_decide (root = rs_destination spec) then Ok "" else Err "download.destination_unconfigured"
          end
      | ResourceRecipe =>
          if bool_decide (Join [cfg_state_root cfg; "recipes"; trim_prefix "sha256:" (s_digest (rs_source spec))] = rs_destination spec)
          then Ok "" else Err "download.destination_unconfigured"
      | ResourceArtifact =>
          match find (λ root, bool_decide (rs_destination spec ∈ artifact_homes spec root)) (cfg_cache_roots cfg) with
          | Some root => Ok root
          | None => Err "download.destination_unconfigured"
          end
      end
  end.

(** The specification a transfer stands for *)
Definition transfer_spec (identity destination : string) : result string ResourceSpec :=
  match Parse identity with
  | Err _ => Err "identity"
  | Ok parsed =>
      let at_source k s := Ok (mkSpec k identity s destination "" "" "" None) in
      if bool_decide (p_kind parsed = "model") then
        let '(repository, revision, _) := cut at_sign (trim_prefix "hf://" identity) in
        at_source ResourceArtifact (mkSourceSpec SourceHuggingFace repository "" revision "")
      else if bool_decide (p_kind parsed = "recipe") then at_source ResourceRecipe (mkSourceSpec SourceRecipe "" "" "" (p_digest parsed))
      else if bool_decide (p_kind parsed = "file") then at_source ResourceArtifact (mkSourceSpec SourceLocal "" "" "" (p_digest parsed))
      else Err "download.transfer_layout_unsupported"
  end.

Definition transferDestination (env : Env) (c : TransferCommand) : result string string :=
  match tc_op c with
  | TransferUnspecified =>
      match safeRelativePath (tc_destination c) with
      | None => Err "unsafe relative path"
      | Some rel =>
          let destination := Join [TransferDir cfg; rel] in
          match safeDestination (ev_lstat env) destination with Ok _ => Ok destination | Err e => Err e end
      end
  | _ =>
      match transfer_spec (tc_identity c) (tc_destination c) with
      | Err e => Err e
      | Ok spec => match authorizeDownload env spec with Ok _ => Ok (tc_destination c) | Err e => Err e end
      end
  end.

(** The resource of a command of an older controller *)
Definition legacyResource (env : Env) (identity cacheRoot : string) : result string ResourceSpec :=
  match Parse identity with
  | Err _ => Err "identity"
  | Ok parsed =>
      if has_prefix "recipe://" identity then
        Ok (mkSpec ResourceRecipe identity (mkSourceSpec SourceRecipe "" "" "" (p_digest parsed))
                (Join [cfg_state_root cfg; "recipes"; trim_prefix "sha256:" (p_digest parsed)]) "" "" "" None)
      else
        let cacheRoot := match cfg_cache_roots cfg with root :: _ => if bool_decide (cacheRoot = "") then root else cacheRoot | [] => cacheRoot end in
        if negb (bool_decide (cacheRoot ∈ cfg_cache_roots cfg)) then Err "download.destination_unconfigured"
        else if bool_decide (p_kind parsed = "model") then
          let '(repository, revision, _) := cut at_sign (trim_prefix "hf://" identity) in
          let hub := Join [cacheRoot; "hub"; model_dir repository] in
          let flat := Join [cacheRoot; model_dir repository] in
          Ok (mkSpec ResourceArtifact identity (mkSourceSpec SourceHuggingFace repository "" revision "")
                  (if ev_absent env hub && ev_present env flat then flat else hub) "" "" "" None)
        else Err "download.source_unavailable"
  end.

(** ** The handlers *)

(** The goroutine of a command that came twice waits; one that is refused answers *)
Definition answer_begin (id : string) (r : result string (Acquisition * bool) * Agent) : Agent :=
  match r with
  | (Err e, ag) => downloadResult id None (Some e) ag
  | (Ok (_, true), ag) => ag
  | (Ok (_, false), ag) => with_waiters (ag_waiters ag ++ [Repeated id]) ag
  end.

Definition op_code (op : DownloadOp) : string := match op with OpUnspecified => "0" | OpInspect => "1" | OpFetch => "2" | OpCancel => "3" end.

Definition handleDownload (env : Env) (c : DownloadCommand) (ag : Agent) : Agent :=
  let id := dc_id c in
  if bool_decide (id = "") || bool_decide (dc_item c = "") then downloadResult id None (Some "download.command_invalid") ag
  else match dc_op c with
       | OpUnspecified => downloadResult id None (Some "download.operation_invalid") ag
       | OpCancel => cancelAcquisition env id (dc_target c) ag
       | op =>
           match decodeResourceSpec parse_url decode_spec (dc_resource c) (match op with OpInspect => true | _ => false end) with
           | None => downloadResult id None (Some "download.resource_invalid") ag
           | Some spec =>
               match downloadCredential spec (dc_credential c) with
               | Err e => downloadResult id None (Some e) ag
               | Ok credential =>
                   match authorizeDownload env spec with
                   | Err e => downloadResult id None (Some e) ag
                   | Ok root =>
                       let binding := dc_item c +:+ ":" +:+ op_code op +:+ ":" +:+ hash (dc_resource c) in
                       let job := DownloadJob (dc_item c) (match op with OpFetch => true | _ => false end) spec root credential in
                       answer_begin id (beginAcquisition env id (rs_identity spec) (rs_destination spec) binding job ag)
                   end
               end
           end
       end.

Definition handleTransfer (env : Env) (c : TransferCommand) (ag : Agent) : Agent :=
  let id := tc_id c in
  match tc_op c with
  | TransferCancel => cancelAcquisition env id (tc_target c) ag
  | TransferStatus =>
      let '(old, ag) := loadAcquisition (ev_reads env) (tc_target c) ag in
      match old with
      | Err e => downloadResult id None (Some e) ag
      | Ok None => downloadResult id None (Some "download.transfer_unknown") ag
      | Ok (Some at_) => downloadResult id (Some (Status at_)) None ag
      end
  | _ =>
      if negb (bool_decide (tc_role c = "dest")) then ag
      else match transferDestination env c with
           | Err e => downloadResult id None (Some e) ag
           | Ok destination =>
               match decode_cred (tc_credential c) with
               | None => downloadResult id None (Some "credential") ag
               | Some k =>
                   let binding := join "|" [cr_source k; cr_src_path k; cr_source_digest k; cr_identity k; cr_tree k] in
                   answer_begin id (beginAcquisition env id (tc_identity c) destination binding (TransferJob (tc_identity c) (cr_artifact k) destination) ag)
               end
           end
  end.

Definition handleRecipeUpdate (env : Env) (c : ArtifactCommand) (ag : Agent) : Agent :=
  let id := ac_id c in
  if negb (decode_updates (ac_specs c)) then downloadResult id None (Some "recipe.update_specs_invalid") ag
  else match legacyResource env (ac_identity c) "" with
       | Err e => downloadResult id None (Some e) ag
       | Ok spec =>
           if negb (bool_decide (rs_kind spec = ResourceRecipe)) || negb (bool_decide (ac_cache_root c = "")) || negb (bool_decide (ac_token c = ""))
           then downloadResult id None (Some "recipe.update_identity_invalid") ag
           else match authorizeDownload env spec with
                | Err e => downloadResult id None (Some e) ag
                | Ok _ =>
                    answer_begin id (beginAcquisition env id (rs_identity spec) (rs_destination spec) ("recipe-update:" +:+ hash (ac_specs c))
                                       (UpdateJob (rs_identity spec) (rs_destination spec)) ag)
                end
       end.

Definition handleArtifact (env : Env) (c : ArtifactCommand) (ag : Agent) : Agent :=
  let next op resource credential target := handleDownload env (mkDownload (ac_id c) ("legacy-artifact:" +:+ ac_id c) op resource credential target) ag in
  match ac_op c with
  | ArtifactUpdate => handleRecipeUpdate env c ag
  | ArtifactCancel => next OpCancel "" "" (ac_target c)
  | ArtifactOther => downloadResult (ac_id c) None (Some "artifact.unsupported_operation") ag
  | op =>
      match legacyResource env (ac_identity c) (ac_cache_root c) with
      | Err e => downloadResult (ac_id c) None (Some e) ag
      | Ok spec =>
          next (match op with ArtifactFetch => OpFetch | _ => OpInspect end) (encode_spec spec)
            (if bool_decide (ac_token c = "") then "" else encode_material (mkMaterial "huggingface" "huggingface.co" (ac_token c))) ""
      end
  end.

(** ** The end of the work *)

(** [strings.ReplaceAll] for a nonempty [old]; each turn reads at least a byte *)
Fixpoint replace_all (fuel : nat) (old new s : string) : string :=
  match fuel, s with
  | S fuel, String a rest =>
      if has_prefix old s then new +:+ replace_all fuel old new (sdrop (String.length old) s)
      else String a (replace_all fuel old new rest)
  | _, _ => s
  end.

Definition ReplaceAll (old new s : string) : string := replace_all (String.length s) old new s.

Definition redact (text value : string) : string := if bool_decide (value = "") then text else ReplaceAll value "[redacted]" text.

(** [redactDownloadError], with the user and password of a registry credential that is JSON *)
Definition redactDownloadError (decode_auth : string → option (string * string)) (credential : CredentialMaterial) (error : string) : string :=
  let text := redact error (cm_value credential) in
  if bool_decide (cm_purpose credential = "registry") then
    match decode_auth (cm_value credential) with
    | Some (user, password) => redact (redact text user) password
    | None => text
    end
  else text.

Definition with_item (item : string) (o : CommandOutput) : CommandOutput :=
  mkCommandOutput item (co_identity o) (co_path o) (co_platform o) (co_verified o) (co_state o) (co_size o) (co_storage o) (co_tree o) (co_tree_size o)
    (co_index o) (co_manifest o) (co_remaining o).

(** What the work of a command met: the inspections before and after the fetch, the fetch, the context at the end.
    Of a transfer the fetch is the pull; of an update it is the fetch of the package, and what follows is its preparation. *)
Record Work := mkWork {
  wo_before : CommandOutput * option string;
  wo_fetch : option string;
  wo_after : CommandOutput * option string;
  wo_context : option string;
}.

(** The output and the error of a download, before redaction *)
Definition download_outcome (item : string) (fetch : bool) (w : Work) : CommandOutput * option string :=
  let '(o, e) := wo_before w in
  let o := with_item item o in
  let '(o, e) :=
    match e with
    | Some _ => (o, e)
    | None =>
        if fetch && negb (bool_decide (co_state o = ResourceAvailable)) then
          if bool_decide (co_state o = ResourceInvalid) then (o, Some "download.active_file_invalid")
          else match wo_fetch w with
               | Some e => (o, Some e)
               | None =>
                   let '(o, e) := wo_after w in
                   let o := with_item item o in
                   match e with
                   | Some e => (o, Some e)
                   | None => (o, if bool_decide (co_state o = ResourceAvailable) then None else Some "download.verification_failed")
                   end
               end
        else (o, None)
    end in
  (o, match e with Some _ => e | None => wo_context w end).

(** The error a goroutine reports: what the acquisition recorded, else its own *)
Definition recorded_error (at_ : option Acquisition) (error : option string) : option string :=
  match at_ with
  | Some a => if bool_decide (aq_error a = "") then error else Some (aq_error a)
  | None => error
  end.

Definition transfer_output (identity destination : string) (error : option string) : CommandOutput :=
  mkCommandOutput "" identity destination "" None (match error with None => ResourceAvailable | Some _ => ResourcePartial end) None None "" None "" "" None.

(** The last part of the handlers: the goroutine of a command ends *)
Definition complete (decode_auth : string → option (string * string)) (writes : bool) (id : string) (job : Job) (w : Work) (ag : Agent) : Agent :=
  match job with
  | DownloadJob item fetch spec root credential =>
      let '(o, e) := download_outcome item fetch w in
      let e := match e, credential with Some e, Some k => Some (redactDownloadError decode_auth k e) | _, _ => e end in
      let ag := match e with
                | None => if bool_decide (co_state o = ResourceAvailable) && negb (bool_decide (rs_kind spec = ResourceImage))
                          then send (Placement (rs_identity spec) (rs_destination spec) (default 0 (co_size o))) ag else ag
                | Some _ => ag
                end in
      let '(at_, ag) := finishAcquisition writes id (Some o) e ag in
      downloadResult id (Some (Output o)) (recorded_error at_ e) ag
  | TransferJob identity artifact destination =>
      let o := transfer_output identity destination (wo_fetch w) in
      let ag := match wo_fetch w with None => send (Placement artifact destination (default 0 (co_size (fst (wo_after w))))) ag | Some _ => ag end in
      let '(_, ag) := finishAcquisition writes id (Some o) (wo_fetch w) ag in
      let ag := match wo_fetch w with Some e => send (Nack id e) ag | None => ag end in
      downloadResult id (Some (Output o)) (wo_fetch w) ag
  | UpdateJob identity destination =>
      let e := match wo_fetch w, snd (wo_after w) with Some e, _ => Some e | None, Some e => Some e | None, None => wo_context w end in
      let ag := match wo_fetch w with None => send (Placement identity destination (default 0 (co_size (fst (wo_after w))))) ag | Some _ => ag end in
      let '(at_, ag) := finishAcquisition writes id None e ag in
      downloadResult id None (recorded_error at_ e) ag
  end.

(** The goroutine that waits for a finished acquisition answers with its record *)
Definition wake (w : Waiter) (at_ : Acquisition) (ag : Agent) : Agent :=
  match w with
  | Repeated c => downloadResult c (Output <$> aq_output at_) (if bool_decide (aq_error at_ = "") then None else Some (aq_error at_)) ag
  | Cancelling c _ => downloadResult c (Output <$> aq_output at_) None ag
  end.

(** One whose context ends before *)
Definition drop_waiter (w : Waiter) (ag : Agent) : Agent :=
  match w with Repeated _ => ag | Cancelling c _ => downloadResult c None (Some "context canceled") ag end.

(** The process is stopped and started again *)
Definition restarted (ag : Agent) : Agent := mkAgent ∅ (ag_files ag) ∅ [] (ag_sent ag).

Definition fresh_agent : Agent := mkAgent ∅ ∅ ∅ [] [].

(** ** Steps *)

Inductive astep (decode_auth : string → option (string * string)) : Agent → Agent → Prop :=
| step_download env c ag : astep decode_auth ag (handleDownload env c ag)
| step_transfer env c ag : astep decode_auth ag (handleTransfer env c ag)
| step_artifact env c ag : astep decode_auth ag (handleArtifact env c ag)
| step_complete writes id job w ag : ag_work ag !! id = Some job → astep decode_auth ag (complete decode_auth writes id job w ag)
| step_wake w ws1 ws2 at_ ag : ag_waiters ag = ws1 ++ w :: ws2 → ag_memory ag !! waits_for w = Some at_ → aq_done at_ = true →
    astep decode_auth ag (wake w at_ (with_waiters (ws1 ++ ws2) ag))
| step_drop w ws1 ws2 ag : ag_waiters ag = ws1 ++ w :: ws2 → astep decode_auth ag (drop_waiter w (with_waiters (ws1 ++ ws2) ag))
| step_stop ag : astep decode_auth ag (stopAcquisitions ag)
| step_restart ag : astep decode_auth ag (restarted ag).

End agent.
