(* ===== verification/AgentAcquireInv.v ===== *)
(** * What the acquisitions of an agent guarantee

    The theorems of [AgentAcquire]: whatever commands come, repeated, cancelled, with files that cannot be written, and
    across restarts, no two acquisitions write the same tree, no command is carried out twice, and a cancellation is
    acknowledged only when nothing works any more. *)

From S2P Require Import Prelude GoStrings Paths ArtifactIdentity StoragePlan Resources Recipe Inventory DownloadPlan AgentFiles AgentAcquire.
Open Scope Z_scope.

Section facts.
Context (cfg : AgentConfig) (hash : string → string) (parse_url : string → option Url).
Context (decode_spec : string → option ResourceSpec) (decode_material : string → option CredentialMaterial).
Context (decode_cred : string → option transferCred) (decode_updates : string → bool).
Context (encode_spec : ResourceSpec → string) (encode_material : CredentialMaterial → string) (json_size : Acquisition → Z).
Context (decode_auth : string → option (string * string)).
Notation load := (loadAcquisition hash json_size).
Notation start := (beginAcquisition hash json_size).
Notation finish := (finishAcquisition hash).
Notation step := (astep cfg hash parse_url decode_spec decode_material decode_cred decode_updates encode_spec encode_material json_size decode_auth).

(** ** The invariant *)

(** The start of a command is on disk *)
Definition recorded (ag : Agent) (id : string) : Prop := ∃ f, ag_files ag !! hash id = Some f ∧ aq_id f = id.

Record agent_ok (ag : Agent) : Prop := {
  ok_memory id a : ag_memory ag !! id = Some a → aq_id a = id ∧ (aq_state a = AcqActive → aq_done a = false ∧ is_Some (ag_work ag !! id));
  ok_recorded id a : ag_memory ag !! id = Some a → recorded ag id;
  ok_work id job : ag_work ag !! id = Some job →
    ∃ a, ag_memory ag !! id = Some a ∧ aq_state a = AcqActive ∧ tree_root (aq_destination a) ∧ recorded ag id;
  ok_apart i j a b : ag_memory ag !! i = Some a → ag_memory ag !! j = Some b → aq_state a = AcqActive → aq_state b = AcqActive → i ≠ j →
    overlaps (aq_destination a) (aq_destination b) = false;
}.

(** What a step may do to it *)
Record goes (ag ag' : Agent) : Prop := {
  go_ok : agent_ok ag';
  go_recorded id : recorded ag id → recorded ag' id;
  go_new id : is_Some (ag_work ag' !! id) → is_Some (ag_work ag !! id) ∨ ¬ recorded ag id;
}.

Lemma goes_refl ag : agent_ok ag → goes ag ag.
Proof. intros H. split; [done|done|by left]. Qed.

Lemma goes_trans a b c : goes a b → goes b c → goes a c.
Proof.
  intros H1 H2. split; [apply (go_ok _ _ H2)|intros id ?; by apply (go_recorded _ _ H2), (go_recorded _ _ H1)|].
  intros id [H|H]%(go_new _ _ H2); [by apply (go_new _ _ H1)|]. right. intros Hr. by apply H, (go_recorded _ _ H1).
Qed.

(** Messages and waiters do not matter *)
Lemma goes_core ag ag' : agent_ok ag → ag_memory ag' = ag_memory ag → ag_files ag' = ag_files ag → ag_work ag' = ag_work ag → goes ag ag'.
Proof.
  intros [H1 H2 H3 H4] Em Ef Ew. unfold recorded in *. split; [split|..]; unfold recorded; rewrite ?Em, ?Ef, ?Ew; [done..|by left].
Qed.

Lemma goes_send m ag ag' : goes ag ag' → goes ag (send m ag').
Proof. intros H. eapply goes_trans; [exact H|]. apply goes_core; [apply (go_ok _ _ H)|done..]. Qed.

Lemma overlaps_sym d d' : overlaps d d' = overlaps d' d.
Proof. unfold overlaps. apply orb_comm. Qed.

(** Memory that gains a finished acquisition, or changes one without its state *)
Lemma goes_memory ag id a :
  agent_ok ag → aq_id a = id → recorded ag id → (aq_state a = AcqActive → ∃ b, ag_memory ag !! id = Some b ∧ aq_state b = AcqActive ∧ aq_destination b = aq_destination a ∧ aq_done a = false) →
  (is_Some (ag_work ag !! id) → aq_state a = AcqActive) → goes ag (with_memory (insert id a) ag).
Proof.
  intros Hok Hid Hrec Hact Hw. split; [|done|by left]. split.
  - intros i x. cbn [with_memory ag_memory ag_work]. rewrite lookup_insert. case_decide as E; [|apply (ok_memory _ Hok)].
    intros [= <-]. subst i. split; [done|]. intros Ha. destruct (Hact Ha) as (b & Hb & Hba & _ & Hd). split; [done|].
    by apply (ok_memory _ Hok id b Hb).
  - intros i x. cbn [with_memory ag_memory]. rewrite lookup_insert. case_decide as E; [intros _; by subst i|apply (ok_recorded _ Hok)].
  - intros i job Hj. cbn [with_memory ag_memory ag_work] in *. destruct (ok_work _ Hok i job Hj) as (b & Hb & Hba & Hr & Hf).
    rewrite lookup_insert. case_decide as E; [|by exists b]. subst i. exists a. destruct (Hact (Hw ltac:(by eexists))) as (b' & Hb' & _ & Hd & _).
    simplify_eq. split_and!; [done|apply Hw; by eexists|by rewrite <- Hd|done].
  - intros i j x y. cbn [with_memory ag_memory]. rewrite !lookup_insert. case_decide as Ei; case_decide as Ej.
    + subst i j. done.
    + intros [= <-] Hy Hxa Hya Hij. destruct (Hact Hxa) as (b & Hb & Hba & Hd & _). rewrite <- Hd. apply (ok_apart _ Hok i j); [by subst|done..].
    + intros Hx [= <-] Hxa Hya Hij. destruct (Hact Hya) as (b & Hb & Hba & Hd & _). rewrite <- Hd. apply (ok_apart _ Hok i j); [done|by subst|done..].
    + apply (ok_apart _ Hok).
Qed.

Lemma reloaded_facts f : aq_id (reloaded f) = aq_id f ∧ aq_state (reloaded f) ≠ AcqActive.
Proof. unfold reloaded. case_bool_decide; simpl; done. Qed.

Lemma load_goes reads id ag r ag' :
  agent_ok ag → load reads id ag = (r, ag') →
  goes ag ag' ∧ ag_work ag' = ag_work ag ∧ ag_files ag' = ag_files ag ∧ (r = Ok None → ¬ recorded ag id) ∧
  (∀ a, r = Ok (Some a) → ag_memory ag' !! id = Some a).
Proof.
  intros Hok. unfold loadAcquisition. destruct (ag_memory ag !! id) as [a|] eqn:Em; [intros [= <- <-]; split_and!; [by apply goes_refl|done..|by intros ? [= <-]]|].
  destruct reads; [|intros [= <- <-]; split_and!; [by apply goes_refl|done..]]. simpl. destruct (ag_files ag !! hash id) as [f|] eqn:Ef.
  2: { intros [= <- <-]. split_and!; [by apply goes_refl|done..| |done]. intros _ (g & Hg & _). congruence. }
  destruct (_ <? _); [intros [= <- <-]; split_and!; [by apply goes_refl|done..]|]. simpl.
  destruct (bool_decide_reflect (aq_id f = id)) as [Hid|]; [|intros [= <- <-]; split_and!; [by apply goes_refl|done..]]. intros [= <- <-]. simpl.
  destruct (reloaded_facts f) as [Hi Hs]. split_and!; [|done|done|done|intros a [= <-]; by rewrite lookup_insert_eq].
  apply goes_memory; [done|by rewrite Hi|by exists f|done|]. intros [job Hj]. destruct (ok_work _ Hok id job Hj) as (b & Hb & _). congruence.
Qed.

(** ** The registry *)

Lemma begin_goes env id identity destination binding job ag r ag' :
  agent_ok ag → tree_root destination → start env id identity destination binding job ag = (r, ag') → goes ag ag'.
Proof.
  intros Hok Hd. unfold beginAcquisition. destruct (_ || _); [intros [= _ <-]; by apply goes_refl|]. destruct (ev_live env); [|intros [= _ <-]; by apply goes_refl].
  simpl. destruct (load (ev_reads env) id ag) as [old ag1] eqn:El. destruct (load_goes _ _ _ _ _ Hok El) as (Hg & Hw & Hf & Hnone & _).
  destruct old as [[a|]|e]; [destruct (_ || _); by intros [= _ <-]| |by intros [= _ <-]]. specialize (Hnone eq_refl).
  destruct (existsb _ _) eqn:Eb; [by intros [= _ <-]|]. destruct (ev_writes env); [|by intros [= _ <-]]. simpl. intros [= _ <-].
  assert (¬ recorded ag1 id) as Hnr by (unfold recorded; by rewrite Hf).
  assert (ag_work ag1 !! id = None) as Hnw.
  { destruct (ag_work ag1 !! id) as [j|] eqn:E; [|done]. exfalso. destruct (ok_work _ (go_ok _ _ Hg) id j E) as (? & _ & _ & _ & ?). done. }
  eapply goes_trans; [exact Hg|]. destruct (go_ok _ _ Hg) as [K1 K0 K2 K3]. set (at_ := mkAcquisition id identity destination binding AcqActive "" None false false).
  assert (∀ j a, ag_memory ag1 !! j = Some a → aq_state a = AcqActive → overlaps destination (aq_destination a) = false) as Hbusy.
  { intros j a Hj Ha. destruct (overlaps destination (aq_destination a)) eqn:E; [|done]. exfalso. apply not_true_iff_false in Eb. apply Eb, existsb_exists.
    exists (j, a). split; [by apply list_elem_of_In, elem_of_map_to_list|]. simpl. by rewrite Ha, E, bool_decide_eq_true_2. }
  assert (∀ i, recorded ag1 i → i = id ∨ hash i ≠ hash id) as Hother.
  { intros i (f & Hi & Hid). destruct (decide (hash i = hash id)) as [E|]; [|by right]. rewrite E in Hi. left. unfold recorded in Hnr.
    exfalso. revert El. unfold loadAcquisition. destruct (ag_memory ag !! id); [done|]. destruct (ev_reads env); [|done]. simpl. rewrite <- Hf, Hi.
    destruct (_ || _); done. }
  set (ag2 := mkAgent _ _ _ _ _).
  assert (∀ i, recorded ag1 i → recorded ag2 i) as Hkept.
  { intros i Hi. destruct (Hother i Hi) as [->|Hne]; [done|]. destruct Hi as (f & Hfi & Hid). exists f. cbn [ag2 ag_files at_ aq_id]. by rewrite lookup_insert_ne. }
  assert (recorded ag2 id) as Hrec2 by (exists at_; cbn [ag2 ag_files at_ aq_id]; by rewrite lookup_insert_eq).
  split; [|done|].
  - split; cbn [ag2 ag_memory ag_work].
    + intros i a. rewrite !lookup_insert. case_decide as E; [intros [= <-]; subst i; by split; [|split; [|eexists]]|]. intros Hi.
      by destruct (K1 i a Hi).
    + intros i a. rewrite lookup_insert. case_decide as E; [intros _; by subst i|]. intros Hi. by eapply Hkept, K0.
    + intros i j. rewrite !lookup_insert. case_decide as E.
      * intros _. subst i. by exists at_.
      * intros Hi. destruct (K2 i j Hi) as (a & Ha & Hs & Hr & Hf'). exists a. split_and!; [done..|by apply Hkept].
    + intros i j a b. rewrite !lookup_insert. case_decide as Ei; case_decide as Ej.
      * by subst.
      * intros [= <-] Hb _ Hsb _. by apply (Hbusy j b).
      * intros Ha [= <-] Hsa _ _. rewrite overlaps_sym. by apply (Hbusy i a).
      * apply K3.
  - intros i. cbn [ag2 ag_work]. rewrite lookup_insert. case_decide as E; [intros _; right; by subst|by left].
Qed.

Lemma finish_goes writes id output error ag a ag' :
  agent_ok ag → is_Some (ag_work ag !! id) → finish writes id output error ag = (a, ag') → goes ag ag' ∧ ag_work ag' !! id = None.
Proof.
  intros Hok [job Hj]. destruct (ok_work _ Hok id job Hj) as (b & Hb & Hs & Hr & (f & Hf & Hfi)). destruct (ok_memory _ Hok id b Hb) as [Hid _].
  unfold finishAcquisition. rewrite Hb, bool_decide_eq_true_2 by done. simpl.
  set (b1 := match error with Some e => ended b AcqFailed e output | None => ended b AcqSucceeded (aq_error b) output end).
  assert (aq_id b1 = id ∧ aq_state b1 ≠ AcqActive) as [Hid1 Hs1] by (unfold b1; by destruct error).
  destruct (saveAcquisition hash writes b1 ag) as [saved ag1] eqn:Esave. intros [= _ <-].
  set (b2 := closed (if saved then b1 else ended b1 AcqFailed "download.checkpoint_write_failed" output)).
  assert (aq_id b2 = id ∧ aq_state b2 ≠ AcqActive) as [Hid2 Hs2] by (unfold b2; by destruct saved).
  assert (ag_memory ag1 = ag_memory ag ∧ ag_work ag1 = ag_work ag ∧ (∀ i, recorded ag i → recorded ag1 i)) as (Em & Ew & Hrec).
  { unfold saveAcquisition in Esave. destruct writes; injection Esave as <- <-; [|done]. split_and!; [done|done|].
    intros i (g & Hg & Hgi). unfold recorded. cbn [ag_files]. rewrite Hid1. destruct (decide (hash i = hash id)) as [E|E].
    - rewrite E in Hg. rewrite Hf in Hg. injection Hg as <-. exists b1. rewrite E, lookup_insert_eq. split; [done|congruence].
    - exists g. by rewrite lookup_insert_ne. }
  split; [|cbn [with_memory ag_work]; by rewrite lookup_delete_eq]. split.
  - split; cbn [with_memory ag_memory ag_files ag_work]; rewrite ?Em, ?Ew.
    + intros i x. rewrite lookup_insert. case_decide as E; [by intros [= <-]; subst i|]. intros Hi. destruct (ok_memory _ Hok i x Hi) as [? Hx].
      split; [done|]. intros Ha. rewrite lookup_delete_ne by done. by apply Hx.
    + intros i x. rewrite lookup_insert. case_decide as E; [intros _; subst i; apply Hrec; by exists f|]. intros Hi. by eapply Hrec, (ok_recorded _ Hok).
    + intros i j. rewrite lookup_delete. case_decide as E; [done|]. intros Hij. destruct (ok_work _ Hok i j Hij) as (x & Hx & Hxs & Hxr & Hxf).
      exists x. rewrite lookup_insert_ne by done. split_and!; [done..|]. by apply Hrec.
    + intros i j x y. rewrite !lookup_insert. case_decide; [by intros [= <-]|]. case_decide; [by intros _ [= <-]|]. apply (ok_apart _ Hok).
  - intros i Hi. by apply Hrec.
  - intros i. cbn [with_memory ag_work]. rewrite Ew, lookup_delete. case_decide; [by intros [? ?]|by left].
Qed.

Lemma cancel_goes env command target ag : agent_ok ag → goes ag (cancelAcquisition hash json_size env command target ag).
Proof.
  intros Hok. unfold cancelAcquisition. destruct (load (ev_reads env) target ag) as [old ag1] eqn:El.
  destruct (load_goes _ _ _ _ _ Hok El) as (Hg & _ & _ & _ & Hm). destruct old as [[a|]|e]; [|by apply goes_send..].
  eapply goes_trans; [exact Hg|]. pose proof (go_ok _ _ Hg) as Hok1. specialize (Hm a eq_refl). destruct (ok_memory _ Hok1 target a Hm) as [Hid Ha].
  set (a' := if aq_done a then a else cancelled a).
  assert (aq_id a' = aq_id a ∧ aq_state a' = aq_state a ∧ aq_destination a' = aq_destination a ∧ aq_done a' = aq_done a) as (Ei & Es & Ed & Edn)
    by (unfold a'; by destruct (aq_done a) eqn:E; simpl; rewrite ?E).
  assert (goes ag1 (with_memory (insert target a') ag1)) as Hm'.
  { apply goes_memory; [done|by rewrite Ei|by eapply (ok_recorded _ Hok1)| |].
    - rewrite Es, Ed, Edn. intros Hs. exists a. split_and!; [done..|]. by apply Ha.
    - intros [job Hj]. destruct (ok_work _ Hok1 target job Hj) as (b & Hb & Hs & _). simplify_eq. by rewrite Es. }
  eapply goes_trans; [exact Hm'|]. apply goes_core; [apply (go_ok _ _ Hm')|done..].
Qed.

Lemma stop_goes ag : agent_ok ag → goes ag (stopAcquisitions ag).
Proof.
  intros Hok. set (f := λ a, if bool_decide (aq_state a = AcqActive) then cancelled a else a).
  assert (∀ a, aq_id (f a) = aq_id a ∧ aq_state (f a) = aq_state a ∧ aq_destination (f a) = aq_destination a ∧ aq_done (f a) = aq_done a) as Hf.
  { intros a. unfold f. by case_bool_decide. }
  split; [|done|by left]. unfold stopAcquisitions. fold f. split; cbn [with_memory ag_memory ag_work].
  - intros id a. rewrite lookup_fmap. intros (b & Hb & ->)%fmap_Some. destruct (Hf b) as (-> & -> & _ & ->). by apply (ok_memory _ Hok).
  - intros id a. rewrite lookup_fmap. intros (b & Hb & ->)%fmap_Some. by eapply (ok_recorded _ Hok).
  - intros id job Hj. destruct (ok_work _ Hok id job Hj) as (b & Hb & Hs & Hr & Hrec). exists (f b). rewrite lookup_fmap, Hb.
    destruct (Hf b) as (_ & -> & -> & _). done.
  - intros i j a b. rewrite !lookup_fmap. intros (x & Hx & ->)%fmap_Some (y & Hy & ->)%fmap_Some.
    destruct (Hf x) as (_ & -> & -> & _), (Hf y) as (_ & -> & -> & _). by apply (ok_apart _ Hok).
Qed.

Lemma restart_goes ag : agent_ok ag → goes ag (restarted ag).
Proof.
  intros _. split; [|done|intros id [? H]; cbn in H; by rewrite lookup_empty in H]. split; cbn [restarted ag_memory ag_work].
  - intros id a H. by rewrite lookup_empty in H.
  - intros id a H. by rewrite lookup_empty in H.
  - intros id job H. by rewrite lookup_empty in H.
  - intros i j a b H. by rewrite lookup_empty in H.
Qed.

(** ** Where commands write *)

Lemma sha_name d : sha256RE d = true → name (trim_prefix "sha256:" d) = true.
Proof.
  unfold sha256RE, trim_prefix, cut_prefix. destruct (has_prefix "sha256:" d) eqn:E; [|done]. apply has_prefix_spec in E as [r ->]. rewrite sdrop_app.
  intros [Hl Hh]%andb_prop. apply Nat.eqb_eq in Hl. apply name_spec. split_and!; [by intros ->..|].
  clear Hl. induction r as [|a r IH]; [done|]. simpl in *. apply andb_prop in Hh as [Ha Hh]. rewrite (IH Hh), orb_false_r. apply bool_decide_eq_false. intros E. subst a. discriminate Ha.
Qed.

Lemma model_dir_name r : name (model_dir r) = true.
Proof.
  apply name_spec. unfold model_dir. split_and!; [done..|]. rewrite contains_byte_app. simpl.
  induction r as [|a r IH]; [done|]. simpl. rewrite contains_byte_app, IH, orb_false_r. case_decide as E; [done|]. simpl. rewrite orb_false_r.
  apply bool_decide_eq_false. intros E'. by apply E.
Qed.

Lemma decoded_root raw i spec : decodeResourceSpec parse_url decode_spec raw i = Some spec → tree_root (rs_destination spec).
Proof.
  unfold decodeResourceSpec. destruct (_ || _); [done|]. destruct (decode_spec raw) as [s|]; [|done]. simpl.
  assert (∀ s', rs_destination s' = rs_destination s → Validate parse_url s' = true → tree_root (rs_destination s)) as H.
  { intros s' E. unfold Validate, destination_ok. rewrite E, !andb_true_iff, negb_true_iff, bool_decide_eq_false, bool_decide_eq_true.
    intros (((((_ & (((_ & Ha) & Hr) & Hc) & _) & _) & _) & _) & _). done. }
  destruct i; [destruct (ValidateInspection parse_url s) eqn:Ev|destruct (Validate parse_url s) eqn:Ev]; [|done| |done]; intros [= <-].
  - eapply H; [|exact Ev]. by destruct (_ && _).
  - by eapply H.
Qed.

(** The resources transfers and updates are authorised for *)
Definition placed_by_name (spec : ResourceSpec) : Prop :=
  match rs_kind spec with
  | ResourceRecipe => sha256RE (s_digest (rs_source spec)) = true
  | ResourceArtifact => s_type (rs_source spec) = SourceHuggingFace ∨ (s_type (rs_source spec) = SourceLocal ∧ sha256RE (s_digest (rs_source spec)) = true)
  | ResourceImage => False
  end.

Lemma authorized_root env spec x : authorizeDownload cfg env spec = Ok x → placed_by_name spec → tree_root (rs_destination spec).
Proof.
  unfold authorizeDownload, placed_by_name. destruct (safeDestination _ _) as [[]|] eqn:Es; [|done].
  assert (IsAbs (rs_destination spec) = true) as Ha by (unfold safeDestination in Es; by destruct (IsAbs (rs_destination spec))).
  destruct (rs_kind spec); [| |done].
  - destruct (find _ _) as [root|] eqn:Ef; [|done]. apply find_some in Ef as [_ Hin%bool_decide_eq_true]. intros _ [Ht|[Ht Hd]]; unfold artifact_homes in Hin; rewrite Ht in Hin.
    + apply elem_of_cons in Hin as [E|E%list_elem_of_singleton]; rewrite E in *.
      * apply (Join_tree_root [root; "hub"]); [done|apply model_dir_name].
      * apply (Join_tree_root [root]); [done|apply model_dir_name].
    + apply list_elem_of_singleton in Hin as E. rewrite E in *. apply (Join_tree_root [root; "files"]); [done|by apply sha_name].
  - case_bool_decide as E; [|done]. intros _ Hd. rewrite <- E in *. apply (Join_tree_root [cfg_state_root cfg; "recipes"]); [done|by apply sha_name].
Qed.

Lemma Parse_digest identity parsed : Parse identity = Ok parsed → p_kind parsed = "file" ∨ p_kind parsed = "recipe" → sha256RE (p_digest parsed) = true.
Proof.
  unfold Parse. destruct (has_prefix "hf://" identity).
  - destruct (cut _ _) as [[x y] z]. destruct (negb z); [done|]. destruct (bool_decide _); [|done]. intros [= <-] [?|?]; done.
  - destruct (has_prefix "file://" identity).
    { destruct (sha256RE _) eqn:E; [|done]. by intros [= <-]. }
    destruct (has_prefix "recipe://" identity).
    { destruct (sha256RE _) eqn:E; [|done]. by intros [= <-]. }
    destruct (cut _ _) as [[x y] z]. destruct (_ && _); [|done]. intros [= <-] [?|?]; done.
Qed.

Lemma transfer_spec_named identity destination spec : transfer_spec identity destination = Ok spec → placed_by_name spec ∧ rs_destination spec = destination.
Proof.
  unfold transfer_spec. destruct (Parse identity) as [parsed|] eqn:Ep; [|done]. destruct (bool_decide_reflect (p_kind parsed = "model")).
  - destruct (cut _ _) as [[x y] z]. intros [= <-]. split; [by left|done].
  - destruct (bool_decide_reflect (p_kind parsed = "recipe")).
    { intros [= <-]. split; [|done]. eapply Parse_digest; [done|by right]. }
    destruct (bool_decide_reflect (p_kind parsed = "file")); [|done]. intros [= <-]. split; [|done]. right. split; [done|]. eapply Parse_digest; [done|by left].
Qed.

Context (state_root : tree_root (cfg_state_root cfg)).

Lemma transfer_dir_root : tree_root (TransferDir cfg).
Proof.
  destruct (tree_root_names _ state_root) as (E & Hn & Hne). unfold TransferDir. rewrite E.
  assert (render_path true (clean_of (cfg_state_root cfg)) +:+ "/transfers" = render_path true (clean_of (cfg_state_root cfg) ++ ["transfers"])) as Ej.
  { unfold render_path. rewrite join_app_names by done. by rewrite sapp_assoc. }
  assert (names (clean_of (cfg_state_root cfg) ++ ["transfers"])) as Hall by (apply Forall_app; split; [done|by repeat constructor]).
  rewrite Ej. split_and!; [done|by apply Clean_render|]. destruct (clean_of (cfg_state_root cfg)) as [|x xs]; [done|].
  apply Forall_cons in Hn as [Hx _]. apply name_spec in Hx as (Hx & _). destruct x as [|a x]; [done|]. intros Eq.
  destruct (xs ++ ["transfers"]) eqn:Exs; simpl in Eq; rewrite Exs in Eq; by injection Eq.
Qed.

Lemma transferDestination_root env c d : transferDestination cfg env c = Ok d → tree_root d.
Proof.
  unfold transferDestination.
  assert (match transfer_spec (tc_identity c) (tc_destination c) with Err e => Err e
    | Ok spec => match authorizeDownload cfg env spec with Ok _ => Ok (tc_destination c) | Err e => Err e end end = Ok d → tree_root d) as H.
  { destruct (transfer_spec _ _) as [spec|] eqn:Es; [|done]. destruct (transfer_spec_named _ _ _ Es) as [Hp Hd].
    destruct (authorizeDownload cfg env spec) as [x|] eqn:Ea; [|done]. intros [= <-]. rewrite <- Hd. by eapply authorized_root. }
  destruct (tc_op c); [|exact H..]. destruct (safeRelativePath (tc_destination c)) as [rel|] eqn:Er; [|done].
  destruct (safeDestination _ _) as [[]|]; [|done]. intros [= <-]. eapply Join_safe_within; [apply transfer_dir_root|done].
Qed.

Lemma legacy_named env identity root spec : legacyResource cfg env identity root = Ok spec → placed_by_name spec.
Proof.
  unfold legacyResource. destruct (Parse identity) as [parsed|] eqn:Ep; [|done]. destruct (has_prefix "recipe://" identity) eqn:Er.
  - intros [= <-]. cbn [placed_by_name rs_kind rs_source s_digest]. eapply Parse_digest; [done|]. revert Ep Er. unfold Parse.
    destruct (has_prefix "hf://" identity) eqn:Eh.
    { intros _ H%has_prefix_spec. apply has_prefix_spec in Eh as [x ->]. destruct H as [y Hy]. discriminate Hy. }
    destruct (has_prefix "file://" identity) eqn:Ef.
    { intros _ H%has_prefix_spec. apply has_prefix_spec in Ef as [x ->]. destruct H as [y Hy]. discriminate Hy. }
    intros H Hr. rewrite Hr in H. destruct (sha256RE _); [|done]. injection H as <-. by right.
  - destruct (negb _); [done|]. destruct (bool_decide _); [|done]. destruct (cut _ _) as [[x y] z]. intros [= <-]. by left.
Qed.

(** ** Steps *)

Lemma answer_begin_goes env id identity d binding job ag :
  agent_ok ag → tree_root d → goes ag (answer_begin id (start env id identity d binding job ag)).
Proof.
  intros Hok Hd. destruct (start env id identity d binding job ag) as [r ag'] eqn:E. apply begin_goes in E; [|done..].
  destruct r as [[a []]|e]; [done| |by apply goes_send]. simpl. eapply goes_trans; [exact E|]. apply goes_core; [apply (go_ok _ _ E)|done..].
Qed.

Lemma download_goes env c ag : agent_ok ag → goes ag (handleDownload cfg hash parse_url decode_spec decode_material json_size env c ag).
Proof.
  intros Hok. pose proof (goes_refl _ Hok) as H0. unfold handleDownload. destruct (_ || _); [by apply goes_send|].
  assert (∀ op i fetch, goes ag match decodeResourceSpec parse_url decode_spec (dc_resource c) i with
    | None => downloadResult (dc_id c) None (Some "download.resource_invalid") ag
    | Some spec => match downloadCredential decode_material spec (dc_credential c) with
      | Err e => downloadResult (dc_id c) None (Some e) ag
      | Ok credential => match authorizeDownload cfg env spec with
        | Err e => downloadResult (dc_id c) None (Some e) ag
        | Ok root => answer_begin (dc_id c) (start env (dc_id c) (rs_identity spec) (rs_destination spec)
            (dc_item c +:+ ":" +:+ op_code op +:+ ":" +:+ hash (dc_resource c)) (DownloadJob (dc_item c) fetch spec root credential) ag)
        end end end) as H.
  { intros op i fetch. destruct (decodeResourceSpec _ _ _ _) as [spec|] eqn:Ed; [|by apply goes_send]. destruct (downloadCredential _ _ _); [|by apply goes_send].
    destruct (authorizeDownload cfg env spec); [|by apply goes_send]. apply answer_begin_goes; [done|by eapply decoded_root]. }
  destruct (dc_op c); [by apply goes_send|apply H|apply H|by apply cancel_goes].
Qed.

Lemma transfer_goes env c ag : agent_ok ag → goes ag (handleTransfer cfg hash decode_cred json_size env c ag).
Proof.
  intros Hok. pose proof (goes_refl _ Hok) as H0. unfold handleTransfer.
  assert (goes ag (if negb (bool_decide (tc_role c = "dest")) then ag else match transferDestination cfg env c with
    | Err e => downloadResult (tc_id c) None (Some e) ag
    | Ok destination => match decode_cred (tc_credential c) with
      | None => downloadResult (tc_id c) None (Some "credential") ag
      | Some k => answer_begin (tc_id c) (start env (tc_id c) (tc_identity c) destination
          (join "|" [cr_source k; cr_src_path k; cr_source_digest k; cr_identity k; cr_tree k]) (TransferJob (tc_identity c) (cr_artifact k) destination) ag)
      end end)) as H.
  { destruct (negb _); [done|]. destruct (transferDestination cfg env c) as [d|] eqn:Ed; [|by apply goes_send]. destruct (decode_cred _); [|by apply goes_send].
    apply answer_begin_goes; [done|by eapply transferDestination_root]. }
  destruct (tc_op c); [exact H|exact H|by apply cancel_goes|]. destruct (load (ev_reads env) (tc_target c) ag) as [old ag1] eqn:El.
  destruct (load_goes _ _ _ _ _ Hok El) as (Hg & _). destruct old as [[a|]|e]; by apply goes_send.
Qed.

Lemma artifact_goes env c ag :
  agent_ok ag → goes ag (handleArtifact cfg hash parse_url decode_spec decode_material decode_updates encode_spec encode_material json_size env c ag).
Proof.
  intros Hok. pose proof (goes_refl _ Hok) as H0. unfold handleArtifact, handleRecipeUpdate. destruct (ac_op c).
  1,2: destruct (legacyResource cfg env _ _); [by apply download_goes|by apply goes_send].
  - by apply download_goes.
  - destruct (negb _); [by apply goes_send|]. destruct (legacyResource cfg env _ _) as [spec|] eqn:El; [|by apply goes_send].
    destruct (_ || _); [by apply goes_send|]. destruct (authorizeDownload cfg env spec) eqn:Ea; [|by apply goes_send].
    apply answer_begin_goes; [done|]. eapply authorized_root; [done|by eapply legacy_named].
  - by apply goes_send.
Qed.

Lemma complete_goes writes id job w ag :
  agent_ok ag → ag_work ag !! id = Some job → goes ag (complete hash decode_auth writes id job w ag) ∧ ag_work (complete hash decode_auth writes id job w ag) !! id = None.
Proof.
  intros Hok Hj. assert (∀ m, agent_ok (send m ag)) as Hsend by (intros m; apply (go_ok ag), goes_send, goes_refl, Hok).
  assert (∀ o e ag0, (ag0 = ag ∨ ∃ m', ag0 = send m' ag) → goes ag (snd (finish writes id o e ag0)) ∧ ag_work (snd (finish writes id o e ag0)) !! id = None) as H.
  { intros o e ag0 Hag. assert (agent_ok ag0 ∧ goes ag ag0 ∧ ag_work ag0 = ag_work ag) as (Hok0 & Hg0 & Ew).
    { destruct Hag as [->|[m' ->]]; [split_and!; [done|by apply goes_refl|done]|split_and!; [done|by apply goes_send, goes_refl|done]]. }
    destruct (finish writes id o e ag0) as [a ag1] eqn:Ef. destruct (finish_goes _ _ _ _ _ _ _ Hok0 ltac:(rewrite Ew; by eexists) Ef) as [Hg Hn].
    split; [|done]. by eapply goes_trans. }
  unfold complete. destruct job as [item fetch spec root credential|identity artifact d|identity d].
  - destruct (download_outcome item fetch w) as [o e]. set (e' := match e with Some _ => _ | None => _ end).
    set (ag0 := match e' with None => _ | Some _ => _ end). assert (ag0 = ag ∨ ∃ m', ag0 = send m' ag) as Hag.
    { unfold ag0. destruct e'; [by left|]. destruct (_ && _); [right; by eexists|by left]. }
    specialize (H (Some o) e' ag0 Hag). destruct (finish writes id (Some o) e' ag0) as [a ag1]. split; [apply goes_send|]; apply H.
  - set (ag0 := match wo_fetch w with None => _ | Some _ => _ end). assert (ag0 = ag ∨ ∃ m', ag0 = send m' ag) as Hag.
    { unfold ag0. destruct (wo_fetch w); [by left|right; by eexists]. }
    set (o := transfer_output _ _ _). specialize (H (Some o) (wo_fetch w) ag0 Hag).
    destruct (finish writes id (Some o) (wo_fetch w) ag0) as [a ag1]. destruct (wo_fetch w); (split; [repeat apply goes_send|]; apply H).
  - set (e := match wo_fetch w, snd (wo_after w) with Some e, _ => Some e | None, Some e => Some e | None, None => wo_context w end).
    set (ag0 := match wo_fetch w with None => _ | Some _ => _ end). assert (ag0 = ag ∨ ∃ m', ag0 = send m' ag) as Hag.
    { unfold ag0. destruct (wo_fetch w); [by left|right; by eexists]. }
    specialize (H None e ag0 Hag). destruct (finish writes id None e ag0) as [a ag1]. split; [apply goes_send|]; apply H.
Qed.

Lemma step_goes ag ag' : agent_ok ag → step ag ag' → goes ag ag'.
Proof.
  intros Hok. destruct 1 as [env c ag|env c ag|env c ag|writes id job w ag Hj|w ws1 ws2 a ag Hw Ha Hd|w ws1 ws2 ag Hw|ag|ag].
  - by apply download_goes.
  - by apply transfer_goes.
  - by apply artifact_goes.
  - by apply complete_goes.
  - destruct w; simpl; apply goes_send, goes_core; done.
  - destruct w; simpl; [by apply goes_core|]. apply goes_send, goes_core; done.
  - by apply stop_goes.
  - by apply restart_goes.
Qed.

Lemma steps_go ag ag' : agent_ok ag → rtc step ag ag' → goes ag ag'.
Proof.
  intros Hok H. induction H as [ag|a b c Hs _ IH]; [by apply goes_refl|]. pose proof (step_goes _ _ Hok Hs) as Hg.
  eapply goes_trans; [exact Hg|apply IH, (go_ok _ _ Hg)].
Qed.

Lemma fresh_ok : agent_ok fresh_agent.
Proof. split; cbn; [intros id a H|intros id a H|intros id job H|intros i j a b H]; by rewrite lookup_empty in H. Qed.

Lemma work_recorded ag id : agent_ok ag → is_Some (ag_work ag !! id) → recorded ag id.
Proof. intros Hok [job Hj]. by destruct (ok_work _ Hok id job Hj) as (? & _ & _ & _ & ?). Qed.

(** Once started and over, a command stays over *)
Lemma over_stays ag ag' id : agent_ok ag → recorded ag id → ag_work ag !! id = None → rtc step ag ag' → ag_work ag' !! id = None.
Proof.
  intros Hok Hr Hn Hs. pose proof (steps_go _ _ Hok Hs) as Hg. destruct (ag_work ag' !! id) as [j|] eqn:E; [|done].
  destruct (go_new _ _ Hg id ltac:(by eexists)) as [[? ?]|?]; [congruence|done].
Qed.

(** A path a running acquisition may write *)
Definition writes_below (ag : Agent) (id p : string) : Prop :=
  ∃ a, is_Some (ag_work ag !! id) ∧ ag_memory ag !! id = Some a ∧ pathWithin p (aq_destination a) = true.

(** C24: An agent never writes a path for two commands at once, and never carries a command out twice: whatever downloads,
    transfers, updates and cancellations come, repeated or not, whether or not its records can be read and written, and
    across restarts of its process, the trees of the acquisitions at work have no path in common, and a command whose
    work is over does not start again. *)
Theorem acquisitions_exclusive ag :
  rtc step fresh_agent ag →
  (∀ i j p, IsAbs p = true → writes_below ag i p → writes_below ag j p → i = j) ∧
  (∀ id ag1 ag2, is_Some (ag_work ag !! id) → rtc step ag ag1 → ag_work ag1 !! id = None → rtc step ag1 ag2 → ag_work ag2 !! id = None).
Proof.
  intros Hs. pose proof (go_ok _ _ (steps_go _ _ fresh_ok Hs)) as Hok. split.
  - intros i j p Hp (a & [ji Hi] & Ha & Hwa) (b & [jj Hj] & Hb & Hwb). destruct (decide (i = j)) as [|Hne]; [done|]. exfalso.
    destruct (ok_work _ Hok i ji Hi) as (a' & Ha' & Hsa & Hra & _). destruct (ok_work _ Hok j jj Hj) as (b' & Hb' & Hsb & Hrb & _). simplify_eq.
    pose proof (ok_apart _ Hok i j a b Ha Hb Hsa Hsb Hne) as Ho. apply orb_false_iff in Ho as [Ho1 Ho2].
    by apply (trees_apart (aq_destination a) (aq_destination b) p).
  - intros id ag1 ag2 Hw H1 Hn H2. pose proof (steps_go _ _ Hok H1) as Hg. eapply over_stays; [apply (go_ok _ _ Hg)| |done|exact H2].
    by apply (go_recorded _ _ Hg), work_recorded.
Qed.

(** A command is being carried out *)
Definition at_work (ag : Agent) (id : string) : bool := bool_decide (is_Some (ag_work ag !! id)).


(** The answer of a fetch that succeeded says that the resource is there, and was not refused in between *)
Lemma fetch_answer item w o : download_outcome item true w = (o, None) → co_state o = ResourceAvailable ∧ co_item o = item.
Proof.
  unfold download_outcome. destruct (wo_before w) as [o1 [e1|]]; [done|]. simpl. destruct (bool_decide_reflect (co_state o1 = ResourceAvailable)) as [E|]; simpl.
  - intros [= <- _]. done.
  - destruct (bool_decide (co_state o1 = ResourceInvalid)); [done|]. destruct (wo_fetch w); [done|]. destruct (wo_after w) as [o2 [e2|]]; [done|].
    simpl. case_bool_decide; [|done]. by intros [= <- _].
Qed.

(** A transfer that succeeded but could not be recorded is answered with success, and when its command comes again with a failure *)
Lemma transfer_answer_unsaved id identity artifact d w ag a :
  ag_memory ag !! id = Some a → aq_state a = AcqActive → wo_fetch w = None →
  let ag' := complete hash decode_auth false id (TransferJob identity artifact d) w ag in
  ag_sent ag' = ag_sent ag ++ [Placement artifact d (default 0 (co_size (fst (wo_after w)))); Result id (Some (Output (transfer_output identity d None))) None] ∧
  ∃ b, ag_memory ag' !! id = Some b ∧ aq_done b = true ∧ aq_error b = "download.checkpoint_write_failed".
Proof.
  intros Ha Hs Hw. unfold complete. rewrite Hw. unfold finishAcquisition. cbn [send ag_memory]. rewrite Ha, bool_decide_eq_true_2 by done. simpl. split.
  - by rewrite <- app_assoc.
  - eexists. by rewrite lookup_insert_eq.
Qed.
End facts.

(** ** Two downloads *)

Definition sample_config : AgentConfig := mkAgentConfig "/var/lib/agent" ["/cache"].

Definition other_digest : string := "sha256:cccccccccccccccccccccccccccccccccccccccccccccccccccccccccccccccc".

Definition file_spec (digest : string) : ResourceSpec :=
  mkSpec ResourceArtifact ("file://" +:+ digest) (mkSourceSpec SourceFile "" "" "" digest) ("/cache/files/" +:+ trim_prefix "sha256:" digest) "" "" "" None.

Definition sample_decode (raw : string) : option ResourceSpec := Some (file_spec (if bool_decide (raw = "b") then sample_digest else other_digest)).

Definition sample_env : Env := mkEnv true true true (λ _, EntryAbsent) (λ _, true) (λ _, false) None.

Definition fetch_command (id raw : string) : DownloadCommand := mkDownload id "item" OpFetch raw "" "".

Definition cancel_command (id target : string) : DownloadCommand := mkDownload id "item" OpCancel "" "" target.

Notation sample_step := (astep sample_config id no_urls sample_decode (λ _, None) (λ _, None) (λ _, false) (λ _, "") (λ _, "") (λ _, 0) (λ _, None)).

Definition receive (c : DownloadCommand) : Agent → Agent := handleDownload sample_config id no_urls sample_decode (λ _, None) (λ _, 0) sample_env c.

Definition two_at_work : Agent := receive (fetch_command "c2" "c") (receive (fetch_command "c1" "b") fresh_agent).

Lemma receive_step c ag : sample_step ag (receive c ag).
Proof. apply step_download. Qed.

Lemma two_reachable : rtc sample_step fresh_agent two_at_work.
Proof. eapply rtc_l; [apply receive_step|]. apply rtc_once, receive_step. Qed.

Lemma sample_state_root : tree_root (cfg_state_root sample_config).
Proof. split_and!; [done|vm_compute; reflexivity|done]. Qed.

Definition missing_file : Work := mkWork (transfer_output "" "" (Some ""), None) (Some "no origin") (transfer_output "" "" None, None) None.

Definition first_job : Job := DownloadJob "item" true (file_spec sample_digest) "/cache" None.

Definition first_over : Agent := complete id (λ _, None) true "c1" first_job missing_file two_at_work.

Lemma acquisitions_exclusive_witness :
  is_Some (ag_work two_at_work !! "c1") ∧ is_Some (ag_work two_at_work !! "c2") ∧
  ¬ writes_below two_at_work "c2" ("/cache/files/" +:+ trim_prefix "sha256:" sample_digest +:+ "/x") ∧
  ag_work (receive (fetch_command "c1" "b") first_over) !! "c1" = None.
Proof.
  assert (ag_work two_at_work !! "c1" = Some first_job) as H1 by (vm_compute; reflexivity).
  assert (is_Some (ag_work two_at_work !! "c2")) as H2 by (vm_compute; eauto).
  destruct (acquisitions_exclusive sample_config id no_urls sample_decode (λ _, None) (λ _, None) (λ _, false) (λ _, "") (λ _, "") (λ _, 0) (λ _, None)
    sample_state_root two_at_work two_reachable) as [Hx Ho].
  split_and!; [by eexists|done| |].
  - intros Hw. assert (writes_below two_at_work "c1" ("/cache/files/" +:+ trim_prefix "sha256:" sample_digest +:+ "/x")) as Hw1.
    { eexists. split_and!; [by eexists|vm_compute; reflexivity|vm_compute; reflexivity]. }
    pose proof (λ Hp, Hx "c1" "c2" _ Hp Hw1 Hw) as E. discriminate (E eq_refl).
  - apply (Ho "c1" first_over).
    + by eexists.
    + apply rtc_once, step_complete. exact H1.
    + vm_compute. reflexivity.
    + apply rtc_once, receive_step.
Defined.

(** The first one is cancelled and ends *)
Definition cancelling : Agent := complete id (λ _, None) true "c1" first_job missing_file (receive (cancel_command "c3" "c1") two_at_work).

