(* ===== verification/AgentFetch.v ===== *)
(** * How an agent fetches a model: [fetchHFSnapshot], [resumeHTTPFile] and [retryResumeHTTPFile] of
      [internal/agent/artifact.go], and the fetch of a single file in [download.go]

    The store is the regular files and the symbolic links of the device by path; a link holds the path of its blob, and
    directories and modes are left out.  The [i]th request to a server has its own answer: a transport error, or a status
    with its [Content-Range] and the bytes that arrived, after which the body may have broken off.  The files of a snapshot
    are fetched by a pool of workers; here one after the other, in the order they are finished, and the publication of a
    blob, where workers meet, is in two parts.  SHA-1 and SHA-256 in hex are arguments; the context is not cancelled. *)

From S2P Require Import Prelude GoStrings Paths ArtifactIdentity Resources Recipe Inventory DownloadPlan AgentFiles.
Open Scope Z_scope.

(** ** The device and the server *)

Record SnapshotFile := mkSnapshotFile { sf_path : string; sf_size : Z; sf_digest : string }.

#[export] Instance SnapshotFile_eq_dec : EqDecision SnapshotFile.
Proof. solve_decision. Defined.

(** [hfSnapshotManifest], decoded *)
Record SnapshotRecord := mkRecord { sr_version : Z; sr_identity : string; sr_files : list SnapshotFile }.

Record Store := mkStore {
  st_files : gmap string string;
  st_links : gmap string string;
  st_records : gmap string SnapshotRecord;
  st_requests : nat;
}.

Record Response := mkResponse { rp_status : Z; rp_range : string; rp_body : string; rp_broken : bool }.

Inductive fetch_error := HttpStatus (code : Z) | FetchFailed (what : string).

Definition StatusOK : Z := 200.
Definition StatusPartialContent : Z := 206.
Definition StatusRequestTimeout : Z := 408.
Definition StatusTooManyRequests : Z := 429.
Definition StatusInternalServerError : Z := 500.

Definition hfDownloadAttempts : nat := 5.

(** What [os.Stat] and [os.Open] find *)
Definition content (s : Store) (p : string) : option string :=
  match st_files s !! p with Some c => Some c | None => st_links s !! p ≫= λ q, st_files s !! q end.

Definition lstat_of (s : Store) (p : string) : entry :=
  if bool_decide (is_Some (st_links s !! p)) then EntryLink else if bool_decide (is_Some (st_files s !! p)) then EntryOther else EntryAbsent.

Definition occupied (s : Store) (p : string) : bool := match lstat_of s p with EntryAbsent => false | _ => true end.

Definition with_files (f : gmap string string → gmap string string) (s : Store) : Store := mkStore (f (st_files s)) (st_links s) (st_records s) (st_requests s).
Definition with_link (p q : string) (s : Store) : Store := mkStore (st_files s) (<[p := q]> (st_links s)) (st_records s) (st_requests s).

(** [os.Remove] of a file *)
Definition remove (p : string) (s : Store) : result fetch_error Store :=
  if occupied s p then Ok (mkStore (delete p (st_files s)) (delete p (st_links s)) (st_records s) (st_requests s)) else Err (FetchFailed "remove").

Definition sized (c : string) : Z := Z.of_nat (String.length c).

(** ** Digests *)

Section fetch.
Context (hash sha1 : string → string).

Definition validHFFileDigest (digest : string) : bool :=
  let '(prefix, value, ok) := cut ":"%char digest in
  ok && ((bool_decide (prefix = "sha256") && (String.length value =? 64)%nat) || (bool_decide (prefix = "git-sha1") && (String.length value =? 40)%nat))
  && sforallb lower_hex value.

Definition digest_of (digest : string) (size : Z) (c : string) : string :=
  if has_prefix "git-sha1:" digest then "git-sha1:" +:+ sha1 ("blob " +:+ Itoa size +:+ String "000" c) else "sha256:" +:+ hash c.

(** The bytes are the expected ones *)
Definition exact (size : Z) (digest c : string) : bool :=
  (sized c =? size) && validHFFileDigest digest && bool_decide (digest_of digest size c = digest).

Definition existingSnapshotFile (s : Store) (link : string) (size : Z) (digest : string) : bool :=
  match content s link with Some c => exact size digest c | None => false end.

(** ** One request *)

Context (serve : nat → string → option Z → option Response).

(** The file a path stands for when it is opened *)
Definition opened (s : Store) (p : string) : string := match st_files s !! p with Some _ => p | None => default p (st_links s !! p) end.

(** [os.OpenFile] and [io.Copy]: at most one byte more than is missing is written *)
Definition write_body (dest : string) (base : string) (missing : Z) (body : string) (s : Store) : Store :=
  with_files (insert (opened s dest) (base +:+ stake (Z.to_nat (missing + 1)) body)) s.

Definition receive_body (dest base : string) (expected : Z) (r : Response) (s : Store) : result fetch_error unit * Store :=
  let missing := expected - sized base in
  let s := write_body dest base missing (rp_body r) s in
  if rp_broken r then (Err (FetchFailed "copy"), s)
  else if sized base + sized (stake (Z.to_nat (missing + 1)) (rp_body r)) =? expected then (Ok tt, s)
  else (Err (FetchFailed "download size"), s).

Definition asked_once (s : Store) : Store := mkStore (st_files s) (st_links s) (st_records s) (S (st_requests s)).

Definition resumeHTTPFile (url dest : string) (expected : Z) (s : Store) : result fetch_error unit * Store :=
  let '(base, s) :=
    match content s dest with
    | None => ("", s)
    | Some c => if expected <? sized c then ("", match remove dest s with Ok s => s | Err _ => s end) else (c, s)
    end in
  let offset := sized base in
  if offset =? expected then ((if bool_decide (is_Some (content s dest)) then Ok tt else Err (FetchFailed "chmod")), s)
  else
    match serve (st_requests s) url (if 0 <? offset then Some offset else None) with
    | None => (Err (FetchFailed "transport"), asked_once s)
    | Some r =>
        let s := asked_once s in
        if (0 <? offset) && (rp_status r =? StatusPartialContent) then
          if negb (bool_decide (rp_range r = "bytes " +:+ Itoa offset +:+ "-" +:+ Itoa (expected - 1) +:+ "/" +:+ Itoa expected))
          then (Err (FetchFailed "download.content_range_invalid"), s)
          else receive_body dest base expected r s
        else if rp_status r =? StatusOK then receive_body dest "" expected r s
        else (Err (HttpStatus (rp_status r)), s)
    end.

Definition retryable (e : fetch_error) : bool :=
  match e with
  | HttpStatus code => (code =? StatusRequestTimeout) || (code =? StatusTooManyRequests) || (StatusInternalServerError <=? code)
  | FetchFailed _ => true
  end.

(** [retryResumeHTTPFile] with [n] attempts left *)
Fixpoint retry (n : nat) (url dest : string) (expected : Z) (s : Store) : result fetch_error unit * Store :=
  match n with
  | O => (Err (FetchFailed "download failed"), s)
  | S n =>
      match resumeHTTPFile url dest expected s with
      | (Ok _, s) => (Ok tt, s)
      | (Err e, s) => if retryable e then retry n url dest expected s else (Err e, s)
      end
  end.

Definition retryResumeHTTPFile : string → string → Z → Store → result fetch_error unit * Store := retry hfDownloadAttempts.

(** ** One file of a snapshot *)

Record DownloadTask := mkTask {
  tk_index : nat; tk_rel : string; tk_size : Z; tk_digest : string; tk_link : string; tk_partial : string; tk_url : string; tk_blob : string }.

Definition good (s : Store) (p : string) (t : DownloadTask) : bool := existingSnapshotFile s p (tk_size t) (tk_digest t).

Definition bind_store {A B} (r : result fetch_error A * Store) (k : A → Store → result fetch_error B * Store) : result fetch_error B * Store :=
  match r with (Ok a, s) => k a s | (Err e, s) => (Err e, s) end.

(** A file of the right size and the wrong content is not resumed *)
Definition drop_corrupt (t : DownloadTask) (s : Store) : result fetch_error unit * Store :=
  match content s (tk_partial t) with
  | Some c =>
      if (sized c =? tk_size t) && negb (good s (tk_partial t) t)
      then match remove (tk_partial t) s with Ok s => (Ok tt, s) | Err e => (Err e, s) end
      else (Ok tt, s)
  | None => (Ok tt, s)
  end.

(** The partial file, fetched, and once more from the start where what was retained of it was wrong *)
Definition fetch_partial (t : DownloadTask) (s : Store) : result fetch_error unit * Store :=
  bind_store (drop_corrupt t s) (λ _ s,
  bind_store (retryResumeHTTPFile (tk_url t) (tk_partial t) (tk_size t) s) (λ _ s,
  if good s (tk_partial t) t then (Ok tt, s)
  else match remove (tk_partial t) s with
       | Err e => (Err e, s)
       | Ok s =>
           bind_store (retryResumeHTTPFile (tk_url t) (tk_partial t) (tk_size t) s) (λ _ s,
           if good s (tk_partial t) t then (Ok tt, s) else (Err (FetchFailed "digest mismatch"), s))
       end)).

(** What is found where the blob belongs *)
Inductive blob_view := BlobThere (valid : bool) | BlobMissing.

Definition look_blob (t : DownloadTask) (s : Store) : blob_view :=
  match content s (tk_blob t) with Some _ => BlobThere (good s (tk_blob t) t) | None => BlobMissing end.

(** [os.Link] fails where something is *)
Definition place_blob (v : blob_view) (t : DownloadTask) (s : Store) : result fetch_error Store :=
  match v with
  | BlobThere true => remove (tk_partial t) s
  | BlobThere false => Err (FetchFailed "download.active_file_invalid")
  | BlobMissing =>
      match content s (tk_partial t) with
      | None => Err (FetchFailed "link")
      | Some c => if occupied s (tk_blob t) then Err (FetchFailed "file exists") else remove (tk_partial t) (with_files (insert (tk_blob t) c) s)
      end
  end.

Definition safe_at (s : Store) (p : string) : bool := is_ok (safeDestination (lstat_of s) p).

(** The directory of a clean path *)
Definition parent (p : string) : string := render_path (IsAbs p) (removelast (clean_of p)).

Definition link_file (t : DownloadTask) (s : Store) : result fetch_error Store :=
  if negb (safe_at s (parent (tk_link t))) then Err (FetchFailed "download.destination_symlink")
  else if occupied s (tk_link t) then Err (FetchFailed "file exists") else Ok (with_link (tk_link t) (tk_blob t) s).

Definition lift_store (r : result fetch_error Store) (s : Store) : result fetch_error unit * Store :=
  match r with Ok s => (Ok tt, s) | Err e => (Err e, s) end.

(** [downloadOne] *)
Definition downloadOne (t : DownloadTask) (s : Store) : result fetch_error SnapshotFile * Store :=
  bind_store (fetch_partial t s) (λ _ s,
  if negb (safe_at s (tk_blob t)) then (Err (FetchFailed "download.destination_symlink"), s)
  else bind_store (lift_store (place_blob (look_blob t s) t s) s) (λ _ s,
       bind_store (lift_store (link_file t s) s) (λ _ s, (Ok (mkSnapshotFile (tk_rel t) (tk_size t) (tk_digest t)), s)))).

(** ** A snapshot *)

(** A file in the answer of the hub *)
Record Sibling := mkSibling { sb_name : string; sb_blob : string; sb_size : Z; sb_lfs : option (string * Z) }.

Definition sibling_size (b : Sibling) : Z := match sb_lfs b with Some (_, n) => n | None => sb_size b end.
Definition sibling_digest (b : Sibling) : string := match sb_lfs b with Some (d, _) => "sha256:" +:+ d | None => "git-sha1:" +:+ sb_blob b end.

Definition size_ok (b : Sibling) : bool := (0 <=? sibling_size b) && (sibling_size b <=? 2 ^ 40).

Definition hf_dir (repository : string) : string := let '(owner, repo, _) := cut slash_char repository in "models--" +:+ owner +:+ "--" +:+ repo.

(** Where [fetchHFSnapshot] keeps a model: in the hub layout, or flat where only that is there *)
Definition hf_model_root (absent present : string → bool) (cacheRoot repository : string) : string :=
  let hub := Join [cacheRoot; "hub"; hf_dir repository] in
  let flat := Join [cacheRoot; hf_dir repository] in
  if absent hub && present flat then flat else hub.

Context (url_of : string → string → string → string).

Definition task_of (modelRoot repository revision : string) (i : nat) (rel : string) (b : Sibling) : DownloadTask :=
  let '(_, blob, _) := cut ":"%char (sibling_digest b) in
  mkTask i rel (sibling_size b) (sibling_digest b) (Join [modelRoot; "snapshots"; revision; rel]) (Join [modelRoot; ".downloads"; revision; rel +:+ ".part"])
    (url_of repository revision rel) (Join [modelRoot; "blobs"; blob]).

(** The files that are already right, and those that are to be fetched *)
Fixpoint plan_files (s : Store) (modelRoot repository revision : string) (seen : list string) (i : nat) (bs : list Sibling)
    : result fetch_error (list SnapshotFile * list DownloadTask) :=
  match bs with
  | [] => Ok ([], [])
  | b :: bs =>
      match safeRelativePath (sb_name b) with
      | None => Err (FetchFailed "unsafe relative path")
      | Some rel =>
          if bool_decide (rel ∈ seen) then Err (FetchFailed "duplicate file")
          else if negb (validHFFileDigest (sibling_digest b)) then Err (FetchFailed "no supported upstream checksum")
          else
            let t := task_of modelRoot repository revision i rel b in
            if negb (safe_at s (parent (tk_link t))) then Err (FetchFailed "download.destination_symlink")
            else if match st_links s !! tk_link t with Some q => bool_decide (is_Some (content s (tk_link t))) && negb (pathWithin q modelRoot) | None => false end
            then Err (FetchFailed "download.snapshot_symlink_escape")
            else if good s (tk_link t) t then
              '(files, tasks) ← plan_files s modelRoot repository revision (rel :: seen) (S i) bs;
              Ok (mkSnapshotFile rel (tk_size t) (tk_digest t) :: files, tasks)
            else if occupied s (tk_link t) then Err (FetchFailed "download.active_file_invalid")
            else if negb (safe_at s (tk_partial t)) then Err (FetchFailed "download.destination_symlink")
            else
              '(files, tasks) ← plan_files s modelRoot repository revision (rel :: seen) (S i) bs;
              Ok (mkSnapshotFile rel (tk_size t) (tk_digest t) :: files, t :: tasks)
      end
  end.

Fixpoint run_tasks (ts : list DownloadTask) (s : Store) : result fetch_error unit * Store :=
  match ts with
  | [] => (Ok tt, s)
  | t :: ts => bind_store (downloadOne t s) (λ _ s, run_tasks ts s)
  end.

Definition hfSnapshotManifestPath (modelRoot revision : string) : string := Join [modelRoot; ".lmw"; "snapshots"; revision +:+ ".json"].

(** [writeHFCompletionManifest] *)
Definition write_record (modelRoot revision identity : string) (files : list SnapshotFile) (s : Store) : result fetch_error Store :=
  let p := hfSnapshotManifestPath modelRoot revision in
  if negb (safe_at s p) then Err (FetchFailed "download.destination_symlink")
  else Ok (mkStore (st_files s) (st_links s) (<[p := mkRecord 2 identity files]> (st_records s)) (st_requests s)).

(** [fetchHFSnapshot], given the metadata and the order in which the pool takes the tasks *)
Definition fetchHFSnapshot (order : list DownloadTask → list DownloadTask) (modelRoot identity : string) (siblings : list Sibling) (s : Store)
    : result fetch_error unit * Store :=
  let '(repository, revision, ok) := cut at_sign (trim_prefix "hf://" identity) in
  let '(_, _, ok') := cut slash_char repository in
  if negb ok || negb ok' then (Err (FetchFailed "invalid HF identity"), s)
  else if negb (forallb size_ok siblings) then (Err (FetchFailed "invalid size"), s)
  else if negb (forallb (safe_at s) [modelRoot; Join [modelRoot; "blobs"]; Join [modelRoot; "snapshots"; revision]; Join [modelRoot; ".downloads"; revision]])
  then (Err (FetchFailed "download.destination_symlink"), s)
  else match plan_files s modelRoot repository revision [] 0 siblings with
       | Err e => (Err e, s)
       | Ok (files, tasks) =>
           bind_store (run_tasks (order tasks) s) (λ _ s, lift_store (write_record modelRoot revision identity files s) s)
       end.

(** ** A single file *)

(** The fetch of a file from its address: at most two tries, then the file is linked to its place *)
Fixpoint fetch_file (n : nat) (url dest : string) (size : Z) (digest : string) (s : Store) : result fetch_error unit * Store :=
  let partial := dest +:+ ".part" in
  match n with
  | O => (Err (FetchFailed "download.checksum_mismatch"), s)
  | S n =>
      bind_store (resumeHTTPFile url partial size s) (λ _ s,
      if existingSnapshotFile s partial size digest then
        match content s partial with
        | Some c => if occupied s dest then (Err (FetchFailed "file exists"), s) else lift_store (remove partial (with_files (insert dest c) s)) s
        | None => (Err (FetchFailed "link"), s)
        end
      else match remove partial s with
           | Err e => (Err e, s)
           | Ok s => fetch_file n url dest size digest s
           end)
  end.

Definition fetchFile (url dest : string) (size : Z) (digest : string) (s : Store) : result fetch_error unit * Store :=
  let partial := dest +:+ ".part" in
  if negb (safe_at s partial) then (Err (FetchFailed "download.destination_symlink"), s)
  else
    bind_store
      (match content s partial with
       | Some c => if (sized c =? size) && negb (existingSnapshotFile s partial size digest) then lift_store (remove partial s) s else (Ok tt, s)
       | None => (Ok tt, s)
       end) (λ _ s, fetch_file 2 url dest size digest s).
End fetch.
