(* ===== verification/AgentFetchInv.v ===== *)
(** * What a fetch guarantees

    The theorems of [AgentFetch]: what was there is not touched, what is published is exact, a fetch from an honest server
    succeeds whatever an earlier one left behind, and a snapshot that was fetched is complete. *)

From S2P Require Import Prelude GoStrings Paths ArtifactIdentity Resources Recipe Inventory DownloadPlan AgentFiles AgentFetch.
Open Scope Z_scope.

Section facts.
Context (hash sha1 : string → string) (serve : nat → string → option Z → option Response).
Notation valid := (existingSnapshotFile hash sha1).
Notation exact := (exact hash sha1).
Notation resume := (resumeHTTPFile serve).
Notation again := (retryResumeHTTPFile serve).
Notation fetch_one := (downloadOne hash sha1 serve).
Notation partial_of := (fetch_partial hash sha1 serve).

(** ** What a step may change *)

(** Files and links but for the file at [p] are kept; so are the records *)
Record keeps (p : string) (s s' : Store) : Prop := {
  ke_files q : q ≠ p → st_files s' !! q = st_files s !! q;
  ke_links : st_links s' = st_links s;
  ke_records : st_records s' = st_records s;
}.

Lemma keeps_refl p s : keeps p s s.
Proof. done. Qed.

Lemma keeps_trans p a b c : keeps p a b → keeps p b c → keeps p a c.
Proof.
  intros [H1 H2 H3] [K1 K2 K3]. split; [intros q Hq; by rewrite K1, H1|by rewrite K2, H2|by rewrite K3, H3].
Qed.

Lemma keeps_content p s s' q : keeps p s s' → q ≠ p → st_links s !! q = None → content s' q = content s q.
Proof. intros [H1 H2 _] Hq Hl. unfold content. by rewrite (H1 q Hq), H2, Hl. Qed.

Lemma file_content s p c : st_files s !! p = Some c → content s p = Some c.
Proof. unfold content. by intros ->. Qed.

Lemma no_link_content s p : st_links s !! p = None → content s p = st_files s !! p.
Proof. unfold content. intros ->. by destruct (st_files s !! p). Qed.

Lemma occupied_file s p : st_links s !! p = None → occupied s p = bool_decide (is_Some (st_files s !! p)).
Proof.
  intros H. unfold occupied, lstat_of. rewrite H, (bool_decide_eq_false_2 (is_Some None)) by (by intros [? ?]).
  by destruct (bool_decide (is_Some (st_files s !! p))).
Qed.

Lemma remove_facts s p s' : st_links s !! p = None → remove p s = Ok s' → keeps p s s' ∧ st_files s' !! p = None ∧ st_requests s' = st_requests s.
Proof.
  intros Hl. unfold remove. destruct (occupied s p); [|done]. intros [= <-]. split_and!; [split; cbn|cbn; by rewrite lookup_delete_eq|done].
  - intros q Hq. by rewrite lookup_delete_ne.
  - by rewrite delete_id.
  - done.
Qed.

Lemma remove_there s p c : st_links s !! p = None → st_files s !! p = Some c → ∃ s', remove p s = Ok s'.
Proof. intros Hl Hf. unfold remove. rewrite occupied_file, bool_decide_eq_true_2 by (done || by eexists). by eexists. Qed.

Lemma keeps_insert p c s : keeps p s (with_files (insert p c) s).
Proof. split; cbn; [intros q Hq; by rewrite lookup_insert_ne|done..]. Qed.

Lemma keeps_asked p s : keeps p s (asked_once s).
Proof. done. Qed.

Lemma opened_file s p : st_links s !! p = None → opened s p = p.
Proof. unfold opened. intros ->. by destruct (st_files s !! p). Qed.

Lemma receive_keeps dest base expected r s res s' : st_links s !! dest = None → receive_body dest base expected r s = (res, s') → keeps dest s s' ∧ is_Some (st_files s' !! dest).
Proof.
  intros Hl. unfold receive_body, write_body. rewrite (opened_file s dest Hl). assert (∀ c, keeps dest s (with_files (insert dest c) s) ∧ is_Some (st_files (with_files (insert dest c) s) !! dest)) as H.
  { intros c. split; [apply keeps_insert|]. cbn. rewrite lookup_insert_eq. by eexists. }
  destruct (rp_broken r); [intros [= _ <-]; apply H|]. destruct (_ =? _); intros [= _ <-]; apply H.
Qed.

Lemma resume_keeps url dest expected s res s' : st_links s !! dest = None → resume url dest expected s = (res, s') → keeps dest s s' ∧ (res = Ok tt → is_Some (st_files s' !! dest)).
Proof.
  intros Hl. unfold resumeHTTPFile. set (q := match content s dest with Some c => _ | None => _ end). destruct q as [base s0] eqn:Eq.
  assert (keeps dest s s0 ∧ st_links s0 !! dest = None) as [Hk Hl0].
  { unfold q in Eq. destruct (content s dest) as [c|]; [|by simplify_eq]. destruct (expected <? sized c); [|by simplify_eq].
    destruct (remove dest s) as [s1|] eqn:Er; [|by simplify_eq]. destruct (remove_facts _ _ _ Hl Er) as (Hk & _). simplify_eq. split; [done|]. by rewrite (ke_links _ _ _ Hk). }
  clear q Eq. destruct (sized base =? expected).
  { intros [= <- <-]. split; [done|]. case_bool_decide as Hc; [|done]. intros _. by rewrite no_link_content in Hc. }
  destruct (serve _ _ _) as [r|]; [|intros [= <- <-]; split; [|done]; eapply keeps_trans; [exact Hk|apply keeps_asked]].
  assert (∀ base res s', receive_body dest base expected r (asked_once s0) = (res, s') → keeps dest s s' ∧ (res = Ok tt → is_Some (st_files s' !! dest))) as Hr.
  { intros b res0 s1 Hr. apply receive_keeps in Hr as [Hr ?]; [|exact Hl0]. split; [|done]. eapply keeps_trans; [exact Hk|]. by eapply keeps_trans; [apply keeps_asked|]. }
  assert (keeps dest s (asked_once s0)) as Hk0 by (eapply keeps_trans; [exact Hk|apply keeps_asked]).
  destruct (_ && _); [destruct (negb _); [by intros [= <- <-]|apply Hr]|]. destruct (_ =? _); [apply Hr|by intros [= <- <-]].
Qed.

Lemma retry_keeps n url dest expected s res s' :
  st_links s !! dest = None → retry serve n url dest expected s = (res, s') → keeps dest s s' ∧ (res = Ok tt → is_Some (st_files s' !! dest)).
Proof.
  revert s. induction n as [|n IH]; intros s Hl; simpl; [by intros [= <- <-]|].
  destruct (resume url dest expected s) as [[[]|e] s1] eqn:Er; destruct (resume_keeps _ _ _ _ _ _ Hl Er) as [Hk Hs]; [by intros [= <- <-]|].
  destruct (retryable e); [|by intros [= <- <-]]. intros H. apply IH in H as [? ?]; [|by rewrite (ke_links _ _ _ Hk)]. split; [by eapply keeps_trans|done].
Qed.

(** ** A partial file *)

Lemma partial_keeps t s res s' :
  st_links s !! tk_partial t = None → partial_of t s = (res, s') → keeps (tk_partial t) s s' ∧ (res = Ok tt → valid s' (tk_partial t) (tk_size t) (tk_digest t) = true).
Proof.
  intros Hl. unfold fetch_partial, good.
  assert (∀ r s1, drop_corrupt hash sha1 t s = (r, s1) → keeps (tk_partial t) s s1) as Hd.
  { intros r s1. unfold drop_corrupt. destruct (content s (tk_partial t)); [|by intros [= _ <-]]. destruct (_ && _); [|by intros [= _ <-]].
    destruct (remove (tk_partial t) s) as [s2|] eqn:Er; [|by intros [= _ <-]]. intros [= _ <-]. by destruct (remove_facts _ _ _ Hl Er). }
  destruct (drop_corrupt hash sha1 t s) as [[[]|e] s1] eqn:Ed; specialize (Hd _ _ eq_refl); simpl; [|by intros [= <- <-]].
  assert (st_links s1 !! tk_partial t = None) as Hl1 by (by rewrite (ke_links _ _ _ Hd)).
  destruct (again (tk_url t) (tk_partial t) (tk_size t) s1) as [[[]|e] s2] eqn:E2; destruct (retry_keeps _ _ _ _ _ _ _ Hl1 E2) as [Hk2 _]; simpl.
  2: { intros [= <- <-]. split; [by eapply keeps_trans|done]. }
  assert (keeps (tk_partial t) s s2) as Hk by (by eapply keeps_trans). destruct (valid s2 _ _ _) eqn:Ev; [by intros [= <- <-]|].
  assert (st_links s2 !! tk_partial t = None) as Hl2 by (by rewrite (ke_links _ _ _ Hk)).
  destruct (remove (tk_partial t) s2) as [s3|] eqn:Er; [|by intros [= <- <-]]. destruct (remove_facts _ _ _ Hl2 Er) as (Hk3 & _).
  assert (st_links s3 !! tk_partial t = None) as Hl3 by (by rewrite (ke_links _ _ _ Hk3)).
  destruct (again (tk_url t) (tk_partial t) (tk_size t) s3) as [[[]|e] s4] eqn:E4; destruct (retry_keeps _ _ _ _ _ _ _ Hl3 E4) as [Hk4 _]; simpl;
    (assert (keeps (tk_partial t) s s4) as Hk' by (eapply keeps_trans; [exact Hk|]; by eapply keeps_trans)).
  - destruct (valid s4 _ _ _) eqn:Ev4; by intros [= <- <-].
  - by intros [= <- <-].
Qed.

(** Only links decide whether a path is safe *)
Lemma safe_links s s' p : st_links s' = st_links s → safe_at s' p = safe_at s p.
Proof.
  intros E. unfold safe_at, safeDestination. destruct (_ || _); [done|]. induction (ancestors p) as [|q qs IH]; [done|]. simpl.
  assert (lstat_of s' q = EntryLink ↔ lstat_of s q = EntryLink) as H.
  { unfold lstat_of. rewrite E. destruct (bool_decide (is_Some (st_links s !! q))); [done|]. split; by case_bool_decide. }
  assert (∀ x, lstat_of x q ≠ EntryError) as Hne by (intros x; unfold lstat_of; by repeat case_bool_decide).
  specialize (Hne s) as Hne1. specialize (Hne s') as Hne2. destruct (lstat_of s q), (lstat_of s' q); naive_solver.
Qed.

Lemma safe_no_link s p : safe_at s p = true → st_links s !! p = None.
Proof.
  unfold safe_at. destruct (safeDestination (lstat_of s) p) as [[]|] eqn:E; [|done]. intros _. pose proof E as E'.
  unfold safeDestination in E. destruct (IsAbs p) eqn:Ha; [|done]. destruct (bool_decide_reflect (Clean p = p)) as [Hc|]; [|done].
  pose proof (safeDestination_links _ _ (length (clean_of p)) E' ltac:(done)) as Hn. rewrite firstn_all in Hn.
  unfold Clean in Hc. rewrite Ha in Hc. rewrite Hc in Hn. destruct (st_links s !! p) eqn:El; [|done]. exfalso. apply Hn. unfold lstat_of.
  rewrite El. by rewrite bool_decide_eq_true_2.
Qed.

(** ** A whole file *)

(** Nothing that was there is changed, but for the partial files *)
Record adds (partial : string → Prop) (s s' : Store) : Prop := {
  ad_files q c : ¬ partial q → st_files s !! q = Some c → st_files s' !! q = Some c;
  ad_links q r : st_links s !! q = Some r → st_links s' !! q = Some r;
  ad_linked q r : st_links s !! q = Some r → st_files s' !! q = st_files s !! q;
  ad_records : st_records s' = st_records s;
}.

Lemma keeps_adds p s s' : st_links s !! p = None → keeps p s s' → adds (eq p) s s'.
Proof.
  intros Hl [H1 H2 H3]. split; [intros q c Hq; rewrite H1; [done|congruence]|intros q r; by rewrite H2| |done]. intros q r Hq. apply H1. intros ->. congruence.
Qed.

Lemma adds_trans p a b c : adds p a b → adds p b c → adds p a c.
Proof.
  intros [H1 H2 H4 H3] [K1 K2 K4 K3]. split; [intros q x Hq Hx; by apply K1, H1|intros q r Hr; by apply K2, H2| |congruence].
  intros q r Hr. rewrite (K4 q r) by (by apply H2). by apply (H4 q r).
Qed.

(** The blob of a task is the expected content *)
Definition has_blob (t : DownloadTask) (s : Store) : Prop := ∃ c, st_files s !! tk_blob t = Some c ∧ exact (tk_size t) (tk_digest t) c = true.

Lemma blob_placed t s s' :
  st_links s !! tk_partial t = None → st_links s !! tk_blob t = None → tk_partial t ≠ tk_blob t → good hash sha1 s (tk_partial t) t = true →
  place_blob (look_blob hash sha1 t s) t s = Ok s' → has_blob t s' ∧ adds (eq (tk_partial t)) s s' ∧ st_links s' = st_links s.
Proof.
  intros Hlp Hlb Hne Hg. unfold look_blob, good, existingSnapshotFile in *. rewrite (no_link_content s (tk_blob t) Hlb).
  rewrite (no_link_content s (tk_partial t) Hlp) in Hg. destruct (st_files s !! tk_partial t) as [c|] eqn:Ec; [|done].
  destruct (st_files s !! tk_blob t) as [b|] eqn:Eb; simpl.
  - destruct (exact (tk_size t) (tk_digest t) b) eqn:Ex; [|done]. intros Hr. destruct (remove_facts _ _ _ Hlp Hr) as (Hk & _ & _).
    split_and!; [|apply keeps_adds; [exact Hlp|exact Hk]|apply Hk]. exists b. split; [|done]. by rewrite (ke_files _ _ _ Hk).
  - rewrite (no_link_content s (tk_partial t) Hlp), Ec. rewrite occupied_file, Eb, bool_decide_eq_false_2 by (done || by intros [? ?]).
    intros Hr. destruct (remove_facts (with_files (insert (tk_blob t) c) s) _ _ Hlp Hr) as (Hk & _ & _). split_and!.
    + exists c. split; [|done]. rewrite (ke_files _ _ _ Hk) by done. cbn. by rewrite lookup_insert_eq.
    + eapply adds_trans; [|apply (keeps_adds _ (with_files (insert (tk_blob t) c) s)); [exact Hlp|exact Hk]]. split; cbn; [|done| |done].
      * intros q x _ Hq. rewrite lookup_insert_ne; [done|]. intros <-. congruence.
      * intros q r Hq. rewrite lookup_insert_ne; [done|]. intros <-. congruence.
    + apply (ke_links _ _ _ Hk).
Qed.

Definition apart (t : DownloadTask) : Prop := tk_partial t ≠ tk_blob t ∧ tk_partial t ≠ tk_link t ∧ tk_blob t ≠ tk_link t.

(** The task is done: its file is there, through its link *)
Definition fetched (t : DownloadTask) (s : Store) : Prop := st_links s !! tk_link t = Some (tk_blob t) ∧ st_files s !! tk_link t = None ∧ has_blob t s.

Lemma fetched_valid t s : fetched t s → valid s (tk_link t) (tk_size t) (tk_digest t) = true.
Proof. intros (Hl & Hf & (c & Hc & Hx)). unfold existingSnapshotFile, content. by rewrite Hf, Hl, <- Hx; simpl; rewrite Hc. Qed.

Lemma fetch_one_sound t s f s' :
  apart t → st_links s !! tk_partial t = None → fetch_one t s = (Ok f, s') →
  f = mkSnapshotFile (tk_rel t) (tk_size t) (tk_digest t) ∧ fetched t s' ∧ adds (eq (tk_partial t)) s s' ∧ st_links s !! tk_link t = None ∧
  st_links s' = <[tk_link t := tk_blob t]> (st_links s).
Proof.
  intros (Hpb & Hpl & Hbl) Hlp. unfold downloadOne. destruct (partial_of t s) as [[[]|e] s1] eqn:E1; simpl; [|done].
  destruct (partial_keeps _ _ _ _ Hlp E1) as [Hk1 Hg]. specialize (Hg eq_refl). destruct (safe_at s1 (tk_blob t)) eqn:Es; [|done]. simpl.
  apply safe_no_link in Es. assert (st_links s1 !! tk_partial t = None) as Hlp1 by (by rewrite (ke_links _ _ _ Hk1)).
  destruct (place_blob _ t s1) as [s2|] eqn:E2; simpl; [|done]. destruct (blob_placed t s1 s2 Hlp1 Es Hpb Hg E2) as (Hb & Ha & El2).
  destruct (link_file t s2) as [s3|] eqn:E3; simpl; [|done]. intros [= <- <-]. unfold link_file in E3. destruct (negb _); [done|].
  destruct (occupied s2 (tk_link t)) eqn:Eo; [done|]. injection E3 as <-.
  assert (st_links s2 !! tk_link t = None ∧ st_files s2 !! tk_link t = None) as [Hll Hlf].
  { unfold occupied, lstat_of in Eo. destruct (bool_decide_reflect (is_Some (st_links s2 !! tk_link t))) as [|Hn]; [done|].
    destruct (bool_decide_reflect (is_Some (st_files s2 !! tk_link t))) as [|Hn']; [done|]. by apply eq_None_not_Some in Hn, Hn'. }
  assert (st_links s2 = st_links s) as El by (by rewrite El2, (ke_links _ _ _ Hk1)). split_and!; [done| | |by rewrite <- El|cbn; by rewrite El].
  - split_and!; [cbn; by rewrite lookup_insert_eq|done|done].
  - eapply adds_trans; [by apply keeps_adds|]. eapply adds_trans; [exact Ha|]. split; cbn; [done| |done|done].
    intros q r Hq. rewrite lookup_insert_ne; [done|]. intros <-. congruence.
Qed.

(** ** An honest server *)

(** It has the content, whole or, where it was asked to resume, the rest of it *)
Definition honest (url c : string) : Prop :=
  ∀ i o, ∃ r, serve i url o = Some r ∧ rp_broken r = false ∧
    (rp_status r = StatusOK ∧ rp_body r = c ∨
     ∃ n, o = Some n ∧ rp_status r = StatusPartialContent ∧ rp_body r = sdrop (Z.to_nat n) c ∧
       rp_range r = "bytes " +:+ Itoa n +:+ "-" +:+ Itoa (sized c - 1) +:+ "/" +:+ Itoa (sized c)).

Lemma stake_all n s : (String.length s <= n)%nat → stake n s = s.
Proof. revert n. induction s as [|a s IH]; intros [|n] H; simpl in *; [done|done|lia|]. f_equal. apply IH. lia. Qed.

Lemma sdrop_length n s : String.length (sdrop n s) = (String.length s - n)%nat.
Proof. revert n. induction s as [|a s IH]; intros [|n]; simpl; [done|done|done|apply IH]. Qed.

Lemma receive_exact dest base expected r s :
  st_links s !! dest = None → rp_broken r = false → sized base + sized (rp_body r) = expected →
  receive_body dest base expected r s = (Ok tt, with_files (insert dest (base +:+ rp_body r)) s).
Proof.
  intros Hl Hb Hs. unfold receive_body, write_body. rewrite (opened_file s dest Hl), Hb. unfold sized in *. rewrite stake_all by lia.
  by rewrite (proj2 (Z.eqb_eq _ _) Hs).
Qed.

Lemma resume_honest url dest c s :
  honest url c → 0 < sized c → st_links s !! dest = None →
  ∃ s' x, resume url dest (sized c) s = (Ok tt, s') ∧ st_files s' !! dest = Some x ∧ keeps dest s s' ∧ (st_files s !! dest = None → x = c).
Proof.
  intros Hh Hc Hl. destruct (resume url dest (sized c) s) as [res s'] eqn:Er. pose proof (resume_keeps _ _ _ _ _ _ Hl Er) as [Hk _]. revert Er.
  unfold resumeHTTPFile. rewrite (no_link_content s dest Hl).
  set (q := match st_files s !! dest with Some c' => _ | None => _ end). destruct q as [base s0] eqn:Eq.
  assert (sized base ≤ sized c ∧ (st_files s !! dest = None → base = "") ∧ (sized base = sized c → st_files s0 !! dest = Some base) ∧ st_links s0 !! dest = None) as (Hle & Hnone & Heq & Hl0).
  { unfold q in Eq. destruct (st_files s !! dest) as [c'|] eqn:Ef; [|injection Eq as <- <-; change (sized "") with 0; split_and!; [lia|done|lia|done]].
    destruct (sized c <? sized c') eqn:Elt; injection Eq as <- <-; [change (sized "") with 0|]; split_and!; [lia|done|lia| |lia|done|done|done].
    destruct (remove dest s) as [s1|] eqn:Er; [|done]. destruct (remove_facts _ _ _ Hl Er) as (Hk1 & _). by rewrite (ke_links _ _ _ Hk1). }
  clear q Eq. destruct (Z.eqb_spec (sized base) (sized c)) as [E|Hne].
  { specialize (Heq E). rewrite (file_content _ _ _ Heq), bool_decide_eq_true_2 by (by eexists). intros [= <- <-]. exists s0, base. split_and!; [done..|].
    intros Hn. rewrite (Hnone Hn) in E. change (sized "") with 0 in E. lia. }
  destruct (Hh (st_requests s0) (if 0 <? sized base then Some (sized base) else None)) as (r & -> & Hbr & [[Hst Hbody]|(n & Ho & Hst & Hbody & Hrange)]).
  - rewrite Hst. change (StatusOK =? StatusPartialContent) with false. rewrite andb_false_r. change (StatusOK =? StatusOK) with true. cbn iota.
    rewrite receive_exact by (exact Hl0 || done || (rewrite Hbody; done)). intros [= <- <-]. eexists _, c. split_and!; [done|cbn; by rewrite lookup_insert_eq, Hbody|done|done].
  - destruct (0 <? sized base) eqn:Epos; [|done]. injection Ho as <-. rewrite Hst. change (StatusPartialContent =? StatusPartialContent) with true. cbn [andb].
    rewrite Hrange, bool_decide_eq_true_2 by done. cbn [negb]. assert (sized base + sized (rp_body r) = sized c) as Hsum.
    { rewrite Hbody. unfold sized in *. rewrite sdrop_length. lia. }
    rewrite receive_exact by (exact Hl0 || done). intros [= <- <-]. eexists _, _. split_and!; [done|cbn; by rewrite lookup_insert_eq|done|].
    intros Hn. rewrite (Hnone Hn) in Epos. done.
Qed.

Lemma again_honest url dest c s :
  honest url c → 0 < sized c → st_links s !! dest = None →
  ∃ s' x, again url dest (sized c) s = (Ok tt, s') ∧ st_files s' !! dest = Some x ∧ keeps dest s s' ∧ (st_files s !! dest = None → x = c).
Proof.
  intros Hh Hc Hl. destruct (resume_honest url dest c s Hh Hc Hl) as (s' & x & Hr & Hx & Hk & Hn). exists s', x. split_and!; [|done..].
  unfold retryResumeHTTPFile, hfDownloadAttempts. cbn [retry]. by rewrite Hr.
Qed.

Lemma partial_honest t c s :
  honest (tk_url t) c → 0 < sized c → exact (tk_size t) (tk_digest t) c = true → st_links s !! tk_partial t = None →
  ∃ s', partial_of t s = (Ok tt, s').
Proof.
  intros Hh Hc Hx Hl. assert (tk_size t = sized c) as Hsz.
  { unfold AgentFetch.exact in Hx. apply andb_prop in Hx as [Hx _]. apply andb_prop in Hx as [Hx%Z.eqb_eq _]. done. }
  unfold fetch_partial. assert (∃ s1, drop_corrupt hash sha1 t s = (Ok tt, s1) ∧ st_links s1 = st_links s) as (s1 & -> & El1).
  { unfold drop_corrupt. rewrite (no_link_content s _ Hl). destruct (st_files s !! tk_partial t) as [b|] eqn:Eb; [|by eexists]. destruct (_ && _); [|by eexists].
    destruct (remove_there s (tk_partial t) b Hl Eb) as [s1 Hr]. rewrite Hr. exists s1. split; [done|]. destruct (remove_facts _ _ _ Hl Hr) as (Hk & _). apply Hk. }
  simpl. rewrite Hsz in *. destruct (again_honest (tk_url t) (tk_partial t) c s1 Hh Hc ltac:(by rewrite El1)) as (s2 & x & -> & Hx2 & Hk2 & _). simpl.
  assert (st_links s2 !! tk_partial t = None) as Hl2 by (by rewrite (ke_links _ _ _ Hk2), El1).
  destruct (good hash sha1 s2 (tk_partial t) t); [by eexists|]. destruct (remove_there s2 (tk_partial t) x Hl2 Hx2) as [s3 Hr]. rewrite Hr.
  destruct (remove_facts _ _ _ Hl2 Hr) as (Hk3 & Hn3 & _).
  destruct (again_honest (tk_url t) (tk_partial t) c s3 Hh Hc ltac:(by rewrite (ke_links _ _ _ Hk3))) as (s4 & y & -> & Hy & Hk4 & Hyc). simpl.
  rewrite (Hyc Hn3) in Hy. unfold good, existingSnapshotFile. rewrite (file_content _ _ _ Hy), Hsz, Hx. by eexists.
Qed.


(** An empty file is never fetched: with nothing on the device there seems to be nothing missing, and what is missing is
    not asked for *)
Lemma empty_file_not_fetched url dest s : content s dest = None → again url dest 0 s = (Err (FetchFailed "download failed"), s).
Proof.
  intros Hn. assert (∀ n, retry serve n url dest 0 s = (Err (FetchFailed "download failed"), s)) as H; [|apply H].
  induction n as [|n IH]; [done|]. simpl. unfold resumeHTTPFile. rewrite Hn. change (sized "" =? 0) with true. cbn iota.
  rewrite Hn, bool_decide_eq_false_2 by (by intros [? ?]). simpl. apply IH.
Qed.

(** Two workers with the same content: the one that looked before the other published fails *)
Lemma same_content_race t t' s s' :
  tk_blob t' = tk_blob t → tk_partial t ≠ tk_blob t → st_links s !! tk_partial t = None → st_links s !! tk_blob t = None →
  look_blob hash sha1 t' s = BlobMissing → place_blob BlobMissing t s = Ok s' → content s (tk_partial t') ≠ None →
  tk_partial t' ≠ tk_partial t → st_links s !! tk_partial t' = None →
  place_blob BlobMissing t' s' = Err (FetchFailed "file exists").
Proof.
  intros Eb Hne Hl Hlb _ Hp Hc Hpp Hl'. simpl in *. destruct (content s (tk_partial t)) as [c|]; [|done]. destruct (occupied s (tk_blob t)); [done|].
  destruct (remove_facts (with_files (insert (tk_blob t) c) s) _ _ Hl Hp) as (Hk & _ & _).
  assert (content s' (tk_partial t') ≠ None) as Hc'.
  { rewrite no_link_content in Hc by done. rewrite no_link_content by (by rewrite (ke_links _ _ _ Hk)). rewrite (ke_files _ _ _ Hk) by done. cbn.
    rewrite lookup_insert. by case_decide. }
  destruct (content s' (tk_partial t')); [|done]. rewrite Eb, occupied_file by (by rewrite (ke_links _ _ _ Hk)).
  rewrite (ke_files _ _ _ Hk) by done. cbn. by rewrite lookup_insert_eq, bool_decide_eq_true_2.
Qed.

(** ** A whole snapshot *)

Lemma adds_weaken (P Q : string → Prop) a b : (∀ q, P q → Q q) → adds P a b → adds Q a b.
Proof. intros HPQ [H1 H2 H3 H4]. split; [intros q c Hq; apply H1; naive_solver|done..]. Qed.

Lemma adds_refl P s : adds P s s.
Proof. done. Qed.

Lemma adds_fetched P t s s' : adds P s s' → ¬ P (tk_blob t) → fetched t s → fetched t s'.
Proof.
  intros Ha Hb (Hl & Hf & c & Hc & Hx). split_and!; [by apply Ha|by rewrite (ad_linked _ _ _ Ha _ _ Hl)|]. exists c. split; [|done]. by apply Ha.
Qed.

Lemma adds_valid P s s' p n d :
  adds P s s' → ¬ P p → (∀ q, st_links s !! p = Some q → ¬ P q) → valid s p n d = true → valid s' p n d = true.
Proof.
  intros Ha Hp Hq. unfold existingSnapshotFile, content. destruct (st_files s !! p) as [c|] eqn:Ef; [by rewrite (ad_files _ _ _ Ha p c Hp Ef)|].
  destruct (st_links s !! p) as [q|] eqn:El; [|done]. simpl. destruct (st_files s !! q) as [c|] eqn:Eq; [|done].
  rewrite (ad_linked _ _ _ Ha p q El), Ef, (ad_links _ _ _ Ha p q El). simpl. by rewrite (ad_files _ _ _ Ha q c (Hq q eq_refl) Eq).
Qed.

(** Partial files have a place of their own *)
Definition laid_out (P : string → Prop) (t : DownloadTask) : Prop := P (tk_partial t) ∧ ¬ P (tk_blob t) ∧ ¬ P (tk_link t) ∧ tk_blob t ≠ tk_link t.

Lemma laid_out_apart P t : laid_out P t → apart t.
Proof. intros (H1 & H2 & H3 & H4). split_and!; congruence || (intros E; rewrite E in *; done). Qed.

Lemma run_tasks_sound P ts s s' :
  Forall (laid_out P) ts → Forall (λ t, st_links s !! tk_partial t = None) ts → run_tasks hash sha1 serve ts s = (Ok tt, s') →
  Forall (λ t, fetched t s') ts ∧ adds P s s'.
Proof.
  intros Hts. revert s. induction Hts as [|t ts Ht Hts IH]; intros s Hl; simpl; [intros [= <-]; split; [done|apply adds_refl]|].
  apply Forall_cons in Hl as [Hlt Hl]. destruct (fetch_one t s) as [[f|e] s1] eqn:E; simpl; [|done].
  destruct (fetch_one_sound _ _ _ _ (laid_out_apart _ _ Ht) Hlt E) as (_ & Hf & Ha & _ & Elinks). intros Hr.
  assert (adds P s s1) as Ha1 by (eapply adds_weaken; [|exact Ha]; intros q <-; apply Ht).
  destruct (IH s1) as [Hfs Ha2]; [|done|split; [constructor; [|done]|by eapply adds_trans]].
  - apply Forall_forall. intros t' Hin. rewrite Elinks, lookup_insert_ne; [by eapply (Forall_forall _ ts) in Hl|].
    intros Heq. eapply (Forall_forall _ ts) in Hts as [Hp _]; [|exact Hin]. rewrite <- Heq in Hp. destruct Ht as (_ & _ & Hn & _). by apply Hn.
  - by eapply adds_fetched; [exact Ha2|apply Ht|].
Qed.

(** What the plan of a snapshot says of each file *)
Context (url_of : string → string → string → string).
Notation plan := (plan_files hash sha1 url_of).
Notation task := (task_of url_of).

Definition planned (s : Store) (modelRoot repository revision : string) (tasks : list DownloadTask) (b : Sibling) (f : SnapshotFile) : Prop :=
  safeRelativePath (sb_name b) = Some (sf_path f) ∧ sf_size f = sibling_size b ∧ sf_digest f = sibling_digest b ∧ validHFFileDigest (sf_digest f) = true ∧
  ∃ i, let t := task modelRoot repository revision i (sf_path f) b in
       good hash sha1 s (tk_link t) t = true ∨ t ∈ tasks ∧ safe_at s (tk_partial t) = true.

Lemma plan_sound s modelRoot repository revision seen i bs files tasks :
  plan s modelRoot repository revision seen i bs = Ok (files, tasks) →
  Forall2 (planned s modelRoot repository revision tasks) bs files ∧
  Forall (λ t, ∃ i b rel, b ∈ bs ∧ safeRelativePath (sb_name b) = Some rel ∧ validHFFileDigest (sibling_digest b) = true ∧
    t = task modelRoot repository revision i rel b ∧ safe_at s (tk_partial t) = true) tasks ∧
  NoDup (sf_path <$> files) ∧ Forall (λ f, sf_path f ∉ seen) files.
Proof.
  revert seen i files tasks. induction bs as [|b bs IH]; intros seen i files tasks; cbn [plan_files]; [intros [= <- <-]; by repeat constructor|].
  destruct (safeRelativePath (sb_name b)) as [rel|] eqn:Er; [|done]. case_bool_decide as Hseen; [done|].
  destruct (validHFFileDigest (sibling_digest b)) eqn:Ev; [|done]. set (t := task modelRoot repository revision i rel b). cbv zeta. cbn [negb].
  assert (tk_size t = sibling_size b ∧ tk_digest t = sibling_digest b) as [Esz Edg] by (unfold t, task_of; by destruct (cut _ _) as [[? ?] ?]).
  destruct (negb (safe_at s (parent (tk_link t)))); [done|]. destruct (match st_links s !! tk_link t with Some q => _ | None => false end); [done|].
  assert (∀ fs ts ts', plan s modelRoot repository revision (rel :: seen) (S i) bs = Ok (fs, ts) → ts ⊆ ts' →
    (good hash sha1 s (tk_link t) t = true ∨ t ∈ ts' ∧ safe_at s (tk_partial t) = true) →
    Forall2 (planned s modelRoot repository revision ts') (b :: bs) (mkSnapshotFile rel (tk_size t) (tk_digest t) :: fs) ∧
    NoDup (rel :: (sf_path <$> fs)) ∧ Forall (λ f, sf_path f ∉ seen) (mkSnapshotFile rel (tk_size t) (tk_digest t) :: fs)) as Hstep.
  { intros fs ts ts' Hp Hsub Ht. destruct (IH _ _ _ _ Hp) as (H1 & _ & H3 & H4). split_and!.
    - constructor; [split_and!; simpl; [done|done|done|by rewrite Edg|by exists i]|]. eapply Forall2_impl; [exact H1|].
      intros b' f' (? & ? & ? & ? & j & Hj). split_and!; [done..|]. exists j. simpl in *. naive_solver.
    - constructor; [|done]. intros (f & Ef & Hf)%list_elem_of_fmap. eapply (Forall_forall _ fs) in H4; [|exact Hf]. rewrite <- Ef in H4. apply H4. left.
    - constructor; [done|]. eapply Forall_impl; [exact H4|]. intros f Hf Hin. apply Hf. by right. }
  assert (∀ fs ts, plan s modelRoot repository revision (rel :: seen) (S i) bs = Ok (fs, ts) → Forall (λ t, ∃ i b' rel, b' ∈ b :: bs ∧ safeRelativePath (sb_name b') = Some rel ∧
    validHFFileDigest (sibling_digest b') = true ∧ t = task modelRoot repository revision i rel b' ∧ safe_at s (tk_partial t) = true) ts) as Htasks.
  { intros fs ts Hp. destruct (IH _ _ _ _ Hp) as (_ & H2 & _). eapply Forall_impl; [exact H2|]. intros t' (j & b' & rel' & ? & ?). exists j, b', rel'. split; [by right|done]. }
  destruct (good hash sha1 s (tk_link t) t) eqn:Eg.
  - destruct (plan s modelRoot repository revision (rel :: seen) (S i) bs) as [[fs ts]|] eqn:Ep; [|done]. intros [= <- <-].
    destruct (Hstep _ _ ts eq_refl) as (? & ? & ?); [done|by left|]. split_and!; [done|by eapply Htasks|done|done].
  - destruct (occupied s (tk_link t)); [done|]. destruct (safe_at s (tk_partial t)) eqn:Es; [|done]. cbn [negb].
    destruct (plan s modelRoot repository revision (rel :: seen) (S i) bs) as [[fs ts]|] eqn:Ep; [|done]. intros [= <- <-].
    destruct (Hstep _ _ (t :: ts) eq_refl) as (? & ? & ?); [set_solver|right; split; [left|done]|]. split_and!; [done| |done|done].
    constructor; [|by eapply Htasks]. exists i, b, rel. split; [left|done].
Qed.

(** ** Where the files of a snapshot are *)

Lemma hex_name v : sforallb lower_hex v = true → (0 < String.length v)%nat → name v = true.
Proof.
  intros Hv Hl. assert (contains_byte slash v = false) as Hs.
  { clear Hl. induction v as [|a v IH]; [done|]. simpl in Hv |- *. apply andb_prop in Hv as [Ha Hv]. rewrite IH, orb_false_r by done.
    apply bool_decide_eq_false. by intros ->. }
  apply name_spec. split_and!; [by intros ->; simpl in Hl; lia|by intros ->|by intros ->|done].
Qed.

Lemma digest_blob d : validHFFileDigest d = true → ∃ prefix v, cut ":"%char d = (prefix, v, true) ∧ name v = true.
Proof.
  unfold validHFFileDigest. destruct (cut ":"%char d) as [[prefix v] [|]]; [|done]. intros [[_ H]%andb_prop Hv]%andb_prop.
  exists prefix, v. split; [done|]. apply hex_name; [done|]. apply orb_prop in H as [[_ H%Nat.eqb_eq]%andb_prop|[_ H%Nat.eqb_eq]%andb_prop]; lia.
Qed.

(** Where a snapshot keeps what it has not finished *)
Definition partials (modelRoot revision q : string) : Prop := pathWithin q (Join [modelRoot; ".downloads"; revision]) = true.

Local Ltac desc := repeat first [apply Forall_nil_2|apply Forall_cons_2; [first [assumption|by apply name_descends]|]].

Lemma task_laid_out modelRoot repository revision i name_ rel b :
  tree_root modelRoot → name revision = true → safeRelativePath name_ = Some rel → validHFFileDigest (sibling_digest b) = true →
  laid_out (partials modelRoot revision) (task modelRoot repository revision i rel b).
Proof.
  intros Hr Hrev Hrel Hd. pose proof (safeRelativePath_descends _ _ Hrel) as Hdesc. pose proof (suffix_descends _ _ ".part" Hrel eq_refl ltac:(simpl; lia)) as Hpart.
  destruct (digest_blob _ Hd) as (prefix & v & Ec & Hv). unfold task_of. rewrite Ec. apply name_descends in Hrev as Hrevd. apply name_descends in Hv as Hvd.
  assert (∀ e ps, name e = true → e ≠ ".downloads" → Forall descends ps → ¬ partials modelRoot revision (Join (modelRoot :: e :: ps))) as Hnot.
  { intros e ps He Hne Hps. unfold partials. rewrite (Join_not_within modelRoot e ".downloads" ps [revision]); [done|done|done|done|done|done|desc]. }
  unfold laid_out. cbn. split_and!.
  - apply (Join_within modelRoot [".downloads"; revision] [rel +:+ ".part"]); [done|desc|desc].
  - apply Hnot; [done|done|desc].
  - apply Hnot; [done|done|desc].
  - apply Join_apart; [done..|desc|desc].
Qed.

Lemma fetched_at modelRoot repository revision i rel b s :
  fetched (task modelRoot repository revision i rel b) s → valid s (Join [modelRoot; "snapshots"; revision; rel]) (sibling_size b) (sibling_digest b) = true.
Proof. intros H%fetched_valid. revert H. unfold task_of. by destruct (cut _ _) as [[? ?] ?]. Qed.

(** C26: A snapshot that was fetched is complete.  When [fetchHFSnapshot] succeeds, whatever order the workers took the
    files in, the completion record lists every file the hub listed, once each, with its path, size and checksum; each of
    them is found under the snapshot with exactly that size and checksum; and no file outside the snapshot's own partial
    files, and no link, was changed. *)
Theorem snapshot_complete order modelRoot identity repository revision siblings s s' :
  tree_root modelRoot → cut at_sign (trim_prefix "hf://" identity) = (repository, revision, true) → name revision = true → (∀ ts, order ts ≡ₚ ts) →
  (∀ p q, st_links s !! p = Some q → ¬ partials modelRoot revision q) →
  fetchHFSnapshot hash sha1 serve url_of order modelRoot identity siblings s = (Ok tt, s') →
  ∃ files, st_records s' !! hfSnapshotManifestPath modelRoot revision = Some (mkRecord 2 identity files) ∧
    Forall2 (λ b f, safeRelativePath (sb_name b) = Some (sf_path f) ∧ sf_size f = sibling_size b ∧ sf_digest f = sibling_digest b ∧
      valid s' (Join [modelRoot; "snapshots"; revision; sf_path f]) (sf_size f) (sf_digest f) = true) siblings files ∧
    NoDup (sf_path <$> files) ∧
    (∀ p c, st_files s !! p = Some c → ¬ partials modelRoot revision p → st_files s' !! p = Some c) ∧
    (∀ p q, st_links s !! p = Some q → st_links s' !! p = Some q).
Proof.
  intros Hroot Hcut Hrev Hord Hlinks. unfold fetchHFSnapshot. rewrite Hcut. destruct (cut slash_char repository) as [[owner repo] ok].
  destruct (negb true || negb ok); [done|]. destruct (negb (forallb size_ok siblings)); [done|]. destruct (negb _); [done|].
  destruct (plan s modelRoot repository revision [] 0 siblings) as [[files tasks]|] eqn:Ep; [|done]. destruct (plan_sound _ _ _ _ _ _ _ _ _ Ep) as (Hf & Ht & Hnd & _).
  destruct (run_tasks hash sha1 serve (order tasks) s) as [[[]|e] s1] eqn:Er; simpl; [|done]. unfold write_record. destruct (negb _); [done|]. intros [= <-].
  assert (Forall (laid_out (partials modelRoot revision)) tasks) as Hlaid.
  { eapply Forall_impl; [exact Ht|]. intros t (i & b & rel & _ & Hrel & Hd & -> & _). by eapply task_laid_out. }
  destruct (run_tasks_sound (partials modelRoot revision) (order tasks) s s1) as [Hdone Ha]; [by rewrite Hord| |done|].
  { rewrite Hord. eapply Forall_impl; [exact Ht|]. intros t (i & b & rel & _ & _ & _ & _ & Hs). by apply safe_no_link. }
  rewrite Hord in Hdone. exists files. split_and!; [cbn; by rewrite lookup_insert_eq| |done| |intros p q; apply Ha].
  - eapply Forall2_impl; [exact Hf|]. intros b f (Hrel & Hsz & Hdg & Hvd & i & Hcase). split_and!; [done..|]. rewrite Hsz, Hdg.
    change (valid s1 (Join [modelRoot; "snapshots"; revision; sf_path f]) (sibling_size b) (sibling_digest b) = true). rewrite Hdg in Hvd.
    pose proof (task_laid_out modelRoot repository revision i _ _ b Hroot Hrev Hrel Hvd) as (_ & _ & Hl & _). destruct Hcase as [Hg|[Hin _]].
    + revert Hg Hl. unfold good, task_of. destruct (cut ":"%char (sibling_digest b)) as [[? ?] ?]. cbn. intros Hg Hl. eapply adds_valid; [exact Ha|exact Hl| |exact Hg].
      intros q Hq. by eapply Hlinks.
    + eapply fetched_at. by eapply (Forall_forall _ tasks) in Hdone.
  - intros p c Hp Hn. by apply Ha.
Qed.
End facts.

(** A model that is only there in the flat layout is fetched there, whatever destination was agreed on: the hub directory
    that [authorizeDownload] allows and [authorizeDownload]'s caller owns is not written *)
Lemma destination_not_used absent present cacheRoot repository :
  tree_root cacheRoot → name (hf_dir repository) = true → absent (Join [cacheRoot; "hub"; hf_dir repository]) = true →
  present (Join [cacheRoot; hf_dir repository]) = true →
  hf_model_root absent present cacheRoot repository = Join [cacheRoot; hf_dir repository] ∧
  hf_model_root absent present cacheRoot repository ≠ Join [cacheRoot; "hub"; hf_dir repository].
Proof.
  intros Hr Hn Ha Hp. unfold hf_model_root. rewrite Ha, Hp. split; [done|]. apply Join_apart; [done..| |constructor|].
  { unfold hf_dir. by destruct (cut _ _) as [[? ?] ?]. }
  apply Forall_cons_2; [by apply name_descends|constructor].
Qed.

(** ** A concrete model *)

Definition hex40 : string := "0123456789abcdef0123456789abcdef01234567".
Definition hex64 : string := hex40 +:+ "89abcdef0123456789abcdef".
Definition sample_root : string := "/cache/hub/models--acme--tiny".
Definition sample_serve (_ : nat) (_ : string) (_ : option Z) : option Response := Some (mkResponse StatusOK "" "weights" false).
Definition sample_url (repository revision rel : string) : string := "https://hub/" +:+ repository +:+ "/" +:+ revision +:+ "/" +:+ rel.
Definition sample_siblings : list Sibling := [mkSibling "config.json" hex40 7 None; mkSibling "weights/model.bin" "" 0 (Some (hex64, 7))].
Definition sample_task : DownloadTask := task_of sample_url sample_root "acme/tiny" hex40 1 "weights/model.bin" (mkSibling "weights/model.bin" "" 0 (Some (hex64, 7))).

(** A stale partial file of the right size, and somebody else's file *)
Definition sample_store : Store := mkStore {[ tk_partial sample_task := "garbage"; "/cache/notes.txt" := "keep" ]} ∅ ∅ 0.

Lemma sample_honest : honest sample_serve (tk_url sample_task) "weights".
Proof. intros i o. eexists. split; [reflexivity|]. split; [done|]. by left. Qed.


Definition sample_fetch : result fetch_error unit * Store :=
  fetchHFSnapshot (λ _, hex64) (λ _, hex40) sample_serve sample_url reverse sample_root ("hf://acme/tiny@" +:+ hex40) sample_siblings sample_store.

Lemma snapshot_complete_witness :
  fst sample_fetch = Ok tt ∧ st_files (snd sample_fetch) !! "/cache/notes.txt" = Some "keep" ∧
  ∃ files, st_records (snd sample_fetch) !! hfSnapshotManifestPath sample_root hex40 = Some (mkRecord 2 ("hf://acme/tiny@" +:+ hex40) files) ∧ length files = 2%nat.
Proof.
  assert (fst sample_fetch = Ok tt) as Hok by (vm_compute; reflexivity). split; [exact Hok|].
  destruct (snapshot_complete (λ _, hex64) (λ _, hex40) sample_serve sample_url reverse sample_root ("hf://acme/tiny@" +:+ hex40) "acme/tiny" hex40
    sample_siblings sample_store (snd sample_fetch)) as (files & Hrec & Hall & _ & Hfiles & _).
  - split_and!; by vm_compute.
  - by vm_compute.
  - by vm_compute.
  - intros ts. apply reverse_Permutation.
  - intros p q Hq. change (st_links sample_store) with (∅ : gmap string string) in Hq. by rewrite lookup_empty in Hq.
  - unfold sample_fetch in Hok |- *. destruct (fetchHFSnapshot _ _ _ _ _ _ _ _ _). simpl in Hok. by rewrite Hok.
  - split; [apply Hfiles; [by vm_compute|]; by vm_compute|]. exists files. split; [exact Hrec|]. by apply Forall2_length in Hall.
Defined.
