(* ===== verification/AgentTransfer.v ===== *)
(** * Transfers between agents: [internal/agent/transfer.go], [transfer_checkpoint.go], [transfer_publish.go] and
      [resource_manifest.go]

    One agent serves a tree it has, the other pulls it in chunks into a staging tree, checks it and publishes it.  A device
    is its regular files and symbolic links by clean absolute path, and the checkpoints of transfers, decoded; a directory
    is there when something is below it.  The cache of file digests answers what a fresh read would.  SHA-256 and SHA-1 in
    hex, the check of a signature, the time, JSON and the names in the certificate of a peer are arguments; the layout of a
    recipe package and the shape of a model snapshot are checked by other parts of the program and are arguments too.  A
    request is one step of the serving agent; contexts are not cancelled and writing to disk succeeds. *)

From S2P Require Import Prelude GoStrings Paths ArtifactIdentity Resources Recipe Inventory DownloadPlan AgentFiles AgentAcquire AgentFetch.
Open Scope Z_scope.

(** ** The device *)

Inductive node := RegularFile (content : string) (mode : Z) | SymbolicLink (target : string).

#[export] Instance node_eq_dec : EqDecision node.
Proof. solve_decision. Defined.

Record peerCheckpoint := mkCheckpoint { pk_identity : string; pk_destination : string; pk_tree : string; pk_prefixes : gmap string (Z * string) }.

Record Device := mkDevice { dv_nodes : gmap string node; dv_checkpoints : gmap string peerCheckpoint }.

Definition below (root p : string) : bool := has_prefix (root +:+ "/") p.

Definition is_dir (nodes : gmap string node) (p : string) : bool := existsb (λ e, below p (fst e)) (map_to_list nodes).

(** [os.Lstat] *)
Definition lstat_in (nodes : gmap string node) (p : string) : entry :=
  match nodes !! p with
  | Some (SymbolicLink _) => EntryLink
  | Some (RegularFile _ _) => EntryOther
  | None => if is_dir nodes p then EntryOther else EntryAbsent
  end.

Definition safe_in (nodes : gmap string node) (p : string) : bool := is_ok (safeDestination (lstat_in nodes) p).

(** [filepath.EvalSymlinks]: the elements are followed one by one, through at most [links] links *)
Fixpoint walk_links (links : nat) (nodes : gmap string node) (stack todo : list string) {struct links} : option (list string) :=
  (fix go (stack todo : list string) {struct todo} : option (list string) :=
     match todo with
     | [] => Some stack
     | e :: rest =>
         if bool_decide (e = "") || bool_decide (e = ".") then go stack rest
         else if bool_decide (e = "..") then go (removelast stack) rest
         else match nodes !! render_path true (stack ++ [e]) with
              | Some (SymbolicLink target) =>
                  match links with
                  | O => None
                  | S links => walk_links links nodes (if IsAbs target then [] else stack) (elements target ++ rest)
                  end
              | Some (RegularFile _ _) => if bool_decide (rest = []) then Some (stack ++ [e]) else None
              | None => if is_dir nodes (render_path true (stack ++ [e])) then go (stack ++ [e]) rest else None
              end
     end) stack todo.

Definition EvalSymlinks (nodes : gmap string node) (p : string) : option string := render_path true <$> walk_links 255 nodes [] (elements p).

(** [os.MkdirAll]: nothing on the way is a file *)
Definition mkdir_ok (nodes : gmap string node) (dir : string) : bool :=
  forallb (λ p, match nodes !! p with Some (RegularFile _ _) => false | _ => true end) (ancestors dir).

(** A path below a root, relative to it *)
Definition relative (root p : string) : option string := if below root p then Some (sdrop (String.length root + 1) p) else None.

Definition subtree (nodes : gmap string node) (root : string) : gmap string node :=
  list_to_map (omap (λ e, (λ rel, (rel, snd e)) <$> relative root (fst e)) (map_to_list nodes)).

(** ** Manifests *)

Record FileEntry := mkEntry { fe_path : string; fe_size : Z; fe_mode : Z; fe_sha : string; fe_target : string }.

#[export] Instance FileEntry_eq_dec : EqDecision FileEntry.
Proof. solve_decision. Defined.

Definition transferChunkSize : Z := 64 * 2 ^ 10.
Definition transferRootFile : string := ".lmw-root-file".
Definition ModeSymlink : Z := 2 ^ 27.

Definition entry_line (e : FileEntry) : string :=
  fe_path e +:+ String "000" (Itoa (fe_size e) +:+ String "000" (fe_sha e +:+ String "000" (fe_target e +:+ "
"))).

Definition tree_text (es : list FileEntry) : string := sconcat (entry_line <$> es).

Definition total_size (es : list FileEntry) : Z := foldr Z.add 0 (fe_size <$> es).

Section transfer.
Context (cfg : AgentConfig) (hash sha1 : string → string).

Definition entry_of (rel : string) (n : node) : FileEntry :=
  match n with
  | RegularFile c mode => mkEntry rel (sized c) mode ("sha256:" +:+ hash c) ""
  | SymbolicLink target => mkEntry rel 0 ModeSymlink "" target
  end.

(** In the order of their paths, which are distinct *)
Definition tree_entries (t : gmap string node) : list FileEntry := omap (λ rel, entry_of rel <$> t !! rel) (sort_strings (map fst (map_to_list t))).

Definition tree_digest (es : list FileEntry) : string := "sha256:" +:+ hash (tree_text es).

Definition link_safe (nodes : gmap string node) (root contain : string) (e : string * node) : bool :=
  match snd e with
  | RegularFile _ _ => true
  | SymbolicLink target =>
      negb (IsAbs target) && match EvalSymlinks nodes (root +:+ "/" +:+ fst e) with Some p => pathWithin p contain | None => false end
  end.

Definition collectManifest (nodes : gmap string node) (root contain : string) : result string (list FileEntry * Z * string) :=
  let root := Clean root in
  if negb (pathWithin root contain) then Err "source escapes containment root"
  else match lstat_in nodes root with
       | EntryAbsent | EntryError => Err "lstat"
       | EntryLink => Err "source root must not be a symlink"
       | EntryOther =>
           match nodes !! root with
           | Some n => let es := [entry_of transferRootFile n] in Ok (es, total_size es, tree_digest es)
           | None =>
               let t := subtree nodes root in
               if negb (forallb (link_safe nodes root contain) (map_to_list t)) then Err "unsafe symlink"
               else let es := tree_entries t in Ok (es, total_size es, tree_digest es)
           end
       end.

Definition hfContainDir (source : string) : string :=
  let clean := Clean source in
  let up := parent clean in
  if bool_decide (Base up = "snapshots") && has_prefix "models--" (Base (parent up)) then parent up else clean.

(** [collectResourceManifest] *)

Context (decode_record : string → option SnapshotRecord).

Definition addFile (nodes : gmap string node) (root path : string) (entries : gmap string FileEntry) : result string (gmap string FileEntry) :=
  if negb (safe_in nodes path) then Err "download.destination_symlink"
  else match Rel root path with
       | None => Err "download.snapshot_escape"
       | Some rel =>
           if negb (pathWithin path root) then Err "download.snapshot_escape"
           else if bool_decide (is_Some (entries !! rel)) then Ok entries
           else match nodes !! path with
                | Some (RegularFile c mode) => Ok (<[rel := entry_of rel (RegularFile c mode)]> entries)
                | _ => Err "download.snapshot_file_missing"
                end
       end.

Fixpoint addSnapshot (nodes : gmap string node) (root revision : string) (files : list SnapshotFile) (entries : gmap string FileEntry)
    : result string (gmap string FileEntry) :=
  match files with
  | [] => Ok entries
  | f :: files =>
      match safeRelativePath (sf_path f) with
      | None => Err "unsafe relative path"
      | Some rel =>
          let path := Join [root; "snapshots"; revision; rel] in
          match nodes !! path with
          | Some (SymbolicLink target) =>
              if IsAbs target then Err "download.snapshot_link_invalid"
              else match EvalSymlinks nodes path with
                   | None => Err "download.snapshot_link_escape"
                   | Some resolved =>
                       if negb (pathWithin resolved (Join [root; "blobs"])) && negb (pathWithin resolved (Join [root; "snapshots"; revision]))
                       then Err "download.snapshot_link_escape"
                       else
                         entries ← addFile nodes root resolved entries;
                         let relative := default "" (Rel root path) in
                         addSnapshot nodes root revision files (<[relative := entry_of relative (SymbolicLink target)]> entries)
                   end
          | _ => entries ← addFile nodes root path entries; addSnapshot nodes root revision files entries
          end
      end
  end.

Definition collectResourceManifest (nodes : gmap string node) (identity root : string) : result string (list FileEntry * Z * string) :=
  if negb (has_prefix "hf://" identity) then collectManifest nodes root root
  else
    let '(_, revision, ok) := cut at_sign identity in
    if negb ok then Err "download.identity_invalid"
    else
      let recordPath := hfSnapshotManifestPath root revision in
      match nodes !! recordPath with
      | Some (RegularFile raw _) =>
          if 16 * 2 ^ 20 <? sized raw then Err "download.snapshot_record_unavailable"
          else match decode_record raw with
               | None => Err "download.snapshot_record_invalid"
               | Some record =>
                   if negb (sr_version record =? 2) || negb (bool_decide (sr_identity record = identity)) then Err "download.snapshot_record_invalid"
                   else
                     entries ← addFile nodes root recordPath ∅;
                     entries ← addSnapshot nodes root revision (sr_files record) entries;
                     let es := omap (λ rel, entries !! rel) (sort_strings (map fst (map_to_list entries))) in
                     Ok (es, total_size es, tree_digest es)
               end
      | _ => Err "download.snapshot_record_unavailable"
      end.

(** ** The serving agent *)

Context (signed : transferCred → bool) (nodeID : string) (decode_cred : string → option transferCred).

Definition verifyCredential (now : Z) (k : transferCred) : result string unit :=
  if bool_decide (cr_transfer k = "") || bool_decide (cr_source k = "") || bool_decide (cr_dest k = "") || bool_decide (cr_artifact k = "")
     || bool_decide (cr_src_path k = "") || bool_decide (cr_dest_path k = "")
  then Err "credential scope is incomplete"
  else if (cr_size k <? 0) || (256 <? bytes_of (cr_transfer k)) || (4096 <? bytes_of (cr_src_path k)) || (4096 <? bytes_of (cr_dest_path k))
  then Err "credential scope is invalid"
  else if negb (bool_decide (cr_identity k = ""))
          && (negb (bool_decide (cr_operation k = "start")) || negb (bool_decide (cr_identity k = cr_artifact k)) || negb (bool_decide (cr_tree k = cr_source_digest k))
              || negb (has_prefix "sha256:" (cr_tree k)) || negb (validHFFileDigest (cr_tree k)))
  then Err "credential immutable identity is invalid"
  else if cr_exp k <? now then Err "credential expired"
  else if negb (signed k) then Err "credential signature"
  else Ok tt.

Definition source_roots : list string := TransferDir cfg :: Join [cfg_state_root cfg; "recipes"] :: cfg_cache_roots cfg.

Definition authorizePeerSource (nodes : gmap string node) (k : transferCred) : result string unit :=
  match safeDestination (lstat_in nodes) (cr_src_path k) with
  | Err e => Err e
  | Ok _ =>
      if existsb (λ root, negb (bool_decide (root = "")) && pathWithin (cr_src_path k) root && negb (bool_decide (cr_src_path k = root))) source_roots
      then Ok tt else Err "download.peer_source_unconfigured"
  end.

Record transferSession := mkSession { ts_credential : string; ts_files : gmap string FileEntry; ts_scope : string; ts_finished : gset string }.

Record Service := mkService { sv_active : gmap string transferSession; sv_used : gset string }.

(** Where and when a request is answered, and the names in the certificate of the peer *)
Record Request := mkRequest { rq_nodes : gmap string node; rq_now : Z; rq_names : list string; rq_transfer : string; rq_credential : string }.

Definition authorize (r : Request) : result string transferCred :=
  match decode_cred (rq_credential r) with
  | None => Err "credential"
  | Some k =>
      _ ← verifyCredential (rq_now r) k;
      if negb (bool_decide (cr_transfer k = rq_transfer r)) || negb (bool_decide (cr_source k = nodeID)) then Err "credential source or transfer mismatch"
      else if negb (bool_decide (cr_dest k ∈ rq_names r)) then Err "credential destination not in peer certificate"
      else _ ← authorizePeerSource (rq_nodes r) k; Ok k
  end.

Definition scope_of (k : transferCred) : string := join "|" [cr_source k; cr_dest k; cr_src_path k; cr_dest_path k; cr_artifact k; cr_source_digest k].

Definition Manifest (r : Request) (path : string) (s : Service) : result string (list FileEntry * Z * string) * Service :=
  match authorize r with
  | Err e => (Err e, s)
  | Ok k =>
      if negb (bool_decide (Clean path = Clean (cr_src_path k))) then (Err "source path mismatch", s)
      else match (if bool_decide (cr_identity k = "") then collectManifest (rq_nodes r) (cr_src_path k) (hfContainDir (cr_src_path k))
                  else collectResourceManifest (rq_nodes r) (cr_identity k) (cr_src_path k)) with
           | Err e => (Err e, s)
           | Ok (entries, total, digest) =>
               if (0 <? cr_size k) && negb (total =? cr_size k) then (Err "source size changed", s)
               else if negb (bool_decide (cr_source_digest k = "")) && negb (bool_decide (cr_source_digest k = digest)) then (Err "source digest changed", s)
               else if negb (bool_decide (cr_tree k = "")) && negb (bool_decide (cr_tree k = digest)) then (Err "signed tree digest changed", s)
               else if bool_decide (cr_identity k = "") && bool_decide (cr_transfer k ∈ sv_used s) then (Err "credential already used", s)
               else if match sv_active s !! cr_transfer k with Some old => negb (bool_decide (ts_scope old = scope_of k)) | None => false end
               then (Err "credential scope changed", s)
               else
                 let files := foldl (λ m e, <[fe_path e := e]> m) ∅ entries in
                 (Ok (entries, total, digest), mkService (<[cr_transfer k := mkSession (cr_signature k) files (scope_of k) ∅]> (sv_active s)) (sv_used s))
           end
  end.

Definition regularFileCount (files : gmap string FileEntry) : nat := length (filter (λ e, fe_target (snd e) = "") (map_to_list files)).

Record Chunk := mkChunk { ch_data : string; ch_offset : Z; ch_eof : bool }.

Definition ReadChunk (r : Request) (path : string) (offset length : Z) (s : Service) : result string Chunk * Service :=
  match authorize r with
  | Err e => (Err e, s)
  | Ok k =>
      match (session ← sv_active s !! cr_transfer k;
             if bool_decide (ts_credential session = cr_signature k) then (λ e, (session, e)) <$> ts_files session !! path else None) with
      | None => (Err "path is not in transfer manifest", s)
      | Some (session, e) =>
          if negb (bool_decide (fe_target e = "")) then (Err "path is not in transfer manifest", s)
          else if (length =? 0) || (transferChunkSize <? length) then (Err "chunk length out of bounds", s)
          else if fe_size e <? offset then (Err "offset past EOF", s)
          else
            let p := if bool_decide (fe_path e = transferRootFile) then cr_src_path k else Join [cr_src_path k; fe_path e] in
            if negb (safe_in (rq_nodes r) p) then (Err "source path changed after manifest verification", s)
            else match rq_nodes r !! p with
                 | Some (RegularFile c _) =>
                     let length := Z.min length (fe_size e - offset) in
                     let data := stake (Z.to_nat length) (sdrop (Z.to_nat offset) c) in
                     let eof := offset + sized data =? fe_size e in
                     let s :=
                       if eof then
                         let finished := {[fe_path e]} ∪ ts_finished session in
                         if bool_decide (cr_identity k = "") && (size finished =? regularFileCount (ts_files session))%nat
                         then mkService (delete (cr_transfer k) (sv_active s)) ({[cr_transfer k]} ∪ sv_used s)
                         else mkService (<[cr_transfer k := mkSession (ts_credential session) (ts_files session) (ts_scope session) finished]> (sv_active s)) (sv_used s)
                       else s in
                     (Ok (mkChunk data offset eof), s)
                 | _ => (Err "open", s)
                 end
      end
  end.

(** ** The pulling agent *)

Context (checkpoint_size : peerCheckpoint → Z).
Context (hf_shape_ok : gmap string node → string → string → bool) (package_digest : gmap string node → string → option string)
  (assets_ok : gmap string node → string → bool).

Definition with_nodes (f : gmap string node → gmap string node) (d : Device) : Device := mkDevice (f (dv_nodes d)) (dv_checkpoints d).

Definition device_env (nodes : gmap string node) : Env := mkEnv true true true (lstat_in nodes) (λ _, false) (λ _, false) None.

(** [save] of a checkpoint *)
Definition save_checkpoint (path : string) (k : peerCheckpoint) (d : Device) : result string unit * Device :=
  if negb (safe_in (dv_nodes d) path) then (Err "download.destination_symlink", d)
  else (Ok tt, mkDevice (dv_nodes d) (<[path := k]> (dv_checkpoints d))).

Definition bind_device {A B} (r : result string A * Device) (f : A → Device → result string B * Device) : result string B * Device :=
  match r with (Ok a, d) => f a d | (Err e, d) => (Err e, d) end.

Definition staging_of (identity destination digest : string) : string :=
  Join [parent destination; ".untrusted-" +:+ hash (identity +:+ String "000" (destination +:+ String "000" digest))].

(** The staging tree and its checkpoint *)
Definition transferCheckpoint (c : TransferCommand) (digest : string) (d : Device) : result string (string * peerCheckpoint) * Device :=
  match transferDestination cfg (device_env (dv_nodes d)) c with
  | Err e => (Err e, d)
  | Ok destination =>
      let staging := staging_of (tc_identity c) destination digest in
      let path := staging +:+ ".checkpoint.json" in
      if negb (safe_in (dv_nodes d) staging) then (Err "download.destination_symlink", d)
      else
        let fresh := mkCheckpoint (tc_identity c) destination digest ∅ in
        match (match dv_checkpoints d !! path with
               | None => Ok fresh
               | Some k =>
                   if 16 * 2 ^ 20 <? checkpoint_size k then Err "download.checkpoint_oversized"
                   else if negb (bool_decide (pk_identity k = tc_identity c)) || negb (bool_decide (pk_destination k = destination))
                           || negb (bool_decide (pk_tree k = digest))
                   then Err "download.checkpoint_binding_invalid" else Ok k
               end) with
        | Err e => (Err e, d)
        | Ok k =>
            if negb (mkdir_ok (dv_nodes d) (parent staging)) then (Err "mkdir", d)
            else bind_device (save_checkpoint path k d) (λ _ d, (Ok (staging, k), d))
        end
  end.

(** How much of a retained file is kept *)
Definition kept_prefix (k : peerCheckpoint) (rel : string) (size : Z) (c : string) : Z :=
  match pk_prefixes k !! rel with
  | Some (offset, sha) =>
      if (0 <? offset) && (offset <=? size) && (offset <=? sized c) && bool_decide ("sha256:" +:+ hash (stake (Z.to_nat offset) c) = sha) then offset else 0
  | None => 0
  end.

Definition openPrefix (k : peerCheckpoint) (path rel : string) (size mode : Z) (d : Device) : result string Z * Device :=
  if negb (safe_in (dv_nodes d) path) then (Err "download.destination_symlink", d)
  else match dv_nodes d !! path with
       | Some (SymbolicLink _) => (Err "open", d)
       | Some (RegularFile c m) =>
           let offset := kept_prefix k rel size c in
           (Ok offset, with_nodes (insert path (RegularFile (stake (Z.to_nat offset) c) m)) d)
       | None => if is_dir (dv_nodes d) path then (Err "open", d) else (Ok 0, with_nodes (insert path (RegularFile "" mode)) d)
       end.

Definition content_at (nodes : gmap string node) (p : string) : string := match nodes !! p with Some (RegularFile c _) => c | _ => "" end.

Definition append_to (p data : string) (d : Device) : Device :=
  with_nodes (alter (λ n, match n with RegularFile c m => RegularFile (c +:+ data) m | _ => n end) p) d.

(** What the peer answers: its manifest, and its chunk of the [i]th file of that from an offset, with the offset it gives *)
Context (peer_chunk : nat → Z → option (Z * string)).

(** The chunks of a file; each is nonempty, so there are no more than bytes missing *)
Fixpoint pull_chunks (fuel i : nat) (size : Z) (path rel ckpath : string) (offset : Z) (k : peerCheckpoint) (d : Device) : result string peerCheckpoint * Device :=
  if offset <? size then
    match fuel with
    | O => (Err "fuel", d)
    | S fuel =>
        match peer_chunk i offset with
        | None => (Err "read", d)
        | Some (at_, data) =>
            if negb (at_ =? offset) || bool_decide (data = "") || (size - offset <? sized data) then (Err "invalid chunk", d)
            else
              let d := append_to path data d in
              let offset := offset + sized data in
              if (offset mod (4 * 2 ^ 20) =? 0) || (offset =? size) then
                let k := mkCheckpoint (pk_identity k) (pk_destination k) (pk_tree k)
                           (<[rel := (offset, "sha256:" +:+ hash (content_at (dv_nodes d) path))]> (pk_prefixes k)) in
                bind_device (save_checkpoint ckpath k d) (λ _ d, pull_chunks fuel i size path rel ckpath offset k d)
              else pull_chunks fuel i size path rel ckpath offset k d
        end
    end
  else (Ok k, d).

Definition pull_file (staging ckpath : string) (i : nat) (e : FileEntry) (k : peerCheckpoint) (d : Device) : result string peerCheckpoint * Device :=
  match safeRelativePath (fe_path e) with
  | None => (Err "unsafe relative path", d)
  | Some rel =>
      let path := Join [staging; rel] in
      if negb (bool_decide (fe_target e = "")) then (Ok k, d)
      else if negb (mkdir_ok (dv_nodes d) (parent path)) then (Err "mkdir", d)
      else
        bind_device (openPrefix k path rel (fe_size e) (Z.land (fe_mode e) 438) d) (λ offset d,
        bind_device (pull_chunks (Z.to_nat (fe_size e - offset)) i (fe_size e) path rel ckpath offset k d) (λ k d,
        if bool_decide ("sha256:" +:+ hash (content_at (dv_nodes d) path) = fe_sha e) then (Ok k, d) else (Err "digest mismatch", d)))
  end.

Fixpoint pull_files (staging ckpath : string) (i : nat) (es : list FileEntry) (k : peerCheckpoint) (d : Device) : result string peerCheckpoint * Device :=
  match es with
  | [] => (Ok k, d)
  | e :: es => bind_device (pull_file staging ckpath i e k d) (λ k d, pull_files staging ckpath (S i) es k d)
  end.

(** The links; one that is there already is left as it is *)
Fixpoint pull_links (staging : string) (es : list FileEntry) (d : Device) : result string unit * Device :=
  match es with
  | [] => (Ok tt, d)
  | e :: es =>
      if bool_decide (fe_target e = "") then pull_links staging es d
      else match safeRelativePath (fe_path e) with
           | None => (Err "unsafe relative path", d)
           | Some rel =>
               let target := Clean (fe_target e) in
               let link := Join [staging; rel] in
               if IsAbs target || negb (pathWithin (Join [parent link; target]) staging) then (Err "unsafe symlink target", d)
               else if negb (mkdir_ok (dv_nodes d) (parent link)) then (Err "mkdir", d)
               else
                 let d := match lstat_in (dv_nodes d) link with EntryAbsent => with_nodes (insert link (SymbolicLink target)) d | _ => d end in
                 pull_links staging es d
           end
  end.

(** [hfSnapshotDiagnostics] says nothing *)
Definition snapshot_valid (nodes : gmap string node) (identity modelRoot snapshot : string) : bool :=
  let '(_, revision, ok) := cut at_sign identity in
  let file p := match EvalSymlinks nodes p with Some q => match nodes !! q with Some (RegularFile c _) => Some c | _ => None end | None => None end in
  hf_shape_ok nodes snapshot modelRoot && ok
  && match file (hfSnapshotManifestPath modelRoot revision) ≫= decode_record with
     | None => false
     | Some record =>
         (sr_version record =? 2) && bool_decide (sr_identity record = identity) && negb (bool_decide (sr_files record = []))
         && forallb (λ f, match safeRelativePath (sf_path f) with
                          | None => false
                          | Some rel =>
                              validHFFileDigest (sf_digest f) && (0 <=? sf_size f)
                              && match file (Join [snapshot; rel]) with Some c => exact hash sha1 (sf_size f) (sf_digest f) c | None => false end
                          end) (sr_files record)
     end.

Definition validateTransferredIdentity (nodes : gmap string node) (identity root : string) (es : list FileEntry) : result string unit :=
  match Parse identity with
  | Err _ => Err "identity"
  | Ok parsed =>
      if bool_decide (p_kind parsed = "file") then
        match es with
        | [e] => if bool_decide (fe_path e = transferRootFile)
                    && match nodes !! Join [root; transferRootFile] with Some (RegularFile c _) => bool_decide ("sha256:" +:+ hash c = p_digest parsed) | _ => false end
                 then Ok tt else Err "download.transfer_file_identity_mismatch"
        | _ => Err "download.transfer_file_identity_mismatch"
        end
      else if bool_decide (p_kind parsed = "model") then
        if snapshot_valid nodes identity root (Join [root; "snapshots"; p_revision parsed]) then Ok tt else Err "download.transfer_snapshot_identity_mismatch"
      else if bool_decide (p_kind parsed = "recipe") then
        if bool_decide (package_digest nodes root = Some (p_digest parsed)) then (if assets_ok nodes root then Ok tt else Err "assets")
        else Err "download.transfer_package_identity_mismatch"
      else Err "download.transfer_layout_unsupported"
  end.

(** [makeTransferredArtifactMountable]: the files become readable for everyone *)
Definition mountable (root : string) (nodes : gmap string node) : gmap string node :=
  map_imap (λ p n, Some (match n with RegularFile c m => if below root p || bool_decide (p = root) then RegularFile c (Z.lor m 36) else n | _ => n end)) nodes.

Definition remove_all (root : string) (nodes : gmap string node) : gmap string node := filter (λ e, below root (fst e) = false ∧ fst e ≠ root) nodes.

(** [os.Rename] of a directory to a place that is free *)
Definition rename (from to : string) (nodes : gmap string node) : gmap string node :=
  list_to_map (map (λ e, match relative from (fst e) with Some rel => (to +:+ "/" +:+ rel, snd e) | None => e end) (map_to_list nodes)).

Definition publish_entry (staging final : string) (e : FileEntry) (d : Device) : result string unit * Device :=
  match safeRelativePath (fe_path e) with
  | None => (Err "unsafe relative path", d)
  | Some rel =>
      let source := Join [staging; rel] in
      let destination := Join [final; rel] in
      if negb (safe_in (dv_nodes d) (parent destination)) then (Err "download.destination_symlink", d)
      else if negb (mkdir_ok (dv_nodes d) (parent destination)) then (Err "mkdir", d)
      else match lstat_in (dv_nodes d) destination with
           | EntryAbsent =>
               if negb (bool_decide (fe_target e = "")) then (Ok tt, with_nodes (insert destination (SymbolicLink (fe_target e))) d)
               else match dv_nodes d !! source with
                    | Some n => (Ok tt, with_nodes (insert destination n) d)
                    | None => (Err "link", d)
                    end
           | _ =>
               match dv_nodes d !! destination with
               | Some (SymbolicLink target) => if negb (bool_decide (fe_target e = "")) && bool_decide (target = fe_target e) then (Ok tt, d) else (Err "download.active_file_invalid", d)
               | Some (RegularFile c _) =>
                   if bool_decide (fe_target e = "") && (sized c =? fe_size e) && bool_decide ("sha256:" +:+ hash c = fe_sha e) then (Ok tt, d)
                   else (Err "download.active_file_invalid", d)
               | None => (Err "download.active_file_invalid", d)
               end
           end
  end.

Fixpoint publish_entries (staging final : string) (es : list FileEntry) (d : Device) : result string unit * Device :=
  match es with
  | [] => (Ok tt, d)
  | e :: es => bind_device (publish_entry staging final e d) (λ _ d, publish_entries staging final es d)
  end.

Definition is_completion (e : FileEntry) : bool := has_prefix ".lmw/snapshots/" (fe_path e).

(** [publishHFTransfer]: the record of completion is last *)
Definition publishHFTransfer (staging final : string) (es : list FileEntry) (d : Device) : result string unit * Device :=
  if negb (safe_in (dv_nodes d) final) then (Err "download.destination_symlink", d)
  else
    bind_device (publish_entries staging final (filter (λ e, is_completion e = false) es) d) (λ _ d,
    match last (filter (λ e, is_completion e = true) es) with
    | None => (Err "download.snapshot_record_missing", d)
    | Some e => bind_device (publish_entry staging final e d) (λ _ d, (Ok tt, with_nodes (remove_all staging) d))
    end).

(** The staging tree becomes the destination *)
Definition publish (c : TransferCommand) (staging : string) (es : list FileEntry) (d : Device) : result string unit * Device :=
  match transferDestination cfg (device_env (dv_nodes d)) c with
  | Err e => (Err e, d)
  | Ok final =>
      let d := with_nodes (mountable staging) d in
      if has_prefix "hf://" (tc_identity c) then publishHFTransfer staging final es d
      else match lstat_in (dv_nodes d) final with
           | EntryAbsent =>
               if negb (mkdir_ok (dv_nodes d) (parent final)) then (Err "mkdir", d)
               else if bool_decide (fe_path <$> es = [transferRootFile]) then
                 match dv_nodes d !! Join [staging; transferRootFile] with
                 | Some n => (Ok tt, with_nodes (λ nodes, remove_all staging (<[final := n]> nodes)) d)
                 | None => (Err "link", d)
                 end
               else (Ok tt, with_nodes (rename staging final) d)
           | _ => (Err "download.destination_exists", d)
           end
  end.

(** The command names what the credential was signed for *)
Definition command_bound (now : Z) (c : TransferCommand) (k : transferCred) : result string unit :=
  if negb (bool_decide (cr_transfer k = tc_id c)) || negb (bool_decide (cr_dest k = nodeID)) || negb (bool_decide (cr_artifact k = tc_identity c))
     || negb (bool_decide (cr_dest_path k = tc_destination c))
  then Err "transfer command does not match credential"
  else
    _ ← verifyCredential now k;
    match tc_op c with
    | TransferStart =>
        if negb (bool_decide (cr_operation k = "start")) || negb (bool_decide (cr_identity k = tc_identity c)) || bool_decide (cr_tree k = "")
           || negb (bool_decide (cr_source_digest k = cr_tree k))
        then Err "download.transfer_identity_unbound" else Ok tt
    | _ => Ok tt
    end.

Definition pullTransfer (now : Z) (c : TransferCommand) (manifest : option (list FileEntry * Z * string)) (d : Device) : result string unit * Device :=
  match decode_cred (tc_credential c) with
  | None => (Err "credential", d)
  | Some k =>
      match command_bound now c k, manifest with
      | Err e, _ => (Err e, d)
      | Ok _, None => (Err "manifest", d)
      | Ok _, Some (es, total, digest) =>
          if (100000 <? Z.of_nat (length es)) || (negb (bool_decide (digest = cr_source_digest k)) && negb (bool_decide (cr_source_digest k = "")))
          then (Err "download.transfer_manifest_changed", d)
          else
            bind_device (transferCheckpoint c digest d) (λ '(staging, k) d,
            let ckpath := staging +:+ ".checkpoint.json" in
            if negb (mkdir_ok (dv_nodes d) staging) then (Err "mkdir", d)
            else
              bind_device (pull_files staging ckpath 0 es k d) (λ _ d,
              bind_device (pull_links staging es d) (λ _ d,
              if negb (match collectManifest (dv_nodes d) staging staging with Ok (_, _, tree) => bool_decide (tree = digest) | Err _ => false end)
              then (Err "final tree digest mismatch", d)
              else match validateTransferredIdentity (dv_nodes d) (tc_identity c) staging es with
                   | Err e => (Err e, d)
                   | Ok _ => bind_device (publish c staging es d) (λ _ d, (Ok tt, mkDevice (dv_nodes d) (delete ckpath (dv_checkpoints d))))
                   end)))
      end
  end.
End transfer.
