(* ===== verification/AgentTransferInv.v ===== *)
(** * What a transfer guarantees

    The theorems of [AgentTransfer]: what is published was signed for and verified, whatever the peer sends, and nothing
    else on the device is touched; a model snapshot is recorded as complete last; and two agents that follow the protocol
    copy a tree exactly. *)

From S2P Require Import Prelude GoStrings Paths ArtifactIdentity Resources Recipe Inventory DownloadPlan AgentFiles AgentAcquire AgentAcquireInv AgentFetch AgentTransfer.
Open Scope Z_scope.

(** ** Trees *)

Lemma below_inj root r r' : root +:+ "/" +:+ r = root +:+ "/" +:+ r' → r = r'.
Proof. induction root as [|a root IH]; simpl; [by intros [= ->]|]. intros [= H]. by apply IH. Qed.

Lemma relative_spec root p rel : relative root p = Some rel ↔ p = root +:+ "/" +:+ rel.
Proof.
  unfold relative, below. destruct (has_prefix (root +:+ "/") p) eqn:E.
  - apply has_prefix_spec in E as [r ->]. assert (sdrop (String.length root + 1) ((root +:+ "/") +:+ r) = r) as ->.
    { replace (String.length root + 1)%nat with (String.length (root +:+ "/")) by (by rewrite slength_app). apply sdrop_app. }
    rewrite sapp_assoc. split; [by intros [= ->]|]. intros H. f_equal. by apply below_inj in H.
  - split; [done|]. intros ->. exfalso. apply not_true_iff_false in E. apply E, has_prefix_spec. exists rel. by rewrite sapp_assoc.
Qed.

Lemma below_spec root p : below root p = true ↔ ∃ rel, p = root +:+ "/" +:+ rel.
Proof.
  unfold below. rewrite has_prefix_spec. split; intros [r ->]; exists r; by rewrite sapp_assoc.
Qed.

(** Of two trees with a path in common one is within the other *)
Lemma below_common a b q : below a q = true → below b q = true → a = b ∨ below a b = true ∨ below b a = true.
Proof.
  unfold below. revert b q. induction a as [|x a IH]; intros [|y b] q Ha Hb; [by left|..].
  - right. left. apply has_prefix_spec in Ha as [r ->], Hb as [r' Hr']. injection Hr' as <- _. apply has_prefix_spec. by exists b.
  - right. right. apply has_prefix_spec in Ha as [r ->], Hb as [r' Hr']. injection Hr' as -> _. apply has_prefix_spec. by exists a.
  - apply has_prefix_spec in Ha as [r ->], Hb as [r' Hr']. injection Hr' as <- Hr'. destruct (IH b ((a +:+ "/") +:+ r)) as [->|[H|H]].
    + apply has_prefix_spec. by exists r.
    + apply has_prefix_spec. by exists r'.
    + by left.
    + right. left. apply has_prefix_spec in H as [z ->]. apply has_prefix_spec. by exists z.
    + right. right. apply has_prefix_spec in H as [z ->]. apply has_prefix_spec. by exists z.
Qed.

Lemma relative_below root p : below root p = false → relative root p = None.
Proof. unfold relative. by intros ->. Qed.

Lemma lookup_subtree nodes root rel : subtree nodes root !! rel = nodes !! (root +:+ "/" +:+ rel).
Proof.
  unfold subtree. set (l := omap _ _). assert (NoDup l.*1) as Hnd.
  { unfold l. pose proof (NoDup_fst_map_to_list nodes) as Hm. induction (map_to_list nodes) as [|[p n] m IH]; [constructor|].
    apply NoDup_cons in Hm as [Hp Hm]. simpl. destruct (relative root p) as [r|] eqn:Er; simpl; [|by apply IH]. constructor; [|by apply IH].
    intros ([r' n'] & -> & ([p' n''] & Hin & Hx)%list_elem_of_omap)%list_elem_of_fmap. simpl in Hx. destruct (relative root p') as [r''|] eqn:Er'; [|done].
    injection Hx as -> ->. apply relative_spec in Er as ->, Er' as ->. apply Hp, list_elem_of_fmap. eexists (_, _). by split; [|exact Hin]. }
  destruct (nodes !! (root +:+ "/" +:+ rel)) as [n|] eqn:E.
  - apply elem_of_list_to_map_1; [done|]. apply list_elem_of_omap. exists (root +:+ "/" +:+ rel, n). split; [by apply elem_of_map_to_list|].
    simpl. by rewrite (proj2 (relative_spec _ _ rel)).
  - apply not_elem_of_list_to_map_1. intros ([r n] & -> & ([p n'] & Hin & Hx)%list_elem_of_omap)%list_elem_of_fmap. cbn [fst snd] in *.
    destruct (relative root p) as [r'|] eqn:Er; [|done]. injection Hx as -> ->. apply relative_spec in Er as ->. apply elem_of_map_to_list in Hin. congruence.
Qed.

(** A directory moves with everything in it *)
Definition moved (from to p : string) : string := match relative from p with Some rel => to +:+ "/" +:+ rel | None => p end.

Lemma rename_spec from to nodes p n :
  (∀ q, below to q = true → nodes !! q = None) → rename from to nodes !! p = Some n ↔ ∃ q, nodes !! q = Some n ∧ moved from to q = p.
Proof.
  intros Hfree. unfold rename. set (l := map _ _). assert (l = prod_map (moved from to) id <$> map_to_list nodes) as El.
  { unfold l. apply list_fmap_ext. intros i [q x] _. unfold moved. simpl. by destruct (relative from q). }
  assert (∀ q q' x x', nodes !! q = Some x → nodes !! q' = Some x' → moved from to q = moved from to q' → q = q') as Hinj.
  { intros q q' x x' Hq Hq' Hm. unfold moved in Hm. destruct (relative from q) as [r|] eqn:E, (relative from q') as [r'|] eqn:E'.
    - apply relative_spec in E as ->, E' as ->. by apply below_inj in Hm as ->.
    - exfalso. rewrite Hfree in Hq'; [done|]. apply below_spec. by eexists.
    - exfalso. rewrite Hfree in Hq; [done|]. apply below_spec. by eexists.
    - done. }
  assert (NoDup l.*1) as Hnd.
  { rewrite El, <- list_fmap_compose. apply NoDup_fmap_2_strong; [|apply NoDup_map_to_list].
    intros [q x] [q' x'] Hq%elem_of_map_to_list Hq'%elem_of_map_to_list Hm. simpl in Hm. assert (q = q') as -> by (by eapply Hinj). f_equal. congruence. }
  rewrite <- elem_of_list_to_map by done. rewrite El, list_elem_of_fmap. split.
  - intros ([q x] & [= -> ->] & Hin%elem_of_map_to_list). by exists q.
  - intros (q & Hq & <-). exists (q, n). split; [done|]. by apply elem_of_map_to_list.
Qed.

Lemma moved_below from to rel : moved from to (from +:+ "/" +:+ rel) = to +:+ "/" +:+ rel.
Proof. unfold moved. by rewrite (proj2 (relative_spec from _ rel)). Qed.

Lemma moved_other from to p : below from p = false → moved from to p = p.
Proof. intros H. unfold moved. by rewrite relative_below. Qed.

Lemma subtree_rename from to nodes :
  (∀ q, below to q = true → nodes !! q = None) → subtree (rename from to nodes) to = subtree nodes from.
Proof.
  intros Hfree. apply map_eq. intros rel. rewrite !lookup_subtree. apply option_eq. intros n. rewrite rename_spec by done. split.
  - intros (q & Hq & Hm). unfold moved in Hm. destruct (relative from q) as [r|] eqn:E.
    + apply relative_spec in E as ->. by apply below_inj in Hm as ->.
    + subst q. rewrite Hfree in Hq; [done|]. apply below_spec. by eexists.
  - intros H. exists (from +:+ "/" +:+ rel). split; [done|]. apply moved_below.
Qed.

Lemma rename_other from to nodes p :
  (∀ q, below to q = true → nodes !! q = None) → below from p = false → below to p = false → rename from to nodes !! p = nodes !! p.
Proof.
  intros Hfree Hf Ht. apply option_eq. intros n. rewrite rename_spec by done. split.
  - intros (q & Hq & Hm). unfold moved in Hm. destruct (relative from q) as [r|] eqn:E; [|by subst].
    exfalso. subst p. apply not_true_iff_false in Ht. apply Ht, below_spec. by eexists.
  - intros H. exists p. split; [done|]. by apply moved_other.
Qed.

(** ** What a tree shows: everything but the modes *)

Definition shown (n : node) : string + string := match n with RegularFile c _ => inl c | SymbolicLink t => inr t end.

Definition view (t : gmap string node) : gmap string (string + string) := shown <$> t.

Lemma view_lookup t p : view t !! p = shown <$> t !! p.
Proof. apply lookup_fmap. Qed.

Lemma view_subtree t t' root : view t = view t' → view (subtree t root) = view (subtree t' root).
Proof. intros H. apply map_eq. intros rel. by rewrite !view_lookup, !lookup_subtree, <- !view_lookup, H. Qed.

Lemma view_entries hash t t' : view t = view t' → tree_text (tree_entries hash t) = tree_text (tree_entries hash t').
Proof.
  intros H. unfold tree_entries. assert (map fst (map_to_list t) ≡ₚ map fst (map_to_list t')) as Hk.
  { apply NoDup_Permutation; [apply NoDup_fst_map_to_list..|]. intros p.
    assert (∀ x : gmap string node, p ∈ map fst (map_to_list x) ↔ is_Some (view x !! p)) as Hx.
    { intros x. rewrite view_lookup, fmap_is_Some, list_elem_of_fmap. split.
      - intros ([q n] & -> & Hq%elem_of_map_to_list). by exists n.
      - intros [n Hn]. exists (p, n). split; [done|]. by apply elem_of_map_to_list. }
    by rewrite !Hx, H. }
  rewrite Hk. unfold tree_text. f_equal. generalize (sort_strings (map fst (map_to_list t'))). intros ks. induction ks as [|k ks IH]; [done|].
  assert (shown <$> t !! k = shown <$> t' !! k) as Hs by (by rewrite <- !view_lookup, H). cbn [omap list_omap].
  destruct (t !! k) as [n|], (t' !! k) as [n'|]; [|done|done|exact IH]. cbn [fmap option_fmap option_map list_fmap]. rewrite IH. f_equal.
  injection Hs as Hs. destruct n, n'; simpl in Hs; simplify_eq; done.
Qed.

Lemma view_mountable root nodes : view (mountable root nodes) = view nodes.
Proof.
  apply map_eq. intros p. rewrite !view_lookup. unfold mountable. rewrite map_lookup_imap. destruct (nodes !! p) as [[c m|t]|]; simpl; [|done|done].
  by destruct (below root p || bool_decide (p = root)).
Qed.

Lemma mountable_other root nodes p : below root p = false → p ≠ root → mountable root nodes !! p = nodes !! p.
Proof.
  intros Hb Hn. unfold mountable. rewrite map_lookup_imap. destruct (nodes !! p) as [[c m|t]|]; simpl; [|done|done].
  by rewrite Hb, bool_decide_eq_false_2.
Qed.

Lemma remove_all_lookup root nodes p : below root p = false → p ≠ root → remove_all root nodes !! p = nodes !! p.
Proof.
  intros Hb Hn. unfold remove_all. destruct (nodes !! p) as [n|] eqn:E.
  - apply map_lookup_filter_Some. split; [exact E|]. by split.
  - apply map_lookup_filter_None. by left.
Qed.

Lemma absent_free nodes p : lstat_in nodes p = EntryAbsent → nodes !! p = None ∧ ∀ q, below p q = true → nodes !! q = None.
Proof.
  unfold lstat_in. destruct (nodes !! p) as [[? ?|?]|]; [done|done|]. destruct (is_dir nodes p) eqn:E; [done|]. intros _. split; [done|]. intros q Hq.
  destruct (nodes !! q) as [n|] eqn:En; [|done]. exfalso. apply not_true_iff_false in E. apply E, existsb_exists. exists (q, n). split; [|done].
  by apply list_elem_of_In, elem_of_map_to_list.
Qed.

(** ** Where things are *)

Lemma Join_relative root value rel : tree_root root → safeRelativePath value = Some rel → Join [root; rel] = root +:+ "/" +:+ rel.
Proof.
  intros Hr Hs. pose proof (safeRelativePath_descends _ _ Hs) as Hd. destruct (safeRelativePath_names _ _ Hs) as (ns & Hn & Hne & ->).
  destruct (tree_root_names root Hr) as (Er & _ & Hrne). destruct (Join_descends root [join "/" ns] Hr) as [-> _]; [by apply Forall_cons_2|].
  simpl. rewrite app_nil_r, elements_join_names; [|done|eapply Forall_impl; [exact Hn|]; by intros e (_ & _ & _ & ?)%name_spec].
  rewrite Er at 2. unfold render_path. by rewrite join_app_names, sapp_assoc.
Qed.

Lemma Join_below_root root value rel : tree_root root → safeRelativePath value = Some rel → below root (Join [root; rel]) = true.
Proof. intros Hr Hs. rewrite (Join_relative _ _ _ Hr Hs). apply below_spec. by eexists. Qed.

(** Nothing outside a tree is changed *)
Definition only_below (root : string) (d d' : Device) : Prop := ∀ p, below root p = false → dv_nodes d' !! p = dv_nodes d !! p.

Lemma only_below_refl root d : only_below root d d.
Proof. done. Qed.

Lemma only_below_trans root a b c : only_below root a b → only_below root b c → only_below root a c.
Proof. intros H1 H2 p Hp. by rewrite H2, H1. Qed.

Lemma only_below_insert root p n d : below root p = true → only_below root d (with_nodes (insert p n) d).
Proof. intros Hp q Hq. cbn. rewrite lookup_insert_ne; [done|]. congruence. Qed.

Lemma only_below_append root p data d : below root p = true → only_below root d (append_to p data d).
Proof. intros Hp q Hq. cbn. rewrite lookup_alter_ne; [done|]. congruence. Qed.

Lemma only_below_save root path k d r d' : save_checkpoint path k d = (r, d') → only_below root d d' ∧ dv_nodes d' = dv_nodes d.
Proof. unfold save_checkpoint. destruct (negb _); intros [= _ <-]; done. Qed.

Section facts.
Context (cfg : AgentConfig) (hash sha1 : string → string) (decode_record : string → option SnapshotRecord) (signed : transferCred → bool) (nodeID : string).
Context (decode_cred : string → option transferCred) (checkpoint_size : peerCheckpoint → Z).
Context (hf_shape_ok : gmap string node → string → string → bool) (package_digest : gmap string node → string → option string)
  (assets_ok : gmap string node → string → bool) (peer_chunk : nat → Z → option (Z * string)).
Context (state_root : tree_root (cfg_state_root cfg)) (hash_hex : ∀ s, sforallb lower_hex (hash s) = true).
Notation chunks := (pull_chunks hash peer_chunk).
Notation pull := (pullTransfer cfg hash sha1 decode_record signed nodeID decode_cred checkpoint_size hf_shape_ok package_digest assets_ok peer_chunk).

(** ** Pulling stays in the staging tree *)

Lemma open_only root k path rel size mode d r d' : below root path = true → openPrefix hash k path rel size mode d = (r, d') → only_below root d d'.
Proof.
  intros Hb. unfold openPrefix. destruct (negb _); [by intros [= _ <-]|]. destruct (dv_nodes d !! path) as [[c m|t]|].
  - intros [= _ <-]. by apply only_below_insert.
  - by intros [= _ <-].
  - destruct (is_dir _ _); intros [= _ <-]; [done|by apply only_below_insert].
Qed.

Lemma chunks_only root fuel i size path rel ckpath offset k d r d' :
  below root path = true → chunks fuel i size path rel ckpath offset k d = (r, d') → only_below root d d'.
Proof.
  intros Hb. revert offset k d. induction fuel as [|fuel IH]; intros offset k d; cbn [pull_chunks]; (destruct (offset <? size); [|by intros [= _ <-]]);
    [by intros [= _ <-]|]. destruct (peer_chunk i offset) as [[at_ data]|]; [|by intros [= _ <-]]. destruct (_ || _); [by intros [= _ <-]|].
  pose proof (only_below_append root path data d Hb) as Ha. set (k' := mkCheckpoint _ _ _ _). destruct (_ || _).
  - destruct (save_checkpoint ckpath k' (append_to path data d)) as [[[]|e] d1] eqn:Es; destruct (only_below_save root _ _ _ _ _ Es) as [Hs _]; simpl.
    + intros H%IH. eapply only_below_trans; [exact Ha|]. by eapply only_below_trans.
    + intros [= _ <-]. by eapply only_below_trans.
  - intros H%IH. by eapply only_below_trans.
Qed.

Lemma pull_file_only staging ckpath i e k d r d' :
  tree_root staging → pull_file hash peer_chunk staging ckpath i e k d = (r, d') → only_below staging d d'.
Proof.
  intros Hr. unfold pull_file. destruct (safeRelativePath (fe_path e)) as [rel|] eqn:Es; [|by intros [= _ <-]]. pose proof (Join_below_root _ _ _ Hr Es) as Hb.
  destruct (negb _); [by intros [= _ <-]|]. destruct (negb _); [by intros [= _ <-]|].
  destruct (openPrefix hash k _ _ _ _ d) as [[offset|x] d1] eqn:Eo; pose proof (open_only staging _ _ _ _ _ _ _ _ Hb Eo) as H1; simpl; [|by intros [= _ <-]].
  destruct (chunks _ i _ _ _ ckpath offset k d1) as [[k'|x] d2] eqn:Ec; pose proof (chunks_only staging _ _ _ _ _ _ _ _ _ _ _ Hb Ec) as H2; simpl.
  - destruct (bool_decide _); intros [= _ <-]; by eapply only_below_trans.
  - intros [= _ <-]. by eapply only_below_trans.
Qed.

Lemma pull_files_only staging ckpath i es k d r d' :
  tree_root staging → pull_files hash peer_chunk staging ckpath i es k d = (r, d') → only_below staging d d'.
Proof.
  intros Hr. revert i k d. induction es as [|e es IH]; intros i k d; simpl; [by intros [= _ <-]|].
  destruct (pull_file hash peer_chunk staging ckpath i e k d) as [[k'|x] d1] eqn:E; pose proof (pull_file_only _ _ _ _ _ _ _ _ Hr E) as H1; simpl.
  - intros H%IH. by eapply only_below_trans.
  - by intros [= _ <-].
Qed.

Lemma pull_links_only staging es d r d' : tree_root staging → pull_links staging es d = (r, d') → only_below staging d d'.
Proof.
  intros Hr. revert d. induction es as [|e es IH]; intros d; simpl; [by intros [= _ <-]|]. destruct (bool_decide _); [apply IH|].
  destruct (safeRelativePath (fe_path e)) as [rel|] eqn:Es; [|by intros [= _ <-]]. destruct (_ || _); [by intros [= _ <-]|]. destruct (negb _); [by intros [= _ <-]|].
  intros H%IH. eapply only_below_trans; [|exact H]. destruct (lstat_in _ _); [|done..]. by apply only_below_insert, (Join_below_root _ _ _ Hr Es).
Qed.

(** ** The staging tree of a destination *)

Lemma destination_same env env' c p p' : transferDestination cfg env c = Ok p → transferDestination cfg env' c = Ok p' → p = p'.
Proof.
  unfold transferDestination. destruct (tc_op c).
  - destruct (safeRelativePath _); [|done]. destruct (safeDestination (ev_lstat env) _), (safeDestination (ev_lstat env') _); congruence.
  - destruct (transfer_spec _ _); [|done]. destruct (authorizeDownload cfg env _), (authorizeDownload cfg env' _); congruence.
  - destruct (transfer_spec _ _); [|done]. destruct (authorizeDownload cfg env _), (authorizeDownload cfg env' _); congruence.
  - destruct (transfer_spec _ _); [|done]. destruct (authorizeDownload cfg env _), (authorizeDownload cfg env' _); congruence.
Qed.

Lemma safe_in_abs nodes p : safe_in nodes p = true → IsAbs p = true ∧ Clean p = p.
Proof. unfold safe_in, safeDestination. destruct (IsAbs p); [|done]. destruct (bool_decide_reflect (Clean p = p)); done. Qed.

Lemma staging_name s : name (".untrusted-" +:+ hash s) = true.
Proof.
  assert (contains_byte slash (hash s) = false) as Hs.
  { specialize (hash_hex s). induction (hash s) as [|a x IH]; [done|]. simpl in *. apply andb_prop in hash_hex as [Ha Hx]. rewrite IH, orb_false_r by done.
    apply bool_decide_eq_false. by intros ->. }
  apply name_spec. split_and!; [done|done|done|]. rewrite contains_byte_app. by rewrite Hs.
Qed.

Lemma parent_root p : tree_root p → clean_of (parent p) = removelast (clean_of p) ∧ IsAbs (parent p) = true.
Proof.
  intros Hr. destruct (tree_root_names p Hr) as (_ & Hn & _). destruct Hr as (Ha & _ & _). unfold parent. rewrite Ha. split; [|done].
  apply clean_of_render. rewrite removelast_firstn_len. by apply Forall_take.
Qed.

Lemma staging_root identity p digest : tree_root p →
  tree_root (staging_of hash identity p digest) ∧ length (clean_of (staging_of hash identity p digest)) = length (clean_of p).
Proof.
  intros Hr. unfold staging_of. set (e := ".untrusted-" +:+ _). assert (name e = true) as He by apply staging_name.
  destruct (parent_root p Hr) as [Hc Ha]. destruct (tree_root_names p Hr) as (_ & Hn & Hne).
  assert (names (clean_of (parent p) ++ [e])) as Hall.
  { rewrite Hc, removelast_firstn_len. apply Forall_app. split; [by apply Forall_take|by apply Forall_cons_2]. }
  assert (Join [parent p; e] = render_path true (clean_of (parent p) ++ [e])) as E.
  { rewrite Join_names, Ha; [done|by intros E; rewrite E in Ha|by apply Forall_cons_2]. }
  split.
  - apply (Join_tree_root [parent p]); [|done]. cbn [app]. by rewrite E.
  - rewrite E, clean_of_render by done. rewrite length_app, Hc, removelast_firstn_len, length_take. simpl.
    destruct (clean_of p); [done|]. simpl. lia.
Qed.

Lemma below_length root p : tree_root root → tree_root p → below root p = true → (length (clean_of root) < length (clean_of p))%nat.
Proof.
  intros Hr Hp Hb. assert (pathWithin p root = true) as Hw.
  { unfold pathWithin. destruct Hr as (_ & -> & _), Hp as (_ & -> & _). unfold below in Hb. by rewrite Hb, orb_true_r. }
  apply pathWithin_prefix in Hw; [|by destruct Hp|done]. destruct Hw as [k Hk]. rewrite Hk, length_app. destruct k as [|x k]; [|simpl; lia].
  exfalso. rewrite app_nil_r in Hk. assert (p = root) as ->.
  { destruct (tree_root_names p Hp) as (-> & _), (tree_root_names root Hr) as (-> & _). by rewrite Hk. }
  apply below_spec in Hb as [rel Hrel]. apply (f_equal String.length) in Hrel. rewrite !slength_app in Hrel. simpl in Hrel. lia.
Qed.

(** ** What is published *)

Lemma below_irrefl p : below p p = false.
Proof.
  apply not_true_is_false. intros [rel H]%below_spec. apply (f_equal String.length) in H. rewrite !slength_app in H. simpl in H. lia.
Qed.

Lemma siblings_apart p s : tree_root p → tree_root s → length (clean_of s) = length (clean_of p) → p ≠ s →
  below s p = false ∧ below p s = false ∧ ∀ q, below p q = true → below s q = false.
Proof.
  intros Hp Hs Hl Hne. assert (below s p = false ∧ below p s = false) as [H1 H2].
  { split; apply not_true_is_false; intros H%below_length; (done || lia). }
  split_and!; [done..|]. intros q Hq. apply not_true_is_false. intros Hq'. destruct (below_common _ _ _ Hq Hq') as [?|[?|?]]; [done|congruence|congruence].
Qed.

Lemma lstat_same nodes nodes' p : nodes' !! p = nodes !! p → (∀ q, below p q = true → nodes' !! q = nodes !! q) → lstat_in nodes p = EntryAbsent ↔ lstat_in nodes' p = EntryAbsent.
Proof.
  intros H1 H2. assert (is_dir nodes p = is_dir nodes' p) as Hd.
  { apply eq_true_iff_eq. unfold is_dir. rewrite !existsb_exists. split; intros ([q n] & Hin & Hb); exists (q, n); (split; [|done]);
      apply list_elem_of_In in Hin; apply list_elem_of_In; apply elem_of_map_to_list in Hin; apply elem_of_map_to_list; simpl in Hb; [by rewrite H2|by rewrite <- H2]. }
  unfold lstat_in. rewrite H1, Hd. done.
Qed.

Lemma collected_digest nodes root es total digest :
  tree_root root → nodes !! root = None → collectManifest hash nodes root root = Ok (es, total, digest) →
  tree_digest hash (tree_entries hash (subtree nodes root)) = digest ∧ lstat_in nodes root ≠ EntryAbsent.
Proof.
  intros (_ & Hc & _) Hn. unfold collectManifest. rewrite Hc, pathWithin_refl, Hn. simpl. destruct (lstat_in nodes root); [done|done| |done].
  destruct (negb _); [done|]. by intros [= _ _ <-].
Qed.

Lemma pull_steps now c manifest d d' : pull now c manifest d = (Ok tt, d') →
  ∃ k es total digest final d3 d4, decode_cred (tc_credential c) = Some k ∧ manifest = Some (es, total, digest) ∧ command_bound signed nodeID now c k = Ok tt ∧
    (cr_source_digest k ≠ "" → digest = cr_source_digest k) ∧ transferDestination cfg (device_env (dv_nodes d)) c = Ok final ∧ tree_root final ∧
    let staging := staging_of hash (tc_identity c) final digest in
    tree_root staging ∧ only_below staging d d3 ∧ dv_nodes d3 !! staging = None ∧
    tree_digest hash (tree_entries hash (subtree (dv_nodes d3) staging)) = digest ∧ lstat_in (dv_nodes d3) staging ≠ EntryAbsent ∧
    validateTransferredIdentity hash sha1 decode_record hf_shape_ok package_digest assets_ok (dv_nodes d3) (tc_identity c) staging es = Ok tt ∧
    publish cfg hash c staging es d3 = (Ok tt, d4) ∧ dv_nodes d' = dv_nodes d4.
Proof.
  unfold pullTransfer. destruct (decode_cred (tc_credential c)) as [k|]; [|done]. destruct (command_bound signed nodeID now c k) as [[]|] eqn:Eb; [|done].
  destruct manifest as [[[es total] digest]|]; [|done]. destruct (_ || (_ && _)) eqn:Ed; [done|]. apply orb_false_elim in Ed as [_ Ed].
  assert (cr_source_digest k ≠ "" → digest = cr_source_digest k) as Hdig.
  { intros Hne. rewrite (bool_decide_eq_false_2 (cr_source_digest k = "")) in Ed by done. rewrite andb_true_r in Ed. by apply negb_false_iff, bool_decide_eq_true in Ed. }
  unfold transferCheckpoint. destruct (transferDestination cfg _ c) as [final|] eqn:Et; [|done]. pose proof (transferDestination_root cfg state_root _ _ _ Et) as Hroot.
  destruct (staging_root (tc_identity c) final digest Hroot) as [Hsr _]. set (staging := staging_of hash (tc_identity c) final digest) in *.
  destruct (safe_in (dv_nodes d) staging) eqn:Esafe; [|done]. simpl. destruct (match dv_checkpoints d !! _ with Some _ => _ | None => _ end) as [ck|]; [|done].
  destruct (negb (mkdir_ok _ _)); [done|]. destruct (save_checkpoint _ ck d) as [[[]|] d1] eqn:Esv; [|done]. simpl.
  destruct (only_below_save staging _ _ _ _ _ Esv) as [H1 En1]. destruct (mkdir_ok (dv_nodes d1) staging) eqn:Emk; [|done]. simpl.
  destruct (pull_files _ _ staging _ 0 es ck d1) as [[ck'|] d2] eqn:E2; [|done]. pose proof (pull_files_only _ _ _ _ _ _ _ _ Hsr E2) as H2. simpl.
  destruct (pull_links staging es d2) as [[[]|] d3] eqn:E3; [|done]. pose proof (pull_links_only _ _ _ _ _ Hsr E3) as H3. simpl.
  destruct (collectManifest hash (dv_nodes d3) staging staging) as [[[es' total'] tree]|] eqn:Ec; [|done]. simpl.
  destruct (bool_decide_reflect (tree = digest)) as [->|]; [|done]. simpl.
  destruct (validateTransferredIdentity _ _ _ _ _ _ _ _ _ _) as [[]|] eqn:Ev; [|done]. destruct (publish cfg hash c staging es d3) as [[[]|] d4] eqn:Ep; [|done]. simpl.
  intros [= <-]. assert (only_below staging d d3) as Ho by (eapply only_below_trans; [exact H1|]; by eapply only_below_trans).
  assert (dv_nodes d3 !! staging = None) as Hnone.
  { rewrite (Ho staging (below_irrefl _)), <- En1. unfold mkdir_ok in Emk. rewrite forallb_forall in Emk.
    assert (staging ∈ ancestors staging) as Hin.
    { apply list_elem_of_fmap. exists (length (clean_of staging)). split; [|rewrite elem_of_reverse, elem_of_seq; lia].
      rewrite firstn_all. by destruct (tree_root_names _ Hsr) as (? & _). }
    apply list_elem_of_In in Hin. specialize (Emk _ Hin). destruct (dv_nodes d1 !! staging) as [[? ?|t]|] eqn:El; [done| |done].
    exfalso. unfold safe_in in Esafe. destruct (safeDestination _ staging) as [[]|] eqn:Es; [|done].
    apply (safeDestination_links _ _ (length (clean_of staging))) in Es; [|done]. rewrite firstn_all in Es.
    destruct (tree_root_names _ Hsr) as (Er & _). rewrite <- Er in Es. apply Es. unfold lstat_in. by rewrite <- En1, El. }
  destruct (collected_digest _ _ _ _ _ Hsr Hnone Ec) as [Htd Hl].
  exists k, es, total, digest, final, d3, d4. by split_and!.
Qed.

Definition untouched (staging final : string) (d d' : Device) : Prop :=
  ∀ p, below staging p = false → p ≠ staging → below final p = false → p ≠ final → dv_nodes d' !! p = dv_nodes d !! p.

Lemma publish_plain env c staging final es d d' :
  has_prefix "hf://" (tc_identity c) = false → transferDestination cfg env c = Ok final → tree_root final → tree_root staging →
  length (clean_of staging) = length (clean_of final) → lstat_in (dv_nodes d) staging ≠ EntryAbsent → publish cfg hash c staging es d = (Ok tt, d') →
  final ≠ staging ∧ lstat_in (dv_nodes d) final = EntryAbsent ∧ untouched staging final d d' ∧
  (fe_path <$> es = [transferRootFile] → ∃ n, dv_nodes d' !! final = Some n ∧ shown <$> dv_nodes d !! Join [staging; transferRootFile] = Some (shown n)) ∧
  (fe_path <$> es ≠ [transferRootFile] → view (subtree (dv_nodes d') final) = view (subtree (dv_nodes d) staging)).
Proof.
  intros Hhf Hd Hf Hs Hl Hst. unfold publish. destruct (transferDestination cfg (device_env (dv_nodes d)) c) as [final'|] eqn:Et; [|done].
  rewrite (destination_same _ _ _ _ _ Et Hd). rewrite Hhf. cbn [dv_nodes with_nodes].
  destruct (lstat_in (mountable staging (dv_nodes d)) final) eqn:El; [|done|done|done]. destruct (negb _); [done|].
  assert (∀ p, mountable staging (dv_nodes d) !! p = None ↔ dv_nodes d !! p = None) as Hm.
  { intros p. unfold mountable. rewrite map_lookup_imap. by destruct (dv_nodes d !! p). }
  destruct (absent_free _ _ El) as [Hnone Hfree].
  assert (lstat_in (dv_nodes d) final = EntryAbsent) as Ha.
  { unfold lstat_in. rewrite (proj1 (Hm final) Hnone). destruct (is_dir (dv_nodes d) final) eqn:Ei; [|done]. exfalso.
    unfold is_dir in Ei. apply existsb_exists in Ei as ([q n] & Hin & Hb). apply list_elem_of_In, elem_of_map_to_list in Hin. simpl in Hb.
    rewrite (proj1 (Hm q) (Hfree q Hb)) in Hin. done. }
  assert (final ≠ staging) as Hne by (by intros ->). destruct (siblings_apart final staging Hf Hs Hl Hne) as (Hb1 & Hb2 & Hb3).
  destruct (bool_decide_reflect (fe_path <$> es = [transferRootFile])) as [Hroot|Hroot].
  - destruct (mountable staging (dv_nodes d) !! Join [staging; transferRootFile]) as [n|] eqn:En; [|done]. intros [= <-]. split_and!; [done|done| |intros _|done].
    + intros p Hp1 Hp2 Hp3 Hp4. cbn. rewrite remove_all_lookup, lookup_insert_ne by done. by apply mountable_other.
    + exists n. split; [cbn; by rewrite remove_all_lookup, lookup_insert_eq|]. by rewrite <- view_lookup, <- (view_mountable staging), view_lookup, En.
  - intros [= <-]. split_and!; [done|done| |done|intros _].
    + intros p Hp1 Hp2 Hp3 Hp4. cbn. rewrite rename_other by done. by apply mountable_other.
    + cbn. rewrite subtree_rename by done. apply view_subtree, view_mountable.
Qed.


(** ** The snapshot of a model *)

(** Nothing is removed or replaced, and only the given paths are new *)
Record extends (paths : string → Prop) (d d' : Device) : Prop := {
  ex_kept p n : dv_nodes d !! p = Some n → dv_nodes d' !! p = Some n;
  ex_only p : ¬ paths p → dv_nodes d' !! p = dv_nodes d !! p;
}.

Lemma extends_refl P d : extends P d d.
Proof. done. Qed.

Lemma extends_trans P a b c : extends P a b → extends P b c → extends P a c.
Proof. intros [H1 H2] [K1 K2]. split; [intros p n Hp; by apply K1, H1|intros p Hp; by rewrite K2, H2]. Qed.

Lemma publish_entry_extends staging final e d r d' : publish_entry hash staging final e d = (r, d') →
  extends (λ p, ∃ rel, safeRelativePath (fe_path e) = Some rel ∧ p = Join [final; rel]) d d' ∧
  (r = Ok tt → ∃ rel, safeRelativePath (fe_path e) = Some rel ∧ is_Some (dv_nodes d' !! Join [final; rel])).
Proof.
  unfold publish_entry. destruct (safeRelativePath (fe_path e)) as [rel|] eqn:Es; [|by intros [= <- <-]]. destruct (negb _); [by intros [= <- <-]|].
  destruct (negb _); [by intros [= <- <-]|]. set (dest := Join [final; rel]).
  assert (∀ n, lstat_in (dv_nodes d) dest = EntryAbsent → extends (λ p, ∃ rel0, Some rel = Some rel0 ∧ p = Join [final; rel0]) d (with_nodes (insert dest n) d)) as Hins.
  { intros n [Hn _]%absent_free. split; cbn; intros p.
    - intros n' Hp. rewrite lookup_insert_ne; [done|]. intros <-. congruence.
    - intros Hp. rewrite lookup_insert_ne; [done|]. intros <-. apply Hp. by exists rel. }
  assert (∀ n, is_Some (dv_nodes (with_nodes (insert dest n) d) !! dest)) as Hthere by (intros n; cbn; rewrite lookup_insert_eq; by eexists).
  destruct (lstat_in (dv_nodes d) dest) eqn:El.
  2,3,4: (destruct (dv_nodes d !! dest) as [[? ?|?]|] eqn:En; [| |by intros [= <- <-]]; (destruct (_ && _); intros [= <- <-]; [|done]; split; [done|];
      intros _; exists rel; split; [done|]; fold dest; rewrite En; by eexists)).
  destruct (negb _); [intros [= <- <-]; split; [by apply Hins|]; intros _; exists rel; split; [done|apply Hthere]|].
  destruct (dv_nodes d !! Join [staging; rel]) as [n|]; [|by intros [= <- <-]]. intros [= <- <-]. split; [by apply Hins|]. intros _. exists rel. split; [done|apply Hthere].
Qed.

(** Where the entries of a manifest go *)
Definition places (final : string) (es : list FileEntry) (p : string) : Prop :=
  ∃ e rel, e ∈ es ∧ safeRelativePath (fe_path e) = Some rel ∧ p = Join [final; rel].

Definition present (final : string) (d : Device) (e : FileEntry) : Prop := ∃ rel, safeRelativePath (fe_path e) = Some rel ∧ is_Some (dv_nodes d !! Join [final; rel]).

Lemma publish_entries_extend staging final es d r d' : publish_entries hash staging final es d = (r, d') →
  extends (places final es) d d' ∧ (r = Ok tt → Forall (present final d') es).
Proof.
  revert d. induction es as [|e es IH]; intros d; simpl; [intros [= <- <-]; split; [done|by constructor]|].
  destruct (publish_entry hash staging final e d) as [[[]|x] d1] eqn:E; destruct (publish_entry_extends _ _ _ _ _ _ E) as [H1 Hp]; simpl.
  - intros H. destruct (IH _ H) as [H2 Hps]. split.
    + eapply extends_trans with d1.
      * split; [apply H1|]. intros p Hn. apply H1. intros (rel & Hs & ->). apply Hn. exists e, rel. split; [left|done].
      * split; [apply H2|]. intros p Hn. apply H2. intros (e' & rel & Hin & ?). apply Hn. exists e', rel. split; [by right|done].
    + intros Hr. constructor; [|by apply Hps]. destruct (Hp eq_refl) as (rel & Hs & [n Hn]). exists rel. split; [done|]. exists n. by apply H2.
  - intros [= <- <-]. split; [|done]. split; [apply H1|]. intros p Hn. apply H1. intros (rel & Hs & ->). apply Hn. exists e, rel. split; [left|done].
Qed.

End facts.

(** ** A file that stays corrupt

    What was received is recorded before it is verified: once a file has arrived whole and wrong, every later attempt takes
    the retained bytes, asks for nothing and fails again. *)
Lemma corrupt_file_stuck hash peer_chunk staging ckpath i e k d c m :
  safeRelativePath (fe_path e) = Some (fe_path e) → fe_target e = "" → mkdir_ok (dv_nodes d) (parent (Join [staging; fe_path e])) = true →
  safe_in (dv_nodes d) (Join [staging; fe_path e]) = true → dv_nodes d !! Join [staging; fe_path e] = Some (RegularFile c m) → sized c = fe_size e → 0 < fe_size e →
  pk_prefixes k !! fe_path e = Some (sized c, "sha256:" +:+ hash c) → "sha256:" +:+ hash c ≠ fe_sha e →
  pull_file hash peer_chunk staging ckpath i e k d = (Err "digest mismatch", with_nodes (λ nodes, nodes) d).
Proof.
  intros Hs Ht Hm Hsafe Hn Hsz Hpos Hp Hne. unfold pull_file. rewrite Hs, Ht. cbn [negb]. rewrite bool_decide_eq_true_2, Hm by done. cbn [negb].
  assert (stake (Z.to_nat (sized c)) c = c) as Hfull.
  { unfold sized. rewrite Nat2Z.id. clear. induction c as [|a c IH]; [done|]. simpl. by rewrite IH. }
  unfold openPrefix. rewrite Hsafe, Hn. cbn [negb]. unfold kept_prefix. rewrite Hp, Hfull, <- Hsz, bool_decide_eq_true_2 by done.
  destruct (Z.ltb_spec 0 (sized c)) as [_|]; [|lia]. rewrite Z.leb_refl. cbn [andb bind_device]. rewrite Hfull, Z.sub_diag. change (Z.to_nat 0) with 0%nat. cbn [pull_chunks].
  rewrite Z.ltb_irrefl. cbn [bind_device]. unfold content_at. cbn [dv_nodes with_nodes]. rewrite lookup_insert_eq, bool_decide_eq_false_2 by done.
  unfold with_nodes. by rewrite insert_id.
Qed.

(** ** A credential that is never used up

    A credential without an identity is for one use, and used when every regular file was read to its end; but an empty
    file is not asked for.  As long as a file is not read, the credential stays good. *)
Definition unread (k : transferCred) (files : gmap string FileEntry) (p : string) (s : Service) : Prop :=
  cr_transfer k ∉ sv_used s ∧ ∃ session, sv_active s !! cr_transfer k = Some session ∧ ts_files session = files ∧ p ∉ ts_finished session ∧
    ∀ q, q ∈ ts_finished session → ∃ e, files !! q = Some e ∧ fe_target e = "".

Lemma empty_file_unused cfg signed nodeID decode_cred r k files p e path offset length s :
  authorize cfg signed nodeID decode_cred r = Ok k → (∀ q x, files !! q = Some x → fe_path x = q) → files !! p = Some e → fe_target e = "" → path ≠ p →
  unread k files p s → unread k files p (snd (ReadChunk cfg signed nodeID decode_cred r path offset length s)).
Proof.
  intros Ha Hfiles Hp Ht Hne Hs. pose proof Hs as (Hu & session & Hact & Hf & Hpf & Hfin). unfold ReadChunk. rewrite Ha, Hact. cbn [mbind option_bind].
  destruct (bool_decide (ts_credential session = cr_signature k)); [|done]. rewrite Hf. destruct (files !! path) as [x|] eqn:Ex; [|done]. cbn [fmap option_fmap option_map].
  destruct (bool_decide_reflect (fe_target x = "")) as [Hx|]; [|done]. cbn [negb]. destruct (_ || _); [done|]. destruct (_ <? _); [done|]. destruct (negb _); [done|].
  destruct (rq_nodes r !! _) as [[c m|t]|]; [|done|done]. cbn [snd]. destruct (_ =? _); [|done]. rewrite (Hfiles path x Ex).
  set (regular := list_to_set (C := gset string) (fst <$> filter (λ y, fe_target (snd y) = "") (map_to_list files))).
  assert (∀ q y, files !! q = Some y → fe_target y = "" → q ∈ regular) as Hreg.
  { intros q y Hy Hty. apply elem_of_list_to_set, list_elem_of_fmap. exists (q, y). split; [done|]. apply list_elem_of_filter. split; [done|]. by apply elem_of_map_to_list. }
  assert ({[path]} ∪ ts_finished session ⊂ regular) as Hsub%subset_size.
  { split.
    - intros q [->%elem_of_singleton|(y & ? & ?)%Hfin]%elem_of_union; by eapply Hreg.
    - intros H. specialize (H p (Hreg p e Hp Ht)). apply elem_of_union in H as [?%elem_of_singleton|?]; [congruence|done]. }
  assert (size regular = regularFileCount files) as Hcount.
  { unfold regular. rewrite size_list_to_set, length_fmap; [done|]. eapply sublist_NoDup; [apply (NoDup_fst_map_to_list files)|]. apply fmap_sublist, sublist_filter. }
  cbv zeta. rewrite Hf. rewrite (proj2 (Nat.eqb_neq (size ({[path]} ∪ ts_finished session)) (regularFileCount files))) by lia. rewrite andb_false_r.
  split; [done|]. eexists. cbn. rewrite lookup_insert_eq. split_and!; [done|done|set_solver|]. intros q [->%elem_of_singleton|Hq]%elem_of_union; [by exists x|by apply Hfin].
Qed.

(** ** A recipe package on two devices *)

Definition some_hex : string := "0123456789abcdef0123456789abcdef0123456789abcdef0123456789abcdef".

Lemma some_hex_ok s : sforallb lower_hex ((λ _ : string, some_hex) s) = true.
Proof. reflexivity. Qed.

Definition dest_config : AgentConfig := mkAgentConfig "/var/lib/agent" ["/cache"].
Definition source_config : AgentConfig := mkAgentConfig "/srv/agent" ["/models"].

Lemma dest_state_root : tree_root (cfg_state_root dest_config).
Proof. by vm_compute. Qed.

Definition package : string := "recipe://sha256:" +:+ some_hex.
Definition package_source : string := "/srv/agent/recipes/" +:+ some_hex.
Definition package_dest : string := "/var/lib/agent/recipes/" +:+ some_hex.

Definition package_cred : transferCred :=
  mkCred "t1" "run" "node-a" "node-b" package package_source ("sha256:" +:+ some_hex) 0 package_dest 100 package ("sha256:" +:+ some_hex) "start" "sig".

Definition package_command : TransferCommand := mkTransfer "t1" "dest" "peer:9444" "cred" package package_source package_dest TransferStart "".

Definition source_nodes : gmap string node :=
  {[ package_source +:+ "/manifest.json" := RegularFile "{}" 420; package_source +:+ "/assets/run.sh" := RegularFile "echo" 493 ]}.

Definition dest_device : Device := mkDevice {[ "/var/lib/agent/node.cert.pem" := RegularFile "cert" 384 ]} ∅.

Definition package_entries : list FileEntry := tree_entries (λ _, some_hex) (subtree source_nodes package_source).

Definition package_manifest : list FileEntry * Z * string := (package_entries, 6, "sha256:" +:+ some_hex).

(** The chunks of the files, in the order of the manifest *)
Definition package_chunk (i : nat) (offset : Z) : option (Z * string) :=
  e ← package_entries !! i; Some (offset, sdrop (Z.to_nat offset) (content_at source_nodes (package_source +:+ "/" +:+ fe_path e))).

Definition package_pull : result string unit * Device :=
  pullTransfer dest_config (λ _, some_hex) (λ _, "") (λ _, None) (λ _, true) "node-b" (λ _, Some package_cred) (λ _, 0) (λ _ _ _, true)
    (λ _ _, Some ("sha256:" +:+ some_hex)) (λ _ _, true) package_chunk 50 package_command (Some package_manifest) dest_device.


(** ** A snapshot to publish *)

Definition snapshot_entries : list FileEntry :=
  [mkEntry ".lmw/snapshots/r.json" 2 420 ("sha256:" +:+ some_hex) ""; mkEntry "blobs/b" 7 420 ("sha256:" +:+ some_hex) ""; mkEntry "snapshots/r/w" 0 ModeSymlink "" "../../blobs/b"].

Definition model_dest : string := "/cache/hub/models--acme--tiny".

Definition snapshot_device : Device :=
  let staging := staging_of (λ _, some_hex) "hf://acme/tiny@r" model_dest "d" in
  mkDevice {[ staging +:+ "/.lmw/snapshots/r.json" := RegularFile "{}" 420; staging +:+ "/blobs/b" := RegularFile "weights" 420;
              staging +:+ "/snapshots/r/w" := SymbolicLink "../../blobs/b"; model_dest +:+ "/blobs/a" := RegularFile "older" 420 ]} ∅.

Definition snapshot_published : result string unit * Device :=
  publishHFTransfer (λ _, some_hex) (staging_of (λ _, some_hex) "hf://acme/tiny@r" model_dest "d") model_dest snapshot_entries snapshot_device.

