(* ===== verification/AgentTransferCopy.v ===== *)
(** * Two agents that follow the protocol copy a tree

    The serving agent of [AgentTransfer] composed with the pulling one: the manifest and every chunk the one answers, the
    other receives. *)

From S2P Require Import Prelude GoStrings Paths ArtifactIdentity Resources Recipe Inventory DownloadPlan AgentFiles AgentAcquire AgentAcquireInv AgentFetch AgentTransfer AgentTransferInv.
Open Scope Z_scope.

(** ** Ancestors *)

Lemma ancestors_spec p q : q ∈ ancestors p ↔ ∃ n, (n <= length (clean_of p))%nat ∧ q = render_path true (take n (clean_of p)).
Proof.
  unfold ancestors. rewrite list_elem_of_fmap. split.
  - intros (n & -> & Hn). rewrite elem_of_reverse, elem_of_seq in Hn. exists n. split; [lia|done].
  - intros (n & Hn & ->). exists n. split; [done|]. rewrite elem_of_reverse, elem_of_seq. lia.
Qed.

(** The parents of a path below a tree are parents of the tree, or below it *)
Lemma ancestors_split root p q : tree_root root → pathWithin p root = true → IsAbs p = true → q ∈ ancestors p → q ∈ ancestors root ∨ below root q = true.
Proof.
  intros Hr Hw Ha (n & Hn & ->)%ancestors_spec. apply pathWithin_prefix in Hw as [k Hk]; [|done..]. destruct (tree_root_names root Hr) as (Er & _ & Hne).
  destruct (decide (n <= length (clean_of root))%nat) as [Hle|Hgt].
  - left. apply ancestors_spec. exists n. split; [done|]. by rewrite Hk, take_app_le.
  - right. rewrite Hk, take_app_ge by lia. destruct (take (n - length (clean_of root)) k) as [|x xs] eqn:Et.
    { exfalso. apply (f_equal length) in Et. rewrite length_take in Et. rewrite Hk, length_app in Hn. simpl in Et. lia. }
    apply below_spec. exists (join "/" (x :: xs)). rewrite Er at 2. unfold render_path. by rewrite join_app_names, sapp_assoc.
Qed.

(** Every parent of a path but the root has it below *)
Lemma ancestors_above p q : tree_root p → q ∈ ancestors (parent p) → q ≠ "/" → below q p = true.
Proof.
  intros Hp (n & Hn & ->)%ancestors_spec Hq. destruct (parent_root p Hp) as [Hc _]. destruct (tree_root_names p Hp) as (Ep & _ & Hne).
  rewrite Hc in *. rewrite removelast_firstn_len in *. rewrite length_take in Hn. rewrite take_take, Nat.min_l by lia. apply below_spec.
  exists (join "/" (drop n (clean_of p))). rewrite Ep at 1. unfold render_path.
  assert (0 < length (clean_of p))%nat as Hl by (destruct (clean_of p); [done|simpl; lia]).
  assert (take n (clean_of p) ≠ []) as Ht.
  { intros E. apply Hq. rewrite take_take, Nat.min_l by lia. by rewrite E. }
  rewrite <- (take_drop n (clean_of p)) at 1. rewrite join_app_names; [by rewrite sapp_assoc|done|].
  intros E. apply (f_equal length) in E. rewrite length_drop in E. simpl in E. lia.
Qed.

Lemma parent_ancestors p q : tree_root p → q ∈ ancestors (parent p) → q ∈ ancestors p.
Proof.
  intros Hp (n & Hn & ->)%ancestors_spec. destruct (parent_root p Hp) as [Hc _]. rewrite Hc, removelast_firstn_len in *. rewrite length_take in Hn.
  apply ancestors_spec. exists n. split; [lia|]. by rewrite take_take, Nat.min_l by lia.
Qed.

(** ** Only links decide whether a path is safe *)

Definition same_links (nodes nodes' : gmap string node) : Prop := ∀ p, lstat_in nodes p = EntryLink ↔ lstat_in nodes' p = EntryLink.

Lemma safe_same nodes nodes' p : same_links nodes nodes' → safeDestination (lstat_in nodes) p = safeDestination (lstat_in nodes') p.
Proof.
  intros H. unfold safeDestination. destruct (_ || _); [done|]. induction (ancestors p) as [|q qs IH]; [done|]. simpl.
  assert (∀ x : gmap string node, lstat_in x q ≠ EntryError) as Hne by (intros x; unfold lstat_in; destruct (x !! q) as [[]|]; [done..|]; by destruct (is_dir x q)).
  specialize (H q). pose proof (Hne nodes). pose proof (Hne nodes'). destruct (lstat_in nodes q), (lstat_in nodes' q); naive_solver.
Qed.

Lemma link_lookup nodes p : lstat_in nodes p = EntryLink ↔ ∃ t, nodes !! p = Some (SymbolicLink t).
Proof.
  unfold lstat_in. destruct (nodes !! p) as [[c m|t]|]; [naive_solver..|]. destruct (is_dir nodes p); naive_solver.
Qed.

Lemma same_links_insert nodes p c m : nodes !! p = None → same_links nodes (<[p := RegularFile c m]> nodes).
Proof.
  intros Hn q. rewrite !link_lookup. destruct (decide (q = p)) as [->|Hne].
  - rewrite Hn, lookup_insert_eq. naive_solver.
  - by rewrite lookup_insert_ne.
Qed.

Lemma safe_extends nodes root value rel :
  tree_root root → safe_in nodes root = true → (∀ q t, below root q = true → nodes !! q ≠ Some (SymbolicLink t)) → safeRelativePath value = Some rel →
  safe_in nodes (root +:+ "/" +:+ rel) = true.
Proof.
  intros Hr Hs Hn Hrel. rewrite <- (Join_relative root value rel Hr Hrel). destruct (Join_safe_within root value rel Hr Hrel) as [Hw Ht].
  unfold safe_in, safeDestination. destruct Ht as (Ha & Hc & Hnr). rewrite Ha, Hc, bool_decide_eq_true_2 by done. simpl.
  unfold safe_in, safeDestination in Hs. destruct (_ || _) in Hs; [done|]. assert (∀ q, q ∈ ancestors (Join [root; rel]) → lstat_in nodes q ≠ EntryLink) as Hall.
  { intros q Hq. destruct (ancestors_split root _ q Hr Hw Ha Hq) as [Hin|Hb].
    - intros Hl. revert Hs Hin. induction (ancestors root) as [|x xs IH]; [set_solver|]. simpl. intros Hs [<-|Hin]%elem_of_cons; [by rewrite Hl in Hs|].
      apply IH; [by destruct (lstat_in nodes x)|done].
    - rewrite link_lookup. intros [t Hl]. by eapply Hn. }
  induction (ancestors (Join [root; rel])) as [|q qs IH]; [done|]. simpl. pose proof (Hall q ltac:(left)) as Hq.
  assert (lstat_in nodes q ≠ EntryError) as Hne by (unfold lstat_in; destruct (nodes !! q) as [[]|]; [done..|]; by destruct (is_dir nodes q)).
  destruct (lstat_in nodes q); [|done| |done]; apply IH; intros x Hx; apply Hall; by right.
Qed.

(** ** Bytes *)

Lemma stake_length n s : String.length (stake n s) = Nat.min n (String.length s).
Proof. revert n. induction s as [|a s IH]; intros [|n]; simpl; [done..|]. by rewrite IH. Qed.

Lemma sdrop_size n s : String.length (sdrop n s) = (String.length s - n)%nat.
Proof. revert n. induction s as [|a s IH]; intros [|n]; simpl; [done..|]. by rewrite IH. Qed.

Lemma stake_full n s : (String.length s <= n)%nat → stake n s = s.
Proof. revert n. induction s as [|a s IH]; intros [|n] H; simpl in *; [done|done|lia|]. by rewrite IH by lia. Qed.

Lemma stake_more n m s : stake n s +:+ stake m (sdrop n s) = stake (n + m) s.
Proof. revert n. induction s as [|a s IH]; intros [|n]; simpl; [by destruct m..|]. by rewrite IH. Qed.

Lemma stake_0 s : stake 0 s = "".
Proof. by destruct s. Qed.

Section copy.
Context (hash : string → string) (peer_chunk : nat → Z → option (Z * string)).
Notation chunks := (pull_chunks hash peer_chunk).

(** A peer that has the content sends it from any offset *)
Definition sends (i : nat) (c : string) : Prop :=
  ∀ offset, 0 ≤ offset < sized c → peer_chunk i offset = Some (offset, stake (Z.to_nat transferChunkSize) (sdrop (Z.to_nat offset) c)).

Lemma chunks_copy fuel i c m path rel ckpath offset k d :
  sends i c → dv_nodes d !! path = Some (RegularFile (stake (Z.to_nat offset) c) m) → 0 ≤ offset ≤ sized c → sized c - offset ≤ Z.of_nat fuel →
  safe_in (dv_nodes d) ckpath = true →
  ∃ k' d', chunks fuel i (sized c) path rel ckpath offset k d = (Ok k', d') ∧ dv_nodes d' = <[path := RegularFile c m]> (dv_nodes d).
Proof.
  intros Hsend. revert offset k d. induction fuel as [|fuel IH]; intros offset k d Hf Ho Hfuel Hsafe; cbn [pull_chunks].
  - assert (offset = sized c) as -> by lia. rewrite Z.ltb_irrefl. exists k, d. split; [done|]. unfold sized in Hf.
    rewrite Nat2Z.id, stake_full in Hf by done. by rewrite insert_id.
  - destruct (Z.ltb_spec offset (sized c)) as [Hlt|Hge].
    2: { assert (offset = sized c) as -> by lia. exists k, d. split; [done|]. unfold sized in Hf. rewrite Nat2Z.id, stake_full in Hf by done. by rewrite insert_id. }
    rewrite Hsend by lia. assert (0 < Z.to_nat transferChunkSize)%nat as Hn by (unfold transferChunkSize; lia).
    revert Hn. generalize (Z.to_nat transferChunkSize). intros n Hn. set (data := stake n (sdrop _ c)).
    assert (0 < sized data ≤ sized c - offset) as Hdata by (unfold data, sized in *; rewrite stake_length, sdrop_size; lia).
    rewrite Z.eqb_refl. cbn [negb orb]. rewrite bool_decide_eq_false_2; [|intros E; rewrite E in Hdata; unfold sized in Hdata; simpl in Hdata; lia]. cbn [orb].
    destruct (Z.ltb_spec (sized c - offset) (sized data)) as [|_]; [lia|].
    assert (stake (Z.to_nat offset) c +:+ data = stake (Z.to_nat (offset + sized data)) c) as Hmore.
    { unfold data at 1. rewrite stake_more. unfold data, sized in *. rewrite stake_length, sdrop_size in *. destruct (Nat.le_gt_cases n (String.length c - Z.to_nat offset)).
      - f_equal. lia.
      - rewrite !stake_full by lia. done. }
    assert (dv_nodes (append_to path data d) = <[path := RegularFile (stake (Z.to_nat (offset + sized data)) c) m]> (dv_nodes d)) as En.
    { cbn. apply map_eq. intros q. destruct (decide (q = path)) as [->|Hne]; [by rewrite lookup_alter_eq, lookup_insert_eq, Hf; simpl; rewrite Hmore|].
      by rewrite lookup_alter_ne, lookup_insert_ne. }
    assert (same_links (dv_nodes d) (dv_nodes (append_to path data d))) as Hsl.
    { rewrite En. intros q. rewrite !link_lookup. destruct (decide (q = path)) as [->|Hne]; [rewrite Hf, lookup_insert_eq; naive_solver|by rewrite lookup_insert_ne]. }
    assert (∀ d1 k1, dv_nodes d1 = dv_nodes (append_to path data d) → ∃ k' d', chunks fuel i (sized c) path rel ckpath (offset + sized data) k1 d1 = (Ok k', d') ∧
      dv_nodes d' = <[path := RegularFile c m]> (dv_nodes d)) as Hgo.
    { intros d1 k1 E1. destruct (IH (offset + sized data) k1 d1) as (k' & d' & Hr & Hnd).
      - by rewrite E1, En, lookup_insert_eq.
      - lia.
      - lia.
      - unfold safe_in in *. by rewrite E1, <- (safe_same _ _ _ Hsl).
      - exists k', d'. split; [done|]. by rewrite Hnd, E1, En, insert_insert_eq. }
    destruct (_ || _); [|by apply Hgo]. unfold save_checkpoint. assert (safe_in (dv_nodes (append_to path data d)) ckpath = true) as ->.
    { unfold safe_in in *. by rewrite <- (safe_same _ _ _ Hsl). }
    simpl. by apply Hgo.
Qed.

(** There is room for a file: it is not there and can be made *)
Definition room (nodes : gmap string node) (p : string) : Prop :=
  nodes !! p = None ∧ is_dir nodes p = false ∧ mkdir_ok nodes (parent p) = true ∧ safe_in nodes p = true.

Lemma is_dir_spec nodes p : is_dir nodes p = true ↔ ∃ q n, nodes !! q = Some n ∧ below p q = true.
Proof.
  unfold is_dir. rewrite existsb_exists. split.
  - intros ([q n] & Hin & Hb). exists q, n. split; [|done]. by apply elem_of_map_to_list, list_elem_of_In.
  - intros (q & n & Hq & Hb). exists (q, n). split; [|done]. by apply list_elem_of_In, elem_of_map_to_list.
Qed.

Lemma room_insert nodes p q c m : tree_root p → tree_root q → p ≠ q → below p q = false → below q p = false → nodes !! q = None → room nodes p → room (<[q := RegularFile c m]> nodes) p.
Proof.
  intros Hp Hq Hne Hb1 Hb2 Hn (H1 & H2 & H3 & H4). split_and!.
  - by rewrite lookup_insert_ne.
  - apply not_true_is_false. intros (x & n & Hx & Hbx)%is_dir_spec. destruct (decide (x = q)) as [->|Hxq]; [congruence|].
    rewrite lookup_insert_ne in Hx by done. apply not_true_iff_false in H2. apply H2, is_dir_spec. by exists x, n.
  - unfold mkdir_ok in *. rewrite forallb_forall in *. intros x Hx. destruct (decide (x = q)) as [->|Hxq]; [|rewrite lookup_insert_ne by done; by apply H3].
    exfalso. apply list_elem_of_In, ancestors_above in Hx; [congruence|done|]. by destruct Hq as (_ & _ & ?).
  - unfold safe_in in *. by rewrite <- (safe_same _ _ _ (same_links_insert nodes q c m Hn)).
Qed.

(** The entry of a regular file with a given content *)
Definition plain_entry (contents : string → string) (e : FileEntry) : Prop :=
  fe_target e = "" ∧ safeRelativePath (fe_path e) = Some (fe_path e) ∧ fe_size e = sized (contents (fe_path e)) ∧
  fe_sha e = "sha256:" +:+ hash (contents (fe_path e)).

Definition staged (staging : string) (e : FileEntry) : string := staging +:+ "/" +:+ fe_path e.

Lemma staged_root staging contents e : tree_root staging → plain_entry contents e → Join [staging; fe_path e] = staged staging e ∧ tree_root (staged staging e).
Proof.
  intros Hr (_ & Hs & _). pose proof (Join_relative _ _ _ Hr Hs) as E. split; [done|]. unfold staged. rewrite <- E. by eapply Join_safe_within.
Qed.

Lemma pull_file_copy staging ckpath contents i e k d :
  tree_root staging → plain_entry contents e → sends i (contents (fe_path e)) → room (dv_nodes d) (staged staging e) → safe_in (dv_nodes d) ckpath = true →
  ∃ k' d', pull_file hash peer_chunk staging ckpath i e k d = (Ok k', d') ∧
    dv_nodes d' = <[staged staging e := RegularFile (contents (fe_path e)) (Z.land (fe_mode e) 438)]> (dv_nodes d).
Proof.
  intros Hr He Hsend (R1 & R2 & R3 & R4) Hck. destruct (staged_root _ _ _ Hr He) as [Ej _]. destruct He as (Ht & Hs & Hsz & Hsha). unfold pull_file.
  rewrite Hs, Ht, Ej. cbn [negb]. rewrite bool_decide_eq_true_2, R3 by done. cbn [negb]. unfold openPrefix. rewrite R4, R1, R2. cbn [negb bind_device].
  set (d1 := with_nodes _ d). assert (same_links (dv_nodes d) (dv_nodes d1)) as Hsl by (by apply same_links_insert).
  destruct (chunks_copy (Z.to_nat (fe_size e - 0)) i (contents (fe_path e)) (Z.land (fe_mode e) 438) (staged staging e) (fe_path e) ckpath 0 k d1) as (k' & d' & Hc & Hn).
  - done.
  - unfold d1. cbn. by rewrite lookup_insert_eq, stake_0.
  - unfold sized. lia.
  - rewrite Hsz. unfold sized. lia.
  - unfold safe_in in *. by rewrite <- (safe_same _ _ _ Hsl).
  - rewrite Hsz in *. rewrite Hc. cbn [bind_device]. unfold content_at. rewrite Hn, lookup_insert_eq, Hsha, bool_decide_eq_true_2 by done.
    exists k', d'. split; [done|]. rewrite Hn. unfold d1. cbn. by rewrite insert_insert_eq.
Qed.

Lemma pull_files_copy staging ckpath contents es i k d :
  tree_root staging → Forall (plain_entry contents) es → (∀ j e, es !! j = Some e → sends (i + j) (contents (fe_path e))) →
  NoDup (fe_path <$> es) → (∀ e e', e ∈ es → e' ∈ es → below (staged staging e) (staged staging e') = false) →
  Forall (λ e, room (dv_nodes d) (staged staging e)) es → safe_in (dv_nodes d) ckpath = true →
  ∃ k' d', pull_files hash peer_chunk staging ckpath i es k d = (Ok k', d') ∧
    (∀ e, e ∈ es → dv_nodes d' !! staged staging e = Some (RegularFile (contents (fe_path e)) (Z.land (fe_mode e) 438))) ∧
    (∀ p, (∀ e, e ∈ es → p ≠ staged staging e) → dv_nodes d' !! p = dv_nodes d !! p).
Proof.
  intros Hr Hes. revert i k d. induction Hes as [|e es He Hes IH]; intros i k d Hsend Hnd Hfree Hroom Hck.
  { exists k, d. split_and!; [done|by intros e ?%not_elem_of_nil|done]. }
  apply Forall_cons in Hroom as [Hre Hroom]. cbn [fmap list_fmap] in Hnd. apply NoDup_cons in Hnd as [Hne Hnd].
  destruct (pull_file_copy staging ckpath contents i e k d Hr He) as (k1 & d1 & E1 & N1); [|done|done|].
  { specialize (Hsend 0%nat e eq_refl). by rewrite Nat.add_0_r in Hsend. }
  destruct (staged_root _ _ _ Hr He) as [_ Htr]. destruct Hre as (Hnone & _).
  assert (∀ e', e' ∈ es → staged staging e' ≠ staged staging e) as Hdiff.
  { intros e' He' Heq. apply below_inj in Heq. apply Hne. rewrite <- Heq. apply list_elem_of_fmap. by exists e'. }
  destruct (IH (S i) k1 d1) as (k2 & d2 & E2 & Hin2 & Hout2).
  - intros j e' Hj. specialize (Hsend (S j) e' Hj). by rewrite Nat.add_succ_r in Hsend.
  - done.
  - intros x y Hx Hy. apply Hfree; by right.
  - rewrite N1. apply Forall_forall. intros e' He'. rewrite Forall_forall in Hes, Hroom. destruct (staged_root _ _ _ Hr (Hes e' He')) as [_ Htr'].
    apply room_insert; [done|done|by apply Hdiff|apply Hfree; [by right|left]|apply Hfree; [left|by right]|done|by apply Hroom].
  - unfold safe_in in *. rewrite N1. by rewrite <- (safe_same _ _ _ (same_links_insert _ _ _ _ Hnone)).
  - exists k2, d2. cbn [pull_files]. rewrite E1. cbn [bind_device]. split_and!; [done| |].
    + intros e' [->|He']%elem_of_cons; [|by apply Hin2]. rewrite Hout2, N1; [by rewrite lookup_insert_eq|]. intros e' He' Heq. by apply (Hdiff e').
    + intros p Hp. rewrite Hout2 by (intros e' He'; apply Hp; by right). rewrite N1, lookup_insert_ne; [done|]. intros Heq. by apply (Hp e); [left|].
Qed.
End copy.

(** ** Room in a tree that is not there yet *)

Lemma below_rel root a b : below (root +:+ "/" +:+ a) (root +:+ "/" +:+ b) = below a b.
Proof.
  apply eq_true_iff_eq. rewrite !below_spec. split; intros [rel H]; exists rel.
  - rewrite !sapp_assoc in H. by apply below_inj in H.
  - rewrite H. by rewrite !sapp_assoc.
Qed.

Lemma below_trans a b c : below a b = true → below b c = true → below a c = true.
Proof. rewrite !below_spec. intros [x ->] [y ->]. exists (x +:+ "/" +:+ y). by rewrite !sapp_assoc. Qed.

Lemma room_fresh nodes staging value rel :
  tree_root staging → lstat_in nodes staging = EntryAbsent → safe_in nodes staging = true → mkdir_ok nodes staging = true → safeRelativePath value = Some rel →
  room nodes (staging +:+ "/" +:+ rel).
Proof.
  intros Hr Ha Hs Hm Hrel. destruct (absent_free _ _ Ha) as [_ Hfree]. pose proof (Join_relative _ _ _ Hr Hrel) as Ej. destruct (Join_safe_within staging value rel Hr Hrel) as [Hw Ht].
  assert (below staging (staging +:+ "/" +:+ rel) = true) as Hb by (apply below_spec; by eexists). split_and!.
  - by apply Hfree.
  - apply not_true_is_false. intros (q & n & Hq & Hbq)%is_dir_spec. rewrite Hfree in Hq; [done|]. by eapply below_trans.
  - unfold mkdir_ok in *. rewrite forallb_forall in *. intros q Hq. rewrite <- Ej in Hq. apply list_elem_of_In, parent_ancestors in Hq; [|done].
    apply (ancestors_split staging) in Hq as [Hq|Hq]; [|by rewrite Hfree|done|done|by destruct Ht]. apply Hm. by apply list_elem_of_In.
  - eapply safe_extends; [done|done| |done]. intros q t Hq. by rewrite Hfree.
Qed.

(** ** The entries of a tree *)

Lemma manifest_lookup es e : NoDup (fe_path <$> es) → e ∈ es → foldl (λ (m : gmap string FileEntry) e, <[fe_path e := e]> m) ∅ es !! fe_path e = Some e.
Proof.
  intros Hnd He. enough (∀ m : gmap string FileEntry, foldl (λ (m : gmap string FileEntry) e, <[fe_path e := e]> m) m es !! fe_path e = Some e) as H by apply H.
  assert (∀ xs (m : gmap string FileEntry) p, p ∉ fe_path <$> xs → foldl (λ (m : gmap string FileEntry) e, <[fe_path e := e]> m) m xs !! p = m !! p) as Hother.
  { intros xs. induction xs as [|x xs IH]; intros m p Hp; [done|]. cbn in *. rewrite not_elem_of_cons in Hp. rewrite IH by naive_solver. rewrite lookup_insert_ne; naive_solver. }
  induction es as [|x xs IH]; [by apply not_elem_of_nil in He|]. intros m. cbn in *. apply NoDup_cons in Hnd as [Hx Hnd].
  apply elem_of_cons in He as [->|He]; [rewrite Hother by done; by rewrite lookup_insert_eq|by apply IH].
Qed.
Section entries.
Context (hash : string → string).

Lemma entry_path rel n : fe_path (entry_of hash rel n) = rel.
Proof. by destruct n. Qed.

Lemma elem_of_tree_entries t e : e ∈ tree_entries hash t ↔ ∃ rel n, t !! rel = Some n ∧ e = entry_of hash rel n.
Proof.
  unfold tree_entries. rewrite list_elem_of_omap. split.
  - intros (rel & _ & Hx). destruct (t !! rel) as [n|] eqn:E; [|done]. injection Hx as <-. by exists rel, n.
  - intros (rel & n & Hn & ->). exists rel. rewrite Hn. split; [|done]. apply elem_of_sort_strings, list_elem_of_fmap. exists (rel, n).
    split; [done|]. by apply elem_of_map_to_list.
Qed.

Lemma tree_entries_paths t : NoDup (fe_path <$> tree_entries hash t).
Proof.
  unfold tree_entries. assert (NoDup (sort_strings (map fst (map_to_list t)))) as Hnd by (rewrite sort_strings_perm; apply NoDup_fst_map_to_list).
  induction Hnd as [|k ks Hk _ IH]; [constructor|]. cbn [omap list_omap]. destruct (t !! k) as [n|] eqn:E; [|done]. cbn [fmap option_fmap option_map list_fmap].
  constructor; [|done]. rewrite entry_path. intros (e & He & Hin)%list_elem_of_fmap. apply list_elem_of_omap in Hin as (k' & Hk' & Hx).
  destruct (t !! k') as [n'|]; [|done]. injection Hx as <-. rewrite entry_path in He. by subst.
Qed.

End entries.

(** A directory of regular files with plain names *)
Record plain_tree (nodes : gmap string node) (root : string) : Prop := {
  pt_root : tree_root root;
  pt_dir : nodes !! root = None;
  pt_some : subtree nodes root ≠ ∅;
  pt_files rel n : subtree nodes root !! rel = Some n → (∃ c m, n = RegularFile c m) ∧ safeRelativePath rel = Some rel ∧ rel ≠ transferRootFile;
  pt_apart rel rel' n n' : subtree nodes root !! rel = Some n → subtree nodes root !! rel' = Some n' → below rel rel' = false;
}.

Section protocol.
Context (source_cfg cfg : AgentConfig) (hash sha1 : string → string) (decode_record : string → option SnapshotRecord) (signed : transferCred → bool).
Context (sourceID nodeID : string) (decode_cred : string → option transferCred) (checkpoint_size : peerCheckpoint → Z).
Context (hf_shape_ok : gmap string node → string → string → bool) (package_digest : gmap string node → string → option string)
  (assets_ok : gmap string node → string → bool) (peer_chunk : nat → Z → option (Z * string)).
Context (state_root : tree_root (cfg_state_root cfg)) (hash_hex : ∀ s, sforallb lower_hex (hash s) = true).
Notation serve_manifest := (Manifest source_cfg hash decode_record signed sourceID decode_cred).
Notation serve_chunk := (ReadChunk source_cfg signed sourceID decode_cred).
Notation authorized := (authorize source_cfg signed sourceID decode_cred).
Notation pull := (pullTransfer cfg hash sha1 decode_record signed nodeID decode_cred checkpoint_size hf_shape_ok package_digest assets_ok peer_chunk).

(** The serving agent answers requests for chunks, in any order *)
Definition chunk_step (r : Request) (s s' : Service) : Prop := ∃ path offset length, s' = snd (serve_chunk r path offset length s).

Definition open_session (k : transferCred) (files : gmap string FileEntry) (s : Service) : Prop :=
  ∃ session, sv_active s !! cr_transfer k = Some session ∧ ts_credential session = cr_signature k ∧ ts_files session = files.

Lemma session_stays r k files s s' : authorized r = Ok k → cr_identity k ≠ "" → open_session k files s → rtc (chunk_step r) s s' → open_session k files s'.
Proof.
  intros Ha Hid Hs Hst. induction Hst as [|s1 s2 s3 (path & offset & length & ->) _ IH]; [done|]. apply IH. clear IH. destruct Hs as (session & Hs & Hc & Hf).
  unfold ReadChunk. rewrite Ha, Hs. cbn [mbind option_bind]. rewrite bool_decide_eq_true_2 by done.
  assert (open_session k files s1) as H0 by (by exists session). destruct (ts_files session !! path) as [e|]; cbn [fmap option_fmap option_map]; [|done].
  destruct (negb _); [done|]. destruct (_ || _); [done|]. destruct (_ <? _); [done|]. destruct (negb _); [done|]. destruct (rq_nodes r !! _) as [[c m|t]|]; [|done|done].
  cbn [snd]. destruct (_ =? _); [|done]. rewrite bool_decide_eq_false_2 by done. cbn [andb]. eexists. cbn. rewrite lookup_insert_eq. by split_and!.
Qed.

Lemma chunk_served r k files s e c m offset :
  authorized r = Ok k → open_session k files s → files !! fe_path e = Some e → fe_target e = "" → fe_path e ≠ transferRootFile →
  safe_in (rq_nodes r) (Join [cr_src_path k; fe_path e]) = true → rq_nodes r !! Join [cr_src_path k; fe_path e] = Some (RegularFile c m) →
  fe_size e = sized c → 0 ≤ offset ≤ sized c →
  ∃ eof, fst (serve_chunk r (fe_path e) offset transferChunkSize s) = Ok (mkChunk (stake (Z.to_nat transferChunkSize) (sdrop (Z.to_nat offset) c)) offset eof).
Proof.
  intros Ha (session & Hs & Hc & <-) Hf Ht Hroot Hsafe Hn Hsz Ho. unfold ReadChunk. rewrite Ha, Hs. cbn [mbind option_bind]. rewrite bool_decide_eq_true_2 by done.
  rewrite Hf. cbn [fmap option_fmap option_map]. rewrite Ht, bool_decide_eq_true_2 by done. cbn [negb].
  change ((transferChunkSize =? 0) || (transferChunkSize <? transferChunkSize)) with false. cbn iota.
  destruct (Z.ltb_spec (fe_size e) offset) as [|_]; [lia|]. rewrite (bool_decide_eq_false_2 (fe_path e = transferRootFile)) by done. rewrite Hsafe, Hn. cbn [negb fst].
  assert (stake (Z.to_nat (transferChunkSize `min` (fe_size e - offset))) (sdrop (Z.to_nat offset) c) = stake (Z.to_nat transferChunkSize) (sdrop (Z.to_nat offset) c)) as ->; [|by eexists].
  assert (0 < transferChunkSize) as Hpos by done. revert Hpos. generalize transferChunkSize as n. intros n Hpos. rewrite Hsz. unfold sized in *.
  destruct (Z.le_gt_cases n (Z.of_nat (String.length c) - offset)); [by rewrite Z.min_l|]. rewrite Z.min_r by lia. rewrite !stake_full by (rewrite sdrop_size; lia). done.
Qed.

(** What the pulling agent is told *)
Definition answers (r : Request) (s : Service) (es : list FileEntry) : Prop :=
  ∀ i e offset, es !! i = Some e → ∃ s', rtc (chunk_step r) s s' ∧
    peer_chunk i offset = match fst (serve_chunk r (fe_path e) offset transferChunkSize s') with Ok ch => Some (ch_offset ch, ch_data ch) | Err _ => None end.

Lemma manifest_served r k s es total digest s1 :
  decode_cred (rq_credential r) = Some k → cr_identity k ≠ "" → has_prefix "hf://" (cr_identity k) = false → plain_tree (rq_nodes r) (cr_src_path k) →
  serve_manifest r (cr_src_path k) s = (Ok (es, total, digest), s1) →
  authorized r = Ok k ∧ safe_in (rq_nodes r) (cr_src_path k) = true ∧ es = tree_entries hash (subtree (rq_nodes r) (cr_src_path k)) ∧ digest = tree_digest hash es ∧
  (cr_source_digest k ≠ "" → digest = cr_source_digest k) ∧ open_session k (foldl (λ m e, <[fe_path e := e]> m) ∅ es) s1.
Proof.
  intros Hk Hid Hhf Hpt. unfold Manifest. destruct (authorized r) as [k'|] eqn:Ea; [|done]. pose proof Ea as Ea'. unfold authorize in Ea'. rewrite Hk in Ea'.
  destruct (verifyCredential _ _ k) as [[]|]; [|done]. cbn in Ea'. destruct (_ || _) in Ea'; [done|]. destruct (negb _) in Ea'; [done|].
  destruct (authorizePeerSource source_cfg (rq_nodes r) k) as [[]|] eqn:Eps; [|done]. injection Ea' as <-.
  assert (safe_in (rq_nodes r) (cr_src_path k) = true) as Hsafe.
  { unfold authorizePeerSource in Eps. unfold safe_in. by destruct (safeDestination _ _) as [[]|]. }
  rewrite bool_decide_eq_true_2 by done. cbn [negb]. rewrite (bool_decide_eq_false_2 (cr_identity k = "")) by done.
  unfold collectResourceManifest. rewrite Hhf. cbn [negb]. destruct (collectManifest hash (rq_nodes r) (cr_src_path k) (cr_src_path k)) as [[[es' total'] digest']|] eqn:Ec; [|done].
  unfold collectManifest in Ec. destruct (pt_root _ _ Hpt) as (_ & Hcl & _). rewrite Hcl, pathWithin_refl, (pt_dir _ _ Hpt) in Ec. cbn [negb] in Ec.
  destruct (lstat_in _ _); [done|done| |done]. destruct (negb _) in Ec; [done|]. injection Ec as <- <- <-.
  destruct (_ && _); [done|]. destruct (negb (bool_decide (cr_source_digest k = "")) && _) eqn:Esd; [done|].
  destruct (negb (bool_decide (cr_tree k = "")) && _); [done|]. cbn [andb].
  destruct (match sv_active s !! cr_transfer k with Some _ => _ | None => false end); [done|]. intros [= <- <- <- <-]. split_and!; [done|done|done|done| |].
  - intros Hne. rewrite bool_decide_eq_false_2 in Esd by done. cbn [negb andb] in Esd. by apply negb_false_iff, bool_decide_eq_true in Esd.
  - eexists. cbn. rewrite lookup_insert_eq. by split_and!.
Qed.

(** The destination of a transfer is free, and its staging tree can be made *)
Record ready (c : TransferCommand) (digest final : string) (d : Device) : Prop := {
  rd_destination : transferDestination cfg (device_env (dv_nodes d)) c = Ok final;
  rd_free : lstat_in (dv_nodes d) final = EntryAbsent;
  rd_parent : mkdir_ok (dv_nodes d) (parent final) = true;
  rd_staging : let staging := staging_of hash (tc_identity c) final digest in
    final ≠ staging ∧ lstat_in (dv_nodes d) staging = EntryAbsent ∧ safe_in (dv_nodes d) staging = true ∧
    mkdir_ok (dv_nodes d) staging = true ∧ mkdir_ok (dv_nodes d) (parent staging) = true ∧
    safe_in (dv_nodes d) (staging +:+ ".checkpoint.json") = true ∧ dv_checkpoints d !! (staging +:+ ".checkpoint.json") = None;
}.

Lemma destination_links c nodes nodes' : same_links nodes nodes' → transferDestination cfg (device_env nodes) c = transferDestination cfg (device_env nodes') c.
Proof.
  intros H. assert (∀ spec, authorizeDownload cfg (device_env nodes) spec = authorizeDownload cfg (device_env nodes') spec) as Ha.
  { intros spec. unfold authorizeDownload. cbn. by rewrite (safe_same _ _ _ H). }
  unfold transferDestination. destruct (tc_op c); [|destruct (transfer_spec _ _); [by rewrite Ha|done]..].
  destruct (safeRelativePath _); [|done]. cbn. by rewrite (safe_same _ _ _ H).
Qed.

Lemma no_links_pulled staging es d : Forall (λ e, fe_target e = "") es → pull_links staging es d = (Ok tt, d).
Proof. intros H. induction H as [|e es He _ IH]; [done|]. simpl. by rewrite bool_decide_eq_true_2. Qed.

(** A file published below the staging tree leaves the parents of its sibling alone *)
Lemma parent_not_below p s q : tree_root p → tree_root s → length (clean_of s) = length (clean_of p) → q ∈ ancestors (parent p) → below s q = false ∧ q ≠ s.
Proof.
  intros Hp Hs Hl (n & Hn & ->)%ancestors_spec. destruct (parent_root p Hp) as [Hc _]. destruct (tree_root_names p Hp) as (_ & Hnames & Hne).
  rewrite Hc, removelast_firstn_len in *. rewrite length_take in Hn. rewrite take_take, Nat.min_l by lia.
  assert (names (take n (clean_of p))) as Hnt by (by apply Forall_take). assert (n < length (clean_of p))%nat as Hlt by (destruct (clean_of p); [done|simpl in *; lia]).
  split.
  - apply not_true_is_false. intros Hb. destruct (decide (n = 0%nat)) as [->|Hn0].
    + apply below_spec in Hb as [x Hx]. destruct Hs as (Ha & _ & Hr). unfold IsAbs in Ha. apply has_prefix_spec in Ha as [y ->]. destruct y; [done|]. discriminate Hx.
    + apply below_length in Hb; [rewrite clean_of_render, length_take in Hb by done; lia|done|]. split_and!; [done|by apply Clean_render|]. intros E.
      apply (f_equal clean_of) in E. rewrite clean_of_render in E by done. change (clean_of "/") with (@nil string) in E. apply (f_equal length) in E.
      rewrite length_take in E. simpl in E. lia.
  - intros <-. rewrite clean_of_render, length_take in Hl by done. lia.
Qed.

Lemma staged_tree_same nodes src d d2 staging es :
  plain_tree nodes src → lstat_in (dv_nodes d) staging = EntryAbsent → es = tree_entries hash (subtree nodes src) →
  (∀ e, e ∈ es → ∃ m, dv_nodes d2 !! staged staging e = Some (RegularFile (content_at nodes (src +:+ "/" +:+ fe_path e)) m)) →
  (∀ p, (∀ e, e ∈ es → p ≠ staged staging e) → dv_nodes d2 !! p = dv_nodes d !! p) →
  view (subtree (dv_nodes d2) staging) = view (subtree nodes src).
Proof.
  intros Hpt [_ Hfree]%absent_free -> Hin Hout. apply map_eq. intros rel. rewrite !view_lookup. destruct (subtree nodes src !! rel) as [n|] eqn:En.
  - destruct (pt_files _ _ Hpt rel n En) as ((c & m & ->) & _). specialize (Hin (entry_of hash rel (RegularFile c m))). rewrite lookup_subtree.
    destruct Hin as [m' Hin]; [apply elem_of_tree_entries; by exists rel, (RegularFile c m)|]. rewrite lookup_subtree in En.
    unfold staged in Hin. rewrite entry_path in Hin. rewrite Hin. unfold content_at. by rewrite En.
  - rewrite lookup_subtree, Hout; [rewrite Hfree; [done|apply below_spec; by eexists]|]. intros e (rel' & n & Hn & ->)%elem_of_tree_entries Heq.
    unfold staged in Heq. rewrite entry_path in Heq. apply below_inj in Heq. congruence.
Qed.

(** The contents of a plain tree by name *)
Definition contents_of (nodes : gmap string node) (src rel : string) : string := content_at nodes (src +:+ "/" +:+ rel).

Lemma source_entry nodes src e : plain_tree nodes src → e ∈ tree_entries hash (subtree nodes src) →
  ∃ m, nodes !! (src +:+ "/" +:+ fe_path e) = Some (RegularFile (contents_of nodes src (fe_path e)) m) ∧ fe_path e ≠ transferRootFile ∧
    plain_entry hash (contents_of nodes src) e.
Proof.
  intros Hpt (rel & n & Hn & ->)%elem_of_tree_entries. destruct (pt_files _ _ Hpt rel n Hn) as ((c & m & ->) & H1 & H2). rewrite lookup_subtree in Hn.
  rewrite entry_path. unfold contents_of, content_at. exists m. rewrite Hn. split_and!; [done|done|]. unfold plain_entry. rewrite entry_path.
  cbn [fe_target fe_size fe_sha entry_of]. by rewrite Hn.
Qed.

Lemma source_sends r k es s1 j e :
  authorized r = Ok k → cr_identity k ≠ "" → plain_tree (rq_nodes r) (cr_src_path k) → safe_in (rq_nodes r) (cr_src_path k) = true →
  es = tree_entries hash (subtree (rq_nodes r) (cr_src_path k)) → open_session k (foldl (λ m e, <[fe_path e := e]> m) ∅ es) s1 → answers r s1 es →
  es !! j = Some e → sends peer_chunk j (contents_of (rq_nodes r) (cr_src_path k) (fe_path e)).
Proof.
  intros Haut Hid Hpt Hsrc Ees Hsess Hans Hj offset Ho. pose proof (list_elem_of_lookup_2 _ _ _ Hj) as He.
  destruct (source_entry _ _ e Hpt ltac:(by rewrite <- Ees)) as (m & Hn & Hrf & (Ht & Hs & Hsz & _)). pose proof (pt_root _ _ Hpt) as Hr.
  destruct (Hans j e offset Hj) as (s' & Hsteps & ->). pose proof (session_stays _ _ _ _ _ Haut Hid Hsess Hsteps) as Hsess'.
  rewrite <- (Join_relative _ _ _ Hr Hs) in Hn.
  destruct (chunk_served r k _ s' e (contents_of (rq_nodes r) (cr_src_path k) (fe_path e)) m offset Haut Hsess') as [eof Hchunk]; [|done|done| |exact Hn|done|lia|by rewrite Hchunk].
  - apply manifest_lookup; [rewrite Ees; apply tree_entries_paths|done].
  - rewrite (Join_relative _ _ _ Hr Hs). eapply safe_extends; [done|done| |exact Hs]. intros q t [rel ->]%below_spec Hq. rewrite <- lookup_subtree in Hq.
    destruct (pt_files _ _ Hpt _ _ Hq) as ((? & ? & ?) & _). done.
Qed.

(** The files of the serving agent arrive in the staging tree *)
Lemma staging_filled r k s1 es staging ck d :
  authorized r = Ok k → cr_identity k ≠ "" → plain_tree (rq_nodes r) (cr_src_path k) → safe_in (rq_nodes r) (cr_src_path k) = true →
  es = tree_entries hash (subtree (rq_nodes r) (cr_src_path k)) → open_session k (foldl (λ m e, <[fe_path e := e]> m) ∅ es) s1 → answers r s1 es →
  tree_root staging → lstat_in (dv_nodes d) staging = EntryAbsent → safe_in (dv_nodes d) staging = true → mkdir_ok (dv_nodes d) staging = true →
  safe_in (dv_nodes d) (staging +:+ ".checkpoint.json") = true →
  ∃ k2 d2, pull_files hash peer_chunk staging (staging +:+ ".checkpoint.json") 0 es ck d = (Ok k2, d2) ∧
    (∀ e, e ∈ es → ∃ m, dv_nodes d2 !! staged staging e = Some (RegularFile (contents_of (rq_nodes r) (cr_src_path k) (fe_path e)) m)) ∧
    (∀ p, (∀ e, e ∈ es → p ≠ staged staging e) → dv_nodes d2 !! p = dv_nodes d !! p).
Proof.
  intros Haut Hid Hpt Hsrc Ees Hsess Hans Hsr Ha Hsafe Hmk Hck.
  assert (∀ e, e ∈ es → plain_entry hash (contents_of (rq_nodes r) (cr_src_path k)) e) as Hplain.
  { intros e He. rewrite Ees in He. by destruct (source_entry _ _ e Hpt He) as (? & _ & _ & ?). }
  destruct (pull_files_copy hash peer_chunk staging (staging +:+ ".checkpoint.json") (contents_of (rq_nodes r) (cr_src_path k)) es 0 ck d) as (k2 & d2 & H1 & H2 & H3).
  - done.
  - by apply Forall_forall.
  - intros j e Hj. by eapply source_sends.
  - rewrite Ees. apply tree_entries_paths.
  - intros e e' He He'. unfold staged. rewrite below_rel. rewrite Ees in He, He'. apply elem_of_tree_entries in He as (rel & n & Hn & ->), He' as (rel' & n' & Hn' & ->).
    rewrite !entry_path. by eapply (pt_apart _ _ Hpt).
  - apply Forall_forall. intros e He. destruct (Hplain e He) as (_ & Hs & _). by eapply room_fresh.
  - done.
  - exists k2, d2. split_and!; [done| |done]. intros e He. eexists. by apply H2.
Qed.

(** The files that arrived changed no link *)
Lemma filled_links (es : list FileEntry) staging d d2 :
  lstat_in (dv_nodes d) staging = EntryAbsent → (∀ e, e ∈ es → ∃ c m, dv_nodes d2 !! staged staging e = Some (RegularFile c m)) →
  (∀ p, (∀ e, e ∈ es → p ≠ staged staging e) → dv_nodes d2 !! p = dv_nodes d !! p) → same_links (dv_nodes d) (dv_nodes d2).
Proof.
  intros [_ Hfree]%absent_free Hin Hout p. rewrite !link_lookup. destruct (decide (Exists (λ e, p = staged staging e) es)) as [(e & He & ->)%Exists_exists|Hn].
  - destruct (Hin e He) as (c & m & ->). rewrite Hfree; [naive_solver|]. apply below_spec. by eexists.
  - rewrite Hout; [done|]. intros e He ->. apply Hn, Exists_exists. by exists e.
Qed.

Lemma plain_targets nodes src es : plain_tree nodes src → es = tree_entries hash (subtree nodes src) → Forall (λ e, fe_target e = "") es.
Proof. intros Hpt ->. apply Forall_forall. intros e He. by destruct (source_entry _ _ e Hpt He) as (_ & _ & _ & ? & _). Qed.

Lemma not_root_file nodes src es : plain_tree nodes src → es = tree_entries hash (subtree nodes src) → fe_path <$> es ≠ [transferRootFile].
Proof.
  intros Hpt -> E. assert (transferRootFile ∈ fe_path <$> tree_entries hash (subtree nodes src)) as (e & He & Hin)%list_elem_of_fmap by (rewrite E; left).
  by destruct (source_entry _ _ e Hpt Hin) as (_ & _ & ? & _).
Qed.

(** The staging tree is accepted *)
Lemma staged_collect nodes src d2 staging :
  plain_tree nodes src → tree_root staging → dv_nodes d2 !! staging = None → view (subtree (dv_nodes d2) staging) = view (subtree nodes src) →
  match collectManifest hash (dv_nodes d2) staging staging with Ok (_, _, tree) => bool_decide (tree = tree_digest hash (tree_entries hash (subtree nodes src))) | Err _ => false end = true.
Proof.
  intros Hpt (_ & Hcl & _) Hnone Hview. unfold collectManifest. rewrite Hcl, pathWithin_refl, Hnone. cbn [negb].
  assert (∀ rel, subtree (dv_nodes d2) staging !! rel = None ↔ subtree nodes src !! rel = None) as Hsame.
  { intros rel. rewrite <- !(fmap_None shown), <- !view_lookup. by rewrite Hview. }
  assert (is_dir (dv_nodes d2) staging = true) as Hdir.
  { destruct (map_choose _ (pt_some _ _ Hpt)) as (rel & n & Hn). destruct (subtree (dv_nodes d2) staging !! rel) as [n'|] eqn:E; [|apply Hsame in E; congruence].
    rewrite lookup_subtree in E. apply is_dir_spec. exists (staging +:+ "/" +:+ rel), n'. split; [done|]. apply below_spec. by eexists. }
  unfold lstat_in. rewrite Hnone, Hdir. assert (forallb (link_safe (dv_nodes d2) staging staging) (map_to_list (subtree (dv_nodes d2) staging)) = true) as ->.
  { apply forallb_forall. intros [rel n] Hin%list_elem_of_In%elem_of_map_to_list. assert (view (subtree nodes src) !! rel = Some (shown n)) as Hv.
    { rewrite <- Hview, view_lookup, Hin. done. }
    rewrite view_lookup in Hv. destruct (subtree nodes src !! rel) as [n'|] eqn:E; [|done]. destruct (pt_files _ _ Hpt _ _ E) as ((c & m & ->) & _).
    injection Hv as Hv. by destruct n. }
  cbn [negb]. apply bool_decide_eq_true. unfold tree_digest. by rewrite (view_entries hash _ _ Hview).
Qed.

(** And becomes the destination *)
Lemma publish_done c staging final es d d2 :
  has_prefix "hf://" (tc_identity c) = false → transferDestination cfg (device_env (dv_nodes d)) c = Ok final → tree_root final → tree_root staging →
  length (clean_of staging) = length (clean_of final) → final ≠ staging → lstat_in (dv_nodes d) final = EntryAbsent → mkdir_ok (dv_nodes d) (parent final) = true →
  fe_path <$> es ≠ [transferRootFile] → same_links (dv_nodes d) (dv_nodes d2) → only_below staging d d2 →
  ∃ d3, publish cfg hash c staging es d2 = (Ok tt, d3) ∧ view (subtree (dv_nodes d3) final) = view (subtree (dv_nodes d2) staging).
Proof.
  intros Hhf Hdest Hf Hs Hl Hne Hfree Hpar Hroot Hlinks Ho. unfold publish. rewrite <- (destination_links c _ _ Hlinks), Hdest, Hhf. cbn [dv_nodes with_nodes].
  destruct (siblings_apart final staging Hf Hs Hl Hne) as (Hb1 & Hb2 & Hb3).
  assert (∀ p, below staging p = false → p ≠ staging → mountable staging (dv_nodes d2) !! p = dv_nodes d !! p) as Hsame.
  { intros p H1 H2. rewrite mountable_other by done. by apply Ho. }
  assert (lstat_in (mountable staging (dv_nodes d2)) final = EntryAbsent) as Hab.
  { apply (lstat_same (dv_nodes d)); [by apply Hsame| |done]. intros q Hq. apply Hsame; [by apply Hb3|]. intros ->. congruence. }
  rewrite Hab. assert (mkdir_ok (mountable staging (dv_nodes d2)) (parent final) = true) as ->.
  { unfold mkdir_ok in *. rewrite forallb_forall in *. intros q Hq. pose proof Hq as Hq'. apply list_elem_of_In in Hq'. apply (parent_not_below final staging) in Hq' as [H1 H2]; [|done..].
    rewrite Hsame by done. by apply Hpar. }
  cbn [negb]. rewrite bool_decide_eq_false_2 by done. eexists. split; [done|]. cbn. destruct (absent_free _ _ Hab) as [_ Hfr]. rewrite subtree_rename by done.
  apply view_subtree, view_mountable.
Qed.

End protocol.

(** ** The package of [AgentTransferInv], served and pulled *)

Definition package_request : Request := mkRequest source_nodes 50 ["node-b"] "t1" "cred".

Definition package_served : result string (list FileEntry * Z * string) * Service :=
  Manifest source_config (λ _, some_hex) (λ _, None) (λ _, true) "node-a" (λ _, Some package_cred) package_request package_source (mkService ∅ ∅).

Definition served_chunk (i : nat) (offset : Z) : option (Z * string) :=
  e ← package_entries !! i;
  match fst (ReadChunk source_config (λ _, true) "node-a" (λ _, Some package_cred) package_request (fe_path e) offset transferChunkSize (snd package_served)) with
  | Ok ch => Some (ch_offset ch, ch_data ch)
  | Err _ => None
  end.

Definition served_pull : result string unit * Device :=
  pullTransfer dest_config (λ _, some_hex) (λ _, "") (λ _, None) (λ _, true) "node-b" (λ _, Some package_cred) (λ _, 0) (λ _ _ _, true)
    (λ _ _, Some ("sha256:" +:+ some_hex)) (λ _ _, true) served_chunk 50 package_command (Some package_manifest) dest_device.

Definition package_tree : list (string * node) := [("assets/run.sh", RegularFile "echo" 493); ("manifest.json", RegularFile "{}" 420)].

Lemma package_tree_spec rel n : subtree source_nodes package_source !! rel = Some n → (rel, n) ∈ package_tree.
Proof.
  intros H%elem_of_map_to_list. assert (map_to_list (subtree source_nodes package_source) ≡ₚ package_tree) as E; [|by rewrite <- E].
  apply (bool_decide_unpack _). vm_compute. exact I.
Qed.

Lemma package_plain : plain_tree source_nodes package_source.
Proof.
  split.
  - split_and!; vm_compute; [reflexivity|reflexivity|discriminate].
  - vm_compute. reflexivity.
  - intros H. apply (f_equal (λ t : gmap string node, t !! "manifest.json")) in H. vm_compute in H. discriminate.
  - intros rel n Hn%package_tree_spec. unfold package_tree in Hn. rewrite !elem_of_cons, elem_of_nil in Hn.
    destruct Hn as [[= -> ->]|[[= -> ->]|[]]]; (split; [by eexists _, _|]); split; [by vm_compute|done|by vm_compute|done].
  - intros rel rel' n n' Hn%package_tree_spec Hn'%package_tree_spec. unfold package_tree in Hn, Hn'. rewrite !elem_of_cons, elem_of_nil in Hn, Hn'.
    destruct Hn as [[= -> ->]|[[= -> ->]|[]]]; destruct Hn' as [[= -> ->]|[[= -> ->]|[]]]; vm_compute; reflexivity.
Qed.

