(* ===== verification/ContainerRuntime.v ===== *)
(** * The runtime of an agent: [internal/runtime/runtime.go]

    What a workload command carries ([ContainerSpec]), what a runtime reports ([ContainerInfo]), the labels by which a
    container belongs to one rank of one run, and the interface [Runtime] between the agent and its engine, with the laws
    the agent relies on.  [DockerRuntime] implements it over the Docker Engine.  An engine is a state; a call returns the
    state after it.  Contexts do not end, except where an error says so. *)

From S2P Require Import Prelude GoStrings RunLogs Merge Recipe Resources.
Open Scope Z_scope.

(** ** Specifications *)

Record MountSpec := mkMountSpec { mt_source : string; mt_dest : string; mt_readonly : bool }.
Record PortSpec := mkPortSpec { po_host : Z; po_container : Z; po_protocol : string }.
Record Ulimit := mkUlimit { ul_name : string; ul_hard : Z; ul_soft : Z }.
Record HostPreparationSpec := mkHostPreparation { hp_require_swap : bool; hp_swappiness : option Z; hp_drop_cache : bool }.

Inductive AcquisitionPolicy := PolicyNone | RequireExisting | DownloadMissing | PolicyOther (text : string).

#[export] Instance AcquisitionPolicy_eq_dec : EqDecision AcquisitionPolicy.
Proof. solve_decision. Defined.

(** [cs_upstream]: the [Upstream] pointer is set; [cs_cpu] in billionths of a processor *)
Record ContainerSpec := mkContainerSpec {
  cs_name : string; cs_upstream : bool; cs_image : string; cs_image_digest : string; cs_policy : AcquisitionPolicy;
  cs_platform : string; cs_resources : list ResourceSpec; cs_entrypoint : list string; cs_cmd : list string; cs_env : list string;
  cs_labels : gmap string string; cs_workdir : string; cs_network : string; cs_ports : list PortSpec; cs_readonly : bool;
  cs_no_new_privileges : bool; cs_cap_drop : list string; cs_shm : Z; cs_tmpfs : Z; cs_pids : Z; cs_memory : Z; cs_cpu : Z;
  cs_mounts : list MountSpec; cs_gpus : list string; cs_gpus_all : bool; cs_rdma : list string; cs_ulimits : list Ulimit;
  cs_host_prep : option HostPreparationSpec }.

Definition with_name (name : string) (s : ContainerSpec) : ContainerSpec :=
  mkContainerSpec name (cs_upstream s) (cs_image s) (cs_image_digest s) (cs_policy s) (cs_platform s) (cs_resources s)
    (cs_entrypoint s) (cs_cmd s) (cs_env s) (cs_labels s) (cs_workdir s) (cs_network s) (cs_ports s) (cs_readonly s)
    (cs_no_new_privileges s) (cs_cap_drop s) (cs_shm s) (cs_tmpfs s) (cs_pids s) (cs_memory s) (cs_cpu s) (cs_mounts s)
    (cs_gpus s) (cs_gpus_all s) (cs_rdma s) (cs_ulimits s) (cs_host_prep s).

Record ContainerInfo := mkContainerInfo {
  ci_id : string; ci_name : string; ci_state : string; ci_status : string; ci_exit : Z; ci_error : string; ci_oom : bool;
  ci_ports : list Z; ci_labels : gmap string string }.

Record ImageInfo := mkImageInfo {
  ii_reference : string; ii_digest : string; ii_index : string; ii_manifest : string; ii_platform : string; ii_size : Z }.

(** ** Labels *)

Definition LabelManaged : string := "dev.localmodelworks.managed".
Definition LabelDeployment : string := "dev.localmodelworks.deployment".
Definition LabelRun : string := "dev.localmodelworks.run".
Definition LabelRecipe : string := "dev.localmodelworks.recipe".
Definition LabelRecipeVersion : string := "dev.localmodelworks.recipe-version".
Definition LabelRank : string := "dev.localmodelworks.rank".
Definition LabelModule : string := "dev.localmodelworks.module".
Definition HostPreparationModule : string := "host-preparation".

(** Indexing a Go map: a missing key reads as the empty string *)
Definition label (labels : gmap string string) (key : string) : string := default "" (labels !! key).

Definition set_label (key value : string) (l : gmap string string) : gmap string string :=
  if bool_decide (value = "") then l else <[key := value]> l.

Definition ManagedLabels (deployment run recipeDigest recipeVersion : string) (rank : Z) (module : string) : gmap string string :=
  let l := <[LabelManaged := "true"]> (<[LabelRecipe := recipeDigest]> ∅) in
  let l := set_label LabelDeployment deployment l in
  let l := set_label LabelRun run l in
  let l := set_label LabelRecipeVersion recipeVersion l in
  let l := set_label LabelModule module l in
  if 0 <=? rank then <[LabelRank := Itoa rank]> l else l.

Definition ValidateManagedSpec (s : ContainerSpec) : option string :=
  let l := label (cs_labels s) in
  if negb (bool_decide (l LabelManaged = "true")) then Some "container.unmanaged"
  else if bool_decide (l LabelDeployment = "") && bool_decide (l LabelRun = "") then Some "container.identity_missing"
  else match Atoi (l LabelRank) with
       | Some rank => if rank <? 0 then Some "container.rank_invalid" else None
       | None => Some "container.rank_invalid"
       end.

(** ** The interface *)

(** [rt_InspectImage] and [rt_Pull] by reference and platform, [rt_Stop] with its timeout in seconds, [rt_Remove] with
    [force]; an error is its text *)
Class Runtime (E : Type) := {
  rt_Pull : string → string → E → option string * E;
  rt_InspectImage : string → string → E → result string ImageInfo;
  rt_PrepareHost : ContainerSpec → E → option string * E;
  rt_Create : ContainerSpec → E → result string string * E;
  rt_Start : string → E → option string * E;
  rt_Stop : string → Z → E → option string * E;
  rt_Remove : string → bool → E → option string * E;
  rt_Inspect : string → E → result string ContainerInfo;
  rt_ListByLabel : string → string → E → result string (list ContainerInfo);
}.

(** Two descriptions of one container that differ at most in its state *)
Definition same_container (c c' : ContainerInfo) : Prop := ci_id c = ci_id c' ∧ ci_name c = ci_name c' ∧ ci_labels c = ci_labels c'.

(** Nothing but the container [id] changed, and that one is gone or still the same one *)
Definition touches {C} (same : C → C → Prop) (id : string) (m m' : gmap string C) : Prop :=
  (∀ j, j ≠ id → m' !! j = m !! j) ∧ (∀ c', m' !! id = Some c' → ∃ c, m !! id = Some c ∧ same c c').

(** The labels of a container say it belongs to the rank the labels [l] name *)
Definition labelled_as (l l' : gmap string string) : Prop :=
  Forall (λ key, label l' key = label l key) [LabelManaged; LabelDeployment; LabelRun; LabelRank].

(** What the engine holds, and what a call may change of it: [Start] and [Stop] act on the container of that id and keep its
    name and labels, [Remove] takes away that one only, [Create] adds one with the labels it was given, and preparing the
    host leaves all but its helper as they were *)
Class RuntimeLaws (E : Type) `{!Runtime E} := {
  rt_held : E → gmap string ContainerInfo;
  held_id : ∀ e id c, rt_held e !! id = Some c → ci_id c = id;
  pull_frame : ∀ r p e, rt_held (snd (rt_Pull r p e)) = rt_held e;
  inspect_held : ∀ n e c, rt_Inspect n e = Ok c → rt_held e !! ci_id c = Some c;
  inspect_named : ∀ n e c, rt_Inspect n e = Ok c → ci_name c = n ∨ has_prefix n (ci_id c) = true;
  start_touches : ∀ id e, touches same_container id (rt_held e) (rt_held (snd (rt_Start id e)));
  stop_touches : ∀ id t e, touches same_container id (rt_held e) (rt_held (snd (rt_Stop id t e)));
  stop_stops : ∀ id t e c, fst (rt_Stop id t e) = None → rt_held (snd (rt_Stop id t e)) !! id = Some c → ci_state c ≠ "running";
  remove_touches : ∀ id f e, touches same_container id (rt_held e) (rt_held (snd (rt_Remove id f e)));
  create_frame : ∀ s e id c, rt_held e !! id = Some c → rt_held (snd (rt_Create s e)) !! id = Some c;
  create_new : ∀ s e id c, rt_held e !! id = None → rt_held (snd (rt_Create s e)) !! id = Some c →
    ci_labels c = cs_labels s ∧ ci_name c = cs_name s ∧ fst (rt_Create s e) = Ok id;
  prepare_frame : ∀ s e id c, rt_held e !! id = Some c → ¬ labelled_as (cs_labels s) (ci_labels c) →
    rt_held (snd (rt_PrepareHost s e)) !! id = Some c;
  prepare_new : ∀ s e id c, rt_held e !! id = None → rt_held (snd (rt_PrepareHost s e)) !! id = Some c →
    ci_labels c = <[LabelModule := HostPreparationModule]> (cs_labels s);
}.

(** ** Generic facts *)

Section Touches.
Context {C : Type} (same : C → C → Prop).
Implicit Types m : gmap string C.

Lemma touches_other id m m' j c : touches same id m m' → j ≠ id → m !! j = Some c → m' !! j = Some c.
Proof. intros [H _] Hj <-. by apply H. Qed.

Lemma touches_none id m m' j : touches same id m m' → m !! j = None → m' !! j = None.
Proof.
  intros [H1 H2] Hj. destruct (decide (j = id)) as [->|Hn]; [|by rewrite H1].
  apply eq_None_not_Some. intros [c' E]. apply H2 in E as (c & E & _). congruence.
Qed.

Lemma touches_back id m m' j c' : Reflexive same → touches same id m m' → m' !! j = Some c' → ∃ c, m !! j = Some c ∧ same c c'.
Proof.
  intros Hr [H1 H2] Hj. destruct (decide (j = id)) as [->|Hn]; [by apply H2|]. rewrite H1 in Hj by done. by exists c'.
Qed.
End Touches.

#[export] Instance same_container_refl : Reflexive same_container.
Proof. by intros c. Qed.
