(* ===== verification/DockerRuntime.v ===== *)
(** * The Docker runtime: [internal/runtime/docker.go]

    The methods of [dockerRuntime] over the Docker Engine API.  The engine is a parameter, the class [Daemon], and what the
    code relies on is [DaemonLaws]: its documented behaviour, on the containers it holds.  The runtime then has the laws of
    [RuntimeLaws].  The stream of a pull is the list of its lines and the error that ended it. *)

From S2P Require Import Prelude GoStrings Spaces RunLogs Merge Recipe ArtifactIdentity Resources DownloadPlan ContainerRuntime.
Open Scope Z_scope.

(** ** The Docker Engine API *)

(** [container.Config], [container.HostConfig] and what is in them, as far as the code sets them *)
Record Config := mkConfig {
  cf_image : string; cf_hostname : string; cf_env : list string; cf_cmd : list string; cf_entrypoint : list string;
  cf_labels : gmap string string; cf_workdir : string; cf_exposed : list string }.

Record DeviceRequest := mkDeviceRequest { dr_driver : string; dr_count : Z; dr_ids : list string }.

Record HostConfig := mkHostConfig {
  hc_network : string; hc_privileged : bool; hc_readonly : bool; hc_cap_drop : list string; hc_shm : Z; hc_restart : string;
  hc_tmpfs : list (string * string); hc_security : list string; hc_memory : Z; hc_nano_cpus : Z; hc_pids : option Z;
  hc_ulimits : list Ulimit; hc_binds : list MountSpec; hc_device_requests : list DeviceRequest; hc_devices : list (string * string);
  hc_ports : gmap string (list (string * string)) }.

Record DockerContainer := mkDockerContainer {
  dc_id : string; dc_name : string; dc_status : string; dc_exit : Z; dc_error : string; dc_oom : bool; dc_ports : list string;
  dc_labels : gmap string string }.

(** One entry of a list: its names have a leading slash *)
Record Summary := mkSummary { sm_id : string; sm_names : list string; sm_state : string; sm_labels : gmap string string }.

Record DockerError := mkDockerError { de_not_found : bool; de_text : string }.

(** One message of a pull; [pm_error] is [Error.Message] and [pm_message] the older [ErrorMessage] *)
Record PullMessage := mkPullMessage { pm_error : string; pm_message : string }.

Record ImageManifest := mkImageManifest {
  im_id : string; im_available : bool; im_image : bool; im_platform : option (string * string * string); im_digest : string; im_total : Z }.

Record ImageInspection := mkImageInspection {
  in_id : string; in_os : string; in_arch : string; in_variant : string; in_repo_digests : list string; in_size : Z;
  in_descriptor : option (string * string) }.

Class Daemon (D : Type) := {
  ContainerInspect : string → D → result DockerError DockerContainer;
  ContainerList : string → D → result string (list Summary);
  ContainerCreate : Config → HostConfig → string → D → result string string * D;
  ContainerStart : string → D → option string * D;
  ContainerStop : string → option Z → D → option string * D;
  ContainerRemove : string → bool → D → option string * D;
  ContainerWait : string → D → result string Z * D;
  ContainerLogs : string → D → option string;
  ImagePull : string → string → D → result string (list string * option string) * D;
  ImageInspect : string → D → result string ImageInspection;
  ImageManifests : string → D → result string (list ImageManifest);
  decode_message : string → option PullMessage;
}.

Section Docker.
Context {D : Type} `{!Daemon D}.
Implicit Types (d : D) (spec : ContainerSpec).

(** ** Images *)

(** The messages of a pull until one reports an error *)
Fixpoint pull_lines (reference : string) (lines : list string) (ended : option string) : option string :=
  match lines with
  | [] => match ended with Some e => Some ("image pull " +:+ reference +:+ ": " +:+ e) | None => None end
  | line :: lines =>
      let line := TrimSpace line in
      if bool_decide (line = "") then pull_lines reference lines ended
      else match decode_message line with
           | None => Some ("image pull " +:+ reference +:+ ": undecodable stream message")
           | Some m =>
               if negb (bool_decide (pm_error m = "")) then Some ("image pull " +:+ reference +:+ ": " +:+ pm_error m)
               else if negb (bool_decide (pm_message m = "")) then Some ("image pull " +:+ reference +:+ ": " +:+ pm_message m)
               else pull_lines reference lines ended
           end
  end.

Definition Pull (reference platform : string) d : option string * D :=
  match ImagePull reference platform d with
  | (Err e, d) => (Some ("image pull " +:+ reference +:+ ": " +:+ e), d)
  | (Ok (lines, ended), d) => (pull_lines reference lines ended, d)
  end.

Definition IsSHA256Digest (value : string) : bool :=
  (String.length value =? 71)%nat && has_prefix "sha256:" value && sforallb lower_hex (sdrop 7 value).

Definition IsContentAddressedImage (ref : string) : bool :=
  IsSHA256Digest ref
  || let '(name, digest, ok) := cut at_sign ref in ok && negb (bool_decide (name = "")) && IsSHA256Digest digest.

Definition ImageRef spec : string :=
  if bool_decide (cs_image_digest spec = "") then cs_image spec
  else let '(ref, _, _) := cut at_sign (cs_image spec) in ref +:+ "@" +:+ cs_image_digest spec.

Definition imageRepository (reference : string) : string :=
  let '(name, _, _) := cut at_sign reference in
  let name := match last_index colon_char name, last_index slash_char name with
              | Some colon, Some slash => if (slash <? colon)%nat then stake colon name else name
              | Some colon, None => stake colon name
              | None, _ => name
              end in
  let '(first, _, slash) := cut slash_char name in
  if negb slash then "docker.io/library/" +:+ name
  else if negb (contains_any ".:" first) && negb (bool_decide (first = "localhost")) then "docker.io/" +:+ name
  else if bool_decide (first = "index.docker.io") || bool_decide (first = "registry-1.docker.io")
  then "docker.io" +:+ sdrop (String.length first) name
  else name.

(** The repository digest of an inspected image that pins [reference] at [pinned] *)
Definition pins (reference pinned repoDigest : string) : bool :=
  let '(_, actual, ok) := cut at_sign repoDigest in
  ok && bool_decide (actual = pinned) && bool_decide (imageRepository repoDigest = imageRepository reference).

Definition with_content (index manifest : string) (size : Z) (i : ImageInfo) : ImageInfo :=
  mkImageInfo (ii_reference i) (ii_digest i) index manifest (ii_platform i) size.

(** The manifests of an index, of which one may be of the platform *)
Fixpoint pick_manifest (digest : string) (ms : list ImageManifest) (i : ImageInfo) : result string ImageInfo :=
  match ms with
  | [] => Ok i
  | m :: ms =>
      match im_platform m with
      | Some (os, arch, variant) =>
          if negb (im_available m) || negb (im_image m) then pick_manifest digest ms i
          else if negb (bool_decide (CanonicalImagePlatform os arch variant = ii_platform i)) then pick_manifest digest ms i
          else if negb (bool_decide (ii_manifest i = "")) && negb (bool_decide (ii_manifest i = im_id m)) then Err "image.platform_ambiguous"
          else if negb (IsSHA256Digest (im_id m)) || negb (bool_decide (im_digest m = im_id m)) then Err "image.manifest_digest_invalid"
          else pick_manifest digest ms (with_content digest (im_id m) (im_total m) i)
      | None => pick_manifest digest ms i
      end
  end.

Definition manifest_type (t : string) : bool :=
  bool_decide (t ∈ ["application/vnd.oci.image.manifest.v1+json"; "application/vnd.docker.distribution.manifest.v2+json"]).
Definition index_type (t : string) : bool :=
  bool_decide (t ∈ ["application/vnd.oci.image.index.v1+json"; "application/vnd.docker.distribution.manifest.list.v2+json"]).

(** [InspectImage] once the digest is known to be the one of the engine *)
Definition image_content (reference digest : string) (info : ImageInspection) (i : ImageInfo) d : result string ImageInfo :=
  match in_descriptor info with
  | None => Ok i
  | Some (descriptor, media) =>
      if negb (bool_decide (descriptor = digest)) then Err "image.descriptor_mismatch"
      else if manifest_type media then Ok (with_content digest digest (ii_size i) i)
      else if index_type media
      then match ImageManifests reference d with
           | Err e => Err ("image.manifest_inspection_unavailable: " +:+ e)
           | Ok ms =>
               match pick_manifest digest ms i with
               | Err e => Err e
               | Ok i => if bool_decide (ii_manifest i = "") then Err "image.platform_content_missing" else Ok i
               end
           end
      else Ok i
  end.

Definition InspectImage (reference platform : string) d : result string ImageInfo :=
  if negb (IsContentAddressedImage reference) then Err "image.reference_unpinned"
  else match ImageInspect reference d with
       | Err e => Err e
       | Ok info =>
           let actual := CanonicalImagePlatform (in_os info) (in_arch info) (in_variant info) in
           if negb (bool_decide (platform = "")) && negb (bool_decide (actual = platform))
           then Err ("image.platform_mismatch: have " +:+ actual +:+ ", need " +:+ platform)
           else
             let '(_, pinned, ok) := cut at_sign reference in
             let digest := if ok then pinned else reference in
             if negb (if ok then existsb (pins reference pinned) (in_repo_digests info) else bool_decide (in_id info = digest))
             then Err "image.digest_mismatch"
             else image_content reference digest info (mkImageInfo reference digest "" "" actual (in_size info)) d
       end.

(** ** Preparing the host *)

Definition dq : string := String (ascii_of_nat 34) "".
Definition newline : string := String (ascii_of_nat 10) "".

Definition swap_lines : list string :=
  ["swap_kb=" +:+ dq +:+ "$(awk '/^SwapTotal:/ {print $2; exit}' /proc/meminfo)" +:+ dq;
   "test " +:+ dq +:+ "${swap_kb:-0}" +:+ dq +:+ " -gt 0 || { echo " +:+ dq +:+
     "swap is disabled; enable swap before launching this recipe" +:+ dq +:+ " >&2; exit 40; }"].

Definition swappiness_line (n : Z) : string := "printf '%s\n' " +:+ Itoa n +:+ " > /proc/sys/vm/swappiness".
Definition swappiness_check (n : Z) : string :=
  "test " +:+ dq +:+ "$(cat /proc/sys/vm/swappiness)" +:+ dq +:+ " -eq " +:+ Itoa n +:+ " || { echo " +:+ dq +:+
    "vm.swappiness verification failed" +:+ dq +:+ " >&2; exit 41; }".
Definition drop_lines : list string := ["sync"; "printf '3\n' > /proc/sys/vm/drop_caches"].

Definition hostPreparationScript (p : HostPreparationSpec) : result string string :=
  match hp_swappiness p with
  | Some n => if (n <? 0) || (200 <? n) then Err ("host.prepare_swappiness_invalid: " +:+ Itoa n)
              else Ok (join newline (["set -eu"] ++ (if hp_require_swap p then swap_lines else []) ++ [swappiness_line n]
                        ++ (if hp_drop_cache p then drop_lines else []) ++ [swappiness_check n]))
  | None => Ok (join newline (["set -eu"] ++ (if hp_require_swap p then swap_lines else []) ++ (if hp_drop_cache p then drop_lines else [])))
  end.

(** The last resource that is the reviewed helper image names its manifest of this platform *)
Definition helper_image spec : string :=
  fold_left (λ image r, if bool_decide (s_reference (rs_source r) +:+ "@" +:+ rs_index r = HostPreparationImage)
                        then s_reference (rs_source r) +:+ "@" +:+ rs_manifest r else image) (cs_resources spec) HostPreparationImage.

Definition helper_config (image script : string) (labels : gmap string string) : Config :=
  mkConfig image "" [] ["sh"; "-ec"; script] [] labels "" [].
Definition helper_host : HostConfig := mkHostConfig "none" true true [] 0 "no" [] [] 0 0 None [] [] [] [] ∅.

Definition helper_name spec : string := cs_name spec +:+ "-host-prepare".
Definition helper_labels spec : gmap string string := <[LabelModule := HostPreparationModule]> (cs_labels spec).
Definition helper_keys : list string := [LabelManaged; LabelDeployment; LabelRun; LabelRank; LabelRecipe].

(** The helper of an earlier attempt is removed, if it is of this workload *)
Definition clear_helper spec d : option string * D :=
  match ContainerInspect (helper_name spec) d with
  | Ok existing =>
      if existsb (λ key, negb (bool_decide (label (dc_labels existing) key = label (helper_labels spec) key))) helper_keys
      then (Some ("host.prepare_identity_mismatch: existing helper " +:+ helper_name spec +:+ " is not owned by this run"), d)
      else match ContainerRemove (dc_id existing) true d with
           | (Some e, d) => (Some ("host.prepare_cleanup: " +:+ e), d)
           | (None, d) => (None, d)
           end
  | Err e => if de_not_found e then (None, d) else (Some ("host.prepare_inspect: " +:+ de_text e), d)
  end.

Definition helper_output (id : string) d : string := TrimSpace (default "" (ContainerLogs id d)).

(** The helper is started, waited for and removed, whatever it answers *)
Definition run_helper (id : string) d : option string * D :=
  let removed d := snd (ContainerRemove id true d) in
  match ContainerStart id d with
  | (Some e, d) => (Some ("host.prepare_start: " +:+ e), removed d)
  | (None, d) =>
      match ContainerWait id d with
      | (Err e, d) => (Some ("host.prepare_wait: " +:+ e), removed d)
      | (Ok code, d) =>
          let output := helper_output id d in
          (if bool_decide (code = 0) then None
           else Some ("host.prepare_failed: exit " +:+ Itoa code +:+ ": " +:+
                        (if bool_decide (output = "") then "helper exited without diagnostics" else output)), removed d)
      end
  end.

Definition fetch_helper spec (image : string) d : option string * D :=
  if bool_decide (cs_policy spec = RequireExisting)
  then match InspectImage image (cs_platform spec) d with
       | Err e => (Some ("host.prepare_helper_recheck_required: " +:+ e), d)
       | Ok _ => (None, d)
       end
  else match Pull image (cs_platform spec) d with
       | (Some e, d) => (Some ("host.prepare_helper_pull: " +:+ e), d)
       | (None, d) => (None, d)
       end.

Definition PrepareHost spec d : option string * D :=
  match ValidateManagedSpec spec with
  | Some e => (Some e, d)
  | None =>
      match cs_host_prep spec with
      | None => (None, d)
      | Some p =>
          match hostPreparationScript p with
          | Err e => (Some e, d)
          | Ok script =>
              let image := helper_image spec in
              match fetch_helper spec image d with
              | (Some e, d) => (Some e, d)
              | (None, d) =>
                  match clear_helper spec d with
                  | (Some e, d) => (Some e, d)
                  | (None, d) =>
                      match ContainerCreate (helper_config image script (helper_labels spec)) helper_host (helper_name spec) d with
                      | (Err e, d) => (Some ("host.prepare_create: " +:+ e), d)
                      | (Ok id, d) => run_helper id d
                      end
                  end
              end
          end
      end
  end.

(** ** Containers *)

Definition capDrops (list : list string) : Datatypes.list string := match list with [] => ["ALL"] | _ => list end.

Definition port_key (p : PortSpec) : string :=
  Itoa (po_container p) +:+ "/" +:+ (if bool_decide (po_protocol p = "") then "tcp" else po_protocol p).

Definition bridged spec : bool := bool_decide (cs_network spec = "bridge") || bool_decide (cs_network spec = "").

Definition exposed_ports spec : list string := if bridged spec then dedup (port_key <$> cs_ports spec) else [].

Definition port_bindings spec : gmap string (list (string * string)) :=
  if bridged spec
  then fold_left (λ m p, if 0 <? po_host p then <[port_key p := [("0.0.0.0", Itoa (po_host p))]]> m else m) (cs_ports spec) ∅
  else ∅.

Definition container_config spec : Config :=
  mkConfig (ImageRef spec) (cs_name spec) (cs_env spec) (cs_cmd spec) (cs_entrypoint spec) (cs_labels spec) (cs_workdir spec)
    (exposed_ports spec).

Definition tmpfs_mounts (n : Z) : list (string * string) :=
  if 0 <? n then [("/tmp", "rw,exec,nosuid,nodev,size=" +:+ Itoa n); ("/run", "rw,nosuid,nodev,size=67108864")] else [].

Definition device_requests spec : list DeviceRequest :=
  if cs_gpus_all spec then [mkDeviceRequest "nvidia" (-1) []]
  else match cs_gpus spec with [] => [] | ids => [mkDeviceRequest "nvidia" 0 ids] end.

Definition host_config spec : HostConfig :=
  mkHostConfig (cs_network spec) false (cs_readonly spec) (capDrops (cs_cap_drop spec)) (cs_shm spec) "no" (tmpfs_mounts (cs_tmpfs spec))
    (if cs_no_new_privileges spec then ["no-new-privileges:true"] else [])
    (if 0 <? cs_memory spec then cs_memory spec else 0) (if 0 <? cs_cpu spec then cs_cpu spec else 0)
    (if 0 <? cs_pids spec then Some (cs_pids spec) else None)
    (cs_ulimits spec) (cs_mounts spec) (device_requests spec) ((λ p, (p, p)) <$> cs_rdma spec) (port_bindings spec).

Definition Create spec d : result string string * D :=
  if cs_upstream spec then (Err "upstream.wrapper_required", d)
  else match ValidateManagedSpec spec with
       | Some e => (Err e, d)
       | None =>
           match ContainerCreate (container_config spec) (host_config spec) (cs_name spec) d with
           | (Err e, d) => (Err ("container create " +:+ cs_name spec +:+ ": " +:+ e), d)
           | (Ok id, d) => (Ok id, d)
           end
       end.

Definition Start (id : string) d : option string * D := ContainerStart id d.
Definition Stop (id : string) (timeout : Z) d : option string * D := ContainerStop id (if 0 <? timeout then Some timeout else None) d.
Definition Remove (id : string) (force : bool) d : option string * D := ContainerRemove id force d.

(** The published ports that are numbers *)
Definition info_of (c : DockerContainer) : ContainerInfo :=
  mkContainerInfo (dc_id c) (trim_prefix "/" (dc_name c)) (dc_status c) (dc_status c) (dc_exit c) (dc_error c) (dc_oom c)
    (omap Atoi (dc_ports c)) (dc_labels c).

Definition Inspect (idOrName : string) d : result string ContainerInfo :=
  match ContainerInspect idOrName d with
  | Err e => Err ("inspect " +:+ idOrName +:+ ": " +:+ de_text e)
  | Ok c => Ok (info_of c)
  end.

(** An entry of the list: exit code, error and memory kill are not part of it *)
Definition listed (s : Summary) : ContainerInfo :=
  let state := match index_byte space (sm_state s) with
               | Some (S i) => stake (S i) (sm_state s)
               | _ => sm_state s
               end in
  mkContainerInfo (sm_id s) (match sm_names s with [] => "" | n :: _ => trim_prefix "/" n end) state "" 0 "" false [] (sm_labels s).

Definition ListByLabel (key value : string) d : result string (list ContainerInfo) :=
  match ContainerList (key +:+ "=" +:+ value) d with
  | Err e => Err ("list: " +:+ e)
  | Ok cs => Ok (listed <$> cs)
  end.

#[export] Instance dockerRuntime : Runtime D := {|
  rt_Pull := Pull; rt_InspectImage := InspectImage; rt_PrepareHost := PrepareHost; rt_Create := Create; rt_Start := Start;
  rt_Stop := Stop; rt_Remove := Remove; rt_Inspect := Inspect; rt_ListByLabel := ListByLabel |}.

End Docker.

(** ** What the engine promises *)

Definition same_docker (c c' : DockerContainer) : Prop := dc_id c = dc_id c' ∧ dc_name c = dc_name c' ∧ dc_labels c = dc_labels c'.

#[export] Instance same_docker_refl : Reflexive same_docker.
Proof. by intros c. Qed.

(** A container is found by its name or a prefix of its id; [create] takes a fresh id and keeps name and labels; the calls on
    one container leave the others alone, and what they leave of that one has its name and labels *)
Class DaemonLaws (D : Type) `{!Daemon D} := {
  d_held : D → gmap string DockerContainer;
  d_id : ∀ d id c, d_held d !! id = Some c → dc_id c = id;
  d_inspect : ∀ n d c, ContainerInspect n d = Ok c → d_held d !! dc_id c = Some c;
  d_inspect_named : ∀ n d c, ContainerInspect n d = Ok c → dc_name c = "/" +:+ n ∨ has_prefix n (dc_id c) = true;
  d_pull : ∀ r p d, d_held (snd (ImagePull r p d)) = d_held d;
  d_start : ∀ id d, touches same_docker id (d_held d) (d_held (snd (ContainerStart id d)));
  d_stop : ∀ id t d, touches same_docker id (d_held d) (d_held (snd (ContainerStop id t d)));
  d_stops : ∀ id t d c, fst (ContainerStop id t d) = None → d_held (snd (ContainerStop id t d)) !! id = Some c → dc_status c ≠ "running";
  d_remove : ∀ id f d, touches same_docker id (d_held d) (d_held (snd (ContainerRemove id f d)));
  d_wait : ∀ id d, touches same_docker id (d_held d) (d_held (snd (ContainerWait id d)));
  d_create_frame : ∀ cf hc n d id c, d_held d !! id = Some c → d_held (snd (ContainerCreate cf hc n d)) !! id = Some c;
  d_create_new : ∀ cf hc n d id c, d_held d !! id = None → d_held (snd (ContainerCreate cf hc n d)) !! id = Some c →
    dc_labels c = cf_labels cf ∧ dc_name c = "/" +:+ n ∧ fst (ContainerCreate cf hc n d) = Ok id;
  d_create_fresh : ∀ cf hc n d id, fst (ContainerCreate cf hc n d) = Ok id → d_held d !! id = None;
}.

Section Laws.
Context {D : Type} `{!Daemon D, !DaemonLaws D}.
Implicit Types (d : D) (spec : ContainerSpec).

Definition held_infos d : gmap string ContainerInfo := info_of <$> d_held d.

Lemma touches_infos id (m m' : gmap string DockerContainer) : touches same_docker id m m' → touches same_container id (info_of <$> m) (info_of <$> m').
Proof.
  intros [H1 H2]. split.
  - intros j Hj. by rewrite !lookup_fmap, H1.
  - intros c' (c0 & <- & H)%lookup_fmap_Some. apply H2 in H as (c & H & Hs1 & Hs2 & Hs3). exists (info_of c). rewrite lookup_fmap, H.
    split; [done|]. unfold same_container. simpl. by rewrite Hs1, Hs2, Hs3.
Qed.

Lemma Pull_held r p d : d_held (snd (Pull r p d)) = d_held d.
Proof. unfold Pull. pose proof (d_pull r p d) as H. destruct (ImagePull r p d) as [[[]|] d']; done. Qed.

Lemma fetch_helper_held spec image d : d_held (snd (fetch_helper spec image d)) = d_held d.
Proof.
  unfold fetch_helper. pose proof (Pull_held image (cs_platform spec) d) as H. case_bool_decide; [by destruct InspectImage|].
  by destruct Pull as [[] d'].
Qed.

(** What the helper's removal touches belongs to the workload *)
Lemma clear_helper_held spec d : d_held (snd (clear_helper spec d)) = d_held d ∨
  ∃ c, d_held d !! dc_id c = Some c ∧ labelled_as (cs_labels spec) (dc_labels c) ∧
    touches same_docker (dc_id c) (d_held d) (d_held (snd (clear_helper spec d))).
Proof.
  unfold clear_helper. destruct (ContainerInspect (helper_name spec) d) as [c|e] eqn:E; [|left; by destruct (de_not_found e)].
  destruct (existsb _ helper_keys) eqn:Hk; [by left|]. right. exists c. split; [by eapply d_inspect|]. split.
  - simpl in Hk. repeat (apply orb_false_elim in Hk as [?%negb_false_iff%bool_decide_eq_true Hk]).
    unfold labelled_as, helper_labels, label in *. repeat constructor; rewrite lookup_insert_ne in * by done; done.
  - pose proof (d_remove (dc_id c) true d) as H. by destruct ContainerRemove as [[] d'].
Qed.

Lemma touches_trans id (m m' m'' : gmap string DockerContainer) :
  touches same_docker id m m' → touches same_docker id m' m'' → touches same_docker id m m''.
Proof.
  intros [H1 H2] [H3 H4]. split; [intros j Hj; by rewrite H3, H1|]. intros c' H. apply H4 in H as (c & H & ?&?&?). apply H2 in H as (c0 & H & ?&?&?).
  exists c0. repeat split; congruence.
Qed.

Lemma run_helper_touches id d : touches same_docker id (d_held d) (d_held (snd (run_helper id d))).
Proof.
  unfold run_helper. pose proof (d_start id d) as Hs. destruct (ContainerStart id d) as [[e|] d1]; simpl in *.
  - eapply touches_trans; [exact Hs|apply d_remove].
  - pose proof (d_wait id d1) as Hw. destruct (ContainerWait id d1) as [[code|e] d2]; simpl in *;
      (eapply touches_trans; [exact Hs|]; eapply touches_trans; [exact Hw|apply d_remove]).
Qed.

(** The state after [PrepareHost]: at most a helper of the workload was removed, and then a new one came and went *)
Lemma PrepareHost_held spec d : ∃ d1, 
  (d_held d1 = d_held d ∨ ∃ c, d_held d !! dc_id c = Some c ∧ labelled_as (cs_labels spec) (dc_labels c) ∧ touches same_docker (dc_id c) (d_held d) (d_held d1)) ∧
  (d_held (snd (PrepareHost spec d)) = d_held d1 ∨
   ∃ cf (d2 : result string string * D), cf_labels cf = helper_labels spec ∧ d2 = ContainerCreate cf helper_host (helper_name spec) d1 ∧
     (d_held (snd (PrepareHost spec d)) = d_held (snd d2) ∨
      ∃ id, fst d2 = Ok id ∧ touches same_docker id (d_held (snd d2)) (d_held (snd (PrepareHost spec d))))).
Proof.
  unfold PrepareHost. destruct (ValidateManagedSpec spec); [exists d; by split; left|]. destruct (cs_host_prep spec) as [p|]; [|exists d; by split; left].
  destruct (hostPreparationScript p) as [script|]; [|exists d; by split; left].
  pose proof (fetch_helper_held spec (helper_image spec) d) as Hf. destruct (fetch_helper spec _ d) as [[e|] d0]; simpl in Hf; [exists d0; by split; left|].
  pose proof (clear_helper_held spec d0) as Hc. destruct (clear_helper spec d0) as [[e|] d1]; simpl in Hc; rewrite Hf in Hc; (exists d1; split; [done|]); [by left|].
  right. eexists (helper_config (helper_image spec) script (helper_labels spec)), _. split; [done|]. split; [done|].
  destruct (ContainerCreate _ _ _ d1) as [[id|e] d2]; simpl; [|by left]. right. exists id. split; [done|]. apply run_helper_touches.
Qed.

Lemma PrepareHost_frame spec d id c : d_held d !! id = Some c → ¬ labelled_as (cs_labels spec) (dc_labels c) → d_held (snd (PrepareHost spec d)) !! id = Some c.
Proof.
  intros Hc Hn. destruct (PrepareHost_held spec d) as (d1 & H1 & H2).
  assert (d_held d1 !! id = Some c) as Hd1.
  { destruct H1 as [->|(c0 & H0 & Hl & Ht)]; [done|]. eapply touches_other; [done| |done]. intros ->. congruence. }
  destruct H2 as [->|(cf & d2 & Hcf & -> & H2)]; [done|].
  pose proof (d_create_frame cf helper_host (helper_name spec) _ _ _ Hd1) as Hd2.
  destruct H2 as [->|(j & Hj & Ht)]; [done|]. eapply touches_other; [done| |done]. intros ->. apply d_create_fresh in Hj. congruence.
Qed.

Lemma PrepareHost_new spec d id c : d_held d !! id = None → d_held (snd (PrepareHost spec d)) !! id = Some c → dc_labels c = helper_labels spec.
Proof.
  intros Hc Hs. destruct (PrepareHost_held spec d) as (d1 & H1 & H2).
  assert (d_held d1 !! id = None) as Hd1.
  { destruct H1 as [->|(c0 & H0 & Hl & Ht)]; [done|]. by eapply touches_none. }
  destruct H2 as [H2|(cf & d2 & Hcf & -> & H2)]; [congruence|].
  assert (∃ c0, d_held (snd (ContainerCreate cf helper_host (helper_name spec) d1)) !! id = Some c0 ∧ same_docker c0 c) as (c0 & H0 & _ & _ & Hl).
  { destruct H2 as [H2|(j & Hj & Ht)]; [rewrite <- H2; by exists c|]. by eapply touches_back; [apply _|..]. }
  rewrite <- Hl. eapply d_create_new in H0 as [H0 _]; [|done]. congruence.
Qed.

Lemma trim_slash n : trim_prefix "/" ("/" +:+ n) = n.
Proof. unfold trim_prefix. simpl. by destruct n. Qed.

#[export] Instance docker_laws : RuntimeLaws D.
Proof.
  refine {| rt_held := held_infos |}; unfold held_infos; simpl.
  - intros d id c (c0 & <- & H)%lookup_fmap_Some. by apply d_id in H.
  - intros r p d. by rewrite Pull_held.
  - intros n d c H. unfold Inspect in H. destruct (ContainerInspect n d) as [c0|] eqn:E; simplify_eq. simpl. apply d_inspect in E. by rewrite lookup_fmap, E.
  - intros n d c H. unfold Inspect in H. destruct (ContainerInspect n d) as [c0|] eqn:E; simplify_eq. simpl.
    apply d_inspect_named in E as [->|E]; [left; apply trim_slash|by right].
  - intros id d. apply touches_infos, d_start.
  - intros id t d. apply touches_infos, d_stop.
  - intros id t d c Hf (c0 & <- & H)%lookup_fmap_Some. by eapply d_stops.
  - intros id f d. apply touches_infos, d_remove.
  - intros s d id c (c0 & <- & H)%lookup_fmap_Some. unfold Create. destruct (cs_upstream s); [by rewrite lookup_fmap; simpl; rewrite H|].
    destruct (ValidateManagedSpec s); [by rewrite lookup_fmap; simpl; rewrite H|].
    pose proof (d_create_frame (container_config s) (host_config s) (cs_name s) _ _ _ H) as H'. destruct ContainerCreate as [[] d']; simpl in *; by rewrite lookup_fmap, H'.
  - intros s d id c Hn (c0 & <- & H)%lookup_fmap_Some. rewrite lookup_fmap, fmap_None in Hn. unfold Create in *.
    destruct (cs_upstream s); [simpl in H; congruence|]. destruct (ValidateManagedSpec s); [simpl in H; congruence|].
    pose proof (d_create_new (container_config s) (host_config s) (cs_name s) d id c0 Hn) as H'. destruct ContainerCreate as [[i|] d']; simpl in *;
      destruct (H' H) as (Hl & Hm & Hi); [|done]. simplify_eq. split; [done|]. split; [by rewrite Hm; apply trim_slash|done].
  - intros s d id c (c0 & <- & H)%lookup_fmap_Some Hl. rewrite lookup_fmap. by rewrite (PrepareHost_frame s d id c0).
  - intros s d id c Hn (c0 & <- & H)%lookup_fmap_Some. rewrite lookup_fmap, fmap_None in Hn. by eapply PrepareHost_new.
Defined.
End Laws.

(** ** A small engine *)

Record ShelfEntry := mkEntry { se_name : string; se_status : string; se_exit : Z; se_labels : gmap string string }.

(** Containers by id, the number of the next one, and whether the engine answers *)
Record Shelf := mkShelf { sh_held : gmap string ShelfEntry; sh_next : Z; sh_up : bool }.

Definition sh_container (id : string) (x : ShelfEntry) : DockerContainer :=
  mkDockerContainer id ("/" +:+ se_name x) (se_status x) (se_exit x) "" false [] (se_labels x).

Definition sh_call (id : string) (status : option string) (s : Shelf) : option string * Shelf :=
  if negb (sh_up s) then (Some "cannot connect to the engine", s)
  else match sh_held s !! id with
       | None => (Some ("No such container: " +:+ id), s)
       | Some x => (None, mkShelf (match status with
                                   | Some st => <[id := mkEntry (se_name x) st (se_exit x) (se_labels x)]> (sh_held s)
                                   | None => delete id (sh_held s)
                                   end) (sh_next s) (sh_up s))
       end.

Definition sh_inspect (n : string) (s : Shelf) : result DockerError DockerContainer :=
  if negb (sh_up s) then Err (mkDockerError false "cannot connect to the engine")
  else match find (λ e, bool_decide (se_name (snd e) = n)) (map_to_list (sh_held s)) with
       | Some e => Ok (sh_container (fst e) (snd e))
       | None => match sh_held s !! n with
                 | Some x => Ok (sh_container n x)
                 | None => Err (mkDockerError true ("No such container: " +:+ n))
                 end
       end.

Definition sh_create (cf : Config) (_ : HostConfig) (n : string) (s : Shelf) : result string string * Shelf :=
  let id := itoa (sh_next s) in
  match sh_up s, sh_held s !! id with
  | true, None => (Ok id, mkShelf (<[id := mkEntry n "created" 0 (cf_labels cf)]> (sh_held s)) (sh_next s + 1) true)
  | _, _ => (Err "not created", s)
  end.

Definition sh_list (_ : string) (s : Shelf) : result string (list Summary) :=
  if sh_up s then Ok ((λ e, mkSummary (fst e) ["/" +:+ se_name (snd e)] (se_status (snd e)) (se_labels (snd e))) <$> map_to_list (sh_held s))
  else Err "cannot connect to the engine".

#[export] Instance shelf_daemon : Daemon Shelf := {|
  ContainerInspect := sh_inspect; ContainerList := sh_list; ContainerCreate := sh_create;
  ContainerStart id := sh_call id (Some "running"); ContainerStop id _ := sh_call id (Some "exited");
  ContainerRemove id _ := sh_call id None;
  ContainerWait id s := match sh_call id (Some "exited") s with (None, s) => (Ok 0, s) | (Some e, s) => (Err e, s) end;
  ContainerLogs _ _ := Some ""; ImagePull _ _ s := (Ok ([], None), s); ImageInspect _ _ := Err "no image";
  ImageManifests _ _ := Err "no image"; decode_message _ := None |}.

Definition sh_containers (s : Shelf) : gmap string DockerContainer := map_imap (λ id x, Some (sh_container id x)) (sh_held s).

Lemma sh_lookup s id : sh_containers s !! id = sh_container id <$> sh_held s !! id.
Proof. unfold sh_containers. rewrite map_lookup_imap. by destruct (sh_held s !! id). Qed.

Lemma sh_call_touches id st s : touches same_docker id (sh_containers s) (sh_containers (snd (sh_call id st s))).
Proof.
  unfold sh_call. destruct (sh_up s); cbn [negb]; [|split; [done|intros c H; by exists c]].
  destruct (sh_held s !! id) as [x|] eqn:E; [|split; [done|intros c H; by exists c]]. cbn [snd]. split.
  - intros j Hj. rewrite !sh_lookup. cbn [sh_held]. destruct st; by rewrite ?lookup_insert_ne, ?lookup_delete_ne by done.
  - intros c'. rewrite !sh_lookup, E. cbn [sh_held]. destruct st; rewrite ?lookup_insert_eq, ?lookup_delete_eq; [|done]. intros [= <-]. by eexists.
Qed.

Lemma sh_inspect_held n s c : sh_inspect n s = Ok c → sh_containers s !! dc_id c = Some c ∧ (dc_name c = "/" +:+ n ∨ dc_id c = n).
Proof.
  unfold sh_inspect. destruct (sh_up s); cbn [negb]; [|done]. destruct (find _ _) as [[id x]|] eqn:E.
  - intros [= <-]. apply find_some in E as [Hin Hn%bool_decide_eq_true]. apply list_elem_of_In, elem_of_map_to_list in Hin. cbn [fst snd dc_id sh_container dc_name] in *.
    rewrite sh_lookup, Hin. split; [done|]. left. by rewrite Hn.
  - destruct (sh_held s !! n) as [x|] eqn:En; [|done]. intros [= <-]. cbn [dc_id sh_container]. rewrite sh_lookup, En. split; [done|by right].
Qed.

Lemma has_prefix_self s : has_prefix s s = true.
Proof. induction s as [|a s IH]; [done|]. cbn. by rewrite bool_decide_eq_true_2, IH. Qed.

#[export] Instance shelf_laws : DaemonLaws Shelf.
Proof.
  refine {| d_held := sh_containers |}; cbn.
  - intros s id c. rewrite sh_lookup. by intros (x & _ & ->)%fmap_Some_1.
  - intros n s c [H _]%sh_inspect_held. done.
  - intros n s c [_ [H| ->]]%sh_inspect_held; [by left|right; apply has_prefix_self].
  - done.
  - intros id s. apply sh_call_touches.
  - intros id _ s. apply sh_call_touches.
  - intros id _ s c. unfold sh_call. destruct (sh_up s); cbn [negb]; [|done]. destruct (sh_held s !! id); [|done]. cbn. rewrite sh_lookup. cbn. rewrite lookup_insert_eq. by intros _ [= <-].
  - intros id _ s. apply sh_call_touches.
  - intros id s. pose proof (sh_call_touches id (Some "exited") s). by destruct sh_call as [[] ?].
  - intros cf hc n s id c. unfold sh_create. rewrite !sh_lookup. destruct (sh_up s); [|done]. destruct (sh_held s !! itoa (sh_next s)) eqn:E; [done|].
    intros (x & Hx & ->)%fmap_Some_1. cbn. rewrite lookup_insert_ne, Hx by congruence. done.
  - intros cf hc n s id c. unfold sh_create. rewrite !sh_lookup. intros Hn%fmap_None. destruct (sh_up s); [|cbn; by rewrite Hn].
    destruct (sh_held s !! itoa (sh_next s)) eqn:E; [cbn; by rewrite Hn|]. cbn. destruct (decide (id = itoa (sh_next s))) as [->|Hd].
    + rewrite lookup_insert_eq. by intros [= <-].
    + by rewrite lookup_insert_ne, Hn by done.
  - intros cf hc n s id. unfold sh_create. rewrite sh_lookup. destruct (sh_up s); [|done]. destruct (sh_held s !! itoa (sh_next s)) eqn:E; [done|]. intros [= <-]. by rewrite E.
Defined.
