(* ===== verification/Fabric.v ===== *)
(** * Fabrics: [internal/fabric/service.go]

    A fabric is an ordered group of nodes with one transport binding per member.  [Validate] checks a
    definition against the nodes' inventories; the service stores the definition under a version and
    recomputes its state when a member changes.  JSON columns are their decoded fields, the text of
    diagnostics and time columns are dropped, and the new identifiers of a call are its arguments.
    Each SQL statement is one atomic step. *)

From S2P Require Import Prelude GoStrings Utf8 Diag Inventory.
Open Scope Z_scope.

(** ** Data *)

Record MemberBinding := mkBinding {
  mb_node : string;
  mb_interface : string;
  mb_address : string;
  mb_rdma : string;
  mb_gid : option Z;
}.

Record CreateRequest := mkRequest {
  rq_name : string;
  rq_transport : string;
  rq_members : list string;
  rq_bindings : list MemberBinding;
}.

Record FabricRow := mkFabric {
  fb_name : string;
  fb_transport : string;
  fb_members : list string;
  fb_bindings : list MemberBinding;
  fb_state : string;
  fb_diagnostics : list Diagnostic;
  fb_version : string;
}.

Record NodeRow := mkNode { nd_status : string; nd_inventory : inventory_column }.

Inductive fabric_event :=
| FabricChanged (id name state : string)
| FabricDeleted (id : string).

Record Store := mkStore {
  fabrics : gmap string FabricRow;
  nodes : gmap string NodeRow;
  deployments : list (option string * string);    (* fabric, desired state *)
  published : list fabric_event;
}.

Inductive fabric_error :=
| ErrUnknown | ErrVersionMismatch | ErrInUse | ErrValidation | ErrIfMatch | ErrConstraint.

Notation Fb := (ST Store fabric_error).

Definition set_fabrics (f : gmap string FabricRow → gmap string FabricRow) (s : Store) : Store :=
  mkStore (f (fabrics s)) (nodes s) (deployments s) (published s).
Definition publish (e : fabric_event) (s : Store) : Store :=
  mkStore (fabrics s) (nodes s) (deployments s) (published s ++ [e]).

(** ** Statements *)

Definition by_name (a b : string * FabricRow) : Prop := String.le (fb_name (snd a)) (fb_name (snd b)).

#[export] Instance by_name_dec a b : Decision (by_name a b).
Proof. unfold by_name. apply _. Defined.

Definition ListFabrics (s : Store) : list (string * FabricRow) := merge_sort by_name (map_to_list (fabrics s)).
Definition GetFabric (id : string) (s : Store) : option FabricRow := fabrics s !! id.
Definition GetFabricByIfMatch (id version : string) (s : Store) : option FabricRow :=
  r ← fabrics s !! id; if bool_decide (fb_version r = version) then Some r else None.

(** The primary key, the unique name and the transport check *)
Definition CreateFabric (id : string) (req : CreateRequest) (version : string) : Fb unit :=
  s ← get;
  if bool_decide (is_Some (fabrics s !! id))
     || existsb (λ e, bool_decide (fb_name (snd e) = rq_name req)) (map_to_list (fabrics s))
     || negb (bool_decide (rq_transport req = "roce" ∨ rq_transport req = "tcp"))
  then throw ErrConstraint
  else modify (set_fabrics <[id := mkFabric (rq_name req) (rq_transport req) (rq_members req) (rq_bindings req)
                                     "incomplete" [] version]>).

Definition set_state (state : string) (ds : list Diagnostic) (r : FabricRow) : FabricRow :=
  mkFabric (fb_name r) (fb_transport r) (fb_members r) (fb_bindings r) state ds (fb_version r).

Definition UpdateFabricState (state : string) (ds : list Diagnostic) (id : string) : Fb unit :=
  modify (set_fabrics (alter (set_state state ds) id)).

(** [UpdateFabric ... WHERE id = ? AND version = ?]; a row that does not match is left alone *)
Definition rewrite_row (req : CreateRequest) (state : string) (ds : list Diagnostic) (version old : string)
    (r : FabricRow) : FabricRow :=
  if bool_decide (fb_version r = old)
  then mkFabric (fb_name r) (rq_transport req) (rq_members req) (rq_bindings req) state ds version else r.

Definition UpdateFabric (req : CreateRequest) (state : string) (ds : list Diagnostic) (version id old : string) : Fb unit :=
  if negb (bool_decide (rq_transport req = "roce" ∨ rq_transport req = "tcp")) then throw ErrConstraint
  else modify (set_fabrics (alter (rewrite_row req state ds version old) id)).

Definition DeleteFabric (id version : string) : Fb unit :=
  s ← get;
  match fabrics s !! id with
  | Some r => if bool_decide (fb_version r = version) then modify (set_fabrics (delete id)) else mret tt
  | None => mret tt
  end.

Definition CountActiveDeploymentsOnFabric (id : string) (s : Store) : nat :=
  length (filter (λ d, fst d = Some id ∧ snd d = "running") (deployments s)).

(** ** [Validate] *)

Definition err (code : string) : Diagnostic := Error code "".
Definition warn (code : string) : Diagnostic := Warning code "".

(** [if cond { ds = append(ds, ...) }] *)
Definition report (cond : bool) (d : Diagnostic) : list Diagnostic := if cond then [d] else [].

Definition name_diagnostics (excludeID name : string) (s : Store) : list Diagnostic :=
  if bool_decide (name = "") then [err "fabric.invalid_name"]
  else if contains_any (String "/" (String "092" "")) name || bool_decide (name = ".") || bool_decide (name = "..")
  then [err "fabric.invalid_name"]
  else report (existsb (λ e, bool_decide (fb_name (snd e) = name) && negb (bool_decide (fst e = excludeID))) (ListFabrics s))
         (err "fabric.name_conflict").

(** [strings.Trim(value, ":0") != ""] *)
Definition populated_gid (value : string) : bool :=
  negb (sforallb (λ a, bool_decide (a = ":"%char) || bool_decide (a = "0"%char)) value).

Definition device_diagnostics (binding : MemberBinding) (device : RdmaDevice) : list Diagnostic :=
  report (negb (bool_decide (rd_interfaces device = []))
          && negb (existsb (λ i, bool_decide (i = mb_interface binding)) (rd_interfaces device)))
    (err "fabric.rdma_interface_mismatch")
  ++ match mb_gid binding with
     | None => []
     | Some index =>
         let gids := concat (rd_ports device) in
         if bool_decide (gids = []) then [err "fabric.gids_unreported"]
         else report (negb (existsb (λ g, bool_decide (gid_index g = index) && populated_gid (gid_value g)) gids))
                (err "fabric.gid_unavailable")
     end.

Definition roce_diagnostics (inv : option Inventory) (binding : MemberBinding) : list Diagnostic :=
  (if bool_decide (mb_rdma binding = "") then [err "fabric.roce_requires_device"]
   else match inv with
        | None => []
        | Some inv =>
            match RDMADevice inv (mb_rdma binding) with
            | None => [err "fabric.member_no_rdma"]
            | Some device => device_diagnostics binding device
            end
        end)
  ++ report (match mb_gid binding with Some g => (g <? 0) || (255 <? g) | None => true end)
       (err "fabric.gid_index_required").

Definition binding_diagnostics (transport : string) (inv : option Inventory) (binding : MemberBinding)
    : list Diagnostic :=
  (if bool_decide (mb_interface binding = "") then [err "fabric.interface_required"]
   else match inv with
        | Some inv => report (negb (HasInterface inv (mb_interface binding))) (err "fabric.member_no_interface")
        | None => []
        end)
  ++ (if bool_decide (mb_address binding = "") then [err "fabric.address_required"]
      else match inv with
           | Some inv =>
               if bool_decide (mb_interface binding = "") then []
               else report (negb (existsb (λ a, bool_decide (a = mb_address binding))
                                    (InterfaceAddresses inv (mb_interface binding))))
                      (err "fabric.address_mismatch")
           | None => []
           end)
  ++ (if bool_decide (transport = "roce") then roce_diagnostics inv binding else []).

(** The findings about a member's inventory, the parsed inventory, and whether it is ready *)
Definition inventory_diagnostics (node : NodeRow) : list Diagnostic * option Inventory * bool :=
  match nd_inventory node with
  | NoInventory => ([warn "fabric.no_inventory"], None, false)
  | Unreadable => ([warn "fabric.inventory_unreadable"], None, false)
  | Reported inv => ([], Some inv, true)
  end.

(** One iteration over a known member; [binding] is its binding, if there are enough of them *)
Definition member_diagnostics (transport nodeID : string) (node : NodeRow) (binding : option MemberBinding)
    : list Diagnostic * bool :=
  let pending := bool_decide (nd_status node = "pending") in
  let '(ids, inv, ready) := inventory_diagnostics node in
  (report pending (warn "fabric.member_unapproved")
   ++ report (bool_decide (nd_status node = "offline")) (warn "fabric.member_offline")
   ++ ids
   ++ match binding with
      | None => []
      | Some b => if negb (bool_decide (mb_node b = nodeID)) then [err "fabric.binding_order"]
                  else binding_diagnostics transport inv b
      end, negb pending && ready).

Fixpoint members_diagnostics (s : Store) (transport : string) (seen members : list string)
    (bindings : list MemberBinding) : list Diagnostic * bool :=
  match members with
  | [] => ([], true)
  | nodeID :: members =>
      let dup := report (bool_decide (nodeID ∈ seen)) (err "fabric.duplicate_member") in
      let '(here, ready) :=
        match nodes s !! nodeID with
        | None => ([err "fabric.unknown_member"], true)
        | Some node => member_diagnostics transport nodeID node (head bindings)
        end in
      let '(rest, ready') := members_diagnostics s transport (nodeID :: seen) members (tail bindings) in
      (dup ++ here ++ rest, ready && ready')
  end.

Definition Validate (excludeID : string) (req : CreateRequest) (s : Store) : string * list Diagnostic :=
  let '(ms, inventoryReady) := members_diagnostics s (rq_transport req) [] (rq_members req) (rq_bindings req) in
  let ds :=
    name_diagnostics excludeID (rq_name req) s
    ++ report (negb (bool_decide (rq_transport req = "roce" ∨ rq_transport req = "tcp"))) (err "fabric.unknown_transport")
    ++ report (length (rq_members req) <? 2)%nat (err "fabric.too_few_members")
    ++ report (negb (length (rq_bindings req) =? length (rq_members req))%nat) (err "fabric.bindings_incomplete")
    ++ ms in
  (if HasError ds || negb inventoryReady then "incomplete" else "ok", ds).

(** ** The service *)

Definition Get (id : string) : Fb FabricRow :=
  s ← get; match GetFabric id s with Some r => mret r | None => throw ErrUnknown end.

Definition Create (fid ver : string) (req : CreateRequest) : Fb FabricRow :=
  s ← get;
  let '(state, ds) := Validate "" req s in
  if HasError ds then throw ErrValidation
  else
    _ ← CreateFabric fid req ver;
    _ ← UpdateFabricState state ds fid;
    _ ← modify (publish (FabricChanged fid (rq_name req) state));
    Get fid.

(** [Update] after its read and its checks *)
Definition update_write (ver fid ifMatch : string) (req : CreateRequest) (state : string) (ds : list Diagnostic)
    : Fb FabricRow :=
  _ ← UpdateFabric req state ds ver fid ifMatch;
  _ ← modify (publish (FabricChanged fid (rq_name req) state));
  Get fid.

(** The read and the checks of [Update]: the state and findings it is going to write *)
Definition update_check (fid ifMatch : string) (req : CreateRequest) : Fb (string * list Diagnostic) :=
  s ← get;
  if bool_decide (ifMatch = "") then throw ErrIfMatch
  else match GetFabricByIfMatch fid ifMatch s with
       | None => throw ErrVersionMismatch
       | Some cur =>
           if negb (bool_decide (rq_name req = fb_name cur)) then throw ErrValidation
           else
             let '(state, ds) := Validate fid req s in
             if HasError ds then throw ErrValidation else mret (state, ds)
       end.

Definition Update (ver fid ifMatch : string) (req : CreateRequest) : Fb FabricRow :=
  '(state, ds) ← update_check fid ifMatch req;
  update_write ver fid ifMatch req state ds.

Definition Delete (fid ifMatch : string) : Fb unit :=
  s ← get;
  match GetFabric fid s with
  | None => throw ErrUnknown
  | Some cur =>
      if negb (bool_decide (ifMatch = "")) && negb (bool_decide (ifMatch = fb_version cur)) then throw ErrVersionMismatch
      else if (0 <? CountActiveDeploymentsOnFabric fid s)%nat then throw ErrInUse
      else
        _ ← DeleteFabric fid (fb_version cur);
        modify (publish (FabricDeleted fid))
  end.

Definition List_fabrics (s : Store) : list (string * FabricRow) := ListFabrics s.

Definition request_of (r : FabricRow) : CreateRequest :=
  mkRequest (fb_name r) (fb_transport r) (fb_members r) (fb_bindings r).

(** One row of the loop of [RevalidateNode] *)
Definition revalidate_row (nodeID : string) (e : string * FabricRow) : Fb unit :=
  let '(id, r) := e in
  if negb (existsb (λ m, bool_decide (m = nodeID)) (fb_members r)) then mret tt
  else
    s ← get;
    let '(state, ds) := Validate id (request_of r) s in
    _ ← UpdateFabricState state ds id;
    modify (publish (FabricChanged id (fb_name r) state)).

Definition RevalidateNode (nodeID : string) : Fb unit :=
  s ← get; forM (revalidate_row nodeID) (ListFabrics s).

(** ** What [Validate] decides *)

Definition slashes : string := String "/" (String "092" "").

Definition name_ok (name : string) : Prop := name ≠ "" ∧ contains_any slashes name = false ∧ name ≠ "." ∧ name ≠ "..".

Definition name_free (excludeID name : string) (s : Store) : Prop :=
  ∀ id r, fabrics s !! id = Some r → fb_name r = name → id = excludeID.

(** The device carries the binding's interface and has a value at the binding's GID index *)
Definition device_wired (b : MemberBinding) (index : Z) (d : RdmaDevice) : Prop :=
  (rd_interfaces d = [] ∨ mb_interface b ∈ rd_interfaces d) ∧
  ∃ g, g ∈ concat (rd_ports d) ∧ gid_index g = index ∧ populated_gid (gid_value g) = true.

(** A binding that agrees with the inventory, as far as one was reported *)
Definition wired (transport : string) (inv : option Inventory) (b : MemberBinding) : Prop :=
  mb_interface b ≠ "" ∧ mb_address b ≠ "" ∧
  (∀ i, inv = Some i → HasInterface i (mb_interface b) = true ∧ mb_address b ∈ InterfaceAddresses i (mb_interface b)) ∧
  (transport = "roce" → mb_rdma b ≠ "" ∧ ∃ index, mb_gid b = Some index ∧ 0 ≤ index ≤ 255 ∧
     ∀ i, inv = Some i → ∃ d, RDMADevice i (mb_rdma b) = Some d ∧ device_wired b index d).

Definition reported (node : NodeRow) : option Inventory :=
  match nd_inventory node with Reported inv => Some inv | _ => None end.

Definition member_wired (s : Store) (transport nodeID : string) (b : MemberBinding) : Prop :=
  mb_node b = nodeID ∧ ∃ node, nodes s !! nodeID = Some node ∧ wired transport (reported node) b.

(** A definition the service stores *)
Definition accepted (excludeID : string) (req : CreateRequest) (s : Store) : Prop :=
  name_ok (rq_name req) ∧ name_free excludeID (rq_name req) s ∧
  (rq_transport req = "roce" ∨ rq_transport req = "tcp") ∧ (2 ≤ length (rq_members req))%nat ∧
  NoDup (rq_members req) ∧ Forall2 (member_wired s (rq_transport req)) (rq_members req) (rq_bindings req).

(** Every known member is approved and has reported its inventory *)
Definition members_ready (s : Store) (members : list string) : Prop :=
  ∀ m node, m ∈ members → nodes s !! m = Some node → nd_status node ≠ "pending" ∧ is_Some (reported node).

Lemma HasError_app ds ds' : HasError (ds ++ ds') = HasError ds || HasError ds'.
Proof. unfold HasError. by rewrite existsb_app. Qed.

Lemma HasError_report_err c code : HasError (report c (err code)) = c.
Proof. by destruct c. Qed.
Lemma HasError_report_warn c code : HasError (report c (warn code)) = false.
Proof. by destruct c. Qed.
Lemma HasError_err code : HasError [err code] = true.
Proof. done. Qed.

#[export] Hint Rewrite HasError_app HasError_report_err HasError_report_warn HasError_err orb_false_iff
  negb_false_iff negb_true_iff bool_decide_eq_true bool_decide_eq_false : fabric.

Lemma existsb_eq_elem {A} `{EqDecision A} (x : A) xs : existsb (λ y, bool_decide (y = x)) xs = true ↔ x ∈ xs.
Proof.
  rewrite existsb_exists. split.
  - intros (y & Hy & ->%bool_decide_eq_true). by apply list_elem_of_In.
  - intros H. exists x. rewrite bool_decide_eq_true. split; [by apply list_elem_of_In|done].
Qed.

Lemma existsb_exists_elem {A} (f : A → bool) xs : existsb f xs = true ↔ ∃ x, x ∈ xs ∧ f x = true.
Proof. rewrite existsb_exists. by setoid_rewrite list_elem_of_In. Qed.

Lemma name_diagnostics_spec excludeID name s :
  HasError (name_diagnostics excludeID name s) = false ↔ name_ok name ∧ name_free excludeID name s.
Proof.
  unfold name_diagnostics, name_ok, name_free. change (String "/" (String "092" "")) with slashes.
  case_bool_decide as E1; [by split; [|intros [[? _] _]]|].
  destruct (contains_any slashes name) eqn:E2; [by split; [|intros [(_ & ? & _) _]]|].
  case_bool_decide as E3; [by split; [|intros [(_ & _ & ? & _) _]]|].
  case_bool_decide as E4; [by split; [|intros [(_ & _ & _ & ?) _]]|]. cbn [orb].
  rewrite HasError_report_err, <- not_true_iff_false, existsb_exists_elem. split.
  - intros H. split; [done|]. intros id r Hr Hn. destruct (decide (id = excludeID)) as [|Hne]; [done|]. destruct H.
    exists (id, r). unfold ListFabrics. rewrite merge_sort_Permutation, elem_of_map_to_list. split; [done|]. simpl.
    by rewrite bool_decide_eq_true_2, bool_decide_eq_false_2.
  - intros [_ H] ([id r] & Hin & Hb). unfold ListFabrics in Hin. rewrite merge_sort_Permutation, elem_of_map_to_list in Hin.
    simpl in Hb. apply andb_prop in Hb as [Hn%bool_decide_eq_true Hne%negb_true_iff%bool_decide_eq_false]. eauto.
Qed.

Lemma and_iff (A B C D : Prop) : (A ↔ C) → (B ↔ D) → (A ∧ B ↔ C ∧ D).
Proof. tauto. Qed.

Lemma device_diagnostics_spec b index d :
  mb_gid b = Some index → HasError (device_diagnostics b d) = false ↔ device_wired b index d.
Proof.
  intros Hg. unfold device_diagnostics, device_wired. rewrite Hg, HasError_app, HasError_report_err, orb_false_iff.
  apply and_iff.
  - rewrite andb_false_iff, !negb_false_iff, bool_decide_eq_true, existsb_eq_elem. done.
  - case_bool_decide as E; [rewrite E; split; [done|intros (? & H & _); set_solver]|].
    rewrite HasError_report_err, negb_false_iff, existsb_exists_elem.
    by setoid_rewrite andb_true_iff; setoid_rewrite bool_decide_eq_true.
Qed.

Lemma gid_range_spec (o : option Z) :
  match o with Some g => (g <? 0) || (255 <? g) | None => true end = false ↔ ∃ g, o = Some g ∧ 0 ≤ g ≤ 255.
Proof.
  destruct o as [g|]; [|split; [done|naive_solver]]. rewrite orb_false_iff, !Z.ltb_ge. split; [naive_solver|].
  by intros (? & [= ->] & ?).
Qed.

Lemma roce_diagnostics_spec inv b :
  HasError (roce_diagnostics inv b) = false ↔
  mb_rdma b ≠ "" ∧ ∃ index, mb_gid b = Some index ∧ 0 ≤ index ≤ 255 ∧
    ∀ i, inv = Some i → ∃ d, RDMADevice i (mb_rdma b) = Some d ∧ device_wired b index d.
Proof.
  unfold roce_diagnostics. rewrite HasError_app, HasError_report_err, orb_false_iff, gid_range_spec.
  case_bool_decide as E; [split; [by intros [? _]|by intros [? _]]|]. destruct inv as [inv|].
  - destruct (RDMADevice inv (mb_rdma b)) as [d|] eqn:Ed.
    + split.
      * intros [H (g & Hg & Hr)]. split; [done|]. exists g. split; [done|]. split; [done|]. intros i [= <-]. exists d.
        split; [done|]. by apply device_diagnostics_spec.
      * intros [_ (g & Hg & Hr & H)]. destruct (H inv eq_refl) as (d' & Hd' & Hw). simplify_eq.
        split; [by apply (device_diagnostics_spec b g)|eauto].
    + split; [by intros [? _]|]. intros [_ (g & Hg & Hr & H)]. destruct (H inv eq_refl) as (d' & Hd' & _). congruence.
  - split; [intros [_ (g & Hg & Hr)]; split; [done|]; exists g; done|].
    intros [_ (g & Hg & Hr & _)]. eauto.
Qed.

Lemma binding_diagnostics_spec transport inv b :
  HasError (binding_diagnostics transport inv b) = false ↔ wired transport inv b.
Proof.
  unfold binding_diagnostics, wired. rewrite !HasError_app, !orb_false_iff.
  case_bool_decide as E1; [split; [by intros [? _]|by intros [? _]]|].
  case_bool_decide as E2; [split; [by intros (_ & ? & _)|by intros (_ & ? & _)]|].
  assert (HasError (if bool_decide (transport = "roce") then roce_diagnostics inv b else []) = false ↔
    (transport = "roce" → mb_rdma b ≠ "" ∧ ∃ index, mb_gid b = Some index ∧ 0 ≤ index ≤ 255 ∧
     ∀ i, inv = Some i → ∃ d, RDMADevice i (mb_rdma b) = Some d ∧ device_wired b index d)) as ->.
  { case_bool_decide; [rewrite roce_diagnostics_spec; tauto|done]. }
  destruct inv as [i|]; [|naive_solver].
  rewrite !HasError_report_err, !negb_false_iff, existsb_eq_elem. naive_solver.
Qed.

Lemma member_diagnostics_spec transport nodeID node b :
  HasError (fst (member_diagnostics transport nodeID node (Some b))) = false ↔
  mb_node b = nodeID ∧ wired transport (reported node) b.
Proof.
  unfold member_diagnostics, inventory_diagnostics, reported.
  assert (∀ inv, HasError (if negb (bool_decide (mb_node b = nodeID)) then [err "fabric.binding_order"]
                           else binding_diagnostics transport inv b) = false ↔ mb_node b = nodeID ∧ wired transport inv b) as H.
  { intros inv. case_bool_decide; simpl; [rewrite binding_diagnostics_spec; tauto|split; [done|tauto]]. }
  destruct (nd_inventory node); cbn [fst]; rewrite !HasError_app, !HasError_report_warn; apply H.
Qed.

Lemma member_diagnostics_ready transport nodeID node b :
  snd (member_diagnostics transport nodeID node b) = true ↔ nd_status node ≠ "pending" ∧ is_Some (reported node).
Proof.
  unfold member_diagnostics, inventory_diagnostics, reported.
  destruct (nd_inventory node); cbn [snd]; rewrite andb_true_iff, negb_true_iff, bool_decide_eq_false;
    split; try (by intros [_ ?]); try (intros [_ [? ?]]; done); naive_solver.
Qed.

Lemma members_diagnostics_errors s transport seen ms bs :
  HasError (fst (members_diagnostics s transport seen ms bs)) = false ∧ length bs = length ms ↔
  NoDup ms ∧ (∀ m, m ∈ ms → m ∉ seen) ∧ Forall2 (member_wired s transport) ms bs.
Proof.
  revert seen bs. induction ms as [|m ms IH]; intros seen bs; cbn [members_diagnostics].
  - split; [|intros (_ & _ & H); by inversion H]. intros [_ Hl]. destruct bs; [|done]. split_and!; [constructor|set_solver|constructor].
  - destruct bs as [|b bs]; [split; [by intros [_ ?]|intros (_ & _ & H); by inversion H]|]. cbn [head tail].
    specialize (IH (m :: seen) bs). destruct (members_diagnostics s transport (m :: seen) ms bs) as [rest ready'].
    rewrite Forall2_cons, NoDup_cons. unfold member_wired at 1.
    assert (∀ here, HasError (report (bool_decide (m ∈ seen)) (err "fabric.duplicate_member") ++ here ++ rest) = false ↔
      m ∉ seen ∧ HasError here = false ∧ HasError rest = false) as Hsplit.
    { intros here. rewrite !HasError_app, HasError_report_err, !orb_false_iff, bool_decide_eq_false. done. }
    destruct (nodes s !! m) as [node|] eqn:En.
    + pose proof (member_diagnostics_spec transport m node b) as Hm.
      destruct (member_diagnostics transport m node (Some b)) as [here ready]. cbn [fst] in *.
      rewrite (Hsplit here), Hm. simpl. split.
      * intros [(H1 & H2 & H3) Hl]. destruct (proj1 IH) as (I1 & I2 & I3); [split; [done|lia]|].
        split_and!; [set_solver|done|set_solver|naive_solver|naive_solver|done].
      * intros ([I1 I2] & I3 & (H2 & node' & ? & ?) & I4). simplify_eq.
        destruct (proj2 IH) as [? ?]; [split_and!; [done|set_solver|done]|]. split; [|lia]. split_and!; [set_solver|done|done|done].
    + cbn [fst]. rewrite Hsplit. split; [by intros [(_ & ? & _) _]|]. intros (_ & _ & (_ & node' & ? & _) & _). done.
Qed.

Lemma members_diagnostics_ready s transport seen ms bs :
  snd (members_diagnostics s transport seen ms bs) = true ↔ members_ready s ms.
Proof.
  revert seen bs. unfold members_ready. induction ms as [|m ms IH]; intros seen bs; cbn [members_diagnostics]; [split; [set_solver|done]|].
  specialize (IH (m :: seen) (tail bs)). destruct (members_diagnostics s transport (m :: seen) ms (tail bs)) as [rest ready'].
  cbn [snd] in IH. destruct (nodes s !! m) as [node|] eqn:En.
  - pose proof (member_diagnostics_ready transport m node (head bs)) as Hm.
    destruct (member_diagnostics transport m node (head bs)) as [here ready]. cbn [snd] in *.
    rewrite andb_true_iff, Hm, IH. split.
    + intros [H1 H2] x nd [->|Hx]%elem_of_cons Hnd; [by simplify_eq|eauto].
    + intros H. split; [apply (H m); [set_solver|done]|]. intros x nd Hx. apply H. set_solver.
  - cbn [snd andb]. rewrite IH. split; [|set_solver]. intros H x nd [->|Hx]%elem_of_cons Hnd; [congruence|eauto].
Qed.

(** [Validate] decides exactly what it is meant to.  It reports no error if and only if the name
    is usable and free, the transport known, the members at least two, distinct and known, and every
    member has, in order, a binding that agrees with its inventory as far as that was reported; and the
    state is [ok] if and only if moreover every member is approved and has reported a readable
    inventory. *)
Theorem Validate_spec excludeID req s :
  (HasError (snd (Validate excludeID req s)) = false ↔ accepted excludeID req s) ∧
  (fst (Validate excludeID req s) = "ok" ↔ accepted excludeID req s ∧ members_ready s (rq_members req)).
Proof.
  unfold Validate.
  pose proof (members_diagnostics_errors s (rq_transport req) [] (rq_members req) (rq_bindings req)) as He.
  pose proof (members_diagnostics_ready s (rq_transport req) [] (rq_members req) (rq_bindings req)) as Hr.
  destruct (members_diagnostics _ _ _ _ _) as [ms ready]. cbn [fst snd] in *.
  set (ds := name_diagnostics _ _ _ ++ _).
  assert (HasError ds = false ↔ accepted excludeID req s) as Hds.
  { unfold ds, accepted. rewrite !HasError_app, !HasError_report_err, !orb_false_iff, name_diagnostics_spec.
    rewrite !negb_false_iff, bool_decide_eq_true, Nat.ltb_ge, Nat.eqb_eq. split.
    - intros ([Hn Hf] & Ht & Hl & Hb & Hm). destruct (proj1 He) as (H1 & _ & H2); [done|]. done.
    - intros (Hn & Hf & Ht & Hl & H1 & H2). destruct (proj2 He) as [H3 H4]; [split_and!; [done|set_solver|done]|]. done. }
  split; [done|]. rewrite <- Hds, <- Hr. destruct (HasError ds), ready; simpl; naive_solver.
Qed.

(** ** Stored definitions *)

(** What every stored row satisfies, whatever the nodes report later *)
Definition definition_ok (r : FabricRow) : Prop :=
  name_ok (fb_name r) ∧ (fb_transport r = "roce" ∨ fb_transport r = "tcp") ∧ (2 ≤ length (fb_members r))%nat ∧
  NoDup (fb_members r) ∧ (mb_node <$> fb_bindings r) = fb_members r.

Definition names_unique (s : Store) : Prop :=
  ∀ id id' r r', fabrics s !! id = Some r → fabrics s !! id' = Some r' → fb_name r = fb_name r' → id = id'.

Definition store_ok (s : Store) : Prop := (∀ id r, fabrics s !! id = Some r → definition_ok r) ∧ names_unique s.

Lemma accepted_definition excludeID req s state ds version :
  accepted excludeID req s →
  definition_ok (mkFabric (rq_name req) (rq_transport req) (rq_members req) (rq_bindings req) state ds version).
Proof.
  intros (Hn & _ & Ht & Hl & Hnd & H2). split_and!; [apply Hn..|done|done|done|]. simpl. clear -H2.
  induction H2 as [|m b ms bs [Hb _] _ IH]; [done|]. rewrite fmap_cons, Hb. by f_equal.
Qed.

(** The statements of concurrent requests and reports, in any order.  A request that writes has been
    checked before, against whatever the store was then. *)
Inductive step : Store → Store → Prop :=
| st_create fid ver req s s0 :
    HasError (snd (Validate "" req s0)) = false → step s (snd (CreateFabric fid req ver s))
| st_update ver fid ifMatch req state ds s s0 :
    fst (update_check fid ifMatch req s0) = Ok (state, ds) → step s (snd (UpdateFabric req state ds ver fid ifMatch s))
| st_state state ds id s : step s (snd (UpdateFabricState state ds id s))
| st_delete id version s : step s (snd (DeleteFabric id version s))
| st_publish e s : step s (publish e s)
| st_node id row s : step s (mkStore (fabrics s) (<[id := row]> (nodes s)) (deployments s) (published s))
| st_deployments d s : step s (mkStore (fabrics s) (nodes s) d (published s)).

Lemma update_check_spec fid ifMatch req s state ds :
  fst (update_check fid ifMatch req s) = Ok (state, ds) →
  ifMatch ≠ "" ∧ (∃ cur, fabrics s !! fid = Some cur ∧ fb_version cur = ifMatch ∧ fb_name cur = rq_name req) ∧
  accepted fid req s ∧ Validate fid req s = (state, ds).
Proof.
  unfold update_check, GetFabricByIfMatch. unfold_st. case_bool_decide as E0; [done|].
  destruct (fabrics s !! fid) as [cur|] eqn:Ec; simpl; [|done]. case_bool_decide as Ev; simpl; [|done].
  case_bool_decide as En; simpl; [|done]. destruct (Validate fid req s) as [st d] eqn:Eval.
  destruct (HasError d) eqn:Eh; [done|]. simpl. intros [= <- <-]. split; [done|]. split; [by exists cur|]. split; [|done].
  apply (proj1 (Validate_spec fid req s)). rewrite Eval. exact Eh.
Qed.

Lemma alter_names s f id :
  (∀ r, fb_name (f r) = fb_name r) → names_unique s → names_unique (set_fabrics (alter f id) s).
Proof.
  intros Hf Hu i j r r' Hi Hj Hn. simpl in Hi, Hj. apply lookup_alter_Some in Hi, Hj.
  destruct Hi as [(-> & x & Hx & ->)|[_ Hi]], Hj as [(-> & y & Hy & ->)|[_ Hj]]; rewrite ?Hf in Hn; eauto.
Qed.

Lemma step_store_ok s s' : step s s' → store_ok s → store_ok s'.
Proof.
  intros Hst [Hd Hu]. destruct Hst as [fid ver req s s0 He|ver fid ifMatch req state ds s s0 Hc|state ds id s|id version s|e s|id row s|d s].
  - unfold CreateFabric. unfold_st. case_bool_decide as E1; [done|]. destruct (existsb _ _) eqn:E2; [done|].
    destruct (negb _); [done|]. simpl. apply eq_None_not_Some in E1. apply Validate_spec in He. split.
    + intros id r. simpl. rewrite lookup_insert_Some. intros [[<- <-]|[_ Hr]]; [by eapply accepted_definition|eauto].
    + assert (∀ id r, fabrics s !! id = Some r → fb_name r ≠ rq_name req) as Hne.
      { intros id r Hr Hn. apply not_true_iff_false in E2. destruct E2. apply existsb_exists_elem. exists (id, r).
        rewrite elem_of_map_to_list. split; [done|]. simpl. by apply bool_decide_eq_true. }
      intros i j r r'. simpl. rewrite !lookup_insert_Some.
      intros [[<- <-]|[? Hi]] [[<- <-]|[? Hj]] Hn; simpl in *; [done| | |by eapply Hu].
      * exfalso. by eapply (Hne j r').
      * exfalso. by eapply (Hne i r).
  - apply update_check_spec in Hc as (_ & (cur & _ & _ & Hnm) & Ha & _).
    unfold UpdateFabric. destruct (negb _); [done|]. unfold_st. simpl. split.
    + intros i r Hi. simpl in Hi. apply lookup_alter_Some in Hi as [(-> & x & Hx & ->)|[_ Hi]]; [|eauto].
      unfold rewrite_row. case_bool_decide; [|eauto]. destruct (Hd _ _ Hx) as [Hn _].
      pose proof (accepted_definition _ _ _ state ds ver Ha) as (_ & H1 & H2 & H3 & H4). by split_and!.
    + apply alter_names; [|done]. intros r. unfold rewrite_row. by case_bool_decide.
  - split; [|by apply alter_names]. intros i r Hi. simpl in Hi.
    apply lookup_alter_Some in Hi as [(-> & x & Hx & ->)|[_ Hi]]; [|eauto]. by apply Hd in Hx.
  - unfold DeleteFabric. unfold_st. destruct (fabrics s !! id); [|done]. case_bool_decide; [|done]. simpl. split.
    + intros i r. simpl. rewrite lookup_delete_Some. intros [_ ?]. eauto.
    + intros i j r r'. simpl. rewrite !lookup_delete_Some. intros [_ ?] [_ ?]. by apply Hu.
  - done.
  - done.
  - done.
Qed.

(** However the statements of concurrent requests interleave, the stored fabrics have distinct
    names, and each has a usable name, a known transport, at least two distinct members and exactly one
    binding per member, in member order. *)
Theorem fabrics_well_formed ns ds s : rtc step (mkStore ∅ ns ds []) s → store_ok s.
Proof.
  intros H. assert (store_ok (mkStore ∅ ns ds [])) as H0.
  { split; [intros id r Hr|intros id id' r r' Hr]; simpl in Hr; by rewrite lookup_empty in Hr. }
  induction H as [|s1 s2 s3 Hs _ IH]; [done|]. apply IH. by eapply step_store_ok.
Qed.

(** ** Fresh states *)

Lemma name_diagnostics_ext id name s1 s2 :
  (name_free id name s1 ↔ name_free id name s2) → name_diagnostics id name s1 = name_diagnostics id name s2.
Proof.
  intros H. pose proof (name_diagnostics_spec id name s1) as H1. pose proof (name_diagnostics_spec id name s2) as H2.
  unfold name_diagnostics in *. case_bool_decide; [done|]. destruct (_ || _ || _); [done|].
  rewrite HasError_report_err in H1, H2. f_equal.
  destruct (existsb _ (ListFabrics s1)), (existsb _ (ListFabrics s2)); try done; exfalso.
  - destruct (proj1 H2 eq_refl) as [Hn Hf]. by assert (true = false) by (apply H1; tauto).
  - destruct (proj1 H1 eq_refl) as [Hn Hf]. by assert (true = false) by (apply H2; tauto).
Qed.

Lemma members_diagnostics_ext s1 s2 transport seen ms bs :
  (∀ m, m ∈ ms → nodes s1 !! m = nodes s2 !! m) →
  members_diagnostics s1 transport seen ms bs = members_diagnostics s2 transport seen ms bs.
Proof.
  revert seen bs. induction ms as [|m ms IH]; intros seen bs H; [done|]. cbn [members_diagnostics].
  rewrite (H m) by set_solver. rewrite IH by set_solver. done.
Qed.

Lemma Validate_ext id req s1 s2 :
  (name_free id (rq_name req) s1 ↔ name_free id (rq_name req) s2) →
  (∀ m, m ∈ rq_members req → nodes s1 !! m = nodes s2 !! m) → Validate id req s1 = Validate id req s2.
Proof.
  intros Hn Hm. unfold Validate. by rewrite (members_diagnostics_ext s1 s2), (name_diagnostics_ext id _ s1 s2).
Qed.

Lemma own_name_free id r s : names_unique s → fabrics s !! id = Some r → name_free id (fb_name r) s.
Proof. intros Hu Hr id' r' Hr' Hn. by eapply Hu. Qed.

(** A stored definition is judged by its members alone *)
Lemma Validate_stored id r s1 s2 :
  names_unique s1 → names_unique s2 → (∃ r1, fabrics s1 !! id = Some r1 ∧ fb_name r1 = fb_name r) →
  (∃ r2, fabrics s2 !! id = Some r2 ∧ fb_name r2 = fb_name r) →
  (∀ m, m ∈ fb_members r → nodes s1 !! m = nodes s2 !! m) →
  Validate id (request_of r) s1 = Validate id (request_of r) s2.
Proof.
  intros H1 H2 (r1 & E1 & N1) (r2 & E2 & N2) Hm. apply Validate_ext; [|done]. simpl.
  pose proof (own_name_free id r1 s1 H1 E1) as F1. pose proof (own_name_free id r2 s2 H2 E2) as F2.
  rewrite N1 in F1. rewrite N2 in F2. done.
Qed.

(** What [RevalidateNode] makes of a row *)
Definition refresh (s : Store) (nodeID id : string) (r : FabricRow) : FabricRow :=
  if bool_decide (nodeID ∈ fb_members r)
  then set_state (fst (Validate id (request_of r) s)) (snd (Validate id (request_of r) s)) r else r.

(** The same names and nodes as at the start of the loop *)
Record same_names (s s' : Store) : Prop := {
  sn_names : ∀ id, fb_name <$> fabrics s' !! id = fb_name <$> fabrics s !! id;
  sn_nodes : nodes s' = nodes s;
  sn_deployments : deployments s' = deployments s;
}.

Lemma same_names_row s s' id r :
  same_names s s' → fabrics s !! id = Some r → ∃ r', fabrics s' !! id = Some r' ∧ fb_name r' = fb_name r.
Proof.
  intros [H _ _] Hr. specialize (H id). rewrite Hr in H. destruct (fabrics s' !! id) as [r'|]; [|done].
  exists r'. split; [done|]. by injection H.
Qed.

Lemma same_names_unique s s' : same_names s s' → names_unique s → names_unique s'.
Proof.
  intros [H _ _] Hu i j r r' Hi Hj Hn. pose proof (H i) as Ei. pose proof (H j) as Ej. rewrite Hi in Ei. rewrite Hj in Ej.
  destruct (fabrics s !! i) as [x|] eqn:Ex; [|done]. destruct (fabrics s !! j) as [y|] eqn:Ey; [|done].
  simpl in *. simplify_eq. eapply Hu; [done..|congruence].
Qed.

Lemma revalidate_row_spec s s1 nodeID id r :
  names_unique s → same_names s s1 → fabrics s !! id = Some r → fabrics s1 !! id = Some r →
  ∃ s2, revalidate_row nodeID (id, r) s1 = (Ok tt, s2) ∧ same_names s s2 ∧
    fabrics s2 = <[id := refresh s nodeID id r]> (fabrics s1).
Proof.
  intros Hu Hs Hr Hr1. unfold revalidate_row, refresh.
  destruct (existsb (λ m, bool_decide (m = nodeID)) (fb_members r)) eqn:Ex.
  - rewrite existsb_eq_elem in Ex. rewrite bool_decide_eq_true_2 by done. cbn [negb]. unfold_st.
    replace (Validate id (request_of r) s1) with (Validate id (request_of r) s).
    2: { apply Validate_stored; [done|by eapply same_names_unique|by exists r|by exists r|]. intros m _. by destruct Hs as [_ -> _]. }
    destruct (Validate id (request_of r) s) as [state ds]. unfold UpdateFabricState. unfold_st.
    eexists. split; [done|]. simpl.
    assert (alter (set_state state ds) id (fabrics s1) = <[id := set_state state ds r]> (fabrics s1)) as Ea.
    { apply map_eq. intros k. rewrite lookup_insert. case_decide as E; [subst; by rewrite lookup_alter_eq, Hr1|by rewrite lookup_alter_ne]. }
    split; [|by rewrite Ea]. destruct Hs as [Hn Hno Hde]. split; [|done|done]. intros k. simpl. rewrite Ea, lookup_insert.
    case_decide; [subst|apply Hn]. by rewrite Hr.
  - rewrite <- not_true_iff_false, existsb_eq_elem in Ex. rewrite bool_decide_eq_false_2 by done. cbn [negb]. unfold_st.
    exists s1. split_and!; [done|done|]. by rewrite insert_id.
Qed.

Lemma revalidate_loop s s1 nodeID l :
  names_unique s → same_names s s1 → NoDup l.*1 →
  (∀ id r, (id, r) ∈ l → fabrics s !! id = Some r ∧ fabrics s1 !! id = Some r) →
  ∃ s2, forM (revalidate_row nodeID) l s1 = (Ok tt, s2) ∧ same_names s s2 ∧
    (∀ id r, (id, r) ∈ l → fabrics s2 !! id = Some (refresh s nodeID id r)) ∧
    ∀ id, id ∉ l.*1 → fabrics s2 !! id = fabrics s1 !! id.
Proof.
  intros Hu. revert s1. induction l as [|[id r] l IH]; intros s1 Hs Hnd Hl.
  - exists s1. split_and!; [done|done|set_solver|done].
  - rewrite fmap_cons in Hnd. apply NoDup_cons in Hnd as [Hni Hnd]. simpl in Hni.
    destruct (Hl id r) as [Hr Hr1]; [set_solver|].
    destruct (revalidate_row_spec s s1 nodeID id r) as (s2 & E2 & Hs2 & Hf2); [done..|].
    destruct (IH s2) as (s3 & E3 & Hs3 & Hin & Hout); [done|done| |].
    + intros id' r' Hin. destruct (Hl id' r') as [? ?]; [set_solver|]. split; [done|]. rewrite Hf2, lookup_insert_ne; [done|].
      intros ->. apply Hni. apply (list_elem_of_fmap_2 fst) in Hin. done.
    + exists s3. split_and!; [|done| |].
      * cbn [forM]. unfold mbind, ST_bind. by rewrite E2, E3.
      * intros id' r' [[= -> ->]|Hi]%elem_of_cons; [|eauto]. by rewrite Hout, Hf2, lookup_insert_eq.
      * intros id' Hid. rewrite fmap_cons, not_elem_of_cons in Hid. destruct Hid as [Hne Hid]. simpl in Hne.
        rewrite Hout by done. by rewrite Hf2, lookup_insert_ne.
Qed.

Lemma RevalidateNode_rows nodeID s :
  names_unique s → ∃ s', RevalidateNode nodeID s = (Ok tt, s') ∧ same_names s s' ∧
    ∀ id, fabrics s' !! id = refresh s nodeID id <$> fabrics s !! id.
Proof.
  intros Hu. unfold RevalidateNode. unfold_st.
  assert (∀ id r, (id, r) ∈ ListFabrics s ↔ fabrics s !! id = Some r) as Hin.
  { intros id r. unfold ListFabrics. by rewrite merge_sort_Permutation, elem_of_map_to_list. }
  destruct (revalidate_loop s s nodeID (ListFabrics s)) as (s' & E & Hs & H1 & H2); [done|done| | |].
  - unfold ListFabrics. rewrite merge_sort_Permutation. apply NoDup_fst_map_to_list.
  - intros id r H%Hin. done.
  - exists s'. split_and!; [done|done|]. intros id. destruct (fabrics s !! id) as [r|] eqn:Er; simpl.
    + by apply H1, Hin.
    + rewrite H2; [done|]. intros ([i r] & -> & H%Hin)%list_elem_of_fmap. simpl in *. congruence.
Qed.

(** Every stored state is what [Validate] says now *)
Definition fresh (s : Store) : Prop :=
  ∀ id r, fabrics s !! id = Some r → Validate id (request_of r) s = (fb_state r, fb_diagnostics r).

(** When a node's row changes and [RevalidateNode] runs, the stored state and findings of every
    fabric are again what [Validate] says, although only the fabrics of that node are touched. *)
Theorem RevalidateNode_fresh nodeID row s :
  store_ok s → fresh s →
  let s1 := mkStore (fabrics s) (<[nodeID := row]> (nodes s)) (deployments s) (published s) in
  ∃ s2, RevalidateNode nodeID s1 = (Ok tt, s2) ∧ fresh s2 ∧ store_ok s2 ∧
    ∀ id r, fabrics s !! id = Some r → nodeID ∉ fb_members r → fabrics s2 !! id = Some r.
Proof.
  intros [Hd Hu] Hf s1. assert (names_unique s1) as Hu1 by exact Hu.
  destruct (RevalidateNode_rows nodeID s1 Hu1) as (s2 & E & Hs & Hrows). exists s2. split; [done|].
  assert (names_unique s2) as Hu2 by by eapply same_names_unique.
  split_and!.
  - intros id r2 H2. rewrite Hrows in H2. destruct (fabrics s1 !! id) as [r|] eqn:Er; [|done]. simpl in H2.
    assert (Some r2 = Some (refresh s1 nodeID id r)) as [= ->] by (by symmetry).
    assert (request_of (refresh s1 nodeID id r) = request_of r) as -> by (unfold refresh; by case_bool_decide).
    destruct (same_names_row s1 s2 id r Hs Er) as (x & Ex & Nx).
    unfold refresh. case_bool_decide as Em; simpl.
    + rewrite <- surjective_pairing. apply Validate_stored; [done|done|by exists x|by exists r|]. intros m _. by destruct Hs as [_ -> _].
    + rewrite <- (Hf id r Er). apply Validate_stored; [done|done|by exists x|by exists r|]. intros m Hm.
      destruct Hs as [_ -> _]. simpl. rewrite lookup_insert_ne; [done|]. by intros <-.
  - split; [|done].
    intros id r2 H2. rewrite Hrows in H2. destruct (fabrics s1 !! id) as [r|] eqn:Er; [|done]. simpl in H2. simplify_eq.
    unfold refresh. case_bool_decide; by apply (Hd id r).
  - intros id r Hr Hm. rewrite Hrows. change (fabrics s1) with (fabrics s). rewrite Hr. simpl. unfold refresh.
    by rewrite bool_decide_eq_false_2.
Qed.

(** ** Updates *)

(** [Update] undisturbed writes only over the version the caller names: it succeeds exactly when
    the row has that version and that name and the definition is accepted, then the row has the new
    definition, version and validated state and keeps its name, and no other row changes; otherwise
    nothing changes. *)
Theorem Update_spec ver fid ifMatch req s :
  let ok := ifMatch ≠ "" ∧ (∃ cur, fabrics s !! fid = Some cur ∧ fb_version cur = ifMatch ∧ fb_name cur = rq_name req) ∧
            accepted fid req s in
  (ok → let r := mkFabric (rq_name req) (rq_transport req) (rq_members req) (rq_bindings req)
                   (fst (Validate fid req s)) (snd (Validate fid req s)) ver in
        fst (Update ver fid ifMatch req s) = Ok r ∧ fabrics (snd (Update ver fid ifMatch req s)) = <[fid := r]> (fabrics s)) ∧
  (¬ ok → is_ok (fst (Update ver fid ifMatch req s)) = false ∧ snd (Update ver fid ifMatch req s) = s).
Proof.
  intros ok. unfold Update, mbind, ST_bind.
  assert (snd (update_check fid ifMatch req s) = s) as Hsnd.
  { unfold update_check, GetFabricByIfMatch. unfold_st. repeat (case_match; simplify_eq/=; try done). }
  destruct (update_check fid ifMatch req s) as [[[state ds]|e] s'] eqn:E; simpl in Hsnd; subst s'.
  - pose proof (update_check_spec fid ifMatch req s state ds) as Hc. rewrite E in Hc. specialize (Hc eq_refl).
    destruct Hc as (H1 & (cur & H2 & H3 & H4) & H5 & H6). rewrite H6. split.
    + intros _. unfold update_write, UpdateFabric, mbind, ST_bind. destruct H5 as (_ & _ & Ht & _).
      rewrite bool_decide_eq_true_2 by done. cbn [negb]. unfold_st. simpl. unfold Get, GetFabric. unfold_st. simpl. rewrite lookup_alter_eq, H2. simpl.
      unfold rewrite_row at 1. rewrite bool_decide_eq_true_2, H4 by done. split; [done|].
      apply map_eq. intros k. rewrite lookup_insert. case_decide; [subst k|by rewrite lookup_alter_ne].
      rewrite lookup_alter_eq, H2. simpl. unfold rewrite_row. by rewrite bool_decide_eq_true_2, H4.
    + intros Hn. destruct Hn. split; [done|]. split; [by exists cur|done].
  - split; [|done]. intros (H1 & (cur & H2 & H3 & H4) & H5). exfalso. unfold update_check, GetFabricByIfMatch in E.
    unfold mbind, ST_bind, get in E. simpl in E. rewrite bool_decide_eq_false_2, H2 in E by done. simpl in E.
    rewrite !bool_decide_eq_true_2 in E by done. simpl in E. apply Validate_spec in H5.
    destruct (Validate fid req s) as [st d]. simpl in *. by rewrite H5 in E.
Qed.

(** ** Witnesses *)

Definition sample_inventory : Inventory := mkInventory [] [mkInterface "eth0" ["10.0.0.1"]] [] [] "" [] "" "" "".
Definition sample_nodes : gmap string NodeRow :=
  {[ "a" := mkNode "online" (Reported sample_inventory); "b" := mkNode "online" (Reported sample_inventory) ]}.
Definition sample_request : CreateRequest :=
  mkRequest "pair" "tcp" ["a"; "b"] [mkBinding "a" "eth0" "10.0.0.1" "" None; mkBinding "b" "eth0" "10.0.0.1" "" None].
Definition sample_fabric (state version : string) (ds : list Diagnostic) : FabricRow :=
  mkFabric "pair" "tcp" ["a"; "b"] (rq_bindings sample_request) state ds version.
Definition sample_store : Store := mkStore {[ "f" := sample_fabric "ok" "v1" [] ]} sample_nodes [] [].

(** Two updates that read the same version: the second writes nothing and still reports success. *)
Theorem update_lost :
  let req := mkRequest "pair" "tcp" ["b"; "a"] [mkBinding "b" "eth0" "10.0.0.1" "" None; mkBinding "a" "eth0" "10.0.0.1" "" None] in
  let '(c1, s1) := update_check "f" "v1" sample_request sample_store in
  let '(c2, s2) := update_check "f" "v1" req s1 in
  c1 = Ok ("ok", []) ∧ c2 = Ok ("ok", []) ∧
  let '(r1, s3) := update_write "v2" "f" "v1" sample_request "ok" [] s2 in
  let '(r2, s4) := update_write "v3" "f" "v1" req "ok" [] s3 in
  r1 = Ok (sample_fabric "ok" "v2" []) ∧ r2 = r1 ∧ fabrics s4 = fabrics s3.
Proof. vm_compute. done. Qed.

Lemma fabrics_well_formed_witness :
  store_ok (snd (CreateFabric "f" sample_request "v1" (mkStore ∅ sample_nodes [] []))).
Proof.
  apply (fabrics_well_formed sample_nodes []). apply rtc_once.
  apply (st_create "f" "v1" sample_request _ (mkStore ∅ sample_nodes [] [])). vm_compute. reflexivity.
Defined.

Lemma sample_store_ok : store_ok sample_store ∧ fresh sample_store.
Proof.
  assert (∀ id r, fabrics sample_store !! id = Some r → id = "f" ∧ r = sample_fabric "ok" "v1" []) as H.
  { intros id r Hr. change (({[ "f" := sample_fabric "ok" "v1" [] ]} : gmap string FabricRow) !! id = Some r) in Hr.
    apply lookup_singleton_Some in Hr. naive_solver. }
  split; [split|].
  - intros id r [_ ->]%H. unfold definition_ok, name_ok. split_and!; try done; [by right|].
    apply (bool_decide_unpack _). vm_compute. done.
  - intros id id' r r' [-> _]%H [-> _]%H. done.
  - intros id r [-> ->]%H. vm_compute. reflexivity.
Defined.

Lemma RevalidateNode_fresh_witness :
  ∃ s2, RevalidateNode "a" (mkStore (fabrics sample_store) (<["a" := mkNode "pending" NoInventory]> sample_nodes) [] []) = (Ok tt, s2)
    ∧ fresh s2 ∧ store_ok s2
    ∧ ∀ id r, fabrics sample_store !! id = Some r → "a" ∉ fb_members r → fabrics s2 !! id = Some r.
Proof.
  exact (RevalidateNode_fresh "a" (mkNode "pending" NoInventory) sample_store (proj1 sample_store_ok) (proj2 sample_store_ok)).
Defined.
