(* ===== verification/UpstreamEnv.v ===== *)
(** * Overrides of an upstream [.env] file: [internal/runtime/upstream_env.go]

    A launch writes its environment overrides into the upstream program's own [.env] file and records,
    per key, the lines it replaced and the lines it wrote.  The next launch first restores what was
    recorded, so an override that is left out falls back to upstream's own line.  The recorded state is
    an argument ([None] when its file does not exist); reading and writing files is not modelled. *)

From S2P Require Import Prelude GoStrings Utf8 Spaces ShellQuote.

(** ** Data *)

Record upstreamEnvAssignment := mkAssignment { as_original : list string; as_applied : list string }.

#[export] Instance upstreamEnvAssignment_eq_dec : EqDecision upstreamEnvAssignment.
Proof. solve_decision. Defined.

Record upstreamEnvState := mkState { us_path : string; us_assignments : gmap string upstreamEnvAssignment }.

Inductive env_error := ErrPathChanged | ErrDrift (key : string).

Definition equals : ascii := "="%char.

Definition upstreamAssignmentKey (line : string) : string :=
  let candidate := TrimSpace (trim_prefix "export " (TrimSpace line)) in
  let '(name, _, ok) := cut equals candidate in
  if ok : bool then TrimSpace name else "".

(** ** [renderUpstreamEnv] *)

(** The loop that rebuilds the lines of one tracked key *)
Fixpoint restore_lines (key : string) (original : list string) (inserted : bool) (lines : list string)
    : list string * bool :=
  match lines with
  | [] => ([], inserted)
  | line :: lines =>
      if bool_decide (upstreamAssignmentKey line = key) then
        let '(rest, ins) := restore_lines key original true lines in
        (if inserted then rest else original ++ rest, ins)
      else
        let '(rest, ins) := restore_lines key original inserted lines in (line :: rest, ins)
  end.

Definition restore_key (key : string) (a : upstreamEnvAssignment) (lines : list string)
    : result env_error (list string) :=
  let actual := filter (λ line, upstreamAssignmentKey line = key) lines in
  if negb (bool_decide (actual = as_applied a)) then Err (ErrDrift key)
  else
    let '(restored, inserted) := restore_lines key (as_original a) false lines in
    Ok (if inserted : bool then restored else restored ++ as_original a).

Fixpoint restore_all (assignments : gmap string upstreamEnvAssignment) (keys lines : list string)
    : result env_error (list string) :=
  match keys with
  | [] => Ok lines
  | key :: keys =>
      lines ← restore_key key (default (mkAssignment [] []) (assignments !! key)) lines;
      restore_all assignments keys lines
  end.

(** The line an override is written as *)
Definition assignment_line (literal : bool) (key value : string) : string :=
  if literal then key +:+ String equals value
  else key +:+ String equals ("'" +:+ replace_byte squote quoted_quote value +:+ "'").

Definition override_key (literal : bool) (override : string) : string * string :=
  let '(key, value, _) := cut equals override in (key, assignment_line literal key value).

(** One override: replace the key's lines, or append one *)
Definition apply_override (key assignment : string) (lines : list string) : list string * upstreamEnvAssignment :=
  let original := filter (λ line, upstreamAssignmentKey line = key) lines in
  let replaced := (λ line, if bool_decide (upstreamAssignmentKey line = key) then assignment else line) <$> lines in
  if bool_decide (original = []) then (lines ++ [assignment], mkAssignment [] [assignment])
  else (replaced, mkAssignment original ((λ _, assignment) <$> original)).

Fixpoint apply_overrides (literal : bool) (env : list string) (lines : list string)
    (assignments : gmap string upstreamEnvAssignment) : list string * gmap string upstreamEnvAssignment :=
  match env with
  | [] => (lines, assignments)
  | override :: env =>
      let '(key, assignment) := override_key literal override in
      let '(lines, state) := apply_override key assignment lines in
      apply_overrides literal env lines (<[key := state]> assignments)
  end.

Definition renderUpstreamEnv (envFile : string) (literal : bool) (env : list string) (lines : list string)
    (previous : option upstreamEnvState) : result env_error (list string * upstreamEnvState) :=
  let previous := default (mkState "" ∅) previous in
  if negb (bool_decide (us_path previous = "")) && negb (bool_decide (us_path previous = envFile))
  then Err ErrPathChanged
  else
    let keys := sort_strings (map_to_list (us_assignments previous)).*1 in
    lines ← restore_all (us_assignments previous) keys lines;
    let '(lines, assignments) := apply_overrides literal env lines ∅ in
    Ok (lines, mkState envFile assignments).

(** ** [recordUpstreamEnv] *)

(** The tracked lines of the file as the program left it; [None] when nothing is to be written *)
Definition recordUpstreamEnv (envFile data : string) (state : option upstreamEnvState)
    : result env_error (option upstreamEnvState) :=
  if bool_decide (envFile = "") then Ok None
  else match state with
       | None => Ok None
       | Some state =>
           if bool_decide (us_assignments state = ∅) then Ok None
           else if negb (bool_decide (us_path state = envFile)) then Err ErrPathChanged
           else
             let lines := split_byte newline (trim_suffix (String newline "") data) in
             let actual key := filter (λ line, upstreamAssignmentKey line = key) lines in
             let next := map_imap (λ key a, Some (mkAssignment (as_original a) (actual key))) (us_assignments state) in
             if bool_decide (next = us_assignments state) then Ok None else Ok (Some (mkState (us_path state) next))
       end.

(** ** The lines of a key *)

Notation lines_of key lines := (filter (λ line, upstreamAssignmentKey line = key) lines).

(** A class of lines that has none of [key] *)
Definition avoids (P : string → Prop) (key : string) : Prop := ∀ line, upstreamAssignmentKey line = key → ¬ P line.

Definition keyed (key : string) (lines : list string) : Prop := Forall (λ line, upstreamAssignmentKey line = key) lines.

Section filters.
Context (P : string → Prop) `{!∀ line, Decision (P line)} (key : string) (Havoid : avoids P key).

Lemma filter_keyed lines : keyed key lines → filter P lines = [].
Proof. induction 1 as [|line lines Hl _ IH]; [done|]. rewrite filter_cons_False by by apply Havoid. done. Qed.

Lemma restore_lines_filter original inserted lines :
  keyed key original → filter P (fst (restore_lines key original inserted lines)) = filter P lines.
Proof.
  intros Ho. revert inserted. induction lines as [|line lines IH]; intros inserted; [done|]. cbn [restore_lines].
  case_bool_decide as E.
  - specialize (IH true). destruct (restore_lines key original true lines) as [rest ins]. simpl in IH.
    rewrite (filter_cons_False P line) by by apply Havoid. destruct inserted; simpl; [done|].
    by rewrite filter_app, filter_keyed.
  - specialize (IH inserted). destruct (restore_lines key original inserted lines) as [rest ins]. simpl in *.
    rewrite !filter_cons. by rewrite IH.
Qed.

Lemma apply_override_filter assignment lines :
  upstreamAssignmentKey assignment = key → filter P (fst (apply_override key assignment lines)) = filter P lines.
Proof.
  intros Ha. unfold apply_override. case_bool_decide; simpl.
  - rewrite filter_app, (filter_keyed [assignment]), app_nil_r; [done|]. by repeat constructor.
  - match goal with H : filter _ _ ≠ [] |- _ => clear H end. induction lines as [|line lines IH]; [done|]. rewrite fmap_cons. case_bool_decide as E.
    + rewrite !filter_cons_False by by apply Havoid. done.
    + rewrite !filter_cons. by rewrite IH.
Qed.
End filters.

Lemma filter_keyed_all key lines : keyed key lines → lines_of key lines = lines.
Proof. induction 1 as [|line lines Hl _ IH]; [done|]. rewrite filter_cons_True by done. by rewrite IH. Qed.

Lemma lines_of_keyed key lines : keyed key (lines_of key lines).
Proof. apply Forall_forall. intros x [? _]%list_elem_of_filter. done. Qed.

Lemma restore_lines_key key original inserted lines :
  keyed key original →
  lines_of key (fst (restore_lines key original inserted lines)) =
    (if inserted then [] else if bool_decide (lines_of key lines = []) then [] else original) ∧
  snd (restore_lines key original inserted lines) = inserted || negb (bool_decide (lines_of key lines = [])).
Proof.
  intros Ho. revert inserted. induction lines as [|line lines IH]; intros inserted; [by destruct inserted|]. cbn [restore_lines].
  destruct (bool_decide (upstreamAssignmentKey line = key)) eqn:E;
    [apply bool_decide_eq_true in E|apply bool_decide_eq_false in E].
  - rewrite (filter_cons_True _ line) by done. specialize (IH true). destruct (restore_lines key original true lines) as [rest ins].
    simpl in *. destruct IH as [IH1 IH2]. destruct inserted; simpl; [done|]. rewrite filter_app, IH1, app_nil_r, filter_keyed_all by done. done.
  - rewrite (filter_cons_False _ line) by done. specialize (IH inserted).
    destruct (restore_lines key original inserted lines) as [rest ins]. simpl in *. by rewrite filter_cons_False.
Qed.

(** ** Restoring *)

Lemma restore_key_ok key a lines lines' :
  keyed key (as_original a) → restore_key key a lines = Ok lines' →
  lines_of key lines = as_applied a ∧ lines_of key lines' = as_original a ∧
  ∀ (P : string → Prop) `{!∀ line, Decision (P line)}, avoids P key → filter P lines' = filter P lines.
Proof.
  intros Ho. unfold restore_key. case_bool_decide as Ea; [|done]. cbn [negb].
  pose proof (restore_lines_key key (as_original a) false lines Ho) as [Hk Hi].
  pose proof (λ P H Hav, restore_lines_filter P (H := H) key Hav (as_original a) false lines Ho) as Hf.
  destruct (restore_lines key (as_original a) false lines) as [restored inserted]. simpl in *.
  intros [= <-]. split; [done|]. rewrite Hi. case_bool_decide as El; simpl in *.
  - rewrite filter_app, Hk, filter_keyed_all by done. split; [done|]. intros P ? Hav.
    rewrite filter_app, (filter_keyed P key Hav (as_original a)), app_nil_r by done. by apply Hf.
  - split; [done|]. intros P ? Hav. by apply Hf.
Qed.

Definition state_ok (assignments : gmap string upstreamEnvAssignment) : Prop :=
  ∀ key a, assignments !! key = Some a → keyed key (as_original a).

Lemma state_ok_default assignments key :
  state_ok assignments → keyed key (as_original (default (mkAssignment [] []) (assignments !! key))).
Proof. intros H. destruct (assignments !! key) as [a|] eqn:E; [by apply H|constructor]. Qed.

Lemma avoids_other key key' : key ≠ key' → avoids (λ line, upstreamAssignmentKey line = key) key'.
Proof. intros Hne line E E'. congruence. Qed.

(** The recorded assignment of a key *)
Definition tracked (assignments : gmap string upstreamEnvAssignment) (key : string) : upstreamEnvAssignment :=
  default (mkAssignment [] []) (assignments !! key).

Lemma restore_all_ok assignments keys lines lines' :
  state_ok assignments → NoDup keys → restore_all assignments keys lines = Ok lines' →
  (∀ key, key ∈ keys → lines_of key lines = as_applied (tracked assignments key)) ∧
  (∀ key, key ∈ keys → lines_of key lines' = as_original (tracked assignments key)) ∧
  ∀ (P : string → Prop) `{!∀ line, Decision (P line)},
    (∀ key, key ∈ keys → avoids P key) → filter P lines' = filter P lines.
Proof.
  intros Hs. revert lines. induction keys as [|key keys IH]; intros lines Hnd H; cbn [restore_all] in H.
  - simplify_eq. split_and!; [set_solver|set_solver|done].
  - apply NoDup_cons in Hnd as [Hni Hnd]. fold (tracked assignments key) in H.
    destruct (restore_key key (tracked assignments key) lines) as [l1|e] eqn:E1; [|done]. cbn [mbind result_bind] in H.
    destruct (restore_key_ok _ _ _ _ (state_ok_default assignments key Hs) E1) as (Ha & Ho & HP).
    destruct (IH l1 Hnd H) as (I1 & I2 & I3).
    assert (∀ k, k ∈ keys → avoids (λ line, upstreamAssignmentKey line = k) key) as Hav1.
    { intros k Hk. apply avoids_other. by intros ->. }
    split_and!.
    + intros k [->|Hk]%elem_of_cons; [done|]. rewrite <- I1 by done. symmetry. by apply HP, Hav1.
    + intros k [->|Hk]%elem_of_cons; [|by apply I2]. rewrite I3; [done|]. intros k' Hk'. apply avoids_other. by intros ->.
    + intros P ? Hav. rewrite I3 by (intros; apply Hav; set_solver). apply HP, Hav. set_solver.
Qed.

Lemma restore_all_succeeds assignments keys lines :
  state_ok assignments → NoDup keys → (∀ key, key ∈ keys → lines_of key lines = as_applied (tracked assignments key)) →
  ∃ lines', restore_all assignments keys lines = Ok lines'.
Proof.
  intros Hs. revert lines. induction keys as [|key keys IH]; intros lines Hnd Hall; cbn [restore_all]; [by exists lines|].
  apply NoDup_cons in Hnd as [Hni Hnd]. fold (tracked assignments key).
  destruct (restore_key key (tracked assignments key) lines) as [l1|e] eqn:E1.
  - destruct (restore_key_ok _ _ _ _ (state_ok_default assignments key Hs) E1) as (_ & _ & HP). cbn [mbind result_bind].
    apply IH; [done|]. intros k Hk. rewrite HP; [apply Hall; set_solver|]. apply avoids_other. by intros ->.
  - unfold restore_key in E1. rewrite (Hall key), bool_decide_eq_true_2 in E1 by set_solver. cbn [negb] in E1.
    by destruct (restore_lines _ _ _ _).
Qed.

(** ** Overriding *)

(** Overrides the program recognises as assignments of their own keys *)
Definition recognised (literal : bool) (env : list string) : Prop :=
  NoDup (fst ∘ override_key literal <$> env) ∧
  Forall (λ o, upstreamAssignmentKey (snd (override_key literal o)) = fst (override_key literal o)) env.

Lemma apply_override_key key assignment lines :
  upstreamAssignmentKey assignment = key →
  let '(lines', a) := apply_override key assignment lines in
  as_original a = lines_of key lines ∧ as_applied a = lines_of key lines' ∧
  ∃ n, as_applied a = replicate (S n) assignment.
Proof.
  intros Ha. unfold apply_override. case_bool_decide as E; cbn [as_original as_applied].
  - split_and!; [done| |by exists 0%nat]. by rewrite filter_app, E, filter_cons_True.
  - assert (((λ _ : string, assignment) <$> lines_of key lines) =
      lines_of key ((λ line, if bool_decide (upstreamAssignmentKey line = key) then assignment else line) <$> lines)) as Eq.
    { clear E. induction lines as [|line lines IH]; [done|]. rewrite fmap_cons. case_bool_decide as El.
      - rewrite (filter_cons_True _ line), filter_cons_True, fmap_cons by done. by rewrite IH.
      - rewrite !filter_cons_False by done. done. }
    split_and!; [done|done|]. destruct (lines_of key lines) as [|x xs]; [done|]. exists (length xs). simpl. f_equal.
    clear. induction xs as [|x xs IH]; simpl; [done|by f_equal].
Qed.

Lemma apply_overrides_spec literal env lines assignments lines' assignments' :
  recognised literal env → apply_overrides literal env lines assignments = (lines', assignments') →
  (∀ o, o ∈ env → let '(key, line) := override_key literal o in
     ∃ a n, assignments' !! key = Some a ∧ as_original a = lines_of key lines ∧
       as_applied a = lines_of key lines' ∧ as_applied a = replicate (S n) line) ∧
  (∀ key, key ∉ (fst ∘ override_key literal <$> env) → assignments' !! key = assignments !! key) ∧
  ∀ (P : string → Prop) `{!∀ line, Decision (P line)},
    (∀ key, key ∈ (fst ∘ override_key literal <$> env) → avoids P key) → filter P lines' = filter P lines.
Proof.
  unfold recognised. revert lines assignments. induction env as [|o env IH]; intros lines assignments [Hnd Hr] H; cbn [apply_overrides] in H.
  - simplify_eq. split_and!; [set_solver|done|done].
  - rewrite fmap_cons in Hnd. apply NoDup_cons in Hnd as [Hni Hnd]. inversion_clear Hr as [|? ? Ho Hr'].
    unfold Basics.compose in Hni. simpl in Hni. destruct (override_key literal o) as [key line] eqn:Eo. cbn [fst snd] in *.
    pose proof (apply_override_key key line lines Ho) as Hk.
    pose proof (λ P H Hav, apply_override_filter P (H := H) key Hav line lines Ho) as HP.
    destruct (apply_override key line lines) as [l1 a]. cbn [fst] in HP. destruct Hk as (K1 & K2 & n & K3).
    destruct (IH l1 _ (conj Hnd Hr') H) as (I1 & I2 & I3). split_and!.
    + intros o' [->|Ho']%elem_of_cons.
      * rewrite Eo. exists a, n. rewrite I2 by done. rewrite lookup_insert_eq. split_and!; [done|done| |done].
        rewrite K2. symmetry. apply I3. intros k Hk'. apply avoids_other. by intros ->.
      * specialize (I1 o' Ho'). destruct (override_key literal o') as [k' line'] eqn:Eo'.
        destruct I1 as (a' & n' & J1 & J2 & J3 & J4). exists a', n'. split_and!; [done| |done|done]. rewrite J2. apply HP.
        apply avoids_other. intros ->. apply Hni. apply list_elem_of_fmap. exists o'. unfold Basics.compose. by rewrite Eo'.
    + intros k Hk. rewrite fmap_cons, not_elem_of_cons in Hk. unfold Basics.compose in Hk. simpl in Hk. rewrite Eo in Hk. simpl in Hk.
      rewrite I2 by tauto. rewrite lookup_insert_ne; [done|]. intros ->. tauto.
    + intros P ? Hav. rewrite I3; [apply HP, Hav|]; [|intros k Hk; apply Hav]; rewrite fmap_cons, elem_of_cons; unfold Basics.compose; simpl; rewrite ?Eo; auto.
Qed.

(** ** Names the program recognises *)

(** A text that starts with printable bytes up to an equals sign starts with no word that has a space
    before any equals sign *)
Lemma no_spaced_prefix key v w :
  sforallb plain key = true → contains_byte " " w = true → contains_byte equals w = false →
  has_prefix w (key +:+ String equals v) = false.
Proof.
  intros Hp. revert w. induction key as [|a key IH]; intros w Hw He; (destruct w as [|b w]; [done|]); simpl in *.
  - apply orb_false_iff in He as [He _]. apply bool_decide_eq_false in He. by rewrite bool_decide_eq_false_2.
  - apply andb_prop in Hp as [Ha Hp]. apply orb_false_iff in He as [_ He]. apply orb_true_iff in Hw as [Hw|Hw].
    + apply bool_decide_eq_true in Hw as ->. rewrite bool_decide_eq_false_2; [done|]. by intros <-.
    + rewrite IH by done. by rewrite andb_false_r.
Qed.

(** A key of printable ASCII bytes without an equals sign is read back from the line written for it *)
Lemma assignment_line_key literal key value :
  key ≠ "" → sforallb plain key = true → contains_byte equals key = false →
  upstreamAssignmentKey (assignment_line literal key value) = key.
Proof.
  intros Hne Hp Hc. assert (∃ v, assignment_line literal key value = key +:+ String equals v) as [v ->].
  { unfold assignment_line. destruct literal; eauto. }
  assert (∀ u, ∃ u', TrimSpace (key +:+ String equals u) = key +:+ String equals u') as Htrim.
  { intros u. destruct (TrimSpace_prefix (key +:+ String equals "") u) as [u' Hu].
    - by destruct key.
    - rewrite sforallb_app, Hp. done.
    - rewrite !sapp_assoc in Hu. simpl in Hu. eauto. }
  unfold upstreamAssignmentKey. destruct (Htrim v) as [v1 ->].
  assert (trim_prefix "export " (key +:+ String equals v1) = key +:+ String equals v1) as ->.
  { unfold trim_prefix. by rewrite no_spaced_prefix. }
  destruct (Htrim v1) as [v2 ->]. rewrite cut_app by done. by apply TrimSpace_plain.
Qed.

(** ** The theorems *)

Lemma tracked_keys (assignments : gmap string upstreamEnvAssignment) :
  NoDup (sort_strings (map_to_list assignments).*1) ∧
  ∀ key, key ∈ sort_strings (map_to_list assignments).*1 ↔ is_Some (assignments !! key).
Proof.
  split; [rewrite sort_strings_perm; apply NoDup_fst_map_to_list|]. intros key.
  rewrite elem_of_sort_strings, list_elem_of_fmap. split.
  - intros ([k a] & -> & H%elem_of_map_to_list). by exists a.
  - intros [a Ha]. exists (key, a). by rewrite elem_of_map_to_list.
Qed.

Definition recorded (previous : option upstreamEnvState) : gmap string upstreamEnvAssignment :=
  us_assignments (default (mkState "" ∅) previous).

Definition path_ok (envFile : string) (previous : option upstreamEnvState) : Prop :=
  us_path (default (mkState "" ∅) previous) = "" ∨ us_path (default (mkState "" ∅) previous) = envFile.

Lemma renderUpstreamEnv_ok envFile literal env lines previous :
  path_ok envFile previous →
  renderUpstreamEnv envFile literal env lines previous =
    (base ← restore_all (recorded previous) (sort_strings (map_to_list (recorded previous)).*1) lines;
     Ok (fst (apply_overrides literal env base ∅), mkState envFile (snd (apply_overrides literal env base ∅)))).
Proof.
  intros Hp. unfold renderUpstreamEnv.
  assert (negb (bool_decide (us_path (default (mkState "" ∅) previous) = ""))
          && negb (bool_decide (us_path (default (mkState "" ∅) previous) = envFile)) = false) as ->.
  { apply andb_false_iff. rewrite !negb_false_iff, !bool_decide_eq_true. done. }
  unfold recorded. destruct (restore_all _ _ lines) as [base|]; [|done]. cbn. by destruct (apply_overrides literal env base ∅).
Qed.

(** A launch never overwrites upstream's own changes: rendering succeeds exactly when the state
    was recorded for this file and the lines of every recorded key are still the ones that were
    written. *)
Theorem env_drift envFile literal env lines previous :
  state_ok (recorded previous) →
  is_ok (renderUpstreamEnv envFile literal env lines previous) = true ↔
  path_ok envFile previous ∧ ∀ key a, recorded previous !! key = Some a → lines_of key lines = as_applied a.
Proof.
  intros Hs. destruct (tracked_keys (recorded previous)) as [Hnd Hk].
  destruct (decide (us_path (default (mkState "" ∅) previous) = "" ∨ us_path (default (mkState "" ∅) previous) = envFile)) as [Hp|Hp].
  - rewrite renderUpstreamEnv_ok by done. split.
    + destruct (restore_all _ _ _) as [base|] eqn:E; [|done]. intros _. split; [done|]. intros key a Ha.
      destruct (restore_all_ok _ _ _ _ Hs Hnd E) as (H1 & _ & _). rewrite H1 by (apply Hk; eauto).
      unfold tracked. by rewrite Ha.
    + intros [_ H]. destruct (restore_all_succeeds (recorded previous) _ lines Hs Hnd) as [base ->]; [|done].
      intros key [a Ha]%Hk. unfold tracked. rewrite Ha. by apply H.
  - split; [|tauto]. unfold renderUpstreamEnv. rewrite !bool_decide_eq_false_2 by tauto. done.
Qed.

Lemma render_applied envFile literal env lines previous lines' next :
  recognised literal env → renderUpstreamEnv envFile literal env lines previous = Ok (lines', next) →
  ∃ base, renderUpstreamEnv envFile literal [] lines previous = Ok (base, mkState envFile ∅) ∧
    us_path next = envFile ∧ state_ok (us_assignments next) ∧
    (∀ o, o ∈ env → let '(key, line) := override_key literal o in
       ∃ a n, us_assignments next !! key = Some a ∧ as_original a = lines_of key base ∧
         as_applied a = lines_of key lines' ∧ as_applied a = replicate (S n) line) ∧
    (∀ key, key ∉ (fst ∘ override_key literal <$> env) → us_assignments next !! key = None) ∧
    filter (λ line, upstreamAssignmentKey line ∉ (fst ∘ override_key literal <$> env)) lines' =
    filter (λ line, upstreamAssignmentKey line ∉ (fst ∘ override_key literal <$> env)) base.
Proof.
  intros Hr H. assert (path_ok envFile previous) as Hp.
  { unfold path_ok. destruct (decide (us_path (default (mkState "" ∅) previous) = "" ∨ us_path (default (mkState "" ∅) previous) = envFile)); [done|].
    unfold renderUpstreamEnv in H. rewrite !bool_decide_eq_false_2 in H by tauto. done. }
  rewrite renderUpstreamEnv_ok in H by done. setoid_rewrite renderUpstreamEnv_ok; [|done..].
  destruct (restore_all _ _ lines) as [base|]; [|done]. cbn [mbind result_bind] in *. exists base.
  destruct (apply_overrides literal env base ∅) as [l n] eqn:E. simplify_eq/=.
  destruct (apply_overrides_spec _ _ _ _ _ _ Hr E) as (H1 & H2 & H3). split_and!; [done|done| |done| |].
  - intros key a Ha. destruct (decide (key ∈ (fst ∘ override_key literal <$> env))) as [Hin|Hni].
    + apply list_elem_of_fmap in Hin as (o & -> & Ho). specialize (H1 o Ho). unfold Basics.compose in *.
      destruct (override_key literal o) as [key line]. destruct H1 as (a' & ? & Ha' & Ho' & _). simpl in *. simplify_eq.
      rewrite Ho'. apply lines_of_keyed.
    + rewrite H2, lookup_empty in Ha by done. done.
  - intros key Hni. by rewrite H2, lookup_empty.
  - apply H3. intros key Hin line <-. by intros Hn.
Qed.

(** After a launch every overridden key has only the lines written for it, at least one, the
    record holds what they replaced and what was written, and every other line is as the restored file
    had it, in order. *)
Theorem env_applies envFile literal env lines previous lines' next :
  recognised literal env → renderUpstreamEnv envFile literal env lines previous = Ok (lines', next) →
  ∃ base, renderUpstreamEnv envFile literal [] lines previous = Ok (base, mkState envFile ∅) ∧
    us_path next = envFile ∧ state_ok (us_assignments next) ∧
    (∀ o, o ∈ env → let '(key, line) := override_key literal o in
       ∃ a n, us_assignments next !! key = Some a ∧ as_original a = lines_of key base ∧
         as_applied a = lines_of key lines' ∧ as_applied a = replicate (S n) line) ∧
    (∀ key, key ∉ (fst ∘ override_key literal <$> env) → us_assignments next !! key = None) ∧
    filter (λ line, upstreamAssignmentKey line ∉ (fst ∘ override_key literal <$> env)) lines' =
    filter (λ line, upstreamAssignmentKey line ∉ (fst ∘ override_key literal <$> env)) base.
Proof. apply render_applied. Qed.

Lemma count_occ_lines x lines :
  count_occ String.string_dec lines x = count_occ String.string_dec (lines_of (upstreamAssignmentKey x) lines) x.
Proof.
  induction lines as [|line lines IH]; [done|]. rewrite filter_cons. simpl. destruct (String.string_dec line x) as [->|Hne].
  - rewrite decide_True by done. simpl. destruct (String.string_dec x x); [|done]. by rewrite IH.
  - case_decide; [|done]. simpl. by destruct (String.string_dec line x).
Qed.

(** Texts with the same lines of every key are permutations of one another *)
Lemma same_lines_perm a b : (∀ key, lines_of key a = lines_of key b) → a ≡ₚ b.
Proof.
  intros H. apply (Permutation_count_occ String.string_dec). intros x. by rewrite count_occ_lines, H, <- count_occ_lines.
Qed.

(** Leaving the overrides out again restores the file: a launch without overrides after a launch
    with them finds no drift and yields the lines that it would have yielded before, the lines of every
    key in the same order and the lines of the other keys in place; a key with several lines may have
    them moved together. *)
Theorem env_restores envFile literal env lines previous lines' next :
  recognised literal env → renderUpstreamEnv envFile literal env lines previous = Ok (lines', next) →
  ∃ base base', renderUpstreamEnv envFile literal [] lines previous = Ok (base, mkState envFile ∅) ∧
    renderUpstreamEnv envFile literal [] lines' (Some next) = Ok (base', mkState envFile ∅) ∧
    base' ≡ₚ base ∧ (∀ key, lines_of key base' = lines_of key base) ∧
    filter (λ line, upstreamAssignmentKey line ∉ (fst ∘ override_key literal <$> env)) base' =
    filter (λ line, upstreamAssignmentKey line ∉ (fst ∘ override_key literal <$> env)) base.
Proof.
  intros Hr H. destruct (render_applied _ _ _ _ _ _ _ Hr H) as (base & Hb & Hpath & Hok & Hset & Hnone & Hother).
  destruct (tracked_keys (us_assignments next)) as [Hnd Hk].
  set (keys := (fst ∘ override_key literal <$> env)) in *.
  assert (∀ key a, us_assignments next !! key = Some a → lines_of key lines' = as_applied a ∧ as_original a = lines_of key base) as Happ.
  { intros key a Ha. destruct (decide (key ∈ keys)) as [Hin|Hni]; [|rewrite Hnone in Ha by done; done].
    apply list_elem_of_fmap in Hin as (o & -> & Ho). specialize (Hset o Ho). unfold Basics.compose in *.
    destruct (override_key literal o) as [key line]. destruct Hset as (a' & n & Ha' & H1 & H2 & _). simpl in *. by simplify_eq. }
  destruct (restore_all_succeeds (us_assignments next) _ lines' Hok Hnd) as [base' Hb'].
  { intros key [a Ha]%Hk. unfold tracked. rewrite Ha. by apply Happ. }
  destruct (restore_all_ok _ _ _ _ Hok Hnd Hb') as (_ & Horig & Hrest).
  assert (∀ key, lines_of key base' = lines_of key base) as Heq.
  { intros key. destruct (us_assignments next !! key) as [a|] eqn:Ea.
    - rewrite Horig by (apply Hk; eauto). unfold tracked. rewrite Ea. by apply Happ.
    - rewrite Hrest by (intros k [a' Ha']%Hk; apply avoids_other; intros ->; congruence).
      assert (key ∉ keys) as Hni.
      { intros (o & -> & Ho)%list_elem_of_fmap. specialize (Hset o Ho). unfold Basics.compose in *.
        destruct (override_key literal o) as [key line]. destruct Hset as (a' & n & Ha' & _). simpl in *. congruence. }
      assert (∀ l : list string, lines_of key l = lines_of key (filter (λ line, upstreamAssignmentKey line ∉ keys) l)) as Hsub.
      { intros l. rewrite list_filter_filter. apply list_filter_iff. intros x. split; [|tauto]. by intros ->. }
      by rewrite Hsub, Hother, <- Hsub. }
  exists base, base'. split_and!; [done| |by apply same_lines_perm|done|].
  - rewrite renderUpstreamEnv_ok by (by right). unfold recorded. simpl. by rewrite Hb'.
  - rewrite Hrest; [done|]. intros k [a Ha]%Hk line <-. destruct (decide (upstreamAssignmentKey line ∈ keys)); [tauto|].
    rewrite Hnone in Ha by done. done.
Qed.

(** What a launch's own commands leave in the file is recorded, so the next launch finds no drift; the
    originals are kept. *)
Theorem recordUpstreamEnv_accepts envFile data state out :
  envFile ≠ "" → recordUpstreamEnv envFile data (Some state) = Ok out →
  let lines := split_byte newline (trim_suffix (String newline "") data) in
  let state' := default state out in
  ∀ key a, us_assignments state' !! key = Some a → lines_of key lines = as_applied a ∧
    ∃ a0, us_assignments state !! key = Some a0 ∧ as_original a = as_original a0.
Proof.
  intros He. unfold recordUpstreamEnv. rewrite bool_decide_eq_false_2 by done.
  cbn zeta. case_bool_decide as Ee; [intros H; injection H as <-; intros key a Ha; simpl in Ha; by rewrite Ee, lookup_empty in Ha|].
  destruct (negb _); [done|].
  set (lines := split_byte _ _). set (next := map_imap _ _).
  assert (∀ key a, next !! key = Some a → lines_of key lines = as_applied a ∧
    ∃ a0, us_assignments state !! key = Some a0 ∧ as_original a = as_original a0) as Hnext.
  { intros key a. unfold next. rewrite map_lookup_imap. destruct (us_assignments state !! key) as [a0|]; [|done].
    simpl. intros [= <-]. split; [done|]. by exists a0. }
  case_bool_decide as En; intros H; injection H as <-; cbn [default from_option us_assignments]; [|exact Hnext].
  intros key a Ha. apply Hnext. by rewrite En.
Qed.

(** ** Witnesses *)

Definition sample_lines : list string := ["# ports"; "PORT=80"; "HOST=a"].

Lemma sample_recognised : recognised false ["PORT=8080"; "DEBUG=1"].
Proof.
  split; [apply (bool_decide_unpack _); vm_compute; done|].
  repeat constructor; vm_compute; reflexivity.
Defined.

Lemma env_drift_witness :
  is_ok (renderUpstreamEnv ".env" false ["PORT=8080"] sample_lines None) = true ↔
  path_ok ".env" None ∧ ∀ key a, recorded None !! key = Some a → lines_of key sample_lines = as_applied a.
Proof. apply (env_drift ".env" false ["PORT=8080"] sample_lines None). intros key a Ha. discriminate. Defined.

Definition sample_next : upstreamEnvState :=
  mkState ".env" (<["DEBUG" := mkAssignment [] ["DEBUG='1'"]]>
    (<["PORT" := mkAssignment ["PORT=80"] ["PORT='8080'"]]> ∅)).
Definition sample_written : list string := ["# ports"; "PORT='8080'"; "HOST=a"; "DEBUG='1'"].

Lemma env_applies_witness :
  ∃ base, renderUpstreamEnv ".env" false [] sample_lines None = Ok (base, mkState ".env" ∅) ∧ us_path sample_next = ".env".
Proof.
  destruct (env_applies ".env" false ["PORT=8080"; "DEBUG=1"] sample_lines None sample_written sample_next
              sample_recognised ltac:(vm_compute; reflexivity)) as (base & H & Hp & _).
  exists base. exact (conj H Hp).
Defined.

Lemma env_restores_witness :
  ∃ base base', renderUpstreamEnv ".env" false [] sample_lines None = Ok (base, mkState ".env" ∅) ∧
    renderUpstreamEnv ".env" false [] sample_written (Some sample_next) = Ok (base', mkState ".env" ∅) ∧ base' ≡ₚ base.
Proof.
  destruct (env_restores ".env" false ["PORT=8080"; "DEBUG=1"] sample_lines None sample_written sample_next
              sample_recognised ltac:(vm_compute; reflexivity)) as (base & base' & H1 & H2 & H3 & _).
  exists base, base'. exact (conj H1 (conj H2 H3)).
Defined.

(** A key that is overridden twice loses its original line: the second override records the first as
    what it replaced, and the launch without overrides restores that. *)
Theorem env_duplicate_override :
  match renderUpstreamEnv ".env" true ["PORT=1"; "PORT=2"] ["PORT=80"] None with
  | Ok (lines, next) => renderUpstreamEnv ".env" true [] lines (Some next) = Ok (["PORT=1"], mkState ".env" ∅)
  | Err _ => False
  end.
Proof. vm_compute. done. Qed.
