(* ===== verification/DeployState.v ===== *)
(** * Deployments: rows, ranks and progress: [internal/deploy/service.go], [internal/deploy/plan.go]

    The data of the deployment service and the operations on it that the handlers of [Deploy] are made
    of: the deployment rows with their statements, the dispatch phase of each rank, the commands in
    flight, the rank states that observations leave, and the progress document of a serve run.  JSON
    columns are their decoded values.  The progress of a run is kept decoded beside the ledger's bytes,
    because its decoder is the JSON library.  Command identifiers are numbered as they are created. *)

From S2P Require Import Prelude GoStrings Utf8 CJson Events Leases Runs RunLogs Diag Spaces Recipe.
Open Scope Z_scope.

(** ** Phases, commands and placements *)

Inductive Phase :=
| PhaseNone | PhasePreparing | PhasePrepared | PhasePulled | PhaseCreated | PhaseHostPreparing
| PhaseHostPrepared | PhaseVerifying | PhaseStarted | PhaseStopping | PhaseStopped.

#[export] Instance Phase_eq_dec : EqDecision Phase.
Proof. solve_decision. Defined.

Inductive Desired := DRunning | DStopped.

#[export] Instance Desired_eq_dec : EqDecision Desired.
Proof. solve_decision. Defined.

Inductive Observed :=
| OUnknown | OPreparing | OStarting | OHealthy | ODegraded | OFailed | OStopping | OStopped.

#[export] Instance Observed_eq_dec : EqDecision Observed.
Proof. solve_decision. Defined.

Definition observed_name (o : Observed) : string :=
  match o with
  | OUnknown => "unknown" | OPreparing => "preparing" | OStarting => "starting" | OHealthy => "healthy"
  | ODegraded => "degraded" | OFailed => "failed" | OStopping => "stopping" | OStopped => "stopped"
  end.

(** The operation a command in flight carries out *)
Inductive CmdOp :=
| CPrepare | CStopPrepare | CVerify | CStopVerify | CArtifactFetch | CPull | CCreate | CHostPrepare
| CStart | CInspect | CStop | CUpdateFetch.

#[export] Instance CmdOp_eq_dec : EqDecision CmdOp.
Proof. solve_decision. Defined.

Record inflightCmd := mkInflight { c_dep : string; c_rank : Z; c_op : CmdOp }.

#[export] Instance inflightCmd_eq_dec : EqDecision inflightCmd.
Proof. solve_decision. Defined.

Record Placement := mkPlacement {
  pl_node : string;
  pl_name : string;
  pl_rank : Z;
  pl_index : Z;
  pl_uuid : string;
  pl_accelerators : list string;
  pl_container : string;
}.

#[export] Instance Placement_eq_dec : EqDecision Placement.
Proof. solve_decision. Defined.

Definition no_placement : Placement := mkPlacement "" "" 0 0 "" [] "".

Definition blank (s : string) : bool := bool_decide (TrimSpace s = "").

Definition acceleratorBinding (p : Placement) : string :=
  match pl_accelerators p with
  | [] => if blank (pl_uuid p) then "" else pl_uuid p
  | us => if existsb blank us then "" else join "," us
  end.

(** The stored placement document; its acquisition contract is left to the downloads service *)
Record placementSet := mkPlacementSet {
  ps_ranks : gmap string Z;
  ps_entries : list Placement;
  ps_workload : option Z;
  ps_upstream : list (string * Z);   (* node and rank of each upstream preview *)
}.

#[export] Instance placementSet_eq_dec : EqDecision placementSet.
Proof. solve_decision. Defined.

Definition sort_ranks (rs : list Z) : list Z := merge_sort Z.le rs.

Definition RanksOnNode (ps : placementSet) (node : string) : list Z :=
  sort_ranks
    (match ps_entries ps with
     | [] => omap (λ e, if bool_decide (fst e = node) then Some (snd e) else None) (map_to_list (ps_ranks ps))
     | es => pl_rank <$> filter (λ e, pl_node e = node) es
     end).

Definition EntryFor (ps : placementSet) (rank : Z) : option Placement :=
  List.find (λ e, pl_rank e =? rank) (ps_entries ps).

Definition AllRanks (ps : placementSet) : list Z :=
  sort_ranks (match ps_entries ps with [] => snd <$> map_to_list (ps_ranks ps) | es => pl_rank <$> es end).

(** ** Rows *)

Record DepRow := mkDep {
  d_recipe : string;
  d_parameters : string;
  d_placement : placementSet;
  d_desired : Desired;
  d_observed : Observed;
  d_endpoint : option string;
  d_caps : option string;
  d_diagnostics : list Diagnostic;
  d_run : option string;
  d_dispatch : gmap Z Phase;
}.

(** [dispatchPhases.Get] *)
Definition phase (d : DepRow) (rank : Z) : Phase := default PhaseNone (d_dispatch d !! rank).

(** [row.RunID.String] *)
Definition run_string (d : DepRow) : string := default "" (d_run d).

(** ** Progress of a serve run *)

Record ProgressRow := mkProgressRow { pr_rank : Z; pr_fields : gmap string json }.

Definition update_fields (updates : list (string * json)) (fields : gmap string json) : gmap string json :=
  foldl (λ m kv, <[fst kv := snd kv]> m) fields updates.

Fixpoint update_rows (rank : Z) (updates : list (string * json)) (rows : list ProgressRow) : list ProgressRow :=
  match rows with
  | [] => [mkProgressRow rank (update_fields updates ∅)]
  | row :: rows =>
      if pr_rank row =? rank then mkProgressRow rank (update_fields updates (pr_fields row)) :: rows
      else row :: update_rows rank updates rows
  end.

Definition row_phase (row : ProgressRow) : string :=
  match pr_fields row !! "phase" with Some (JString s) => s | _ => "" end.

Definition starting_phases : list string := ["pulling_image"; "creating_container"; "starting_container"; "health_check"].

(** The phase of the whole run *)
Definition overall (rows : list ProgressRow) : string :=
  let phases := row_phase <$> rows in
  let all p := negb (bool_decide (rows = [])) && forallb (λ x, bool_decide (x = p)) phases in
  if existsb (λ x, bool_decide (x = "failed")) phases then "failed"
  else if all "healthy" then "healthy"
  else if all "stopped" then "stopped"
  else if existsb (has_prefix "waiting") phases then "waiting"
  else if existsb (λ x, bool_decide (x ∈ starting_phases)) phases then "starting"
  else "preparing".

Definition row_json (row : ProgressRow) : json :=
  JObject (map_to_list (<["rank" := JNumber (Itoa (pr_rank row))]> (pr_fields row))).

(** ** The service *)

(** Where the goroutine behind [acquisitionLive[key]] stands *)
Inductive GatePC :=
| GBegin                       (* about to read the deployment *)
| GLock                        (* in [acquireDeployment], before it re-reads the row *)
| GAcquire                     (* waiting for the downloads service *)
| GDecide (err : option string).

#[export] Instance GatePC_eq_dec : EqDecision GatePC.
Proof. solve_decision. Defined.

Record Gate := mkGate { g_run : string; g_placement : Placement; g_pending : bool; g_pc : GatePC }.

Inductive MsgOp := MCreate | MHostPrepare | MStart | MInspect | MStop | MPrepare | MVerify | MStopExtension | MCancelFetch (target : N).

#[export] Instance MsgOp_eq_dec : EqDecision MsgOp.
Proof. solve_decision. Defined.

Record Message := mkMessage {
  msg_node : string; msg_cmd : N; msg_op : MsgOp; msg_dep : string; msg_run : string; msg_rank : Z }.

#[export] Instance Message_eq_dec : EqDecision Message.
Proof. solve_decision. Defined.

Record Service := mkService {
  sv_deployments : gmap string DepRow;
  sv_recipes : gmap string Manifest;
  sv_ledger : Ledger;
  sv_inflight : gmap N inflightCmd;
  sv_rankStates : gmap string (gmap Z string);
  sv_live : gmap (string * Z) Gate;
  sv_progress : gmap string (list ProgressRow);
  sv_sent : list Message;
  sv_next : N;
}.

Definition set_deployments (f : gmap string DepRow → gmap string DepRow) (s : Service) : Service :=
  mkService (f (sv_deployments s)) (sv_recipes s) (sv_ledger s) (sv_inflight s) (sv_rankStates s) (sv_live s)
    (sv_progress s) (sv_sent s) (sv_next s).
Definition set_ledger (f : Ledger → Ledger) (s : Service) : Service :=
  mkService (sv_deployments s) (sv_recipes s) (f (sv_ledger s)) (sv_inflight s) (sv_rankStates s) (sv_live s)
    (sv_progress s) (sv_sent s) (sv_next s).
Definition set_inflight (f : gmap N inflightCmd → gmap N inflightCmd) (s : Service) : Service :=
  mkService (sv_deployments s) (sv_recipes s) (sv_ledger s) (f (sv_inflight s)) (sv_rankStates s) (sv_live s)
    (sv_progress s) (sv_sent s) (sv_next s).
Definition set_rankStates (f : gmap string (gmap Z string) → gmap string (gmap Z string)) (s : Service) : Service :=
  mkService (sv_deployments s) (sv_recipes s) (sv_ledger s) (sv_inflight s) (f (sv_rankStates s)) (sv_live s)
    (sv_progress s) (sv_sent s) (sv_next s).
Definition set_live (f : gmap (string * Z) Gate → gmap (string * Z) Gate) (s : Service) : Service :=
  mkService (sv_deployments s) (sv_recipes s) (sv_ledger s) (sv_inflight s) (sv_rankStates s) (f (sv_live s))
    (sv_progress s) (sv_sent s) (sv_next s).
Definition put_progress (run : string) (rows : list ProgressRow) (s : Service) : Service :=
  mkService (sv_deployments s) (sv_recipes s) (sv_ledger s) (sv_inflight s) (sv_rankStates s) (sv_live s)
    (<[run := rows]> (sv_progress s)) (sv_sent s) (sv_next s).
Definition add_sent (m : Message) (s : Service) : Service :=
  mkService (sv_deployments s) (sv_recipes s) (sv_ledger s) (sv_inflight s) (sv_rankStates s) (sv_live s)
    (sv_progress s) (sv_sent s ++ [m]) (sv_next s).
Definition bump (s : Service) : Service :=
  mkService (sv_deployments s) (sv_recipes s) (sv_ledger s) (sv_inflight s) (sv_rankStates s) (sv_live s)
    (sv_progress s) (sv_sent s) (N.succ (sv_next s)).

(** A call to the run service whose error is dropped *)
Definition ledger {A} (m : RunM A) (s : Service) : Service := set_ledger (λ g, snd (m g)) s.

(** [s.bus.Publish(ctx, typ, depID, ...)] *)
Definition announce (typ dep : string) (fields : list (string * json)) (s : Service) : Service :=
  set_ledger (set_bus (Publish typ dep (mustJSON (("deployment_id", JString dep) :: fields)))) s.

Definition SetRunState (now run : string) (to : State) (code msg : string) (s : Service) : Service :=
  ledger (SetState run now to code msg) s.

(** ** Statements on a row *)

Definition alter_dep (f : DepRow → DepRow) (dep : string) (s : Service) : Service :=
  set_deployments (alter f dep) s.

Definition with_dispatch (f : gmap Z Phase → gmap Z Phase) (d : DepRow) : DepRow :=
  mkDep (d_recipe d) (d_parameters d) (d_placement d) (d_desired d) (d_observed d) (d_endpoint d) (d_caps d)
    (d_diagnostics d) (d_run d) (f (d_dispatch d)).

Definition with_placement (ps : placementSet) (d : DepRow) : DepRow :=
  mkDep (d_recipe d) (d_parameters d) ps (d_desired d) (d_observed d) (d_endpoint d) (d_caps d)
    (d_diagnostics d) (d_run d) (d_dispatch d).

Definition observed_row (o : Observed) (endpoint caps : option string) (diags : list Diagnostic) (d : DepRow) : DepRow :=
  mkDep (d_recipe d) (d_parameters d) (d_placement d) (d_desired d) o (coalesce endpoint (d_endpoint d))
    (coalesce caps (d_caps d)) diags (d_run d) (d_dispatch d).

Definition UpdateDeploymentObserved (o : Observed) (endpoint caps : option string) (diags : list Diagnostic)
    (dep : string) (s : Service) : Service :=
  alter_dep (observed_row o endpoint caps diags) dep s.

Definition stopping_row (diags : list Diagnostic) (d : DepRow) : DepRow :=
  mkDep (d_recipe d) (d_parameters d) (d_placement d) DStopped OStopping None (d_caps d) diags (d_run d) (d_dispatch d).

Definition SetDeploymentStopping (diags : list Diagnostic) (dep : string) (s : Service) : Service :=
  alter_dep (stopping_row diags) dep s.

Definition restarted_row (run : string) (ps : placementSet) (endpoint : option string) (d : DepRow) : DepRow :=
  mkDep (d_recipe d) (d_parameters d) ps DRunning OUnknown endpoint None [] (Some run) ∅.

Definition cleared_row (diags : list Diagnostic) (d : DepRow) : DepRow :=
  if bool_decide (d_desired d = DStopped) && bool_decide (d_observed d = OStopped)
  then mkDep (d_recipe d) (d_parameters d) (d_placement d) (d_desired d) (d_observed d) None (d_caps d) diags
         (d_run d) (d_dispatch d)
  else d.

Definition ClearStoppedDeploymentEndpoint (diags : list Diagnostic) (dep : string) (s : Service) : Service :=
  alter_dep (cleared_row diags) dep s.

(** The [UNIQUE (recipe_digest, parameters, placement)] constraint, against the other rows *)
Definition placement_taken (recipe parameters : string) (ps : placementSet) (dep : string) (s : Service) : bool :=
  existsb (λ e, negb (bool_decide (fst e = dep)) && bool_decide (d_recipe (snd e) = recipe) &&
                bool_decide (d_parameters (snd e) = parameters) && bool_decide (d_placement (snd e) = ps))
    (map_to_list (sv_deployments s)).

Definition setPhase (dep : string) (rank : Z) (to : Phase) (s : Service) : Service :=
  alter_dep (with_dispatch <[rank := to]>) dep s.

Fixpoint set_container (rank : Z) (container : string) (es : list Placement) : list Placement :=
  match es with
  | [] => []
  | e :: es =>
      if pl_rank e =? rank
      then mkPlacement (pl_node e) (pl_name e) (pl_rank e) (pl_index e) (pl_uuid e) (pl_accelerators e) container :: es
      else e :: set_container rank container es
  end.

Definition with_container (rank : Z) (container : string) (ps : placementSet) : placementSet :=
  mkPlacementSet (ps_ranks ps) (set_container rank container (ps_entries ps)) (ps_workload ps) (ps_upstream ps).

Definition setPlacementContainer (dep : string) (rank : Z) (container : string) (s : Service) : Service :=
  if bool_decide (container = "") then s
  else match sv_deployments s !! dep with
       | None => s
       | Some d =>
           match EntryFor (d_placement d) rank with
           | None => s
           | Some e =>
               let ps := with_container rank container (d_placement d) in
               if bool_decide (pl_container e = container) || placement_taken (d_recipe d) (d_parameters d) ps dep s then s
               else alter_dep (with_placement ps) dep s
           end
       end.

(** ** Commands in flight *)

Definition inflightMark (cmd : N) (dep : string) (rank : Z) (op : CmdOp) (s : Service) : Service :=
  set_inflight <[cmd := mkInflight dep rank op]> s.

Definition inflightTake (cmd : N) (s : Service) : option inflightCmd * Service :=
  (sv_inflight s !! cmd, set_inflight (delete cmd) s).

Definition matches (dep : string) (rank : Z) (ops : list CmdOp) (c : inflightCmd) : Prop :=
  c_dep c = dep ∧ c_rank c = rank ∧ c_op c ∈ ops.

#[export] Instance matches_dec dep rank ops c : Decision (matches dep rank ops c).
Proof. unfold matches. apply _. Defined.

Definition inflightHas (dep : string) (rank : Z) (ops : list CmdOp) (s : Service) : bool :=
  bool_decide (map_Exists (λ _ c, matches dep rank ops c) (sv_inflight s)).

Definition inflightDrop (dep : string) (rank : Z) (ops : list CmdOp) (s : Service) : Service :=
  set_inflight (filter (λ kc, ¬ matches dep rank ops (snd kc))) s.

(** [id.New] for a command: the next number *)
Definition newCommand (s : Service) : N * Service := (sv_next s, bump s).

(** ** Rank states *)

Definition setRankState (dep : string) (rank : Z) (state : string) (s : Service) : Service :=
  set_rankStates (partial_alter (λ m, Some (<[rank := state]> (default ∅ m))) dep) s.

Definition rank_state (dep : string) (rank : Z) (s : Service) : string :=
  default "" (default ∅ (sv_rankStates s !! dep) !! rank).

Definition preparing_states : list string := ["created"; "installing"; "starting"; "observing"; "restarting"; ""].
Definition failed_states : list string := ["degraded"; "exited"; "dead"; "missing"].

Definition count_states (states : list string) (xs : list string) : nat :=
  length (filter (λ x, x ∈ states) xs).

Definition aggregateRankState (dep : string) (ps : placementSet) (s : Service) : Observed :=
  match ps_entries ps with
  | [] => OUnknown
  | es =>
      let states := (λ e, rank_state dep (pl_rank e) s) <$> es in
      let running := count_states ["running"] states in
      let ready := count_states ["ready"] states in
      let offline := count_states ["offline"] states in
      let preparing := count_states preparing_states states in
      let failed := count_states failed_states states in
      let active := (running + ready)%nat in
      if (0 <? ready)%nat && (active =? length es)%nat then OHealthy
      else if (0 <? failed)%nat || ((0 <? active)%nat && (0 <? offline)%nat) then ODegraded
      else if (0 <? active)%nat || (0 <? preparing)%nat then OStarting
      else OUnknown
  end.

(** ** Progress of a serve run *)

Definition store_progress (run top : string) (rows : list ProgressRow) (s : Service) : Service :=
  ledger (SetProgress run [("phase", JString top); ("ranks", JArray (row_json <$> rows))]) (put_progress run rows s).

Definition setServeRankProgress (run : string) (rank : Z) (updates : list (string * json)) (s : Service) : Service :=
  match lg_runs (sv_ledger s) !! run with
  | None => s
  | Some _ =>
      let rows := update_rows rank updates (default [] (sv_progress s !! run)) in
      store_progress run (overall rows) rows s
  end.

Definition initial_row (p : Placement) : ProgressRow :=
  mkProgressRow (pl_rank p)
    {[ "role" := JString (if pl_rank p =? 0 then "head" else "worker"); "node_id" := JString (pl_node p);
       "node_name" := JString (pl_name p); "phase" := JString "queued" ]}.

Definition initializeServeProgress (run : string) (pls : list Placement) (s : Service) : Service :=
  store_progress run "preparing" (initial_row <$> pls) s.

Definition progress_phase (p : string) : list (string * json) := [("phase", JString p)].

(** ** Failures *)

(** [fmt.Sprintf("rank %d: %s", ...)] and the resource of a rank *)
Definition rank_message (rank : Z) (message : string) : string := "rank " +:+ Itoa rank +:+ ": " +:+ message.
Definition rank_resource (rank : Z) : string := "rank:" +:+ Itoa rank.

Definition noteDispatch (dep : string) (diag : Diagnostic) (s : Service) : Service :=
  match sv_deployments s !! dep with
  | None => s
  | Some d => UpdateDeploymentObserved (d_observed d) None None (Upsert (d_diagnostics d) diag) dep s
  end.

Definition run_terminal (run : string) (s : Service) : bool :=
  match lg_runs (sv_ledger s) !! run with Some r => Terminal (r_state r) | None => false end.

Definition run_live (run : string) (s : Service) : bool :=
  match lg_runs (sv_ledger s) !! run with Some r => negb (Terminal (r_state r)) | None => false end.

Definition releaseIfTerminal (dep run : string) (s : Service) : Service :=
  if bool_decide (run = "") then s
  else if run_terminal run s then ledger (ReleaseLeasesFor "deployment" dep) s
  else s.

Definition failDispatch (now dep : string) (rank : Z) (run code message : string) (s : Service) : Service :=
  let s := noteDispatch dep (Res (rank_resource rank) (Error code (rank_message rank message))) s in
  let s := match sv_deployments s !! dep with
           | None => s
           | Some d => UpdateDeploymentObserved OFailed None None (d_diagnostics d) dep s
           end in
  if bool_decide (run = "") then s
  else releaseIfTerminal dep run (SetRunState now run Failed code message s).
