(* ===== verification/Deploy.v ===== *)
(** * The dispatch of deployments: [internal/deploy/service.go], [internal/deploy/acquisition.go]

    The handlers that drive a deployment: the acquisition gate of each rank, the dispatch of its next
    command, the results and observations agents send back, stop, start and delete.  Each handler is a
    function of the service; [Env] holds what the handler learns from outside during the call: which
    sessions accept a message, whether a container specification renders, the answer of the readiness
    probe, the inventories of the nodes.  A handler runs to its end before the next one starts, except
    that the goroutine of a gate gives way wherever it waits; the statements of two handlers are not
    interleaved, and a failing database is not modelled.

    Planning is outside this file: [Start] and [createPlanned] are given the plan. *)

From S2P Require Import Prelude GoStrings Utf8 CJson Events Leases Runs RunLogs Diag Inventory Recipe DeployState.
Open Scope Z_scope.

(** ** What a handler learns from outside *)

Record Env := mkEnv {
  e_now : string;
  e_send : string → bool;
  e_online : string → bool;
  e_spec : string → Z → result string bool;       (* [renderSpec]: whether it asks for host preparation *)
  e_extension : string → Z → result string unit;  (* [renderExtensionSpec] *)
  e_inventory : string → option Inventory;
  e_ready : DepRow → bool * string;               (* the readiness probe *)
}.

(** ** Messages of the agents *)

Record CommandResult := mkCommandResult {
  cr_id : N; cr_ok : bool; cr_error : string; cr_container : string; cr_state : string; cr_exit : Z; cr_oom : bool }.

Record StateUpdate := mkStateUpdate {
  su_dep : string; su_run : string; su_container : string; su_state : string; su_rank : Z;
  su_message : string; su_exit : Z; su_oom : bool; su_port : Z }.

Fixpoint contains_str (sub s : string) : bool :=
  has_prefix sub s || match s with "" => false | String _ s => contains_str sub s end.

Definition isContainerExists (msg : string) : bool := contains_str "exists" msg.
Definition isAlreadyRunning (msg : string) : bool := contains_str "already running" msg || contains_str "already started" msg.
Definition isContainerMissing (msg : string) : bool := contains_str "missing" msg || contains_str "no such" msg.

Definition terminalWorkloadState (state : string) : bool := bool_decide (state ∈ ["exited"; "dead"; "missing"]).

Definition workloadFailure (su : StateUpdate) : string * string :=
  let code := if su_oom su then "workload.oom_killed" else "workload." +:+ su_state su in
  let parts := ["rank " +:+ Itoa (su_rank su)]
    ++ (if bool_decide (su_container su = "") then [] else ["container " +:+ su_container su])
    ++ ["state=" +:+ su_state su]
    ++ (if bool_decide (su_state su = "exited") || bool_decide (su_state su = "dead")
        then ["exit_code=" +:+ Itoa (su_exit su)] else [])
    ++ ["oom_killed=" +:+ (if su_oom su then "true" else "false")]
    ++ (if bool_decide (su_message su = "") then [] else ["error=" +:+ su_message su]) in
  (code, join "; " parts).

Definition mapObserved (state diagnostic : string) : Observed * Diagnostic :=
  if bool_decide (state = "running") then
    if bool_decide (diagnostic = "") then (OHealthy, Info "workload.healthy" "container running")
    else (ODegraded, Error "workload.degraded" diagnostic)
  else if bool_decide (state = "paused") then (ODegraded, Error "workload.paused" "container paused")
  else if bool_decide (state = "exited") then (OStopped, Error "workload.exited" "container exited")
  else if bool_decide (state = "restarting") then (OStarting, Info "workload.restarting" "container restarting")
  else if bool_decide (state ∈ ["installing"; "starting"; "observing"]) then
    (OStarting, Info "upstream.starting"
       (if bool_decide (diagnostic = "") then "upstream lifecycle is still preparing the service" else diagnostic))
  else if bool_decide (state = "created") then (OPreparing, Info "workload.created" "container created, awaiting start")
  else if bool_decide (state = "removing") then (OStopping, Info "workload.removing" "container removing")
  else if bool_decide (state = "dead") then (OFailed, Error "workload.dead" "container in dead state")
  else if bool_decide (state = "missing") then (OStopped, Error "workload.missing" "container no longer exists")
  else (OUnknown, Info "workload.unknown_state" state).

(** ** Reads *)

Definition placementFor (dep : string) (rank : Z) (s : Service) : Placement :=
  match sv_deployments s !! dep with
  | Some d => default no_placement (EntryFor (d_placement d) rank)
  | None => no_placement
  end.

Definition runIDFor (dep : string) (s : Service) : string :=
  match sv_deployments s !! dep with Some d => run_string d | None => "" end.

Definition manifestFor (digest : string) (s : Service) : result string Manifest :=
  match sv_recipes s !! digest with Some m => Ok m | None => Err "sql: no rows in result set" end.

Section handlers.
Context (env : Env).

Definition targetFor (d : DepRow) : Target :=
  match head (ps_entries (d_placement d)) with
  | None => mkTarget 1 "" "" []
  | Some e =>
      match e_inventory env (pl_node e) with
      | Some inv =>
          match inv_accelerators inv with
          | a :: _ => mkTarget 1 (acc_vendor a) (acc_architecture a) (acc_features a)
          | [] => mkTarget 1 "" "" []
          end
      | None => mkTarget 1 "" "" []
      end
  end.

Definition selectWorkload (d : DepRow) (m : Manifest) : result string Workload :=
  match ps_workload (d_placement d) with
  | Some wi =>
      match (if wi <? 0 then None else m_workloads m !! Z.to_nat wi) with
      | Some w => Ok w
      | None => Err ("workload index " +:+ Itoa wi +:+ " out of range for recipe")
      end
  | None =>
      match SelectWorkload m (targetFor d) with
      | Ok (_, w) => Ok w
      | Err _ => Err "no workload variant matches target"
      end
  end.

(** ** Sending *)

(** [s.nodes.Send]: whether a session took the message *)
Definition send (m : Message) (s : Service) : bool * Service :=
  if e_send env (msg_node m) then (true, add_sent m s) else (false, s).

(** [id.New], [inflightMark] and [sendWorkload] *)
Definition command (node : string) (cop : CmdOp) (mop : MsgOp) (dep run : string) (rank : Z) (s : Service) : bool * Service :=
  let '(cmd, s) := newCommand s in
  send (mkMessage node cmd mop dep run rank) (inflightMark cmd dep rank cop s).

Definition extension_op (verify : bool) : CmdOp := if verify then CVerify else CPrepare.

Definition sendExtension (dep : string) (pl : Placement) (rank : Z) (run : string) (verify : bool) (s : Service)
    : option string * Service :=
  if inflightHas dep rank [extension_op verify] s then (None, s)
  else match e_extension env dep rank with
       | Err e => (Some e, s)
       | Ok _ =>
           let '(cmd, s) := newCommand s in
           let s := inflightMark cmd dep rank (extension_op verify) s in
           let s := setPhase dep rank (if verify then PhaseVerifying else PhasePreparing) s in
           let s := if verify && negb (bool_decide (run = "")) then SetRunState (e_now env) run Verifying "" "" s else s in
           let '(sent, s) := send (mkMessage (pl_node pl) cmd (if verify then MVerify else MPrepare) dep run rank) s in
           (if sent : bool then None else Some ("node " +:+ pl_node pl +:+ " is offline"), s)
       end.

Definition stopExtension (dep : string) (pl : Placement) (rank : Z) (run : string) (op : CmdOp) (s : Service) : Service :=
  if inflightHas dep rank [op] s then s
  else
    let s := inflightDrop dep rank [CPrepare; CVerify] s in
    let '(sent, s) := command (pl_node pl) op MStopExtension dep run rank s in
    if sent : bool then s
    else noteDispatch dep (Error "workload.node_offline" ("node " +:+ pl_node pl +:+ " offline; extension stop paused")) s.

Fixpoint cancel_targets (node : string) (targets : list N) (s : Service) : Service :=
  match targets with
  | [] => s
  | target :: targets =>
      let '(cmd, s) := newCommand s in
      cancel_targets node targets (snd (send (mkMessage node cmd (MCancelFetch target) "" "" 0) s))
  end.

Definition cancelArtifactFetches (dep : string) (rank : Z) (node : string) (s : Service) : Service :=
  let targets := fst <$> map_to_list (filter (λ kc, matches dep rank [CArtifactFetch] (snd kc)) (sv_inflight s)) in
  cancel_targets node targets (inflightDrop dep rank [CArtifactFetch] s).

(** ** Stopping *)

Definition all_stopped (d : DepRow) : bool :=
  forallb (λ rank, bool_decide (phase d rank = PhaseStopped)) (AllRanks (d_placement d)).

Definition stopped_progress (run : string) (ranks : list Z) (s : Service) : Service :=
  if bool_decide (run = "") then s
  else foldl (λ s rank, setServeRankProgress run rank (progress_phase "stopped") s) s ranks.

Definition checkStopComplete (dep run : string) (s : Service) : Service :=
  match sv_deployments s !! dep with
  | None => s
  | Some d =>
      if negb (all_stopped d) then s
      else
        let s := stopped_progress run (AllRanks (d_placement d)) s in
        let s := if negb (bool_decide (run = "")) && run_live run s
                 then SetRunState (e_now env) run Cancelled "" "" s else s in
        let diagnostics := Compact (d_diagnostics d) in
        let s := SetDeploymentStopping diagnostics dep s in
        let s := ledger (ReleaseLeasesFor "deployment" dep) s in
        let s := UpdateDeploymentObserved OStopped None None diagnostics dep s in
        announce "deployment.stopped" dep [] s
  end.

(** [dispatchReady] on a deployment that is to stop *)
Definition dispatch_stopped (dep : string) (rank : Z) (run : string) (pl : Placement) (p : Phase) (s : Service) : Service :=
  let confirm s := checkStopComplete dep run (setPhase dep rank PhaseStopped (cancelArtifactFetches dep rank (pl_node pl) s)) in
  let stop s := snd (command (pl_node pl) CStop MStop dep run rank s) in
  match p with
  | PhasePreparing => stopExtension dep pl rank run CStopPrepare s
  | PhaseVerifying => stopExtension dep pl rank run CStopVerify s
  | PhasePrepared | PhaseNone => confirm s
  | PhaseHostPreparing => if inflightHas dep rank [CHostPrepare] s then s else stop s
  | PhaseStarted => stop (setPhase dep rank PhaseStopping s)
  | PhasePulled | PhaseCreated | PhaseHostPrepared | PhaseStopping => stop s
  | PhaseStopped => s
  end.

(** ** The gate *)

(** [dispatchNext]; its call of [dispatchReady] on a deployment that is to stop is [dispatch_stopped] *)
Definition dispatchNext (dep : string) (rank : Z) (run : string) (pl : Placement) (s : Service) : Service :=
  match sv_deployments s !! dep with
  | None => s
  | Some d =>
      if bool_decide (d_desired d = DStopped) then dispatch_stopped dep rank run pl (phase d rank) s
      else match sv_live s !! (dep, rank) with
           | Some g => set_live <[(dep, rank) := mkGate (g_run g) (g_placement g) true (g_pc g)]> s
           | None => set_live <[(dep, rank) := mkGate run pl false GBegin]> s
           end
  end.

(** ** Dispatch *)

(** A coordinator waits until every other rank has started and been seen; a head waits for its workers *)
Definition workerStartReady (d : DepRow) (dep : string) (rank : Z) (s : Service) : result string bool :=
  match manifestFor (d_recipe d) s with
  | Err e => Err e
  | Ok m =>
      match selectWorkload d m with
      | Err e => Err e
      | Ok w =>
          let started e := bool_decide (phase d (pl_rank e) = PhaseStarted) in
          match w_upstream w ≫= up_coordinator with
          | Some coordinator =>
              if negb (rank =? coordinator) then Ok true
              else Ok (forallb (λ e, (pl_rank e =? rank) ||
                         (started e && bool_decide (rank_state dep (pl_rank e) s ∈ ["observing"; "running"; "ready"])))
                       (ps_entries (d_placement d)))
          | None =>
              if negb (rank =? 0) then Ok true
              else if negb (bool_decide (w_start_order w = "workers-first")) then Ok true
              else Ok (forallb (λ e, negb (0 <? pl_rank e) || started e) (ps_entries (d_placement d)))
          end
      end
  end.

Definition fail (dep : string) (rank : Z) (run code message : string) (s : Service) : Service :=
  failDispatch (e_now env) dep rank run code message s.

Definition progress (run : string) (rank : Z) (p : string) (s : Service) : Service :=
  setServeRankProgress run rank (progress_phase p) s.

(** [dispatchReady] on a deployment that is to run *)
Definition dispatch_running (dep : string) (rank : Z) (run : string) (pl : Placement) (d : DepRow) (s : Service) : Service :=
  let next p s := dispatchNext dep rank run pl (setPhase dep rank p s) in
  let workload cop mop s := command (pl_node pl) cop mop dep run rank s in
  match phase d rank with
  | PhaseNone =>
      match manifestFor (d_recipe d) s with
      | Err e => fail dep rank run "recipe.manifest" e s
      | Ok m =>
          if bool_decide (is_Some (m_prepare m))
          then match sendExtension dep pl rank run false s with
               | (Some e, s) => fail dep rank run "extension.prepare_failed" e s
               | (None, s) => s
               end
          else next PhasePrepared s
      end
  | PhasePreparing =>
      if match manifestFor (d_recipe d) s with Ok m => bool_decide (is_Some (m_prepare m)) | Err _ => false end
      then match sendExtension dep pl rank run false s with
           | (Some e, s) => noteDispatch dep (Error "extension.prepare_failed" e) s
           | (None, s) => s
           end
      else fail dep rank run "extension.prepare_failed" "prepare extension is unavailable" s
  | PhasePrepared => next PhasePulled s
  | PhasePulled =>
      match e_spec env dep rank with
      | Err e => noteDispatch dep (Error "artifact.mount_missing" e) s
      | Ok _ => snd (workload CCreate MCreate (progress run rank "creating_container" s))
      end
  | PhaseCreated | PhaseHostPreparing =>
      if inflightHas dep rank [CHostPrepare] s then s
      else match e_spec env dep rank with
           | Err e => fail dep rank run "host.prepare_spec" e s
           | Ok false => next PhaseHostPrepared s
           | Ok true =>
               let s := setPhase dep rank PhaseHostPreparing (progress run rank "preparing_host" s) in
               match workload CHostPrepare MHostPrepare s with
               | (true, s) => s
               | (false, s) =>
                   noteDispatch dep (Error "workload.node_offline"
                     ("node " +:+ pl_node pl +:+ " offline; host preparation paused until reconnect"))
                     (progress run rank "waiting_for_node" s)
               end
           end
  | PhaseHostPrepared =>
      match workerStartReady d dep rank s with
      | Err e => fail dep rank run "workload.start_order" e s
      | Ok false =>
          setServeRankProgress run rank
            [("phase", JString "waiting_for_workers"); ("message", JString "worker containers start before the API head")] s
      | Ok true =>
          match e_spec env dep rank with
          | Err e => fail dep rank run "workload.start_spec" e s
          | Ok _ => snd (workload CStart MStart (progress run rank "starting_container" s))
          end
      end
  | PhaseStarted => snd (workload CInspect MInspect (progress run rank "health_check" s))
  | PhaseVerifying =>
      if match manifestFor (d_recipe d) s with Ok m => bool_decide (is_Some (m_verify m)) | Err _ => false end
      then match sendExtension dep pl rank run true s with
           | (Some e, s) => noteDispatch dep (Error "extension.verify_failed" e) s
           | (None, s) => s
           end
      else fail dep rank run "extension.verify_failed" "verify extension is unavailable" s
  | PhaseStopping | PhaseStopped => s
  end.

Definition dispatchReady (dep : string) (rank : Z) (run : string) (pl : Placement) (s : Service) : Service :=
  match sv_deployments s !! dep with
  | None => s
  | Some d =>
      match d_desired d with
      | DRunning => dispatch_running dep rank run pl d s
      | DStopped => dispatch_stopped dep rank run pl (phase d rank) s
      end
  end.

Definition wakeWorkerFirstHead (dep run : string) (s : Service) : Service :=
  match sv_deployments s !! dep with
  | None => s
  | Some d =>
      if negb (bool_decide (phase d 0 = PhaseHostPrepared)) then s
      else match EntryFor (d_placement d) 0 with
           | Some pl => dispatchNext dep 0 run pl s
           | None => s
           end
  end.

(** ** Stop, start and delete *)

Inductive deploy_error :=
| ErrDeployment                 (* unknown deployment *)
| ErrDeployState                (* invalid state for operation *)
| ErrNotReady
| ErrConflict (e : lease_error)
| ErrRow                        (* a constraint of the deployments table *)
| ErrRun (e : run_error).

Definition dispatch_all (dep run : string) (ps : placementSet) (ranks : list Z) (s : Service) : Service :=
  foldl (λ s rank, match EntryFor ps rank with Some pl => dispatchNext dep rank run pl s | None => s end) s ranks.

(** [Stop], up to the view it returns *)
Definition Stop (dep : string) (s : Service) : result deploy_error unit * Service :=
  match sv_deployments s !! dep with
  | None => (Err ErrDeployment, s)
  | Some d =>
      if bool_decide (d_desired d = DStopped) && bool_decide (d_observed d = OStopped) then (Ok tt, s)
      else
        let s := SetDeploymentStopping (d_diagnostics d) dep s in
        let run := run_string d in
        let finish s :=
          let s := dispatch_all dep run (d_placement d) (AllRanks (d_placement d)) s in
          (Ok tt, announce "deployment.stopping" dep [] (checkStopComplete dep run s)) in
        if bool_decide (d_desired d = DRunning) && negb (bool_decide (run = "")) then
          match lg_runs (sv_ledger s) !! run with
          | None => (Err (ErrRun ErrUnknown), s)
          | Some r =>
              if Terminal (r_state r) then finish s
              else match Cancel run (e_now env) (sv_ledger s) with
                   | (Ok _, g) => finish (set_ledger (λ _, g) s)
                   | (Err e, g) => (Err (ErrRun e), set_ledger (λ _, g) s)
                   end
          end
        else finish s
  end.

(** What planning hands over *)
Record LaunchPlan := mkLaunchPlan {
  lp_recipe : string;
  lp_name : string;
  lp_parameters : string;
  lp_placements : list Placement;
  lp_workload : Z;
  lp_upstream : list (string * Z);
  lp_fabric : option string;
  lp_ports : list (string * Z);          (* node, host port *)
  lp_host : string;
  lp_port : Z;
  lp_input : bytes;
}.

Definition placementSetFromPlan (p : LaunchPlan) : placementSet :=
  mkPlacementSet (foldl (λ m e, <[pl_node e := pl_rank e]> m) ∅ (lp_placements p)) (lp_placements p)
    (Some (lp_workload p)) (lp_upstream p).

Definition gpu_resources (pl : Placement) : list string :=
  match pl_accelerators pl with
  | [] => if bool_decide (pl_uuid pl = "") then [] else ["gpu:" +:+ pl_node pl +:+ ":" +:+ pl_uuid pl]
  | us => (λ u, "gpu:" +:+ pl_node pl +:+ ":" +:+ u) <$> us
  end.

Definition LeaseResources (p : LaunchPlan) : list string :=
  sort_strings (dedup
    (((λ u, "upstream-node:" +:+ fst u) <$> lp_upstream p)
     ++ (lp_placements p ≫= gpu_resources)
     ++ match lp_fabric p with Some f => if bool_decide (f = "") then [] else ["fabric:" +:+ f] | None => [] end
     ++ ((λ x, "port:" +:+ fst x +:+ ":" +:+ Itoa (snd x)) <$> lp_ports p))).

(** [net.JoinHostPort] *)
Definition JoinHostPort (host port : string) : string :=
  if contains_byte ":"%char host then "[" +:+ host +:+ "]:" +:+ port else host +:+ ":" +:+ port.

Definition plan_endpoint (p : LaunchPlan) : option string :=
  if bool_decide (lp_host p = "") then None else Some (JoinHostPort (lp_host p) (Itoa (lp_port p))).

Definition serve_run (dep : string) (p : LaunchPlan) : RunRow :=
  mkRun "serving" "serve" Queued (to_bytes "[]") (lp_input p) None None None (Some dep) (e_now env) None None (to_bytes "{}").

(** The work after the commit that [createPlanned] and [Start] share *)
Definition begin_run (dep run : string) (p : LaunchPlan) (s : Service) : Service :=
  let s := SetRunState (e_now env) run Planning "" "" s in
  let s := SetRunState (e_now env) run Waiting "" "" s in
  let s := initializeServeProgress run (lp_placements p) s in
  foldl (λ s pl, dispatchNext dep (pl_rank pl) run pl s) s (lp_placements p).

(** The statements of the transaction on the ledger: the run, then the leases *)
Definition commit_launch (dep run : string) (p : LaunchPlan) (g : Ledger) : result deploy_error Ledger :=
  match CreateRun run (serve_run dep p) g with
  | (Err e, _) => Err (ErrRun e)
  | (Ok _, g) =>
      match acquire_leases "deployment" dep (LeaseResources p) g with
      | (Err e, _) => Err (ErrConflict e)
      | (Ok _, g) => Ok g
      end
  end.

Definition know_deployment (dep : string) (g : Ledger) : Ledger :=
  mkLedger (lg_runs g) (lg_leases g) (lg_bus g) ({[dep]} ∪ lg_deployments g).

Definition created_row (run : string) (p : LaunchPlan) : DepRow :=
  mkDep (lp_recipe p) (lp_parameters p) (placementSetFromPlan p) DRunning OUnknown (plan_endpoint p) None [] (Some run) ∅.

(** [createPlanned] after the check that downloads nothing; [dep] and [run] are the identifiers it creates *)
Definition createPlanned (dep run : string) (p : LaunchPlan) (s : Service) : result deploy_error unit * Service :=
  if bool_decide (is_Some (sv_deployments s !! dep))
     || placement_taken (lp_recipe p) (lp_parameters p) (placementSetFromPlan p) dep s
     || negb (bool_decide (is_Some (sv_recipes s !! lp_recipe p)))
  then (Err ErrRow, s)
  else match commit_launch dep run p (know_deployment dep (sv_ledger s)) with
       | Err e => (Err e, s)
       | Ok g =>
           let s := set_deployments <[dep := created_row run p]> (set_ledger (λ _, g) s) in
           let s := set_ledger (set_bus (Publish "run.created" run
                      (mustJSON [("run_id", JString run); ("module", JString "serving")]))) s in
           let s := announce "deployment.created" dep [("run_id", JString run); ("recipe", JString (lp_name p))] s in
           (Ok tt, begin_run dep run p s)
       end.

(** A deployment can be started when it is not wanted running and was reported stopped *)
Definition startable (d : DepRow) : bool := bool_decide (d_desired d = DStopped) && bool_decide (d_observed d = OStopped).

(** [Start]; [planned] is the outcome of planning and of the checks on the plan *)
Definition Start (dep run : string) (planned : result deploy_error LaunchPlan) (s : Service)
    : result deploy_error unit * Service :=
  match sv_deployments s !! dep with
  | None => (Err ErrDeployment, s)
  | Some d =>
      if negb (startable d) then (Err ErrDeployState, s)
      else match planned with
           | Err e => (Err e, s)
           | Ok p =>
               match commit_launch dep run p (sv_ledger s) with
               | Err e => (Err e, s)
               | Ok g =>
                   if placement_taken (d_recipe d) (d_parameters d) (placementSetFromPlan p) dep s then (Err ErrRow, s)
                   else
                     let s := alter_dep (restarted_row run (placementSetFromPlan p) (plan_endpoint p)) dep (set_ledger (λ _, g) s) in
                     let s := announce "deployment.started" dep [("run_id", JString run); ("recipe", JString (lp_name p))] s in
                     (Ok tt, begin_run dep run p s)
               end
           end
  end.

Definition Delete (dep : string) (s : Service) : result deploy_error unit * Service :=
  match sv_deployments s !! dep with
  | None => (Err ErrDeployment, s)
  | Some d =>
      if negb (bool_decide (d_desired d = DStopped)) || negb (bool_decide (d_observed d = OStopped)) then (Err ErrDeployState, s)
      else
        let g := sv_ledger s in
        let g := mkLedger (filter (λ kr, r_deployment (snd kr) ≠ Some dep) (lg_runs g)) (lg_leases g) (lg_bus g)
                   (lg_deployments g ∖ {[dep]}) in
        (Ok tt, announce "deployment.deleted" dep [] (set_deployments (delete dep) (set_ledger (λ _, g) s)))
  end.

(** ** Observations *)

Definition failWorkload (d : DepRow) (su : StateUpdate) (s : Service) : Service :=
  let dep := su_dep su in
  let '(code, message) := workloadFailure su in
  let diagnostics := Upsert (d_diagnostics d) (Res (rank_resource (su_rank su)) (Error code message)) in
  let s := SetDeploymentStopping diagnostics dep s in
  let s := setRankState dep (su_rank su) (su_state su) s in
  let s := setPhase dep (su_rank su) PhaseStopped s in
  let run := run_string d in
  let s := match d_run d with
           | None => s
           | Some run =>
               let s := if run_live run s then SetRunState (e_now env) run Failed code message s else s in
               setServeRankProgress run (su_rank su) [("phase", JString "failed"); ("message", JString message)] s
           end in
  let s := dispatch_all dep run (d_placement d)
             (filter (λ rank, rank ≠ su_rank su) (AllRanks (d_placement d))) s in
  announce "deployment.stopping" dep [("reason", JString code)] (checkStopComplete dep run s).

(** The number [strconv.Atoi] returns, its error dropped *)
Definition digits_value (s : string) : Z :=
  (fix go (acc : Z) (s : string) : Z :=
     match s with "" => acc | String c s => go (acc * 10 + (Z.of_nat (nat_of_ascii c) - 48)) s end) 0 s.

Definition is_digit (c : ascii) : bool := let n := nat_of_ascii c in (48 <=? n)%nat && (n <=? 57)%nat.

Definition atoi (s : string) : Z :=
  let '(sign, body) := match s with
                       | String "-"%char t => (-1, t)
                       | String "+"%char t => (1, t)
                       | _ => (1, s)
                       end in
  if bool_decide (body = "") || negb (sforallb is_digit body) then 0
  else Z.max (- 2 ^ 63) (Z.min max_int64 (sign * digits_value body)).

(** The port a report publishes, recovered from the workload when the agent does not know it *)
Definition report_port (d : DepRow) (su : StateUpdate) (s : Service) : Z :=
  if negb (su_port su =? 0) then su_port su
  else if bool_decide (su_state su = "running") && bool_decide (default "" (d_endpoint d) = "") then
    match manifestFor (d_recipe d) s with
    | Ok m =>
        match selectWorkload d m with
        | Ok w =>
            match w_ports w with
            | p :: _ => if po_host p =? 0 then po_container p else po_host p
            | [] => 0
            end
        | Err _ => 0
        end
    | Err _ => 0
    end
  else 0.

Definition report_endpoint (d : DepRow) (node : string) (su : StateUpdate) (s : Service) : option string :=
  match EntryFor (d_placement d) 0 with
  | Some head =>
      if (su_rank su =? 0) && bool_decide (pl_node head = node) then
        let port := report_port d su s in
        if negb (port =? 0) || (bool_decide (su_state su = "running") && bool_decide (is_Some (d_endpoint d))) then
          match e_inventory env node with
          | Some inv =>
              let port := if (port =? 0) && negb (bool_decide (inv_advertise inv = ""))
                          then match SplitHostPort (default "" (d_endpoint d)) with Some (_, p) => atoi p | None => port end
                          else port in
              if negb (port =? 0) && negb (bool_decide (firstNonLoopback (Some inv) = ""))
              then Some (JoinHostPort (firstNonLoopback (Some inv)) (Itoa port))
              else d_endpoint d
          | None => d_endpoint d
          end
        else d_endpoint d
      else d_endpoint d
  | None => d_endpoint d
  end.

Definition with_endpoint (endpoint : option string) (d : DepRow) : DepRow :=
  mkDep (d_recipe d) (d_parameters d) (d_placement d) (d_desired d) (d_observed d) endpoint (d_caps d)
    (d_diagnostics d) (d_run d) (d_dispatch d).

(** The rank state a report leaves, and the diagnostic it raises *)
Definition report_state (d : DepRow) (su : StateUpdate) : string * Diagnostic :=
  let diag := snd (mapObserved (su_state su) (su_message su)) in
  if negb (bool_decide (su_message su = "")) then ("degraded", diag)
  else if bool_decide (su_state su = "running") && (su_rank su =? 0) then
    match e_ready env d with
    | (true, _) => ("ready", Info "workload.healthy" "readiness probe passed")
    | (false, detail) => ("created", Info "workload.readiness_pending" detail)
    end
  else (su_state su, diag).

(** The wake-up of the head and the progress that follow such a report *)
Definition after_report (d : DepRow) (su : StateUpdate) (observed : Observed) (s : Service) : Service :=
  let ps := d_placement d in
  let run := run_string d in
  let s := if bool_decide (su_state su = "observing") || bool_decide (su_state su = "running")
           then wakeWorkerFirstHead (su_dep su) run s else s in
  if bool_decide (run = "") then s
  else if bool_decide (observed = OHealthy) then
    let s := if bool_decide (ps_upstream ps = []) then s else SetRunState (e_now env) run Running "" "" s in
    foldl (λ s rank, progress run rank "healthy" s) s (AllRanks ps)
  else
    progress run (su_rank su)
      (if bool_decide (su_state su = "running") then "health_check"
       else if bool_decide (su_state su = "created") || bool_decide (su_state su = "restarting") then "starting_container"
       else su_state su) s.

(** A report on a deployment that is to run, of a container that has not ended *)
Definition report_running (d : DepRow) (node : string) (su : StateUpdate) (s : Service) : Service :=
  let dep := su_dep su in
  let endpoint := report_endpoint d node su s in
  let '(rankState, diag) := report_state (with_endpoint endpoint d) su in
  let s := setRankState dep (su_rank su) rankState s in
  let observed := aggregateRankState dep (d_placement d) s in
  let s := UpdateDeploymentObserved observed endpoint (d_caps d)
             (Upsert (d_diagnostics d) (Res (rank_resource (su_rank su)) diag)) dep s in
  let s := announce "deployment.state" dep
             [("state", JString (observed_name observed)); ("rank", JNumber (Itoa (su_rank su)))] s in
  after_report d su observed s.

(** A report on a deployment that is to stop *)
Definition report_stopped (d : DepRow) (su : StateUpdate) (s : Service) : Service :=
  let dep := su_dep su in
  let run := run_string d in
  if terminalWorkloadState (su_state su)
  then checkStopComplete dep run (setPhase dep (su_rank su) PhaseStopped (setRankState dep (su_rank su) (su_state su) s))
  else if bool_decide (phase d (su_rank su) = PhaseStopped)
          && negb (bool_decide (su_state su ∈ ["running"; "paused"; "restarting"])) then s
  else
    let s := setRankState dep (su_rank su) "stopping" s in
    let s := setPhase dep (su_rank su) PhaseStopping s in
    let s := SetDeploymentStopping (d_diagnostics d) dep s in
    dispatchNext dep (su_rank su) run (placementFor dep (su_rank su) s) s.

Definition OnStateUpdate (node : string) (su : StateUpdate) (s : Service) : Service :=
  if bool_decide (su_dep su = "") || bool_decide (su_run su = "") then s
  else match sv_deployments s !! su_dep su with
       | None => s
       | Some d =>
           if negb (bool_decide (d_run d = Some (su_run su))) then s
           else
             let s := setPlacementContainer (su_dep su) (su_rank su) (su_container su) s in
             match d_desired d with
             | DStopped => report_stopped d su s
             | DRunning =>
                 if terminalWorkloadState (su_state su) then failWorkload d su s else report_running d node su s
             end
       end.

(** ** Results of commands *)

(** The branch of [OnCommandResult] for a command [c] that was in flight, [d] the row it reads *)
Definition on_result (c : inflightCmd) (cr : CommandResult) (d : DepRow) (s : Service) : Service :=
  let dep := c_dep c in
  let rank := c_rank c in
  let run := runIDFor dep s in
  let pl := placementFor dep rank s in
  let to p s := setPhase dep rank p s in
  let next p s := dispatchNext dep rank run pl (to p s) in
  let confirm s := checkStopComplete dep run (to PhaseStopped s) in
  let stopping := bool_decide (d_desired d = DStopped) in
  let failed code s := fail dep rank run code (cr_error cr) s in
  match c_op c with
  | CPrepare => if cr_ok cr then next PhasePrepared s else failed "extension.prepare_failed" s
  | CStopPrepare => if cr_ok cr then confirm s else failed "extension.stop_failed" s
  | CStopVerify => if cr_ok cr then next PhaseStarted s else failed "extension.stop_failed" s
  | CVerify =>
      if cr_ok cr then
        let s := to PhaseStarted s in
        let s := if bool_decide (run = "") then s else SetRunState (e_now env) run Running "" "" s in
        wakeWorkerFirstHead dep run (dispatchNext dep rank run pl s)
      else failed "extension.verify_failed" s
  | CArtifactFetch => if cr_ok cr then s else failed "artifact.fetch_failed" s
  | CPull =>
      if stopping then confirm s
      else if cr_ok cr then next PhasePulled s else failed "workload.pull_failed" s
  | CCreate =>
      if negb (cr_ok cr) && negb (isContainerExists (cr_error cr))
      then if stopping then confirm s else failed "workload.create_failed" s
      else next (if stopping then PhaseStopping else PhaseCreated) s
  | CHostPrepare =>
      if stopping then next PhaseStopping s
      else if cr_ok cr then next PhaseHostPrepared s else failed "host.prepare_failed" s
  | CStart =>
      if stopping then next PhaseStopping s
      else if negb (cr_ok cr) && negb (isContainerExists (cr_error cr)) && negb (isAlreadyRunning (cr_error cr))
      then failed "workload.start_failed" s
      else match manifestFor (d_recipe d) s with
           | Err e => fail dep rank run "recipe.manifest" e s
           | Ok m =>
               if bool_decide (is_Some (m_verify m)) then next PhaseVerifying s
               else
                 let s := to PhaseStarted s in
                 let s := if negb (bool_decide (run = "")) && bool_decide (ps_upstream (d_placement d) = [])
                          then SetRunState (e_now env) run Running "" "" s else s in
                 wakeWorkerFirstHead dep run (dispatchNext dep rank run pl s)
           end
  | CInspect =>
      if cr_ok cr
      then OnStateUpdate (pl_node pl)
             (mkStateUpdate dep run (cr_container cr) (cr_state cr) rank (cr_error cr) (cr_exit cr) (cr_oom cr) 0) s
      else if isContainerMissing (cr_error cr)
      then OnStateUpdate (pl_node pl) (mkStateUpdate dep run "" "missing" rank (cr_error cr) 0 false 0) s
      else s
  | CStop =>
      if cr_ok cr || isContainerMissing (cr_error cr) then confirm s
      else noteDispatch dep (Res (rank_resource rank) (Error "workload.stop_failed" (rank_message rank (cr_error cr)))) s
  | CUpdateFetch => s
  end.

(** [OnCommandResult]; the waiter of a repository update is not part of this state *)
Definition OnCommandResult (cr : CommandResult) (s : Service) : Service :=
  match inflightTake (cr_id cr) s with
  | (None, s) => s
  | (Some c, s) =>
      if bool_decide (c_op c = CUpdateFetch) then s
      else match sv_deployments s !! c_dep c with
           | None => s
           | Some d =>
               if bool_decide (phase d (c_rank c) = PhaseStopped) && bool_decide (d_desired d = DStopped) then s
               else on_result c cr d s
           end
  end.

(** ** Nodes that come and go *)

(** One deployment of the list [Converge] read *)
Definition converge_one (node dep : string) (d : DepRow) (s : Service) : Service :=
  if bool_decide (d_observed d = OStopped) && bool_decide (d_desired d = DStopped)
  then ClearStoppedDeploymentEndpoint (Compact (d_diagnostics d)) dep s
  else
    let ranks := RanksOnNode (d_placement d) node in
    if bool_decide (ranks = []) then s
    else
      let s := dispatch_all dep (run_string d) (d_placement d) ranks s in
      if bool_decide (d_desired d = DStopped) then checkStopComplete dep (run_string d) s else s.

(** [Converge] after [reconcileTransfers], which touches only the transfers table *)
Definition Converge (node : string) (s : Service) : Service :=
  foldl (λ s e, converge_one node (fst e) (snd e) s) s (map_to_list (sv_deployments s)).

Definition offline_one (node dep : string) (d : DepRow) (s : Service) : Service :=
  let ranks := RanksOnNode (d_placement d) node in
  if bool_decide (d_desired d = DStopped) || bool_decide (ranks = []) then s
  else
    let other := existsb (λ e, negb (bool_decide (pl_node e = node)) && e_online env (pl_node e)) (ps_entries (d_placement d)) in
    let diag := Res node (Error "agent.offline"
                  ("node " +:+ node +:+ " offline; ranks [" +:+ join " " (Itoa <$> ranks) +:+ "] unresolved")) in
    let s := foldl (λ s rank, setRankState dep rank "offline" s) s ranks in
    UpdateDeploymentObserved (if other then ODegraded else OUnknown)
      (if bool_decide (0 ∈ ranks) then Some "" else d_endpoint d) (d_caps d) (Upsert (d_diagnostics d) diag) dep s.

Definition degraded_by (node : string) (d : DepRow) : bool :=
  bool_decide (d_desired d = DRunning) && negb (bool_decide (RanksOnNode (d_placement d) node = [])).

Definition MarkNodeOffline (node : string) (s : Service) : Service :=
  let rows := map_to_list (sv_deployments s) in
  let s := foldl (λ s e, offline_one node (fst e) (snd e) s) s rows in
  foldl (λ s e, announce "deployment.state" (fst e) [("reason", JString "agent.offline")] s) s
    (filter (λ e, degraded_by node (snd e) = true) rows).

(** ** The goroutine of a gate *)

Definition current_run (dep run : string) (s : Service) : bool :=
  match sv_deployments s !! dep with
  | Some d => bool_decide (d_desired d = DRunning) && bool_decide (run_string d = run)
  | None => false
  end.

Definition set_pc (key : string * Z) (g : Gate) (pc : GatePC) (s : Service) : Service :=
  set_live <[key := mkGate (g_run g) (g_placement g) (g_pending g) pc]> s.

(** The end of a round: again when a wake-up came in and nothing failed *)
Definition gate_finish (key : string * Z) (failed : bool) (s : Service) : Service :=
  match sv_live s !! key with
  | Some g =>
      if g_pending g && negb failed
      then set_live <[key := mkGate (g_run g) (g_placement g) false GBegin]> s
      else set_live (delete key) s
  | None => s
  end.

Definition gate_begin (key : string * Z) (g : Gate) (s : Service) : Service :=
  let '(dep, rank) := key in
  match sv_deployments s !! dep with
  | None => gate_finish key true s
  | Some d =>
      if current_run dep (g_run g) s
      then match phase d rank with
           | PhaseStarted | PhaseStopped | PhasePrepared => set_pc key g (GDecide None) s
           | _ => set_pc key g GLock s
           end
      else gate_finish key false s
  end.

(** [acquireDeployment] under its lock, up to the call of the downloads service *)
Definition gate_lock (key : string * Z) (g : Gate) (s : Service) : Service :=
  set_pc key g (if current_run (fst key) (g_run g) s then GAcquire else GDecide (Some "context canceled")) s.

Definition gate_decide (key : string * Z) (g : Gate) (err : option string) (s : Service) : Service :=
  let '(dep, rank) := key in
  let s :=
    if current_run dep (g_run g) s
    then match err with
         | Some e => snd (Stop dep (fail dep rank (g_run g) "acquisition.unavailable" e s))
         | None => dispatchReady dep rank (g_run g) (g_placement g) s
         end
    else s in
  gate_finish key (bool_decide (is_Some err)) s.

(** One step of the goroutine; [acquired] is what the downloads service answers when it is asked *)
Definition gate_step (key : string * Z) (acquired : option string) (s : Service) : Service :=
  match sv_live s !! key with
  | None => s
  | Some g =>
      match g_pc g with
      | GBegin => gate_begin key g s
      | GLock => gate_lock key g s
      | GAcquire => set_pc key g (GDecide acquired) s
      | GDecide err => gate_decide key g err s
      end
  end.
End handlers.
