(* ===== verification/AgentLogs.v ===== *)
(** * Logs of workloads: [internal/agent/logs.go], [internal/agent/workload.go], [internal/server/agent.go]

    The identity of a workload on its device and the container that has it; the tailer that copies the output of a
    container, line by line, into a file of the device and sends it to the coordinator; the replay of a file; and the
    coordinator's side, which appends what arrives.  The outbox of the agent is a queue of 256 messages that drops what does
    not fit.  SHA-256 in hex is an argument; a write to a log that fails leaves nothing behind. *)

From S2P Require Import Prelude GoStrings Utf8 Paths RunLogs SourceConfig ArtifactIdentity Recipe Resources Deploy ContainerRuntime.
Open Scope Z_scope.

(** ** Identity *)

Section Identity.
Context (hash : string → string).

(** The first six bytes of the digest *)
Definition shortID (id : string) : string := if bool_decide (id = "") then "none" else stake 12 (hash id).

Definition containerName (deploymentID runID : string) (rank : Z) : string :=
  let name := "lmw-" +:+ shortID deploymentID in
  let name := if bool_decide (runID = "") then name else name +:+ "-" +:+ shortID runID in
  name +:+ "-r" +:+ Itoa rank.
End Identity.

Definition id_head (a : ascii) : bool := byte_in 65 90 a || byte_in 97 122 a || byte_in 48 57 a.
Definition id_tail (a : ascii) : bool := id_head a || is_char "." a || is_char "_" a || is_char "-" a.

(** The pattern [^[A-Za-z0-9][A-Za-z0-9._-]{0,127}$] *)
Definition workloadID (s : string) : bool :=
  match s with
  | "" => false
  | String a s => id_head a && sforallb id_tail s && (String.length s <=? 127)%nat
  end.

Definition validateWorkloadIdentity (deploymentID runID : string) (rank : Z) : option string :=
  if bool_decide (deploymentID = "") && bool_decide (runID = "")
     || negb (bool_decide (deploymentID = "")) && negb (workloadID deploymentID)
     || negb (bool_decide (runID = "")) && negb (workloadID runID) || (rank <? 0)
  then Some "workload.identity_invalid" else None.

Definition validateContainerIdentity (labels : gmap string string) (deploymentID runID : string) (rank : Z) : option string :=
  if negb (bool_decide (label labels LabelManaged = "true")) then Some "container.unmanaged"
  else if negb (bool_decide (label labels LabelDeployment = deploymentID)) || negb (bool_decide (label labels LabelRun = runID))
          || negb (bool_decide (label labels LabelRank = Itoa rank))
  then Some "container.identity_mismatch" else None.

Definition resolve {E} `{!Runtime E} (name deploymentID runID : string) (rank : Z) (e : E) : result string string :=
  match rt_Inspect name e with
  | Err _ => Err ("container.missing: " +:+ name)
  | Ok info =>
      match validateContainerIdentity (ci_labels info) deploymentID runID rank with
      | Some err => Err (err +:+ ": " +:+ name)
      | None => Ok (ci_id info)
      end
  end.

(** ** Messages of the agent *)

Record tailKey := mkTailKey { tk_run : string; tk_dep : string; tk_rank : Z }.

#[export] Instance tailKey_eq_dec : EqDecision tailKey.
Proof. solve_decision. Defined.

#[export] Instance tailKey_countable : Countable tailKey.
Proof. apply (inj_countable' (λ k, (tk_run k, tk_dep k, tk_rank k)) (λ '(a, b, c), mkTailKey a b c)). by intros []. Qed.

Record LogChunk := mkLogChunk {
  lc_key : tailKey; lc_stream : string; lc_offset : Z; lc_data : bytes; lc_final : bool; lc_end : Z }.

Inductive AgentMessage :=
  | MResult (r : CommandResult)
  | MState (su : StateUpdate)
  | MLog (lc : LogChunk).

(** What waits in [sendQ], and what [sendLoop] wrote to the stream *)
Record Outbox := mkOutbox { ob_queue : list AgentMessage; ob_wire : list AgentMessage }.

Definition sendQ_capacity : nat := 256.

Definition send (m : AgentMessage) (o : Outbox) : Outbox :=
  if (length (ob_queue o) <? sendQ_capacity)%nat then mkOutbox (ob_queue o ++ [m]) (ob_wire o) else o.

(** One turn of [sendLoop]; [sent] is whether the stream took the message *)
Definition sendLoop (sent : bool) (o : Outbox) : Outbox :=
  match ob_queue o with
  | [] => o
  | m :: q => mkOutbox q (if sent then ob_wire o ++ [m] else ob_wire o)
  end.

(** ** The lines of a stream *)

Definition nl : ascii := "010"%char.
Definition cr : ascii := "013"%char.

Definition drop_cr (line : bytes) : bytes :=
  match last line with Some c => if bool_decide (c = cr) then take (length line - 1) line else line | None => line end.

Definition MaxLine : Z := 1024 * 1024.

(** [bufio.Scanner] with [ScanLines] and a buffer of at most [MaxLine]: the lines of [data] after the bytes [line] of an
    unfinished one, and whether the scan did not stop at a line too long *)
Fixpoint scan (line data : bytes) : list bytes * bool :=
  match data with
  | [] => (match line with [] => [] | _ => [drop_cr line] end, true)
  | c :: data =>
      if bool_decide (c = nl) then let '(ls, ok) := scan [] data in (drop_cr line :: ls, ok)
      else if MaxLine <=? Z.of_nat (length line) + 1 then ([], false)
      else scan (line ++ [c]) data
  end.

(** ** The tailer *)

Section Tailer.
Context (logDir : string) (hash : string → string).

Definition logPath (key : tailKey) (stream : string) : string :=
  let run := if bool_decide (tk_run key = "") then tk_dep key else tk_run key in
  let run := if bool_decide (run = "") then "adhoc" else run in
  let dep := if bool_decide (tk_dep key = "") then "adhoc" else tk_dep key in
  Join [logDir; shortID hash run; shortID hash dep; "rank" +:+ Itoa (tk_rank key) +:+ "-" +:+ stream +:+ ".log"].

(** The lines of a stream go to the file and to the coordinator, with the offset they have in the file; [writes i] is
    whether the write of line [i] succeeds *)
Fixpoint emit (writes : nat → bool) (key : tailKey) (stream path : string) (offset : Z) (i : nat) (lines : list bytes)
    (s : files * Outbox) : bool * (files * Outbox) :=
  match lines with
  | [] => (true, s)
  | line :: lines =>
      if writes i
      then let line := line ++ [nl] in
           let fs := <[path := default [] (fst s !! path) ++ line]> (fst s) in
           emit writes key stream path (offset + Z.of_nat (length line)) (S i) lines
             (fs, send (MLog (mkLogChunk key stream offset line false 0)) (snd s))
      else (false, s)
  end.

(** [stream]: [opens] is whether directory and file can be made, [data] what the reader delivers and [eof] whether it ends
    without an error *)
Definition stream (opens : bool) (writes : nat → bool) (key : tailKey) (name : string) (data : bytes) (eof : bool)
    (s : files * Outbox) : files * Outbox :=
  if negb opens then s
  else
    let path := logPath key name in
    let file := default [] (fst s !! path) in
    let '(lines, scanned) := scan [] data in
    let '(written, s) := emit writes key name path (Z.of_nat (length file)) 0 lines (<[path := file]> (fst s), snd s) in
    if negb written || negb scanned || negb eof then s
    else (fst s, send (MLog (mkLogChunk key name 0 [] true (Z.of_nat (length (default [] (fst s !! path)))))) (snd s)).

(** ** The replay of a file *)

Definition replay_size : nat := Z.to_nat (256 * 1024).

(** Reads until the end of the file, each of at most [replay_size] bytes; [fuel] is the number of bytes left *)
Fixpoint replay (fuel : nat) (key : tailKey) (stream : string) (from : Z) (rest : bytes) (o : Outbox) : Outbox :=
  match fuel, rest with
  | S fuel, _ :: _ =>
      let chunk := take replay_size rest in
      replay fuel key stream (from + Z.of_nat (length chunk)) (drop replay_size rest) (send (MLog (mkLogChunk key stream from chunk false 0)) o)
  | _, _ => o
  end.

Definition handleLogRequest {E} `{!Runtime E} (dep run : string) (rank : Z) (stream : string) (from : Z) (e : E) (s : files * Outbox) : Outbox :=
  match validateWorkloadIdentity dep run rank, resolve (containerName hash dep run rank) dep run rank e with
  | None, Ok _ =>
      let key := mkTailKey run dep rank in
      let stream := if bool_decide (stream = "stderr") then stream else "stdout" in
      match fst s !! logPath key stream with
      | None => snd s
      | Some file =>
          if max_int64 <? from then snd s
          else let rest := drop (Z.to_nat from) file in replay (length rest) key stream from rest (snd s)
      end
  | _, _ => snd s
  end.
End Tailer.

(** ** Which tailers there are *)

(** A tailer whose goroutine waits in its [select], or one that has ended or only drains its streams *)
Inductive TailState := Tailing | Ended.

Record Tailer := mkTailer { tl_id : string; tl_state : TailState }.

(** [startTailer]: [None] when it waits forever for a goroutine that no longer receives, with the lock held *)
Definition startTailer (run dep : string) (rank : Z) (id : string) (ts : gmap tailKey Tailer) : option (gmap tailKey Tailer) :=
  match validateWorkloadIdentity dep run rank with
  | Some _ => Some ts
  | None =>
      let key := mkTailKey run dep rank in
      let started := Some (<[key := mkTailer id Tailing]> ts) in
      match ts !! key with
      | None => started
      | Some t =>
          if bool_decide (tl_id t = id) then Some ts
          else match tl_state t with Tailing => started | Ended => None end
      end
  end.

Definition stopTailer (run dep : string) (rank : Z) (ts : gmap tailKey Tailer) : gmap tailKey Tailer := delete (mkTailKey run dep rank) ts.

(** The goroutine of a tailer ends when the container stops, and all end with their session; the map keeps them *)
Definition tailer_ends (key : tailKey) (ts : gmap tailKey Tailer) : gmap tailKey Tailer := alter (λ t, mkTailer (tl_id t) Ended) key ts.
Definition session_ends (ts : gmap tailKey Tailer) : gmap tailKey Tailer := (λ t, mkTailer (tl_id t) Ended) <$> ts.

(** ** The coordinator *)

Record LogStore := mkLogStore { ls_files : files; ls_ends : ends }.

(** [appendLog] of the server; the run root exists and its files can be written *)
Definition appendLog (runRoot : string) (lc : LogChunk) (s : LogStore) : LogStore :=
  let run := tk_run (lc_key lc) in let dep := tk_dep (lc_key lc) in let rank := tk_rank (lc_key lc) in
  if bool_decide (run = "") then s
  else if lc_final lc then mkLogStore (ls_files s) (MarkLogEnd run dep rank (lc_stream lc) (lc_end lc) (ls_ends s))
  else
    let path := LogPath runRoot run dep rank (lc_stream lc) in
    if bool_decide (path = "") then s
    else mkLogStore (<[path := default [] (ls_files s !! path) ++ lc_data lc]> (ls_files s)) (ls_ends s).

Definition receive (runRoot : string) (m : AgentMessage) (s : LogStore) : LogStore :=
  match m with MLog lc => appendLog runRoot lc s | _ => s end.

Definition received (runRoot : string) (ms : list AgentMessage) (s : LogStore) : LogStore := foldl (λ s m, receive runRoot m s) s ms.

(** ** Identities are names *)

Lemma id_tail_slash : id_tail slash = false.
Proof. done. Qed.

Lemma workloadID_name s : workloadID s = true → name s = true.
Proof.
  destruct s as [|a s]; [done|]. simpl. intros [[Ha Hs]%andb_prop _]%andb_prop. apply name_spec.
  assert (a ≠ "."%char) by (by intros ->). assert (contains_byte slash s = false) by (by eapply (no_byte _ id_tail)).
  split_and!; [done|congruence|congruence|]. cbn [contains_byte]. apply orb_false_iff. split; [|done]. apply bool_decide_eq_false. by intros ->.
Qed.

Lemma identity_names dep run rank : validateWorkloadIdentity dep run rank = None → run ≠ "" →
  name run = true ∧ name (log_deployment dep) = true ∧ 0 ≤ rank.
Proof.
  unfold validateWorkloadIdentity. destruct (_ || _) eqn:E; [done|]. intros _ Hr. apply orb_false_elim in E as [[[_ Hd]%orb_false_elim Hn]%orb_false_elim Hk].
  rewrite (bool_decide_eq_false_2 _ Hr) in Hn. simpl in Hn. apply negb_false_iff, workloadID_name in Hn. split; [done|]. split; [|lia].
  unfold log_deployment. case_bool_decide; [done|]. simpl in Hd. by apply negb_false_iff, workloadID_name in Hd.
Qed.

Lemma render_nonempty b es : (2 ≤ length es)%nat → render_path b es ≠ "".
Proof. destruct es as [|x [|y es]]; simpl; [lia|lia|]. intros _. unfold render_path. destruct b; simpl; [done|]. by destruct x. Qed.

Lemma LogPath_valid root dep run rank stream : root ≠ "" → validateWorkloadIdentity dep run rank = None → run ≠ "" → LogPath root run dep rank stream ≠ "".
Proof.
  intros Hroot Hv Hr. destruct (identity_names dep run rank Hv Hr) as (H1 & H2 & _). rewrite LogPath_names by done. apply render_nonempty. rewrite length_app. simpl. lia.
Qed.

(** ** What a stream sends is what it writes *)

Definition text (lines : list bytes) : bytes := concat ((λ l, l ++ [nl]) <$> lines).

(** The chunks of [lines] from [offset] on *)
Fixpoint chunks (key : tailKey) (stream : string) (offset : Z) (lines : list bytes) : list AgentMessage :=
  match lines with
  | [] => []
  | l :: lines => MLog (mkLogChunk key stream offset (l ++ [nl]) false 0) :: chunks key stream (offset + Z.of_nat (length (l ++ [nl]))) lines
  end.

Lemma chunks_length key stream offset lines : length (chunks key stream offset lines) = length lines.
Proof. revert offset. induction lines as [|l lines IH]; intros offset; [done|]. cbn. by rewrite IH. Qed.

Lemma send_room m o : (length (ob_queue o) < sendQ_capacity)%nat → send m o = mkOutbox (ob_queue o ++ [m]) (ob_wire o).
Proof. intros H. unfold send. by rewrite (proj2 (Nat.ltb_lt _ _) H). Qed.

Lemma emit_spec writes key stream path offset i lines fs q w file :
  fs !! path = Some file → (length q + length lines ≤ sendQ_capacity)%nat →
  ∃ n, (n ≤ length lines)%nat ∧ emit writes key stream path offset i lines (fs, mkOutbox q w) =
    (bool_decide (n = length lines), (<[path := file ++ text (take n lines)]> fs, mkOutbox (q ++ chunks key stream offset (take n lines)) w)) ∧
    ((∀ j, writes j = true) → n = length lines).
Proof.
  revert offset i fs q file. induction lines as [|l lines IH]; intros offset i fs q file Hf Hl.
  - exists 0%nat. cbn [emit length take chunks]. change (text []) with (@nil ascii). by rewrite bool_decide_eq_true_2, !app_nil_r, insert_id by done.
  - simpl in *. destruct (writes i) eqn:Ew; cycle 1.
    { exists 0%nat. cbn [take chunks]. rewrite bool_decide_eq_false_2 by done. change (text []) with (@nil ascii). rewrite !app_nil_r, insert_id by done. split_and!; [lia|done|].
      intros H. by rewrite H in Ew. }
    rewrite Hf, send_room by (simpl; lia). simpl.
    destruct (IH (offset + Z.of_nat (length (l ++ [nl]))) (S i) (<[path := file ++ l ++ [nl]]> fs) (q ++ [MLog (mkLogChunk key stream offset (l ++ [nl]) false 0)]) (file ++ l ++ [nl]))
      as (n & Hn & He & Ha); [by rewrite lookup_insert_eq|rewrite length_app; simpl; lia|].
    exists (S n). rewrite He. split; [lia|]. split; [|intros Hw; by rewrite (Ha Hw)]. f_equal.
    + apply bool_decide_ext. lia.
    + simpl. unfold text. simpl. rewrite insert_insert_eq, <- !app_assoc. done.
Qed.

(** The log of [key] in the store of the coordinator grew by [d], and nothing else changed *)
Definition grew (log : string) (d : bytes) (s s' : LogStore) : Prop :=
  default [] (ls_files s' !! log) = default [] (ls_files s !! log) ++ d ∧ (∀ p, p ≠ log → ls_files s' !! p = ls_files s !! p).

Lemma received_chunks root key stream offset lines s :
  let log := LogPath root (tk_run key) (tk_dep key) (tk_rank key) stream in
  log ≠ "" → tk_run key ≠ "" → grew log (text lines) s (received root (chunks key stream offset lines) s) ∧
  ls_ends (received root (chunks key stream offset lines) s) = ls_ends s.
Proof.
  intros log Hlog Hrun. revert offset s. induction lines as [|l lines IH]; intros offset s.
  - cbn. unfold grew. change (text []) with (@nil ascii). by rewrite app_nil_r.
  - cbn [chunks received foldl]. set (s1 := receive root _ s).
    assert (s1 = mkLogStore (<[log := default [] (ls_files s !! log) ++ l ++ [nl]]> (ls_files s)) (ls_ends s)) as ->.
    { unfold s1. cbn [receive]. unfold appendLog. cbn [lc_key lc_final lc_stream lc_data]. rewrite (bool_decide_eq_false_2 _ Hrun). fold log.
      by rewrite (bool_decide_eq_false_2 _ Hlog). }
    destruct (IH (offset + Z.of_nat (length (l ++ [nl]))) (mkLogStore (<[log := default [] (ls_files s !! log) ++ l ++ [nl]]> (ls_files s)) (ls_ends s))) as [[H1 H2] H3].
    split; [|done]. split.
    + etransitivity; [exact H1|]. cbn [ls_files]. rewrite lookup_insert_eq. cbn [default]. unfold text. cbn. by rewrite <- !app_assoc.
    + intros p Hp. etransitivity; [by apply H2|]. cbn [ls_files]. by rewrite lookup_insert_ne.
Qed.

Lemma MarkLogEnd_max run dep rank stream v s :
  (∀ v', LogEnded run dep rank stream s = Some v' → v' ≤ v) → LogEnded run dep rank stream (MarkLogEnd run dep rank stream v s) = Some v.
Proof.
  unfold LogEnded, MarkLogEnd. intros H. destruct (logEnds s !! _) as [v'|] eqn:E; cbn [logEnds]; [|by rewrite lookup_insert_eq].
  specialize (H _ eq_refl). case_match eqn:Hl; cbn [logEnds]; [|by rewrite lookup_insert_eq]. rewrite E. f_equal. lia.
Qed.

(** The lines of an output that ends its lines with line feeds alone are the output *)
Lemma scan_text line data : snd (scan line data) = true → nl ∉ line → cr ∉ line ++ data → line ++ data = [] ∨ last (line ++ data) = Some nl →
  text (fst (scan line data)) = line ++ data.
Proof.
  revert line. induction data as [|c data IH]; intros line.
  - cbn [scan]. rewrite app_nil_r. intros _ Hn _ [->|Hl]; [done|]. exfalso. apply Hn. by apply last_Some_elem_of.
  - intros Hs Hn Hc Hl. assert (drop_cr line = line) as Hd.
    { unfold drop_cr. destruct (last line) as [a|] eqn:E; [|done]. rewrite bool_decide_eq_false_2; [done|]. intros ->. apply Hc, elem_of_app. left. by apply last_Some_elem_of. }
    cbn [scan] in *. case_bool_decide as Ec.
    + subst c. destruct (scan [] data) as [ls ok] eqn:Es. cbn [fst snd] in *. subst ok. rewrite Hd.
      assert (text ls = data) as Ht.
      { specialize (IH []). rewrite Es in IH. apply IH; [done|apply not_elem_of_nil| |].
        - intros H. apply Hc. set_solver.
        - destruct data as [|x data]; [by left|]. right. destruct Hl as [Hl|Hl]; [by destruct line|]. by rewrite last_app_cons, last_cons_cons in Hl. }
      unfold text in *. cbn. rewrite Ht. by rewrite <- app_assoc.
    + destruct (MaxLine <=? _) eqn:Em; [done|]. assert (line ++ c :: data = (line ++ [c]) ++ data) as Ha by (by rewrite <- app_assoc).
      rewrite Ha in *. apply IH; try done. set_solver.
Qed.


Definition tail_sample : tailKey := mkTailKey "run-1" "dep-1" 0.
Definition output_sample : bytes := to_bytes "ready" ++ [nl] ++ to_bytes "done" ++ [nl].


(** ** What the tailers miss *)

(** A line of a mebibyte ends the copy of the stream: neither it, nor what follows, nor the mark of the end is sent *)
Lemma long_line_ends_log line rest : nl ∉ line → MaxLine ≤ Z.of_nat (length line) → scan [] (line ++ rest) = ([], false).
Proof.
  intros Hn Hl. assert (∀ (done_ line : bytes), nl ∉ line → Z.of_nat (length done_) < MaxLine ≤ Z.of_nat (length done_ + length line) → scan done_ (line ++ rest) = ([], false)) as H; cycle 1.
  { apply H; [done|]. unfold MaxLine in *. simpl. lia. }
  clear. intros d line. revert d. induction line as [|c line IH]; intros d Hn Hl; [simpl in Hl; lia|]. cbn [app scan].
  rewrite bool_decide_eq_false_2 by set_solver. destruct (MaxLine <=? _) eqn:E; [done|]. apply IH; [set_solver|]. rewrite length_app. simpl in *. lia.
Qed.

(** A tailer that starts over on a container it has read, as after a restart of the agent, copies the whole output again *)
Lemma restarted_tail_repeats logDir hash key name data fs q w :
  (length q + 2 * S (length (fst (scan [] data))) < sendQ_capacity)%nat →
  let path := logPath logDir hash key name in
  let once := stream logDir hash true (λ _, true) key name data true (fs, mkOutbox q w) in
  fst (stream logDir hash true (λ _, true) key name data true once) !! path =
    Some (default [] (fs !! path) ++ text (fst (scan [] data)) ++ text (fst (scan [] data))).
Proof.
  intros Hq path once. assert (∀ fs q, (length q + S (length (fst (scan [] data))) < sendQ_capacity)%nat → ∃ fs' q',
    stream logDir hash true (λ _, true) key name data true (fs, mkOutbox q w) = (fs', mkOutbox q' w) ∧
    fs' !! path = Some (default [] (fs !! path) ++ text (fst (scan [] data))) ∧ (length q' ≤ length q + S (length (fst (scan [] data))))%nat) as H.
  { clear. intros fs q Hq. unfold stream. cbn [negb fst snd]. fold path. destruct (scan [] data) as [ls ok]. cbn [fst] in Hq |- *. set (file := default [] (fs !! path)).
    destruct (emit_spec (λ _, true) key name path (Z.of_nat (length file)) 0 ls (<[path := file]> fs) q w file) as (n & Hn & -> & Hall);
      [by rewrite lookup_insert_eq|lia|]. rewrite (Hall (λ _, eq_refl)), firstn_all, insert_insert_eq. destruct (_ || _).
    - eexists _, _. split; [done|]. split; [by rewrite lookup_insert_eq|]. rewrite length_app, chunks_length. lia.
    - rewrite send_room by (cbn [snd ob_queue]; rewrite length_app, chunks_length; lia). cbn [fst snd ob_queue ob_wire]. eexists _, _. split; [done|]. split; [by rewrite lookup_insert_eq|].
      cbn [ob_queue snd]. rewrite !length_app, chunks_length. simpl. lia. }
  destruct (H fs q) as (fs1 & q1 & E1 & H1 & L1); [lia|]. unfold once. rewrite E1. destruct (H fs1 q1) as (fs2 & q2 & E2 & H2 & L2); [lia|].
  rewrite E2. cbn [fst]. rewrite H2, H1. cbn [default]. by rewrite app_assoc.
Qed.

(** After a reconnect the container is not tailed again: the tailer that ended with the old session keeps its place *)
Lemma reconnect_keeps_dead_tailer run dep rank id ts :
  ts !! mkTailKey run dep rank = Some (mkTailer id Tailing) → startTailer run dep rank id (session_ends ts) = Some (session_ends ts) ∧
  session_ends ts !! mkTailKey run dep rank = Some (mkTailer id Ended).
Proof.
  intros H. assert (session_ends ts !! mkTailKey run dep rank = Some (mkTailer id Ended)) as E by (unfold session_ends; by rewrite lookup_fmap, H).
  split; [|done]. unfold startTailer. destruct validateWorkloadIdentity; [done|]. rewrite E. cbn [tl_id]. by rewrite bool_decide_eq_true_2.
Qed.

(** Starting a container that took the place of one whose tailer has ended never returns, and keeps the lock of the workloads *)
Lemma recreated_container_wedges run dep rank id id' ts :
  validateWorkloadIdentity dep run rank = None → id ≠ id' →
  ts !! mkTailKey run dep rank = Some (mkTailer id Tailing) → startTailer run dep rank id' (tailer_ends (mkTailKey run dep rank) ts) = None.
Proof.
  intros Hv Hn H. unfold startTailer, tailer_ends. rewrite Hv, lookup_alter_eq, H. cbn [fmap option_fmap option_map tl_id tl_state]. by rewrite bool_decide_eq_false_2.
Qed.

Lemma replay_size_pos : (0 < replay_size)%nat.
Proof. unfold replay_size. lia. Qed.

(** The replay of a file sends what it holds from the offset on, in chunks that follow one another *)
Lemma replay_spec fuel key stream from rest q w : (length rest ≤ fuel)%nat → (length q + length rest ≤ sendQ_capacity)%nat →
  ∃ ms, replay fuel key stream from rest (mkOutbox q w) = mkOutbox (q ++ ms) w ∧
    concat ((λ m, match m with MLog lc => lc_data lc | _ => [] end) <$> ms) = rest.
Proof.
  revert from rest q. induction fuel as [|fuel IH]; intros from rest q Hf Hq.
  - destruct rest; [|simpl in Hf; lia]. exists []. by rewrite app_nil_r.
  - destruct rest as [|c rest]; [exists []; by rewrite app_nil_r|]. cbn [replay]. rewrite send_room by (simpl in *; lia). cbn [ob_queue ob_wire].
    edestruct (IH (from + Z.of_nat (length (take replay_size (c :: rest)))) (drop replay_size (c :: rest))) as (ms & -> & Hms).
    + rewrite length_drop. pose proof replay_size_pos. cbn [length] in *. lia.
    + rewrite length_app, length_drop. pose proof replay_size_pos. cbn [length] in *. lia.
    + eexists. rewrite <- app_assoc. split; [done|]. cbn. rewrite Hms. apply take_drop.
Qed.
