(* ===== verification/AgentWorkload.v ===== *)
(** * Workloads of an agent: [internal/agent/workload.go], [internal/agent/acquisition_workload.go]

    The commands on the containers of a workload, the checks of the resources it needs, and the monitor that reports the
    states of the containers to the coordinator.  The engine is a [Runtime]; a command runs to its end.  The resources of a
    device are inspected by [inspectDownload], an argument like the decoder of a specification and the text of a validation
    error.  A tailer that waits forever leaves the lock of the workloads taken ([w_stuck]): what locks after it waits too. *)

From S2P Require Import Prelude GoStrings Utf8 Paths RunLogs SourceConfig Merge ArtifactIdentity Recipe Resources AgentFiles AgentAcquire AgentTransfer Deploy ContainerRuntime DockerRuntime AgentLogs.
Open Scope Z_scope.

(** ** Data *)

Inductive WorkloadOp := OpPull | OpCreate | OpHostPrepare | OpStart | OpStop | OpRemove | OpInspectContainer | OpLogs | OpUnknown.

#[export] Instance WorkloadOp_eq_dec : EqDecision WorkloadOp.
Proof. solve_decision. Defined.

Record WorkloadCommand := mkWorkloadCommand {
  wc_id : N; wc_op : WorkloadOp; wc_dep : string; wc_run : string; wc_rank : Z; wc_spec : string }.

(** What was last reported of a container; an entry stands for [reported] *)
Record containerState := mkContainerState { st_state : string; st_at : Z; st_dep : string; st_run : string; st_rank : Z }.

Record Workloads := mkWorkloads {
  w_specs : gmap string ContainerSpec;
  w_last : gmap string containerState;
  w_tailers : gmap tailKey Tailer;
  w_stuck : bool;
  w_out : Outbox;
  w_logs : files;
  w_nodes : gmap string node;
}.

Definition newWorkloads : Workloads := mkWorkloads ∅ ∅ ∅ false (mkOutbox [] []) ∅ ∅.

Definition with_out (f : Outbox → Outbox) (w : Workloads) : Workloads :=
  mkWorkloads (w_specs w) (w_last w) (w_tailers w) (w_stuck w) (f (w_out w)) (w_logs w) (w_nodes w).
Definition with_specs (f : gmap string ContainerSpec → gmap string ContainerSpec) (w : Workloads) : Workloads :=
  mkWorkloads (f (w_specs w)) (w_last w) (w_tailers w) (w_stuck w) (w_out w) (w_logs w) (w_nodes w).
Definition with_last (f : gmap string containerState → gmap string containerState) (w : Workloads) : Workloads :=
  mkWorkloads (w_specs w) (f (w_last w)) (w_tailers w) (w_stuck w) (w_out w) (w_logs w) (w_nodes w).
Definition with_tailers (ts : option (gmap tailKey Tailer)) (w : Workloads) : Workloads :=
  match ts with
  | Some ts => mkWorkloads (w_specs w) (w_last w) ts (w_stuck w) (w_out w) (w_logs w) (w_nodes w)
  | None => mkWorkloads (w_specs w) (w_last w) (w_tailers w) true (w_out w) (w_logs w) (w_nodes w)
  end.
Definition with_nodes (f : gmap string node → gmap string node) (w : Workloads) : Workloads :=
  mkWorkloads (w_specs w) (w_last w) (w_tailers w) (w_stuck w) (w_out w) (w_logs w) (f (w_nodes w)).

(** [resultInfo] *)
Definition resultInfo (id : N) (ok : bool) (exit : Z) (error container state : string) (oom : bool) (w : Workloads) : Workloads :=
  with_out (send (MResult (mkCommandResult id ok error container state exit oom))) w.
Definition answer (id : N) (ok : bool) (error container : string) (w : Workloads) : Workloads := resultInfo id ok 0 error container "" false w.

Definition refuse (id : N) (error : option string) (container : string) (w : Workloads) : Workloads :=
  match error with Some e => answer id false e container w | None => answer id true "" container w end.

(** ** Commands *)

Section Commands.
Context {E : Type} `{!Runtime E}.
Context (cfg : AgentConfig) (cwd : string) (hash : string → string) (parse_url : string → option Url).
Context (decode : string → result string ContainerSpec) (invalid : ResourceSpec → string).
Context (env : AgentAcquire.Env) (inspectDownload : ResourceSpec → string → E → result string CommandOutput).
Context (mount_error : string → option string).
Implicit Types (e : E) (w : Workloads) (spec : ContainerSpec).

Definition validated (r : ResourceSpec) : option string := if Resources.Validate parse_url r then None else Some (invalid r).

Definition validateSpecIdentity spec (dep run : string) (rank : Z) : option string :=
  match ValidateManagedSpec spec with
  | Some err => Some err
  | None => validateContainerIdentity (cs_labels spec) dep run rank
  end.

Definition policy_known (p : AcquisitionPolicy) : bool := match p with PolicyOther _ => false | _ => true end.

Definition ensureWorkloadImage spec e : option string * E :=
  if cs_upstream spec
  then if negb (policy_known (cs_policy spec)) then (Some "download.acquisition_policy_invalid", e)
       else match find (λ r, bool_decide (rs_kind r = ResourceRecipe) && bool_decide (s_digest (rs_source r) = label (cs_labels spec) LabelRecipe)) (cs_resources spec) with
            | Some r => (validated r, e)
            | None => (Some "download.recheck_required: reviewed recipe package resource missing", e)
            end
  else if bool_decide (cs_policy spec = RequireExisting)
  then match rt_InspectImage (ImageRef spec) (cs_platform spec) e with
       | Err err => (Some ("download.recheck_required: workload image is not present: " +:+ err), e)
       | Ok _ => (None, e)
       end
  else if negb (policy_known (cs_policy spec)) then (Some "download.acquisition_policy_invalid", e)
  else rt_Pull (ImageRef spec) (cs_platform spec) e.

(** One resource of a specification that must be there *)
Definition check_resource spec e (r : ResourceSpec) : option string :=
  if cs_upstream spec && bool_decide (rs_kind r = ResourceImage) then None
  else match validated r with
       | Some err => Some err
       | None =>
           match authorizeDownload cfg env r with
           | Err err => Some err
           | Ok root =>
               match inspectDownload r root e with
               | Err err => Some ("download.recheck_required: " +:+ err)
               | Ok o => if bool_decide (co_state o = ResourceAvailable) then None
                         else Some ("download.recheck_required: " +:+ rs_identity r +:+ " is not available")
               end
           end
       end.

Fixpoint check_resources spec e (rs : list ResourceSpec) : option string :=
  match rs with
  | [] => None
  | r :: rs => match check_resource spec e r with Some err => Some err | None => check_resources spec e rs end
  end.

Definition checkExistingResources spec e : option string * E :=
  match (if cs_upstream spec then ensureWorkloadImage spec e else (None, e)) with
  | (Some err, e) => (Some err, e)
  | (None, e) =>
      if negb (bool_decide (cs_policy spec = RequireExisting)) then (None, e)
      else match cs_resources spec with
           | [] => (Some "download.recheck_required: exact resource inventory missing", e)
           | rs => match check_resources spec e rs with Some err => (Some err, e) | None => ensureWorkloadImage spec e end
           end
  end.

Definition Abs (p : string) : string := if IsAbs p then Clean p else Join [cwd; p].

(** The mounts below the transfer root become readable *)
Fixpoint prepare_mounts (ms : list MountSpec) (nodes : gmap string node) : option string * gmap string node :=
  match ms with
  | [] => (None, nodes)
  | mt :: ms =>
      let source := Abs (mt_source mt) in
      if pathWithin source (Abs (TransferDir cfg))
      then match mount_error source with
           | Some err => (Some ("prepare managed transfer mounts: " +:+ err), nodes)
           | None => prepare_mounts ms (mountable source nodes)
           end
      else prepare_mounts ms nodes
  end.

Definition prepareManagedTransferMounts spec w : option string * Workloads :=
  let '(err, nodes) := prepare_mounts (cs_mounts spec) (w_nodes w) in (err, with_nodes (λ _, nodes) w).

(** [w.mu.Lock]: what follows happens only if the lock can be taken *)
Definition locked w (k : E * Workloads) (blocked : E * Workloads) : E * Workloads := if w_stuck w then blocked else k.

Definition do_create (wc : WorkloadCommand) (name : string) spec e w : E * Workloads :=
  let fail err e w := (e, answer (wc_id wc) false err "" w) in
  match validateSpecIdentity spec (wc_dep wc) (wc_run wc) (wc_rank wc) with
  | Some err => fail err e w
  | None =>
      match checkExistingResources spec e with
      | (Some err, e) => fail err e w
      | (None, e) =>
          match rt_Inspect name e with
          | Ok info =>
              match validateContainerIdentity (ci_labels info) (wc_dep wc) (wc_run wc) (wc_rank wc) with
              | Some err => fail err e w
              | None => fail ("container.exists: " +:+ name) e w
              end
          | Err _ =>
              match prepareManagedTransferMounts spec w with
              | (Some err, w) => fail err e w
              | (None, w) =>
                  match rt_Create spec e with
                  | (Err err, e) => fail err e w
                  | (Ok id, e) => (e, answer (wc_id wc) true "" id w)
                  end
              end
          end
      end
  end.

Definition do_prepare (wc : WorkloadCommand) spec e w : E * Workloads :=
  let fail err e := (e, answer (wc_id wc) false err "" w) in
  match validateSpecIdentity spec (wc_dep wc) (wc_run wc) (wc_rank wc) with
  | Some err => fail err e
  | None =>
      match checkExistingResources spec e with
      | (Some err, e) => fail err e
      | (None, e) => let '(err, e) := rt_PrepareHost spec e in (e, refuse (wc_id wc) err "" w)
      end
  end.

(** [start], [stop] and the rest act on the container that [resolve] finds *)
Definition on_container (wc : WorkloadCommand) (name : string) e w (k : string → E * Workloads) : E * Workloads :=
  match resolve name (wc_dep wc) (wc_run wc) (wc_rank wc) e with
  | Err err => (e, answer (wc_id wc) false err "" w)
  | Ok id => k id
  end.

Definition do_start (wc : WorkloadCommand) (name : string) (given : option ContainerSpec) e w : E * Workloads :=
  let spec := match given with Some s => Some s | None => w_specs w !! name end in
  match (match spec with Some s => checkExistingResources s e | None => (None, e) end) with
  | (Some err, e) => (e, answer (wc_id wc) false err "" w)
  | (None, e) =>
      on_container wc name e w (λ id,
        match rt_Start id e with
        | (Some err, e) => (e, answer (wc_id wc) false err id w)
        | (None, e) =>
            let w := answer (wc_id wc) true "" id w in
            (e, if w_stuck w then w else with_tailers (startTailer (wc_run wc) (wc_dep wc) (wc_rank wc) id (w_tailers w)) w)
        end)
  end.

Definition do_remove (wc : WorkloadCommand) (name : string) e w : E * Workloads :=
  on_container wc name e w (λ id,
    let force := match rt_Inspect id e with Ok info => bool_decide (ci_state info = "running") | Err _ => false end in
    match rt_Remove id force e with
    | (Some err, e) => (e, answer (wc_id wc) false err "" w)
    | (None, e) =>
        locked w (e, answer (wc_id wc) true "" "" (with_tailers (Some (stopTailer (wc_run wc) (wc_dep wc) (wc_rank wc) (w_tailers w))) w)) (e, w)
    end).

Definition dispatch (wc : WorkloadCommand) (name : string) (given : option ContainerSpec) e w : E * Workloads :=
  match wc_op wc, given with
  | OpPull, None => (e, answer (wc_id wc) false "pull requires a container spec" "" w)
  | OpPull, Some spec => let '(err, e) := ensureWorkloadImage spec e in (e, refuse (wc_id wc) err "" w)
  | OpCreate, None => (e, answer (wc_id wc) false "create requires a container spec" "" w)
  | OpCreate, Some spec => do_create wc name spec e w
  | OpHostPrepare, Some spec =>
      match cs_host_prep spec with
      | None => (e, answer (wc_id wc) false "host.prepare_missing: host preparation requires a managed container spec" "" w)
      | Some _ => do_prepare wc spec e w
      end
  | OpHostPrepare, None => (e, answer (wc_id wc) false "host.prepare_missing: host preparation requires a managed container spec" "" w)
  | OpStart, Some _ => do_start wc name given e w
  | OpStart, None => locked w (do_start wc name given e w) (e, w)
  | OpStop, _ => on_container wc name e w (λ id, let '(err, e) := rt_Stop id 15 e in (e, refuse (wc_id wc) err id w))
  | OpRemove, _ => do_remove wc name e w
  | OpInspectContainer, _ =>
      on_container wc name e w (λ id,
        match rt_Inspect id e with
        | Err err => (e, answer (wc_id wc) false err "" w)
        | Ok c => (e, resultInfo (wc_id wc) true (wrap_signed 32 (ci_exit c)) (ci_error c) (ci_id c) (ci_state c) (ci_oom c) w)
        end)
  | OpLogs, _ =>
      on_container wc name e w (λ _,
        (e, with_out (λ o, handleLogRequest (cfg_state_root cfg +:+ "/logs") hash (wc_dep wc) (wc_run wc) (wc_rank wc) "stdout" 0 e (w_logs w, o)) w))
  | OpUnknown, _ => (e, answer (wc_id wc) false "unknown workload op" "" w)
  end.

Definition handleWorkload (wc : WorkloadCommand) (s : E * Workloads) : E * Workloads :=
  let '(e, w) := s in
  match validateWorkloadIdentity (wc_dep wc) (wc_run wc) (wc_rank wc) with
  | Some err => (e, answer (wc_id wc) false err "" w)
  | None =>
      let name := containerName hash (wc_dep wc) (wc_run wc) (wc_rank wc) in
      if bool_decide (wc_spec wc = "") then dispatch wc name None e w
      else match decode (wc_spec wc) with
           | Err err => (e, answer (wc_id wc) false ("container spec: " +:+ err) "" w)
           | Ok spec =>
               let spec := with_name name spec in
               locked w (dispatch wc name (Some spec) e (with_specs (insert name spec) w)) (e, w)
           end
  end.

(** ** The monitor *)

Definition isWorkloadStateContainer (c : ContainerInfo) : bool := negb (bool_decide (label (ci_labels c) LabelModule = HostPreparationModule)).

Fixpoint digits_of (s : string) : string :=
  match s with "" => "" | String a s => if digit a then String a (digits_of s) else "" end.

(** [fmt.Sscanf] with [%d] into an [int32]: zero when it fails *)
Definition scan_rank (s : string) : Z :=
  let '(sign, s) := match s with
                    | String "-" s => (-1, s)
                    | String "+" s => (1, s)
                    | s => (1, s)
                    end in
  let v := sign * dec_go 0 (digits_of s) in
  if bool_decide (- 2 ^ 31 ≤ v < 2 ^ 31) then v else 0.

Definition labelsOf (c : ContainerInfo) : string * string * Z :=
  (label (ci_labels c) LabelDeployment, label (ci_labels c) LabelRun, scan_rank (label (ci_labels c) LabelRank)).

Definition live_state (s : string) : bool := bool_decide (s ∈ ["running"; "starting"; "installing"; "observing"]).

Definition stateRefreshPeriod : Z := 5 * 10 ^ 9.

Definition endpoint_port spec : Z :=
  match cs_ports spec with
  | [] => 0
  | p :: _ => (if bool_decide (po_host p = 0) then po_container p else po_host p) mod 2 ^ 32
  end.

Definition changed (now : Z) (c : ContainerInfo) w : bool :=
  match w_last w !! ci_id c with
  | None => true
  | Some st => negb (bool_decide (st_state st = ci_state c)) || live_state (ci_state c) && (stateRefreshPeriod <=? now - st_at st)
  end.

Definition update_of (c : ContainerInfo) w : StateUpdate :=
  let '(dep, run, rank) := labelsOf c in
  mkStateUpdate dep run (ci_id c) (ci_state c) rank (ci_error c) (wrap_signed 32 (ci_exit c)) (ci_oom c)
    (match w_specs w !! containerName hash dep run rank with Some spec => endpoint_port spec | None => 0 end).

Definition reportState (now : Z) (c : ContainerInfo) w : Workloads :=
  let '(dep, run, rank) := labelsOf c in
  if changed now c w
  then with_out (send (MState (update_of c w))) (with_last (insert (ci_id c) (mkContainerState (ci_state c) now dep run rank)) w)
  else w.

Definition missing_update (id : string) (st : containerState) : StateUpdate :=
  mkStateUpdate (st_dep st) (st_run st) id "missing" (st_rank st) "managed container no longer exists" 0 false 0.

(** The containers that were reported and are no longer listed, in one order of the map *)
Definition forget (seen : list string) w : Workloads :=
  let gone := map_to_list (filter (λ x, fst x ∉ seen) (w_last w)) in
  with_out (λ o, foldl (λ o x, send (MState (missing_update (fst x) (snd x))) o) o gone) (with_last (filter (λ x, fst x ∈ seen)) w).

Definition tick (now : Z) (listed : result string (list ContainerInfo)) w : Workloads :=
  match listed with
  | Err _ => w
  | Ok l =>
      let l := filter (λ c, isWorkloadStateContainer c = true) l in
      if w_stuck w then w else forget (ci_id <$> l) (foldl (λ w c, reportState now c w) w l)
  end.

Definition tail_container (w : Workloads) (c : ContainerInfo) : Workloads :=
  let '(dep, run, rank) := labelsOf c in
  if isWorkloadStateContainer c && live_state (ci_state c) && negb (w_stuck w)
  then with_tailers (startTailer run dep rank (ci_id c) (w_tailers w)) w else w.

(** [reconcile] after the monitor was started *)
Definition reconcile (now : Z) e w : Workloads :=
  let listed := rt_ListByLabel LabelManaged "true" e in
  let w := tick now listed w in
  match listed with Err _ => w | Ok l => foldl tail_container w l end.
End Commands.

(** ** A command acts on its own containers *)

(** The labels of a container say it is of the workload of the command *)
Definition owned (wc : WorkloadCommand) (labels : gmap string string) : Prop :=
  label labels LabelManaged = "true" ∧ label labels LabelDeployment = wc_dep wc ∧ label labels LabelRun = wc_run wc ∧
  label labels LabelRank = Itoa (wc_rank wc).

Lemma identity_owned wc labels : validateContainerIdentity labels (wc_dep wc) (wc_run wc) (wc_rank wc) = None ↔ owned wc labels.
Proof.
  unfold validateContainerIdentity, owned. repeat case_bool_decide; simpl; naive_solver.
Qed.

Lemma owned_labelled wc l l' : owned wc l → labelled_as l l' → owned wc l'.
Proof.
  unfold owned, labelled_as. rewrite !Forall_cons. intros (H1 & H2 & H3 & H4) (L1 & L2 & L3 & L4 & _). by rewrite L1, L2, L3, L4.
Qed.

Lemma owned_helper wc l : owned wc l → owned wc (<[LabelModule := HostPreparationModule]> l).
Proof. intros H. eapply owned_labelled; [exact H|]. unfold labelled_as, label. repeat constructor; by rewrite lookup_insert_ne. Qed.

Section Theorems.
Context {E : Type} `{!Runtime E, !RuntimeLaws E}.
Context (cfg : AgentConfig) (cwd : string) (hash : string → string) (parse_url : string → option Url).
Context (decode : string → result string ContainerSpec) (invalid : ResourceSpec → string).
Context (env : AgentAcquire.Env) (inspectDownload : ResourceSpec → string → E → result string CommandOutput).
Context (mount_error : string → option string).
Implicit Types (e : E) (w : Workloads) (spec : ContainerSpec).

Notation handle := (handleWorkload cfg cwd hash parse_url decode invalid env inspectDownload mount_error).

Lemma ensure_held spec e : rt_held (snd (ensureWorkloadImage parse_url invalid spec e)) = rt_held e.
Proof. unfold ensureWorkloadImage. repeat case_match; simplify_eq/=; done || apply pull_frame. Qed.

Lemma check_held spec e : rt_held (snd (checkExistingResources cfg parse_url invalid env inspectDownload spec e)) = rt_held e.
Proof.
  unfold checkExistingResources. pose proof (ensure_held spec e) as H. destruct (cs_upstream spec).
  - destruct (ensureWorkloadImage _ _ spec e) as [[err|] e1]; [done|]. simpl in H. repeat case_match; simpl; try done. by rewrite ensure_held.
  - repeat case_match; simpl; done.
Qed.

Lemma resolve_owned wc name e id : resolve name (wc_dep wc) (wc_run wc) (wc_rank wc) e = Ok id →
  ∃ c, rt_Inspect name e = Ok c ∧ ci_id c = id ∧ rt_held e !! id = Some c ∧ owned wc (ci_labels c).
Proof.
  unfold resolve. destruct (rt_Inspect name e) as [c|] eqn:Hi; [|done]. destruct validateContainerIdentity eqn:Hv; [done|]. intros [= <-].
  exists c. split_and!; [done|done|by eapply inspect_held|by apply identity_owned].
Qed.

(** Only containers of the workload may differ, and new ones are of the workload *)
Definition contained (wc : WorkloadCommand) (m m' : gmap string ContainerInfo) : Prop :=
  (∀ id c, m !! id = Some c → ¬ owned wc (ci_labels c) → m' !! id = Some c) ∧
  (∀ id c, m !! id = None → m' !! id = Some c → owned wc (ci_labels c)).

Lemma contained_refl wc m : contained wc m m.
Proof. split; [done|]. intros id c. congruence. Qed.

Lemma contained_touches wc id c m m' : m !! id = Some c → owned wc (ci_labels c) → touches same_container id m m' → contained wc m m'.
Proof.
  intros Hc Ho Ht. split.
  - intros j cj Hj Hn. eapply touches_other; [done| |done]. intros ->. rewrite Hc in Hj. simplify_eq. by apply Hn.
  - intros j cj Hj Hj'. by rewrite (touches_none _ _ _ _ _ Ht Hj) in Hj'.
Qed.

Lemma on_container_contained wc name e w k :
  (∀ id c, rt_held e !! id = Some c → owned wc (ci_labels c) → contained wc (rt_held e) (rt_held (fst (k id)))) →
  contained wc (rt_held e) (rt_held (fst (on_container wc name e w k))).
Proof.
  intros H. unfold on_container. destruct resolve as [id|err] eqn:Hr; [|apply contained_refl].
  apply resolve_owned in Hr as (c & _ & _ & Hc & Ho). by eapply H.
Qed.

Lemma spec_owned wc spec : validateSpecIdentity spec (wc_dep wc) (wc_run wc) (wc_rank wc) = None → owned wc (cs_labels spec).
Proof. unfold validateSpecIdentity. destruct ValidateManagedSpec; [done|]. apply identity_owned. Qed.

Lemma do_create_contained wc name spec e w :
  contained wc (rt_held e) (rt_held (fst (do_create cfg cwd parse_url invalid env inspectDownload mount_error wc name spec e w))).
Proof.
  unfold do_create. destruct validateSpecIdentity eqn:Hv; [apply contained_refl|]. apply spec_owned in Hv.
  pose proof (check_held spec e) as Hc. destruct checkExistingResources as [[err|] e1]; simpl in Hc; [rewrite <- Hc; apply contained_refl|].
  rewrite <- Hc. destruct (rt_Inspect name e1) as [c|]; [destruct validateContainerIdentity; apply contained_refl|].
  destruct prepareManagedTransferMounts as [[err|] w1]; [apply contained_refl|].
  pose proof (create_frame spec e1) as Hf. pose proof (create_new spec e1) as Hn.
  destruct (rt_Create spec e1) as [[id|err] e2]; simpl in *; (split; [intros; by apply Hf|]); intros j c Hj Hj'; destruct (Hn j c Hj Hj') as (-> & _); done.
Qed.

Lemma do_prepare_contained wc spec e w :
  contained wc (rt_held e) (rt_held (fst (do_prepare cfg parse_url invalid env inspectDownload wc spec e w))).
Proof.
  unfold do_prepare. destruct validateSpecIdentity eqn:Hv; [apply contained_refl|]. apply spec_owned in Hv.
  pose proof (check_held spec e) as Hc. destruct checkExistingResources as [[err|] e1]; simpl in Hc; [rewrite <- Hc; apply contained_refl|].
  rewrite <- Hc. pose proof (prepare_frame spec e1) as Hf. pose proof (prepare_new spec e1) as Hn. destruct (rt_PrepareHost spec e1) as [err e2]; simpl in *. split.
  - intros id c Hi Ho. apply Hf; [done|]. intros Hl. apply Ho. by eapply owned_labelled.
  - intros id c Hi Hi'. rewrite (Hn id c Hi Hi'). by apply owned_helper.
Qed.

Lemma do_start_contained wc name given e w :
  contained wc (rt_held e) (rt_held (fst (do_start cfg parse_url invalid env inspectDownload wc name given e w))).
Proof.
  unfold do_start. set (checked := match _ with Some s => checkExistingResources _ _ _ _ _ s e | None => (None, e) end).
  assert (rt_held (snd checked) = rt_held e) as Hc by (unfold checked; repeat case_match; try done; apply check_held).
  destruct checked as [[err|] e1]; simpl in Hc; [rewrite <- Hc; apply contained_refl|]. rewrite <- Hc. apply on_container_contained. intros id c Hi Ho.
  pose proof (start_touches id e1) as Ht. destruct (rt_Start id e1) as [[err|] e2]; simpl in *; by eapply contained_touches.
Qed.

Lemma do_remove_contained wc name e w : contained wc (rt_held e) (rt_held (fst (do_remove wc name e w))).
Proof.
  unfold do_remove. apply on_container_contained. intros id c Hi Ho. set (force := match rt_Inspect id e with Ok _ => _ | Err _ => _ end).
  pose proof (remove_touches id force e) as Ht. destruct (rt_Remove id force e) as [[err|] e1]; simpl in Ht; [by eapply contained_touches|].
  unfold locked. destruct (w_stuck w); by eapply contained_touches.
Qed.


(** ** A stop the coordinator accepts has stopped the container *)

Lemma has_prefix_trans a b s : has_prefix (a +:+ b) s = true → has_prefix a s = true.
Proof. rewrite !has_prefix_spec. intros [r ->]. exists (b +:+ r). by rewrite sapp_assoc. Qed.

Lemma contains_str_byte c p s : contains_byte c p = true → contains_byte c s = false → contains_str p s = false.
Proof.
  intros Hp. induction s as [|a s IH]; intros Hs.
  - cbn. destruct p; [done|]. done.
  - cbn [contains_str]. rewrite IH by (cbn [contains_byte] in Hs; by apply orb_false_elim in Hs as [_ ?]).
    destruct (has_prefix p (String a s)) eqn:Ep; [|done]. apply has_prefix_spec in Ep as [r Er]. by rewrite Er, contains_byte_app, Hp in Hs.
Qed.

(** The bytes of the name of a container after its fixed beginning *)
Definition name_byte (a : ascii) : bool := lower_hex a || is_char "-" a || is_char "n" a || is_char "o" a || is_char "r" a.

Lemma hex_name_byte s : sforallb lower_hex s = true → sforallb name_byte s = true.
Proof.
  induction s as [|a s IH]; [done|]. cbn [sforallb]. intros [Ha Hs]%andb_prop. rewrite (IH Hs). unfold name_byte. by rewrite Ha.
Qed.

Context (hash_hex : ∀ s, sforallb lower_hex (hash s) = true).

Lemma shortID_bytes id : sforallb name_byte (shortID hash id) = true.
Proof.
  unfold shortID. case_bool_decide; [done|]. apply hex_name_byte. specialize (hash_hex id). rewrite <- (stake_sdrop 12 (hash id)), sforallb_app in hash_hex.
  by apply andb_prop in hash_hex as [? _].
Qed.

Lemma Itoa_bytes n : sforallb name_byte (Itoa n) = true.
Proof.
  assert (∀ m, sforallb name_byte (itoa m) = true) as H.
  { intros m. pose proof (itoa_digits m) as Hd. induction (itoa m) as [|a s IH]; [done|]. cbn [sforallb] in *. apply andb_prop in Hd as [Ha Hs].
    rewrite (IH Hs), andb_true_r. unfold name_byte, lower_hex. unfold digit in Ha. by rewrite Ha. }
  unfold Itoa. destruct (n <? 0); [|apply H]. rewrite sforallb_app. by rewrite H.
Qed.

Lemma containerName_shape dep run rank : ∃ t, containerName hash dep run rank = "lmw-" +:+ t ∧ sforallb name_byte t = true.
Proof.
  unfold containerName. pose proof (shortID_bytes dep). pose proof (shortID_bytes run). pose proof (Itoa_bytes rank). case_bool_decide.
  - exists (shortID hash dep +:+ "-r" +:+ Itoa rank). rewrite sapp_assoc. split; [done|]. rewrite !sforallb_app. rewrite !andb_true_iff. done.
  - exists (shortID hash dep +:+ "-" +:+ shortID hash run +:+ "-r" +:+ Itoa rank). rewrite !sapp_assoc. split; [done|]. rewrite !sforallb_app, !andb_true_iff. done.
Qed.

(** The refusal of a container that is not of the workload is not taken for its absence *)
Lemma mismatch_not_missing labels dep run rank err : validateContainerIdentity labels dep run rank = Some err →
  isContainerMissing (err +:+ ": " +:+ containerName hash dep run rank) = false.
Proof.
  intros Hv. destruct (containerName_shape dep run rank) as (t & -> & Ht). unfold isContainerMissing.
  assert (contains_str "missing" t = false) as Hm by (apply (contains_str_byte "g"); [done|]; by apply (no_byte _ name_byte)).
  assert (contains_str "no such" t = false) as Hn by (apply (contains_str_byte " "); [done|]; by apply (no_byte _ name_byte)).
  unfold validateContainerIdentity in Hv. repeat case_match; simplify_eq; cbn; by rewrite Hm, Hn.
Qed.

Definition queued (wc : WorkloadCommand) e w : list AgentMessage := ob_queue (w_out (snd (handle wc (e, w)))).

Lemma answer_queue id ok err c w : (length (ob_queue (w_out w)) < sendQ_capacity)%nat →
  ob_queue (w_out (answer id ok err c w)) = ob_queue (w_out w) ++ [MResult (mkCommandResult id ok err c "" 0 false)].
Proof. intros H. unfold answer, resultInfo, with_out. cbn [w_out]. by rewrite send_room. Qed.

End Theorems.

(** ** On the small engine *)

Definition sample_hash (_ : string) : string := "0123456789abcdef0123456789abcdef".
Definition agent_sample : AgentConfig := mkAgentConfig "/var/lib/lmw" [].
Definition no_device : AgentAcquire.Env := AgentAcquire.mkEnv true true true (λ _, EntryAbsent) (λ _, true) (λ _, false) None.

Definition stop_sample : WorkloadCommand := mkWorkloadCommand 7 OpStop "dep-1" "run-1" 0 "".
Definition remove_sample : WorkloadCommand := mkWorkloadCommand 8 OpRemove "dep-1" "run-1" 0 "".
Definition labels_sample : gmap string string := ManagedLabels "dep-1" "run-1" "sha256:0" "" 0 "".
Definition name_sample : string := containerName sample_hash "dep-1" "run-1" 0.

(** The container of the workload runs beside one of another deployment *)
Definition shelf_sample (up : bool) : Shelf :=
  mkShelf (<["1" := mkEntry name_sample "running" 0 labels_sample]>
             (<["2" := mkEntry "other" "running" 0 (ManagedLabels "dep-2" "run-2" "sha256:0" "" 0 "")]> ∅)) 3 up.

Definition handle_sample (wc : WorkloadCommand) (s : Shelf) : Shelf * Workloads :=
  handleWorkload agent_sample "/" sample_hash (λ _, None) (λ _, Err "no spec") (λ _, "invalid") no_device (λ _ _ _, Err "unknown") (λ _, None)
    wc (s, newWorkloads).

Lemma lookup_shelf_sample up id c : rt_held (shelf_sample up) !! id = Some c →
  (id = "1" ∧ c = info_of (sh_container "1" (mkEntry name_sample "running" 0 labels_sample))) ∨
  (id = "2" ∧ c = info_of (sh_container "2" (mkEntry "other" "running" 0 (ManagedLabels "dep-2" "run-2" "sha256:0" "" 0 "")))).
Proof.
  cbn [rt_held docker_laws]. unfold held_infos. cbn [d_held shelf_laws]. rewrite lookup_fmap, sh_lookup. cbn [sh_held shelf_sample].
  intros (x & (y & Hy & ->)%fmap_Some_1 & ->)%fmap_Some_1. apply lookup_insert_Some in Hy as [[<- <-]|[_ Hy]]; [by left|].
  apply lookup_insert_Some in Hy as [[<- <-]|[_ Hy]]; [by right|]. done.
Qed.

Lemma shelf_stop_fails id t s err : fst (rt_Stop id t s) = Some err → snd (rt_Stop id t s) = s.
Proof.
  cbn [rt_Stop dockerRuntime]. unfold Stop. cbn [ContainerStop shelf_daemon]. unfold sh_call. destruct (sh_up s); cbn [negb]; [|done].
  by destruct (sh_held s !! id).
Qed.



(** A stop is answered as if the container were missing whenever the engine cannot be asked, also while the container runs:
    the coordinator takes that for a confirmation *)
Lemma unreachable_engine_confirms_stop :
  ∃ r, ob_queue (w_out (snd (handle_sample stop_sample (shelf_sample false)))) = [MResult r] ∧
    cr_ok r || isContainerMissing (cr_error r) = true ∧
    ∃ c, rt_held (fst (handle_sample stop_sample (shelf_sample false))) !! "1" = Some c ∧ ci_name c = name_sample ∧ ci_state c = "running".
Proof. eexists. split; [vm_compute; reflexivity|]. split; [vm_compute; reflexivity|]. eexists. split; [vm_compute; reflexivity|]. split; vm_compute; reflexivity. Qed.
