(* ===== verification/AgentMonitor.v ===== *)
(** * What the coordinator learns from the monitor

    The reports of [AgentWorkload], read in the order in which they are sent: after a round of the monitor they say what the
    engine listed, as long as nothing was dropped.  Rounds do not overlap here. *)

From S2P Require Import Prelude GoStrings RunLogs Merge Recipe Deploy ContainerRuntime DockerRuntime AgentLogs AgentWorkload.
Open Scope Z_scope.

(** ** The view of the coordinator *)

Record Seen := mkSeen { se_dep : string; se_run : string; se_rank : Z; se_state : string }.

(** The last report on every container; a message of a tailer has no state *)
Definition note (v : gmap string Seen) (m : AgentMessage) : gmap string Seen :=
  match m with
  | MState su => if bool_decide (su_state su = "") then v else <[su_container su := mkSeen (su_dep su) (su_run su) (su_rank su) (su_state su)]> v
  | _ => v
  end.

Definition view (ms : list AgentMessage) : gmap string Seen := foldl note ∅ ms.

(** Everything sent so far, the messages of the queue included *)
Definition sent (w : Workloads) : list AgentMessage := ob_wire (w_out w) ++ ob_queue (w_out w).

(** A container with the labels [l] in a state *)
Definition seen_as (l : gmap string string) (state : string) : Seen :=
  mkSeen (label l LabelDeployment) (label l LabelRun) (scan_rank (label l LabelRank)) state.
Definition seen_last (st : containerState) : Seen := mkSeen (st_dep st) (st_run st) (st_rank st) (st_state st).

Section Monitor.
Context (hash : string → string) (labels : string → gmap string string).

(** What was reported last is what the coordinator sees, and it sees nothing else but containers reported missing *)
Definition agrees (w : Workloads) : Prop :=
  ∀ id, match w_last w !! id with
        | Some st => view (sent w) !! id = Some (seen_last st) ∧ seen_last st = seen_as (labels id) (st_state st)
        | None => ∀ x, view (sent w) !! id = Some x → se_state x = "missing"
        end.

(** A list of the engine: ids are unique, every container has a state, and the labels it was created with *)
Definition proper_list (l : list ContainerInfo) : Prop :=
  NoDup (ci_id <$> l) ∧ Forall (λ c, ci_state c ≠ "" ∧ ci_labels c = labels (ci_id c)) l.

(** Room for every report of a round *)
Definition room (l : list ContainerInfo) (w : Workloads) : Prop :=
  (length (ob_queue (w_out w)) + length l + size (w_last w) ≤ sendQ_capacity)%nat.

Definition is_state (m : AgentMessage) : bool := match m with MState _ => true | _ => false end.

(** The monitor between other activity of the agent: a round on some list, another message, a message delivered *)
Inductive mstep : Workloads → Workloads → Prop :=
  | mstep_tick now l w : proper_list l → room l w → mstep w (tick hash now (Ok l) w)
  | mstep_failed now err w : mstep w (tick hash now (Err err) w)
  | mstep_other m w w' : is_state m = false → w_last w' = w_last w → w_out w' = send m (w_out w) → mstep w w'
  | mstep_deliver w : mstep w (with_out (sendLoop true) w).

Lemma view_app ms m : view (ms ++ [m]) = note (view ms) m.
Proof. unfold view. by rewrite foldl_app. Qed.

Lemma sent_send m w : (length (ob_queue (w_out w)) < sendQ_capacity)%nat → sent (with_out (send m) w) = sent w ++ [m].
Proof. intros H. unfold sent, with_out. cbn [w_out]. rewrite send_room by done. cbn [ob_queue ob_wire]. by rewrite app_assoc. Qed.

Lemma sent_deliver w : sent (with_out (sendLoop true) w) = sent w.
Proof. unfold sent, with_out, sendLoop. cbn [w_out]. destruct (ob_queue (w_out w)) as [|m q] eqn:E; [by rewrite E|]. cbn [ob_queue ob_wire]. by rewrite <- app_assoc. Qed.

(** ** One report *)

Lemma labelsOf_seen c : labelsOf c = (se_dep (seen_as (ci_labels c) (ci_state c)), se_run (seen_as (ci_labels c) (ci_state c)), se_rank (seen_as (ci_labels c) (ci_state c))).
Proof. done. Qed.

Lemma reportState_spec now c w : agrees w → ci_state c ≠ "" → ci_labels c = labels (ci_id c) → (length (ob_queue (w_out w)) < sendQ_capacity)%nat →
  let w' := reportState hash now c w in
  agrees w' ∧ (∃ st, w_last w' !! ci_id c = Some st ∧ st_state st = ci_state c) ∧
  (∀ id, id ≠ ci_id c → w_last w' !! id = w_last w !! id) ∧ (length (ob_queue (w_out w')) ≤ S (length (ob_queue (w_out w))))%nat ∧ w_stuck w' = w_stuck w.
Proof.
  intros Ha Hs Hl Hr w'. unfold w', reportState. destruct (changed now c w) eqn:Ec; cycle 1; rewrite labelsOf_seen.
  { unfold changed in Ec. destruct (w_last w !! ci_id c) as [st|] eqn:E; [|done]. apply orb_false_elim in Ec as [Ec%negb_false_iff%bool_decide_eq_true _].
    split_and!; [done| |done|lia|done]. by exists st. }
  set (st := mkContainerState _ _ _ _ _). set (u := update_of hash c w).
  assert (seen_last st = seen_as (labels (ci_id c)) (ci_state c)) as Hst by (by rewrite <- Hl).
  split_and!.
  - intros id. rewrite sent_send by done. rewrite view_app. cbn [note w_last with_out with_last].
    change (su_state u) with (ci_state c). rewrite bool_decide_eq_false_2 by done. change (su_container u) with (ci_id c).
    destruct (decide (id = ci_id c)) as [->|Hd]; [rewrite !lookup_insert_eq; by split|]. rewrite !lookup_insert_ne by done. apply Ha.
  - exists st. cbn [w_last with_out with_last]. by rewrite lookup_insert_eq.
  - intros id Hd. cbn [w_last with_out with_last]. by rewrite lookup_insert_ne.
  - cbn [w_out with_out with_last]. rewrite send_room by done. cbn [ob_queue]. rewrite length_app. simpl. lia.
  - done.
Qed.

(** ** A round *)

(** The reports on a list leave its containers reported, and the others as they were *)
Lemma report_all now l w : agrees w → proper_list l → (length (ob_queue (w_out w)) + length l ≤ sendQ_capacity)%nat →
  let w' := foldl (λ w c, reportState hash now c w) w l in
  agrees w' ∧ (∀ c, c ∈ l → ∃ st, w_last w' !! ci_id c = Some st ∧ st_state st = ci_state c) ∧
  (∀ id, id ∉ ci_id <$> l → w_last w' !! id = w_last w !! id) ∧ (length (ob_queue (w_out w')) ≤ length (ob_queue (w_out w)) + length l)%nat ∧
  w_stuck w' = w_stuck w.
Proof.
  revert w. induction l as [|c l IH]; intros w Ha [Hn Hf] Hq.
  - cbn. split_and!; [done| |done|lia|done]. intros c Hc. by apply not_elem_of_nil in Hc.
  - cbn [fmap list_fmap length foldl] in *. apply NoDup_cons in Hn as [Hc Hn]. apply Forall_cons in Hf as [[Hs Hl] Hf].
    destruct (reportState_spec now c w Ha Hs Hl) as (Ha1 & (st & Hst & Hss) & Ho & Hq1 & Hk); [lia|].
    destruct (IH (reportState hash now c w) Ha1) as (Ha2 & Hin & Hout & Hq2 & Hk2); [by split|lia|].
    split_and!; [done| | |lia|congruence].
    + intros c' [->|H]%elem_of_cons; [|by apply Hin]. rewrite Hout by done. by exists st.
    + intros id [Hi1 Hi2]%not_elem_of_cons. by rewrite Hout, Ho.
Qed.

(** What [forget] sends about the containers that are gone *)
Lemma forget_sends gone o : (length (ob_queue o) + length gone ≤ sendQ_capacity)%nat →
  foldl (λ o x, send (MState (missing_update (fst x) (snd x))) o) o gone =
  mkOutbox (ob_queue o ++ ((λ x, MState (missing_update (fst x) (snd x))) <$> gone)) (ob_wire o).
Proof.
  revert o. induction gone as [|x gone IH]; intros o Hl; cbn [foldl fmap list_fmap length] in *.
  - rewrite app_nil_r. by destruct o.
  - rewrite send_room by lia. rewrite IH by (cbn [ob_queue]; rewrite length_app; simpl; lia). cbn [ob_queue ob_wire]. by rewrite <- app_assoc.
Qed.

Lemma view_missing ms (gone : list (string * containerState)) id :
  view (ms ++ ((λ x, MState (missing_update (fst x) (snd x))) <$> gone)) !! id =
  match find (λ x, bool_decide (fst x = id)) (reverse gone) with
  | Some x => Some (mkSeen (st_dep (snd x)) (st_run (snd x)) (st_rank (snd x)) "missing")
  | None => view ms !! id
  end.
Proof.
  induction gone as [|x gone IH] using rev_ind; [cbn; by rewrite app_nil_r|].
  rewrite fmap_app, app_assoc, reverse_app. cbn [fmap list_fmap]. rewrite view_app. cbn [note su_state missing_update su_container su_dep su_run su_rank].
  change (reverse [x]) with [x]. cbn [app find]. rewrite bool_decide_eq_false_2 by done. destruct (decide (fst x = id)) as [<-|Hd].
  - by rewrite lookup_insert_eq, bool_decide_eq_true_2.
  - by rewrite lookup_insert_ne, bool_decide_eq_false_2, IH by done.
Qed.

Lemma forget_spec seen w : agrees w → (length (ob_queue (w_out w)) + size (filter (λ x, fst x ∉ seen) (w_last w)) ≤ sendQ_capacity)%nat →
  agrees (forget seen w) ∧ w_last (forget seen w) = filter (λ x, fst x ∈ seen) (w_last w).
Proof.
  intros Ha Hq. split; [|done]. intros id. unfold forget. set (gone := map_to_list _).
  assert (length gone = size (filter (λ x, fst x ∉ seen) (w_last w))) as Hg by (unfold gone; apply length_map_to_list).
  unfold sent, with_out. cbn [w_out w_last with_last]. rewrite forget_sends by lia. cbn [ob_wire ob_queue].
  rewrite app_assoc, view_missing. fold (sent w). specialize (Ha id).
  destruct (find _ (reverse gone)) as [[i x]|] eqn:Ef.
  - apply find_some in Ef as [Hin Hi%bool_decide_eq_true]. cbn [fst] in Hi. subst i. apply list_elem_of_In, elem_of_reverse, elem_of_map_to_list in Hin.
    apply map_lookup_filter_Some in Hin as [_ Hn]. cbn in Hn. rewrite (map_lookup_filter_None_2 _ _ id); [by intros y [= <-]|]. right. by intros y _.
  - assert (id ∈ seen ∨ w_last w !! id = None) as [Hi|Hi].
    { destruct (decide (id ∈ seen)) as [|Hi]; [by left|right]. apply eq_None_not_Some. intros [st Hst].
      assert ((id, st) ∈ reverse gone) as Hin by (apply elem_of_reverse, elem_of_map_to_list, map_lookup_filter_Some; done).
      apply list_elem_of_In in Hin. apply (find_none _ _ Ef) in Hin. cbn in Hin. by rewrite bool_decide_eq_true_2 in Hin. }
    + destruct (w_last w !! id) as [st|] eqn:E.
      * by rewrite (map_lookup_filter_Some_2 _ _ _ st).
      * by rewrite (map_lookup_filter_None_2 _ _ id) by (by left).
    + rewrite (map_lookup_filter_None_2 _ _ id) by (by left). by rewrite Hi in Ha.
Qed.

Notation watched := (filter (λ c, isWorkloadStateContainer c = true)).

Lemma ids_sublist l l' : l `sublist_of` l' → (ci_id <$> l) `sublist_of` (ci_id <$> l').
Proof. induction 1; cbn; by constructor. Qed.

Lemma watched_proper l : proper_list l → proper_list (watched l).
Proof.
  intros [Hn Hf]. split; [|apply Forall_forall; intros c [_ Hc]%list_elem_of_filter; by eapply Forall_forall in Hf]. eapply sublist_NoDup; [exact Hn|]. apply ids_sublist, sublist_filter.
Qed.

Lemma tick_spec now l w : agrees w → w_stuck w = false → proper_list l → room l w →
  let w' := tick hash now (Ok l) w in
  agrees w' ∧ (∀ c, c ∈ watched l → ∃ st, w_last w' !! ci_id c = Some st ∧ st_state st = ci_state c) ∧
  (∀ id, id ∉ ci_id <$> watched l → w_last w' !! id = None).
Proof.
  intros Ha Hk Hp Hr. cbn [tick]. rewrite Hk. set (l' := watched l). set (w1 := foldl _ w l'). unfold room in Hr.
  assert (length l' ≤ length l)%nat as Hl by apply length_filter.
  destruct (report_all now l' w Ha (watched_proper l Hp)) as (Ha1 & Hin & Hout & Hq & _); [lia|]. fold w1 in Ha1, Hin, Hout, Hq.
  assert (size (filter (λ x, fst x ∉ ci_id <$> l') (w_last w1)) ≤ size (w_last w))%nat as Hs.
  { transitivity (size (filter (λ x, fst x ∉ ci_id <$> l') (w_last w))).
    - apply Nat.eq_le_incl. f_equal. apply map_eq. intros id. apply option_eq. intros st. rewrite !map_lookup_filter_Some. cbn.
      split; intros [H1 H2]; (split; [|done]); [by rewrite Hout in H1|by rewrite Hout].
    - apply map_size_filter. }
  destruct (forget_spec (ci_id <$> l') w1 Ha1) as [Ha2 Hlast]; [lia|]. split_and!; [done| |].
  - intros c Hc. rewrite Hlast. destruct (Hin c Hc) as (st & Hst & Hss). exists st. split; [|done]. apply map_lookup_filter_Some. split; [done|]. cbn. by apply list_elem_of_fmap_2.
  - intros id Hid. rewrite Hlast. apply map_lookup_filter_None_2. right. by intros st _.
Qed.

Lemma agrees_same w w' : w_last w' = w_last w → view (sent w') = view (sent w) → agrees w → agrees w'.
Proof. intros H1 H2 Ha id. rewrite H1, H2. apply Ha. Qed.

Lemma mstep_agrees w w' : mstep w w' → agrees w → agrees w'.
Proof.
  intros H Ha. destruct H as [now l w Hp Hr|now err w|m w w' Hm Hl Ho|w].
  - destruct (w_stuck w) eqn:Hk; [by cbn [tick]; rewrite Hk|]. by destruct (tick_spec now l w Ha Hk Hp Hr) as (? & _).
  - done.
  - apply (agrees_same w); [done| |done]. unfold sent. rewrite Ho. unfold send. destruct (_ <? _)%nat; [|done]. cbn [ob_wire ob_queue].
    rewrite app_assoc, view_app. by destruct m.
  - apply (agrees_same w); [done| |done]. by rewrite sent_deliver.
Qed.

Lemma agrees_new : agrees newWorkloads.
Proof. intros id. cbn. rewrite lookup_empty. intros x. unfold view, sent. cbn. by rewrite lookup_empty. Qed.

End Monitor.

(** ** A concrete round *)

Definition listed_sample (state : string) : ContainerInfo := mkContainerInfo "1" name_sample state "" 0 "" false [] labels_sample.


(** ** What the reports miss *)

(** A state that is not that of a running container is sent once: when it was dropped because the queue was full, no later
    round sends it, not even after a reconnect *)
Lemma dropped_exit_lost hash now now' c w : (length (ob_queue (w_out w)) = sendQ_capacity)%nat → live_state (ci_state c) = false →
  sent (reportState hash now c w) = sent w ∧ reportState hash now' c (reportState hash now c w) = reportState hash now c w.
Proof.
  intros Hq Hs. unfold reportState. destruct (labelsOf c) as [[dep run] rank]. destruct (changed now c w) eqn:Ec.
  - split.
    + unfold sent, with_out, with_last. cbn [w_out]. unfold send. by rewrite Hq, Nat.ltb_irrefl.
    + assert (∀ o, changed now' c (with_out o (with_last (insert (ci_id c) (mkContainerState (ci_state c) now dep run rank)) w)) = false) as ->; [|done].
      intros o. unfold changed. cbn [w_last with_out with_last]. rewrite lookup_insert_eq. cbn [st_state]. by rewrite bool_decide_eq_true_2, Hs.
  - split; [done|]. replace (changed now' c w) with false; [done|]. unfold changed in *. destruct (w_last w !! ci_id c); [|done]. by rewrite Hs in *.
Qed.

(** The list of the Docker engine has no exit codes: whatever a container ended with, the monitor reports zero and no kill *)
Lemma monitor_hides_exit_code hash (s : Summary) w : su_exit (update_of hash (listed s) w) = 0 ∧ su_oom (update_of hash (listed s) w) = false ∧ su_message (update_of hash (listed s) w) = "".
Proof. done. Qed.

(** [reportState] records the state under the lock and sends it after the lock was given back *)
Definition report_record (now : Z) (c : ContainerInfo) (w : Workloads) : Workloads :=
  let '(dep, run, rank) := labelsOf c in with_last (insert (ci_id c) (mkContainerState (ci_state c) now dep run rank)) w.
Definition report_send (hash : string → string) (c : ContainerInfo) (w : Workloads) : Workloads := with_out (send (MState (update_of hash c w))) w.

Lemma report_split hash now c w : changed now c w = true → reportState hash now c w = report_send hash c (report_record now c w).
Proof. intros H. unfold reportState, report_send, report_record. rewrite H. by destruct (labelsOf c) as [[dep run] rank]. Qed.

(** Two rounds that overlap, that of the monitor and that of a reconciliation, can leave the coordinator with the older of
    two states for good: the first lists the container running, records it and is overtaken before it sends; the second
    records and sends the exit; a later round has nothing to send *)
Lemma overlapping_rounds_stale :
  let first := listed_sample "running" in let second := listed_sample "exited" in
  let w := report_send sample_hash first (report_send sample_hash second (report_record 1 second (report_record 0 first newWorkloads))) in
  changed 0 first newWorkloads = true ∧ changed 1 second (report_record 0 first newWorkloads) = true ∧
  ∀ now, tick sample_hash now (Ok [second]) w = w ∧ view (sent w) !! "1" = Some (mkSeen "dep-1" "run-1" 0 "running").
Proof. cbn zeta. split; [done|]. split; [done|]. intros now. split; [|by vm_compute]. reflexivity. Qed.
