(* ===== verification/DeployInv.v ===== *)
(** * What the deployment service keeps: invariants of [Deploy]

    Every handler is a sequence of small writes ([micro]): a change that leaves the rows alone, a
    release of leases, a phase, an observation, a stop.  The writes carry what makes them safe, and a
    handler run from a state that satisfies the invariant only makes safe ones.  From that follow, for
    every reachable service, that a deployment reported stopped is stopped on every rank and holds
    nothing, that no two deployments hold conflicting resources, and that a launch command is only ever
    sent for the current run of a deployment that is to run. *)

From S2P Require Import Prelude GoStrings Utf8 CJson Events Leases Runs RunLogs Diag Recipe DeployState Deploy.
Open Scope Z_scope.

(** ** The invariant *)

Definition leases (s : Service) : list Lease := lg_leases (sv_ledger s).

(** The deployment holds no lease *)
Definition free (dep : string) (ls : list Lease) : Prop :=
  ∀ l, l ∈ ls → l_active l = true → owned_by "deployment" dep l = false.

Definition row_ok (dep : string) (ls : list Lease) (d : DepRow) : Prop :=
  d_observed d = OStopped →
  d_desired d = DStopped ∧ (∀ rank, rank ∈ AllRanks (d_placement d) → phase d rank = PhaseStopped) ∧ free dep ls.

(** Command numbers in flight have been given out *)
Definition fresh (s : Service) : Prop := ∀ cmd, is_Some (sv_inflight s !! cmd) → (cmd < sv_next s)%N.

Record inv (s : Service) : Prop := {
  inv_rows dep d : sv_deployments s !! dep = Some d → row_ok dep (leases s) d;
  inv_leases : leases_exclusive (leases s);
  inv_fresh : fresh s;
}.

(** Messages that make an agent prepare, create, start, inspect or verify *)
Definition launch (m : Message) : bool :=
  match msg_op m with
  | MCreate | MHostPrepare | MStart | MInspect | MPrepare | MVerify => true
  | MStop | MStopExtension | MCancelFetch _ => false
  end.

Definition emits (P : Message → Prop) (s s' : Service) : Prop :=
  ∃ new, sv_sent s' = sv_sent s ++ new ∧ Forall P new.

(** The phase of [rank] may change: the deployment is not reported stopped, or not because of it *)
Definition loose (dep : string) (rank : Z) (s : Service) : Prop :=
  ∀ d, sv_deployments s !! dep = Some d → d_observed d ≠ OStopped ∨ phase d rank ≠ PhaseStopped.

(** ** Small writes *)

Inductive micro (P : Message → Prop) : Service → Service → Prop :=
| mi_calm s s' : sv_deployments s' = sv_deployments s → leases s' = leases s → emits P s s' → (fresh s → fresh s') →
    micro P s s'
| mi_release dep s : micro P s (ledger (ReleaseLeasesFor "deployment" dep) s)
| mi_phase dep rank to s : to = PhaseStopped ∨ loose dep rank s → micro P s (setPhase dep rank to s)
| mi_note dep d endpoint caps ds s : sv_deployments s !! dep = Some d →
    micro P s (UpdateDeploymentObserved (d_observed d) endpoint caps ds dep s)
| mi_observe dep o endpoint caps ds s : o ≠ OStopped → micro P s (UpdateDeploymentObserved o endpoint caps ds dep s)
| mi_stopping dep ds s : micro P s (SetDeploymentStopping ds dep s)
| mi_restop dep rank to ds s : micro P s (SetDeploymentStopping ds dep (setPhase dep rank to s))
| mi_stopped dep d endpoint caps ds s : sv_deployments s !! dep = Some d → d_desired d = DStopped →
    (∀ rank, rank ∈ AllRanks (d_placement d) → phase d rank = PhaseStopped) → free dep (leases s) →
    micro P s (UpdateDeploymentObserved OStopped endpoint caps ds dep s)
| mi_container dep d rank container s : sv_deployments s !! dep = Some d →
    micro P s (alter_dep (with_placement (with_container rank container (d_placement d))) dep s)
| mi_clear dep ds s : micro P s (ClearStoppedDeploymentEndpoint ds dep s).

Notation writes P := (rtc (micro P)).

(** ** Leases *)

Lemma free_release dep dep' ls : free dep ls → free dep (ReleaseLeases "deployment" dep' ls).
Proof. intros H l Hl Ha. apply ReleaseLeases_spec in Hl as [Hl _]; [|done]. by apply H. Qed.

Lemma free_released dep ls : free dep (ReleaseLeases "deployment" dep ls).
Proof. intros l Hl Ha. by apply ReleaseLeases_spec in Hl as [_ ?]. Qed.

Lemma free_granted dep dep' rs ls : dep ≠ dep' → free dep ls → free dep (ls ++ granted "deployment" dep' rs).
Proof.
  intros Hne H l [Hl|Hl]%elem_of_app Ha; [by apply H|].
  apply list_elem_of_lookup in Hl as [i Hl]. apply granted_lookup in Hl as (_ & Hk & Ho & _).
  unfold owned_by. rewrite Ho. rewrite (bool_decide_eq_false_2 (dep' = dep)) by congruence. by rewrite andb_false_r.
Qed.

(** ** Rows *)

Lemma set_container_ranks rank container es : pl_rank <$> set_container rank container es = pl_rank <$> es.
Proof. induction es as [|e es IH]; csimpl; [done|]. case_match; csimpl; [done|]. by rewrite IH. Qed.

Lemma AllRanks_container rank container ps : AllRanks (with_container rank container ps) = AllRanks ps.
Proof.
  unfold AllRanks. simpl. pose proof (set_container_ranks rank container (ps_entries ps)) as H.
  destruct (ps_entries ps) as [|e es]; [done|]. cbn [set_container] in *.
  destruct (pl_rank e =? rank); by f_equal.
Qed.

Lemma all_stopped_spec d :
  all_stopped d = true ↔ ∀ rank, rank ∈ AllRanks (d_placement d) → phase d rank = PhaseStopped.
Proof.
  unfold all_stopped. rewrite forallb_forall. setoid_rewrite bool_decide_eq_true.
  by setoid_rewrite list_elem_of_In.
Qed.

Lemma phase_with_dispatch d rank to rank' :
  phase (with_dispatch <[rank := to]> d) rank' = if decide (rank = rank') then to else phase d rank'.
Proof. unfold phase. simpl. rewrite lookup_insert. by case_decide. Qed.

Lemma lookup_alter_dep f dep dep' s :
  sv_deployments (alter_dep f dep s) !! dep' =
    if decide (dep = dep') then f <$> sv_deployments s !! dep' else sv_deployments s !! dep'.
Proof. unfold alter_dep. simpl. rewrite lookup_alter. by case_decide; subst. Qed.

(** A write to one row keeps the invariant when it keeps that row's *)
Lemma inv_alter f dep s :
  inv s → (∀ d, sv_deployments s !! dep = Some d → row_ok dep (leases s) (f d)) → inv (alter_dep f dep s).
Proof.
  intros [Hr Hl Hn] Hf. split; [|done..]. intros dep' d. rewrite lookup_alter_dep.
  case_decide; [subst|by apply Hr]. intros (d0 & Hd & ->)%fmap_Some. by apply Hf.
Qed.

Lemma inv_calm s s' :
  sv_deployments s' = sv_deployments s → leases s' = leases s → (fresh s → fresh s') → inv s → inv s'.
Proof. intros Ed El Hn [Hr Hl Hf]. split; [intros dep d; rewrite Ed, El; apply Hr|by rewrite El|by apply Hn]. Qed.

Lemma micro_inv P s s' : micro P s s' → inv s → inv s'.
Proof.
  intros Hm Hs. pose proof Hs as [Hr Hl Hn]. destruct Hm as
    [s s' Ed El _ Hf|dep s|dep rank to s H|dep d endpoint caps ds s Hd|dep o endpoint caps ds s Ho|dep ds s
    |dep rank to ds s|dep d endpoint caps ds s Hd Hds Hp Hf|dep d rank container s Hd|dep ds s].
  - by eapply inv_calm.
  - split; [|by apply release_exclusive|done]. intros dep' d Hd Ho. destruct (Hr dep' d Hd Ho) as (? & ? & ?).
    split_and!; [done..|]. by apply free_release.
  - apply inv_alter; [done|]. intros d Hd Ho. destruct (Hr dep d Hd Ho) as (? & Hp & ?). split_and!; [done| |done].
    intros rank' Hin. rewrite phase_with_dispatch. case_decide; [subst|by apply Hp].
    destruct H as [->|H]; [done|]. destruct (H d Hd) as [?|Hne]; [done|]. by destruct Hne; apply Hp.
  - apply inv_alter; [done|]. intros d' Hd' Ho. assert (d' = d) as -> by congruence. by apply (Hr dep d).
  - apply inv_alter; [done|]. by intros d Hd Ho'.
  - apply inv_alter; [done|]. by intros d Hd Ho.
  - split; [|done..]. intros dep' d. unfold SetDeploymentStopping, setPhase. rewrite lookup_alter_dep.
    case_decide; [subst|rewrite lookup_alter_dep, decide_False by done; by apply Hr].
    intros (d0 & _ & ->)%fmap_Some. by intros Ho.
  - apply inv_alter; [done|]. intros d' Hd' _. by assert (d' = d) as -> by congruence.
  - apply inv_alter; [done|]. intros d' Hd' Ho. assert (d' = d) as -> by congruence. destruct (Hr dep d Hd Ho) as (? & Hp & ?).
    split_and!; [done| |done]. simpl. rewrite AllRanks_container. apply Hp.
  - apply inv_alter; [done|]. intros d Hd Ho. unfold cleared_row in *. by case_match; apply (Hr dep d).
Qed.

Lemma writes_inv P s s' : writes P s s' → inv s → inv s'.
Proof. induction 1; eauto using micro_inv. Qed.

Lemma micro_emits P s s' : micro P s s' → emits P s s'.
Proof. destruct 1; try (exists []; by rewrite app_nil_r); done. Qed.

#[export] Instance emits_preorder P : PreOrder (emits P).
Proof.
  split; [by exists []; rewrite app_nil_r|].
  intros s1 s2 s3 (n1 & E1 & ?) (n2 & E2 & ?). exists (n1 ++ n2). split; [by rewrite E2, E1, app_assoc|].
  by apply Forall_app.
Qed.

Lemma writes_emits P s s' : writes P s s' → emits P s s'.
Proof. induction 1; [done|]. etrans; [by eapply micro_emits|done]. Qed.

(** ** Changes that leave rows and leases alone *)

Record calm (P : Message → Prop) (s s' : Service) : Prop := {
  calm_rows : sv_deployments s' = sv_deployments s;
  calm_leases : leases s' = leases s;
  calm_sent : emits P s s';
  calm_fresh : fresh s → fresh s';
}.

#[export] Instance calm_preorder P : PreOrder (calm P).
Proof.
  split; [by intros s; split|]. intros s1 s2 s3 [D1 L1 E1 F1] [D2 L2 E2 F2].
  split; [congruence..|by etrans|auto].
Qed.

Lemma calm_shrink P s s' :
  sv_deployments s' = sv_deployments s → leases s' = leases s → sv_sent s' = sv_sent s →
  sv_inflight s' ⊆ sv_inflight s → sv_next s' = sv_next s → calm P s s'.
Proof.
  intros D L E I N. split; [done..|exists []; by rewrite app_nil_r|].
  intros Hf cmd [c Hc]. rewrite N. apply Hf. exists c. by eapply lookup_weaken.
Qed.

Lemma calm_same P s s' :
  sv_deployments s' = sv_deployments s → leases s' = leases s → sv_sent s' = sv_sent s →
  sv_inflight s' = sv_inflight s → sv_next s' = sv_next s → calm P s s'.
Proof. intros D L E I N. apply calm_shrink; [done..| |done]. by rewrite I. Qed.

Lemma calm_mark P dep rank op s : calm P s (inflightMark (sv_next s) dep rank op (bump s)).
Proof.
  split; [done..|exists []; by rewrite app_nil_r|]. intros Hf cmd [c Hc]. simpl in *.
  apply lookup_insert_Some in Hc as [[<- _]|[_ Hc]]; [lia|]. pose proof (Hf cmd (ex_intro _ c Hc)). lia.
Qed.

Lemma calm_bump P s : calm P s (bump s).
Proof. split; [done..|exists []; by rewrite app_nil_r|]. intros Hf cmd Hc. simpl in *. pose proof (Hf cmd Hc). lia. Qed.

Lemma calm_take P cmd s : calm P s (set_inflight (delete cmd) s).
Proof. apply calm_shrink; [done..|apply delete_subseteq|done]. Qed.

Lemma calm_drop P dep rank ops s : calm P s (inflightDrop dep rank ops s).
Proof. apply calm_shrink; [done..|apply map_filter_subseteq|done]. Qed.

Lemma calm_writes P s s' : calm P s s' → writes P s s'.
Proof. intros [D L E F]. by apply rtc_once, mi_calm. Qed.

Lemma calm_loose P dep rank s s' : calm P s s' → loose dep rank s → loose dep rank s'.
Proof. intros [D _ _ _] H d. rewrite D. apply H. Qed.

Lemma calm_run_state P now run to code msg s : calm P s (SetRunState now run to code msg s).
Proof. apply calm_same; [done| |done..]. apply SetState_leases. Qed.

Lemma calm_announce P typ dep fields s : calm P s (announce typ dep fields s).
Proof. by apply calm_same. Qed.

Lemma calm_progress P run rank updates s : calm P s (setServeRankProgress run rank updates s).
Proof. unfold setServeRankProgress. case_match; [|done]. by apply calm_same. Qed.

Lemma calm_stopped_progress P run ranks s : calm P s (stopped_progress run ranks s).
Proof.
  unfold stopped_progress. case_match; [done|]. clear. revert s.
  induction ranks as [|rank ranks IH]; simpl; [done|]. intros s. etrans; [apply calm_progress|apply IH].
Qed.

Lemma calm_rank_state P dep rank state s : calm P s (setRankState dep rank state s).
Proof. by apply calm_same. Qed.

Lemma calm_live P f s : calm P s (set_live f s).
Proof. by apply calm_same. Qed.

Lemma calm_send (P : Message → Prop) env m s : P m → calm P s (snd (send env m s)).
Proof.
  intros Hm. unfold send. case_match; simpl; [|done]. split; [done..|exists [m]; split; [done|by constructor]|done].
Qed.

Lemma calm_command (P : Message → Prop) env node cop mop dep run rank s :
  (∀ cmd, P (mkMessage node cmd mop dep run rank)) → calm P s (snd (command env node cop mop dep run rank s)).
Proof. intros Hm. unfold command. simpl. etrans; [|by apply calm_send]. apply calm_mark. Qed.

(** ** What the handlers write *)

Section handlers.
Context (P : Message → Prop) (env : Env).
Hypothesis quiet : ∀ m, launch m = false → P m.

Lemma writes_phase dep rank to s : to = PhaseStopped ∨ loose dep rank s → writes P s (setPhase dep rank to s).
Proof. intros H. by apply rtc_once, mi_phase. Qed.

Lemma loose_phase dep rank to s : to ≠ PhaseStopped → loose dep rank (setPhase dep rank to s).
Proof.
  intros Hto d. unfold setPhase. rewrite lookup_alter_dep, decide_True by done.
  intros (d0 & _ & ->)%fmap_Some. right. by rewrite phase_with_dispatch, decide_True.
Qed.

Lemma calm_cancel_targets node targets s : calm P s (cancel_targets env node targets s).
Proof.
  revert s. induction targets as [|t targets IH]; simpl; [done|]. intros s. etrans; [|apply IH].
  etrans; [|by apply calm_send, quiet]. apply calm_bump.
Qed.

Lemma calm_cancel_fetches dep rank node s : calm P s (cancelArtifactFetches env dep rank node s).
Proof. unfold cancelArtifactFetches. etrans; [|apply calm_cancel_targets]. apply calm_drop. Qed.

Lemma writes_note dep diag s : writes P s (noteDispatch dep diag s).
Proof. unfold noteDispatch. case_match; [|done]. by apply rtc_once, mi_note. Qed.

Lemma writes_release dep run s : writes P s (releaseIfTerminal dep run s).
Proof. unfold releaseIfTerminal. repeat case_match; try done. apply rtc_once, mi_release. Qed.

Lemma writes_fail dep rank run code message s : writes P s (fail env dep rank run code message s).
Proof.
  unfold fail, failDispatch. etrans; [apply writes_note|].
  match goal with |- writes P ?s1 (if _ then ?s2 else _) => assert (writes P s1 s2) end.
  { case_match; [|done]. by apply rtc_once, mi_observe. }
  destruct (bool_decide (run = "")); [done|]. etrans; [eassumption|].
  etrans; [apply calm_writes, calm_run_state|apply writes_release].
Qed.

Lemma writes_check dep run s : writes P s (checkStopComplete env dep run s).
Proof.
  unfold checkStopComplete. destruct (sv_deployments s !! dep) as [d|] eqn:Hd; [|done].
  destruct (all_stopped d) eqn:Ha; simpl; [|done].
  set (s1 := stopped_progress run _ s).
  assert (Hc : calm P s (if negb (bool_decide (run = "")) && run_live run s1
                         then SetRunState (e_now env) run Cancelled "" "" s1 else s1)).
  { case_match; (etrans; [apply calm_stopped_progress|]); [apply calm_run_state|done]. }
  revert Hc. generalize (if negb (bool_decide (run = "")) && run_live run s1
                         then SetRunState (e_now env) run Cancelled "" "" s1 else s1). intros s2 Hc.
  etrans; [by apply calm_writes|]. etrans; [apply rtc_once, (mi_stopping _ dep (Compact (d_diagnostics d)))|].
  etrans; [apply rtc_once, (mi_release _ dep)|].
  etrans; [|apply calm_writes, calm_announce]. apply rtc_once.
  apply (mi_stopped _ dep (stopping_row (Compact (d_diagnostics d)) d)); [|done| |apply free_released].
  - change (sv_deployments (SetDeploymentStopping (Compact (d_diagnostics d)) dep s2) !! dep
            = Some (stopping_row (Compact (d_diagnostics d)) d)).
    unfold SetDeploymentStopping. rewrite lookup_alter_dep, decide_True by done.
    destruct Hc as [-> _ _ _]. by rewrite Hd.
  - by apply all_stopped_spec.
Qed.

Lemma writes_stop_extension dep pl rank run op s : writes P s (stopExtension env dep pl rank run op s).
Proof.
  unfold stopExtension. case_match; [done|].
  pose proof (calm_command P env (pl_node pl) op MStopExtension dep run rank
    (inflightDrop dep rank [CPrepare; CVerify] s)
    ltac:(intros cmd; by apply quiet)) as Hc.
  destruct (command _ _ _ _ _ _ _ _) as [sent s'] eqn:E. simpl in Hc.
  etrans; [apply calm_writes, calm_drop|]. etrans; [by apply calm_writes|].
  destruct sent; [done|apply writes_note].
Qed.

Lemma writes_stop dep node run rank s : writes P s (snd (command env node CStop MStop dep run rank s)).
Proof. apply calm_writes, calm_command. intros cmd. by apply quiet. Qed.

Lemma writes_dispatch_stopped dep rank run pl d s :
  sv_deployments s !! dep = Some d → writes P s (dispatch_stopped env dep rank run pl (phase d rank) s).
Proof.
  intros Hd. unfold dispatch_stopped.
  assert (Hconfirm : writes P s (checkStopComplete env dep run
    (setPhase dep rank PhaseStopped (cancelArtifactFetches env dep rank (pl_node pl) s)))).
  { etrans; [apply calm_writes, calm_cancel_fetches|]. etrans; [|apply writes_check]. apply writes_phase. by left. }
  pose proof (λ s, writes_stop dep (pl_node pl) run rank s) as Hstop.
  destruct (phase d rank) eqn:Ep; try done; auto using writes_stop_extension.
  - case_match; [done|apply Hstop].
  - etrans; [|apply Hstop]. apply writes_phase. right. intros d' Hd'. right. simplify_eq. by rewrite Ep.
Qed.

Lemma writes_next dep rank run pl s : writes P s (dispatchNext env dep rank run pl s).
Proof.
  unfold dispatchNext. destruct (sv_deployments s !! dep) as [d|] eqn:Hd; [|done].
  case_match; [by apply writes_dispatch_stopped|]. case_match; apply calm_writes, calm_live.
Qed.

Lemma writes_phase_next dep rank run pl to s : loose dep rank s → writes P s (dispatchNext env dep rank run pl (setPhase dep rank to s)).
Proof. intros H. etrans; [|apply writes_next]. apply writes_phase. by right. Qed.

Lemma writes_confirm dep rank run s : writes P s (checkStopComplete env dep run (setPhase dep rank PhaseStopped s)).
Proof. etrans; [|apply writes_check]. apply writes_phase. by left. Qed.

Lemma writes_foldl {A} (f : Service → A → Service) xs s : (∀ s x, writes P s (f s x)) → writes P s (foldl f s xs).
Proof. intros Hf. revert s. induction xs as [|x xs IH]; simpl; [done|]. intros s. etrans; [apply Hf|apply IH]. Qed.

Lemma writes_dispatch_all dep run ps ranks s : writes P s (dispatch_all env dep run ps ranks s).
Proof. apply writes_foldl. intros s' rank. case_match; [apply writes_next|done]. Qed.

Lemma writes_wake dep run s : writes P s (wakeWorkerFirstHead env dep run s).
Proof. unfold wakeWorkerFirstHead. repeat case_match; try done. apply writes_next. Qed.

Lemma writes_Stop dep s : writes P s (snd (Stop env dep s)).
Proof.
  unfold Stop. destruct (sv_deployments s !! dep) as [d|] eqn:Hd; [|done]. case_match; [done|].
  set (run := run_string d).
  assert (Hfin : ∀ s', writes P s s' → writes P s (announce "deployment.stopping" dep [] (checkStopComplete env dep run
    (dispatch_all env dep run (d_placement d) (AllRanks (d_placement d)) s')))).
  { intros s' Hs'. etrans; [done|]. etrans; [apply writes_dispatch_all|].
    etrans; [apply writes_check|apply calm_writes, calm_announce]. }
  assert (Hset : writes P s (SetDeploymentStopping (d_diagnostics d) dep s)) by apply rtc_once, mi_stopping.
  assert (Hcancel : writes P s (set_ledger (λ _, snd (Cancel run (e_now env) (sv_ledger (SetDeploymentStopping (d_diagnostics d) dep s))))
    (SetDeploymentStopping (d_diagnostics d) dep s))).
  { etrans; [exact Hset|]. apply calm_writes, calm_same; [done| |done..]. unfold leases. simpl.
    rewrite Cancel_SetState. apply SetState_leases. }
  case_match; simpl; [|by apply Hfin].
  destruct (lg_runs _ !! run) as [r|]; [|done]. destruct (Terminal (r_state r)); [by apply Hfin|].
  simpl in Hcancel. destruct (Cancel run (e_now env) (sv_ledger s)) as [[?|e] g]; simpl in *; [by apply Hfin|done].
Qed.

Lemma writes_failWorkload d su s : writes P s (failWorkload env d su s).
Proof.
  unfold failWorkload. destruct (workloadFailure su) as [code message].
  etrans; [apply rtc_once, mi_stopping|]. etrans; [apply calm_writes, calm_rank_state|].
  etrans; [apply writes_phase; by left|]. etrans; [|apply calm_writes, calm_announce].
  etrans; [|apply writes_check]. etrans; [|apply writes_dispatch_all].
  apply calm_writes. case_match; [|done]. etrans; [|apply calm_progress]. case_match; [apply calm_run_state|done].
Qed.

Lemma aggregate_not_stopped dep ps s : aggregateRankState dep ps s ≠ OStopped.
Proof. unfold aggregateRankState. repeat case_match; done. Qed.

Lemma calm_progresses run ranks p s : calm P s (foldl (λ s rank, progress run rank p s) s ranks).
Proof.
  revert s. induction ranks as [|rank ranks IH]; simpl; [done|]. intros s. etrans; [apply calm_progress|apply IH].
Qed.

Lemma writes_after_report d su observed s : writes P s (after_report env d su observed s).
Proof.
  unfold after_report.
  assert (Hw : writes P s (if bool_decide (su_state su = "observing") || bool_decide (su_state su = "running")
                           then wakeWorkerFirstHead env (su_dep su) (run_string d) s else s)).
  { case_match; [apply writes_wake|done]. }
  etrans; [exact Hw|]. cbv zeta. clear Hw.
  generalize (if bool_decide (su_state su = "observing") || bool_decide (su_state su = "running")
              then wakeWorkerFirstHead env (su_dep su) (run_string d) s else s).
  intros s2. case_match; [done|]. apply calm_writes. case_match; [|apply calm_progress].
  etrans; [|apply calm_progresses]. case_match; [done|apply calm_run_state].
Qed.

Lemma writes_report_running d node su s : writes P s (report_running env d node su s).
Proof.
  unfold report_running. destruct (report_state _ _ _) as [rankState diag].
  etrans; [|apply writes_after_report]. etrans; [|apply calm_writes, calm_announce].
  etrans; [apply calm_writes, calm_rank_state|]. apply rtc_once, mi_observe, aggregate_not_stopped.
Qed.

Lemma writes_report_stopped d su s : writes P s (report_stopped env d su s).
Proof.
  unfold report_stopped. case_match; [etrans; [apply calm_writes, calm_rank_state|apply writes_confirm]|].
  case_match; [done|]. etrans; [apply calm_writes, calm_rank_state|]. etrans; [|apply writes_next].
  apply rtc_once, mi_restop.
Qed.

Lemma writes_container dep rank container s : writes P s (setPlacementContainer dep rank container s).
Proof. unfold setPlacementContainer. repeat case_match; try done. by apply rtc_once, mi_container. Qed.

Lemma writes_OnStateUpdate node su s : writes P s (OnStateUpdate env node su s).
Proof.
  unfold OnStateUpdate. case_match; [done|]. case_match; [|done]. case_match; [done|].
  etrans; [apply writes_container|]. case_match; [|apply writes_report_stopped].
  case_match; [apply writes_failWorkload|apply writes_report_running].
Qed.

Lemma writes_on_result c cr d s :
  loose (c_dep c) (c_rank c) s → writes P s (on_result env c cr d s).
Proof.
  intros Hl. unfold on_result. set (dep := c_dep c) in *. set (rank := c_rank c) in *.
  pose proof (λ run pl to, writes_phase_next dep rank run pl to s Hl) as Hnext.
  pose proof (λ run, writes_confirm dep rank run s) as Hconfirm.
  pose proof (λ run code msg, writes_fail dep rank run code msg s) as Hfail.
  assert (Hstarted : ∀ run pl (b : bool), writes P s (wakeWorkerFirstHead env dep run (dispatchNext env dep rank run pl
    (if b then setPhase dep rank PhaseStarted s else SetRunState (e_now env) run Running "" "" (setPhase dep rank PhaseStarted s))))).
  { intros run pl b. etrans; [|apply writes_wake]. etrans; [|apply writes_next].
    etrans; [apply (writes_phase dep rank PhaseStarted); by right|].
    destruct b; [done|]. apply calm_writes, calm_run_state. }
  destruct (c_op c); repeat case_match; try done; auto using writes_OnStateUpdate, writes_note.
  - apply (Hstarted _ _ true).
  - apply (Hstarted _ _ false).
  - apply (Hstarted _ _ false).
  - apply (Hstarted _ _ true).
Qed.

Lemma writes_OnCommandResult cr s : inv s → writes P s (OnCommandResult env cr s).
Proof.
  intros Hs. unfold OnCommandResult, inflightTake. destruct (sv_inflight s !! cr_id cr) as [c|];
    (etrans; [apply calm_writes, (calm_take P (cr_id cr))|]); [|done].
  case_match; [done|]. simpl. destruct (sv_deployments s !! c_dep c) as [d|] eqn:Hd; [|done].
  case_match eqn:Hb; [done|]. apply writes_on_result. intros d' Hd'. simpl in Hd'. simplify_eq.
  apply andb_false_iff in Hb as [?%bool_decide_eq_false|Hne%bool_decide_eq_false]; [by right|].
  left. intros Ho. by destruct (inv_rows _ Hs _ _ Hd Ho) as [? _].
Qed.

Lemma writes_Converge node s : writes P s (Converge env node s).
Proof.
  apply writes_foldl. intros s' [dep d]. unfold converge_one. simpl. case_match; [apply rtc_once, mi_clear|].
  case_match; [done|]. etrans; [apply writes_dispatch_all|]. case_match; [apply writes_check|done].
Qed.

Lemma writes_MarkNodeOffline node s : writes P s (MarkNodeOffline env node s).
Proof.
  unfold MarkNodeOffline. cbv zeta.
  etrans; [|apply writes_foldl; intros s' [dep d]; apply calm_writes, calm_announce].
  apply writes_foldl. intros s' [dep d]. unfold offline_one. simpl. case_match; [done|]. cbv zeta.
  match goal with |- context [foldl ?f s' ?xs] => etrans; [apply (writes_foldl f xs s')|] end.
  { intros. apply calm_writes, calm_rank_state. }
  apply rtc_once, mi_observe. by case_match.
Qed.

Lemma writes_begin_run dep run p s : writes P s (begin_run env dep run p s).
Proof.
  unfold begin_run. etrans; [apply calm_writes, calm_run_state|]. etrans; [apply calm_writes, calm_run_state|].
  etrans; [|apply writes_foldl; intros; apply writes_next]. apply calm_writes. by apply calm_same.
Qed.

(** ** The gate *)

Section launch.
Context (dep run : string).
Hypothesis current : ∀ m, msg_dep m = dep → msg_run m = run → msg_op m ≠ MStart → P m.

Lemma calm_launch node cop mop rank s :
  mop ≠ MStart → calm P s (snd (command env node cop mop dep run rank s)).
Proof. intros Hm. apply calm_command. intros cmd. by apply current. Qed.

Lemma writes_extension pl rank verify s : loose dep rank s → writes P s (snd (sendExtension env dep pl rank run verify s)).
Proof.
  intros Hl. unfold sendExtension. case_match; [done|]. case_match; [|done]. simpl.
  match goal with |- writes P s (snd (let '(_, _) := send env ?m ?s' in _)) =>
    pose proof (calm_send P env m s') as Hsend; assert (writes P s s') as Hw; [|destruct (send env m s') as [b s'']] end.
  - etrans; [apply calm_writes, calm_mark|].
    etrans; [apply (writes_phase dep rank (if verify then PhaseVerifying else PhasePreparing)); by right|].
    apply calm_writes. destruct (verify && negb (bool_decide (run = ""))); [apply calm_run_state|done].
  - simpl. etrans; [exact Hw|]. apply calm_writes, Hsend. apply current; [done..|]. by destruct verify.
Qed.

Lemma writes_dispatch_running rank pl d s :
  (workerStartReady env d dep rank s = Ok true →
     ∀ m, msg_dep m = dep → msg_run m = run → msg_rank m = rank → P m) →
  loose dep rank s → writes P s (dispatch_running env dep rank run pl d s).
Proof.
  intros Hstart Hl. unfold dispatch_running.
  assert (Hnext : ∀ p, writes P s (dispatchNext env dep rank run pl (setPhase dep rank p s))) by
    (intros; by apply writes_phase_next).
  assert (Hsend : ∀ p cop mop, mop ≠ MStart →
    writes P s (snd (command env (pl_node pl) cop mop dep run rank (progress run rank p s)))).
  { intros p cop mop Hm. etrans; [apply calm_writes, calm_progress|by apply calm_writes, calm_launch]. }
  assert (Hext : ∀ verify (f : string → Service → Service), (∀ e s, writes P s (f e s)) →
    writes P s (match sendExtension env dep pl rank run verify s with (Some e, s) => f e s | (None, s) => s end)).
  { intros verify f Hf. pose proof (writes_extension pl rank verify s Hl) as He.
    destruct (sendExtension _ _ _ _ _ _ _) as [[e|] s']; [|done]. etrans; [exact He|apply Hf]. }
  assert (Hhost : writes P s (match command env (pl_node pl) CHostPrepare MHostPrepare dep run rank
      (setPhase dep rank PhaseHostPreparing (progress run rank "preparing_host" s)) with
      | (true, s) => s
      | (false, s) => noteDispatch dep (Error "workload.node_offline"
          ("node " +:+ pl_node pl +:+ " offline; host preparation paused until reconnect")) (progress run rank "waiting_for_node" s)
      end)).
  { set (s' := setPhase _ _ _ _). assert (writes P s s') as Hw.
    { etrans; [apply calm_writes, calm_progress|apply writes_phase; right]. eapply calm_loose, Hl. apply (calm_progress P). }
    pose proof (calm_launch (pl_node pl) CHostPrepare MHostPrepare rank s' ltac:(done)) as Hc.
    destruct (command _ _ _ _ _ _ _ s') as [b s'']. etrans; [exact Hw|]. etrans; [apply calm_writes, Hc|].
    destruct b; [done|]. etrans; [apply calm_writes, calm_progress|apply writes_note]. }
  pose proof (λ code e, writes_fail dep rank run code e) as Hfail. pose proof (writes_note dep) as Hnote.
  assert (Hif : ∀ (b : bool) (x y : Service), writes P s x → writes P s y → writes P s (if b then x else y)) by
    (by intros []).
  destruct (phase d rank).
  - destruct (manifestFor (d_recipe d) s); [|done]. apply Hif; [by apply Hext|done].
  - apply Hif; [by apply Hext|done].
  - done.
  - destruct (e_spec env dep rank); [by apply Hsend|done].
  - apply Hif; [done|]. destruct (e_spec env dep rank) as [[]|]; done.
  - apply Hif; [done|]. destruct (e_spec env dep rank) as [[]|]; done.
  - destruct (workerStartReady env d dep rank s) as [[]|]; [| |done].
    + destruct (e_spec env dep rank); [|done].
      etrans; [apply calm_writes, calm_progress|]. apply calm_writes, calm_command. intros cmd. by apply Hstart.
    + apply calm_writes, calm_progress.
  - apply Hif; [by apply Hext|done].
  - by apply Hsend.
  - done.
  - done.
Qed.

Lemma writes_dispatchReady rank pl s :
  (∀ d, sv_deployments s !! dep = Some d → workerStartReady env d dep rank s = Ok true →
     ∀ m, msg_dep m = dep → msg_run m = run → msg_rank m = rank → P m) →
  inv s → writes P s (dispatchReady env dep rank run pl s).
Proof.
  intros Hstart Hs. unfold dispatchReady. destruct (sv_deployments s !! dep) as [d|] eqn:Hd; [|done].
  case_match eqn:Ed; [|by apply writes_dispatch_stopped]. apply writes_dispatch_running; [by apply Hstart|].
  intros d' Hd'. simplify_eq. left. intros Ho. destruct (inv_rows _ Hs _ _ Hd Ho) as [? _]. congruence.
Qed.
End launch.

Lemma calm_finish key failed s : calm P s (gate_finish key failed s).
Proof. unfold gate_finish. repeat case_match; try done; apply calm_live. Qed.

Lemma calm_gate_begin key g s : calm P s (gate_begin key g s).
Proof.
  unfold gate_begin. destruct key as [dep rank].
  repeat case_match; first [apply calm_finish|apply calm_live].
Qed.
End handlers.

(** What makes a launch command right: it is for the current run of a deployment that is to run, and a
    start comes after the ranks it has to wait for *)
Definition authorised (s : Service) (m : Message) : Prop :=
  launch m = true →
  ∃ d, sv_deployments s !! msg_dep m = Some d ∧ d_desired d = DRunning ∧ run_string d = msg_run m ∧
       (msg_op m = MStart → ∃ env, workerStartReady env d (msg_dep m) (msg_rank m) s = Ok true).

Lemma authorised_quiet s m : launch m = false → authorised s m.
Proof. intros E H. congruence. Qed.

Lemma current_run_spec dep run s :
  current_run dep run s = true ↔ ∃ d, sv_deployments s !! dep = Some d ∧ d_desired d = DRunning ∧ run_string d = run.
Proof.
  unfold current_run. destruct (sv_deployments s !! dep) as [d|]; [|naive_solver].
  rewrite andb_true_iff, !bool_decide_eq_true. naive_solver.
Qed.

Lemma writes_gate_step env key acquired s : inv s → writes (authorised s) s (gate_step env key acquired s).
Proof.
  intros Hs. unfold gate_step. destruct (sv_live s !! key) as [g|]; [|done].
  destruct (g_pc g) as [| | |err]; try (apply calm_writes; first [apply calm_gate_begin|apply calm_live]).
  unfold gate_decide. destruct key as [dep rank]. etrans; [|apply calm_writes, calm_finish].
  destruct (current_run dep (g_run g) s) eqn:Hc; [|done]. apply current_run_spec in Hc as (d & Hd & Hdes & Hrun).
  destruct err as [e|].
  - etrans; [apply writes_fail|apply writes_Stop]; apply authorised_quiet.
  - apply writes_dispatchReady; [apply authorised_quiet| | |done].
    + intros m Hm Hr Hop _. exists d. rewrite Hm, Hr. split_and!; [done..|congruence|done].
    + intros d' Hd' Hw m Hm Hr Hk _. assert (d' = d) as -> by congruence. exists d. rewrite Hm, Hr, Hk.
      split_and!; [done..|]. by exists env.
Qed.

(** ** Launching and deleting *)

Lemma commit_launch_leases env dep run p g g' : commit_launch env dep run p g = Ok g' →
  acquirable "deployment" dep (LeaseResources p) (lg_leases g) ∧
  lg_leases g' = lg_leases g ++ granted "deployment" dep (LeaseResources p).
Proof.
  unfold commit_launch, CreateRun, acquire_leases, get, modify, throw, mbind, ST_bind.
  match goal with |- context [if ?b then _ else _] => destruct b end; simpl; [done|].
  destruct (AcquireLeases_cases "deployment" dep (LeaseResources p) (lg_leases g)) as [[-> Hok]|(e & -> & _)]; [|done].
  intros [= <-]. done.
Qed.

(** A row that is not reported stopped joins the table, and its leases the ledger's *)
Lemma inv_launch dep d rs s s' :
  inv s → sv_deployments s' = <[dep := d]> (sv_deployments s) → d_observed d ≠ OStopped →
  acquirable "deployment" dep rs (leases s) → leases s' = leases s ++ granted "deployment" dep rs →
  (fresh s → fresh s') → inv s'.
Proof.
  intros [Hr Hl Hn] Ed Ho Ha El Hf. split; [|rewrite El; by apply acquire_exclusive|by apply Hf].
  intros dep' d'. rewrite Ed, lookup_insert. case_decide; [by intros [= <-] ?|].
  intros Hd Ho'. destruct (Hr dep' d' Hd Ho') as (? & ? & ?). split_and!; [done..|]. rewrite El. by apply free_granted.
Qed.

Section launches.
Context (env : Env).

Lemma createPlanned_cases dep run p s :
  (snd (createPlanned env dep run p s) = s) ∨
  ∃ s', writes (λ m, launch m = false) s' (snd (createPlanned env dep run p s)) ∧ sv_sent s' = sv_sent s ∧
    (inv s → inv s').
Proof.
  unfold createPlanned. case_match; [by left|].
  destruct (commit_launch _ _ _ _ _) as [g|] eqn:Hc; [|by left]. right.
  apply commit_launch_leases in Hc as [Ha Hg].
  match goal with |- context [begin_run env dep run p ?s1] => exists s1 end.
  split_and!; [by apply writes_begin_run|done|]. intros Hs.
  by eapply (inv_launch dep (created_row run p)); [exact Hs|done..].
Qed.

Lemma Start_cases dep run planned s :
  (snd (Start env dep run planned s) = s) ∨
  ∃ s', writes (λ m, launch m = false) s' (snd (Start env dep run planned s)) ∧ sv_sent s' = sv_sent s ∧
    (inv s → inv s').
Proof.
  unfold Start. destruct (sv_deployments s !! dep) as [d|] eqn:Hd; [|by left]. case_match; [by left|].
  destruct planned as [p|]; [|by left]. destruct (commit_launch _ _ _ _ _) as [g|] eqn:Hc; [|by left].
  case_match; [by left|]. right. apply commit_launch_leases in Hc as [Ha Hg].
  match goal with |- context [begin_run env dep run p ?s1] => exists s1 end.
  split_and!; [by apply writes_begin_run|done|]. intros Hs.
  eapply (inv_launch dep (restarted_row run (placementSetFromPlan p) (plan_endpoint p) d)); [exact Hs| |done..].
  simpl. by apply alter_lookup.
Qed.

Lemma Delete_inv dep s : inv s → inv (snd (Delete dep s)).
Proof.
  intros Hs. unfold Delete. destruct (sv_deployments s !! dep) as [d|]; [|done].
  match goal with |- context [if ?b then _ else _] => destruct b end; [done|]. destruct Hs as [Hr Hl Hn]. split; [|done..].
  intros dep' d'. simpl. rewrite lookup_delete. case_decide; [done|apply Hr].
Qed.
End launches.

(** ** Reachable services *)

(** A restart of the controller keeps the database and nothing else *)
Definition restart (s : Service) : Service :=
  mkService (sv_deployments s) (sv_recipes s) (sv_ledger s) ∅ ∅ ∅ (sv_progress s) (sv_sent s) (sv_next s).

Definition install (digest : string) (m : Manifest) (s : Service) : Service :=
  mkService (sv_deployments s) (<[digest := m]> (sv_recipes s)) (sv_ledger s) (sv_inflight s) (sv_rankStates s)
    (sv_live s) (sv_progress s) (sv_sent s) (sv_next s).

Inductive step : Service → Service → Prop :=
| step_create env dep run p s : step s (snd (createPlanned env dep run p s))
| step_start env dep run planned s : step s (snd (Start env dep run planned s))
| step_stop env dep s : step s (snd (Stop env dep s))
| step_delete dep s : step s (snd (Delete dep s))
| step_gate env key acquired s : step s (gate_step env key acquired s)
| step_result env cr s : step s (OnCommandResult env cr s)
| step_report env node su s : step s (OnStateUpdate env node su s)
| step_converge env node s : step s (Converge env node s)
| step_offline env node s : step s (MarkNodeOffline env node s)
| step_restart s : step s (restart s)
| step_install digest m s : step s (install digest m s).

Definition New : Service := mkService ∅ ∅ (empty_ledger ∅) ∅ ∅ ∅ ∅ [] 0%N.

Lemma step_inv s s' : step s s' → inv s → inv s'.
Proof.
  intros Hst Hs. destruct Hst as [env dep run p s|env dep run planned s|env dep s|dep s|env key acquired s|env cr s
    |env node su s|env node s|env node s|s|digest m s].
  - destruct (createPlanned_cases env dep run p s) as [->|(s' & Hw & _ & Hi)]; [done|]. eauto using writes_inv.
  - destruct (Start_cases env dep run planned s) as [->|(s' & Hw & _ & Hi)]; [done|]. eauto using writes_inv.
  - by eapply writes_inv, Hs; apply (writes_Stop (λ _, True)).
  - by apply Delete_inv.
  - by eapply writes_inv, Hs; apply writes_gate_step.
  - by eapply writes_inv, Hs; apply (writes_OnCommandResult (λ _, True)).
  - by eapply writes_inv, Hs; apply (writes_OnStateUpdate (λ _, True)).
  - by eapply writes_inv, Hs; apply (writes_Converge (λ _, True)).
  - by eapply writes_inv, Hs; apply (writes_MarkNodeOffline (λ _, True)).
  - eapply inv_calm, Hs; [done..|]. by intros _ cmd [??].
  - by eapply inv_calm, Hs.
Qed.

Lemma reachable_inv s : rtc step New s → inv s.
Proof.
  intros H. assert (inv New) as H0 by (split; [done|apply leases_exclusive_nil|by intros ? [??]]).
  induction H; eauto using step_inv.
Qed.

(** C8: However stops, starts, acknowledgements, observations, gates and controller restarts interleave,
    a deployment that is reported stopped is one the operator wants stopped, every one of its ranks is
    confirmed stopped, and it holds no lease; and no two deployments hold resources that conflict. *)
Theorem stopped_holds_nothing s :
  rtc step New s →
  (∀ dep d, sv_deployments s !! dep = Some d → d_observed d = OStopped →
     d_desired d = DStopped ∧ (∀ rank, rank ∈ AllRanks (d_placement d) → phase d rank = PhaseStopped) ∧
     ∀ l, l ∈ leases s → l_active l = true → owned_by "deployment" dep l = false) ∧
  leases_exclusive (leases s).
Proof. intros Hs%reachable_inv. destruct Hs as [Hr Hl _]. split; [apply Hr|done]. Qed.

Lemma step_emits s s' : inv s → step s s' → emits (authorised s) s s'.
Proof.
  intros Hr Hst. pose proof (authorised_quiet s) as Hq.
  assert (Hw : ∀ s1 s2, sv_sent s1 = sv_sent s → writes (λ m, launch m = false) s1 s2 → emits (authorised s) s s2).
  { intros s1 s2 E (new & E' & Hf)%writes_emits. exists new. rewrite E', E. split; [done|].
    eapply Forall_impl; [done|]. intros m. apply Hq. }
  destruct Hst as [env dep run p s|env dep run planned s|env dep s|dep s|env key acquired s|env cr s
    |env node su s|env node s|env node s|s|digest m s].
  - destruct (createPlanned_cases env dep run p s) as [->|(s' & ? & ? & _)]; [done|]. by eapply Hw.
  - destruct (Start_cases env dep run planned s) as [->|(s' & ? & ? & _)]; [done|]. by eapply Hw.
  - by apply writes_emits, writes_Stop.
  - exists []. rewrite app_nil_r. split; [|done]. unfold Delete. repeat case_match; done.
  - by apply writes_emits, writes_gate_step.
  - by apply writes_emits, writes_OnCommandResult.
  - by apply writes_emits, writes_OnStateUpdate.
  - by apply writes_emits, writes_Converge.
  - by apply writes_emits, writes_MarkNodeOffline.
  - exists []. by rewrite app_nil_r.
  - exists []. by rewrite app_nil_r.
Qed.

(** C10: Every command that prepares, creates, starts, inspects or verifies a rank is sent by a step that
    found its deployment to be wanted running, and for the run that is then current: a stop or a restart
    that happens while an acquisition waits cannot launch the run it replaced. *)
Theorem launch_authorised s s' :
  rtc step New s → step s s' →
  ∃ new, sv_sent s' = sv_sent s ++ new ∧
    ∀ m, m ∈ new → launch m = true →
      ∃ d, sv_deployments s !! msg_dep m = Some d ∧ d_desired d = DRunning ∧ run_string d = msg_run m.
Proof.
  intros Hr Hst. destruct (step_emits s s' (reachable_inv s Hr) Hst) as (new & E & Hf). exists new. split; [done|].
  intros m Hm Hl. rewrite Forall_forall in Hf. destruct (Hf m Hm Hl) as (d & ? & ? & ? & _). by exists d.
Qed.

(** The start order is kept: when the selected workload says workers first, the head is sent its
    start command only once every worker is confirmed started; and the coordinator of an upstream
    workload only once every other rank is confirmed started and has been seen up. *)
Theorem starts_in_order s s' :
  rtc step New s → step s s' →
  ∃ new, sv_sent s' = sv_sent s ++ new ∧
    ∀ m d mf wi w, m ∈ new → msg_op m = MStart → sv_deployments s !! msg_dep m = Some d →
      sv_recipes s !! d_recipe d = Some mf → ps_workload (d_placement d) = Some wi → 0 ≤ wi →
      m_workloads mf !! Z.to_nat wi = Some w →
      match w_upstream w ≫= up_coordinator with
      | Some coordinator => msg_rank m = coordinator → ∀ e, e ∈ ps_entries (d_placement d) → pl_rank e ≠ coordinator →
          phase d (pl_rank e) = PhaseStarted ∧ rank_state (msg_dep m) (pl_rank e) s ∈ ["observing"; "running"; "ready"]
      | None => msg_rank m = 0 → w_start_order w = "workers-first" → ∀ e, e ∈ ps_entries (d_placement d) → 0 < pl_rank e →
          phase d (pl_rank e) = PhaseStarted
      end.
Proof.
  intros Hr Hst. destruct (step_emits s s' (reachable_inv s Hr) Hst) as (new & E & Hf). exists new. split; [done|].
  intros m d mf wi w Hm Hop Hd Hmf Hwi Hpos Hw. rewrite Forall_forall in Hf.
  destruct (Hf m Hm) as (d' & Hd' & _ & _ & Hstart); [unfold launch; by rewrite Hop|].
  assert (d' = d) as -> by congruence. destruct (Hstart Hop) as (env & Hready).
  unfold workerStartReady, manifestFor, selectWorkload in Hready. rewrite Hmf, Hwi in Hready.
  rewrite (proj2 (Z.ltb_ge wi 0)), Hw in Hready by done.
  destruct (w_upstream w ≫= up_coordinator) as [coordinator|].
  - intros Hc e He Hne. rewrite (proj2 (Z.eqb_eq (msg_rank m) coordinator)) in Hready by done. simpl in Hready.
    injection Hready as Hall. rewrite forallb_forall in Hall. apply list_elem_of_In in He. apply Hall in He.
    rewrite Hc, (proj2 (Z.eqb_neq (pl_rank e) coordinator)) in He by done. simpl in He.
    by apply andb_true_iff in He as [?%bool_decide_eq_true ?%bool_decide_eq_true].
  - intros Hc Ho e He Hpos'. rewrite Hc, Ho in Hready. simpl in Hready. injection Hready as Hall.
    rewrite forallb_forall in Hall. apply list_elem_of_In in He. apply Hall in He.
    rewrite (proj2 (Z.ltb_lt 0 (pl_rank e))) in He by done. by apply bool_decide_eq_true in He.
Qed.
