(* ===== verification/DeployStop.v ===== *)
(** * A stop lands: [Stop] and the acknowledgements that follow

    After [Stop] every rank of the deployment is either confirmed stopped or waits for a command that
    is in flight, and each positive result brings the deployment closer: the commands in flight weigh
    less after it.  Once none is left the deployment is reported stopped and holds nothing. *)

From S2P Require Import Prelude GoStrings Utf8 CJson Events Leases Runs RunLogs Diag Recipe DeployState Deploy DeployInv.
Open Scope Z_scope.

(** ** What a stop waits for *)

(** The commands whose result moves a stopping rank *)
Definition stop_ops : list CmdOp := [CStop; CStopPrepare; CStopVerify; CHostPrepare].

Definition awaited (dep : string) (rank : Z) (s : Service) : Prop :=
  ∃ cmd c, sv_inflight s !! cmd = Some c ∧ matches dep rank stop_ops c.

Definition settled (dep : string) (d : DepRow) (s : Service) : Prop :=
  (∀ rank, rank ∈ AllRanks (d_placement d) → phase d rank = PhaseStopped) →
  d_observed d = OStopped ∧ free dep (leases s).

(** Every rank of [R] that satisfies [D] is stopped or awaited *)
Record winding (dep : string) (R : list Z) (D : Z → Prop) (s : Service) (d : DepRow) : Prop := {
  wi_row : sv_deployments s !! dep = Some d;
  wi_desired : d_desired d = DStopped;
  wi_ranks : AllRanks (d_placement d) = R;
  wi_members cmd c : sv_inflight s !! cmd = Some c → c_dep c = dep → c_rank c ∈ R;
  wi_fresh : fresh s;
  wi_awaited rank : rank ∈ R → D rank → phase d rank = PhaseStopped ∨ awaited dep rank s;
}.

(** ** Writes that concern one rank of one deployment *)

Record glide (dep : string) (r : Z) (s s' : Service) : Prop := {
  gl_fresh : fresh s → fresh s';
  gl_kept cmd c : fresh s → sv_inflight s !! cmd = Some c → c_op c ∈ stop_ops → sv_inflight s' !! cmd = Some c;
  gl_new cmd c : sv_inflight s' !! cmd = Some c → c_dep c = dep → sv_inflight s !! cmd = Some c ∨ c_rank c = r;
  gl_row d : sv_deployments s !! dep = Some d →
    ∃ d', sv_deployments s' !! dep = Some d' ∧ (d_desired d = DStopped → d_desired d' = DStopped) ∧
          AllRanks (d_placement d') = AllRanks (d_placement d) ∧ ∀ r', r' ≠ r → phase d' r' = phase d r';
}.

#[export] Instance glide_preorder dep r : PreOrder (glide dep r).
Proof.
  split.
  - intros s. split; [done|done|by left|]. intros d Hd. by exists d.
  - intros s1 s2 s3 [F1 K1 N1 R1] [F2 K2 N2 R2]. split; [auto|eauto| |].
    + intros cmd c Hc Hd. destruct (N2 cmd c Hc Hd) as [Hc'|?]; [|by right]. by apply N1.
    + intros d Hd. destruct (R1 d Hd) as (d' & Hd' & P1 & A1 & Q1). destruct (R2 d' Hd') as (d'' & Hd'' & P2 & A2 & Q2).
      exists d''. split_and!; [done|auto|congruence|]. intros r' Hr'. rewrite Q2, Q1; done.
Qed.

Lemma glide_calm P dep r s s' : calm P s s' → sv_inflight s' = sv_inflight s → glide dep r s s'.
Proof.
  intros [D L E F] I. split; [done|intros; by rewrite I|intros cmd c; rewrite I; by left|].
  intros d Hd. exists d. rewrite D. done.
Qed.

Lemma glide_alter f dep r s :
  (∀ d, (d_desired d = DStopped → d_desired (f d) = DStopped) ∧
        AllRanks (d_placement (f d)) = AllRanks (d_placement d) ∧ ∀ r', r' ≠ r → phase (f d) r' = phase d r') →
  glide dep r s (alter_dep f dep s).
Proof.
  intros Hf. split; [done|done|by left|]. intros d Hd. exists (f d). rewrite lookup_alter_dep, decide_True, Hd by done.
  split; [done|apply Hf].
Qed.

Lemma glide_phase dep r to s : glide dep r s (setPhase dep r to s).
Proof.
  apply glide_alter. intros d. split_and!; [done..|]. intros r' Hr'. by rewrite phase_with_dispatch, decide_False.
Qed.

Lemma glide_stopping dep r ds s : glide dep r s (SetDeploymentStopping ds dep s).
Proof. by apply glide_alter. Qed.

Lemma glide_note dep r diag s : glide dep r s (noteDispatch dep diag s).
Proof. unfold noteDispatch. case_match; [|done]. by apply glide_alter. Qed.

Lemma inflight_progress run rank updates s : sv_inflight (setServeRankProgress run rank updates s) = sv_inflight s.
Proof. unfold setServeRankProgress. by case_match. Qed.

Lemma inflight_stopped_progress run ranks s : sv_inflight (stopped_progress run ranks s) = sv_inflight s.
Proof.
  unfold stopped_progress. case_match; [done|]. clear. revert s.
  induction ranks as [|rank ranks IH]; simpl; [done|]. intros s. by rewrite IH, inflight_progress.
Qed.

Lemma next_free s : fresh s → sv_inflight s !! sv_next s = None.
Proof. intros Hf. apply eq_None_not_Some. intros H. apply Hf in H. lia. Qed.

Lemma inflight_send env m s : sv_inflight (snd (send env m s)) = sv_inflight s.
Proof. unfold send. by case_match. Qed.

Lemma inflight_command env node cop mop dep run rank s :
  sv_inflight (snd (command env node cop mop dep run rank s)) = <[sv_next s := mkInflight dep rank cop]> (sv_inflight s).
Proof. unfold command. simpl. by rewrite inflight_send. Qed.

Lemma glide_command env node cop mop dep run r s : glide dep r s (snd (command env node cop mop dep run r s)).
Proof.
  destruct (calm_command (λ _, True) env node cop mop dep run r s (λ _, I)) as [D L E F].
  split; [done| | |intros d Hd; exists d; by rewrite D].
  - intros cmd c Hf Hc _. rewrite inflight_command, lookup_insert. case_decide; [|done]. subst.
    by rewrite next_free in Hc.
  - intros cmd c. rewrite inflight_command, lookup_insert. case_decide; [|by left].
    intros [= <-] _. by right.
Qed.

Lemma awaited_command env node cop mop dep run r s :
  cop ∈ stop_ops → awaited dep r (snd (command env node cop mop dep run r s)).
Proof.
  intros Hop. exists (sv_next s), (mkInflight dep r cop). rewrite inflight_command, lookup_insert, decide_True by done.
  split; [done|]. by split_and!.
Qed.

Lemma glide_drop dep r ops s : (∀ op, op ∈ ops → op ∉ stop_ops) → glide dep r s (inflightDrop dep r ops s).
Proof.
  intros Hops. split.
  - apply (calm_fresh (λ _, True)), calm_drop.
  - intros cmd c _ Hc Hop. simpl. apply map_lookup_filter_Some. split; [done|]. simpl. intros (_ & _ & Hin).
    by apply (Hops (c_op c)).
  - intros cmd c Hc _. left. simpl in Hc. by apply map_lookup_filter_Some in Hc as [? _].
  - intros d Hd. by exists d.
Qed.

Lemma inflight_cancel_targets env node targets s :
  sv_inflight (cancel_targets env node targets s) = sv_inflight s.
Proof. revert s. induction targets as [|t targets IH]; simpl; [done|]. intros s. by rewrite IH, inflight_send. Qed.

Lemma glide_cancel_fetches env dep r node s : glide dep r s (cancelArtifactFetches env dep r node s).
Proof.
  unfold cancelArtifactFetches. etrans; [apply (glide_drop dep r [CArtifactFetch])|].
  { intros op ->%list_elem_of_singleton. set_solver. }
  eapply glide_calm; [apply (calm_cancel_targets (λ _, True)); done|apply inflight_cancel_targets].
Qed.

(** ** [checkStopComplete] *)

Lemma check_cases env dep run s d : sv_deployments s !! dep = Some d →
  (all_stopped d = false ∧ checkStopComplete env dep run s = s) ∨
  (all_stopped d = true ∧ ∃ d', let s' := checkStopComplete env dep run s in
     sv_deployments s' !! dep = Some d' ∧ d_desired d' = DStopped ∧ d_observed d' = OStopped ∧
     d_placement d' = d_placement d ∧ d_dispatch d' = d_dispatch d ∧ free dep (leases s') ∧
     sv_inflight s' = sv_inflight s ∧ sv_next s' = sv_next s).
Proof.
  intros Hd. unfold checkStopComplete. rewrite Hd. destruct (all_stopped d) eqn:Ha; simpl; [right|by left].
  split; [done|].
  set (s1 := stopped_progress run _ s).
  assert (Hc : ∃ s2, (if negb (bool_decide (run = "")) && run_live run s1
                      then SetRunState (e_now env) run Cancelled "" "" s1 else s1) = s2 ∧
                     sv_deployments s2 = sv_deployments s ∧ sv_inflight s2 = sv_inflight s ∧ sv_next s2 = sv_next s).
  { assert (sv_deployments s1 = sv_deployments s ∧ sv_inflight s1 = sv_inflight s ∧ sv_next s1 = sv_next s) as (E1 & E2 & E3).
    { split_and!; [apply (calm_stopped_progress (λ _, True))|apply inflight_stopped_progress|].
      subst s1. unfold stopped_progress. case_match; [done|]. clear. revert s. generalize (AllRanks (d_placement d)).
      induction l as [|r l IH]; simpl; [done|]. intros s. rewrite IH. unfold setServeRankProgress. by case_match. }
    destruct (_ && _); eexists; (split; [done|]); done. }
  destruct Hc as (s2 & -> & D & I & N).
  exists (observed_row OStopped None None (Compact (d_diagnostics d)) (stopping_row (Compact (d_diagnostics d)) d)).
  split_and!; [|done..| |done|done]; [|apply free_released].
  simpl. by rewrite D, lookup_alter, decide_True, lookup_alter, decide_True, Hd.
Qed.

Lemma glide_check env dep run r s : glide dep r s (checkStopComplete env dep run s).
Proof.
  destruct (sv_deployments s !! dep) as [d|] eqn:Hd; [|unfold checkStopComplete; by rewrite Hd].
  destruct (check_cases env dep run s d Hd) as [[_ ->]|(_ & d' & Hd' & Hdes & Ho & Hp & Hph & Hf & Hi & Hn)]; [done|].
  split.
  - intros Hfr cmd. rewrite Hi, Hn. apply Hfr.
  - intros cmd c _. by rewrite Hi.
  - intros cmd c. rewrite Hi. by left.
  - intros d0 Hd0. assert (d0 = d) as -> by congruence. exists d'. rewrite Hp. split_and!; [done..|].
    intros r' _. unfold phase. by rewrite Hph.
Qed.

Lemma check_settles env dep run s d : sv_deployments s !! dep = Some d →
  ∃ d', sv_deployments (checkStopComplete env dep run s) !! dep = Some d' ∧ d_placement d' = d_placement d ∧
    d_dispatch d' = d_dispatch d ∧ settled dep d' (checkStopComplete env dep run s).
Proof.
  intros Hd. destruct (check_cases env dep run s d Hd) as [[Ha ->]|(_ & d' & Hd' & Hdes & Ho & Hp & Hph & Hf & Hi & Hn)].
  - exists d. split_and!; [done..|]. intros Hall%all_stopped_spec. congruence.
  - exists d'. split_and!; [done..|]. by intros _.
Qed.

(** ** Dispatch of a rank that is to stop *)

Lemma glide_stop_extension env dep pl r run op s : glide dep r s (stopExtension env dep pl r run op s).
Proof.
  unfold stopExtension. case_match; [done|]. etrans; [apply (glide_drop dep r [CPrepare; CVerify])|].
  { intros op' Hin. set_solver. }
  pose proof (glide_command env (pl_node pl) op MStopExtension dep run r (inflightDrop dep r [CPrepare; CVerify] s)) as Hg.
  destruct (command _ _ _ _ _ _ _ _) as [[] s']; [done|]. etrans; [exact Hg|apply glide_note].
Qed.

Lemma awaited_has dep r op s : op ∈ stop_ops → inflightHas dep r [op] s = true → awaited dep r s.
Proof.
  intros Hop (cmd & c & Hc & Hd & Hr & Ho%list_elem_of_singleton)%bool_decide_eq_true. exists cmd, c. split; [done|].
  split_and!; [done..|]. by rewrite Ho.
Qed.

Lemma awaited_kept dep r r' s s' : fresh s → glide dep r' s s' → awaited dep r s → awaited dep r s'.
Proof.
  intros Hf Hg (cmd & c & Hc & Hm). exists cmd, c. split; [|done]. eapply gl_kept; [done..|]. apply Hm.
Qed.

Lemma awaited_stop_extension env dep pl r run op s :
  op ∈ stop_ops → fresh s → awaited dep r (stopExtension env dep pl r run op s).
Proof.
  intros Hop Hf. unfold stopExtension. destruct (inflightHas dep r [op] s) eqn:E; [by eapply awaited_has|].
  set (s0 := inflightDrop dep r [CPrepare; CVerify] s).
  pose proof (awaited_command env (pl_node pl) op MStopExtension dep run r s0 Hop) as Ha.
  assert (fresh s0) as Hf0 by (by apply (calm_fresh (λ _, True) s), Hf; apply calm_drop).
  pose proof (gl_fresh _ _ _ _ (glide_command env (pl_node pl) op MStopExtension dep run r s0) Hf0) as Hf1.
  destruct (command _ _ _ _ _ _ _ s0) as [[] s']; [done|]. apply (awaited_kept dep r r s'); [done|apply glide_note|done].
Qed.

Lemma glide_dispatch_stopped env dep r run pl p s : glide dep r s (dispatch_stopped env dep r run pl p s).
Proof.
  unfold dispatch_stopped.
  assert (glide dep r s (checkStopComplete env dep run (setPhase dep r PhaseStopped
    (cancelArtifactFetches env dep r (pl_node pl) s)))) as Hconfirm.
  { etrans; [apply glide_cancel_fetches|]. etrans; [apply glide_phase|apply glide_check]. }
  pose proof (λ s, glide_command env (pl_node pl) CStop MStop dep run r s) as Hstop.
  destruct p; try done; auto using glide_stop_extension.
  - case_match; [done|apply Hstop].
  - etrans; [apply glide_phase|apply Hstop].
Qed.

(** The rank that was dispatched is stopped, or awaited *)
Lemma dispatch_stopped_rank env dep r run pl d s :
  fresh s → sv_deployments s !! dep = Some d →
  (∃ d', sv_deployments (dispatch_stopped env dep r run pl (phase d r) s) !! dep = Some d' ∧ phase d' r = PhaseStopped)
  ∨ awaited dep r (dispatch_stopped env dep r run pl (phase d r) s).
Proof.
  intros Hf Hd. unfold dispatch_stopped.
  assert (∃ d', sv_deployments (checkStopComplete env dep run (setPhase dep r PhaseStopped
    (cancelArtifactFetches env dep r (pl_node pl) s))) !! dep = Some d' ∧ phase d' r = PhaseStopped) as Hconfirm.
  { destruct (gl_row _ _ _ _ (glide_cancel_fetches env dep r (pl_node pl) s) d Hd) as (d1 & Hd1 & _).
    assert (Hd2 : sv_deployments (setPhase dep r PhaseStopped (cancelArtifactFetches env dep r (pl_node pl) s)) !! dep
      = Some (with_dispatch <[r := PhaseStopped]> d1)).
    { unfold setPhase. by rewrite lookup_alter_dep, decide_True, Hd1. }
    destruct (check_settles env dep run _ _ Hd2) as (d' & Hd' & _ & Hph & _).
    exists d'. split; [done|]. unfold phase. rewrite Hph. simpl. by rewrite lookup_insert, decide_True. }
  pose proof (λ s, awaited_command env (pl_node pl) CStop MStop dep run r s ltac:(set_solver)) as Hstop.
  destruct (phase d r) eqn:Ep; try (by left); try (by right; apply awaited_stop_extension; [set_solver|]); try (by right).
  - destruct (inflightHas dep r [CHostPrepare] s) eqn:E; right; [|apply Hstop]. eapply awaited_has, E. set_solver.
  - left. by exists d.
Qed.

(** ** Winding down *)

Lemma winding_calm P dep R D s s' d :
  calm P s s' → sv_inflight s' = sv_inflight s → winding dep R D s d → winding dep R D s' d.
Proof.
  intros [Ed _ _ Hf] Ei [Hd Hs Hr Hm Hn Ha]. split; [by rewrite Ed|done|done|by rewrite Ei|by apply Hf|].
  intros rank Hin HD. destruct (Ha rank Hin HD) as [?|(cmd & c & Hc & ?)]; [by left|right].
  exists cmd, c. by rewrite Ei.
Qed.

Lemma winding_weaken dep R (D D' : Z → Prop) s d : (∀ r, D' r → D r) → winding dep R D s d → winding dep R D' s d.
Proof. intros HD [Hd Hs Hr Hm Hn Ha]. split; auto. Qed.

(** A glide on a rank keeps the others; what holds of the rank itself is asked for *)
Lemma winding_glide dep R (D D' : Z → Prop) r s s' d d' :
  winding dep R D s d → r ∈ R → glide dep r s s' → sv_deployments s' !! dep = Some d' →
  (∀ x, D' x → x ≠ r → D x) → (D' r → phase d' r = PhaseStopped ∨ awaited dep r s') → winding dep R D' s' d'.
Proof.
  intros [Hd Hs Hr Hm Hn Ha] Hin Hg Hd' HD Hp.
  destruct (gl_row _ _ _ _ Hg d Hd) as (d2 & Hd2 & Hdes & Hranks & Hph). assert (d2 = d') as -> by congruence.
  split; [done|auto|congruence| |by eapply gl_fresh|].
  - intros cmd c Hc Hdep. destruct (gl_new _ _ _ _ Hg cmd c Hc Hdep) as [Hc'| ->]; [by eapply Hm|done].
  - intros rank Hrank HD'. destruct (decide (rank = r)) as [->|Hne]; [by apply Hp|].
    rewrite Hph by done. destruct (Ha rank Hrank (HD _ HD' Hne)) as [?|Hw]; [by left|right].
    by eapply awaited_kept.
Qed.

Lemma dispatchNext_stopped env dep r run pl s d :
  sv_deployments s !! dep = Some d → d_desired d = DStopped →
  dispatchNext env dep r run pl s = dispatch_stopped env dep r run pl (phase d r) s.
Proof. intros Hd Hs. unfold dispatchNext. rewrite Hd, bool_decide_eq_true_2; done. Qed.

Lemma winding_dispatch env dep R D r run pl s d :
  winding dep R D s d → r ∈ R → ∃ d', winding dep R (λ x, D x ∨ x = r) (dispatchNext env dep r run pl s) d'.
Proof.
  intros Hw Hin. pose proof Hw as [Hd Hs _ _ Hn _]. rewrite (dispatchNext_stopped _ _ _ _ _ _ d) by done.
  pose proof (glide_dispatch_stopped env dep r run pl (phase d r) s) as Hg.
  destruct (gl_row _ _ _ _ Hg d Hd) as (d' & Hd' & _).
  exists d'. eapply (winding_glide dep R D); [done..|naive_solver|]. intros _.
  destruct (dispatch_stopped_rank env dep r run pl d s Hn Hd) as [(d2 & Hd2 & ?)|?]; [left|by right]. congruence.
Qed.

Lemma winding_dispatch_all env dep R run ps ranks D s d :
  winding dep R D s d → (∀ r, r ∈ ranks → r ∈ R ∧ is_Some (EntryFor ps r)) →
  ∃ d', winding dep R (λ x, D x ∨ x ∈ ranks) (dispatch_all env dep run ps ranks s) d'.
Proof.
  unfold dispatch_all. revert D s d. induction ranks as [|r ranks IH]; intros D s d Hw Hr; simpl.
  - exists d. eapply winding_weaken, Hw. intros x [?|?%not_elem_of_nil]; done.
  - destruct (Hr r) as [HR [pl Epl]]; [by left|]. rewrite Epl.
    destruct (winding_dispatch env dep R D r run pl s d Hw HR) as [d1 H1].
    destruct (IH _ _ _ H1) as [d2 H2]; [intros x Hx; apply Hr; by right|]. exists d2.
    eapply winding_weaken, H2. intros x. rewrite elem_of_cons. tauto.
Qed.

Lemma winding_check env dep R D run s d :
  winding dep R D s d →
  ∃ d', winding dep R D (checkStopComplete env dep run s) d' ∧ settled dep d' (checkStopComplete env dep run s).
Proof.
  intros Hw. pose proof Hw as [Hd Hs Hr Hm Hn Ha].
  destruct (check_settles env dep run s d Hd) as (d' & Hd' & Hp & Hph & Hset). exists d'. split; [|done].
  destruct (check_cases env dep run s d Hd) as [[_ E]|(_ & d2 & Hd2 & Hdes & _ & _ & _ & _ & Hi & Hnx)].
  - rewrite E in *. by assert (d' = d) as -> by congruence.
  - assert (d2 = d') as -> by congruence. split; [done|done|congruence|by rewrite Hi|intros cmd; rewrite Hi, Hnx; apply Hn|].
    intros rank Hin HD. destruct (Ha rank Hin HD) as [Hx|(cmd & c & Hc & ?)]; [left; unfold phase in *; by rewrite Hph|right].
    exists cmd, c. by rewrite Hi.
Qed.

(** ** [Stop] *)

Lemma elem_of_AllRanks ps r : ps_entries ps ≠ [] → r ∈ AllRanks ps → is_Some (EntryFor ps r).
Proof.
  unfold AllRanks, EntryFor, sort_ranks. intros Hne. rewrite merge_sort_Permutation.
  destruct (ps_entries ps) as [|e es]; [done|]. intros (x & -> & Hx)%list_elem_of_fmap.
  destruct (List.find _ _) eqn:E; [by eexists|]. apply list_elem_of_In, (find_none _ _ E) in Hx.
  by rewrite Z.eqb_refl in Hx.
Qed.

Lemma Stop_winds env dep s d s1 :
  inv s → sv_deployments s !! dep = Some d → ps_entries (d_placement d) ≠ [] →
  (∀ cmd c, sv_inflight s !! cmd = Some c → c_dep c = dep → c_rank c ∈ AllRanks (d_placement d)) →
  Stop env dep s = (Ok tt, s1) →
  ∃ d1, winding dep (AllRanks (d_placement d)) (λ _, True) s1 d1 ∧ settled dep d1 s1.
Proof.
  intros Hs Hd He Hm. unfold Stop. rewrite Hd. set (R := AllRanks (d_placement d)) in *. set (run := run_string d).
  destruct (bool_decide (d_desired d = DStopped) && bool_decide (d_observed d = OStopped)) eqn:Eb.
  { intros [= <-]. apply andb_true_iff in Eb as [Ed%bool_decide_eq_true Eo%bool_decide_eq_true].
    destruct (inv_rows _ Hs dep d Hd Eo) as (_ & Hph & Hf). exists d. split; [|by intros _].
    split; [done..|apply Hs|]. intros rank Hin _. left. by apply Hph. }
  set (s0 := SetDeploymentStopping (d_diagnostics d) dep s).
  assert (Hw0 : winding dep R (λ _, False) s0 (stopping_row (d_diagnostics d) d)).
  { split; [|done|done|done|apply Hs|done]. unfold s0, SetDeploymentStopping. by rewrite lookup_alter_dep, decide_True, Hd. }
  assert (Hfin : ∀ s', winding dep R (λ _, False) s' (stopping_row (d_diagnostics d) d) →
    ∃ d1, let s2 := announce "deployment.stopping" dep [] (checkStopComplete env dep run
                      (dispatch_all env dep run (d_placement d) R s')) in
          winding dep R (λ _, True) s2 d1 ∧ settled dep d1 s2).
  { intros s' Hw'. destruct (winding_dispatch_all env dep R run (d_placement d) R (λ _, False) s' _ Hw') as [d1 Hw1].
    { intros r Hr. split; [done|]. by apply elem_of_AllRanks. }
    destruct (winding_check env dep R _ run _ d1 Hw1) as (d2 & Hw2 & Hset). exists d2. split; [|done].
    destruct Hw2 as [? ? ? ? ? Ha]. split; [done..|]. intros rank Hin _. apply Ha; [done|]. by right. }
  assert (Hcancel : ∀ g, winding dep R (λ _, False) (set_ledger (λ _, g) s0) (stopping_row (d_diagnostics d) d)).
  { intros g. destruct Hw0. by split. }
  case_match.
  - destruct (lg_runs _ !! run) as [r|]; [|done]. destruct (Terminal (r_state r)).
    + intros [= <-]. by apply Hfin.
    + destruct (Cancel _ _ _) as [[?|e] g]; [|done]. intros [= <-]. by apply Hfin.
  - intros [= <-]. by apply Hfin.
Qed.

(** ** The weight of what is in flight *)

Definition weight (c : inflightCmd) : nat :=
  match c_op c with CStop | CStopPrepare => 1 | CVerify => 3 | _ => 2 end.

Definition dep_weight (dep : string) (c : inflightCmd) : nat := if decide (c_dep c = dep) then weight c else 0%nat.

Definition load (dep : string) (m : gmap N inflightCmd) : nat := map_fold (λ _ c n, (dep_weight dep c + n)%nat) 0%nat m.

Lemma load_insert dep m cmd c : m !! cmd = None → load dep (<[cmd := c]> m) = (dep_weight dep c + load dep m)%nat.
Proof. intros H. unfold load. rewrite map_fold_insert_L; [done| |done]. intros. lia. Qed.

Lemma load_delete dep m cmd c : m !! cmd = Some c → load dep m = (dep_weight dep c + load dep (delete cmd m))%nat.
Proof. intros H. rewrite <-(insert_delete_id m cmd c H) at 1. apply load_insert. apply lookup_delete_eq. Qed.

Lemma load_filter dep (Q : N * inflightCmd → Prop) `{∀ x, Decision (Q x)} m : (load dep (filter Q m) ≤ load dep m)%nat.
Proof.
  induction m as [|cmd c m Hc IH] using map_ind; [by rewrite map_filter_empty|].
  rewrite load_insert by done. destruct (decide (Q (cmd, c))) as [HQ|HQ].
  - rewrite map_filter_insert_True, load_insert by (try done; by apply map_lookup_filter_None_2; left). lia.
  - rewrite map_filter_insert_False, delete_id by done. lia.
Qed.

Lemma inflight_check env dep run s : sv_inflight (checkStopComplete env dep run s) = sv_inflight s.
Proof.
  destruct (sv_deployments s !! dep) as [d|] eqn:Hd; [|unfold checkStopComplete; by rewrite Hd].
  by destruct (check_cases env dep run s d Hd) as [[_ ->]|(_ & d' & ? & ? & ? & ? & ? & ? & ? & ?)].
Qed.

Lemma load_stop env dep node run r s : fresh s →
  load dep (sv_inflight (snd (command env node CStop MStop dep run r s))) = S (load dep (sv_inflight s)).
Proof.
  intros Hf. rewrite inflight_command, load_insert by (by apply next_free). unfold dep_weight. simpl.
  by rewrite decide_True.
Qed.

Lemma load_dispatch_stopped env dep r run pl p s :
  fresh s → p ≠ PhasePreparing → p ≠ PhaseVerifying →
  (load dep (sv_inflight (dispatch_stopped env dep r run pl p s)) ≤ S (load dep (sv_inflight s)))%nat.
Proof.
  intros Hf Hp Hv. unfold dispatch_stopped.
  assert (Hconfirm : (load dep (sv_inflight (checkStopComplete env dep run (setPhase dep r PhaseStopped
    (cancelArtifactFetches env dep r (pl_node pl) s)))) ≤ S (load dep (sv_inflight s)))%nat).
  { rewrite inflight_check. simpl. unfold cancelArtifactFetches. rewrite inflight_cancel_targets. simpl.
    etrans; [apply load_filter|lia]. }
  assert (Hstop : ∀ s', sv_inflight s' = sv_inflight s → fresh s' → (load dep (sv_inflight (snd (command env (pl_node pl) CStop MStop
    dep run r s'))) ≤ S (load dep (sv_inflight s)))%nat).
  { intros s' E Hf'. by rewrite load_stop, E. }
  destruct p; try done; auto.
  case_match; [lia|auto].
Qed.

(** ** Acknowledgements *)

(** A positive result of a command of [dep] that is in flight *)
Inductive ack (dep : string) : Service → Service → Prop :=
| ack_intro env cr c s : sv_inflight s !! cr_id cr = Some c → c_dep c = dep → cr_ok cr = true →
    ack dep s (OnCommandResult env cr s).

(** The deployment is winding down, or has stopped *)
Definition landing (dep : string) (R : list Z) (s : Service) : Prop :=
  ∃ d, winding dep R (λ _, True) s d ∧ settled dep d s.

Section ack.
Context (env : Env) (dep : string) (R : list Z) (r : Z).

Lemma row_phase_set to s d : sv_deployments s !! dep = Some d →
  sv_deployments (setPhase dep r to s) !! dep = Some (with_dispatch <[r := to]> d).
Proof. intros Hd. unfold setPhase. by rewrite lookup_alter_dep, decide_True, Hd. Qed.

Lemma winding_phase to s d : winding dep R (λ x, x ≠ r) s d → r ∈ R →
  winding dep R (λ x, x ≠ r) (setPhase dep r to s) (with_dispatch <[r := to]> d).
Proof.
  intros Hw Hr. eapply winding_glide; [done..|apply glide_phase| |done|done]. apply row_phase_set, Hw.
Qed.

(** The rank is confirmed *)
Lemma landing_confirm run s d : winding dep R (λ x, x ≠ r) s d → r ∈ R →
  landing dep R (checkStopComplete env dep run (setPhase dep r PhaseStopped s)).
Proof.
  intros Hw Hr. apply (winding_check env dep R (λ _, True) run _ (with_dispatch <[r := PhaseStopped]> d)).
  eapply winding_glide; [done..|apply glide_phase|apply row_phase_set, Hw|done|]. intros _. left.
  by rewrite phase_with_dispatch, decide_True.
Qed.

(** The rank is sent a stop *)
Lemma landing_stop node run s d : winding dep R (λ x, x ≠ r) s d → r ∈ R → phase d r ≠ PhaseStopped →
  landing dep R (snd (command env node CStop MStop dep run r s)).
Proof.
  intros Hw Hr Hp. pose proof Hw as [Hd Hs HR _ _ _]. exists d.
  assert (Hd' : sv_deployments (snd (command env node CStop MStop dep run r s)) !! dep = Some d).
  { by rewrite (calm_rows _ _ _ (calm_command (λ _, True) env node CStop MStop dep run r s (λ _, I))). }
  split.
  - eapply winding_glide; [done..|apply glide_command|done|done|]. intros _. right. apply awaited_command. set_solver.
  - intros Hall. exfalso. apply Hp, Hall. by rewrite HR.
Qed.

(** The dispatch after a result that leaves the rank started, stopping or prepared *)
Lemma landing_next run pl to s d : winding dep R (λ x, x ≠ r) s d → r ∈ R →
  to ∈ [PhasePrepared; PhaseStarted; PhaseStopping] →
  landing dep R (dispatchNext env dep r run pl (setPhase dep r to s)).
Proof.
  intros Hw Hr Hto. pose proof (winding_phase to s d Hw Hr) as Hw1.
  rewrite (dispatchNext_stopped _ _ _ _ _ _ _ (wi_row _ _ _ _ _ Hw1) (wi_desired _ _ _ _ _ Hw1)).
  rewrite phase_with_dispatch, decide_True by done. unfold dispatch_stopped.
  destruct to; try (exfalso; set_solver).
  - eapply landing_confirm; [|done]. eapply winding_glide; [exact Hw1|done|apply glide_cancel_fetches| |done|done].
    destruct (calm_cancel_fetches (λ _, True) env (λ _ _, I) dep r (pl_node pl) (setPhase dep r PhasePrepared s)) as [-> _ _ _].
    apply Hw1.
  - eapply landing_stop; [by apply winding_phase|done|]. by rewrite phase_with_dispatch, decide_True.
  - eapply landing_stop; [done..|]. by rewrite phase_with_dispatch, decide_True.
Qed.

Lemma load_next run pl to s d : winding dep R (λ x, x ≠ r) s d → r ∈ R →
  to ∈ [PhasePrepared; PhaseStarted; PhaseStopping] →
  (load dep (sv_inflight (dispatchNext env dep r run pl (setPhase dep r to s))) ≤ S (load dep (sv_inflight s)))%nat.
Proof.
  intros Hw Hr Hto. pose proof (winding_phase to s d Hw Hr) as Hw1.
  rewrite (dispatchNext_stopped _ _ _ _ _ _ _ (wi_row _ _ _ _ _ Hw1) (wi_desired _ _ _ _ _ Hw1)).
  rewrite phase_with_dispatch, decide_True by done.
  exact (load_dispatch_stopped env dep r run pl to (setPhase dep r to s) (wi_fresh _ _ _ _ _ Hw1)
    ltac:(set_solver) ltac:(set_solver)).
Qed.
End ack.

(** The head is woken while the deployment stops *)
Lemma wake_stopped env dep R run s : landing dep R s →
  landing dep R (wakeWorkerFirstHead env dep run s) ∧
  (load dep (sv_inflight (wakeWorkerFirstHead env dep run s)) ≤ S (load dep (sv_inflight s)))%nat.
Proof.
  intros Hland. pose proof Hland as (d & Hw & Hset). pose proof Hw as [Hd Hs HR Hm Hn Ha].
  unfold wakeWorkerFirstHead. rewrite Hd.
  destruct (bool_decide (phase d 0 = PhaseHostPrepared)) eqn:Ep; simpl; [|split; [done|lia]].
  apply bool_decide_eq_true in Ep. destruct (EntryFor (d_placement d) 0) as [pl|] eqn:Epl; [|split; [done|lia]].
  rewrite (dispatchNext_stopped _ _ _ _ _ _ d) by done. rewrite Ep. simpl. split.
  - apply (landing_stop env dep R 0 (pl_node pl) run s d); [by eapply winding_weaken, Hw| |by rewrite Ep].
    rewrite <-HR. unfold EntryFor in Epl. apply find_some in Epl as [Hin%list_elem_of_In H0%Z.eqb_eq].
    unfold AllRanks, sort_ranks. rewrite merge_sort_Permutation. destruct (ps_entries (d_placement d)) as [|e es]; [by apply not_elem_of_nil in Hin|].
    rewrite <-H0. by apply list_elem_of_fmap_2.
  - by rewrite load_stop.
Qed.

(** A report on a rank that is not stopped *)
Section report.
Context (env : Env) (dep : string) (R : list Z) (r : Z).

Lemma winding_stopping ds s d : winding dep R (λ x, x ≠ r) s d →
  winding dep R (λ x, x ≠ r) (SetDeploymentStopping ds dep s) (stopping_row ds d).
Proof.
  intros [Hd Hs HR Hm Hn Ha]. split; [|done..|].
  - unfold SetDeploymentStopping. by rewrite lookup_alter_dep, decide_True, Hd.
  - intros x Hx Hne. destruct (Ha x Hx Hne) as [?|?]; [by left|by right].
Qed.

Lemma winding_container container s d : winding dep R (λ x, x ≠ r) s d →
  sv_inflight (setPlacementContainer dep r container s) = sv_inflight s ∧
  ∃ d', winding dep R (λ x, x ≠ r) (setPlacementContainer dep r container s) d'.
Proof.
  intros Hw. pose proof Hw as [Hd Hs HR Hm Hn Ha].
  unfold setPlacementContainer. case_match; [by eauto|]. rewrite Hd. case_match; [|by eauto]. case_match; [by eauto|].
  split; [done|]. exists (with_placement (with_container r container (d_placement d)) d).
  split; [by rewrite lookup_alter_dep, decide_True, Hd|done|simpl; by rewrite AllRanks_container|done..|].
  intros x Hx Hne. destruct (Ha x Hx Hne) as [?|?]; [by left|by right].
Qed.

Lemma winding_rank_state state s d : winding dep R (λ x, x ≠ r) s d →
  winding dep R (λ x, x ≠ r) (setRankState dep r state s) d.
Proof. by apply (winding_calm (λ _, True)); [apply calm_rank_state|]. Qed.

Lemma report_lands node su s d :
  winding dep R (λ x, x ≠ r) s d → r ∈ R → phase d r ≠ PhaseStopped → su_dep su = dep → su_rank su = r →
  OnStateUpdate env node su s = s ∨
  (landing dep R (OnStateUpdate env node su s) ∧
   (load dep (sv_inflight (OnStateUpdate env node su s)) ≤ S (load dep (sv_inflight s)))%nat).
Proof.
  intros Hw Hr Hp Edep Er. pose proof Hw as [Hd Hs HR Hm Hn Ha]. unfold OnStateUpdate. rewrite Edep, Er, Hd, Hs.
  case_match; [by left|]. case_match; [by left|]. right.
  destruct (winding_container (su_container su) s d Hw) as (Ei & d1 & Hw1). rewrite <-Ei.
  generalize dependent (setPlacementContainer dep r (su_container su) s). intros s1 Ei Hw1.
  unfold report_stopped. rewrite Edep, Er. case_match.
  - split; [eapply landing_confirm; [by apply winding_rank_state|done]|]. rewrite inflight_check. simpl. lia.
  - rewrite bool_decide_eq_false_2 by done. simpl.
    assert (Hw2 : winding dep R (λ x, x ≠ r) (SetDeploymentStopping (d_diagnostics d) dep
      (setPhase dep r PhaseStopping (setRankState dep r "stopping" s1)))
      (stopping_row (d_diagnostics d) (with_dispatch <[r := PhaseStopping]> d1))).
    { apply winding_stopping. apply winding_phase; [by apply winding_rank_state|done]. }
    assert (Hp2 : phase (stopping_row (d_diagnostics d) (with_dispatch <[r := PhaseStopping]> d1)) r = PhaseStopping).
    { unfold phase. simpl. by rewrite lookup_insert, decide_True. }
    rewrite (dispatchNext_stopped _ _ _ _ _ _ _ (wi_row _ _ _ _ _ Hw2) (wi_desired _ _ _ _ _ Hw2)), Hp2. simpl.
    split; [eapply landing_stop; [done..|by rewrite Hp2]|].
    by rewrite load_stop by apply (wi_fresh _ _ _ _ _ Hw2).
Qed.
End report.

(** The command is taken out of flight *)
Lemma take_winding dep R s d cmd c :
  winding dep R (λ _, True) s d → sv_inflight s !! cmd = Some c → c_dep c = dep →
  winding dep R (λ x, x ≠ c_rank c) (set_inflight (delete cmd) s) d ∧
  (phase d (c_rank c) = PhaseStopped ∨ c_op c ∉ stop_ops → winding dep R (λ _, True) (set_inflight (delete cmd) s) d) ∧
  load dep (sv_inflight s) = (weight c + load dep (sv_inflight (set_inflight (delete cmd) s)))%nat.
Proof.
  intros [Hd Hs HR Hm Hn Ha] Hc Hdep.
  assert (Hf : fresh (set_inflight (delete cmd) s)) by (by apply (calm_fresh (λ _, True) s), Hn; apply calm_take).
  assert (Hm' : ∀ cmd0 c0, delete cmd (sv_inflight s) !! cmd0 = Some c0 → c_dep c0 = dep → c_rank c0 ∈ R).
  { intros cmd0 c0 [_ H0]%lookup_delete_Some. by eapply Hm. }
  assert (Hother : ∀ x, (x = c_rank c → c_op c ∉ stop_ops) → awaited dep x s → awaited dep x (set_inflight (delete cmd) s)).
  { intros x Hx (cmd0 & c0 & H0 & Hmt). exists cmd0, c0. split; [|done]. simpl. apply lookup_delete_Some. split; [|done].
    intros <-. assert (c0 = c) as -> by congruence. destruct Hmt as (_ & E & Hop). by apply (Hx (eq_sym E)). }
  split_and!.
  - split; [done..|]. intros x Hx Hne. destruct (Ha x Hx I) as [?|?]; [by left|right]. by apply Hother.
  - intros Hor. split; [done..|]. intros x Hx _. destruct (Ha x Hx I) as [?|Haw]; [by left|].
    destruct (decide (x = c_rank c)) as [->|]; [|right; by apply Hother].
    destruct Hor as [?|?]; [by left|right; by apply Hother].
  - rewrite (load_delete dep _ cmd c Hc). unfold dep_weight. by rewrite decide_True.
Qed.

Section result.
Context (env : Env) (dep : string) (R : list Z) (c : inflightCmd) (cr : CommandResult) (d : DepRow) (s : Service).
Hypothesis Hdep : c_dep c = dep.
Hypothesis Hwind : winding dep R (λ x, x ≠ c_rank c) s d.
Hypothesis Hwhole : c_op c ∉ stop_ops → winding dep R (λ _, True) s d.
Hypothesis Hrank : c_rank c ∈ R.
Hypothesis Hlive : phase d (c_rank c) ≠ PhaseStopped.
Hypothesis Hok : cr_ok cr = true.

Lemma landing_same : c_op c ∉ stop_ops → landing dep R s.
Proof.
  intros Hop. exists d. split; [by apply Hwhole|]. intros Hall. exfalso. apply Hlive, Hall.
  by rewrite (wi_ranks _ _ _ _ _ Hwind).
Qed.

Lemma started_lands run pl :
  landing dep R (wakeWorkerFirstHead env dep run (dispatchNext env dep (c_rank c) run pl
    (if bool_decide (run = "") then setPhase dep (c_rank c) PhaseStarted s
     else SetRunState (e_now env) run Running "" "" (setPhase dep (c_rank c) PhaseStarted s)))) ∧
  (load dep (sv_inflight (wakeWorkerFirstHead env dep run (dispatchNext env dep (c_rank c) run pl
    (if bool_decide (run = "") then setPhase dep (c_rank c) PhaseStarted s
     else SetRunState (e_now env) run Running "" "" (setPhase dep (c_rank c) PhaseStarted s))))) <
   3 + load dep (sv_inflight s))%nat.
Proof.
  assert (∃ s', winding dep R (λ x, x ≠ c_rank c) s' d ∧ sv_inflight s' = sv_inflight s ∧
    (if bool_decide (run = "") then setPhase dep (c_rank c) PhaseStarted s
     else SetRunState (e_now env) run Running "" "" (setPhase dep (c_rank c) PhaseStarted s)) =
    setPhase dep (c_rank c) PhaseStarted s') as (s' & Hw' & Ei & ->).
  { case_match; [by exists s|]. exists (SetRunState (e_now env) run Running "" "" s). split_and!; [|done..].
    by apply (winding_calm (λ _, True) _ _ _ s); [apply calm_run_state|..]. }
  assert (Hto : PhaseStarted ∈ [PhasePrepared; PhaseStarted; PhaseStopping]) by set_solver.
  pose proof (landing_next env dep R (c_rank c) run pl PhaseStarted s' d Hw' Hrank Hto) as Hl.
  pose proof (load_next env dep R (c_rank c) run pl PhaseStarted s' d Hw' Hrank Hto) as Hld.
  destruct (wake_stopped env dep R run _ Hl) as [? ?]. split; [done|]. rewrite Ei in Hld. lia.
Qed.

Lemma result_lands :
  landing dep R (on_result env c cr d s) ∧
  (load dep (sv_inflight (on_result env c cr d s)) < weight c + load dep (sv_inflight s))%nat.
Proof.
  unfold on_result, weight. rewrite Hdep, Hok, (bool_decide_eq_true_2 _ (wi_desired _ _ _ _ _ Hwind)).
  set (run := runIDFor dep s). set (pl := placementFor dep (c_rank c) s).
  assert (Hconfirm : ∀ n, (0 < n)%nat →
    landing dep R (checkStopComplete env dep run (setPhase dep (c_rank c) PhaseStopped s)) ∧
    (load dep (sv_inflight (checkStopComplete env dep run (setPhase dep (c_rank c) PhaseStopped s))) < n + load dep (sv_inflight s))%nat).
  { intros n Hn. split; [by eapply landing_confirm|]. rewrite inflight_check. simpl. lia. }
  assert (Hnext : ∀ to, to ∈ [PhasePrepared; PhaseStarted; PhaseStopping] →
    landing dep R (dispatchNext env dep (c_rank c) run pl (setPhase dep (c_rank c) to s)) ∧
    (load dep (sv_inflight (dispatchNext env dep (c_rank c) run pl (setPhase dep (c_rank c) to s))) < 2 + load dep (sv_inflight s))%nat).
  { intros to Hto. split; [by eapply landing_next|].
    pose proof (load_next env dep R (c_rank c) run pl to s d Hwind Hrank Hto). lia. }
  assert (Hsame : c_op c ∉ stop_ops → landing dep R s ∧ (load dep (sv_inflight s) < 2 + load dep (sv_inflight s))%nat).
  { intros Hop. split; [by apply landing_same|lia]. }
  pose proof (started_lands run pl) as Hstarted.
  destruct (c_op c) eqn:Eop; cbv beta iota; try (by apply Hconfirm; lia); try (by apply Hnext; set_solver);
    try (by apply Hsame; set_solver).
  - apply Hstarted.
  - destruct (report_lands env dep R (c_rank c) (pl_node pl)
      (mkStateUpdate dep run (cr_container cr) (cr_state cr) (c_rank c) (cr_error cr) (cr_exit cr) (cr_oom cr) 0)
      s d Hwind Hrank Hlive eq_refl eq_refl) as [->|[? ?]]; [apply Hsame; set_solver|split; [done|lia]].
Qed.
End result.

Lemma ack_lands dep R s s' : landing dep R s → ack dep s s' →
  landing dep R s' ∧ (load dep (sv_inflight s') < load dep (sv_inflight s))%nat.
Proof.
  intros Hl Ha. destruct Ha as [env cr c s0 Hc Hdep Hok]. destruct Hl as (d & Hw & Hset).
  destruct (take_winding dep R s0 d (cr_id cr) c Hw Hc Hdep) as (Hw0 & Hall & Hload).
  assert (Hpos : (0 < weight c)%nat) by (unfold weight; case_match; lia).
  unfold OnCommandResult, inflightTake. rewrite Hc.
  assert (Hrow : sv_deployments (set_inflight (delete (cr_id cr)) s0) !! c_dep c = Some d) by (rewrite Hdep; apply Hw).
  destruct (bool_decide (c_op c = CUpdateFetch)) eqn:Eop.
  { apply bool_decide_eq_true in Eop. split; [|lia]. exists d. split; [|done]. apply Hall. right. rewrite Eop. set_solver. }
  rewrite Hrow. destruct (bool_decide (phase d (c_rank c) = PhaseStopped) && bool_decide (d_desired d = DStopped)) eqn:Eb.
  { apply andb_true_iff in Eb as [Ep%bool_decide_eq_true _]. split; [|lia]. exists d. split; [|done]. apply Hall. by left. }
  rewrite (bool_decide_eq_true_2 _ (wi_desired _ _ _ _ _ Hw)), andb_true_r in Eb. apply bool_decide_eq_false in Eb.
  rewrite Hload. apply result_lands; [done|done|by intros; apply Hall; right| |done|done].
  by eapply (wi_members _ _ _ _ _ Hw).
Qed.

(** C9: Once [Stop] has returned, the deployment lands however its agents' positive results are ordered:
    at most as many results can come as the commands in flight weigh, and when none of its commands is
    in flight any more the deployment is reported stopped, every rank is confirmed stopped and it holds
    no lease.  So while it has not stopped, a command of its is in flight. *)
Theorem stop_lands env s dep d s1 n s2 :
  rtc step New s → sv_deployments s !! dep = Some d → ps_entries (d_placement d) ≠ [] →
  (∀ cmd c, sv_inflight s !! cmd = Some c → c_dep c = dep → c_rank c ∈ AllRanks (d_placement d)) →
  Stop env dep s = (Ok tt, s1) → nsteps (ack dep) n s1 s2 →
  (n + load dep (sv_inflight s2) ≤ load dep (sv_inflight s1))%nat ∧
  ((∀ cmd c, sv_inflight s2 !! cmd = Some c → c_dep c ≠ dep) →
   ∃ d2, sv_deployments s2 !! dep = Some d2 ∧ d_observed d2 = OStopped ∧
     (∀ rank, rank ∈ AllRanks (d_placement d) → phase d2 rank = PhaseStopped) ∧
     ∀ l, l ∈ leases s2 → l_active l = true → owned_by "deployment" dep l = false).
Proof.
  intros Hs Hd He Hm Hstop Hacks.
  destruct (Stop_winds env dep s d s1 (reachable_inv s Hs) Hd He Hm Hstop) as (d1 & Hw1 & Hset1).
  set (R := AllRanks (d_placement d)) in *.
  assert (landing dep R s2 ∧ (n + load dep (sv_inflight s2) ≤ load dep (sv_inflight s1))%nat) as [(d2 & Hw2 & Hset2) Hload].
  { assert (Hl : landing dep R s1) by (by exists d1). clear -Hl Hacks. induction Hacks as [s1|n s1 s' s2 Ha Hacks IH].
    - split; [done|lia].
    - destruct (ack_lands dep R s1 s' Hl Ha) as [Hl' ?]. destruct (IH Hl') as [? ?]. split; [done|lia]. }
  split; [done|]. intros Hnone. exists d2. destruct Hw2 as [Hd2 _ HR _ _ Ha].
  assert (Hph : ∀ rank, rank ∈ R → phase d2 rank = PhaseStopped).
  { intros rank Hin. destruct (Ha rank Hin I) as [?|(cmd & c & Hc & Hdep & _)]; [done|]. by destruct (Hnone cmd c Hc). }
  destruct Hset2 as [Ho Hf]; [by rewrite HR|]. by split_and!.
Qed.
