(* ===== verification/DeployObs.v ===== *)
(** * What is reported of a deployment: [aggregateRankState], and traces of the service

    The aggregate of the rank states is characterised, and runs of the service on concrete deployments
    show the theorems of [DeployInv] and [DeployStop] at work, and four behaviours the code does not
    mean to have. *)

From S2P Require Import Prelude GoStrings Utf8 CJson Events Leases Runs RunLogs Diag Recipe DeployState Deploy DeployInv DeployStop.
Open Scope Z_scope.

(** ** The aggregate *)

Lemma count_pos states xs : (0 < count_states states xs)%nat ↔ ∃ x, x ∈ xs ∧ x ∈ states.
Proof.
  unfold count_states. destruct (filter (λ x, x ∈ states) xs) as [|y ys] eqn:E.
  - split; [simpl; lia|]. intros (x & Hx & Hs). exfalso. apply (not_elem_of_nil x). rewrite <-E.
    by apply list_elem_of_filter.
  - split; [|simpl; lia]. intros _. exists y. assert (Hy : y ∈ y :: ys) by (by left). rewrite <-E in Hy.
    by apply list_elem_of_filter in Hy as [? ?].
Qed.

Lemma count_all states xs : count_states states xs = length xs ↔ ∀ x, x ∈ xs → x ∈ states.
Proof.
  unfold count_states. induction xs as [|x xs IH]; [split; [by intros _ x ?%not_elem_of_nil|done]|].
  rewrite filter_cons. pose proof (length_filter (λ x, x ∈ states) xs) as Hle. case_decide as Hx.
  - simpl. rewrite Nat.succ_inj_wd, IH. setoid_rewrite elem_of_cons. naive_solver.
  - split; [simpl; lia|]. intros H. destruct Hx. apply H. by left.
Qed.

Lemma count_split xs : (count_states ["running"] xs + count_states ["ready"] xs)%nat = count_states ["running"; "ready"] xs.
Proof.
  unfold count_states. induction xs as [|x xs IH]; [done|]. rewrite !filter_cons.
  rewrite (decide_ext (x ∈ ["running"; "ready"]) (x = "running" ∨ x = "ready")) by set_solver.
  rewrite (decide_ext (x ∈ ["running"]) (x = "running")) by set_solver.
  rewrite (decide_ext (x ∈ ["ready"]) (x = "ready")) by set_solver.
  repeat case_decide; simpl; subst; try lia; naive_solver.
Qed.

(** The reported state, by what the ranks were last seen as *)
Section aggregate.
Context (dep : string) (ps : placementSet) (s : Service).

Definition seen (states : list string) (e : Placement) : Prop := rank_state dep (pl_rank e) s ∈ states.
Definition some_seen (states : list string) : Prop := ∃ e, e ∈ ps_entries ps ∧ seen states e.
Definition all_up : Prop := ps_entries ps ≠ [] ∧ (∀ e, e ∈ ps_entries ps → seen ["running"; "ready"] e) ∧ some_seen ["ready"].
Definition impaired : Prop := some_seen failed_states ∨ (some_seen ["running"; "ready"] ∧ some_seen ["offline"]).
Definition coming_up : Prop := some_seen ["running"; "ready"] ∨ some_seen preparing_states.

Lemma count_seen states :
  (0 <? count_states states ((λ e, rank_state dep (pl_rank e) s) <$> ps_entries ps))%nat = true ↔ some_seen states.
Proof.
  rewrite Nat.ltb_lt, count_pos. unfold some_seen, seen. setoid_rewrite list_elem_of_fmap. naive_solver.
Qed.
End aggregate.

(** The aggregate reports a deployment healthy exactly when every rank was last seen running or
    ready and one of them ready; otherwise degraded exactly when a rank failed, or one is offline while
    another is up; otherwise starting exactly when a rank is up or coming up. *)
Theorem aggregate_spec dep ps s :
  (aggregateRankState dep ps s = OHealthy ↔ all_up dep ps s) ∧
  (aggregateRankState dep ps s = ODegraded ↔ ¬ all_up dep ps s ∧ impaired dep ps s) ∧
  (aggregateRankState dep ps s = OStarting ↔ ¬ all_up dep ps s ∧ ¬ impaired dep ps s ∧ coming_up dep ps s).
Proof.
  unfold aggregateRankState, all_up, impaired, coming_up.
  destruct (ps_entries ps) as [|e0 es] eqn:Ee.
  { assert (∀ states, ¬ some_seen dep ps s states) as H0.
    { intros states (e & He & _). rewrite Ee in He. by apply not_elem_of_nil in He. }
    split_and!; (split; [done|]); pose proof (H0 failed_states); pose proof (H0 ["running"; "ready"]);
      pose proof (H0 preparing_states); tauto. }
  rewrite <-Ee. rewrite count_split. set (st := (λ e, rank_state dep (pl_rank e) s) <$> ps_entries ps).
  assert (Hall : (count_states ["running"; "ready"] st =? length (ps_entries ps))%nat = true ↔
    ∀ e, e ∈ ps_entries ps → seen dep s ["running"; "ready"] e).
  { rewrite Nat.eqb_eq. replace (length (ps_entries ps)) with (length st) by apply length_fmap.
    rewrite count_all. unfold st, seen. setoid_rewrite list_elem_of_fmap. naive_solver. }
  pose proof (count_seen dep ps s ["ready"]) as H1. pose proof (count_seen dep ps s failed_states) as H2.
  pose proof (count_seen dep ps s ["running"; "ready"]) as H3. pose proof (count_seen dep ps s ["offline"]) as H4.
  pose proof (count_seen dep ps s preparing_states) as H5. fold st in H1, H2, H3, H4, H5.
  assert (Hne : ps_entries ps ≠ []) by (by rewrite Ee).
  rewrite <-H1, <-Hall, <-H2, <-H3, <-H4, <-H5.
  destruct (0 <? count_states ["ready"] st)%nat, (count_states ["running"; "ready"] st =? length (ps_entries ps))%nat,
    (0 <? count_states failed_states st)%nat, (0 <? count_states ["running"; "ready"] st)%nat,
    (0 <? count_states ["offline"] st)%nat, (0 <? count_states preparing_states st)%nat; simpl; intuition congruence.
Qed.

(** ** Traces *)

Definition env0 : Env :=
  mkEnv "2025-01-01T00:00:00Z" (λ _, true) (λ _, true) (λ _ _, Ok false) (λ _ _, Ok tt) (λ _, None) (λ _, (true, "")).

Definition workload0 (upstream : option UpstreamExecution) : Workload :=
  mkWorkload None (mkImage "registry.local/engine" "sha256:00") [] [] [mkPort 8000 8000 ""] 0 None None "" [0; 1] "" None None None [] upstream.

Definition manifest0 (upstream : option UpstreamExecution) : Manifest :=
  mkManifest "" None 2 None None [] [] [workload0 upstream] [] None None.

Definition coordinated : UpstreamExecution := mkUpstream [] [] ["./start"] ["./stop"] ["api"] (Some 0) [] [] [].

Definition place (node : string) (rank : Z) : Placement := mkPlacement node node rank 0 ("GPU-" +:+ node) [] "".

Definition plan0 (pls : list Placement) : LaunchPlan :=
  mkLaunchPlan "sha256:r" "engine" "{}" pls 0 [] None [("n0", 8000)] "10.0.0.1" 8000 [].

Definition one : list Placement := [place "n0" 0].
Definition two : list Placement := [place "n0" 0; place "n1" 1].

Definition ok (cmd : N) : CommandResult := mkCommandResult cmd true "" "" "running" 0 false.
Definition rejected (cmd : N) : CommandResult := mkCommandResult cmd false "no space left on device" "" "" 0 false.

Fixpoint gate_steps (n : nat) (key : string * Z) (s : Service) : Service :=
  match n with O => s | S n => gate_steps n key (gate_step env0 key None s) end.

Definition created (upstream : option UpstreamExecution) (pls : list Placement) : Service :=
  snd (createPlanned env0 "d1" "run-1" (plan0 pls) (install "sha256:r" (manifest0 upstream) New)).

(** A gate runs until its rank has been sent the next command *)
Definition drive (rank : Z) (s : Service) : Service := gate_steps 16 ("d1", rank) s.
Definition answer (cmd : N) (s : Service) : Service := OnCommandResult env0 (ok cmd) s.

(** Rank [rank] is created and started by the commands [create] and [start], and inspected *)
Definition bring_up (rank : Z) (create start : N) (s : Service) : Service :=
  drive rank (answer start (drive rank (answer create (drive rank s)))).

Definition running1 : Service := bring_up 0 0 1 (created None one).

Lemma gate_steps_reachable n key s : rtc step New s → rtc step New (gate_steps n key s).
Proof. revert s. induction n as [|n IH]; simpl; [done|]. intros s Hs. apply IH. eapply rtc_r; [done|constructor]. Qed.

Lemma created_reachable u pls : rtc step New (created u pls).
Proof. eapply rtc_l; [apply (step_install "sha256:r" (manifest0 u))|]. apply rtc_once, step_create. Qed.

Lemma answer_reachable cmd s : rtc step New s → rtc step New (answer cmd s).
Proof. intros Hs. eapply rtc_r; [done|constructor]. Qed.

Lemma bring_up_reachable rank create start s : rtc step New s → rtc step New (bring_up rank create start s).
Proof. intros Hs. unfold bring_up, drive. by repeat first [apply gate_steps_reachable|apply answer_reachable]. Qed.

Definition start2 (pls : list Placement) (s : Service) : Service := snd (Start env0 "d1" "run-2" (Ok (plan0 pls)) s).
Definition stop1 (s : Service) : Service := snd (Stop env0 "d1" s).

Lemma start2_reachable pls s : rtc step New s → rtc step New (start2 pls s).
Proof. intros Hs. eapply rtc_r; [done|constructor]. Qed.

Lemma stop1_reachable s : rtc step New s → rtc step New (stop1 s).
Proof. intros Hs. eapply rtc_r; [done|constructor]. Qed.

Ltac reachable :=
  repeat lazymatch goal with
         | |- rtc step New (start2 _ _) => apply start2_reachable
         | |- rtc step New (stop1 _) => apply stop1_reachable
         | |- rtc step New (answer _ _) => apply answer_reachable
         | |- rtc step New (bring_up _ _ _ _) => apply bring_up_reachable
         | |- rtc step New (drive _ _) => apply gate_steps_reachable
         | |- rtc step New (gate_steps _ _ _) => apply gate_steps_reachable
         | |- rtc step New (created _ _) => apply created_reachable
         end.

(** The row of the deployment in a trace *)
Definition row (s : Service) : DepRow := default (created_row "" (plan0 [])) (sv_deployments s !! "d1").

Definition held (s : Service) : list Lease := filter (λ l, l_active l = true) (leases s).

(** *** The theorems at work *)

Definition stopped1 : Service := answer 2 (answer 3 (stop1 running1)).

Lemma stopped_holds_nothing_witness :
  d_desired (row stopped1) = DStopped ∧ phase (row stopped1) 0 = PhaseStopped ∧
  (∀ l, l ∈ leases stopped1 → l_active l = true → owned_by "deployment" "d1" l = false).
Proof.
  destruct (stopped_holds_nothing stopped1 ltac:(unfold stopped1, running1; reachable)) as [H _].
  destruct (H "d1" (row stopped1)) as (Hd & Hp & Hl); [by vm_compute..|]. split_and!; [done| |done].
  apply Hp. vm_compute. by left.
Defined.

(** One step before the first command of the rank is sent *)
Definition deciding : Service := gate_steps 9 ("d1", 0) (created None one).

Lemma launch_authorised_witness :
  let m := mkMessage "n0" 0 MCreate "d1" "run-1" 0 in
  sv_sent (gate_step env0 ("d1", 0) None deciding) = sv_sent deciding ++ [m] ∧
  ∃ d, sv_deployments deciding !! "d1" = Some d ∧ d_desired d = DRunning ∧ run_string d = "run-1".
Proof.
  split; [by vm_compute|].
  destruct (launch_authorised deciding (gate_step env0 ("d1", 0) None deciding)
    ltac:(unfold deciding; reachable) (step_gate env0 ("d1", 0) None deciding)) as (new & E & H).
  assert (sv_sent (gate_step env0 ("d1", 0) None deciding) =
    sv_sent deciding ++ [mkMessage "n0" 0 MCreate "d1" "run-1" 0]) as E' by (by vm_compute).
  rewrite E' in E. apply app_inv_head in E as <-. by apply (H (mkMessage "n0" 0 MCreate "d1" "run-1" 0)); [left|].
Defined.

(** Both ranks are up to the start of the coordinator *)
Definition observing1 : StateUpdate := mkStateUpdate "d1" "run-1" "" "observing" 1 "" 0 false 0.

Definition seen_up (s : Service) : Service := OnStateUpdate env0 "n1" observing1 s.

Definition coordinating : Service :=
  gate_steps 7 ("d1", 0) (answer 3 (drive 0 (seen_up (bring_up 1 0 1 (created (Some coordinated) two))))).

Lemma seen_up_reachable s : rtc step New s → rtc step New (seen_up s).
Proof. intros Hs. eapply rtc_r; [done|constructor]. Qed.

Lemma coordinating_reachable : rtc step New coordinating.
Proof. unfold coordinating. reachable. apply seen_up_reachable. reachable. Qed.

Lemma starts_in_order_witness :
  let m := mkMessage "n0" 4 MStart "d1" "run-1" 0 in
  sv_sent (gate_step env0 ("d1", 0) None coordinating) = sv_sent coordinating ++ [m] ∧
  rank_state "d1" 1 coordinating ∈ ["observing"; "running"; "ready"].
Proof.
  split; [by vm_compute|].
  destruct (starts_in_order coordinating (gate_step env0 ("d1", 0) None coordinating)
    coordinating_reachable (step_gate env0 ("d1", 0) None coordinating)) as (new & E & H).
  assert (sv_sent (gate_step env0 ("d1", 0) None coordinating) =
    sv_sent coordinating ++ [mkMessage "n0" 4 MStart "d1" "run-1" 0]) as E' by (by vm_compute).
  rewrite E' in E. apply app_inv_head in E as <-.
  apply (H (mkMessage "n0" 4 MStart "d1" "run-1" 0) (row coordinating) (manifest0 (Some coordinated)) 0
           (workload0 (Some coordinated)) ltac:(by left) eq_refl ltac:(by vm_compute) ltac:(by vm_compute)
           ltac:(by vm_compute) ltac:(done) ltac:(by vm_compute) eq_refl (place "n1" 1)); [|done].
  vm_compute. right. by left.
Defined.

Lemma stop_lands_witness :
  d_observed (row stopped1) = OStopped ∧ load "d1" (sv_inflight (stop1 running1)) = 3%nat.
Proof.
  destruct (stop_lands env0 running1 "d1" (row running1) (stop1 running1) 2 stopped1) as [_ H].
  - unfold running1. reachable.
  - by vm_compute.
  - by vm_compute.
  - intros cmd c Hc _. assert (E : sv_inflight running1 = {[2%N := mkInflight "d1" 0 CInspect]}) by (by vm_compute).
    rewrite E in Hc. apply lookup_singleton_Some in Hc as [_ <-]. vm_compute. by left.
  - by vm_compute.
  - eapply nsteps_l; [apply (ack_intro _ env0 (ok 3) (mkInflight "d1" 0 CStop)); by vm_compute|].
    eapply nsteps_once. apply (ack_intro _ env0 (ok 2) (mkInflight "d1" 0 CInspect)); by vm_compute.
  - destruct H as (d2 & Hd2 & Ho & _).
    + intros cmd c Hc. assert (E : sv_inflight stopped1 = ∅) by (by vm_compute).
      rewrite E in Hc. apply lookup_empty_Some in Hc. destruct Hc.
    + split; [|by vm_compute]. assert (Hr : row stopped1 = d2); [|rewrite Hr; exact Ho].
      unfold row. rewrite Hd2. exact eq_refl.
Defined.

(** *** What the code does not mean to do *)

(** A deployment stopped and started again while the acquisition of its first run still waits: the new
    run's wake-up is left with the gate of the old one, which drops it.  The deployment is wanted
    running, nothing is in flight for it, no gate is left and no command is ever sent. *)
Definition restarted_early : Service := drive 0 (start2 one (stop1 (gate_steps 2 ("d1", 0) (created None one)))).

Theorem restart_wakeup_lost :
  rtc step New restarted_early ∧
  d_desired (row restarted_early) = DRunning ∧ d_run (row restarted_early) = Some "run-2" ∧
  phase (row restarted_early) 0 = PhaseNone ∧ sv_live restarted_early = ∅ ∧ sv_inflight restarted_early = ∅ ∧
  sv_sent restarted_early = [].
Proof. split; [unfold restarted_early; reachable|]. by vm_compute. Qed.

(** The answer to a stop command that was sent twice arrives after the deployment was started again: the
    rank of the new run counts as stopped, the deployment is reported stopped and gives up its leases,
    and the new run stays waiting. *)
Definition stale_stop : Service := answer 4 (start2 one (answer 3 (stop1 (stop1 running1)))).

Theorem stale_stop_ends_restart :
  rtc step New stale_stop ∧
  d_run (row stale_stop) = Some "run-2" ∧ d_desired (row stale_stop) = DStopped ∧ d_observed (row stale_stop) = OStopped ∧
  held stale_stop = [] ∧ r_state <$> lg_runs (sv_ledger stale_stop) !! "run-2" = Some Waiting.
Proof. split; [unfold stale_stop, running1; reachable|]. by vm_compute. Qed.

(** One rank fails to be created while the other one runs: the leases of both are released, and the
    other rank is neither stopped nor forgotten. *)
Definition half_failed : Service :=
  OnCommandResult env0 (rejected 3) (drive 0 (bring_up 1 0 1 (created None two))).

Theorem failed_rank_frees_running_one :
  rtc step New half_failed ∧
  d_desired (row half_failed) = DRunning ∧ phase (row half_failed) 1 = PhaseStarted ∧ held half_failed = [] ∧
  forallb (λ m, bool_decide (msg_op m ≠ MStop)) (sv_sent half_failed) = true.
Proof.
  split; [unfold half_failed; eapply rtc_r; [|apply step_result]; reachable|]. by vm_compute.
Qed.

(** The coordinator of a new run is started on what the worker was seen as in the run before: nothing
    has been observed of the worker since the restart. *)
Definition first_run : Service := seen_up (bring_up 1 1 2 (drive 0 (created (Some coordinated) two))).

Definition second_run : Service :=
  drive 0 (answer 8 (drive 0 (answer 7 (drive 1 (answer 6 (drive 1
    (start2 two (answer 5 (answer 4 (stop1 first_run)))))))))).

Theorem coordinator_trusts_old_run :
  rtc step New second_run ∧
  rank_state "d1" 1 first_run = "observing" ∧ rank_state "d1" 1 second_run = "observing" ∧
  mkMessage "n0" 9 MStart "d1" "run-2" 0 ∈ sv_sent second_run.
Proof.
  split; [unfold second_run, first_run; reachable; apply seen_up_reachable; reachable|].
  split; [by vm_compute|]. split; [by vm_compute|]. apply (bool_decide_eq_true_1 _). by vm_compute.
Qed.
