(* ===== verification/PlanPlace.v ===== *)
(** * Placement: the first half of [plan] in [internal/deploy/service.go]

    The choice of a workload variant, the nodes that can host one of its ranks, and the assignment of
    ranks to nodes and accelerators, pinned by the request or automatic.  The allocation of a plan is
    the state the closures [markAlloc], [freeAfter] and [allocOne] share; each is a function of it here.
    The text of diagnostics is dropped. *)

From S2P Require Import Prelude GoStrings Diag Inventory Leases Recipe DeployState.
Open Scope Z_scope.

Definition wrap32 : Z → Z := wrap_signed 32.

Definition failure (code : string) : Diagnostic := Error code "".

(** ** Data *)

(** A row of [nodes] *)
Record PlanNode := mkPlanNode { n_id : string; n_name : string; n_status : string; n_inventory : inventory_column }.

Record PlacementOverride := mkOverride { ov_node : string; ov_rank : Z }.

Record planAccRequirement := mkAccRequirement {
  ra_required : bool;
  ra_vendor : string;
  ra_architectures : list string;
  ra_min_memory : Z;
  ra_features : list string;
  ra_count : Z;
}.

Record Conflict := mkConflict { cf_resource : string; cf_occupied : string; cf_deployment : string }.

Record candidate := mkCandidate {
  cd_id : string;
  cd_name : string;
  cd_addr : string;
  cd_inv : option Inventory;
  cd_free : list Accelerator;
}.

(** ** The accelerators a recipe asks for *)

Definition accelRequirement (m : Manifest) : planAccRequirement :=
  let device := existsb (λ w, bool_decide (is_Some (w_accelerator w))) (m_workloads m) in
  match m_accelerator m with
  | Some a =>
      mkAccRequirement true (ac_vendor a) (ac_architectures a) (ac_min_memory a) (ac_features a)
        (if 0 <? ac_count a then ac_count a else 1)
  | None => mkAccRequirement device "" [] 0 [] 1
  end.

Definition matchesAcc (req : planAccRequirement) (a : Accelerator) : bool :=
  if negb (bool_decide (ra_vendor req = "")) && negb (bool_decide (acc_vendor a = ra_vendor req)) then false
  else if negb (bool_decide (ra_architectures req = [])) && negb (bool_decide (acc_architecture a ∈ ra_architectures req)) then false
  else if (0 <? ra_min_memory req) && (wrap64 (ac_memory a) <? ra_min_memory req) then false
  else forallb (λ f, bool_decide (f ∈ acc_features a)) (ra_features req).

(** ** The workload variant *)

Definition workloadNodeCount (m : Manifest) (w : Workload) : Z :=
  match w_ranks w with
  | [] => if 0 <? m_node_count m then m_node_count m else 1
  | rs => Z.of_nat (length rs)
  end.

Definition matchesWorkloadAccelerator (w : Workload) (nodeCount : Z) (a : Accelerator) : bool :=
  SatisfiedBy (w_match w) (mkTarget nodeCount (acc_vendor a) (acc_architecture a) (acc_features a)).

(** The accelerators a device request names on a node, and whether all of them have to match *)
Definition requested_accelerators (w : Workload) (inv : Inventory) : option (list Accelerator * bool) :=
  match w_accelerator w with
  | Some d =>
      match da_indices d with
      | [] => Some (inv_accelerators inv, da_all d)
      | indices =>
          let named := indices ≫= λ i, filter (λ a, ac_index a = i) (inv_accelerators inv) in
          if (length named =? length indices)%nat then Some (named, true) else None
      end
  | None => Some (inv_accelerators inv, false)
  end.

Definition variantMatchesInventory (w : Workload) (nodeCount : Z) (inv : Inventory) : bool :=
  match w_match w with
  | None => true
  | Some mt =>
      match mt_accelerator mt with
      | None => SatisfiedBy (w_match w) (mkTarget nodeCount "" "" [])
      | Some _ =>
          match requested_accelerators w inv with
          | None => false
          | Some (accelerators, requireAll) =>
              let matched := matchesWorkloadAccelerator w nodeCount in
              if requireAll then negb (bool_decide (accelerators = [])) && forallb matched accelerators
              else existsb matched accelerators
          end
      end
  end.

Definition node_matches (w : Workload) (nodeCount : Z) (n : PlanNode) : bool :=
  match w_match w with
  | None => true
  | Some mt =>
      match mt_accelerator mt with
      | None => SatisfiedBy (w_match w) (mkTarget nodeCount "" "" [])
      | Some _ => match n_inventory n with Reported inv => variantMatchesInventory w nodeCount inv | _ => false end
      end
  end.

Definition online (n : PlanNode) : bool := bool_decide (n_status n = "online").

Definition variantMatchesNodes (w : Workload) (nodeCount : Z) (nodes : list PlanNode) (overrides : list PlacementOverride) : bool :=
  let required := dedup (ov_node <$> overrides) in
  let considered := filter (λ n, online n && (bool_decide (required = []) || bool_decide (n_id n ∈ required)) = true) nodes in
  let matches := length (filter (λ n, node_matches w nodeCount n = true) considered) in
  if bool_decide (required = []) then nodeCount <=? Z.of_nat matches else (matches =? length required)%nat.

(** The first variant that matches *)
Fixpoint first_variant (m : Manifest) (nodes : list PlanNode) (overrides : list PlacementOverride) (i : nat) (ws : list Workload)
    : option (nat * Workload) :=
  match ws with
  | [] => None
  | w :: ws => if variantMatchesNodes w (workloadNodeCount m w) nodes overrides then Some (i, w) else first_variant m nodes overrides (S i) ws
  end.

(** The variant of a plan: the requested one, the first one where there are no nodes at all, the first match *)
Definition choose_workload (m : Manifest) (nodes : list PlanNode) (index : option Z) (overrides : list PlacementOverride)
    : option (nat * Workload) :=
  match index with
  | Some i => if i <? 0 then None else w ← m_workloads m !! Z.to_nat i; Some (Z.to_nat i, w)
  | None =>
      match nodes, m_workloads m with
      | [], w :: _ => Some (O, w)
      | _, ws => first_variant m nodes overrides 0 ws
      end
  end.

Definition devAll (w : Workload) : bool := match w_accelerator w with Some d => da_all d | None => false end.
Definition devIndices (w : Workload) : list Z := match w_accelerator w with Some d => da_indices d | None => [] end.

Definition rankList (m : Manifest) (w : Workload) : list Z :=
  sort_ranks (wrap32 <$> (match w_ranks w with [] => seqZ 0 (workloadNodeCount m w) | rs => rs end)).

(** ** Leases in the way *)

(** The active leases by resource, without those of the deployments the plan replaces *)
Definition leased_map (ignored : list string) (ls : list Lease) : gmap string Lease :=
  foldl (λ leased l,
    if bool_decide (l_kind l = "deployment") && bool_decide (l_owner l ∈ ignored) then leased
    else <[l_resource l := l]> leased) ∅ (ActiveLeasesWithOwners ls).

Definition owner_conflict (resource : string) (l : Lease) : Conflict :=
  mkConflict resource (l_owner l) (if bool_decide (l_kind l = "deployment") then l_owner l else "").

Definition gpu_resource (node uuid : string) : string := "gpu:" +:+ node +:+ ":" +:+ uuid.

Section placement.
(** The manifest, the chosen variant and the leases of one call *)
Context (m : Manifest) (w : Workload) (leased : gmap string Lease).

Notation req := (accelRequirement m).

(** ** Candidates *)

(** Accelerators of a node that fit the recipe and the variant *)
Definition suitable (a : Accelerator) : bool :=
  matchesAcc req a &&
  match w_match w with
  | Some mt => match mt_accelerator mt with Some _ => matchesWorkloadAccelerator w (workloadNodeCount m w) a | None => true end
  | None => true
  end.

Definition occupied (node : string) (a : Accelerator) : bool :=
  bool_decide (is_Some (leased !! gpu_resource node (ac_uuid a))).

Definition free_accelerators (node : string) (inv : Inventory) : list Accelerator :=
  filter (λ a, suitable a && negb (occupied node a) = true) (inv_accelerators inv).

Definition node_inv (n : PlanNode) : option Inventory := match n_inventory n with Reported inv => Some inv | _ => None end.

(** [blockedAccelerators], the entries of one node *)
Definition blocked_of (n : PlanNode) : list (string * Conflict) :=
  if negb (online n) then []
  else if negb (ra_required req) then []
  else match node_inv n with
       | None => []
       | Some inv =>
           omap (λ a,
             let resource := gpu_resource (n_id n) (ac_uuid a) in
             if suitable a && (bool_decide (devIndices w = []) || bool_decide (ac_index a ∈ devIndices w)) then
               (λ l, (resource, owner_conflict resource l)) <$> leased !! resource
             else None) (inv_accelerators inv)
       end.

Definition enough_free (free : list Accelerator) : bool :=
  ((if devAll w then 1 else ra_count req) <=? Z.of_nat (length free))
  && forallb (λ i, existsb (λ a, ac_index a =? i) free) (devIndices w).

Definition candidate_of (n : PlanNode) : option candidate :=
  if negb (online n) then None
  else if ra_required req && bool_decide (node_inv n = None) then None
  else
    let addr := firstNonLoopback (node_inv n) in
    let free := if ra_required req then match node_inv n with Some inv => free_accelerators (n_id n) inv | None => [] end else [] in
    if ra_required req && negb (enough_free free) then None
    else Some (mkCandidate (n_id n) (n_name n) (if bool_decide (addr = "") then n_name n else addr) (node_inv n) free).

(** ** Allocation *)

(** Accelerators given out by node, and the nodes an all-accelerators rank has consumed *)
Record Alloc := mkAlloc { al_uuid : gmap string (gset string); al_all : gset string }.

Definition no_alloc : Alloc := mkAlloc ∅ ∅.

Definition taken (al : Alloc) (node : string) : gset string := default ∅ (al_uuid al !! node).

Definition markAlloc (node : string) (uuids : list string) (al : Alloc) : Alloc :=
  mkAlloc (<[node := taken al node ∪ list_to_set uuids]> (al_uuid al)) (al_all al).

Definition freeAfter (al : Alloc) (c : candidate) : list Accelerator :=
  filter (λ a, ac_uuid a ∉ taken al (cd_id c)) (cd_free c).

Definition assign (pl : Placement) (index : Z) (uuid : string) (uuids : list string) : Placement :=
  mkPlacement (pl_node pl) (pl_name pl) (pl_rank pl) index uuid uuids (pl_container pl).

(** The accelerators at the requested indices, all those of an index at once *)
Fixpoint alloc_indices (avail : list Accelerator) (indices : list Z) (pl : Placement) : option Placement :=
  match indices with
  | [] => Some pl
  | i :: indices =>
      match filter (λ a, ac_index a = i) avail with
      | [] => None
      | a :: rest => alloc_indices avail indices
                       (assign pl (wrap32 i) (ac_uuid a) (pl_accelerators pl ++ (ac_uuid <$> a :: rest)))
      end
  end.

Definition allocOne (c : candidate) (rank : Z) (al : Alloc) : option (Placement * Alloc) :=
  let pl := mkPlacement (cd_id c) (cd_name c) rank 0 "" [] "" in
  if negb (ra_required req) then Some (pl, al)
  else
    let avail := freeAfter al c in
    let done pl al := Some (pl, markAlloc (cd_id c) (pl_accelerators pl) al) in
    if devAll w then
      if bool_decide (cd_id c ∈ al_all al) then None
      else match avail with
           | [] => None
           | a :: _ => done (assign pl (ac_index a) (ac_uuid a) (ac_uuid <$> avail)) (mkAlloc (al_uuid al) ({[cd_id c]} ∪ al_all al))
           end
    else match devIndices w with
         | _ :: _ => pl ← alloc_indices avail (devIndices w) pl; done pl al
         | [] =>
             if Z.of_nat (length avail) <? ra_count req then None
             else match avail with
                  | [] => None
                  | a :: _ => done (assign pl (ac_index a) (ac_uuid a) (ac_uuid <$> take (Z.to_nat (ra_count req)) avail)) al
                  end
         end.

(** What the two loops over ranks build: placements, diagnostics, the allocation *)
Record Placing := mkPlacing { pg_placed : list Placement; pg_diagnostics : list Diagnostic; pg_alloc : Alloc }.

Definition nothing_placed : Placing := mkPlacing [] [] no_alloc.

Definition complain (d : Diagnostic) (p : Placing) : Placing := mkPlacing (pg_placed p) (pg_diagnostics p ++ [d]) (pg_alloc p).
Definition add_placement (pl : Placement) (al : Alloc) (p : Placing) : Placing := mkPlacing (pg_placed p ++ [pl]) (pg_diagnostics p) al.

(** ** Placement by the request *)

(** One override; the first component is [covered] *)
Definition place_override (nodes : list PlanNode) (cs : list candidate) (ranks : list Z)
    (st : gset Z * Placing) (ov : PlacementOverride) : gset Z * Placing :=
  let '(covered, p) := st in
  if bool_decide (ov_rank ov ∈ covered) then (covered, complain (failure "placement.duplicate_rank") p)
  else if negb (bool_decide (ov_rank ov ∈ ranks)) then (covered, complain (failure "placement.unknown_rank") p)
  else match find (λ c, bool_decide (cd_id c = ov_node ov)) cs with
       | None =>
           let known := existsb (λ n, bool_decide (n_id n = ov_node ov) && online n) nodes in
           ({[ov_rank ov]} ∪ covered,
            complain (failure (if known then "placement.accelerator_unavailable" else "placement.node_unavailable")) p)
       | Some c =>
           match allocOne c (ov_rank ov) (pg_alloc p) with
           | None => (covered, complain (failure "placement.accelerator_unavailable") p)
           | Some (pl, al) => ({[ov_rank ov]} ∪ covered, add_placement pl al p)
           end
       end.

Definition place_overrides (nodes : list PlanNode) (cs : list candidate) (ranks : list Z) (overrides : list PlacementOverride) : Placing :=
  let '(covered, p) := foldl (place_override nodes cs ranks) (∅, nothing_placed) overrides in
  foldl (λ p r, if bool_decide (r ∈ covered) then p else complain (failure "placement.rank_missing") p) p ranks.

(** ** Automatic placement *)

(** [sort.SliceStable] by the number of free accelerators, most first *)
Fixpoint insert_by_free (c : candidate) (cs : list candidate) : list candidate :=
  match cs with
  | [] => [c]
  | d :: cs => if (length (cd_free c) <? length (cd_free d))%nat then d :: insert_by_free c cs else c :: d :: cs
  end.

Definition by_free (cs : list candidate) : list candidate := foldr insert_by_free [] cs.

(** Whether the loop over the candidates takes this one *)
Definition eligible (al : Alloc) (c : candidate) : bool :=
  if negb (ra_required req) then true
  else if devAll w then negb (bool_decide (cd_id c ∈ al_all al))
  else ra_count req <=? Z.of_nat (length (freeAfter al c)).

Definition place_rank (sorted : list candidate) (p : Placing) (rank : Z) : Placing :=
  match find (eligible (pg_alloc p)) sorted with
  | None => complain (failure "placement.no_capacity") p
  | Some best =>
      match allocOne best rank (pg_alloc p) with
      | None => complain (failure "placement.accelerator_unavailable") p
      | Some (pl, al) => add_placement pl al p
      end
  end.

Definition place_automatic (cs : list candidate) (ranks : list Z) : Placing :=
  foldl (place_rank (by_free cs)) nothing_placed ranks.

Definition place (nodes : list PlanNode) (overrides : list PlacementOverride) : Placing :=
  let cs := omap candidate_of nodes in
  let ranks := rankList m w in
  match overrides with
  | [] => place_automatic cs ranks
  | _ => place_overrides nodes cs ranks overrides
  end.
End placement.

(** ** What an allocation gives *)

Section allocation.
Context (m : Manifest) (w : Workload).

Notation req := (accelRequirement m).
Notation alloc := (allocOne m w).

Lemma ra_count_pos : 0 < ra_count req.
Proof. unfold accelRequirement. destruct (m_accelerator m) as [a|]; simpl; [destruct (Z.ltb_spec 0 (ac_count a)); lia|lia]. Qed.

(** The accelerators of a placement against the candidate that hosts it *)
Record fits (c : candidate) (pl : Placement) : Prop := {
  fit_node : pl_node pl = cd_id c;
  fit_container : pl_container pl = "";
  fit_none : ra_required req = false → pl_accelerators pl = [] ∧ pl_uuid pl = "";
  fit_some : ra_required req = true → pl_accelerators pl ≠ [];
  fit_free u : u ∈ pl_accelerators pl → ∃ a, a ∈ cd_free c ∧ ac_uuid a = u;
  fit_count : ra_required req = true → devAll w = false → devIndices w = [] →
    length (pl_accelerators pl) = Z.to_nat (ra_count req);
  fit_indices i : ra_required req = true → devAll w = false → i ∈ devIndices w →
    ∃ a, a ∈ cd_free c ∧ ac_index a = i ∧ ac_uuid a ∈ pl_accelerators pl;
}.

Lemma elem_of_freeAfter al c a : a ∈ freeAfter al c ↔ ac_uuid a ∉ taken al (cd_id c) ∧ a ∈ cd_free c.
Proof. unfold freeAfter. by rewrite list_elem_of_filter. Qed.

Lemma alloc_indices_spec avail indices pl pl' :
  alloc_indices avail indices pl = Some pl' →
  pl_node pl' = pl_node pl ∧ pl_rank pl' = pl_rank pl ∧ pl_container pl' = pl_container pl ∧
  (∃ us, pl_accelerators pl' = pl_accelerators pl ++ us ∧ (indices ≠ [] → us ≠ []) ∧
     (∀ u, u ∈ us → ∃ a, a ∈ avail ∧ ac_uuid a = u) ∧
     (∀ i, i ∈ indices → ∃ a, a ∈ avail ∧ ac_index a = i ∧ ac_uuid a ∈ us)).
Proof.
  revert pl. induction indices as [|i indices IH]; intros pl; simpl.
  - intros [= <-]. split_and!; [done..|]. exists []. rewrite app_nil_r. set_solver.
  - destruct (filter _ avail) as [|a rest] eqn:E; [done|]. intros (? & ? & ? & us & Ha & _ & Hus & Hi)%IH.
    assert (∀ x, x ∈ a :: rest → ac_index x = i ∧ x ∈ avail) as Hf.
    { intros x Hx. rewrite <- E in Hx. by apply list_elem_of_filter in Hx. }
    split_and!; [done..|]. exists ((ac_uuid <$> a :: rest) ++ us). split_and!.
    + rewrite Ha. simpl. by rewrite <- app_assoc.
    + done.
    + intros u [(x & -> & Hx)%list_elem_of_fmap|Hu]%elem_of_app; [exists x; naive_solver|naive_solver].
    + intros j [->|Hj]%elem_of_cons.
      * exists a. destruct (Hf a) as [? ?]; [set_solver|]. set_solver.
      * destruct (Hi j Hj) as (b & ? & ? & ?). exists b. set_solver.
Qed.

(** The effect of handing out accelerators *)
Record marked (node : string) (us : list string) (al al' : Alloc) : Prop := {
  mk_node u : u ∈ taken al' node ↔ u ∈ taken al node ∨ u ∈ us;
  mk_other n : n ≠ node → taken al' n = taken al n;
}.

Lemma taken_markAlloc node us al n :
  taken (markAlloc node us al) n = if decide (n = node) then taken al node ∪ list_to_set us else taken al n.
Proof. unfold taken at 1. simpl. case_decide; [subst; by rewrite lookup_insert_eq|by rewrite lookup_insert_ne by done]. Qed.

Lemma marked_markAlloc node us al al0 : al_uuid al0 = al_uuid al → marked node us al (markAlloc node us al0).
Proof.
  intros E. assert (∀ n, taken al n = taken al0 n) as Ht by (intros n; unfold taken; by rewrite E).
  split; intros; rewrite !Ht, taken_markAlloc.
  - rewrite decide_True by done. set_solver.
  - by rewrite decide_False by done.
Qed.

(** A successful allocation: the rank asked for, accelerators that fit and that were not given out before *)
Lemma allocOne_spec c rank al pl al' :
  alloc c rank al = Some (pl, al') →
  pl_rank pl = rank ∧ fits c pl ∧ (∀ u, u ∈ pl_accelerators pl → u ∉ taken al (cd_id c)) ∧
  marked (cd_id c) (pl_accelerators pl) al al'.
Proof.
  pose proof ra_count_pos as Hpos.
  unfold allocOne. destruct (ra_required req) eqn:Er; cbn [negb].
  2:{ intros [= <- <-]. split_and!; [done| |set_solver|split; set_solver]. split; simpl; rewrite ?Er; set_solver. }
  destruct (devAll w) eqn:Ed.
  - case_bool_decide; [done|]. destruct (freeAfter al c) as [|a rest] eqn:Ef; [done|]. intros [= <- <-].
    assert (∀ u, u ∈ ac_uuid <$> a :: rest → ∃ x, x ∈ freeAfter al c ∧ ac_uuid x = u) as Hu.
    { rewrite <- Ef. intros u (x & -> & Hx)%list_elem_of_fmap. by exists x. }
    split_and!; [done| |intros u (x & Hx & <-)%Hu; by apply elem_of_freeAfter in Hx as [? _]|].
    + split; simpl; rewrite ?Er, ?Ed; try done.
      intros u (x & Hx & <-)%Hu. apply elem_of_freeAfter in Hx. naive_solver.
    + by apply marked_markAlloc.
  - destruct (devIndices w) as [|i ixs] eqn:Ei.
    + destruct (Z.ltb_spec (Z.of_nat (length (freeAfter al c))) (ra_count req)) as [|Hc]; [done|].
      destruct (freeAfter al c) as [|a rest] eqn:Ef; [done|]. intros [= <- <-]. rewrite <- Ef in *.
      assert (∀ u, u ∈ ac_uuid <$> take (Z.to_nat (ra_count req)) (freeAfter al c) →
                ∃ x, x ∈ freeAfter al c ∧ ac_uuid x = u) as Hu.
      { intros u (x & -> & Hx)%list_elem_of_fmap. exists x. split; [|done]. by apply elem_of_take in Hx as (i & ?%list_elem_of_lookup_2 & _). }
      split_and!; [done| | |by apply marked_markAlloc].
      * split; simpl; rewrite ?Er, ?Ed, ?Ei; try done.
        -- intros _ E%(f_equal length). rewrite length_fmap, length_take in E. simpl in E. lia.
        -- intros u (x & Hx & <-)%Hu. apply elem_of_freeAfter in Hx. naive_solver.
        -- intros _ _ _. rewrite length_fmap, length_take. lia.
        -- set_solver.
      * simpl. intros u (x & Hx & <-)%Hu. by apply elem_of_freeAfter in Hx as [? _].
    + destruct (alloc_indices _ _ _) as [pl0|] eqn:Ea; cbn [mbind option_bind]; [|done]. intros [= <- <-].
      apply alloc_indices_spec in Ea as (Hn & Hr & Hc & us & Hus & Hne & Hu & Hi). simpl in *. rewrite Hus in *.
      split_and!; [done| | |by apply marked_markAlloc].
      * split; rewrite ?Er, ?Ed, ?Ei, ?Hus; try done.
        -- intros _. by apply Hne.
        -- intros u (x & Hx & <-)%Hu. apply elem_of_freeAfter in Hx. naive_solver.
        -- intros j _ _ Hj. destruct (Hi j Hj) as (x & Hx & ? & ?). apply elem_of_freeAfter in Hx. exists x. naive_solver.
      * intros u (x & Hx & <-)%Hu. by apply elem_of_freeAfter in Hx as [? _].
Qed.

(** ** What the loops keep *)

(** Two entries of a list of placements share an accelerator *)
Definition share (pls : list Placement) : Prop :=
  ∃ i j pl pl' u, i ≠ j ∧ pls !! i = Some pl ∧ pls !! j = Some pl' ∧ pl_node pl = pl_node pl' ∧
    u ∈ pl_accelerators pl ∧ u ∈ pl_accelerators pl'.

Record placing_ok (cs : list candidate) (p : Placing) : Prop := {
  po_fits pl : pl ∈ pg_placed p → ∃ c, c ∈ cs ∧ fits c pl;
  po_taken pl u : pl ∈ pg_placed p → u ∈ pl_accelerators pl → u ∈ taken (pg_alloc p) (pl_node pl);
  po_disjoint : ¬ share (pg_placed p);
}.

Lemma placing_ok_nothing cs : placing_ok cs nothing_placed.
Proof. split; simpl; [set_solver..|]. by intros (i & j & pl & pl' & u & _ & ? & _). Qed.

Lemma placing_ok_complain cs d p : placing_ok cs p → placing_ok cs (complain d p).
Proof. intros []. by split. Qed.

Lemma placing_ok_add cs p c rank pl al :
  placing_ok cs p → c ∈ cs → alloc c rank (pg_alloc p) = Some (pl, al) → placing_ok cs (add_placement pl al p).
Proof.
  intros [Hf Ht Hd] Hc (_ & Hfit & Hnew & Hmn & Hmo)%allocOne_spec.
  assert (∀ pl' u, pl' ∈ pg_placed p → u ∈ pl_accelerators pl' → pl_node pl' = cd_id c → u ∉ pl_accelerators pl) as Hx.
  { intros pl' u Hin Hu En Hu'. apply (Hnew u Hu'). rewrite <- En. by apply Ht. }
  split; simpl.
  - intros pl' [?| ->%list_elem_of_singleton]%elem_of_app; [by apply Hf|eauto].
  - intros pl' u [Hin| ->%list_elem_of_singleton]%elem_of_app Hu.
    + destruct (decide (pl_node pl' = cd_id c)) as [E|E].
      * rewrite E. apply Hmn. left. rewrite <- E. by apply Ht.
      * rewrite Hmo by done. by apply Ht.
    + rewrite (fit_node _ _ Hfit). apply Hmn. by right.
  - intros (i & j & a & b & u & Hij & Ha & Hb & Hn & Hua & Hub). pose proof (fit_node _ _ Hfit) as En.
    apply lookup_app_Some in Ha as [Ha|[Hi Ha]], Hb as [Hb|[Hj Hb]].
    + apply Hd. exists i, j, a, b, u. done.
    + apply list_lookup_singleton_Some in Hb as [_ <-]. apply (Hx a u); [by eapply list_elem_of_lookup_2|done|congruence|done].
    + apply list_lookup_singleton_Some in Ha as [_ <-]. apply (Hx b u); [by eapply list_elem_of_lookup_2|done|congruence|done].
    + apply list_lookup_singleton_Some in Ha as [? _], Hb as [? _]. lia.
Qed.
End allocation.

Lemma insert_by_free_perm c cs : insert_by_free c cs ≡ₚ c :: cs.
Proof. induction cs as [|d cs IH]; simpl; [done|]. destruct (_ <? _)%nat; [|done]. by rewrite IH, Permutation_swap. Qed.

Lemma by_free_perm cs : by_free cs ≡ₚ cs.
Proof. induction cs as [|c cs IH]; simpl; [done|]. unfold by_free. simpl. by rewrite insert_by_free_perm, IH. Qed.

Section placements.
Context (m : Manifest) (w : Workload) (leased : gmap string Lease).

Notation req := (accelRequirement m).
Notation candidates := (omap (candidate_of m w leased)).

(** An accelerator that a plan may hand out on a node *)
Definition grantable (n : PlanNode) (a : Accelerator) : Prop :=
  (∃ inv, n_inventory n = Reported inv ∧ a ∈ inv_accelerators inv) ∧
  suitable m w a = true ∧ leased !! gpu_resource (n_id n) (ac_uuid a) = None.

Lemma candidate_of_spec n c :
  candidate_of m w leased n = Some c →
  cd_id c = n_id n ∧ n_status n = "online" ∧ (∀ a, a ∈ cd_free c → grantable n a) ∧
  (ra_required req = true → enough_free m w (cd_free c) = true).
Proof.
  unfold candidate_of, online. case_bool_decide as Ho; [|done]. cbn [negb].
  destruct (ra_required req) eqn:Er; cbn [andb].
  - destruct (node_inv n) as [inv|] eqn:En; [|done]. rewrite bool_decide_eq_false_2 by done.
    destruct (enough_free m w _) eqn:Ee; [|done]. cbn [negb]. intros [= <-]. split_and!; [done..| |done].
    intros a. simpl. unfold free_accelerators. rewrite list_elem_of_filter, andb_true_iff, negb_true_iff.
    unfold occupied. rewrite bool_decide_eq_false, <- eq_None_not_Some. intros ((Hs & Hl) & Hin). split_and!; [|done..].
    unfold node_inv in En. destruct (n_inventory n); simplify_eq. eauto.
  - intros [= <-]. split_and!; [done..|simpl; set_solver|done].
Qed.

Lemma place_override_ok nodes cs ranks st ov :
  placing_ok m w cs (snd st) → placing_ok m w cs (snd (place_override m w nodes cs ranks st ov)).
Proof.
  destruct st as [covered p]. simpl. intros Hp. unfold place_override.
  repeat case_bool_decide; cbn [negb]; try by apply placing_ok_complain.
  destruct (find _ cs) as [c|] eqn:E; [|by apply placing_ok_complain].
  apply find_some in E as [Hc%list_elem_of_In _].
  destruct (allocOne _ _ c _ _) as [[pl al]|] eqn:Ea; [|by apply placing_ok_complain]. by eapply placing_ok_add.
Qed.

Lemma place_rank_ok cs sorted p rank :
  (∀ c, c ∈ sorted → c ∈ cs) → placing_ok m w cs p → placing_ok m w cs (place_rank m w sorted p rank).
Proof.
  intros Hs Hp. unfold place_rank. destruct (find _ sorted) as [c|] eqn:E; [|by apply placing_ok_complain].
  apply find_some in E as [Hc%list_elem_of_In _].
  destruct (allocOne _ _ c _ _) as [[pl al]|] eqn:Ea; [|by apply placing_ok_complain]. eapply placing_ok_add; eauto.
Qed.

Lemma place_ok nodes overrides : placing_ok m w (candidates nodes) (place m w leased nodes overrides).
Proof.
  unfold place. destruct overrides as [|ov overrides].
  - unfold place_automatic. apply foldl_invariant; [|apply placing_ok_nothing].
    intros p r _. apply place_rank_ok. intros c. by rewrite by_free_perm.
  - unfold place_overrides. set (cs := candidates nodes). set (ovs := ov :: overrides).
    assert (placing_ok m w cs (snd (foldl (place_override m w nodes cs (rankList m w)) (∅, nothing_placed) ovs))) as H.
    { apply (foldl_invariant (λ st, placing_ok m w cs (snd st))); [|apply placing_ok_nothing].
      intros st x _. apply place_override_ok. }
    destruct (foldl _ _ _) as [covered p]. apply foldl_invariant; [|done].
    intros q r _ Hq. case_bool_decide; [done|]. by apply placing_ok_complain.
Qed.

(** ** The ranks that are placed *)

Lemma add_placement_ranks pl al p : pl_rank <$> pg_placed (add_placement pl al p) = (pl_rank <$> pg_placed p) ++ [pl_rank pl].
Proof. simpl. by rewrite fmap_app. Qed.

Lemma place_override_ranks nodes cs ranks st ov :
  let ok (st : gset Z * Placing) :=
    NoDup (pl_rank <$> pg_placed (snd st)) ∧ ∀ r, r ∈ pl_rank <$> pg_placed (snd st) → r ∈ fst st ∧ r ∈ ranks in
  ok st → ok (place_override m w nodes cs ranks st ov).
Proof.
  destruct st as [covered p]. simpl. intros [Hn Hr]. unfold place_override.
  case_bool_decide as Hc; [done|]. case_bool_decide as Hin; cbn [negb]; [|done].
  destruct (find _ cs) as [c|]; [|split; [done|set_solver]].
  destruct (allocOne _ _ c _ _) as [[pl al]|] eqn:Ea; [|done].
  apply allocOne_spec in Ea as (Erk & _). unfold fst, snd. rewrite add_placement_ranks, Erk. split.
  - apply NoDup_app. split_and!; [done|set_solver|apply NoDup_singleton].
  - set_solver.
Qed.

Lemma place_rank_ranks sorted p ranks :
  ∃ rs, rs `sublist_of` ranks ∧ pl_rank <$> pg_placed (foldl (place_rank m w sorted) p ranks) = (pl_rank <$> pg_placed p) ++ rs.
Proof.
  revert p. induction ranks as [|r ranks IH]; intros p; cbn [foldl]; [exists []; by rewrite app_nil_r|].
  assert (∃ s, s `sublist_of` [r] ∧ pl_rank <$> pg_placed (place_rank m w sorted p r) = (pl_rank <$> pg_placed p) ++ s) as (s & Hs & Es).
  { unfold place_rank. destruct (find _ sorted) as [c|]; [destruct (allocOne _ _ c r _) as [[pl al]|] eqn:Ea|].
    2,3: exists []; rewrite app_nil_r; split; [apply sublist_nil_l|done].
    apply allocOne_spec in Ea as (Erk & _). exists [r]. by rewrite add_placement_ranks, Erk. }
  destruct (IH (place_rank m w sorted p r)) as (rs & Hrs & E). exists (s ++ rs).
  split; [by apply (sublist_app s [r])|]. by rewrite E, Es, <- app_assoc.
Qed.

Lemma place_ranks nodes overrides : pl_rank <$> pg_placed (place m w leased nodes overrides) ⊆+ rankList m w.
Proof.
  unfold place. destruct overrides as [|ov overrides].
  - destruct (place_rank_ranks (by_free (candidates nodes)) nothing_placed (rankList m w)) as (rs & Hrs & E).
    unfold place_automatic. rewrite E. by apply sublist_submseteq.
  - unfold place_overrides. set (cs := candidates nodes). set (ovs := ov :: overrides).
    destruct (foldl (place_override _ _ _ _ _) _ ovs) as [covered p] eqn:Ef.
    assert (∀ q, pg_placed (foldl (λ p r, if bool_decide (r ∈ covered) then p else complain (failure "placement.rank_missing") p) q (rankList m w))
             = pg_placed q) as ->.
    { intros q. apply (foldl_invariant (λ p', pg_placed p' = pg_placed q)); [|done]. intros p' r _ Hp. by case_bool_decide. }
    pose proof (foldl_invariant _ (place_override m w nodes cs (rankList m w)) ovs (∅, nothing_placed)
      (λ st ov _, place_override_ranks nodes cs (rankList m w) st ov)) as H.
    rewrite Ef in H. destruct H as [Hn Hr]; [split; [constructor|set_solver]|].
    apply NoDup_submseteq; [done|]. intros r Hin. by apply Hr.
Qed.
End placements.

(** C18: whatever the request pins, the ranks a plan places are ranks of the chosen variant, none more
    often than it lists it; each is on an online node of the fleet, with accelerators of that node's inventory
    that fit the recipe and the variant and that no lease holds, at least one of them where the recipe needs
    accelerators; and no accelerator of a node is given to two ranks. *)
Theorem place_sound (m : Manifest) (w : Workload) (leased : gmap string Lease) (nodes : list PlanNode) (overrides : list PlacementOverride) :
  let pls := pg_placed (place m w leased nodes overrides) in
  pl_rank <$> pls ⊆+ rankList m w ∧
  (∀ pl, pl ∈ pls → ∃ n, n ∈ nodes ∧ n_id n = pl_node pl ∧ n_status n = "online" ∧
     (ra_required (accelRequirement m) = true → pl_accelerators pl ≠ []) ∧
     ∀ u, u ∈ pl_accelerators pl → ∃ a, ac_uuid a = u ∧ grantable m w leased n a) ∧
  ¬ share pls.
Proof.
  cbn zeta. destruct (place_ok m w leased nodes overrides) as [Hf _ Hd]. split_and!; [apply place_ranks| |done].
  intros pl (c & (n & Hn & Hc)%list_elem_of_omap & Hfit)%Hf. apply candidate_of_spec in Hc as (Hid & Ho & Hg & _).
  exists n. rewrite <- Hid. destruct Hfit as [En _ _ Hs Hfree _ _]. split_and!; [done..|].
  intros u (a & Ha & <-)%Hfree. exists a. split; [done|by apply Hg].
Qed.

(** ** How many ranks the candidates can host *)

Lemma filter_take_drop {A B} `{EqDecision B} (f : A → B) k (l : list A) :
  NoDup (f <$> l) → filter (λ a, f a ∉ f <$> take k l) l = drop k l.
Proof.
  intros Hn. rewrite <- (take_drop k l), fmap_app in Hn. apply NoDup_app in Hn as (_ & Hd & _).
  trans (filter (λ a, f a ∉ f <$> take k l) (take k l ++ drop k l)); [by rewrite take_drop|]. rewrite filter_app.
  rewrite (filter_none _ (take k l)).
  - simpl. apply filter_all. intros a Ha Hf. apply (Hd _ Hf). by apply list_elem_of_fmap_2.
  - intros a Ha Hf. apply Hf. by apply list_elem_of_fmap_2.
Qed.

Section capacity.
Context (m : Manifest) (w : Workload).

Notation req := (accelRequirement m).
Notation alloc := (allocOne m w).

Context (required : ra_required req = true) (no_indices : devIndices w = []).

(** Candidates as the fleet gives them: distinct nodes, distinct accelerators, enough of them *)
Record candidates_ok (cs : list candidate) : Prop := {
  ck_nodes : NoDup (cd_id <$> cs);
  ck_uuids c : c ∈ cs → NoDup (ac_uuid <$> cd_free c);
  ck_enough c : c ∈ cs → enough_free m w (cd_free c) = true;
}.

(** The ranks a candidate can still host *)
Definition slots (al : Alloc) (c : candidate) : nat :=
  if devAll w then if decide (cd_id c ∈ al_all al) then 0%nat else 1%nat
  else (length (freeAfter al c) / Z.to_nat (ra_count req))%nat.

Definition capacity (al : Alloc) (cs : list candidate) : nat := sum_list_with (slots al) cs.

(** A node without an all-accelerators rank has all its accelerators *)
Definition whole (al : Alloc) : Prop := devAll w = true → ∀ n, n ∉ al_all al → taken al n = ∅.

Lemma ra_count_nat_pos : (0 < Z.to_nat (ra_count req))%nat.
Proof. pose proof (ra_count_pos m). lia. Qed.

Lemma eligible_slots al c : eligible m w al c = true ↔ (0 < slots al c)%nat.
Proof.
  unfold eligible, slots. rewrite required. simpl. destruct (devAll w).
  - case_decide; [rewrite bool_decide_eq_true_2 by done|rewrite bool_decide_eq_false_2 by done]; simpl; naive_solver lia.
  - pose proof ra_count_nat_pos. rewrite Z.leb_le, Nat.div_str_pos_iff by lia. lia.
Qed.

Lemma eligible_alloc cs al c rank : candidates_ok cs → c ∈ cs → whole al → eligible m w al c = true → is_Some (alloc c rank al).
Proof.
  intros Hcs Hc Hw. pose proof (ra_count_pos m). unfold eligible, allocOne. rewrite required, no_indices. simpl.
  destruct (devAll w) eqn:Ed.
  - case_bool_decide as Hin; [done|]. intros _. pose proof (ck_enough _ Hcs c Hc) as He.
    assert (freeAfter al c = cd_free c) as ->.
    { apply filter_all. intros a _. rewrite (Hw Ed) by done. set_solver. }
    unfold enough_free in He. rewrite Ed in He. destruct (cd_free c); [done|]. simpl. eauto.
  - rewrite Z.leb_le. intros Hle. rewrite (proj2 (Z.ltb_ge _ _)) by lia.
    destruct (freeAfter al c) eqn:E; [simpl in Hle; lia|]. eauto.
Qed.

Lemma slots_other al al' c d :
  cd_id d ≠ cd_id c → al_all al' ⊆ {[cd_id c]} ∪ al_all al → al_all al ⊆ al_all al' →
  taken al' (cd_id d) = taken al (cd_id d) → slots al' d = slots al d.
Proof.
  intros Hne H1 H2 Ht. unfold slots, freeAfter. rewrite Ht. destruct (devAll w); [|done].
  repeat case_decide; [done|set_solver..|done].
Qed.

Lemma slots_taken al al' c pl :
  NoDup (ac_uuid <$> cd_free c) → devAll w = false →
  pl_accelerators pl = ac_uuid <$> take (Z.to_nat (ra_count req)) (freeAfter al c) →
  marked (cd_id c) (pl_accelerators pl) al al' → (Z.to_nat (ra_count req) ≤ length (freeAfter al c))%nat →
  slots al c = S (slots al' c).
Proof.
  intros Hn Ed Ha Hm Hle. unfold slots. rewrite Ed. pose proof ra_count_nat_pos.
  assert (freeAfter al' c = drop (Z.to_nat (ra_count req)) (freeAfter al c)) as ->.
  { rewrite <- (filter_take_drop ac_uuid); [|].
    - rewrite <- Ha. unfold freeAfter. rewrite list_filter_filter. apply list_filter_iff. intros a.
      rewrite (mk_node _ _ _ _ Hm). tauto.
    - eapply sublist_NoDup; [exact Hn|]. apply fmap_sublist, sublist_filter. }
  rewrite length_drop. set (n := length _) in *. set (k := Z.to_nat _) in *.
  replace n with ((n - k) + 1 * k)%nat at 1 by lia. rewrite Nat.div_add by lia. lia.
Qed.

Lemma allocOne_slots cs al c rank pl al' :
  candidates_ok cs → c ∈ cs → whole al → alloc c rank al = Some (pl, al') →
  slots al c = S (slots al' c) ∧ (∀ d, cd_id d ≠ cd_id c → slots al' d = slots al d) ∧ whole al'.
Proof.
  intros Hcs Hc Hw Ha. pose proof (allocOne_spec _ _ _ _ _ _ _ Ha) as (_ & _ & _ & Hm).
  pose proof (ra_count_pos m). revert Ha. unfold allocOne. rewrite required, no_indices. cbn [negb].
  destruct (devAll w) eqn:Ed.
  - case_bool_decide as Hin; [done|]. destruct (freeAfter al c) eqn:Ef; [done|]. intros [= <- <-]. split_and!.
    + unfold slots. rewrite Ed. simpl. rewrite decide_False, decide_True; [done|set_solver|done].
    + intros d Hd. apply (slots_other _ _ c); [done|simpl; set_solver|simpl; set_solver|by apply Hm].
    + intros _ n. simpl. intros Hn. rewrite (mk_other _ _ _ _ Hm) by set_solver. apply Hw; [done|set_solver].
  - destruct (Z.ltb_spec (Z.of_nat (length (freeAfter al c))) (ra_count req)) as [|Hle]; [done|].
    destruct (freeAfter al c) as [|a rest] eqn:Ef; [done|]. intros [= <- <-]. rewrite <- Ef in *. split_and!.
    + eapply slots_taken; [by apply (ck_uuids _ Hcs)|done| |exact Hm|lia]. done.
    + intros d Hd. apply (slots_other _ _ c); [done|simpl; set_solver|simpl; set_solver|by apply Hm].
    + intros Hd. congruence.
Qed.

Lemma allocOne_capacity cs al c rank pl al' :
  candidates_ok cs → c ∈ cs → whole al → alloc c rank al = Some (pl, al') → capacity al cs = S (capacity al' cs).
Proof.
  intros Hcs Hc Hw Ha. destruct (allocOne_slots _ _ _ _ _ _ Hcs Hc Hw Ha) as (Hs & Ho & _).
  pose proof (ck_nodes _ Hcs) as Hn. apply list_elem_of_split in Hc as (l1 & l2 & ->).
  rewrite fmap_app, fmap_cons in Hn. unfold capacity. rewrite !sum_list_with_app. simpl. rewrite Hs.
  assert (∀ l, (∀ d, d ∈ l → cd_id d ≠ cd_id c) → sum_list_with (slots al') l = sum_list_with (slots al) l) as He.
  { intros l Hl. induction l as [|d l IH]; simpl; [done|]. rewrite Ho by (apply Hl; set_solver). rewrite IH; [done|set_solver]. }
  apply NoDup_app in Hn as (_ & Hd & [Hc2 _]%NoDup_cons). rewrite !He; [lia| |].
  - intros d Hd' E. apply Hc2. rewrite <- E. by apply list_elem_of_fmap_2.
  - intros d Hd' E. apply (Hd (cd_id d)); [by apply list_elem_of_fmap_2|]. rewrite E. set_solver.
Qed.

(** ** Every loop trades capacity for placements *)

Record traded (cs : list candidate) (p : Placing) : Prop := {
  tr_sum : (length (pg_placed p) + capacity (pg_alloc p) cs = capacity no_alloc cs)%nat;
  tr_whole : whole (pg_alloc p);
}.

Lemma traded_nothing cs : traded cs nothing_placed.
Proof. split; [done|]. intros _ n _. done. Qed.

Lemma traded_add cs p c rank pl al :
  candidates_ok cs → traded cs p → c ∈ cs → alloc c rank (pg_alloc p) = Some (pl, al) → traded cs (add_placement pl al p).
Proof.
  intros Hcs [Hs Hw] Hc Ha. pose proof (allocOne_capacity _ _ _ _ _ _ Hcs Hc Hw Ha) as E.
  destruct (allocOne_slots _ _ _ _ _ _ Hcs Hc Hw Ha) as (_ & _ & Hw').
  split; simpl; [|done]. rewrite length_app. simpl. lia.
Qed.

Lemma place_rank_traded cs sorted p rank :
  candidates_ok cs → sorted ≡ₚ cs → traded cs p →
  traded cs (place_rank m w sorted p rank) ∧
  ((0 < capacity (pg_alloc p) cs)%nat → length (pg_placed (place_rank m w sorted p rank)) = S (length (pg_placed p))).
Proof.
  intros Hcs Hperm Ht. unfold place_rank. destruct (find _ sorted) as [c|] eqn:E.
  - apply find_some in E as [Hc%list_elem_of_In He]. rewrite Hperm in Hc.
    destruct (eligible_alloc cs (pg_alloc p) c rank Hcs Hc (tr_whole _ _ Ht) He) as [[pl al] Ha]. rewrite Ha. split.
    + by eapply traded_add.
    + intros _. simpl. rewrite length_app. simpl. lia.
  - split; [by destruct Ht|]. intros Hpos. exfalso.
    assert (∀ c, c ∈ cs → slots (pg_alloc p) c = 0%nat) as Hz.
    { intros c Hc. rewrite <- Hperm in Hc. apply list_elem_of_In in Hc. pose proof (find_none _ _ E c Hc) as He.
      destruct (slots _ c) eqn:Es; [done|]. enough (eligible m w (pg_alloc p) c = true) by congruence. apply eligible_slots. lia. }
    clear -Hz Hpos. unfold capacity in Hpos. induction cs as [|c cs IH]; simpl in *; [lia|].
    rewrite Hz in Hpos by set_solver. apply IH; [lia|set_solver].
Qed.

(** Automatic placement places as many ranks as there is room for *)
Lemma place_automatic_capacity cs ranks : candidates_ok cs →
  length (pg_placed (place_automatic m w cs ranks)) = (length ranks `min` capacity no_alloc cs)%nat.
Proof.
  intros Hcs. unfold place_automatic.
  assert (∀ p, traded cs p → length (pg_placed (foldl (place_rank m w (by_free cs)) p ranks))
            = (length (pg_placed p) + length ranks `min` capacity (pg_alloc p) cs)%nat) as H.
  { induction ranks as [|r ranks IH]; intros p Hp; cbn [foldl length]; [lia|].
    destruct (place_rank_traded cs (by_free cs) p r Hcs (by_free_perm cs) Hp) as [Hp' Hl]. rewrite IH by done.
    pose proof (tr_sum _ _ Hp). pose proof (tr_sum _ _ Hp').
    destruct (decide (0 < capacity (pg_alloc p) cs)%nat) as [Hc|Hc]; [specialize (Hl Hc); lia|].
    assert (length (pg_placed p) ≤ length (pg_placed (place_rank m w (by_free cs) p r)))%nat; [|lia].
    unfold place_rank. destruct (find _ _); [destruct (allocOne _ _ _ _ _) as [[]|]|]; simpl; rewrite ?length_app; lia. }
  rewrite H by apply traded_nothing. done.
Qed.

(** Pinned placement places no more *)
Lemma place_overrides_capacity nodes cs ranks overrides : candidates_ok cs →
  (length (pg_placed (place_overrides m w nodes cs ranks overrides)) ≤ capacity no_alloc cs)%nat.
Proof.
  intros Hcs. unfold place_overrides.
  assert (traded cs (snd (foldl (place_override m w nodes cs ranks) (∅, nothing_placed) overrides))) as H.
  { apply (foldl_invariant (λ st, traded cs (snd st))); [|apply traded_nothing].
    intros [covered p] ov _ Hp. simpl in *. unfold place_override.
    repeat case_bool_decide; cbn [negb]; try by destruct Hp.
    destruct (find _ cs) as [c|] eqn:E; [|by destruct Hp]. apply find_some in E as [Hc%list_elem_of_In _].
    destruct (allocOne _ _ c _ _) as [[pl al]|] eqn:Ea; [|by destruct Hp]. by eapply traded_add. }
  destruct (foldl (place_override _ _ _ _ _) _ _) as [covered p]. simpl in H.
  assert (traded cs (foldl (λ p r, if bool_decide (r ∈ covered) then p else complain (failure "placement.rank_missing") p) p ranks)) as [Hs _].
  { apply foldl_invariant; [|done]. intros q r _ Hq. case_bool_decide; [done|]. by destruct Hq. }
  lia.
Qed.
End capacity.

(** ** Automatic against pinned placement *)

(** Node ids are the primary key of [nodes]; the devices of one report have their own UUIDs *)
Definition fleet_ok (nodes : list PlanNode) : Prop :=
  NoDup (n_id <$> nodes) ∧
  ∀ n inv, n ∈ nodes → n_inventory n = Reported inv → NoDup (ac_uuid <$> inv_accelerators inv).

Section fleet.
Context (m : Manifest) (w : Workload) (leased : gmap string Lease).

Notation candidates := (omap (candidate_of m w leased)).

Lemma candidate_ids nodes : cd_id <$> candidates nodes `sublist_of` n_id <$> nodes.
Proof.
  induction nodes as [|n nodes IH]; [done|]. cbn [omap list_omap].
  destruct (candidate_of m w leased n) as [c|] eqn:E; cbn [fmap list_fmap].
  - apply candidate_of_spec in E as (-> & _). by apply sublist_skip.
  - by apply sublist_cons.
Qed.

Lemma candidate_free n c : candidate_of m w leased n = Some c →
  cd_free c = [] ∨ ∃ inv, n_inventory n = Reported inv ∧ cd_free c = free_accelerators m w leased (n_id n) inv.
Proof.
  unfold candidate_of, node_inv. destruct (online n); [|done].
  destruct (ra_required _), (n_inventory n) as [| |inv]; cbn [negb andb]; try (intros [= <-]; by left);
    case_bool_decide; try done.
  destruct (enough_free _ _ _); [|done]. intros [= <-]. right. by exists inv.
Qed.

Lemma fleet_candidates nodes :
  fleet_ok nodes → ra_required (accelRequirement m) = true → candidates_ok m w (candidates nodes).
Proof.
  intros [Hn Hu] Hr. split.
  - eapply sublist_NoDup; [exact Hn|apply candidate_ids].
  - intros c (n & Hin & Hc)%list_elem_of_omap. destruct (candidate_free n c Hc) as [->|(inv & Hi & ->)]; [constructor|].
    eapply sublist_NoDup; [by apply (Hu n inv)|]. apply fmap_sublist, sublist_filter.
  - intros c (n & _ & Hc)%list_elem_of_omap. apply candidate_of_spec in Hc as (_ & _ & _ & He). by apply He.
Qed.

(** Without accelerators every rank goes to the first candidate *)
Lemma place_automatic_plain cs ranks :
  ra_required (accelRequirement m) = false →
  length (pg_placed (place_automatic m w cs ranks)) = match cs with [] => 0%nat | _ => length ranks end.
Proof.
  intros Hr. unfold place_automatic.
  assert (∀ p, length (pg_placed (foldl (place_rank m w (by_free cs)) p ranks))
            = (length (pg_placed p) + match cs with [] => 0%nat | _ => length ranks end)%nat) as H; [|by rewrite H].
  induction ranks as [|r ranks IH]; intros p; cbn [foldl length]; [destruct cs; lia|]. rewrite IH.
  unfold place_rank. destruct (by_free cs) as [|c sorted] eqn:Es.
  - apply (f_equal length) in Es. rewrite by_free_perm in Es. destruct cs; [|done]. simpl. lia.
  - assert (length cs ≠ 0%nat) by (rewrite <- (by_free_perm cs), Es; done). destruct cs; [done|].
    cbn [find]. unfold eligible at 1, allocOne at 1. rewrite Hr. simpl. rewrite length_app. simpl. lia.
Qed.

Lemma place_overrides_none nodes ranks overrides : pg_placed (place_overrides m w nodes [] ranks overrides) = [].
Proof.
  unfold place_overrides.
  assert (pg_placed (snd (foldl (place_override m w nodes [] ranks) (∅, nothing_placed) overrides)) = []) as H.
  { apply (foldl_invariant (λ st, pg_placed (snd st) = [])); [|done]. intros [covered p] ov _ Hp. unfold place_override.
    by repeat case_bool_decide. }
  destruct (foldl (place_override _ _ _ _ _) _ _) as [covered p]. apply foldl_invariant; [|done].
  intros q r _ Hq. by case_bool_decide.
Qed.

(** C20: on a fleet with distinct nodes and devices, automatic placement of a variant that names no device
    indices places at least as many ranks as any pinned placement, so a plan that fits at all is found. *)
Theorem automatic_optimal nodes overrides :
  fleet_ok nodes → devIndices w = [] →
  (length (pg_placed (place m w leased nodes overrides)) ≤ length (pg_placed (place m w leased nodes [])))%nat.
Proof.
  intros Hf Hi. destruct overrides as [|ov overrides]; [done|].
  pose proof (place_ranks m w leased nodes (ov :: overrides)) as Hle%submseteq_length. rewrite length_fmap in Hle.
  cbn [place] in *. set (cs := candidates nodes) in *. set (ranks := rankList m w) in *.
  destruct (ra_required (accelRequirement m)) eqn:Er.
  - pose proof (fleet_candidates nodes Hf Er) as Hcs. rewrite (place_automatic_capacity m w Er Hi cs ranks Hcs).
    pose proof (place_overrides_capacity m w Er Hi nodes cs ranks (ov :: overrides) Hcs). lia.
  - rewrite place_automatic_plain by done. destruct cs as [|c cs]; [|done]. by rewrite place_overrides_none.
Qed.
End fleet.

(** ** On concrete fleets *)

Definition sample_gpu (index : Z) (uuid : string) : Accelerator := mkAccelerator index "nvidia" "sm_120" uuid (96 * GiB) ["fp8"].

Definition sample_host (id : string) (gpus : list Accelerator) : PlanNode :=
  mkPlanNode id ("host-" +:+ id) "online" (Reported (mkInventory gpus [mkInterface "tailscale0" ["100.64.0.7/32"]] [] [] "" [] "" "" "")).

Definition sample_variant (ranks : list Z) (ports : list Port) (dev : option DevAcc) : Workload :=
  mkWorkload None (mkImage "registry.local/engine" "sha256:00") [] [] ports 0 dev None "" ranks "" None None None [] None.

Definition sample_recipe (w : Workload) : Manifest :=
  mkManifest "model" None 0 (Some (mkAccCompat "nvidia" [] 1 0 [])) None [] [] [w] [] None None.

(** Two nodes with two devices each *)
Definition two_hosts : list PlanNode :=
  [sample_host "a" [sample_gpu 0 "a0"; sample_gpu 1 "a1"]; sample_host "b" [sample_gpu 0 "b0"; sample_gpu 1 "b1"]].

Definition spread : list PlacementOverride := [mkOverride "a" 0; mkOverride "b" 1].

Lemma fleet_ok_two_hosts : fleet_ok two_hosts.
Proof.
  split; [repeat constructor; set_solver|]. intros n inv Hn Hi.
  repeat (apply elem_of_cons in Hn as [->|Hn]; [injection Hi as <-; repeat constructor; set_solver|]). set_solver.
Qed.

Lemma automatic_optimal_witness :
  let w := sample_variant [0; 1] [] None in
  (2 ≤ length (pg_placed (place (sample_recipe w) w ∅ two_hosts [])))%nat.
Proof.
  set (w := sample_variant [0; 1] [] None).
  exact (automatic_optimal (sample_recipe w) w ∅ two_hosts spread fleet_ok_two_hosts eq_refl).
Defined.

(** With device indices automatic placement is not the best one: two ranks that each ask for device 0 fit on
    two nodes, and the request that pins them is planned, but the automatic loop keeps choosing the first node
    while it has enough devices left, whatever their indices. *)
Theorem automatic_misses_indices :
  let w := sample_variant [0; 1] [] (Some (mkDevAcc false [0])) in
  let m := sample_recipe w in
  (pl_node <$> pg_placed (place m w ∅ two_hosts spread) = ["a"; "b"]) ∧
  pg_diagnostics (place m w ∅ two_hosts spread) = [] ∧
  (pl_node <$> pg_placed (place m w ∅ two_hosts []) = ["a"]) ∧
  pg_diagnostics (place m w ∅ two_hosts []) = [failure "placement.accelerator_unavailable"].
Proof. by vm_compute. Qed.
