(* ===== verification/PlanUpstream.v ===== *)
(** * Upstream previews: [internal/deploy/upstream.go]

    For a recipe that runs its repository's own procedure, the commands, environment and configuration
    edits of every rank, rendered when the deployment is planned so that the operator reviews exactly what
    will run.  A Go map is the list of its entries; an absent rank of [nodes] reads as the zero value. *)

From S2P Require Import Prelude GoStrings CJson ShellQuote SourceConfig Recipe Fabric DeployState.
Open Scope Z_scope.

Record UpstreamPreview := mkPreview {
  pv_node : string;
  pv_name : string;
  pv_rank : Z;
  pv_execution : UpstreamExecution;
  pv_environment : list (string * string);
  pv_configuration : list ResolvedFile;
}.

Inductive preview_error :=
| ErrAuthority | ErrFabricRow | ErrBinding (rank : Z)
| ErrPreviewRender (e : recipe_error) | ErrPreviewConfig (e : config_error).

Section previews.
(** Printing of floats and composites, and the decoder of a JSON array, as in [Recipe] *)
Context (format_float : float → string) (format_composite : json → string) (json_array : string → option (list json)).

Notation render := (Render format_float format_composite).

Fixpoint render_all (c : RenderContext) (vs : list string) : result recipe_error (list string) :=
  match vs with
  | [] => Ok []
  | v :: vs => o ← render v c; os ← render_all c vs; Ok (o :: os)
  end.

Fixpoint render_commands (c : RenderContext) (cs : list (list string)) : result recipe_error (list (list string)) :=
  match cs with
  | [] => Ok []
  | v :: cs => o ← render_all c v; os ← render_commands c cs; Ok (o :: os)
  end.

(** The value of an optional setting that has none *)
Definition unset_optional (m : Manifest) (c : RenderContext) (v : string) : bool :=
  match setting_name v with
  | None => false
  | Some name =>
      match ParameterByName m name with
      | Some p => p_optional p && bool_decide (rc_settings c !! name = None)
      | None => false
      end
  end.

Fixpoint render_env (m : Manifest) (c : RenderContext) (env : list (string * string)) : result recipe_error (list (string * string)) :=
  match env with
  | [] => Ok []
  | (k, v) :: env =>
      if unset_optional m c v then render_env m c env
      else o ← render v c; os ← render_env m c env; Ok ((k, o) :: os)
  end.

Definition by_rank {A} (rank : Z) (entries : list (Z * A)) (otherwise : A) : A :=
  match find (λ e, bool_decide (fst e = rank)) entries with Some e => snd e | None => otherwise end.

Definition renderUpstream (m : Manifest) (w : Workload) (up : UpstreamExecution) (c : RenderContext)
    : result recipe_error (UpstreamExecution * list (string * string)) :=
  start ← render_all c (up_start up);
  stop ← render_all c (up_stop up);
  containers ← render_all c (by_rank (rc_rank c) (up_containers_by_rank up) (up_containers up));
  auxiliary ← render_all c (up_auxiliary up);
  install ← render_commands c (by_rank (rc_rank c) (up_install_by_rank up) (up_install up));
  environment ← render_env m c (w_env w);
  Ok (mkUpstream install [] start stop containers (up_coordinator up) [] auxiliary (up_configuration up), environment).

(** ** The fabric of the ranks *)

Definition bind_member (n : RenderNode) (b : MemberBinding) : RenderNode :=
  if bool_decide (mb_node b = rn_id n)
  then mkRenderNode (rn_id n) (rn_address n) (mb_address b) (mb_interface b) (mb_rdma b)
         (match mb_gid b with Some g => Itoa g | None => rn_gid n end)
  else n.

Definition bound_ok (transport : string) (n : RenderNode) : bool :=
  negb (bool_decide (rn_fabric_addr n = "")) && negb (bool_decide (rn_interface n = ""))
  && negb (bool_decide (transport = "roce") && (bool_decide (rn_rdma n = "") || bool_decide (rn_gid n = ""))).

Fixpoint bind_nodes (f : FabricRow) (entries : list (Z * RenderNode)) (nodes : gmap Z RenderNode) : result preview_error (gmap Z RenderNode) :=
  match entries with
  | [] => Ok nodes
  | (rank, n) :: entries =>
      let n := foldl bind_member n (fb_bindings f) in
      if bound_ok (fb_transport f) n then bind_nodes f entries (<[rank := n]> nodes) else Err (ErrBinding rank)
  end.

Definition zero_node : RenderNode := mkRenderNode "" "" "" "" "" "".

(** The fields that a preview does not set are empty *)
Definition render_context (pl : Placement) (nodes : gmap Z RenderNode) (settings : gmap string any) : RenderContext :=
  let n := default zero_node (nodes !! pl_rank pl) in
  mkRenderContext (rn_id n) (pl_rank pl) (rn_address n) (acceleratorBinding pl)
    (rn_fabric_addr (default zero_node (nodes !! 0))) (rn_fabric_addr n) (rn_interface n) (rn_rdma n) (rn_gid n)
    ∅ settings nodes.

Definition preview_one (m : Manifest) (w : Workload) (up : UpstreamExecution) (settings : gmap string any)
    (nodes : gmap Z RenderNode) (pl : Placement) : result preview_error UpstreamPreview :=
  let c := render_context pl nodes settings in
  match renderUpstream m w up c with
  | Err e => Err (ErrPreviewRender e)
  | Ok (execution, environment) =>
      match SourceConfig.Resolve json_array (Some (λ v, match render v c with Ok o => Some o | Err _ => None end))
              (up_configuration execution) (source_value <$> settings) with
      | Err e => Err (ErrPreviewConfig e)
      | Ok configuration => Ok (mkPreview (pl_node pl) (pl_name pl) (pl_rank pl) execution environment configuration)
      end
  end.

(** The loop over the placements: the previews it appends, and the error that ends it *)
Fixpoint preview_all (m : Manifest) (w : Workload) (up : UpstreamExecution) (settings : gmap string any)
    (nodes : gmap Z RenderNode) (pls : list Placement) : list UpstreamPreview * option preview_error :=
  match pls with
  | [] => ([], None)
  | pl :: pls =>
      match preview_one m w up settings nodes pl with
      | Err e => ([], Some e)
      | Ok pv => let '(pvs, e) := preview_all m w up settings nodes pls in (pv :: pvs, e)
      end
  end.

(** [fabrics] is the table, [fabric] the plan's choice *)
Definition previewUpstream (fabrics : list (string * FabricRow)) (m : Manifest) (w : Workload) (up : UpstreamExecution)
    (settings : gmap string any) (fabric : option string) (nodes : gmap Z RenderNode) (pls : list Placement)
    : list UpstreamPreview * option preview_error :=
  if bool_decide (m_source m = None) || negb (bool_decide ("host.upstream-exec" ∈ w_permissions w)) then ([], Some ErrAuthority)
  else match fabric with
       | None => preview_all m w up settings nodes pls
       | Some id =>
           match find (λ e, bool_decide (fst e = id)) fabrics with
           | None => ([], Some ErrFabricRow)
           | Some (_, f) =>
               match bind_nodes f (map_to_list nodes) nodes with
               | Err e => ([], Some e)
               | Ok nodes => preview_all m w up settings nodes pls
               end
           end
       end.

(** ** What a preview holds *)

(** What the operator reviews for one rank *)
Record previewed (m : Manifest) (w : Workload) (up : UpstreamExecution) (c : RenderContext) (pl : Placement) (pv : UpstreamPreview) : Prop := {
  pd_node : pv_node pv = pl_node pl;
  pd_rank : pv_rank pv = pl_rank pl;
  pd_start : Forall2 (λ v o, render v c = Ok o) (up_start up) (up_start (pv_execution pv));
  pd_stop : Forall2 (λ v o, render v c = Ok o) (up_stop up) (up_stop (pv_execution pv));
  pd_containers : Forall2 (λ v o, render v c = Ok o)
    (by_rank (pl_rank pl) (up_containers_by_rank up) (up_containers up)) (up_containers (pv_execution pv));
  pd_install : Forall2 (Forall2 (λ v o, render v c = Ok o))
    (by_rank (pl_rank pl) (up_install_by_rank up) (up_install up)) (up_install (pv_execution pv));
  pd_env : Forall2 (λ e o, fst o = fst e ∧ render (snd e) c = Ok (snd o))
    (filter (λ e, unset_optional m c (snd e) = false) (w_env w)) (pv_environment pv);
}.

Lemma render_all_spec c vs os : render_all c vs = Ok os → Forall2 (λ v o, render v c = Ok o) vs os.
Proof.
  revert os. induction vs as [|v vs IH]; intros os; simpl; [intros [= <-]; constructor|].
  destruct (render v c) as [o|] eqn:E; cbn [mbind result_bind]; [|done].
  destruct (render_all c vs) as [os'|]; cbn [mbind result_bind]; [|done]. intros [= <-]. constructor; auto.
Qed.

Lemma render_commands_spec c vs os : render_commands c vs = Ok os → Forall2 (Forall2 (λ v o, render v c = Ok o)) vs os.
Proof.
  revert os. induction vs as [|v vs IH]; intros os; simpl; [intros [= <-]; constructor|].
  destruct (render_all c v) as [o|] eqn:E; cbn [mbind result_bind]; [|done].
  destruct (render_commands c vs) as [os'|]; cbn [mbind result_bind]; [|done]. intros [= <-].
  constructor; [by apply render_all_spec|auto].
Qed.

Lemma render_env_spec m c env os : render_env m c env = Ok os →
  Forall2 (λ e o, fst o = fst e ∧ render (snd e) c = Ok (snd o)) (filter (λ e, unset_optional m c (snd e) = false) env) os.
Proof.
  revert os. induction env as [|[k v] env IH]; intros os; cbn [render_env]; [intros [= <-]; constructor|].
  rewrite filter_cons. cbn [snd]. destruct (unset_optional m c v); [by rewrite decide_False by done; apply IH|].
  rewrite decide_True by done. destruct (render v c) as [o|] eqn:E; cbn [mbind result_bind]; [|done].
  destruct (render_env m c env) as [os'|]; cbn [mbind result_bind]; [|done]. intros [= <-]. constructor; auto.
Qed.

Lemma preview_one_spec m w up settings nodes pl pv :
  preview_one m w up settings nodes pl = Ok pv → previewed m w up (render_context pl nodes settings) pl pv.
Proof.
  unfold preview_one. set (c := render_context pl nodes settings).
  destruct (renderUpstream m w up c) as [[ex env]|] eqn:E; [|done].
  destruct (SourceConfig.Resolve _ _ _ _) as [conf|]; [|done]. intros [= <-]. revert E. unfold renderUpstream.
  destruct (render_all c (up_start up)) as [a|] eqn:E1; cbn [mbind result_bind]; [|done].
  destruct (render_all c (up_stop up)) as [b|] eqn:E2; cbn [mbind result_bind]; [|done].
  destruct (render_all c (by_rank _ _ _)) as [d|] eqn:E3; cbn [mbind result_bind]; [|done].
  destruct (render_all c (up_auxiliary up)) as [e|] eqn:E4; cbn [mbind result_bind]; [|done].
  destruct (render_commands c _) as [f|] eqn:E5; cbn [mbind result_bind]; [|done].
  destruct (render_env m c _) as [g|] eqn:E6; cbn [mbind result_bind]; [|done]. intros [= <- <-].
  split; simpl; [done..| | | | |]; first [by apply render_all_spec|by apply render_commands_spec|by apply render_env_spec].
Qed.

Lemma preview_all_spec m w up settings nodes pls :
  let '(pvs, e) := preview_all m w up settings nodes pls in
  Forall2 (λ pl pv, previewed m w up (render_context pl nodes settings) pl pv) (take (length pvs) pls) pvs ∧
  (e = None → length pvs = length pls).
Proof.
  induction pls as [|pl pls IH]; simpl; [by split; [constructor|]|].
  destruct (preview_one m w up settings nodes pl) as [pv|] eqn:E; [|by split; [constructor|]].
  destruct (preview_all m w up settings nodes pls) as [pvs e]. destruct IH as [IH1 IH2]. split; simpl.
  - constructor; [by apply preview_one_spec|done].
  - intros He. by rewrite IH2.
Qed.

(** The nodes of the previews are nodes of the placements, whether or not the rendering completes *)
Lemma previewUpstream_nodes fabrics m w up settings fabric nodes pls n :
  n ∈ pv_node <$> fst (previewUpstream fabrics m w up settings fabric nodes pls) → n ∈ pl_node <$> pls.
Proof.
  assert (∀ nodes, n ∈ pv_node <$> fst (preview_all m w up settings nodes pls) → n ∈ pl_node <$> pls) as H.
  { intros ns. pose proof (preview_all_spec m w up settings ns pls) as Hs. destruct (preview_all _ _ _ _ _ _) as [pvs e].
    destruct Hs as [Hf _]. simpl. intros (pv & -> & Hin)%list_elem_of_fmap.
    apply list_elem_of_lookup in Hin as [i Hi]. destruct (Forall2_lookup_r _ _ _ _ _ Hf Hi) as (pl & Hpl & Hp).
    rewrite (pd_node _ _ _ _ _ _ Hp). apply list_elem_of_fmap_2. apply lookup_take_Some in Hpl as [Hpl _]. by eapply list_elem_of_lookup_2. }
  unfold previewUpstream. destruct (_ || _); [set_solver|]. destruct fabric as [id|]; [|apply H].
  destruct (find _ _) as [[? f]|]; [|set_solver]. destruct (bind_nodes _ _ _); [apply H|set_solver].
Qed.
End previews.

(** A preview that completes shows every placed rank, in order, once: its node and rank, and the rank's own
    start, stop, container and installation commands and environment with every template replaced, optional
    settings without a value left out. *)
Theorem previewUpstream_complete format_float format_composite json_array fabrics m w up settings fabric nodes pls pvs :
  previewUpstream format_float format_composite json_array fabrics m w up settings fabric nodes pls = (pvs, None) →
  ∃ bound, Forall2 (λ pl pv, previewed format_float format_composite m w up (render_context pl bound settings) pl pv) pls pvs.
Proof.
  assert (∀ bound, preview_all format_float format_composite json_array m w up settings bound pls = (pvs, None) →
    Forall2 (λ pl pv, previewed format_float format_composite m w up (render_context pl bound settings) pl pv) pls pvs) as H.
  { intros bound E. pose proof (preview_all_spec format_float format_composite json_array m w up settings bound pls) as Hs. rewrite E in Hs. destruct Hs as [Hf Hl].
    by rewrite (Hl eq_refl), firstn_all in Hf. }
  unfold previewUpstream. destruct (_ || _); [done|]. destruct fabric as [id|]; [|eauto].
  destruct (find _ _) as [[? f]|]; [|done]. destruct (bind_nodes _ _ _) as [bound|]; [eauto|done].
Qed.

(** ** A concrete preview *)

Definition sample_execution : UpstreamExecution :=
  mkUpstream [["make"; "install"]] [(1, [["make"; "worker"]])] ["./start.sh"; "--rank=${node.rank}"] ["./stop.sh"] ["engine"] (Some 0)
    [(1, ["engine-worker"])] [] [].

Definition sample_upstream_workload : Workload :=
  mkWorkload None (mkImage "" "") [] [("HEAD", "${cluster.node.0.address}"); ("CACHE", "${setting.cache}")] [] 0 None None "" [0; 1] "" None None None
    ["host.upstream-exec"] (Some sample_execution).

Definition sample_upstream_recipe : Manifest :=
  mkManifest "" (Some (mkSource "https://example.org/engine.git" "0123" "" "")) 2 None None []
    [mkParameter "cache" "string" ANil "" true false [] "" [] None None None None []] [sample_upstream_workload] [] None None.

Definition sample_ranks : list Placement := [mkPlacement "a" "a" 0 0 "" [] ""; mkPlacement "b" "b" 1 0 "" [] ""].

Definition sample_render_nodes : gmap Z RenderNode :=
  {[ 0 := mkRenderNode "a" "10.0.0.1" "" "" "" ""; 1 := mkRenderNode "b" "10.0.0.2" "" "" "" "" ]}.

Definition sample_previews : list UpstreamPreview * option preview_error :=
  previewUpstream (λ _, "") (λ _, "") (λ _, None) [] sample_upstream_recipe sample_upstream_workload sample_execution ∅ None sample_render_nodes sample_ranks.

(** The worker's preview has its own commands, the head's address, and no value for the unset cache *)
Lemma previewUpstream_complete_witness :
  (∃ bound, Forall2 (λ pl pv, previewed (λ _, "") (λ _, "") sample_upstream_recipe sample_upstream_workload sample_execution (render_context pl bound ∅) pl pv)
     sample_ranks (fst sample_previews)) ∧
  (λ pv, (up_start (pv_execution pv), up_install (pv_execution pv), pv_environment pv)) <$> (fst sample_previews) !! 1%nat
    = Some (["./start.sh"; "--rank=1"], [["make"; "worker"]], [("HEAD", "10.0.0.1")]).
Proof.
  split; [|vm_compute; reflexivity].
  apply (previewUpstream_complete _ _ (λ _, None) [] _ _ _ _ None sample_render_nodes). vm_compute. reflexivity.
Defined.
