(* ===== verification/Plan.v ===== *)
(** * Deployment plans: [plan] of [internal/deploy/service.go], [internal/deploy/plan.go] and
    [planAcquisition] of [internal/deploy/acquisition.go]

    A plan is computed from the tables as one call reads them.  [PlanPlace] gives its placements; this file
    adds the fabric, the previews, the ports, the endpoint and the conflicts, and decides whether the plan is
    ready.  Three things are arguments: the outcome of resolving the launch settings, the acquisition preview
    of the downloads service, and the worker SSH preflight, which only adds diagnostics.  A failing database
    is not modelled, the text of diagnostics is dropped, and so is the digest of the plan. *)

From S2P Require Import Prelude GoStrings Utf8 Merge CJson Diag Inventory Leases Runs Recipe Fabric DeployState Deploy PlanPlace PlanUpstream.
Open Scope Z_scope.

(** ** What a call reads *)

Record RecipeRow := mkRecipeRow { rr_name : string; rr_version : string; rr_manifest : option Manifest }.

Record Memory := mkMemory { mem_swap_total : Z; mem_swappiness : Z }.

Record World := mkWorld {
  wd_recipes : gmap string RecipeRow;
  wd_nodes : list PlanNode;
  wd_leases : list Lease;
  wd_fabrics : list (string * FabricRow);
  wd_telemetry : gmap string (Z * option (option Memory));  (* time, decoded payload, its memory report *)
  wd_active : list (string * option string);                (* deployments wanted running, their endpoints *)
  wd_now : Z;
}.

Record PlanRequest := mkPlanRequest {
  pq_recipe : string;
  pq_policy : string;
  pq_workload : option Z;
  pq_placements : list PlacementOverride;
}.

(** The outcome of [resolveSettings] *)
Inductive settings_outcome :=
| SettingsOk (variants : gmap string string) (values : gmap string any)
| SettingsNoSSH
| SettingsErr (e : string).

(** What the downloads service is asked, and what it answers *)
Record AcquisitionRequest := mkAcquisitionRequest {
  aq_recipe : string; aq_targets : list string; aq_workload : Z; aq_variants : gmap string string }.

Record AcquisitionResource := mkAcquisitionResource {
  ar_node : string; ar_resource : string; ar_required : bool; ar_available : bool; ar_stale : bool; ar_verified : bool }.

Record Acquisition := mkAcquisition {
  aq_ready : bool; aq_diagnostics : list Diagnostic; aq_resources : list AcquisitionResource }.

(** ** The plan *)

Record ImagePreview := mkImagePreview { ip_node : string; ip_name : string; ip_reference : string; ip_digest : string }.

Record HostPreparationPreview := mkHostPreview {
  hv_node : string; hv_name : string; hv_require_swap : bool; hv_swap_total : Z; hv_swappiness : Z;
  hv_target : option Z; hv_drop_cache : bool }.

Record PortPreview := mkPortPreview {
  pp_node : string; pp_name : string; pp_host : Z; pp_container : Z; pp_protocol : string }.

Record Endpoint := mkEndpoint { ep_host : string; ep_port : Z; ep_path : string; ep_model : string }.

Definition no_endpoint : Endpoint := mkEndpoint "" 0 "" "".

Record Plan := mkPlan {
  pn_recipe : string;
  pn_name : string;
  pn_version : string;
  pn_parameters : gmap string any;
  pn_variants : gmap string string;
  pn_policy : string;
  pn_workload : Z;
  pn_missing : list AcquisitionResource;
  pn_placements : list Placement;
  pn_fabric : option string;
  pn_images : list ImagePreview;
  pn_hosts : list HostPreparationPreview;
  pn_upstream : list UpstreamPreview;
  pn_ports : list PortPreview;
  pn_endpoint : Endpoint;
  pn_risks : list string;
  pn_conflicts : list Conflict;
  pn_diagnostics : list Diagnostic;
  pn_ready : bool;
}.

Inductive plan_error := ErrPolicy | ErrRecipe | ErrManifest | ErrSettings (e : string) | ErrNoTarget | ErrNotReady.

Definition AcquisitionRequireExisting : string := "require-existing".
Definition AcquisitionDownloadMissing : string := "download-missing".

Definition acquisitionPolicy (policy : string) : option string :=
  if bool_decide (policy = "") || bool_decide (policy = AcquisitionRequireExisting) then Some AcquisitionRequireExisting
  else if bool_decide (policy = AcquisitionDownloadMissing) then Some policy
  else None.

(** [sort.Slice(placements, ...)] *)
Definition rank_le (a b : Placement) : Prop := pl_rank a ≤ pl_rank b.

#[export] Instance rank_le_dec : RelDecision rank_le.
Proof. intros a b. unfold rank_le. apply _. Defined.

Definition sort_placements (pls : list Placement) : list Placement := merge_sort rank_le pls.

(** The accelerator leases in the way, in the order of their names, when ranks are missing *)
Definition accelerator_conflicts (m : Manifest) (w : Workload) (leased : gmap string Lease) (nodes : list PlanNode) : list Conflict :=
  let blocked : gmap string Conflict := list_to_map (nodes ≫= blocked_of m w leased) in
  omap (λ r, blocked !! r) (sort_strings (fst <$> map_to_list blocked)).

(** ** Fabric *)

(** One step of the loop over the bindings: the last GID index, how many, whether they agree *)
Definition gid_step (nodeSet : list string) (st : Z * nat * bool) (b : MemberBinding) : Z * nat * bool :=
  let '(gid, matched, ok) := st in
  match mb_gid b with
  | Some g =>
      if bool_decide (mb_node b ∈ nodeSet) then (g, S matched, ok && negb ((0 <=? gid) && negb (gid =? g)))
      else st
  | None => st
  end.

Definition fabric_fits (c : FabricCompat) (nodeSet : list string) (f : FabricRow) : bool :=
  bool_decide (fb_state f = "ok")
  && (bool_decide (fc_transport c = "") || bool_decide (fb_transport f = fc_transport c))
  && forallb (λ n, bool_decide (n ∈ fb_members f)) nodeSet
  && (negb (fc_shared_gid c)
      || let '(_, matched, ok) := foldl (gid_step nodeSet) (-1, O, true) (fb_bindings f) in
         ok && (matched =? length nodeSet)%nat).

(** The plan's fabric and the diagnostic of its absence *)
Definition choose_fabric (m : Manifest) (fabrics : list (string * FabricRow)) (pls : list Placement) : option string * list Diagnostic :=
  match m_fabric m with
  | None => (None, [])
  | Some c =>
      match find (λ e, fabric_fits c (dedup (pl_node <$> pls)) (snd e)) fabrics with
      | Some e => (Some (fst e), [])
      | None => (None, [failure "fabric.unavailable"])
      end
  end.

(** ** Images and host preparation *)

Definition latestNodePayload (wd : World) (node : string) : option (option Memory) :=
  match wd_telemetry wd !! node with
  | Some (ts, Some payload) => if 30 <? wd_now wd - ts then None else Some payload
  | _ => None
  end.

(** The first placement of every node *)
Fixpoint first_of_nodes (seen : list string) (pls : list Placement) : list Placement :=
  match pls with
  | [] => []
  | pl :: pls => if bool_decide (pl_node pl ∈ seen) then first_of_nodes seen pls else pl :: first_of_nodes (pl_node pl :: seen) pls
  end.

Definition image_previews (w : Workload) (pls : list Placement) : list ImagePreview :=
  match w_upstream w with
  | Some _ => []
  | None => (λ pl, mkImagePreview (pl_node pl) (pl_name pl) (im_reference (w_image w)) (im_digest (w_image w))) <$> first_of_nodes [] pls
  end.

Definition host_preview (wd : World) (hp : HostPreparation) (pl : Placement) : HostPreparationPreview * list Diagnostic :=
  let preview total swappiness :=
    mkHostPreview (pl_node pl) (pl_name pl) (hp_require_swap hp) total swappiness (hp_swappiness hp) (hp_drop_cache hp) in
  match latestNodePayload wd (pl_node pl) with
  | Some (Some mem) =>
      let total := wrap64 (mem_swap_total mem) in
      (preview total (mem_swappiness mem),
       when (hp_require_swap hp && (total =? 0)) (Res ("node:" +:+ pl_node pl) (failure "host.swap_disabled")))
  | _ => (preview 0 0, [Res ("node:" +:+ pl_node pl) (failure "host.telemetry_unavailable")])
  end.

Definition host_previews (wd : World) (w : Workload) (pls : list Placement) : list HostPreparationPreview * list Diagnostic :=
  match w_host_preparation w with
  | None => ([], [])
  | Some hp =>
      let hs := host_preview wd hp <$> first_of_nodes [] pls in
      (fst <$> hs, hs ≫= snd)
  end.

(** ** Ports *)

Definition port_base (p : Port) : Z := if po_host p =? 0 then po_container p else po_host p.

(** The ranks that publish ports: all of them, or the coordinator of an upstream workload *)
Definition publishes (w : Workload) (pl : Placement) : bool :=
  match w_upstream w with
  | Some up => match up_coordinator up with Some r => pl_rank pl =? r | None => true end
  | None => true
  end.

Definition host_port (w : Workload) (pl : Placement) (p : Port) : Z :=
  match w_upstream w with Some _ => port_base p | None => port_base p + pl_rank pl end.

Definition port_resource (node : string) (port : Z) : string := "port:" +:+ node +:+ ":" +:+ Itoa port.

(** The ports in the order the loops visit them *)
Definition port_entries (w : Workload) (pls : list Placement) : list (Placement * Port) :=
  filter (λ pl, publishes w pl = true) pls ≫= λ pl, (λ p, (pl, p)) <$> w_ports w.

Definition port_preview (w : Workload) (e : Placement * Port) : PortPreview :=
  let '(pl, p) := e in
  mkPortPreview (pl_node pl) (pl_name pl) (wrap32 (host_port w pl p)) (wrap32 (po_container p))
    (if bool_decide (po_protocol p = "") then "tcp" else po_protocol p).

Definition node_address (cs : list candidate) (pl : Placement) : string :=
  match find (λ c, bool_decide (cd_id c = pl_node pl)) cs with Some c => cd_addr c | None => pl_name pl end.

Definition port_lease_conflicts (w : Workload) (leased : gmap string Lease) (es : list (Placement * Port)) : list Conflict :=
  omap (λ e, let resource := port_resource (pl_node (fst e)) (host_port w (fst e) (snd e)) in
             owner_conflict resource <$> leased !! resource) es.

(** The endpoints of other deployments that the plan's ports would take *)
Definition endpoint_conflicts (w : Workload) (cs : list candidate) (ignored : list string)
    (es : list (Placement * Port)) (active : list (string * option string)) : list Conflict :=
  active ≫= λ d,
    if bool_decide (fst d ∈ ignored) then []
    else match snd d with
         | None => []
         | Some endpoint =>
             match SplitHostPort endpoint with
             | None => []
             | Some (addr, portText) =>
                 match Merge.Atoi portText with
                 | None => []
                 | Some port =>
                     (λ e, mkConflict (port_resource (pl_node (fst e)) port) (fst d) (fst d)) <$>
                       filter (λ e, node_address cs (fst e) = addr ∧ host_port w (fst e) (snd e) = port) es
                 end
             end
         end.

(** A conflict without a deployment gives way to one on the same resource that names its deployment *)
Definition drop_duplicates (conflicts : list Conflict) : list Conflict :=
  let owned := cf_resource <$> filter (λ c, cf_deployment c ≠ "") conflicts in
  filter (λ c, ¬ (cf_deployment c = "" ∧ cf_resource c ∈ owned)) conflicts.

Definition settingString (values : gmap string any) (key : string) : string :=
  match values !! key with Some (AString s) => s | _ => "" end.

(** ** Acquisition *)

Definition acquisitionRequest (digest : string) (workload : Z) (variants : gmap string string) (pls : list Placement) : option AcquisitionRequest :=
  if existsb (λ pl, bool_decide (pl_node pl = "")) pls then None
  else match sort_strings (dedup (pl_node <$> pls)) with
       | [] => None
       | targets => Some (mkAcquisitionRequest digest targets workload variants)
       end.

Definition is_missing (r : AcquisitionResource) : bool :=
  ar_required r && (negb (ar_available r) || ar_stale r || negb (ar_verified r)).

Definition acquisition_findings (policy : string) (a : Acquisition) : list AcquisitionResource * list Diagnostic :=
  let missing := filter (λ r, is_missing r = true) (aq_resources a) in
  (missing,
   aq_diagnostics a
   ++ when (bool_decide (policy = AcquisitionRequireExisting) && negb (length missing =? 0)%nat) (failure "acquisition.missing_resources")
   ++ when (negb (aq_ready a) && negb (HasError (aq_diagnostics a))) (failure "acquisition.not_ready")).

(** ** Upstream *)

Definition UpstreamProtocolFeature : string := "upstream-execution-v1".
Definition UpstreamConfigurationProtocolFeature : string := "upstream-configuration-v1".

Definition advertises (cs : list candidate) (node feature : string) : bool :=
  match find (λ c, bool_decide (cd_id c = node)) cs with
  | Some c => match cd_inv c with Some inv => bool_decide (feature ∈ inv_protocol inv) | None => false end
  | None => false
  end.

Definition upstream_node (cs : list candidate) (pl : Placement) : RenderNode :=
  mkRenderNode (pl_node pl)
    (match find (λ c, bool_decide (cd_id c = pl_node pl)) cs with Some c => firstNonLoopback (cd_inv c) | None => "" end) "" "" "" "".

Definition upstream_nodes (cs : list candidate) (pls : list Placement) : gmap Z RenderNode :=
  foldl (λ ns pl, <[pl_rank pl := upstream_node cs pl]> ns) ∅ pls.

(** The leases that stand against using a node: a claim on the whole node, and for an upstream workload
    anything on it *)
Definition node_conflicts (w : Workload) (leased : gmap string Lease) (pls : list Placement) : list Conflict :=
  pls ≫= λ pl,
    let nodeLease := "upstream-node:" +:+ pl_node pl in
    omap (λ e, if bool_decide (fst e = nodeLease) || (bool_decide (is_Some (w_upstream w)) && ResourcesConflict nodeLease (fst e))
               then Some (owner_conflict (fst e) (snd e)) else None) (map_to_list leased).

Section planning.
(** Printing and parsing of values, as in [Recipe]; the acquisition preview; the worker SSH preflight *)
Context (format_float : float → string) (format_composite : json → string)
        (parse_float : string → option float) (json_array : string → option (list json))
        (downloads_plan : AcquisitionRequest → option Acquisition)
        (preview_ssh : list Placement → list UpstreamPreview → list Diagnostic).

(** The model an endpoint serves: the setting, its default, the recipe's *)
Definition endpointModelFor (m : Manifest) (values : gmap string any) : string :=
  let model := settingString values "model" in
  let model :=
    if bool_decide (model = "") then
      match EffectiveSettings format_float format_composite parse_float json_array m ∅ with
      | Ok defaults => settingString defaults "model"
      | Err _ => ""
      end
    else model in
  if bool_decide (model = "") then m_model m else model.

Definition plan_endpoint_of (m : Manifest) (w : Workload) (cs : list candidate) (values : gmap string any) (pls : list Placement) : Endpoint :=
  match w_ports w, pls with
  | p :: _, r0 :: _ =>
      mkEndpoint (node_address cs r0) (wrap32 (port_base p + pl_rank r0))
        (match w_readiness_path w with
         | Some path => if bool_decide (path = "") then default "" (w_verify_path w) else path
         | None => default "" (w_verify_path w)
         end) (endpointModelFor m values)
  | _, _ => no_endpoint
  end.

Definition upstream_stage (wd : World) (m : Manifest) (w : Workload) (cs : list candidate) (values : gmap string any)
    (fabric : option string) (pls : list Placement) : list UpstreamPreview * list Diagnostic :=
  match w_upstream w with
  | None => ([], [])
  | Some up =>
      let authority := pls ≫= λ pl, when (negb (advertises cs (pl_node pl) UpstreamProtocolFeature)) (failure "upstream.authority_unavailable") in
      let '(pvs, e) := previewUpstream format_float format_composite json_array (wd_fabrics wd) m w up values fabric (upstream_nodes cs pls) pls in
      let outcome := match e with
                     | None => Warning "upstream.host_execution" ""
                     | Some _ => failure "upstream.review_incomplete"
                     end in
      (pvs,
       authority ++ [outcome] ++ preview_ssh pls pvs
       ++ (pvs ≫= λ pv, when (negb (bool_decide (pv_configuration pv = []))
                              && negb (advertises cs (pv_node pv) UpstreamConfigurationProtocolFeature))
                          (failure "upstream.configuration_unavailable")))
  end.

(** The plan of a chosen variant *)
Definition plan_variant (wd : World) (ignored : list string) (req : PlanRequest) (row : RecipeRow) (m : Manifest) (policy : string)
    (variants : gmap string string) (values : gmap string any) (wi : nat) (w : Workload) : result plan_error Plan :=
  let nodes := wd_nodes wd in
  let leased := leased_map ignored (wd_leases wd) in
  let cs := omap (candidate_of m w leased) nodes in
  let ranks := rankList m w in
  let placing := place m w leased nodes (pq_placements req) in
  let pls := sort_placements (pg_placed placing) in
  let complete := (length pls =? length ranks)%nat in
  let blocked := if (length pls <? length ranks)%nat then accelerator_conflicts m w leased nodes else [] in
  let '(fabric, fabric_diagnostics) := choose_fabric m (wd_fabrics wd) pls in
  let '(hosts, host_diagnostics) := host_previews wd w pls in
  let es := port_entries w pls in
  let conflicts :=
    match w_ports w with
    | [] => blocked
    | _ => drop_duplicates (blocked ++ port_lease_conflicts w leased es ++ endpoint_conflicts w cs ignored es (wd_active wd))
    end in
  let acquisition :=
    if complete then
      match r ← acquisitionRequest (pq_recipe req) (Z.of_nat wi) variants pls; downloads_plan r with
      | None => Err ErrNotReady
      | Some a => Ok (acquisition_findings policy a)
      end
    else Ok ([], []) in
  match acquisition with
  | Err e => Err e
  | Ok (missing, acquisition_diagnostics) =>
      let '(upstream, upstream_diagnostics) := if complete then upstream_stage wd m w cs values fabric pls else ([], []) in
      let conflicts := conflicts ++ node_conflicts w leased pls in
      let diagnostics := pg_diagnostics placing ++ fabric_diagnostics ++ host_diagnostics ++ acquisition_diagnostics ++ upstream_diagnostics in
      Ok (mkPlan (pq_recipe req) (rr_name row) (rr_version row) values variants policy (Z.of_nat wi) missing pls fabric
            (image_previews w pls) hosts upstream (port_preview w <$> es) (plan_endpoint_of m w cs values pls)
            (HighRiskPermissions m) conflicts diagnostics
            (complete && bool_decide (conflicts = []) && negb (HasError diagnostics)))
  end.

(** The plan of a launch whose worker SSH cannot be checked *)
Definition unchecked_plan (req : PlanRequest) (row : RecipeRow) (policy : string) : Plan :=
  mkPlan (pq_recipe req) (rr_name row) (rr_version row) ∅ ∅ policy 0 [] [] None [] [] [] [] no_endpoint [] []
    [failure "upstream.worker_ssh_unavailable"] false.

Definition plan (wd : World) (settings : settings_outcome) (ignored : list string) (req : PlanRequest) : result plan_error Plan :=
  match acquisitionPolicy (pq_policy req) with
  | None => Err ErrPolicy
  | Some policy =>
      match wd_recipes wd !! pq_recipe req with
      | None => Err ErrRecipe
      | Some row =>
          match rr_manifest row with
          | None => Err ErrManifest
          | Some m =>
              match settings with
              | SettingsNoSSH => Ok (unchecked_plan req row policy)
              | SettingsErr e => Err (ErrSettings e)
              | SettingsOk variants values =>
                  match choose_workload m (wd_nodes wd) (pq_workload req) (pq_placements req) with
                  | None => Err ErrNoTarget
                  | Some (wi, w) => plan_variant wd ignored req row m policy variants values wi w
                  end
              end
          end
      end
  end.
End planning.

(** What [createPlanned] and [Start] take of a plan; [parameters] and [input] are its marshalled settings and
    the input of the run *)
Definition launch_plan (parameters : string) (input : bytes) (p : Plan) : LaunchPlan :=
  mkLaunchPlan (pn_recipe p) (pn_name p) parameters (pn_placements p) (pn_workload p)
    ((λ pv, (pv_node pv, pv_rank pv)) <$> pn_upstream p) (pn_fabric p)
    ((λ pp, (pp_node pp, pp_host pp)) <$> pn_ports p) (ep_host (pn_endpoint p)) (ep_port (pn_endpoint p)) input.

(** ** Creating a deployment from a plan *)

Inductive create_error := ErrPlanStale | ErrPlanning (e : plan_error) | ErrPlanNotReady | ErrCreate (e : deploy_error).

Section create.
(** The dispatch environment, [PlanDigest], the acquisition without downloads, and what is stored of a plan *)
Context (env : Env) (plan_digest : Plan → string) (downloads_acquire : AcquisitionRequest → bool)
        (parameters : Plan → string) (input : Plan → bytes).

(** [acquirePlan] before the commit: nothing is fetched, a plan that downloads is let through.  The targets and
    reviewed resources that the preview adds to the request are left to the downloads service. *)
Definition acquirePlan (p : Plan) : bool :=
  match acquisitionPolicy (pn_policy p) with
  | None => false
  | Some policy =>
      bool_decide (policy = AcquisitionDownloadMissing)
      || match acquisitionRequest (pn_recipe p) (pn_workload p) (pn_variants p) (pn_placements p) with
         | Some r => downloads_acquire r
         | None => false
         end
  end.

(** [Create]; [planned] is the plan computed from the request, [reviewed] the digest the operator approved *)
Definition Create (reviewed : string) (planned : result plan_error Plan) (dep run : string) (s : Service)
    : result create_error unit * Service :=
  if blank reviewed then (Err ErrPlanStale, s)
  else match planned with
       | Err e => (Err (ErrPlanning e), s)
       | Ok p =>
           if negb (bool_decide (reviewed = plan_digest p)) then (Err ErrPlanStale, s)
           else if negb (pn_ready p) then (Err ErrPlanNotReady, s)
           else if negb (acquirePlan p) then (Err ErrPlanNotReady, s)
           else match createPlanned env dep run (launch_plan (parameters p) (input p) p) s with
                | (Ok _, s) => (Ok tt, s)
                | (Err e, s) => (Err (ErrCreate e), s)
                end
       end.
End create.

(** ** A plan that is returned comes from a variant *)

Section plan_facts.
Context (format_float : float → string) (format_composite : json → string)
        (parse_float : string → option float) (json_array : string → option (list json))
        (downloads_plan : AcquisitionRequest → option Acquisition)
        (preview_ssh : list Placement → list UpstreamPreview → list Diagnostic).

Notation the_plan := (plan format_float format_composite parse_float json_array downloads_plan preview_ssh).
Notation the_variant := (plan_variant format_float format_composite parse_float json_array downloads_plan preview_ssh).
Notation stage := (upstream_stage format_float format_composite json_array preview_ssh).

Lemma first_variant_spec m nodes overrides i ws j w :
  first_variant m nodes overrides i ws = Some (j, w) → (i ≤ j)%nat ∧ ws !! (j - i)%nat = Some w.
Proof.
  revert i. induction ws as [|x ws IH]; intros i; simpl; [done|]. destruct (variantMatchesNodes _ _ _ _).
  - intros [= -> ->]. by rewrite Nat.sub_diag.
  - intros [Hle Hl]%IH. split; [lia|]. by replace (j - i)%nat with (S (j - S i)) by lia.
Qed.

Lemma choose_workload_spec m nodes index overrides i w :
  choose_workload m nodes index overrides = Some (i, w) → m_workloads m !! i = Some w.
Proof.
  unfold choose_workload. destruct index as [z|].
  - destruct (z <? 0); [done|]. destruct (m_workloads m !! Z.to_nat z) eqn:E; [|done]. by intros [= <- <-].
  - destruct nodes as [|n nodes], (m_workloads m) as [|x ws] eqn:E; try done.
    + by intros [= <- <-].
    + intros [_ H]%first_variant_spec. by rewrite Nat.sub_0_r in H.
Qed.

(** The parts of a ready plan *)
Record ready_parts (wd : World) (ignored : list string) (req : PlanRequest) (m : Manifest) (w : Workload) (p : Plan) : Prop := {
  rp_placements : pn_placements p = sort_placements (pg_placed (place m w (leased_map ignored (wd_leases wd)) (wd_nodes wd) (pq_placements req)));
  rp_complete : length (pn_placements p) = length (rankList m w);
  rp_ports : pn_ports p = port_preview w <$> port_entries w (pn_placements p);
  rp_upstream n : n ∈ pv_node <$> pn_upstream p → is_Some (w_upstream w) ∧ n ∈ pl_node <$> pn_placements p;
  rp_port_leases : w_ports w ≠ [] →
    port_lease_conflicts w (leased_map ignored (wd_leases wd)) (port_entries w (pn_placements p)) = [];
  rp_node_leases : node_conflicts w (leased_map ignored (wd_leases wd)) (pn_placements p) = [];
  rp_fabric : m_fabric m = None → pn_fabric p = None;
  rp_fabric_some c : m_fabric m = Some c →
    ∃ id f, pn_fabric p = Some id ∧ (id, f) ∈ wd_fabrics wd ∧ fabric_fits c (dedup (pl_node <$> pn_placements p)) f = true;
  rp_missing : pn_policy p = AcquisitionRequireExisting → pn_missing p = [];
  rp_conflicts : pn_conflicts p = [];
  rp_diagnostics : HasError (pn_diagnostics p) = false;
}.

Lemma drop_duplicates_nil conflicts : drop_duplicates conflicts = [] → conflicts = [].
Proof.
  unfold drop_duplicates. set (owned := cf_resource <$> _). intros H.
  assert (∀ c, c ∈ conflicts → cf_deployment c = "" ∧ cf_resource c ∈ owned) as Hall.
  { intros c Hc. destruct (decide (cf_deployment c = "" ∧ cf_resource c ∈ owned)) as [|Hn]; [done|].
    assert (c ∈ drop_duplicates conflicts) as Hin by (apply list_elem_of_filter; done).
    unfold drop_duplicates in Hin. fold owned in Hin. rewrite H in Hin. set_solver. }
  destruct conflicts as [|c cs]; [done|]. exfalso. destruct (Hall c) as [_ Ho]; [set_solver|].
  unfold owned in Ho. apply list_elem_of_fmap in Ho as (d & _ & [Hd Hin]%list_elem_of_filter). by destruct (Hall d Hin).
Qed.

Lemma HasError_concat xs ys : HasError (xs ++ ys) = HasError xs || HasError ys.
Proof. apply existsb_app. Qed.

Lemma upstream_stage_nodes wd m w cs values fabric pls n :
  n ∈ pv_node <$> fst (stage wd m w cs values fabric pls) → is_Some (w_upstream w) ∧ n ∈ pl_node <$> pls.
Proof.
  unfold upstream_stage. destruct (w_upstream w) as [up|]; [|set_solver].
  pose proof (previewUpstream_nodes format_float format_composite json_array (wd_fabrics wd) m w up values fabric (upstream_nodes cs pls) pls n) as H.
  destruct (previewUpstream _ _ _ _ _ _ _ _ _ _ _) as [pvs e]. intros Hn. split; [done|by apply H].
Qed.

Lemma plan_variant_ready wd ignored req row m policy variants values wi w p :
  the_variant wd ignored req row m policy variants values wi w = Ok p → pn_ready p = true →
  ready_parts wd ignored req m w p.
Proof.
  unfold plan_variant. set (leased := leased_map ignored (wd_leases wd)).
  set (pls := sort_placements _). set (cs := omap _ _). set (es := port_entries w pls).
  destruct (choose_fabric m (wd_fabrics wd) pls) as [fabric fd] eqn:Ef. destruct (host_previews wd w pls) as [hosts hd].
  set (blocked := if (_ <? _)%nat then _ else _).
  destruct (length pls =? length (rankList m w))%nat eqn:Hc; [|by intros [= <-]].
  destruct (r ← acquisitionRequest _ _ _ _; downloads_plan r) as [a|]; [|done].
  destruct (acquisition_findings policy a) as [missing ad] eqn:Ea.
  destruct (stage wd m w cs values fabric pls) as [upstream ud] eqn:Eu.
  intros [= <-]. cbn [pn_ready andb]. intros [Hn He]%andb_prop.
  apply Nat.eqb_eq in Hc. apply bool_decide_eq_true in Hn as Hconf. apply negb_true_iff in He.
  apply app_nil in Hconf as Hsplit. destruct Hsplit as [Hk Hnl]. rewrite !HasError_concat in He.
  rewrite !orb_false_iff in He. destruct He as (He1 & He2 & He3 & He4 & He5).
  split; cbn [pn_placements pn_ports pn_upstream pn_fabric pn_conflicts pn_diagnostics pn_policy pn_missing]; try done.
  - intros n Hin. apply (upstream_stage_nodes wd m w cs values fabric pls). rewrite Eu. done.
  - intros Hp. destruct (w_ports w); [done|]. apply drop_duplicates_nil in Hk. apply app_nil in Hk as [_ Hk]. by apply app_nil in Hk as [Hk _].
  - intros Hm. unfold choose_fabric in Ef. rewrite Hm in Ef. by injection Ef as <- <-.
  - intros c Hm. unfold choose_fabric in Ef. rewrite Hm in Ef.
    destruct (find _ (wd_fabrics wd)) as [[id f]|] eqn:Efind; injection Ef as <- <-; [|done].
    apply find_some in Efind as [Hin Hfit]. apply list_elem_of_In in Hin. by exists id, f.
  - intros Hp. injection Ea as <- <-. rewrite Hp in He4.
    rewrite bool_decide_eq_true_2, !HasError_concat in He4 by done. destruct (length _ =? 0)%nat eqn:El in He4.
    + apply Nat.eqb_eq in El. by apply nil_length_inv.
    + exfalso. simpl in He4. by rewrite orb_true_r in He4.
  - by rewrite !HasError_concat, He1, He2, He3, He4, He5.
Qed.

Lemma plan_ready_variant wd settings ignored req p :
  the_plan wd settings ignored req = Ok p → pn_ready p = true →
  ∃ row m w, wd_recipes wd !! pq_recipe req = Some row ∧ rr_manifest row = Some m ∧
    m_workloads m !! Z.to_nat (pn_workload p) = Some w ∧ ready_parts wd ignored req m w p.
Proof.
  unfold plan. destruct (acquisitionPolicy _) as [policy|]; [|done].
  destruct (wd_recipes wd !! _) as [row|] eqn:Er; [|done]. destruct (rr_manifest row) as [m|] eqn:Em; [|done].
  destruct settings as [variants values| |e]; [|by intros [= <-]|done].
  destruct (choose_workload _ _ _ _) as [[wi w]|] eqn:Ew; [|done]. intros Hp Hr. exists row, m, w.
  assert (pn_workload p = Z.of_nat wi) as Hwi.
  { revert Hp. unfold plan_variant. destruct (choose_fabric _ _ _), (host_previews _ _ _).
    destruct (if (_ =? _)%nat then _ else _) as [[]|]; [|done]. destruct (if (_ =? _)%nat then _ else _). by intros [= <-]. }
  split_and!; [done..| |by eapply plan_variant_ready]. rewrite Hwi, Nat2Z.id. by eapply choose_workload_spec.
Qed.
End plan_facts.

(** ** The leases of a ready plan *)

Lemma leased_map_lookup ignored ls l :
  l ∈ ls → l_active l = true → (l_kind l = "deployment" → l_owner l ∉ ignored) →
  is_Some (leased_map ignored ls !! l_resource l).
Proof.
  intros Hin Ha Hi. unfold leased_map.
  assert (l ∈ ActiveLeasesWithOwners ls) as Hl by (apply list_elem_of_filter; done). revert Hl.
  set (f := λ (leased : gmap string Lease) (l : Lease), if _ && _ then leased else <[l_resource l := l]> leased).
  assert (∀ rest (acc : gmap string Lease), is_Some (acc !! l_resource l) ∨ l ∈ rest → is_Some (foldl f acc rest !! l_resource l)) as H.
  { induction rest as [|x rest IH]; intros acc; simpl; [intros [?|?]; [done|set_solver]|].
    intros Hx. apply IH. unfold f. destruct (decide (x = l)) as [->|Hne].
    - left. rewrite (proj2 (andb_false_iff _ _)); [by rewrite lookup_insert_eq|].
      destruct (decide (l_kind l = "deployment")) as [E|E]; [right|left]; apply bool_decide_eq_false_2; auto.
    - destruct Hx as [Hx|[?|?]%elem_of_cons]; [|congruence|by right]. left. destruct (_ && _); [done|].
      destruct (decide (l_resource x = l_resource l)) as [->|]; [by rewrite lookup_insert_eq|by rewrite lookup_insert_ne]. }
  intros Hl. apply H. by right.
Qed.

(** A device or port of a node conflicts only with itself and with a claim on the whole node *)
Lemma managed_conflict kind n x held :
  kind = "gpu" ∨ kind = "port" → contains_byte colon n = false →
  held ≠ kind +:+ ":" +:+ n +:+ ":" +:+ x → held ≠ "upstream-node:" +:+ n →
  ResourcesConflict (kind +:+ ":" +:+ n +:+ ":" +:+ x) held = false.
Proof.
  intros Hk Hn Hne Hnode. unfold ResourcesConflict. rewrite bool_decide_eq_false_2 by congruence.
  apply orb_false_iff. split; [by destruct Hk as [-> | ->]|].
  unfold upstreamNodeConflict, cut_prefix. destruct (has_prefix "upstream-node:" held) eqn:E; [|done].
  apply has_prefix_spec in E as [node ->]. rewrite sdrop_app. cbn [negb orb]. case_bool_decide; [done|].
  assert (cut colon (kind +:+ ":" +:+ n +:+ ":" +:+ x) = (kind, n +:+ ":" +:+ x, true)) as ->.
  { apply (cut_app colon kind). by destruct Hk as [-> | ->]. }
  cbn [negb]. assert (cut colon (n +:+ ":" +:+ x) = (n, x, true)) as -> by by apply cut_node.
  destruct Hk as [-> | ->]; simpl; apply bool_decide_eq_false_2; congruence.
Qed.

Lemma node_conflicts_nil w leased pls pl held l :
  node_conflicts w leased pls = [] → pl ∈ pls → leased !! held = Some l →
  held ≠ "upstream-node:" +:+ pl_node pl ∧
  (is_Some (w_upstream w) → ResourcesConflict ("upstream-node:" +:+ pl_node pl) held = false).
Proof.
  intros Hnil Hpl Hl. set (nodeLease := "upstream-node:" +:+ pl_node pl).
  destruct (bool_decide (held = nodeLease) || (bool_decide (is_Some (w_upstream w)) && ResourcesConflict nodeLease held)) eqn:E.
  - exfalso. assert (owner_conflict held l ∈ node_conflicts w leased pls) as Hin; [|rewrite Hnil in Hin; set_solver].
    unfold node_conflicts. apply list_elem_of_bind. exists pl. split; [|done]. cbn zeta. fold nodeLease.
    apply list_elem_of_omap. exists (held, l). split; [by apply elem_of_map_to_list|]. cbn [fst snd]. by rewrite E.
  - apply orb_false_iff in E as [E1%bool_decide_eq_false E2]. split; [done|]. intros Hu.
    by rewrite bool_decide_eq_true_2 in E2.
Qed.

(** Ports of the schema's range stay within [int32] whatever rank is added *)
Definition ports_fit (m : Manifest) : Prop :=
  ∀ w p r, w ∈ m_workloads m → p ∈ w_ports w → r = 0 ∨ r ∈ rankList m w → - 2 ^ 31 ≤ port_base p + r < 2 ^ 31.

Lemma wrap32_id z : - 2 ^ 31 ≤ z < 2 ^ 31 → wrap32 z = z.
Proof. intros Hz. unfold wrap32, wrap_signed. rewrite Z.mod_small by lia. lia. Qed.

Section ready_facts.
Context (wd : World) (ignored : list string) (req : PlanRequest) (m : Manifest) (w : Workload) (p : Plan).
Context (ready : ready_parts wd ignored req m w p).

Notation leased := (leased_map ignored (wd_leases wd)).

Lemma placements_perm :
  pn_placements p ≡ₚ pg_placed (place m w leased (wd_nodes wd) (pq_placements req)).
Proof. rewrite (rp_placements _ _ _ _ _ _ ready). apply merge_sort_Permutation. Qed.

(** A rank of the plan: its node is in the fleet, and its devices are not leased *)
Lemma ready_placement pl : pl ∈ pn_placements p →
  (∃ n, n ∈ wd_nodes wd ∧ pl_node pl = n_id n) ∧ (pl_accelerators pl = [] → pl_uuid pl = "") ∧
  ∀ u, u ∈ pl_accelerators pl → leased !! gpu_resource (pl_node pl) u = None.
Proof.
  rewrite placements_perm. intros (c & (n & Hn & Hc)%list_elem_of_omap & Hf)%(po_fits _ _ _ _ (place_ok m w leased _ _)).
  apply candidate_of_spec in Hc as (Hid & _ & Hg & _). pose proof (fit_node _ _ _ _ Hf) as En. split_and!.
  - exists n. split; [done|congruence].
  - intros E. destruct (ra_required (accelRequirement m)) eqn:Er; [by destruct (fit_some _ _ _ _ Hf Er)|].
    by apply (fit_none _ _ _ _ Hf).
  - intros u (a & Ha & <-)%(fit_free _ _ _ _ Hf). rewrite En, Hid. by apply Hg.
Qed.

Lemma ready_ranks : pl_rank <$> pn_placements p ≡ₚ rankList m w.
Proof.
  apply submseteq_length_Permutation.
  - rewrite placements_perm. apply place_ranks.
  - rewrite length_fmap. by rewrite (rp_complete _ _ _ _ _ _ ready).
Qed.

Context (w_in : w ∈ m_workloads m).
Context (ids : ∀ n, n ∈ wd_nodes wd → contains_byte colon (n_id n) = false).
Context (ports : ports_fit m) (fabricless : pn_fabric p = None).

Lemma ready_port e : e ∈ port_entries w (pn_placements p) →
  fst e ∈ pn_placements p ∧ snd e ∈ w_ports w ∧
  pp_host (port_preview w e) = host_port w (fst e) (snd e) ∧
  leased !! port_resource (pl_node (fst e)) (host_port w (fst e) (snd e)) = None.
Proof.
  intros He. assert (fst e ∈ pn_placements p ∧ snd e ∈ w_ports w) as [Hpl Hp].
  { unfold port_entries in He. apply list_elem_of_bind in He as (pl & (po & -> & Hpo)%list_elem_of_fmap & Hpl).
    apply list_elem_of_filter in Hpl as [_ Hpl]. done. }
  split_and!; [done..| |].
  - destruct e as [pl po]. simpl. apply wrap32_id. unfold host_port. destruct (w_upstream w).
    + rewrite <- (Z.add_0_r (port_base po)). apply (ports w); auto.
    + apply (ports w); auto. right. rewrite <- ready_ranks. by apply list_elem_of_fmap_2.
  - destruct (leased !! _) as [l|] eqn:E; [|done]. exfalso.
    assert (w_ports w ≠ []) as Hne by (intros E'; rewrite E' in Hp; set_solver).
    assert (owner_conflict (port_resource (pl_node (fst e)) (host_port w (fst e) (snd e))) l
              ∈ port_lease_conflicts w leased (port_entries w (pn_placements p))) as Hin.
    { apply list_elem_of_omap. exists e. split; [done|]. cbn zeta. by rewrite E. }
    rewrite (rp_port_leases _ _ _ _ _ _ ready Hne) in Hin. set_solver.
Qed.

(** No active lease stands against a resource of the plan *)
Lemma ready_no_conflict parameters input r held l :
  r ∈ LeaseResources (launch_plan parameters input p) → leased !! held = Some l → ResourcesConflict r held = false.
Proof.
  intros Hr Hl. pose proof (rp_node_leases _ _ _ _ _ _ ready) as Hnl. revert Hr.
  unfold LeaseResources. rewrite elem_of_sort_strings, elem_of_dedup, !elem_of_app. cbn [launch_plan lp_upstream lp_placements lp_fabric lp_ports].
  rewrite fabricless. intros [Hr|[Hr|[Hr|Hr]]].
  - apply list_elem_of_fmap in Hr as (x & -> & (pv & -> & Hpv)%list_elem_of_fmap).
    destruct (rp_upstream _ _ _ _ _ _ ready (pv_node pv)) as [Hu (pl & Epl & Hpl)%list_elem_of_fmap]; [by apply list_elem_of_fmap_2|].
    cbn [fst]. rewrite Epl. by apply (node_conflicts_nil w leased (pn_placements p) pl held l).
  - apply list_elem_of_bind in Hr as (pl & Hr & Hpl). destruct (ready_placement pl Hpl) as ((n & Hn & En) & Hnone & Hfree).
    unfold gpu_resources in Hr. destruct (pl_accelerators pl) as [|a us] eqn:Ea.
    { rewrite Hnone in Hr by done. rewrite bool_decide_eq_true_2 in Hr by done. set_solver. }
    rewrite <- Ea in *. apply list_elem_of_fmap in Hr as (u & -> & Hu).
    apply (managed_conflict "gpu"); [by left|rewrite En; by apply ids| |].
    + intros ->. pose proof (Hfree u Hu) as E. unfold gpu_resource in E. simpl in *. congruence.
    + by apply (node_conflicts_nil w leased (pn_placements p) pl held l).
  - set_solver.
  - apply list_elem_of_fmap in Hr as (x & -> & Hx). apply list_elem_of_fmap in Hx as (pp & -> & Hpp).
    rewrite (rp_ports _ _ _ _ _ _ ready) in Hpp. apply list_elem_of_fmap in Hpp as (e & -> & He).
    destruct (ready_port e He) as (Hpl & _ & Hh & Hfree). destruct (ready_placement (fst e) Hpl) as ((n & Hn & En) & _).
    cbn [fst snd]. rewrite Hh. replace (pp_node (port_preview w e)) with (pl_node (fst e)) by by destruct e.
    apply (managed_conflict "port"); [by right|rewrite En; by apply ids| |].
    + intros ->. unfold port_resource in Hfree. simpl in *. congruence.
    + by apply (node_conflicts_nil w leased (pn_placements p) (fst e) held l).
Qed.
End ready_facts.

#[local] Instance rank_le_trans : Transitive rank_le.
Proof. intros a b c. unfold rank_le. lia. Qed.
#[local] Instance rank_le_total : Total rank_le.
Proof. intros a b. unfold rank_le. lia. Qed.

Lemma sort_placements_ranks pls : StronglySorted Z.le (pl_rank <$> sort_placements pls).
Proof.
  assert (StronglySorted rank_le (sort_placements pls)) as H by (apply StronglySorted_merge_sort; apply _).
  induction H as [|pl l _ IH Hall]; [constructor|]. rewrite fmap_cons. constructor; [done|].
  apply Forall_fmap. by eapply Forall_impl; [exact Hall|].
Qed.

Lemma rankList_sorted m w : StronglySorted Z.le (rankList m w).
Proof. apply StronglySorted_merge_sort; apply _. Qed.

(** C19: a plan is ready only when it is complete: the ranks it places are exactly the ranks of the chosen variant,
    in order; it has no conflict and no error; where the recipe needs a fabric it names one that is in order,
    has the recipe's transport and spans the placed nodes; and under the policy that downloads nothing every
    required resource was found, verified and current. *)
Theorem ready_plan_complete format_float format_composite parse_float json_array downloads_plan preview_ssh wd settings ignored req p :
  plan format_float format_composite parse_float json_array downloads_plan preview_ssh wd settings ignored req = Ok p →
  pn_ready p = true →
  ∃ row m w, wd_recipes wd !! pq_recipe req = Some row ∧ rr_manifest row = Some m ∧
    m_workloads m !! Z.to_nat (pn_workload p) = Some w ∧
    pl_rank <$> pn_placements p = rankList m w ∧ pn_conflicts p = [] ∧ HasError (pn_diagnostics p) = false ∧
    (∀ c, m_fabric m = Some c → ∃ id f, pn_fabric p = Some id ∧ (id, f) ∈ wd_fabrics wd ∧ fb_state f = "ok" ∧
       (fc_transport c = "" ∨ fb_transport f = fc_transport c) ∧ ∀ pl, pl ∈ pn_placements p → pl_node pl ∈ fb_members f) ∧
    (pn_policy p = AcquisitionRequireExisting → pn_missing p = []).
Proof.
  intros Hp Hr. destruct (plan_ready_variant _ _ _ _ _ _ _ _ _ _ _ Hp Hr) as (row & m & w & Hrow & Hm & Hw & H).
  exists row, m, w. split_and!; [done..| | | | |].
  - apply (StronglySorted_unique Z.le).
    + rewrite (rp_placements _ _ _ _ _ _ H). apply sort_placements_ranks.
    + apply rankList_sorted.
    + by eapply ready_ranks.
  - by apply (rp_conflicts _ _ _ _ _ _ H).
  - by apply (rp_diagnostics _ _ _ _ _ _ H).
  - intros c Hc. destruct (rp_fabric_some _ _ _ _ _ _ H c Hc) as (id & f & Hid & Hin & Hfit). exists id, f.
    unfold fabric_fits in Hfit. rewrite !andb_true_iff, orb_true_iff, !bool_decide_eq_true in Hfit.
    destruct Hfit as (((Hs & Ht) & Hmem) & _). split_and!; [done..|]. intros pl Hpl.
    rewrite forallb_forall in Hmem. specialize (Hmem (pl_node pl)). rewrite <- list_elem_of_In, elem_of_dedup, bool_decide_eq_true in Hmem.
    apply Hmem. by apply list_elem_of_fmap_2.
  - by apply (rp_missing _ _ _ _ _ _ H).
Qed.

(** The resources of a ready plan without a fabric can be acquired in the state the plan was computed from *)
Lemma ready_plan_acquirable format_float format_composite parse_float json_array downloads_plan preview_ssh wd settings ignored req p
    dep parameters input :
  plan format_float format_composite parse_float json_array downloads_plan preview_ssh wd settings ignored req = Ok p →
  pn_ready p = true → pn_fabric p = None →
  (∀ l, l ∈ wd_leases wd → l_active l = true → l_kind l = "deployment" → l_owner l ∉ ignored) →
  (∀ n, n ∈ wd_nodes wd → contains_byte colon (n_id n) = false) →
  (∀ row m, wd_recipes wd !! pq_recipe req = Some row → rr_manifest row = Some m → ports_fit m) →
  acquirable "deployment" dep (LeaseResources (launch_plan parameters input p)) (wd_leases wd).
Proof.
  intros Hp Hr Hfab Hidle Hids Hports. set (resources := LeaseResources _).
  destruct (plan_ready_variant _ _ _ _ _ _ _ _ _ _ _ Hp Hr) as (row & m & w & Hrow & Hm & Hw & H).
  assert (∀ r l, r ∈ resources → l ∈ wd_leases wd → l_active l = true → ResourcesConflict r (l_resource l) = false) as Hfree.
  { intros r l Hin Hl Ha. destruct (leased_map_lookup ignored (wd_leases wd) l Hl Ha) as [l' Hl']; [intros; by eapply Hidle|].
    eapply ready_no_conflict; [exact H|by eapply list_elem_of_lookup_2|exact Hids|by eapply Hports|exact Hfab|exact Hin|exact Hl']. }
  split; [split_and!|].
  - by left.
  - unfold resources, LeaseResources. rewrite sort_strings_perm. apply NoDup_dedup.
  - intros r l Hin Hl Ha E. specialize (Hfree r l Hin Hl Ha). rewrite E, ResourcesConflict_refl in Hfree. done.
  - intros r l Hin Hl Ha E. specialize (Hfree r l Hin Hl Ha). congruence.
Qed.

Lemma commit_launch_ok env dep run p g :
  dep ∈ lg_deployments g → lg_runs g !! run = None → acquirable "deployment" dep (LeaseResources p) (lg_leases g) →
  is_ok (commit_launch env dep run p g) = true.
Proof.
  intros Hd Hr Ha. unfold commit_launch, CreateRun, acquire_leases, get, modify, throw, mbind, ST_bind.
  rewrite bool_decide_eq_false_2 by (rewrite Hr; by intros []). simpl. rewrite bool_decide_eq_true_2 by done. simpl.
  by destruct (AcquireLeases_cases "deployment" dep (LeaseResources p) (lg_leases g)) as [[-> _]|(e & _ & ?)].
Qed.


(** ** On concrete fleets *)

Definition sample_plan (wd : World) : result plan_error Plan :=
  plan (λ _, "") (λ _, "") (λ _, None) (λ _, None) (λ _, Some (mkAcquisition true [] [])) (λ _ _, [])
    wd (SettingsOk ∅ ∅) [] (mkPlanRequest "sha256:r" "" None []).

Definition sample_world (m : Manifest) (nodes : list PlanNode) (leases : list Lease) (fabrics : list (string * FabricRow)) : World :=
  mkWorld {[ "sha256:r" := mkRecipeRow "engine" "1" (Some m) ]} nodes leases fabrics ∅ [] 0.

(** Two ranks on a fleet where another deployment holds one device *)
Definition busy_world : World :=
  sample_world (sample_recipe (sample_variant [0; 1] [mkPort 8000 0 ""] None)) two_hosts
    [mkLease "gpu:a:a0" "deployment" "other" true; mkLease "port:a:8000" "deployment" "gone" false] [].

(** The plan of a call that returns one *)
Definition plan_of (r : result plan_error Plan) : Plan :=
  match r with Ok p => p | Err _ => unchecked_plan (mkPlanRequest "" "" None []) (mkRecipeRow "" "" None) "" end.

Notation sample wd := (plan_of (sample_plan wd)).

Lemma busy_plan : sample_plan busy_world = Ok (sample busy_world) ∧ pn_ready (sample busy_world) = true ∧ pn_fabric (sample busy_world) = None.
Proof. by vm_compute. Qed.

Lemma busy_ids n : n ∈ wd_nodes busy_world → contains_byte colon (n_id n) = false.
Proof. intros Hn. repeat (apply elem_of_cons in Hn as [->|Hn]; [reflexivity|]). by apply not_elem_of_nil in Hn. Qed.

Lemma busy_ports row m : wd_recipes busy_world !! "sha256:r" = Some row → rr_manifest row = Some m → ports_fit m.
Proof.
  intros Hrow Hm. vm_compute in Hrow. injection Hrow as <-. injection Hm as <-.
  intros w0 p0 r Hw Hp0 Hr. apply list_elem_of_singleton in Hw as ->. apply list_elem_of_singleton in Hp0 as ->.
  assert (r = 0 ∨ r = 1) as [-> | ->]; [|vm_compute; split; [discriminate|reflexivity]..].
  destruct Hr as [?|Hr]; [by left|]. vm_compute in Hr. set_solver.
Qed.

Definition busy_service : Service :=
  set_ledger (set_leases (λ _, wd_leases busy_world))
    (mkService ∅ {[ "sha256:r" := sample_recipe (sample_variant [0; 1] [mkPort 8000 0 ""] None) ]} (empty_ledger ∅) ∅ ∅ ∅ ∅ [] 0%N).

Definition quiet_env : Env := mkEnv "2025-01-01T00:00:00Z" (λ _, true) (λ _, true) (λ _ _, Ok false) (λ _ _, Ok tt) (λ _, None) (λ _, (true, "")).


Lemma ready_plan_complete_witness : ∃ w, pl_rank <$> pn_placements (sample busy_world) = rankList (sample_recipe w) w.
Proof.
  destruct busy_plan as (E & Hr & _).
  destruct (ready_plan_complete _ _ _ _ _ _ _ _ _ _ _ E Hr) as (row & m & w & Hrow & Hm & Hw & Hranks & _).
  vm_compute in Hrow. injection Hrow as <-. injection Hm as <-. vm_compute in Hw. injection Hw as <-. eexists. exact Hranks.
Defined.

(** ** What a ready plan does not promise *)

(** A recipe on two nodes of a fabric that another deployment holds *)
Definition fabric_recipe : Manifest :=
  let w := sample_variant [0; 1] [] None in
  mkManifest "model" None 0 (Some (mkAccCompat "nvidia" [] 2 0 [])) (Some (mkFabricCompat "tcp" false)) [] [] [w] [] None None.

Definition fabric_world : World :=
  sample_world fabric_recipe two_hosts [mkLease "fabric:f" "deployment" "other" true]
    [("f", mkFabric "f" "tcp" ["a"; "b"] [] "ok" [] "1")].

(** The leases of fabrics are not among the conflicts of a plan: a plan on a fabric that another deployment holds
    is ready, and creating the deployment then fails on the lease. *)
Theorem ready_plan_held_fabric :
  pn_ready (sample fabric_world) = true ∧ pn_conflicts (sample fabric_world) = [] ∧
  pn_fabric (sample fabric_world) = Some "f" ∧
  fst (transact (AcquireLeases "deployment" "d" (LeaseResources (launch_plan "{}" [] (sample fabric_world)))) (wd_leases fabric_world))
    = Err (ErrLeaseConflict "fabric:f" "fabric:f" "other").
Proof. by vm_compute. Qed.

(** Two ranks that fit on one node, two ports next to each other *)
Definition shared_world : World :=
  sample_world (sample_recipe (sample_variant [0; 1] [mkPort 8000 0 ""; mkPort 8001 0 ""] None))
    two_hosts [] [].

(** The ports of a plan are compared with those of others and not with each other: two ranks on one node whose
    ports are offset by their ranks publish the same host port, and the plan is ready; the lease of the port is
    taken once. *)
Theorem ready_plan_port_twice :
  pn_ready (sample shared_world) = true ∧
  ((λ pp, (pp_node pp, pp_host pp)) <$> pn_ports (sample shared_world) = [("a", 8000); ("a", 8001); ("a", 8001); ("a", 8002)]) ∧
  LeaseResources (launch_plan "{}" [] (sample shared_world)) = ["gpu:a:a0"; "gpu:a:a1"; "port:a:8000"; "port:a:8001"; "port:a:8002"].
Proof. by vm_compute. Qed.
