(* ===== verification/UpdateRun.v ===== *)
(** * Replacing deployments: the coordinator of [internal/deploy/update.go]

    A repository update replaces selected deployments by deployments of a saved version: it acquires what the
    replacements need, then stops one source after the other, starts its replacement and waits until that is
    healthy; on an error or a cancellation it stops the replacements and restores the sources in reverse order.
    The goroutine [coordinateRepositoryUpdate] is a machine whose program counter names the waits of the code;
    one step runs it to its next wait.  Between two steps the deployment service does what it wants, so the
    machine is interleaved with the steps of [DeployInv].

    [Oracle] holds what a step learns from outside: new identifiers, the outcome of an acquisition, a fresh plan,
    the outcome of planning inside [Start].  Runs that only install packages, and the input of older runs without
    [saved_version_replacement], are not modelled; neither is the end of the process while a wait is pending,
    other than as a restart; error texts are dropped.  [co_trace] records the calls and observations of one incarnation. *)

From S2P Require Import Prelude GoStrings Utf8 CJson Diag Inventory Leases Runs Recipe DeployState Deploy DeployInv PlanPlace PlanUpstream Plan.
Open Scope Z_scope.

(** ** Data *)

(** The acquisition preview that a plan carries; [pv_rest] stands for what no function here looks at *)
Record PreviewResource := mkPreviewResource {
  vr_key : string;
  vr_node : string;
  vr_required : bool;
  vr_action : string;
  vr_source_node : string;
  vr_source_path : string;
  vr_credential : string;
  vr_state : string;
  vr_stale : bool;
  vr_verified_at : option string;
}.

Record Preview := mkPreview { pw_resources : list PreviewResource; pw_rest : string }.

Record RepositoryUpdateDeployment := mkUpdateDeployment {
  ud_source : string;
  ud_digest : string;
  ud_was_stopped : bool;
  ud_parameters : gmap string any;
  ud_placement : placementSet;
  ud_fabric : string;
  ud_workload : Z;
  ud_variants : gmap string string;
  ud_plan : Plan;
  ud_preview : option Preview;            (* the acquisition that [DeploymentPlan] carries *)
  ud_current : list string;
  ud_added : list string;
  ud_removed : list string;
}.

Record RepositoryUpdateDevice := mkRepositoryUpdateDevice {
  rv_node : string; rv_name : string; rv_status : string; rv_digests : list string }.

Record RepositoryUpdateTarget := mkUpdateTarget {
  ut_source : string;
  ut_replacement : string;
  ut_node : string;
  ut_node_status : string;
  ut_rank : Z;
  ut_status : string;
  ut_phase : string;
  ut_step : Z;
  ut_code : string;
}.

(** [repositoryUpdateDeviceProgress] *)
Record UpdateDevice := mkUpdateDevice { dv_device : RepositoryUpdateDevice; dv_status : string; dv_phase : string; dv_step : Z }.

Record repositoryUpdateProgress := mkUpdateProgress {
  up_phase : string;
  up_devices : list UpdateDevice;
  up_completed_devices : Z;
  up_hardware : list RepositoryUpdateTarget;
  up_completed_hardware : Z;
}.

Record UpdateInput := mkUpdateInput {
  ui_target : string;
  ui_devices : list RepositoryUpdateDevice;
  ui_targets : list RepositoryUpdateTarget;
  ui_deployments : list RepositoryUpdateDeployment;
}.

(** Whether the error that ends the forward part is the cancellation *)
Inductive update_error := UErrCancelled | UErrFailed.

(** Where the goroutine waits.  [rest] are the deployments still to do, [err] is what ended the forward part,
    [bad] whether a rollback error was recorded *)
Inductive UpdatePC :=
| UBegin
| UAcquire (rest : list RepositoryUpdateDeployment)
| UNext (rest : list RepositoryUpdateDeployment)
| UStopping (d : RepositoryUpdateDeployment) (rest : list RepositoryUpdateDeployment)
| UEnsure (d : RepositoryUpdateDeployment) (rest : list RepositoryUpdateDeployment)
| UWaiting (d : RepositoryUpdateDeployment) (replacement : string) (rest : list RepositoryUpdateDeployment)
| UFinish
| UCommit
| URollback (err : update_error) (bad : bool) (rest : list RepositoryUpdateDeployment)
| URollStop (err : update_error) (bad : bool) (d : RepositoryUpdateDeployment) (replacement : string) (rest : list RepositoryUpdateDeployment)
| URestore (err : update_error) (bad : bool) (d : RepositoryUpdateDeployment) (rest : list RepositoryUpdateDeployment)
| URestoreWait (err : update_error) (bad : bool) (d : RepositoryUpdateDeployment) (rest : list RepositoryUpdateDeployment)
| UHealthy (err : update_error) (bad : bool) (d : RepositoryUpdateDeployment) (rest : list RepositoryUpdateDeployment)
| UDone.

(** What the coordinator did and saw, of a deployment id *)
Inductive Act :=
| ActAcquired (source : string)
| ActStop (dep : string)
| ActSawStopped (dep : string)
| ActStart (dep : string)
| ActCreate (dep : string)
| ActReplace (source replacement : string)
| ActSawHealthy (dep : string)
| ActGaveUp (source : string)            (* a rollback error *)
| ActComplete (to : State) (code : string).

#[export] Instance Act_eq_dec : EqDecision Act.
Proof. solve_decision. Defined.

Record Coordinator := mkCoordinator {
  co_service : Service;
  co_run : string;
  co_input : UpdateInput;
  co_progress : repositoryUpdateProgress;
  co_saved : repositoryUpdateProgress;    (* the progress column of the run *)
  co_pc : UpdatePC;
  co_trace : list Act;
}.

Record Oracle := mkOracle {
  or_env : Env;
  or_dep : string;
  or_run : string;
  or_acquired : bool;
  or_plan : result plan_error (Plan * option Preview);
  or_start : result deploy_error LaunchPlan;
  or_node : string → option string;
}.

(** ** Progress *)

Definition set_targets (source : string) (f : RepositoryUpdateTarget → RepositoryUpdateTarget) (p : repositoryUpdateProgress)
    : repositoryUpdateProgress :=
  mkUpdateProgress (up_phase p) (up_devices p) (up_completed_devices p)
    ((λ t, if bool_decide (ut_source t = source) then f t else t) <$> up_hardware p) (up_completed_hardware p).

Definition set_phase (phase : string) (p : repositoryUpdateProgress) : repositoryUpdateProgress :=
  mkUpdateProgress phase (up_devices p) (up_completed_devices p) (up_hardware p) (up_completed_hardware p).

Definition with_status (status phase : string) (t : RepositoryUpdateTarget) : RepositoryUpdateTarget :=
  mkUpdateTarget (ut_source t) (ut_replacement t) (ut_node t) (ut_node_status t) (ut_rank t) status phase (ut_step t) (ut_code t).
Definition with_step (step : Z) (t : RepositoryUpdateTarget) : RepositoryUpdateTarget :=
  mkUpdateTarget (ut_source t) (ut_replacement t) (ut_node t) (ut_node_status t) (ut_rank t) (ut_status t) (ut_phase t) step (ut_code t).
Definition with_code (code : string) (t : RepositoryUpdateTarget) : RepositoryUpdateTarget :=
  mkUpdateTarget (ut_source t) (ut_replacement t) (ut_node t) (ut_node_status t) (ut_rank t) (ut_status t) (ut_phase t) (ut_step t) code.
Definition with_replacement (id : string) (t : RepositoryUpdateTarget) : RepositoryUpdateTarget :=
  mkUpdateTarget (ut_source t) id (ut_node t) (ut_node_status t) (ut_rank t) (ut_status t) (ut_phase t) (ut_step t) (ut_code t).
Definition with_node_status (status : string) (t : RepositoryUpdateTarget) : RepositoryUpdateTarget :=
  mkUpdateTarget (ut_source t) (ut_replacement t) (ut_node t) status (ut_rank t) (ut_status t) (ut_phase t) (ut_step t) (ut_code t).

Definition countSucceededDevices (ds : list UpdateDevice) : Z := Z.of_nat (length (filter (λ d, dv_status d = "succeeded") ds)).
Definition countSucceededHardware (ts : list RepositoryUpdateTarget) : Z := Z.of_nat (length (filter (λ t, ut_status t = "succeeded") ts)).

Definition count_progress (p : repositoryUpdateProgress) : repositoryUpdateProgress :=
  mkUpdateProgress (up_phase p) (up_devices p) (countSucceededDevices (up_devices p)) (up_hardware p) (countSucceededHardware (up_hardware p)).

Definition repositoryUpdateDeviceProgressFrom (ds : list RepositoryUpdateDevice) : list UpdateDevice :=
  (λ d, mkUpdateDevice d "pending" "fetching" 0) <$> ds.

Definition initial_progress (i : UpdateInput) : repositoryUpdateProgress :=
  mkUpdateProgress "installing_recipe" (repositoryUpdateDeviceProgressFrom (ui_devices i)) 0 (ui_targets i) 0.

Definition updateStepForDispatch (p : Phase) : Z * string :=
  match p with
  | PhasePrepared => (2, "pulling")
  | PhasePulled => (3, "starting")
  | PhaseCreated | PhaseHostPreparing | PhaseHostPrepared | PhaseVerifying => (3, "starting")
  | PhaseStarted => (4, "verifying")
  | _ => (1, "preparing")
  end.

Definition updateOverallPhase (ts : list RepositoryUpdateTarget) (source : string) : string :=
  foldl (λ phase t, if bool_decide (ut_source t = source) && negb (bool_decide (ut_phase t = "")) then ut_phase t else phase) "preparing" ts.

(** The loop of [anyUpdateNodeOffline], which refreshes the node states up to the first offline one *)
Fixpoint refresh_nodes (o : Oracle) (source : string) (ts : list RepositoryUpdateTarget) : list RepositoryUpdateTarget * bool :=
  match ts with
  | [] => ([], false)
  | t :: ts =>
      if negb (bool_decide (ut_source t = source)) then let '(ts, off) := refresh_nodes o source ts in (t :: ts, off)
      else
        let t := match or_node o (ut_node t) with Some status => with_node_status status t | None => t end in
        if negb (e_online (or_env o) (ut_node t)) then (t :: ts, true)
        else let '(ts, off) := refresh_nodes o source ts in (t :: ts, off)
  end.

Definition replacement_of (ts : list RepositoryUpdateTarget) (source : string) : option string :=
  ut_replacement <$> List.find (λ t, bool_decide (ut_source t = source) && negb (bool_decide (ut_replacement t = ""))) ts.

(** The replacement keeps every rank on its node and accelerator *)
Definition preservedPlacementMismatch (source target : list Placement) : bool :=
  negb (length source =? length target)%nat
  || existsb (λ expected,
       match List.find (λ a, pl_rank a =? pl_rank expected) (reverse target) with
       | None => true
       | Some actual =>
           negb (bool_decide (pl_node actual = pl_node expected))
           || (negb (bool_decide (pl_uuid expected = "")) && negb (bool_decide (pl_uuid actual = pl_uuid expected)))
       end) source.

(** ** Whether a fresh plan is the reviewed one, its downloads done *)

Definition verified (r : PreviewResource) : bool :=
  bool_decide (vr_state r = "available") && negb (vr_stale r) && bool_decide (is_Some (vr_verified_at r)).

(** What the review approved for the same resource *)
Definition approve (approved r : PreviewResource) : PreviewResource :=
  mkPreviewResource (vr_key r) (vr_node r) (vr_required r) (vr_action approved) (vr_source_node approved)
    (vr_source_path approved) (vr_credential approved) (vr_state r) (vr_stale r) (vr_verified_at r).

Definition normalize_resource (reviewed : list PreviewResource) (r : PreviewResource) : PreviewResource :=
  if negb (bool_decide (vr_action r = "reuse")) || negb (verified r) then r
  else match List.find (λ a, bool_decide (vr_key a = vr_key r) && bool_decide (vr_node a = vr_node r)) reviewed with
       | Some a => approve a r
       | None => r
       end.

Definition normalize (reviewed fresh : Preview) : Preview :=
  mkPreview (normalize_resource (pw_resources reviewed) <$> pw_resources fresh) (pw_rest fresh).

Definition replacementPlanMatchesAfterAcquisition (plan_digest : Plan → option Preview → string)
    (reviewed : Plan * option Preview) (fresh : Plan * option Preview) : bool :=
  match snd fresh, snd reviewed with
  | Some fa, Some ra =>
      forallb (λ r, negb (vr_required r) || verified r) (pw_resources fa)
      && (bool_decide (plan_digest (fst fresh) (snd fresh) = plan_digest (fst reviewed) (snd reviewed))
          || bool_decide (plan_digest (fst fresh) (Some (normalize ra fa)) = plan_digest (fst reviewed) (snd reviewed)))
  | _, _ => false
  end.

Section coordinator.
(** The JSON of the parameters, of the run's input, progress and output, and the digest of a plan *)
Context (marshalParameters : gmap string any → string) (plan_input : Plan → bytes)
        (input_json : UpdateInput → list (string * json))
        (progress_json : repositoryUpdateProgress → list (string * json))
        (output_json : repositoryUpdateProgress → list (string * json))
        (plan_digest : Plan → option Preview → string).

Definition with_service (f : Service → Service) (c : Coordinator) : Coordinator :=
  mkCoordinator (f (co_service c)) (co_run c) (co_input c) (co_progress c) (co_saved c) (co_pc c) (co_trace c).
Definition with_progress (f : repositoryUpdateProgress → repositoryUpdateProgress) (c : Coordinator) : Coordinator :=
  mkCoordinator (co_service c) (co_run c) (co_input c) (f (co_progress c)) (co_saved c) (co_pc c) (co_trace c).
Definition goto (pc : UpdatePC) (c : Coordinator) : Coordinator :=
  mkCoordinator (co_service c) (co_run c) (co_input c) (co_progress c) (co_saved c) pc (co_trace c).
Definition act (a : Act) (c : Coordinator) : Coordinator :=
  mkCoordinator (co_service c) (co_run c) (co_input c) (co_progress c) (co_saved c) (co_pc c) (co_trace c ++ [a]).

Definition row_of (c : Coordinator) (dep : string) : option DepRow := sv_deployments (co_service c) !! dep.

Definition persistUpdateProgress (c : Coordinator) : Coordinator :=
  let p := count_progress (co_progress c) in
  mkCoordinator (ledger (SetProgress (co_run c) (progress_json p)) (co_service c)) (co_run c) (co_input c) p p (co_pc c) (co_trace c).

Definition setUpdateTargets (source : string) (f : RepositoryUpdateTarget → RepositoryUpdateTarget) : Coordinator → Coordinator :=
  with_progress (set_targets source f).

Definition updateCancelled (c : Coordinator) : bool :=
  match lg_runs (sv_ledger (co_service c)) !! co_run c with
  | Some r => bool_decide (r_state r = Cancelling)
  | None => false
  end.

(** [rollbackRepositoryUpdate] begins *)
Definition fail (err : update_error) (c : Coordinator) : Coordinator :=
  goto (URollback err false (reverse (ui_deployments (co_input c))))
    (persistUpdateProgress (with_progress (set_phase "rolling_back") c)).

Definition wait_offline (o : Oracle) (source : string) (c : Coordinator) : Coordinator :=
  let '(ts, off) := refresh_nodes o source (up_hardware (co_progress c)) in
  let c := with_progress (λ p, mkUpdateProgress (up_phase p) (up_devices p) (up_completed_devices p) ts (up_completed_hardware p)) c in
  if off then persistUpdateProgress (setUpdateTargets source (with_status "waiting" "waiting_offline") (with_progress (set_phase "waiting_offline") c))
  else c.

(** ** The forward part *)

(** [stopUpdateSource] up to its loop *)
Definition begin_stop (o : Oracle) (d : RepositoryUpdateDeployment) (rest : list RepositoryUpdateDeployment) (c : Coordinator) : Coordinator :=
  let c := setUpdateTargets (ud_source d) (with_status "running" "stopping_old") c in
  let c := persistUpdateProgress (with_progress (set_phase "stopping_old") c) in
  match row_of c (ud_source d) with
  | None => fail UErrFailed c
  | Some row =>
      if bool_decide (d_desired row = DRunning) then
        let '(r, s) := Stop (or_env o) (ud_source d) (co_service c) in
        let c := act (ActStop (ud_source d)) (with_service (λ _, s) c) in
        match r with
        | Ok _ | Err ErrDeployState => goto (UStopping d rest) c
        | Err _ => fail UErrFailed c
        end
      else goto (UStopping d rest) c
  end.

(** One turn of its loop *)
Definition poll_stop (o : Oracle) (d : RepositoryUpdateDeployment) (rest : list RepositoryUpdateDeployment) (c : Coordinator) : Coordinator :=
  match row_of c (ud_source d) with
  | None => fail UErrFailed c
  | Some row =>
      if bool_decide (d_observed row = OStopped) then
        let c := setUpdateTargets (ud_source d) (λ t, with_status (ut_status t) "preparing" (with_step (Z.max (ut_step t) 1) t)) c in
        goto (UEnsure d rest) (act (ActSawStopped (ud_source d)) (persistUpdateProgress c))
      else wait_offline o (ud_source d) c
  end.

(** [GetDeploymentByRecipeParametersPlacement] *)
Definition find_deployment (recipe parameters : string) (ps : placementSet) (s : Service) : option (string * DepRow) :=
  List.find (λ e, bool_decide (d_recipe (snd e) = recipe) && bool_decide (d_parameters (snd e) = parameters)
                  && bool_decide (d_placement (snd e) = ps)) (map_to_list (sv_deployments s)).

Definition launch_of (p : Plan) : LaunchPlan := launch_plan (marshalParameters (pn_parameters p)) (plan_input p) p.

Definition valueOr (v : option string) : string := default "" v.

(** The fresh plan that a replacement may be created from *)
Definition fresh_usable (d : RepositoryUpdateDeployment) (fresh : Plan) (preview : option Preview) : bool :=
  replacementPlanMatchesAfterAcquisition plan_digest (ud_plan d, ud_preview d) (fresh, preview) && pn_ready fresh
  && negb (preservedPlacementMismatch (pn_placements (ud_plan d)) (pn_placements fresh))
  && (pn_workload fresh =? pn_workload (ud_plan d)) && bool_decide (valueOr (pn_fabric fresh) = ud_fabric d).

Definition record_replacement (d : RepositoryUpdateDeployment) (id : string) (c : Coordinator) : Coordinator :=
  let c := setUpdateTargets (ud_source d) (λ t, with_status "running" "preparing" (with_replacement id t)) c in
  act (ActReplace (ud_source d) id) (persistUpdateProgress (with_progress (set_phase "preparing") c)).

Definition ensureUpdateReplacement (o : Oracle) (d : RepositoryUpdateDeployment) (c : Coordinator) : option string * Coordinator :=
  match replacement_of (up_hardware (co_progress c)) (ud_source d) with
  | Some id => (Some id, act (ActReplace (ud_source d) id) c)
  | None =>
      let lp := launch_of (ud_plan d) in
      match find_deployment (ui_target (co_input c)) (lp_parameters lp) (placementSetFromPlan lp) (co_service c) with
      | Some (id, row) =>
          if startable row then
            match Start (or_env o) id (or_run o) (or_start o) (co_service c) with
            | (Ok _, s) => (Some id, record_replacement d id (act (ActStart id) (with_service (λ _, s) c)))
            | (Err _, s) => (None, with_service (λ _, s) c)
            end
          else (Some id, record_replacement d id c)
      | None =>
          match or_plan o with
          | Err _ => (None, c)
          | Ok (fresh, preview) =>
              if negb (fresh_usable d fresh preview) then (None, c)
              else match createPlanned (or_env o) (or_dep o) (or_run o) (launch_of fresh) (co_service c) with
                   | (Ok _, s) => (Some (or_dep o), record_replacement d (or_dep o) (act (ActCreate (or_dep o)) (with_service (λ _, s) c)))
                   | (Err _, s) => (None, with_service (λ _, s) c)
                   end
          end
      end
  end.

Definition ensure (o : Oracle) (d : RepositoryUpdateDeployment) (rest : list RepositoryUpdateDeployment) (c : Coordinator) : Coordinator :=
  if updateCancelled c then fail UErrCancelled c
  else match ensureUpdateReplacement o d c with
       | (None, c) => fail UErrFailed c
       | (Some id, c) => goto (UWaiting d id rest) c
       end.

(** The progress of the targets from the replacement's row *)
Definition observe_target (row : DepRow) (t : RepositoryUpdateTarget) : RepositoryUpdateTarget :=
  let '(step, ph) := updateStepForDispatch (phase row (ut_rank t)) in
  let t := if ut_step t <? step then with_step step t else t in
  let t := with_status "running" ph t in
  if bool_decide (d_observed row = OHealthy) then with_status "succeeded" "ready" (with_step 5 t) else t.

(** The run of the replacement ended without it *)
Definition run_ended (row : DepRow) (s : Service) : bool :=
  match d_run row with
  | Some run => match lg_runs (sv_ledger s) !! run with
                | Some r => bool_decide (r_state r = Failed) || bool_decide (r_state r = Interrupted)
                | None => false
                end
  | None => false
  end.

(** One turn of [waitUpdateReplacement] *)
Definition poll_replacement (o : Oracle) (d : RepositoryUpdateDeployment) (id : string) (rest : list RepositoryUpdateDeployment) (c : Coordinator) : Coordinator :=
  if updateCancelled c then fail UErrCancelled c
  else match row_of c id with
       | None => fail UErrFailed c
       | Some row =>
           let c := setUpdateTargets (ud_source d) (observe_target row) c in
           let c := persistUpdateProgress (with_progress (λ p, set_phase (updateOverallPhase (up_hardware p) (ud_source d)) p) c) in
           if bool_decide (d_observed row = OHealthy) then goto (UNext rest) (act (ActSawHealthy id) c)
           else if bool_decide (d_observed row = OFailed) || negb (bool_decide (d_desired row = DRunning)) then fail UErrFailed c
           else if run_ended row (co_service c) then fail UErrFailed c else wait_offline o (ud_source d) c
       end.

(** ** Rollback *)

Definition restored (err : update_error) (bad : bool) (d : RepositoryUpdateDeployment) (rest : list RepositoryUpdateDeployment) (c : Coordinator) : Coordinator :=
  goto (URollback err bad rest) (persistUpdateProgress (setUpdateTargets (ud_source d) (with_status "failed" "restored") c)).

(** A rollback error: the targets are marked, and the next deployment is turned to *)
Definition abandon (err : update_error) (d : RepositoryUpdateDeployment) (rest : list RepositoryUpdateDeployment) (c : Coordinator) : Coordinator :=
  let c := setUpdateTargets (ud_source d) (λ t, with_code "recipe.rollback_failed" (with_status "failed" "rollback_failed" t)) c in
  goto (URollback err true rest) (act (ActGaveUp (ud_source d)) c).

Definition rolling_back (d : RepositoryUpdateDeployment) (c : Coordinator) : Coordinator :=
  persistUpdateProgress (setUpdateTargets (ud_source d) (with_status "running" "rolling_back") (with_progress (set_phase "rolling_back") c)).

(** The replacement is stopped, unless it is *)
Definition roll_replacement (o : Oracle) (err : update_error) (bad : bool) (d : RepositoryUpdateDeployment) (rest : list RepositoryUpdateDeployment) (c : Coordinator) : Coordinator :=
  match replacement_of (up_hardware (co_progress c)) (ud_source d) with
  | None => goto (URestore err bad d rest) c
  | Some id =>
      match row_of c id with
      | None => goto (URestore err true d rest) (act (ActGaveUp (ud_source d)) c)
      | Some row =>
          let c := if bool_decide (d_desired row = DRunning)
                   then act (ActStop id) (with_service (λ s, snd (Stop (or_env o) id s)) c) else c in
          if bool_decide (d_observed row = OStopped) then goto (URestore err bad d rest) (act (ActSawStopped id) c)
          else goto (URollStop err bad d id rest) (rolling_back d c)
      end
  end.

Definition poll_rollstop (err : update_error) (bad : bool) (d : RepositoryUpdateDeployment) (id : string) (rest : list RepositoryUpdateDeployment) (c : Coordinator) : Coordinator :=
  match row_of c id with
  | None => goto (URestore err true d rest) (act (ActGaveUp (ud_source d)) c)
  | Some row =>
      if bool_decide (d_observed row = OStopped) then goto (URestore err bad d rest) (act (ActSawStopped id) c)
      else rolling_back d c
  end.

(** [Start] of the source, once it is not stopping *)
Definition restore_start (o : Oracle) (err : update_error) (bad : bool) (d : RepositoryUpdateDeployment) (rest : list RepositoryUpdateDeployment) (row : DepRow) (c : Coordinator) : Coordinator :=
  if bool_decide (d_desired row = DStopped) then
    match Start (or_env o) (ud_source d) (or_run o) (or_start o) (co_service c) with
    | (Ok _, s) => goto (UHealthy err bad d rest) (act (ActStart (ud_source d)) (with_service (λ _, s) c))
    | (Err _, s) => abandon err d rest (with_service (λ _, s) c)
    end
  else goto (UHealthy err bad d rest) c.

Definition still_stopping (row : DepRow) : bool :=
  negb (bool_decide (d_observed row = OStopped)) && bool_decide (d_desired row = DStopped).

Definition restore (o : Oracle) (err : update_error) (bad : bool) (d : RepositoryUpdateDeployment) (rest : list RepositoryUpdateDeployment) (c : Coordinator) : Coordinator :=
  if ud_was_stopped d then restored err bad d rest c
  else
    let c := persistUpdateProgress (setUpdateTargets (ud_source d) (with_status "running" "restoring_old") (with_progress (set_phase "restoring_old") c)) in
    match row_of c (ud_source d) with
    | None => goto (URollback err true rest) (act (ActGaveUp (ud_source d)) c)
    | Some row => if still_stopping row then goto (URestoreWait err bad d rest) c else restore_start o err bad d rest row c
    end.

Definition poll_restore (o : Oracle) (err : update_error) (bad : bool) (d : RepositoryUpdateDeployment) (rest : list RepositoryUpdateDeployment) (c : Coordinator) : Coordinator :=
  match row_of c (ud_source d) with
  | None => abandon err d rest c
  | Some row => if still_stopping row then c else restore_start o err bad d rest row c
  end.

Definition poll_healthy (err : update_error) (bad : bool) (d : RepositoryUpdateDeployment) (rest : list RepositoryUpdateDeployment) (c : Coordinator) : Coordinator :=
  match row_of c (ud_source d) with
  | None => persistUpdateProgress (abandon err d rest c)
  | Some row =>
      if bool_decide (d_observed row = OHealthy) then restored err bad d rest (act (ActSawHealthy (ud_source d)) c)
      else if bool_decide (d_observed row = OFailed) then persistUpdateProgress (abandon err d rest c)
      else c
  end.

(** ** The end *)

Definition complete (o : Oracle) (to : State) (code message : string) (c : Coordinator) : Coordinator :=
  let c := with_service (ledger (SetOutput (co_run c) (output_json (co_progress c)))) c in
  goto UDone (act (ActComplete to code) (with_service (ledger (Complete (co_run c) (e_now (or_env o)) to code message)) c)).

Definition commit (o : Oracle) (c : Coordinator) : Coordinator :=
  let ready p :=
    mkUpdateProgress "ready" ((λ d, mkUpdateDevice (dv_device d) "succeeded" "ready" 2) <$> up_devices p) (up_completed_devices p)
      ((λ t, with_status "succeeded" "ready" (with_step 5 t)) <$> up_hardware p) (up_completed_hardware p) in
  complete o Succeeded "" "" (persistUpdateProgress (with_progress ready c)).

Definition rolled_back (o : Oracle) (err : update_error) (bad : bool) (c : Coordinator) : Coordinator :=
  if bad then
    complete o Failed "recipe.rollback_failed" "" (persistUpdateProgress (with_progress (set_phase "rollback_failed") c))
  else
    let c := persistUpdateProgress (with_progress (set_phase "restored") c) in
    match err with
    | UErrCancelled => complete o Cancelled "run.cancelled" "recipe update cancelled and source deployments restored" c
    | UErrFailed => if updateCancelled c
                    then complete o Cancelled "run.cancelled" "recipe update cancelled and source deployments restored" c
                    else complete o Failed "recipe.update_failed" "" c
    end.

(** ** One step *)

Definition begin (o : Oracle) (c : Coordinator) : Coordinator :=
  match lg_runs (sv_ledger (co_service c)) !! co_run c with
  | None => goto UDone c
  | Some r =>
      let p := co_saved c in
      let p := if (bool_decide (length (up_devices p) = 0%nat) && negb (bool_decide (length (ui_devices (co_input c)) = 0%nat)))
                  || (bool_decide (length (up_hardware p) = 0%nat) && negb (bool_decide (length (ui_targets (co_input c)) = 0%nat)))
               then initial_progress (co_input c) else p in
      let c := with_progress (λ _, p) c in
      if bool_decide (r_state r = Cancelling) then fail UErrCancelled c
      else goto (UAcquire (ui_deployments (co_input c))) (with_service (SetRunState (e_now (or_env o)) (co_run c) Running "" "") c)
  end.

Definition co_step (o : Oracle) (c : Coordinator) : Coordinator :=
  match co_pc c with
  | UBegin => begin o c
  | UAcquire [] => if updateCancelled c then fail UErrCancelled c else goto (UNext (ui_deployments (co_input c))) c
  | UAcquire (d :: rest) =>
      if updateCancelled c then fail UErrCancelled c
      else if or_acquired o then goto (UAcquire rest) (act (ActAcquired (ud_source d)) c) else fail UErrFailed c
  | UNext [] => goto UFinish c
  | UNext (d :: rest) => if updateCancelled c then fail UErrCancelled c else begin_stop o d rest c
  | UStopping d rest => poll_stop o d rest c
  | UEnsure d rest => ensure o d rest c
  | UWaiting d id rest => poll_replacement o d id rest c
  | UFinish =>
      if updateCancelled c then fail UErrCancelled c
      else goto UCommit (with_service (SetRunState (e_now (or_env o)) (co_run c) Verifying "" "") c)
  | UCommit => commit o c
  | URollback err bad [] => rolled_back o err bad c
  | URollback err bad (d :: rest) => roll_replacement o err bad d rest c
  | URollStop err bad d id rest => poll_rollstop err bad d id rest c
  | URestore err bad d rest => restore o err bad d rest c
  | URestoreWait err bad d rest => poll_restore o err bad d rest c
  | UHealthy err bad d rest => poll_healthy err bad d rest c
  | UDone => c
  end.

(** [createReplacement] of an accepted plan: the run with its first progress, and the goroutine *)
Definition start_replacement (now rid : string) (i : UpdateInput) (s : Service) : result run_error Coordinator :=
  match Runs.Create rid now "library" "recipe-update" (input_json i) "" (sv_ledger s) with
  | (Err e, _) => Err e
  | (Ok _, g) =>
      let p := initial_progress i in
      let s := ledger (SetProgress rid (progress_json p)) (set_ledger (λ _, g) s) in
      let s := SetRunState now rid Waiting "" "" (SetRunState now rid Planning "" "" s) in
      Ok (mkCoordinator s rid i p p UBegin [])
  end.

(** A restart of the controller: the goroutine begins again on what the run's row holds *)
Definition resume (c : Coordinator) : Coordinator :=
  mkCoordinator (restart (co_service c)) (co_run c) (co_input c) (co_saved c) (co_saved c) UBegin [].

(** [CancelRepositoryUpdate] *)
Definition CancelRepositoryUpdate (now : string) (c : Coordinator) : Coordinator :=
  match lg_runs (sv_ledger (co_service c)) !! co_run c with
  | Some r => if bool_decide (r_kind r = "recipe-update") then with_service (ledger (Cancel (co_run c) now)) c else c
  | None => c
  end.

(** The coordinator among everything else *)
Inductive sys_step : Coordinator → Coordinator → Prop :=
| sys_coordinator o c : sys_step c (co_step o c)
| sys_service s c : step (co_service c) s → sys_step c (with_service (λ _, s) c)
| sys_cancel now c : sys_step c (CancelRepositoryUpdate now c).

(** ... and across restarts of the controller *)
Definition life (c c' : Coordinator) : Prop := sys_step c c' ∨ c' = resume c.
End coordinator.
