(* ===== verification/UpdateInv.v ===== *)
(** * What the update coordinator of [UpdateRun] does

    The calls and observations of a coordinator form a word.  [forward] is the language of replacing deployments one
    after the other, [rolled] that of taking the replacements back and restoring the sources; an invariant indexed by
    the program counter places every reachable coordinator in them.  A measure on the program counter bounds the
    steps between two waits, and the invariant of the deployment service survives the coordinator. *)

From S2P Require Import Prelude GoStrings Utf8 CJson Diag Inventory Leases Runs Recipe DeployState Deploy DeployInv PlanPlace PlanUpstream Plan UpdateRun.
Open Scope Z_scope.

(** ** Languages *)

Definition acquired (ds : list RepositoryUpdateDeployment) : list Act := (λ d, ActAcquired (ud_source d)) <$> ds.

(** At most one action out of [as] *)
Definition perhaps (choices t : list Act) : Prop := t = [] ∨ ∃ a, a ∈ choices ∧ t = [a].

Definition stopped_part (source : string) (t : list Act) : Prop :=
  ∃ u, perhaps [ActStop source] u ∧ t = u ++ [ActSawStopped source].

Definition replaced_part (source id : string) (t : list Act) : Prop :=
  ∃ u, perhaps [ActStart id; ActCreate id] u ∧ t = u ++ [ActReplace source id].

(** Every deployment is seen stopped, then replaced, then its replacement seen healthy, before the next is touched *)
Inductive forward : list (RepositoryUpdateDeployment * string) → list Act → Prop :=
| forward_nil : forward [] []
| forward_snoc dis t d id s r :
    forward dis t → stopped_part (ud_source d) s → replaced_part (ud_source d) id r →
    forward (dis ++ [(d, id)]) (t ++ s ++ r ++ [ActSawHealthy id]).

(** What a forward part that was given up has done *)
Definition attempt (ds : list RepositoryUpdateDeployment) (t : list Act) : Prop :=
  ∃ dis u, dis.*1 = ds ∧ forward dis u ∧ t `prefix_of` acquired ds ++ u.

(** The replacement of [d], when one is recorded, is seen stopped; [b] when that failed *)
Definition undone (ts : list RepositoryUpdateTarget) (d : RepositoryUpdateDeployment) (b : bool) (t : list Act) : Prop :=
  match replacement_of ts (ud_source d) with
  | None => t = [] ∧ b = false
  | Some id => ∃ u, perhaps [ActStop id] u ∧ t = u ++ [if b then ActGaveUp (ud_source d) else ActSawStopped id]
  end.

(** [d], unless it was stopped before the update, is seen healthy; [b] when that failed *)
Definition brought_back (d : RepositoryUpdateDeployment) (b : bool) (t : list Act) : Prop :=
  if ud_was_stopped d then t = [] ∧ b = false
  else ∃ u, perhaps [ActStart (ud_source d)] u
            ∧ t = u ++ [if b then ActGaveUp (ud_source d) else ActSawHealthy (ud_source d)].

(** A rollback of [ds] in this order; the flag says whether an error was recorded *)
Inductive rolled (ts : list RepositoryUpdateTarget) : list RepositoryUpdateDeployment → bool → list Act → Prop :=
| rolled_nil : rolled ts [] false []
| rolled_snoc ds bad t d b u b' v :
    rolled ts ds bad t → undone ts d b u → brought_back d b' v → rolled ts (ds ++ [d]) (bad || b || b') (t ++ u ++ v).

(** How a coordinator ends *)
Definition outcome (ds : list RepositoryUpdateDeployment) (ts : list RepositoryUpdateTarget) (t : list Act) : Prop :=
  (∃ dis u, dis.*1 = ds ∧ forward dis u ∧ t = acquired ds ++ u ++ [ActComplete Succeeded ""])
  ∨ (∃ a r, attempt ds a ∧ rolled ts (reverse ds) false r ∧
       (t = a ++ r ++ [ActComplete Cancelled "run.cancelled"] ∨ t = a ++ r ++ [ActComplete Failed "recipe.update_failed"]))
  ∨ (∃ a r, attempt ds a ∧ rolled ts (reverse ds) true r ∧ t = a ++ r ++ [ActComplete Failed "recipe.rollback_failed"]).

Lemma perhaps_none choices : perhaps choices [].
Proof. by left. Qed.
Lemma perhaps_one choices a : a ∈ choices → perhaps choices [a].
Proof. intros. right. eauto. Qed.
#[export] Hint Resolve perhaps_none perhaps_one : core.

Lemma forward_extend dis t ds : forward dis t → ∃ dis' t', dis'.*1 = dis.*1 ++ ds ∧ forward dis' (t ++ t').
Proof.
  intros Hf. induction ds as [|d ds IH] using rev_ind.
  - exists dis, []. by rewrite !app_nil_r.
  - destruct IH as (dis' & t' & E & Hf').
    eexists (dis' ++ [(d, "")]), (t' ++ [ActSawStopped (ud_source d)] ++ [ActReplace (ud_source d) ""] ++ [ActSawHealthy ""]).
    split; [by rewrite fmap_app, E, app_assoc|]. rewrite app_assoc. apply forward_snoc; [done|by exists []|by exists []].
Qed.

Lemma attempt_here done rest dis u t :
  dis.*1 = done → forward dis u → t `prefix_of` acquired (done ++ rest) ++ u → attempt (done ++ rest) t.
Proof.
  intros <- Hf Hp. destruct (forward_extend dis u rest Hf) as (dis' & t' & E & Hf'). exists dis', (u ++ t').
  split_and!; [done|done|]. rewrite app_assoc. by apply prefix_app_r.
Qed.

(** A word cut inside the next deployment *)
Lemma attempt_inside done d rest dis u id s r t :
  dis.*1 = done → forward dis u → stopped_part (ud_source d) s → replaced_part (ud_source d) id r →
  t `prefix_of` s ++ r ++ [ActSawHealthy id] → attempt (done ++ d :: rest) (acquired (done ++ d :: rest) ++ u ++ t).
Proof.
  intros E Hf Hs Hr Hp. replace (done ++ d :: rest) with ((done ++ [d]) ++ rest) by by rewrite <-app_assoc.
  apply (attempt_here _ _ (dis ++ [(d, id)]) (u ++ s ++ r ++ [ActSawHealthy id])).
  - by rewrite fmap_app, E.
  - by apply forward_snoc.
  - by do 2 apply prefix_app.
Qed.

(** ** The invariant *)

(** The parts of a target that the language looks at *)
Definition keys (ts : list RepositoryUpdateTarget) : list (string * string) := (λ t, (ut_source t, ut_replacement t)) <$> ts.

Lemma replacement_of_keys ts ts' source : keys ts = keys ts' → replacement_of ts source = replacement_of ts' source.
Proof.
  revert ts'. induction ts as [|t ts IH]; intros [|t' ts'] E; simplify_eq/=; [done|].
  unfold replacement_of in *. simpl. destruct t, t'; simplify_eq/=. case_match; [done|]. by apply IH.
Qed.

Lemma undone_keys ts ts' d b t : keys ts = keys ts' → undone ts d b t → undone ts' d b t.
Proof. unfold undone. intros E. by rewrite (replacement_of_keys ts ts' _ E). Qed.

Lemma rolled_keys ts ts' ds bad t : keys ts = keys ts' → rolled ts ds bad t → rolled ts' ds bad t.
Proof. intros E. induction 1; econstructor; eauto using undone_keys. Qed.

(** How far into the rollback of [done ++ [d]] the word has got *)
Definition rolling (ts : list RepositoryUpdateTarget) (ds done : list RepositoryUpdateDeployment) (bad : bool) (u t : list Act) : Prop :=
  ∃ a r, attempt ds a ∧ rolled ts done bad r ∧ t = a ++ r ++ u.

Definition pc_inv (ds : list RepositoryUpdateDeployment) (ts : list RepositoryUpdateTarget) (pc : UpdatePC) (t : list Act) : Prop :=
  match pc with
  | UBegin => t = []
  | UAcquire rest => ∃ done, ds = done ++ rest ∧ t = acquired done
  | UNext rest => ∃ dis u, ds = dis.*1 ++ rest ∧ forward dis u ∧ t = acquired ds ++ u
  | UStopping d rest => ∃ dis u s, ds = dis.*1 ++ d :: rest ∧ forward dis u ∧ perhaps [ActStop (ud_source d)] s
                          ∧ t = acquired ds ++ u ++ s
  | UEnsure d rest => ∃ dis u s, ds = dis.*1 ++ d :: rest ∧ forward dis u ∧ stopped_part (ud_source d) s
                          ∧ t = acquired ds ++ u ++ s
  | UWaiting d id rest => ∃ dis u s r, ds = dis.*1 ++ d :: rest ∧ forward dis u ∧ stopped_part (ud_source d) s
                          ∧ replaced_part (ud_source d) id r ∧ t = acquired ds ++ u ++ s ++ r
  | UFinish | UCommit => ∃ dis u, dis.*1 = ds ∧ forward dis u ∧ t = acquired ds ++ u
  | URollback err bad rest => ∃ done, reverse ds = done ++ rest ∧ rolling ts ds done bad [] t
  | URollStop err bad d id rest => ∃ done u, reverse ds = done ++ d :: rest ∧ rolling ts ds done bad u t
      ∧ replacement_of ts (ud_source d) = Some id ∧ perhaps [ActStop id] u
  | URestore err bad d rest => ∃ done bad0 b u, reverse ds = done ++ d :: rest ∧ rolling ts ds done bad0 u t
      ∧ undone ts d b u ∧ bad = bad0 || b
  | URestoreWait err bad d rest => ∃ done bad0 b u, reverse ds = done ++ d :: rest ∧ rolling ts ds done bad0 u t
      ∧ undone ts d b u ∧ bad = bad0 || b ∧ ud_was_stopped d = false
  | UHealthy err bad d rest => ∃ done bad0 b u s, reverse ds = done ++ d :: rest ∧ rolling ts ds done bad0 (u ++ s) t
      ∧ undone ts d b u ∧ bad = bad0 || b ∧ ud_was_stopped d = false ∧ perhaps [ActStart (ud_source d)] s
  | UDone => t = [] ∨ outcome ds ts t
  end.

(** The replacements of the word are those of the progress *)
Definition recorded (ts : list RepositoryUpdateTarget) (t : list Act) : Prop :=
  ∀ source id, ActReplace source id ∈ t → id ≠ "" → replacement_of ts source = Some id.

Definition covered (ds : list RepositoryUpdateDeployment) (ts : list RepositoryUpdateTarget) : Prop :=
  ∀ d, d ∈ ds → ud_source d ∈ (ut_source <$> ts).

Definition deployments_of (c : Coordinator) : list RepositoryUpdateDeployment := ui_deployments (co_input c).
Definition hardware_of (c : Coordinator) : list RepositoryUpdateTarget := up_hardware (co_progress c).

Record co_inv (c : Coordinator) : Prop := {
  ci_pc : pc_inv (deployments_of c) (hardware_of c) (co_pc c) (co_trace c);
  ci_recorded : recorded (hardware_of c) (co_trace c);
  ci_covered : co_pc c ≠ UBegin → co_pc c ≠ UDone → covered (deployments_of c) (hardware_of c);
  ci_input : covered (deployments_of c) (ui_targets (co_input c));
  ci_saved : co_pc c = UBegin → up_hardware (co_saved c) = [] ∨ covered (deployments_of c) (up_hardware (co_saved c));
}.

(** ** Moves: [c'] keeps the input and the recorded replacements of [c], and says [new] *)

Record moves (c c' : Coordinator) (new : list Act) : Prop := {
  mo_input : co_input c' = co_input c;
  mo_keys : keys (hardware_of c') = keys (hardware_of c);
  mo_trace : co_trace c' = co_trace c ++ new;
}.

Lemma moves_trans c1 c2 c3 u v : moves c1 c2 u → moves c2 c3 v → moves c1 c3 (u ++ v).
Proof. intros [E1 K1 T1] [E2 K2 T2]. split; [congruence..|]. by rewrite T2, T1, app_assoc. Qed.

Lemma moves_quiet c1 c2 c3 u : moves c1 c2 [] → moves c2 c3 u → moves c1 c3 u.
Proof. apply moves_trans. Qed.

Lemma moves_then c1 c2 c3 u : moves c1 c2 u → moves c2 c3 [] → moves c1 c3 u.
Proof. intros H1 H2. rewrite <-(app_nil_r u). by eapply moves_trans. Qed.

Lemma moves_act a c : moves c (act a c) [a].
Proof. done. Qed.

Lemma moves_same c c' : co_input c' = co_input c → hardware_of c' = hardware_of c → co_trace c' = co_trace c → moves c c' [].
Proof. intros E1 E2 E3. split; [done|by rewrite E2|by rewrite E3, app_nil_r]. Qed.

(** A change of a target that keeps its key *)
Definition keeps (f : RepositoryUpdateTarget → RepositoryUpdateTarget) : Prop :=
  ∀ t, (ut_source (f t), ut_replacement (f t)) = (ut_source t, ut_replacement t).

Lemma keys_fmap f ts : keeps f → keys (f <$> ts) = keys ts.
Proof. intros Hf. unfold keys. rewrite <-list_fmap_compose. apply list_fmap_ext. intros _ t _. apply Hf. Qed.

Lemma keys_set source f ts : keeps f → keys ((λ t, if bool_decide (ut_source t = source) then f t else t) <$> ts) = keys ts.
Proof. intros Hf. apply keys_fmap. intros t. case_bool_decide; [apply Hf|done]. Qed.

Lemma moves_targets source f c : keeps f → moves c (setUpdateTargets source f c) [].
Proof. intros Hf. split; [done| |by rewrite app_nil_r]. by apply keys_set. Qed.

Lemma refresh_keys o source ts : keys (fst (refresh_nodes o source ts)) = keys ts.
Proof.
  induction ts as [|t ts IH]; simpl; [done|]. destruct (refresh_nodes o source ts) as [ts' off]. simpl in IH.
  assert (keys [match or_node o (ut_node t) with Some status => with_node_status status t | None => t end] = keys [t]) as E
    by by case_match.
  repeat case_match; simplify_eq/=; by rewrite ?IH.
Qed.

Lemma keeps_observe row : keeps (observe_target row).
Proof. intros t. unfold observe_target. case_match. by repeat case_match. Qed.
#[export] Hint Resolve keeps_observe : core.

(** Recording a replacement for every target of a source *)
Lemma sources_set f source (ts : list RepositoryUpdateTarget) :
  (∀ t, ut_source (f t) = ut_source t) →
  ut_source <$> ((λ t, if bool_decide (ut_source t = source) then f t else t) <$> ts) = ut_source <$> ts.
Proof. intros Hs. rewrite <-list_fmap_compose. apply list_fmap_ext. intros _ t _. simpl. by case_match. Qed.

Lemma replacement_of_set f source id ts :
  (∀ t, ut_source (f t) = ut_source t) → (∀ t, ut_replacement (f t) = id) → id ≠ "" → source ∈ (ut_source <$> ts) →
  replacement_of ((λ t, if bool_decide (ut_source t = source) then f t else t) <$> ts) source = Some id.
Proof.
  intros Hs Hr Hid. unfold replacement_of. induction ts as [|t ts IH]; intros Hin; csimpl in *; [by apply elem_of_nil in Hin|].
  destruct (decide (ut_source t = source)) as [Et|Et].
  - rewrite (bool_decide_eq_true_2 _ Et), Hs, Hr, (bool_decide_eq_true_2 _ Et), (bool_decide_eq_false_2 _ Hid). simpl. by rewrite Hr.
  - rewrite !(bool_decide_eq_false_2 (ut_source t = source) Et). simpl. apply IH. by apply elem_of_cons in Hin as [->|?].
Qed.

Lemma replacement_of_set_other f source ts source' :
  (∀ t, ut_source (f t) = ut_source t) → source ≠ source' →
  replacement_of ((λ t, if bool_decide (ut_source t = source) then f t else t) <$> ts) source' = replacement_of ts source'.
Proof.
  intros Hs Hne. unfold replacement_of. induction ts as [|t ts IH]; csimpl; [done|].
  destruct (decide (ut_source t = source)) as [Et|Et].
  - assert (ut_source t ≠ source') as Et' by congruence.
    rewrite (bool_decide_eq_true_2 _ Et), Hs, !(bool_decide_eq_false_2 _ Et'). by simpl.
  - rewrite (bool_decide_eq_false_2 (ut_source t = source) Et). by case_match.
Qed.

Section invariant.
Context (marshalParameters : gmap string any → string) (plan_input : Plan → bytes)
        (progress_json output_json : repositoryUpdateProgress → list (string * json))
        (plan_digest : Plan → option Preview → string).

Notation co_step := (co_step marshalParameters plan_input progress_json output_json plan_digest).
Notation persist := (persistUpdateProgress progress_json).
Notation fail := (UpdateRun.fail progress_json).
Notation wait_offline := (wait_offline progress_json).

Lemma moves_refl c : moves c c [].
Proof. by apply moves_same. Qed.
Lemma moves_persist c c' u : moves c c' u → moves c (persist c') u.
Proof. intros H. eapply moves_then; [done|]. by apply moves_same. Qed.
Lemma moves_goto pc c c' u : moves c c' u → moves c (goto pc c') u.
Proof. intros H. eapply moves_then; [done|]. by apply moves_same. Qed.
Lemma moves_service f c c' u : moves c c' u → moves c (with_service f c') u.
Proof. intros H. eapply moves_then; [done|]. by apply moves_same. Qed.
Lemma moves_phase p c c' u : moves c c' u → moves c (with_progress (set_phase p) c') u.
Proof. intros H. eapply moves_then; [done|]. by apply moves_same. Qed.
Lemma moves_overall f c c' u : moves c c' u → moves c (with_progress (λ p, set_phase (f p) p) c') u.
Proof. intros H. eapply moves_then; [done|]. by apply moves_same. Qed.
Lemma moves_set source f c c' u : keeps f → moves c c' u → moves c (setUpdateTargets source f c') u.
Proof. intros Hf H. eapply moves_then; [done|]. by apply moves_targets. Qed.
Lemma moves_says a c c' u : moves c c' u → moves c (act a c') (u ++ [a]).
Proof. intros H. by eapply moves_trans. Qed.

Lemma moves_wait_offline o source c : moves c (wait_offline o source c) [] ∧ co_pc (wait_offline o source c) = co_pc c.
Proof.
  unfold UpdateRun.wait_offline. pose proof (refresh_keys o source (up_hardware (co_progress c))) as E.
  destruct (refresh_nodes o source (up_hardware (co_progress c))) as [ts off]. simpl in E.
  assert (moves c (with_progress (λ p, mkUpdateProgress (up_phase p) (up_devices p) (up_completed_devices p) ts (up_completed_hardware p)) c) [])
    as Hm by (split; [done|done|by rewrite app_nil_r]).
  destruct off; split; try done. by apply moves_persist, moves_set, moves_phase.
Qed.

Lemma moves_offline o source c c' u : moves c c' u → moves c (wait_offline o source c') u.
Proof. intros H. eapply moves_then; [done|]. apply moves_wait_offline. Qed.

Lemma moves_fail err c c' u : moves c c' u → moves c (fail err c') u.
Proof. intros H. by apply moves_goto, moves_persist, moves_phase. Qed.

Lemma pc_inv_keys ds ts ts' pc t : keys ts = keys ts' → pc_inv ds ts pc t → pc_inv ds ts' pc t.
Proof.
  intros E. assert (∀ done bad u, rolling ts ds done bad u t → rolling ts' ds done bad u t) as Hr.
  { intros done bad u (a & r & ? & ? & ?). exists a, r. eauto using rolled_keys. }
  assert (∀ d b u, undone ts d b u → undone ts' d b u) as Hu by eauto using undone_keys.
  destruct pc; simpl; try exact (λ H, H).
  - intros (done & ? & ?). exists done. auto.
  - intros (done & u & ? & ? & ER & ?). exists done, u. rewrite <-(replacement_of_keys ts ts' _ E). eauto.
  - intros (done & bad0 & b & u & ? & ? & ? & ?). exists done, bad0, b, u. split_and!; auto.
  - intros (done & bad0 & b & u & ? & ? & ? & ? & ?). exists done, bad0, b, u. split_and!; auto.
  - intros (done & bad0 & b & u & s & ? & ? & ? & ? & ? & ?). exists done, bad0, b, u, s. split_and!; auto.
  - unfold outcome. intros [?|[?|[(a & r & ? & ? & ?)|(a & r & ? & ? & ?)]]]; [by left|right..]; [by left|right..];
      [left|right]; exists a, r; eauto using rolled_keys.
Qed.

Definition no_replace (t : list Act) : Prop := ∀ source id, ActReplace source id ∉ t.

(** The invariant after a move *)
Lemma co_inv_moves c c' new :
  co_inv c → co_pc c ≠ UBegin → co_pc c ≠ UDone → moves c c' new → no_replace new → co_pc c' ≠ UBegin →
  pc_inv (deployments_of c) (hardware_of c) (co_pc c') (co_trace c ++ new) → co_inv c'.
Proof.
  intros [Hp Hr Hc Hi Hs] Hb Hd' [Ei Ek Et] Hn Hb' Hpc. unfold deployments_of in *. split; unfold deployments_of; rewrite ?Ei; try done.
  - rewrite Et. by eapply pc_inv_keys.
  - intros source id Hin Hne. rewrite Et in Hin. apply elem_of_app in Hin as [Hin|Hin]; [|by destruct (Hn source id)].
    rewrite <-(Hr source id Hin Hne). by apply replacement_of_keys.
  - intros _ _ d Hd. specialize (Hc Hb Hd' d Hd). apply (f_equal (fmap fst)) in Ek. unfold keys in Ek.
    rewrite <-!list_fmap_compose in Ek. rewrite (list_fmap_ext (fst ∘ _) ut_source) in Ek by done.
    change (ud_source d ∈ ut_source <$> hardware_of c'). rewrite Ek. done.
Qed.

Lemma moves_rolling d c c' u : moves c c' u → moves c (rolling_back progress_json d c') u.
Proof. intros H. by apply moves_persist, moves_set, moves_phase. Qed.

Lemma moves_first a c c' : moves c c' [] → moves c (act a c') [a].
Proof. apply (moves_says a c c' []). Qed.

Local Hint Resolve moves_first moves_refl moves_persist moves_goto moves_service moves_phase moves_overall moves_set moves_says
  moves_offline moves_fail moves_rolling : moves.
Local Hint Extern 1 (keeps _) => (by intros ?) : moves.

Lemma no_replace_nil : no_replace [].
Proof. by intros ?? ?%elem_of_nil. Qed.

Lemma no_replace_one a : (∀ source id, a ≠ ActReplace source id) → no_replace [a].
Proof. intros H source id E%list_elem_of_singleton. by destruct (H source id). Qed.
Local Hint Resolve no_replace_nil : moves.
Local Hint Extern 1 (no_replace _) => (apply no_replace_one; done) : moves.

(** A move to the program counter of [c'] *)
Ltac move_inv H := eapply (co_inv_moves _ _ _ H); [congruence|congruence|eauto 12 with moves|eauto with moves|done|simpl].

(** Every word of the forward part is an attempt *)
Definition is_forward (pc : UpdatePC) : bool :=
  match pc with
  | UAcquire _ | UNext _ | UStopping _ _ | UEnsure _ _ | UWaiting _ _ _ | UFinish | UCommit => true
  | _ => false
  end.

Lemma forward_attempt c : co_inv c → is_forward (co_pc c) = true → attempt (deployments_of c) (co_trace c).
Proof.
  intros [Hp _ _ _ _]. generalize dependent (co_pc c). generalize (deployments_of c) (co_trace c). intros ds t pc Hp Hf.
  destruct pc; try discriminate; simpl in Hp.
  - destruct Hp as (done & -> & ->). apply (attempt_here [] (done ++ rest) [] []); [done|constructor|].
    rewrite app_nil_r. unfold acquired. rewrite app_nil_l, fmap_app. by eexists.
  - destruct Hp as (dis & u & -> & ? & ->). by eapply attempt_here.
  - destruct Hp as (dis & u & s & -> & ? & Hs & ->).
    eapply (attempt_inside _ _ _ dis u ""); [done|done|by exists s|by exists []|]. rewrite <-app_assoc. by eexists.
  - destruct Hp as (dis & u & s & -> & ? & Hs & ->).
    eapply (attempt_inside _ _ _ dis u ""); [done|done|done|by exists []|]. by eexists.
  - destruct Hp as (dis & u & s & r & -> & ? & Hs & Hr & ->).
    eapply (attempt_inside _ _ _ dis u replacement); [done..|]. rewrite (app_assoc s). by eexists.
  - destruct Hp as (dis & u & <- & ? & ->). rewrite <-(app_nil_r dis.*1). by eapply attempt_here.
  - destruct Hp as (dis & u & <- & ? & ->). rewrite <-(app_nil_r dis.*1). by eapply attempt_here.
Qed.

Lemma co_inv_fail err c c' new : co_inv c → co_pc c ≠ UBegin → co_pc c ≠ UDone → moves c c' new → no_replace new →
  attempt (deployments_of c) (co_trace c ++ new) → co_inv (fail err c').
Proof.
  intros H Hb Hd Hm Hn Ha. eapply (co_inv_moves c); [done|done|done|eauto with moves|done|done|].
  simpl. exists []. destruct Hm as [Ei _ _]. rewrite Ei. split; [done|].
  exists (co_trace c ++ new), []. split_and!; [done|constructor|]. by rewrite !app_nil_r.
Qed.

(** Giving up without a word *)
Lemma co_inv_fail_quiet err c c' : co_inv c → is_forward (co_pc c) = true → moves c c' [] → co_inv (fail err c').
Proof.
  intros H Hf Hm. eapply co_inv_fail; [done|by destruct (co_pc c)|by destruct (co_pc c)|done|eauto with moves|].
  rewrite app_nil_r. by apply forward_attempt.
Qed.

(** *** The forward part *)

Lemma begin_inv o c : co_inv c → co_pc c = UBegin → co_inv (begin progress_json o c).
Proof.
  intros [Hp Hr Hc Hi Hs] Eb. rewrite Eb in Hp. simpl in Hp. unfold begin.
  destruct (lg_runs _ !! _) as [r|]; [|split; simpl; try done; by left].
  cbv zeta. match goal with |- context [with_progress (λ _, ?q) c] => set (p := q) end.
  assert (covered (deployments_of c) (up_hardware p)) as Hcov.
  { unfold p. case_match eqn:Eq; [done|]. destruct (Hs Eb) as [E|?]; [|done].
    rewrite E in Eq. simpl in Eq. apply orb_false_elim in Eq as [_ Eq]. apply negb_false_iff, bool_decide_eq_true in Eq.
    intros d Hd. specialize (Hi d Hd). destruct (ui_targets (co_input c)); [by apply elem_of_nil in Hi|done]. }
  assert (recorded (up_hardware p) (co_trace c)) as Hrec by (rewrite Hp; by intros ?? ?%elem_of_nil).
  case_bool_decide.
  - split; simpl; [|done..]. exists []. split; [done|]. exists [], []. split_and!; [|constructor|done].
    apply (attempt_here [] (ui_deployments (co_input c)) [] []); [done|constructor|apply prefix_nil].
  - split; simpl; [|done..]. by exists [].
Qed.

Lemma acquire_inv o rest c : co_inv c → co_pc c = UAcquire rest → co_inv (co_step o c).
Proof.
  intros H E. unfold UpdateRun.co_step. rewrite E.
  destruct rest as [|d rest]; (case_match; [eapply (co_inv_fail_quiet _ c); [done|by rewrite E|eauto with moves]|]).
  - move_inv H. destruct H as [Hp _ _ _ _]. rewrite E in Hp. destruct Hp as (ds & Ed & ->).
    exists [], []. split_and!; [done|constructor|]. by rewrite Ed, !app_nil_r.
  - destruct (or_acquired o); [|eapply (co_inv_fail_quiet _ c); [done|by rewrite E|eauto with moves]].
    move_inv H. destruct H as [Hp _ _ _ _]. rewrite E in Hp. destruct Hp as (ds & -> & ->).
    exists (ds ++ [d]). split; [by rewrite <-app_assoc|]. unfold acquired. by rewrite fmap_app.
Qed.

Lemma begin_stop_inv o d rest c : co_inv c → co_pc c = UNext (d :: rest) → co_inv (begin_stop progress_json o d rest c).
Proof.
  intros H E. assert (∃ dis u, deployments_of c = dis.*1 ++ d :: rest ∧ forward dis u
                      ∧ co_trace c = acquired (deployments_of c) ++ u) as (dis & u & Ed & Hf & Et).
  { destruct H as [Hp _ _ _ _]. by rewrite E in Hp. }
  unfold begin_stop. case_match; [|eapply (co_inv_fail_quiet _ c); [done|by rewrite E|eauto 12 with moves]].
  case_match; [case_match|].
  - assert (co_inv (goto (UStopping d rest) (act (ActStop (ud_source d)) (with_service (λ _, s)
        (persist (with_progress (set_phase "stopping_old") (setUpdateTargets (ud_source d) (with_status "running" "stopping_old") c))))))).
    { move_inv H. exists dis, u, [ActStop (ud_source d)]. split_and!; [done|done|apply perhaps_one; set_solver|].
      by rewrite Et, <-app_assoc. }
    assert (∀ err, co_inv (fail err (act (ActStop (ud_source d)) (with_service (λ _, s)
        (persist (with_progress (set_phase "stopping_old") (setUpdateTargets (ud_source d) (with_status "running" "stopping_old") c))))))).
    { intros err. eapply (co_inv_fail err c); [done|congruence|congruence|eauto 12 with moves|eauto with moves|].
      rewrite Et, Ed, <-app_assoc. eapply (attempt_inside _ _ _ dis u "" [ActStop (ud_source d); ActSawStopped (ud_source d)]);
        [done|done|exists [ActStop (ud_source d)]; split; [apply perhaps_one; set_solver|done]|by exists []|]. by eexists. }
    destruct r as [|[]]; auto.
  - move_inv H. exists dis, u, []. split_and!; [done|done|done|]. by rewrite !app_nil_r, Et.
Qed.

Lemma poll_stop_inv o d rest c : co_inv c → co_pc c = UStopping d rest → co_inv (poll_stop progress_json o d rest c).
Proof.
  intros H E. unfold poll_stop. case_match; [|eapply (co_inv_fail_quiet _ c); [done|by rewrite E|eauto with moves]].
  case_bool_decide.
  - move_inv H. destruct H as [Hp _ _ _ _]. rewrite E in Hp. destruct Hp as (dis & u & s & Ed & Hf & Hs & ->).
    exists dis, u, (s ++ [ActSawStopped (ud_source d)]). split_and!; [done|done|by exists s|]. by rewrite <-!app_assoc.
  - eapply (co_inv_moves _ _ _ H); [congruence|congruence|eauto with moves|eauto with moves| |];
      rewrite (proj2 (moves_wait_offline o (ud_source d) c)); [congruence|]. rewrite app_nil_r. apply H.
Qed.

Notation ensureUpdateReplacement := (ensureUpdateReplacement marshalParameters plan_input progress_json plan_digest).

Lemma ensure_cases o d c :
  match ensureUpdateReplacement o d c with
  | (None, c') => moves c c' []
  | (Some id, c') =>
      (replacement_of (hardware_of c) (ud_source d) = Some id ∧ c' = act (ActReplace (ud_source d) id) c)
      ∨ (replacement_of (hardware_of c) (ud_source d) = None ∧
         ∃ c1 u, moves c c1 u ∧ hardware_of c1 = hardware_of c ∧ perhaps [ActStart id; ActCreate id] u
                 ∧ c' = record_replacement progress_json d id c1)
  end.
Proof.
  unfold UpdateRun.ensureUpdateReplacement, hardware_of. destruct (replacement_of _ _) as [id|]; [by left|].
  destruct (find_deployment _ _ _ _) as [[id row]|].
  - destruct (startable row); [|right; split; [done|]; exists c, []; eauto with moves].
    destruct (Start _ _ _ _ _) as [[[]|] s]; [|eauto with moves]. right. split; [done|].
    exists (act (ActStart id) (with_service (λ _, s) c)), [ActStart id].
    split_and!; [by apply moves_first, moves_service, moves_refl|done|apply perhaps_one; set_solver|done].
  - destruct (or_plan o) as [[fresh preview]|]; [|apply moves_refl]. destruct (negb _); [apply moves_refl|].
    destruct (createPlanned _ _ _ _ _) as [[[]|] s]; [|eauto with moves]. right. split; [done|].
    exists (act (ActCreate (or_dep o)) (with_service (λ _, s) c)), [ActCreate (or_dep o)].
    split_and!; [by apply moves_first, moves_service, moves_refl|done|apply perhaps_one; set_solver|done].
Qed.

Lemma record_hardware d id c pc :
  hardware_of (goto pc (record_replacement progress_json d id c)) =
  (λ t, if bool_decide (ut_source t = ud_source d) then with_status "running" "preparing" (with_replacement id t) else t) <$> hardware_of c.
Proof. done. Qed.

Lemma ensure_inv o d rest c : co_inv c → co_pc c = UEnsure d rest →
  co_inv (ensure marshalParameters plan_input progress_json plan_digest o d rest c).
Proof.
  intros H E. unfold ensure. case_match; [eapply (co_inv_fail_quiet _ c); [done|by rewrite E|eauto with moves]|].
  pose proof (ensure_cases o d c) as Hc. destruct (ensureUpdateReplacement o d c) as [[id|] c'];
    [|eapply (co_inv_fail_quiet _ c); [done|by rewrite E|done]].
  pose proof H as [Hp Hr Hcov Hi Hs]. rewrite E in Hp. destruct Hp as (dis & u & s & Ed & Hf & Hst & Et).
  specialize (Hcov ltac:(congruence) ltac:(congruence)).
  destruct Hc as [[HR ->]|(HR & c1 & w & [Ei Ek Et1] & Eh & Hw & ->)].
  - split; simpl; try done.
    + exists dis, u, s, [ActReplace (ud_source d) id]. split_and!; [done..|by exists []|]. by rewrite Et, <-!app_assoc.
    + intros source id' [Hin|Hin]%elem_of_app Hne; [by apply Hr|]. apply list_elem_of_singleton in Hin. by simplify_eq.
  - split; simpl; unfold deployments_of in *; simpl; rewrite ?Ei; try done.
    + exists dis, u, s, (w ++ [ActReplace (ud_source d) id]). split_and!; [done..|by exists w|]. by rewrite Et1, Et, <-!app_assoc.
    + intros source id' Hin Hne. rewrite record_hardware, Eh.
      assert (ud_source d ∈ ut_source <$> hardware_of c) as Hsrc by (apply Hcov; rewrite Ed; set_solver).
      assert (ActReplace source id' ∈ co_trace c ∨ ActReplace source id' = ActReplace (ud_source d) id) as [Hold|[= -> ->]].
      { rewrite Et1 in Hin. destruct Hw as [->|(a & Ha & ->)]; set_solver. }
      * specialize (Hr source id' Hold Hne). rewrite replacement_of_set_other; [done|done|].
        intros <-. congruence.
      * by apply replacement_of_set.
    + intros _ _ d' Hd'. rewrite record_hardware, sources_set, Eh by done. by apply Hcov.
Qed.

Lemma poll_replacement_inv o d id rest c : co_inv c → co_pc c = UWaiting d id rest →
  co_inv (poll_replacement progress_json o d id rest c).
Proof.
  intros H E. unfold poll_replacement.
  assert (∀ err c', moves c c' [] → co_inv (fail err c')) as Hfail
    by (intros; eapply (co_inv_fail_quiet _ c); [done|by rewrite E|done]).
  case_match; [eauto with moves|]. destruct (row_of c id) as [row|]; [|eauto with moves]. case_bool_decide.
  - move_inv H. destruct H as [Hp _ _ _ _]. rewrite E in Hp. destruct Hp as (dis & u & s & r & Ed & Hf & Hs & Hr & ->).
    exists (dis ++ [(d, id)]), (u ++ s ++ r ++ [ActSawHealthy id]).
    split_and!; [by rewrite fmap_app, <-app_assoc|by apply forward_snoc|]. by rewrite <-!app_assoc.
  - destruct (_ || _); [eauto 12 with moves|]. destruct (run_ended _ _); [eauto 12 with moves|].
    eapply (co_inv_moves _ _ _ H); [congruence|congruence|eauto 12 with moves|eauto with moves| |];
      rewrite (proj2 (moves_wait_offline _ _ _)); [by simpl; congruence|]. rewrite app_nil_r. apply H.
Qed.

Lemma finish_inv c c' : co_inv c → co_pc c = UNext [] ∨ co_pc c = UFinish → moves c c' [] → co_pc c' = UFinish ∨ co_pc c' = UCommit →
  co_inv c'.
Proof.
  intros H E Hm E'. eapply (co_inv_moves _ _ _ H); [by destruct E as [->| ->]|by destruct E as [->| ->]|done|eauto with moves|by destruct E' as [->| ->]|].
  rewrite app_nil_r. destruct H as [Hp _ _ _ _].
  assert (pc_inv (deployments_of c) (hardware_of c) UFinish (co_trace c)) as H'.
  { destruct E as [E|E]; rewrite E in Hp; [|done]. destruct Hp as (dis & u & Ed & ? & ?). rewrite app_nil_r in Ed. by exists dis, u. }
  by destruct E' as [->| ->].
Qed.

Lemma complete_inv o to code message c c' :
  co_inv c → co_pc c ≠ UBegin → co_pc c ≠ UDone → moves c c' [] →
  outcome (deployments_of c) (hardware_of c) (co_trace c ++ [ActComplete to code]) → co_inv (complete output_json o to code message c').
Proof.
  intros H Hb Hd Hm Ho. unfold complete. eapply (co_inv_moves c _ [ActComplete to code]); [done|done|done| |eauto with moves|done|by right].
  by apply moves_goto, moves_first, moves_service, moves_service.
Qed.

Lemma commit_inv o c : co_inv c → co_pc c = UCommit → co_inv (commit progress_json output_json o c).
Proof.
  intros H E. eapply (complete_inv _ _ _ _ c); [done|congruence|congruence| |].
  - apply moves_persist. split; [done| |by rewrite app_nil_r]. by apply keys_fmap.
  - left. destruct H as [Hp _ _ _ _]. rewrite E in Hp. destruct Hp as (dis & u & Ed & Hf & ->). exists dis, u. split_and!; [done|done|]. by rewrite <-app_assoc.
Qed.

(** *** Rollback *)

Lemma rolled_back_inv o err bad c : co_inv c → co_pc c = URollback err bad [] → co_inv (rolled_back progress_json output_json o err bad c).
Proof.
  intros H E. assert (∃ a r, attempt (deployments_of c) a ∧ rolled (hardware_of c) (reverse (deployments_of c)) bad r ∧ co_trace c = a ++ r)
    as (a & r & Ha & Hr & Et).
  { destruct H as [Hp _ _ _ _]. rewrite E in Hp. destruct Hp as (done & Ed & a & r & ? & ? & Et). exists a, r.
    by rewrite Ed, Et, !app_nil_r. }
  unfold rolled_back. destruct bad; [|destruct err; [|case_match]];
    (eapply (complete_inv _ _ _ _ c); [done|congruence|congruence|eauto with moves|]); rewrite Et, <-app_assoc.
  - right. right. eauto.
  - right. left. eauto 6.
  - right. left. eauto 6.
  - right. left. eauto 6.
Qed.

(** What the program counters of the rollback of [d] know *)
Lemma restore_word c err bad d rest : co_inv c →
  co_pc c = URestore err bad d rest ∨ co_pc c = URestoreWait err bad d rest →
  ∃ done bad0 b u, reverse (deployments_of c) = done ++ d :: rest ∧
    rolling (hardware_of c) (deployments_of c) done bad0 u (co_trace c) ∧ undone (hardware_of c) d b u ∧ bad = bad0 || b.
Proof.
  intros [Hp _ _ _ _] [E|E]; rewrite E in Hp; [done|]. destruct Hp as (done & bad0 & b & u & ? & ? & ? & ? & _).
  exists done, bad0, b, u. done.
Qed.

Lemma rolling_snoc ts ds done bad b b' d u v t t' :
  rolling ts ds done bad u t → undone ts d b u → brought_back d b' v → t' = t ++ v →
  rolling ts ds (done ++ [d]) (bad || b || b') [] t'.
Proof.
  intros (a & r & Ha & Hr & ->) Hu Hv ->. exists a, (r ++ u ++ v). split_and!; [done|by apply rolled_snoc|].
  by rewrite app_nil_r, <-!app_assoc.
Qed.

(** The next deployment of the rollback *)
Lemma next_inv err bad bad' d rest c c' b v : co_inv c →
  co_pc c = URestore err bad d rest ∨ co_pc c = URestoreWait err bad d rest →
  moves c c' v → no_replace v → co_pc c' = URollback err bad' rest → brought_back d b v → bad' = bad || b → co_inv c'.
Proof.
  intros H E Hm Hn E' Hv ->. destruct (restore_word c err bad d rest H E) as (done & bad0 & b0 & u & Ed & Hr & Hu & ->).
  eapply (co_inv_moves _ _ _ H); [by destruct E as [->| ->]|by destruct E as [->| ->]|done|done|by rewrite E'|].
  rewrite E'. exists (done ++ [d]). split; [by rewrite Ed, <-app_assoc|]. by eapply rolling_snoc.
Qed.

(** The replacement is seen stopped, or given up *)
Lemma undo_inv (ok : bool) err bad d rest c c' u v :
  co_inv c → co_pc c ≠ UBegin → co_pc c ≠ UDone → moves c c' v → no_replace v →
  (∃ done, reverse (deployments_of c) = done ++ d :: rest ∧ rolling (hardware_of c) (deployments_of c) done bad u (co_trace c)) →
  undone (hardware_of c) d (negb ok) (u ++ v) → co_pc c' = URestore err (bad || negb ok) d rest → co_inv c'.
Proof.
  intros H Hb Hd Hm Hn (done & Ed & a & r & Ha & Hr & Et) Hu E'.
  eapply (co_inv_moves c); [done..|by rewrite E'|]. rewrite E'. exists done, bad, (negb ok), (u ++ v).
  split_and!; [done| |done|done]. exists a, r. split_and!; [done|done|]. by rewrite Et, <-!app_assoc.
Qed.

Lemma roll_replacement_inv o err bad d rest c : co_inv c → co_pc c = URollback err bad (d :: rest) →
  co_inv (roll_replacement progress_json o err bad d rest c).
Proof.
  intros H E. assert (∃ done, reverse (deployments_of c) = done ++ d :: rest ∧
    rolling (hardware_of c) (deployments_of c) done bad [] (co_trace c)) as Hr by (destruct H as [Hp _ _ _ _]; by rewrite E in Hp).
  assert (∀ (ok : bool) c' v, moves c c' v → no_replace v → undone (hardware_of c) d (negb ok) v →
    co_pc c' = URestore err (bad || negb ok) d rest → co_inv c') as Hu
    by (intros; eapply (undo_inv ok err bad d rest c); [done|congruence|congruence|done..]).
  unfold roll_replacement. change (up_hardware (co_progress c)) with (hardware_of c).
  destruct (replacement_of (hardware_of c) (ud_source d)) as [id|] eqn:ER.
  2: { eapply (Hu true _ []); [eauto with moves|eauto with moves| |by rewrite orb_false_r]. unfold undone. by rewrite ER. }
  assert (∀ (ok : bool) s, perhaps [ActStop id] s → undone (hardware_of c) d (negb ok)
    (s ++ [if ok then ActSawStopped id else ActGaveUp (ud_source d)])) as Hun.
  { intros ok s Hs. unfold undone. rewrite ER. exists s. by destruct ok. }
  destruct (row_of c id) as [row|].
  2: { eapply (Hu false _ [ActGaveUp (ud_source d)]); [eauto with moves|eauto with moves|by apply (Hun false [])|by rewrite orb_true_r]. }
  cbv zeta. match goal with |- context [rolling_back _ d ?x] => set (c1 := x) end. assert (∃ s, perhaps [ActStop id] s ∧ no_replace s ∧ moves c c1 s) as (s & Hs & Hns & Hm).
  { unfold c1. case_match; [|exists []; eauto with moves]. exists [ActStop id].
    split_and!; [apply perhaps_one; set_solver|eauto with moves|by apply moves_first, moves_service, moves_refl]. }
  case_bool_decide.
  - eapply (Hu true _ (s ++ [ActSawStopped id])); [by apply moves_goto, moves_says| |by apply (Hun true)|by rewrite orb_false_r].
    intros x y [?|?%list_elem_of_singleton]%elem_of_app; [by destruct (Hns x y)|done].
  - eapply (co_inv_moves _ _ s H); [congruence|congruence|eauto 12 with moves|done|done|].
    destruct Hr as (done & Ed & a & r & Ha & Hr & Et). simpl. exists done, s. split_and!; [done| |done|done].
    exists a, r. split_and!; [done|done|]. by rewrite Et, <-!app_assoc.
Qed.

Lemma poll_rollstop_inv err bad d id rest c : co_inv c → co_pc c = URollStop err bad d id rest →
  co_inv (poll_rollstop progress_json err bad d id rest c).
Proof.
  intros H E. assert (∃ done u, reverse (deployments_of c) = done ++ d :: rest ∧
      rolling (hardware_of c) (deployments_of c) done bad u (co_trace c)
      ∧ replacement_of (hardware_of c) (ud_source d) = Some id ∧ perhaps [ActStop id] u) as (done & u & Ed & Hr & ER & Hu)
    by (destruct H as [Hp _ _ _ _]; by rewrite E in Hp).
  assert (∀ ok : bool, undone (hardware_of c) d (negb ok) (u ++ [if ok then ActSawStopped id else ActGaveUp (ud_source d)])) as Hun.
  { intros ok. unfold undone. rewrite ER. exists u. by destruct ok. }
  unfold poll_rollstop. case_match; [case_bool_decide|].
  - eapply (undo_inv true err bad d rest c _ u [ActSawStopped id]); [done|congruence|congruence|eauto with moves|eauto with moves|
      eauto|by apply (Hun true)|by rewrite orb_false_r].
  - eapply (co_inv_moves _ _ [] H); [congruence|congruence|eauto 12 with moves|eauto with moves|by simpl; rewrite E|].
    rewrite app_nil_r. simpl. apply H.
  - eapply (undo_inv false err bad d rest c _ u [ActGaveUp (ud_source d)]); [done|congruence|congruence|eauto with moves|eauto with moves|
      eauto|by apply (Hun false)|by rewrite orb_true_r].
Qed.

Lemma restore_start_inv o err bad d rest row c c' : co_inv c → ud_was_stopped d = false → moves c c' [] →
  co_pc c = URestore err bad d rest ∨ co_pc c = URestoreWait err bad d rest → co_inv (restore_start o err bad d rest row c').
Proof.
  intros H Hw Hm E. pose proof (restore_word c err bad d rest H E) as (done & bad0 & b & u & Ed & Hr & Hu & Eb).
  assert (∀ s c1, moves c c1 s → no_replace s → perhaps [ActStart (ud_source d)] s → co_inv (goto (UHealthy err bad d rest) c1)) as Hgo.
  { intros s c1 Hm1 Hn Hs. eapply (co_inv_moves _ _ s H); [by destruct E as [->| ->]|by destruct E as [->| ->]|by apply moves_goto|done|done|].
    exists done, bad0, b, u, s. split_and!; [done| |done|done|done|done]. destruct Hr as (a & r & ? & ? & Et).
    exists a, r. by rewrite Et, <-!app_assoc. }
  unfold restore_start. case_bool_decide; [|apply (Hgo []); eauto with moves]. destruct (Start _ _ _ _ _) as [[[]|] s].
  - apply (Hgo [ActStart (ud_source d)]); [by apply moves_first, moves_service|eauto with moves|apply perhaps_one; set_solver].
  - eapply (next_inv err bad true d rest c _ true [ActGaveUp (ud_source d)]); [done|done| |eauto with moves|done| |by rewrite orb_true_r].
    + by apply moves_goto, moves_first, moves_set, moves_service.
    + unfold brought_back. rewrite Hw. by exists [].
Qed.

Lemma restore_inv o err bad d rest c : co_inv c → co_pc c = URestore err bad d rest → co_inv (restore progress_json o err bad d rest c).
Proof.
  intros H E. unfold restore. destruct (ud_was_stopped d) eqn:Ew.
  - unfold restored. eapply (next_inv err bad bad d rest c _ false []); [done|by left|eauto with moves|eauto with moves|done| |by rewrite orb_false_r].
    unfold brought_back. by rewrite Ew.
  - case_match; [case_match|].
    + pose proof (restore_word c err bad d rest H (or_introl E)) as (done & bad0 & b & u & Ed & Hr & Hu & Eb).
      eapply (co_inv_moves _ _ [] H); [congruence|congruence|eauto 12 with moves|eauto with moves|done|].
      rewrite app_nil_r. by exists done, bad0, b, u.
    + eapply (restore_start_inv _ _ _ _ _ _ c); [done|done|eauto 12 with moves|by left].
    + eapply (next_inv err bad true d rest c _ true [ActGaveUp (ud_source d)]); [done|by left| |eauto with moves|done| |by rewrite orb_true_r].
      * by apply moves_goto, moves_first, moves_persist, moves_set, moves_phase, moves_refl.
      * unfold brought_back. rewrite Ew. by exists [].
Qed.

Lemma poll_restore_inv o err bad d rest c : co_inv c → co_pc c = URestoreWait err bad d rest → co_inv (poll_restore o err bad d rest c).
Proof.
  intros H E. assert (ud_was_stopped d = false) as Ew.
  { destruct H as [Hp _ _ _ _]. rewrite E in Hp. by destruct Hp as (? & ? & ? & ? & ? & ? & ? & ? & ?). }
  unfold poll_restore. case_match; [case_match; [done|]|].
  - eapply (restore_start_inv _ _ _ _ _ _ c); [done|done|eauto with moves|by right].
  - eapply (next_inv err bad true d rest c _ true [ActGaveUp (ud_source d)]); [done|by right| |eauto with moves|done| |by rewrite orb_true_r].
    + by apply moves_goto, moves_first, moves_set, moves_refl.
    + unfold brought_back. rewrite Ew. by exists [].
Qed.

Lemma poll_healthy_inv err bad d rest c : co_inv c → co_pc c = UHealthy err bad d rest →
  co_inv (poll_healthy progress_json err bad d rest c).
Proof.
  intros H E. assert (∃ done bad0 b u s, reverse (deployments_of c) = done ++ d :: rest
      ∧ rolling (hardware_of c) (deployments_of c) done bad0 (u ++ s) (co_trace c)
      ∧ undone (hardware_of c) d b u ∧ bad = bad0 || b ∧ ud_was_stopped d = false ∧ perhaps [ActStart (ud_source d)] s)
    as (done & bad0 & b & u & s & Ed & (a & r & Ha & Hr & Et) & Hu & Eb & Ew & Hs) by (destruct H as [Hp _ _ _ _]; by rewrite E in Hp).
  assert (∀ (ok : bool) c', moves c c' [if ok then ActSawHealthy (ud_source d) else ActGaveUp (ud_source d)] →
    co_pc c' = URollback err (bad || negb ok) rest → co_inv c') as Hgo.
  { intros ok c' Hm E'. eapply (co_inv_moves _ _ _ H); [congruence|congruence|done|by destruct ok; eauto with moves|by rewrite E'|].
    rewrite E'. exists (done ++ [d]). split; [by rewrite Ed, <-app_assoc|].
    rewrite Eb. eapply (rolling_snoc _ _ done bad0 b _ d u); [by exists a, r|done| |by rewrite Et, <-!app_assoc].
    unfold brought_back. rewrite Ew. exists s. by destruct ok. }
  assert (co_inv (persist (abandon err d rest c))) as Hbad.
  { apply (Hgo false); [|by rewrite orb_true_r]. by apply moves_persist, moves_goto, moves_first, moves_set, moves_refl. }
  unfold poll_healthy. case_match; [|done]. case_bool_decide; [|by case_bool_decide].
  apply (Hgo true); [|by rewrite orb_false_r]. by apply moves_goto, moves_persist, moves_set, moves_first, moves_refl.
Qed.

(** *** Every step *)

Lemma co_step_inv o c : co_inv c → co_inv (co_step o c).
Proof.
  intros H. unfold UpdateRun.co_step. destruct (co_pc c) eqn:E.
  - by apply begin_inv.
  - pose proof (acquire_inv o rest c H E) as Ha. unfold UpdateRun.co_step in Ha. by rewrite E in Ha.
  - destruct rest as [|d rest]; [eapply finish_inv; [done|by left|eauto with moves|by left]|].
    case_match; [eapply (co_inv_fail_quiet _ c); [done|by rewrite E|eauto with moves]|by apply begin_stop_inv].
  - by apply poll_stop_inv.
  - by apply ensure_inv.
  - by apply poll_replacement_inv.
  - case_match; [eapply (co_inv_fail_quiet _ c); [done|by rewrite E|eauto with moves]|].
    eapply finish_inv; [done|by right|eauto with moves|by right].
  - by apply commit_inv.
  - destruct rest; [by apply rolled_back_inv|by apply roll_replacement_inv].
  - by apply poll_rollstop_inv.
  - by apply restore_inv.
  - by apply poll_restore_inv.
  - by apply poll_healthy_inv.
  - done.
Qed.

Notation sys_step := (sys_step marshalParameters plan_input progress_json output_json plan_digest).

Lemma sys_step_inv c c' : sys_step c c' → co_inv c → co_inv c'.
Proof.
  intros Hst H. destruct Hst as [o c|s c Hst|now c]; [by apply co_step_inv|by destruct H; split|].
  unfold CancelRepositoryUpdate. case_match; [|done]. case_match; [|done]. by destruct H; split.
Qed.

Lemma sys_inv c c' : rtc sys_step c c' → co_inv c → co_inv c'.
Proof. induction 1; eauto using sys_step_inv. Qed.

(** What a coordinator begins with: every deployment has its targets, in the input and in a progress saved before *)
Record fit (c : Coordinator) : Prop := {
  fi_pc : co_pc c = UBegin;
  fi_trace : co_trace c = [];
  fi_input : covered (deployments_of c) (ui_targets (co_input c));
  fi_saved : up_hardware (co_saved c) = [] ∨ covered (deployments_of c) (up_hardware (co_saved c));
}.

Lemma fit_inv c : fit c → co_inv c.
Proof.
  intros [Hp Ht Hi Hs]. split; rewrite ?Hp, ?Ht; [done| |done..]. by intros ?? ?%elem_of_nil.
Qed.

Lemma ensure_input o d c : co_input (snd (ensureUpdateReplacement o d c)) = co_input c.
Proof.
  pose proof (ensure_cases o d c) as H. destruct (ensureUpdateReplacement o d c) as [[id|] c']; simpl; [|apply H].
  destruct H as [[_ ->]|(_ & c1 & u & Hm & _ & _ & ->)]; [done|apply Hm].
Qed.

Lemma co_step_input o c : co_input (co_step o c) = co_input c.
Proof.
  unfold UpdateRun.co_step, begin, begin_stop, poll_stop, ensure, poll_replacement, commit, rolled_back, roll_replacement, poll_rollstop,
    restore, poll_restore, restore_start, poll_healthy. pose proof (λ d, ensure_input o d c) as He.
  destruct (co_pc c) as [|[]|[]| |d| | | |??[]| | | | |]; try done;
    try specialize (He d); repeat case_match; simplify_eq/=; rewrite ?(mo_input _ _ _ (proj1 (moves_wait_offline _ _ _))); done.
Qed.

Lemma sys_input c c' : rtc sys_step c c' → co_input c' = co_input c.
Proof.
  induction 1 as [|c1 c2 c3 Hst _ IH]; [done|]. rewrite IH. destruct Hst; [apply co_step_input|done|].
  unfold CancelRepositoryUpdate. by repeat case_match.
Qed.

(** ** The coordinator does not wait without a reason *)

Definition waiting (c : Coordinator) : bool :=
  match co_pc c with
  | UStopping d _ => match row_of c (ud_source d) with Some row => negb (bool_decide (d_observed row = OStopped)) | None => false end
  | UWaiting d id _ =>
      negb (updateCancelled c) &&
      match row_of c id with
      | Some row => negb (bool_decide (d_observed row = OHealthy)) && negb (bool_decide (d_observed row = OFailed))
                    && bool_decide (d_desired row = DRunning) && negb (run_ended row (co_service c))
      | None => false
      end
  | URollStop _ _ _ id _ => match row_of c id with Some row => negb (bool_decide (d_observed row = OStopped)) | None => false end
  | URestoreWait _ _ d _ => match row_of c (ud_source d) with Some row => still_stopping row | None => false end
  | UHealthy _ _ d _ =>
      match row_of c (ud_source d) with
      | Some row => negb (bool_decide (d_observed row = OHealthy)) && negb (bool_decide (d_observed row = OFailed))
      | None => false
      end
  | _ => false
  end.

(** The waits still ahead, at most *)
Definition ahead (n : nat) (pc : UpdatePC) : nat :=
  match pc with
  | UDone => 0
  | URollback _ _ rest => 5 * length rest + 1
  | UHealthy _ _ _ rest => 5 * length rest + 2
  | URestoreWait _ _ _ rest => 5 * length rest + 3
  | URestore _ _ _ rest => 5 * length rest + 4
  | URollStop _ _ _ _ rest => 5 * length rest + 5
  | UCommit => 5 * n + 2
  | UFinish => 5 * n + 3
  | UNext rest => 5 * n + 4 + 4 * length rest
  | UWaiting _ _ rest => 5 * n + 5 + 4 * length rest
  | UEnsure _ rest => 5 * n + 6 + 4 * length rest
  | UStopping _ rest => 5 * n + 7 + 4 * length rest
  | UAcquire rest => 9 * n + 5 + length rest
  | UBegin => 10 * n + 6
  end%nat.

Definition size (c : Coordinator) : nat := length (deployments_of c).

Lemma run_ended_progress row run p s : run_ended row (ledger (SetProgress run p) s) = run_ended row s.
Proof.
  unfold run_ended. destruct (d_run row) as [r|]; [|done]. simpl. rewrite lookup_alter. case_decide; [subst|done].
  by destruct (lg_runs (sv_ledger s) !! r).
Qed.

Lemma progress_step o c : waiting c = false → co_pc c = UDone ∨ (ahead (size c) (co_pc (co_step o c)) < ahead (size c) (co_pc c))%nat.
Proof.
  pose proof (λ d, ensure_input o d c) as He. pose proof (moves_wait_offline o) as Hoff.
  unfold waiting, UpdateRun.co_step, begin, begin_stop, poll_stop, ensure, poll_replacement, commit, rolled_back, roll_replacement,
    poll_rollstop, restore, poll_restore, restore_start, poll_healthy, size, deployments_of.
  destruct (co_pc c) as [|[]|[]| |d| | | |??[]| | | | |] eqn:E; intros Hw; try (by left); right; try specialize (He d);
    repeat case_match; simplify_eq/=; rewrite ?length_reverse; try lia.
  - rewrite He. lia.
  - rename select (run_ended _ _ = false) into Hr. simpl in Hr. rewrite run_ended_progress in Hr. rewrite Hr in Hw.
    rename select (_ || _ = false) into Ho. apply orb_false_elim in Ho as [Hf Hd].
    apply negb_false_iff in Hd. rewrite Hf, Hd in Hw. done.
Qed.

(** A turn while it waits stays where it is *)
Lemma wait_step o c : waiting c = true → co_pc (co_step o c) = co_pc c.
Proof.
  pose proof (moves_wait_offline o) as Hoff.
  unfold waiting, UpdateRun.co_step, poll_stop, poll_replacement, poll_rollstop, poll_restore, poll_healthy.
  destruct (co_pc c) eqn:E; try done; intros Hw; repeat case_match; simplify_eq/=; try done;
    rewrite ?(proj2 (Hoff _ _)); try done; rewrite !andb_true_iff, !negb_true_iff in Hw; destruct Hw as [[Hf Hd] Hr].
  - rewrite Hf, Hd in *. done.
  - rename select (run_ended _ _ = true) into Hr'. simpl in Hr'. rewrite run_ended_progress in Hr'. congruence.
Qed.

(** A turn of the coordinator after any other steps that settled what it waits for *)
Inductive turns : nat → Coordinator → Coordinator → Prop :=
| turns_nil c c' : rtc sys_step c c' → turns 0 c c'
| turns_cons o n c c1 c2 : rtc sys_step c c1 → waiting c1 = false → turns n (co_step o c1) c2 → turns (S n) c c2.


Lemma ahead_step o c : (ahead (size c) (co_pc (co_step o c)) ≤ ahead (size c) (co_pc c))%nat.
Proof.
  destruct (waiting c) eqn:Hw; [by rewrite wait_step|]. destruct (progress_step o c Hw) as [E|?]; [|lia].
  unfold UpdateRun.co_step. by rewrite !E.
Qed.

Lemma size_step c c' : sys_step c c' → size c' = size c.
Proof. intros H. unfold size, deployments_of. by rewrite (sys_input c c') by by apply rtc_once. Qed.

Lemma ahead_sys c c' : rtc sys_step c c' → size c' = size c ∧ (ahead (size c) (co_pc c') ≤ ahead (size c) (co_pc c))%nat.
Proof.
  induction 1 as [|c1 c2 c3 Hst _ [IHs IHa]]; [done|]. rewrite (size_step _ _ Hst) in *. split; [done|].
  etrans; [exact IHa|]. destruct Hst as [o c|s c Hst|now c]; [apply ahead_step|done|].
  unfold CancelRepositoryUpdate. by repeat case_match.
Qed.

(** C14: An update ends.  Whatever the deployment service does in between, and whenever it is cancelled, a coordinator
    that gets a turn [10 n + 6] times when the deployment it waits for is not the one holding it up (a source or a
    replacement on its way to stopped or healthy) has finished, where [n] is the number of its deployments. *)
Theorem update_terminates n c0 c :
  co_pc c0 = UBegin → turns n c0 c → (10 * size c0 + 6 ≤ n)%nat → co_pc c = UDone.
Proof.
  intros E0 Ht Hn. assert (ahead (size c0) (co_pc c0) ≤ n)%nat as H by by rewrite E0.
  clear E0 Hn. induction Ht as [c c' Hst|o n c c1 c2 Hst Hw Ht IH].
  - destruct (ahead_sys c c' Hst) as [_ Ha]. destruct (co_pc c'); simpl in *; try lia. done.
  - destruct (ahead_sys c c1 Hst) as [Es Ha]. apply IH.
    assert (size (co_step o c1) = size c1) as Es' by by eapply size_step; constructor.
    rewrite Es'. destruct (progress_step o c1 Hw) as [E|Hlt]; [|rewrite Es in *; lia].
    unfold UpdateRun.co_step. rewrite !E. simpl. lia.
Qed.

(** ** The deployment service under a coordinator *)

(** A write to the run: it may release the leases of one owner *)
Inductive book (s : Service) : Service → Prop :=
| book_keep g : lg_leases g = leases s → book s (set_ledger (λ _, g) s)
| book_release kind owner g : lg_leases g = ReleaseLeases kind owner (leases s) → book s (set_ledger (λ _, g) s).

Definition served (s s' : Service) : Prop := rtc (λ s s', step s s' ∨ book s s') s s'.

Lemma free_any kind owner dep ls : free dep ls → free dep (ReleaseLeases kind owner ls).
Proof. intros H l Hl Ha. apply ReleaseLeases_spec in Hl as [Hl _]; [|done]. by apply H. Qed.

Lemma book_inv s s' : book s s' → inv s → inv s'.
Proof.
  intros Hb [Hr Hl Hn]. destruct Hb as [g E|kind owner g E]; split; unfold leases in *; simpl; rewrite ?E; try done.
  - intros dep d Hd Ho. destruct (Hr dep d Hd Ho) as (? & ? & ?). split_and!; [done|done|]. by apply free_any.
  - by apply release_exclusive.
Qed.

Lemma served_inv s s' : served s s' → inv s → inv s'.
Proof. induction 1 as [|s1 s2 s3 [H|H] _ IH]; eauto using step_inv, book_inv. Qed.

Lemma served_refl s : served s s.
Proof. constructor. Qed.

Lemma served_step s s1 s2 : step s1 s2 → served s s1 → served s s2.
Proof. intros H Hs. eapply rtc_r; [done|by left]. Qed.

Lemma served_book {A} (m : RunM A) s s1 :
  (lg_leases (snd (m (sv_ledger s1))) = leases s1 ∨
   ∃ kind owner, lg_leases (snd (m (sv_ledger s1))) = ReleaseLeases kind owner (leases s1)) →
  served s s1 → served s (ledger m s1).
Proof.
  intros H Hs. eapply rtc_r; [done|]. right. unfold ledger.
  replace (set_ledger _ s1) with (set_ledger (λ _, snd (m (sv_ledger s1))) s1) by done.
  destruct H as [H|(kind & owner & H)]; by econstructor.
Qed.

Lemma served_progress run p s s1 : served s s1 → served s (ledger (SetProgress run p) s1).
Proof. apply served_book. by left. Qed.
Lemma served_output run p s s1 : served s s1 → served s (ledger (SetOutput run p) s1).
Proof. apply served_book. by left. Qed.
Lemma served_state now run to code msg s s1 : served s s1 → served s (SetRunState now run to code msg s1).
Proof. apply (served_book (SetState run now to code msg)). left. apply SetState_leases. Qed.
Lemma served_cancel now run s s1 : served s s1 → served s (ledger (Cancel run now) s1).
Proof. apply served_book. left. rewrite Cancel_SetState. apply SetState_leases. Qed.
Lemma served_complete now run to code msg s s1 : served s s1 → served s (ledger (Complete run now to code msg) s1).
Proof.
  apply served_book. destruct (Complete_cases run now to code msg (sv_ledger s1)) as [(row & g & E & _ & _ & ->)|(e & E & ->)]; [right|by left].
  destruct (lease_owner run row) as [kind owner]. exists kind, owner. simpl. f_equal.
  unfold leases. by rewrite <-(SetState_leases run now to code msg (sv_ledger s1)), E.
Qed.
Lemma served_Stop env dep s s1 : served s s1 → served s (snd (Stop env dep s1)).
Proof. apply served_step. constructor. Qed.
Lemma served_Stop_eq env dep s s1 s2 r : Stop env dep s1 = (r, s2) → served s s1 → served s s2.
Proof. intros E. apply served_step. replace s2 with (snd (Stop env dep s1)) by by rewrite E. constructor. Qed.
Lemma served_Start_eq env dep run planned s s1 s2 r : Start env dep run planned s1 = (r, s2) → served s s1 → served s s2.
Proof. intros E. apply served_step. replace s2 with (snd (Start env dep run planned s1)) by by rewrite E. constructor. Qed.
Lemma served_create_eq env dep run p s s1 s2 r : createPlanned env dep run p s1 = (r, s2) → served s s1 → served s s2.
Proof. intros E. apply served_step. replace s2 with (snd (createPlanned env dep run p s1)) by by rewrite E. constructor. Qed.

Local Hint Resolve served_refl served_progress served_output served_state served_cancel served_complete served_Stop
  served_Stop_eq served_Start_eq served_create_eq : served.

Lemma served_offline o source c s : served s (co_service c) → served s (co_service (wait_offline o source c)).
Proof. intros H. unfold UpdateRun.wait_offline. case_match. case_match; simpl; eauto with served. Qed.

Lemma served_ensure o d c s : served s (co_service c) → served s (co_service (snd (ensureUpdateReplacement o d c))).
Proof. intros H. unfold UpdateRun.ensureUpdateReplacement. repeat case_match; simplify_eq/=; eauto with served. Qed.
Local Hint Resolve served_offline : served.

(** The coordinator acts on the service through its operations only *)
Lemma co_step_served o c : served (co_service c) (co_service (co_step o c)).
Proof.
  pose proof (λ d, served_ensure o d c (co_service c) (served_refl _)) as He.
  unfold UpdateRun.co_step, begin, begin_stop, poll_stop, ensure, poll_replacement, commit, rolled_back, roll_replacement,
    poll_rollstop, restore, poll_restore, restore_start, poll_healthy.
  destruct (co_pc c) as [|[]|[]| |d| | | |??[]| | | | |]; try specialize (He d);
    repeat case_match; simplify_eq/=; eauto 12 with served. apply served_offline. simpl. eauto with served.
Qed.

Lemma sys_service_inv c c' : rtc sys_step c c' → inv (co_service c) → inv (co_service c').
Proof.
  induction 1 as [|c1 c2 c3 Hst _ IH]; [done|]. intros Hi. apply IH. destruct Hst as [o c|s c Hst|now c].
  - by eapply served_inv; [apply co_step_served|].
  - by eapply step_inv.
  - unfold CancelRepositoryUpdate. do 2 (case_match; [|done]). apply (served_inv (co_service c)); [by apply served_cancel, served_refl|done].
Qed.

(** What an entry of the trace says of the tables *)
Definition truth (c : Coordinator) (a : Act) : Prop :=
  match a with
  | ActSawStopped dep => ∃ row, row_of c dep = Some row ∧ d_observed row = OStopped
  | ActSawHealthy dep => ∃ row, row_of c dep = Some row ∧ d_observed row = OHealthy
  | _ => True
  end.

Lemma truth_app c t a b : truth c b → a ∈ t ++ [b] → a ∈ t ∨ truth c a.
Proof. intros Hb [?| ->%list_elem_of_singleton]%elem_of_app; [by left|by right]. Qed.

Lemma ensure_truth o d c a : a ∈ co_trace (snd (ensureUpdateReplacement o d c)) → a ∈ co_trace c ∨ truth c a.
Proof.
  pose proof (ensure_cases o d c) as H. destruct (ensureUpdateReplacement o d c) as [[id|] c']; simpl.
  - destruct H as [[_ ->]|(_ & c1 & u & [_ _ Et] & _ & Hu & ->)]; simpl; intros [Hin|?]%(truth_app c); try done; try (by left); try (by right).
    rewrite Et in Hin. destruct Hu as [->|(b & Hb & ->)]; [rewrite app_nil_r in Hin; by left|].
    apply (truth_app c) in Hin as [?|?]; [by left|by right|]. set_unfold in Hb. by destruct Hb as [->|[->|[]]].
  - rewrite (mo_trace _ _ _ H), app_nil_r. by left.
Qed.

(** What the coordinator notes is so when it notes it *)
Lemma co_step_truth o c a : a ∈ co_trace (co_step o c) → a ∈ co_trace c ∨ truth c a.
Proof.
  pose proof (λ d, ensure_truth o d c a) as He.
  pose proof (λ d c', mo_trace _ _ _ (proj1 (moves_wait_offline o d c'))) as Hoff.
  unfold UpdateRun.co_step, begin, begin_stop, poll_stop, ensure, poll_replacement, commit, rolled_back, roll_replacement,
    poll_rollstop, restore, poll_restore, restore_start, poll_healthy.
  destruct (co_pc c) as [|[]|[]| |d| | | |??[]| | | | |]; try specialize (He d);
    repeat case_match; simplify_eq/=; rewrite ?Hoff; simpl; rewrite ?app_nil_r; try (by left); auto.
  all: intros [Hin|Ht]%(truth_app c); [|by right|]; try done; try (by left); try (by apply (truth_app c) in Hin).
  all: try (eexists; split; [eassumption|by eapply bool_decide_eq_true_1]).
Qed.

Lemma seen_all c0 c : co_trace c0 = [] → rtc sys_step c0 c → ∀ a, a ∈ co_trace c → ∃ c1, rtc sys_step c0 c1 ∧ rtc sys_step c1 c ∧ truth c1 a.
Proof.
  intros E Hst. pattern c. revert c Hst. apply rtc_ind_r; [rewrite E; by intros a ?%elem_of_nil|].
  intros c c' Hr Hst IH a Ha. assert (a ∈ co_trace c ∨ truth c a) as [Hin|Ht].
  { destruct Hst as [o c|s c Hs|now c]; [by eapply co_step_truth|by left|]. left. revert Ha. unfold CancelRepositoryUpdate. by repeat case_match. }
  - destruct (IH a Hin) as (c1 & ? & ? & ?). exists c1. split_and!; [done|by eapply rtc_r|done].
  - exists c. split_and!; [done|by apply rtc_once|done].
Qed.

(** C11: How a repository update ends.  A coordinator whose deployments all have targets, run to its end among any
    other steps of the deployment service and any cancellation, has done one of three things.  It acquired what the
    replacements need, and then for every deployment in order saw the source stopped, started or found its
    replacement and saw that healthy before it touched the next, and completed the run as succeeded; or it did a
    part of that and took it back in reverse order, with every recorded replacement seen stopped before its source
    was seen healthy again (sources that were stopped before stay so), and completed the run as cancelled or
    failed; or a step of the rollback failed, and it completed the run with recipe.rollback_failed.  Only a run
    whose row is gone ends without a word.  Every replacement it used is the one recorded in the progress, and
    whatever it noted as stopped or healthy was so in the tables at some moment of the run. *)
Theorem update_outcome c0 c :
  fit c0 → rtc sys_step c0 c → co_pc c = UDone →
  (co_trace c = [] ∨ outcome (deployments_of c0) (hardware_of c) (co_trace c)) ∧ recorded (hardware_of c) (co_trace c) ∧
  ∀ a, a ∈ co_trace c → ∃ c1, rtc sys_step c0 c1 ∧ rtc sys_step c1 c ∧ truth c1 a.
Proof.
  intros Hf Hst E. destruct (sys_inv _ _ Hst (fit_inv _ Hf)) as [Hp Hr _ _ _]. split_and!; [|done|by apply seen_all; [apply Hf|]].
  rewrite E in Hp. unfold deployments_of in *. by rewrite <-(sys_input _ _ Hst).
Qed.

Lemma row_stopped dep c : inv (co_service c) → truth c (ActSawStopped dep) → free dep (leases (co_service c)).
Proof. intros [Hr _ _] (row & E & Eo). by apply (Hr dep row E Eo). Qed.

Lemma start_served input_json now rid i s c : start_replacement input_json progress_json now rid i s = Ok c → served s (co_service c).
Proof.
  unfold start_replacement. destruct (Runs.Create _ _ _ _ _ _ _) as [[r|e] g] eqn:E; [|done]. intros [= <-]. simpl.
  do 2 apply served_state. apply served_progress. eapply rtc_once. right. apply book_keep.
  revert E. unfold Runs.Create, CreateRun, publish. unfold_st. destruct (_ || _); simpl; [done|]. by intros [= _ <-].
Qed.

Notation life := (life marshalParameters plan_input progress_json output_json plan_digest).

Lemma life_inv c c' : rtc life c c' → inv (co_service c) → inv (co_service c').
Proof.
  induction 1 as [|c1 c2 c3 [Hst| ->] _ IH]; [done|intros Hi; apply IH..].
  - by eapply sys_service_inv; [apply rtc_once|].
  - by eapply step_inv; [apply step_restart|].
Qed.

(** No two active leases conflict, and a deployment reported stopped is to be stopped, is stopped on every rank and
    holds no lease *)
Definition promises (s : Service) : Prop :=
  leases_exclusive (leases s) ∧
  ∀ dep d, sv_deployments s !! dep = Some d → d_observed d = OStopped →
    d_desired d = DStopped ∧ (∀ rank, rank ∈ AllRanks (d_placement d) → phase d rank = PhaseStopped) ∧ free dep (leases s).

(** C12: The deployment service keeps its promises while an update runs.  From a service that its own operations
    reached, an update created there and any interleaving of its coordinator with those operations, with
    cancellations and with restarts of the controller keep the leases exclusive, and a deployment reported stopped
    is to be stopped, stopped on every rank and holds no lease; in particular a deployment holds nothing at the
    moment the coordinator takes note that it stopped, whether that is a source before its replacement starts or a
    replacement before its source is restored. *)
Theorem update_safe input_json now rid i s c0 c o :
  rtc step New s → start_replacement input_json progress_json now rid i s = Ok c0 → rtc life c0 c →
  promises (co_service c) ∧
  (∀ dep, ActSawStopped dep ∈ co_trace (co_step o c) → ActSawStopped dep ∉ co_trace c → free dep (leases (co_service c))).
Proof.
  intros H0 E Hst. assert (inv (co_service c)) as Hi.
  { eapply life_inv; [done|]. eapply served_inv; [by eapply start_served|by apply reachable_inv]. }
  split; [split; apply Hi|]. intros dep Hin Hnot.
  destruct (co_step_truth o c _ Hin); [done|by apply row_stopped].
Qed.
End invariant.

(** ** Concrete updates *)

Definition sample_target : Plan := mkPlan "target" "model" "2" ∅ ∅ "" 0 [] [] None [] [] [] [] no_endpoint [] [] [] true.

Definition sample_parameters (_ : gmap string any) : string := "{}".
Definition sample_input (_ : Plan) : bytes := [].
Definition sample_json (_ : repositoryUpdateProgress) : list (string * json) := [].
Definition sample_digest (_ : Plan) (_ : option Preview) : string := "digest".

Notation sample_step := (UpdateRun.co_step sample_parameters sample_input sample_json sample_json sample_digest).

Definition sample_env : Env :=
  mkEnv "t" (λ _, true) (λ _, true) (λ _ _, Ok false) (λ _ _, Ok tt) (λ _, None) (λ _, (true, "")).

Definition sample_oracle (acquired : bool) : Oracle :=
  mkOracle sample_env "dep" "run" acquired (Err ErrNoTarget) (Err Deploy.ErrNotReady) (λ _, None).

Definition sample_row (recipe : string) (desired : Desired) (observed : Observed) : DepRow :=
  mkDep recipe "{}" (mkPlacementSet ∅ [] (Some 0) []) desired observed None None [] None ∅.

Definition sample_run (state : State) : RunRow :=
  mkRun "library" "recipe-update" state [] [] None None None None "t" None None [].

Definition sample_service (rows : list (string * DepRow)) : Service :=
  mkService (list_to_map rows) ∅ (mkLedger {["update" := sample_run Waiting]} [] Events.NewEventBus (list_to_set (fst <$> rows))) ∅ ∅ ∅ ∅ [] 0%N.

Definition sample_targets (sources : list string) : list RepositoryUpdateTarget :=
  (λ source, mkUpdateTarget source "" "node" "online" 0 "pending" "" 0 "") <$> sources.

Definition sample_coordinator (rows : list (string * DepRow)) (sources : list string) : Coordinator :=
  let ts := sample_targets sources in
  let ds := (λ source, mkUpdateDeployment source "digest" false ∅ (mkPlacementSet ∅ [] (Some 0) []) "" 0 ∅ sample_target None [] [] []) <$> sources in
  let i := mkUpdateInput "target" [] ts ds in
  mkCoordinator (sample_service rows) "update" i (initial_progress i) (initial_progress i) UBegin [].

Fixpoint steps (n : nat) (o : Oracle) (c : Coordinator) : Coordinator :=
  match n with O => c | S n => steps n o (sample_step o c) end.

Lemma steps_sys n o c :
  rtc (UpdateRun.sys_step sample_parameters sample_input sample_json sample_json sample_digest) c (steps n o c).
Proof. revert c. induction n as [|n IH]; intros c; [constructor|]. simpl. econstructor; [constructor|apply IH]. Qed.

(** A stopped source and a healthy deployment of the target *)
Definition sample_update : Coordinator :=
  sample_coordinator [("old", sample_row "source" DStopped OStopped); ("new", sample_row "target" DRunning OHealthy)] ["old"].

Lemma sample_fit : fit sample_update.
Proof.
  split; [done|done| |right]; intros d Hd; apply list_elem_of_singleton in Hd as ->; simpl; apply list_elem_of_here.
Qed.

Lemma update_outcome_witness :
  let c := steps 10 (sample_oracle true) sample_update in
  co_trace c = [ActAcquired "old"; ActSawStopped "old"; ActReplace "old" "new"; ActSawHealthy "new"; ActComplete Succeeded ""] ∧
  (co_trace c = [] ∨ outcome (deployments_of sample_update) (hardware_of c) (co_trace c)) ∧ recorded (hardware_of c) (co_trace c).
Proof.
  intros c. split; [by vm_compute|].
  destruct (update_outcome sample_parameters sample_input sample_json sample_json sample_digest sample_update c) as (Ho & Hr & _);
    [apply sample_fit|apply steps_sys|by vm_compute|]. exact (conj Ho Hr).
Defined.

(** No turn of these steps finds the coordinator waiting *)
Fixpoint never_waits (n : nat) (o : Oracle) (c : Coordinator) : bool :=
  match n with O => true | S n => negb (waiting c) && never_waits n o (sample_step o c) end.

Lemma steps_turns n o c : never_waits n o c = true →
  turns sample_parameters sample_input sample_json sample_json sample_digest n c (steps n o c).
Proof.
  revert c. induction n as [|n IH]; intros c; simpl; [by constructor|].
  intros [Hw%negb_true_iff Hn]%andb_prop. by eapply turns_cons; [constructor|done|apply IH].
Qed.

Lemma update_terminates_witness :
  (10 * size sample_update + 6 ≤ 16)%nat ∧ co_pc (steps 16 (sample_oracle true) sample_update) = UDone.
Proof.
  split; [vm_compute; lia|].
  apply (update_terminates sample_parameters sample_input sample_json sample_json sample_digest 16 sample_update);
    [done|by apply steps_turns; vm_compute|vm_compute; lia].
Defined.

(** A service whose operations created a deployment of the recipe [source] *)
Definition sample_created : Service :=
  snd (createPlanned sample_env "old" "run1" (launch_plan "{}" [] (mkPlan "source" "model" "1" ∅ ∅ "" 0 [] [] None [] [] [] [] no_endpoint [] [] [] true))
         (install "source" fabric_recipe New)).

Definition sample_start : result run_error Coordinator :=
  start_replacement (λ _, []) sample_json "t" "update" (co_input sample_update) sample_created.

Definition sample_started : Coordinator := match sample_start with Ok c => c | Err _ => sample_update end.

(** The update stops the source and is about to see that *)
Lemma update_safe_witness :
  let c := steps 4 (sample_oracle true) sample_started in
  ActSawStopped "old" ∈ co_trace (sample_step (sample_oracle true) c) ∧ free "old" (leases (co_service c)).
Proof.
  intros c. assert (ActSawStopped "old" ∈ co_trace (sample_step (sample_oracle true) c)) as Hin
    by (apply (bool_decide_unpack _); by vm_compute).
  assert (ActSawStopped "old" ∉ co_trace c) as Hnot by (apply (bool_decide_unpack _); by vm_compute).
  split; [exact Hin|].
  apply (update_safe sample_parameters sample_input sample_json sample_json sample_digest (λ _, []) "t" "update" (co_input sample_update)
           sample_created sample_started c (sample_oracle true)).
  - eapply rtc_l; [apply (step_install "source" fabric_recipe)|]. apply rtc_once, step_create.
  - by vm_compute.
  - eapply rtc_subrel; [|apply steps_sys]. intros x y H. by left.
  - exact Hin.
  - exact Hnot.
Defined.

(** ** What the rollback does to deployments it need not touch *)

Lemma steps_app m n o c : steps (m + n) o c = steps n o (steps m o c).
Proof. revert c. induction m as [|m IH]; intros c; simpl; [done|apply IH]. Qed.

Lemma steps_fixed n o c : sample_step o c = c → steps n o c = c.
Proof. intros E. induction n as [|n IH]; simpl; [done|]. by rewrite E. Qed.

(** An acquisition that fails before anything is stopped is rolled back over every deployment of the update: one that
    had failed before is reported as [recipe.rollback_failed], though it was never stopped *)
Theorem rollback_reports_untouched :
  let c := steps 10 (sample_oracle false) (sample_coordinator [("old", sample_row "source" DRunning OFailed)] ["old"]) in
  co_trace c = [ActGaveUp "old"; ActComplete Failed "recipe.rollback_failed"] ∧
  row_of c "old" = Some (sample_row "source" DRunning OFailed).
Proof. by vm_compute. Qed.

(** ... and one that is running and not healthy yet is waited for, cancelled or not *)
Theorem rollback_waits_for_untouched n o :
  let c := steps (4 + n) (sample_oracle false) (sample_coordinator [("old", sample_row "source" DRunning OUnknown)] ["old"]) in
  co_trace c = [] ∧ waiting c = true ∧ waiting (CancelRepositoryUpdate o c) = true.
Proof.
  intros c. unfold c. rewrite steps_app, steps_fixed; vm_compute; [|reflexivity]. done.
Qed.

(** A restart of the controller in the middle of a rollback begins the update anew: the source that was being restored
    is stopped again *)
Definition sample_restorable : Oracle :=
  mkOracle sample_env "dep" "run" true (Err ErrNoTarget)
    (Ok (launch_plan "{}" [] (mkPlan "source" "model" "1" ∅ ∅ "" 0 [] [] None [] [] [] [] no_endpoint [] [] [] true))) (λ _, None).

Theorem restart_forgets_rollback :
  let c := steps 8 sample_restorable (sample_coordinator [("old", sample_row "source" DRunning OHealthy)] ["old"]) in
  co_trace c = [ActAcquired "old"; ActStop "old"; ActSawStopped "old"; ActStart "old"] ∧
  up_phase (co_saved c) = "restoring_old" ∧
  co_trace (steps 4 sample_restorable (resume c)) = [ActAcquired "old"; ActStop "old"].
Proof. by vm_compute. Qed.

(** A cancellation after the last check and before the run is completed is accepted, is not acted on, and leaves the
    run in [cancelling]; the next restart of the controller rolls the finished update back *)
Theorem cancel_after_last_check :
  let c := steps 1 (sample_oracle true) (CancelRepositoryUpdate "t" (steps 9 (sample_oracle true) sample_update)) in
  co_pc c = UDone ∧ up_phase (co_saved c) = "ready" ∧ updateCancelled c = true ∧
  co_trace (steps 3 (sample_oracle true) (resume c)) = [ActStop "new"; ActSawStopped "new"].
Proof. by vm_compute. Qed.
