(* ===== verification/UpdatePlan.v ===== *)
(** * Planning the replacement of deployments: [planReplacement] of [internal/deploy/update.go]

    The plan of an update names, for every selected deployment that changes, its source contract and the plan of its
    replacement on the same ranks.  It is computed from the tables as one call reads them and calls [plan] of
    [Plan] once per deployment.  What resolving the launch settings gives, the acquisition preview that a plan
    carries and the digest of an update plan are arguments, as in [Plan]; a failing database and the text of
    diagnostics are not modelled. *)

From S2P Require Import Prelude GoStrings Utf8 Merge CJson Diag Inventory Leases Runs Recipe Fabric DeployState Deploy DeployInv PlanPlace PlanUpstream Plan UpdateRun UpdateInv.
Open Scope Z_scope.

(** ** Data *)

Record RepositoryReplacementSettings := mkReplacementSettings {
  rs_parameters : gmap string any; rs_variants : gmap string string; rs_workload : option Z }.

Record RepositoryReplacementRequest := mkReplacementRequest {
  rq_target : string;
  rq_deployments : list string;
  rq_settings : gmap string RepositoryReplacementSettings;
}.

(** A deployment's row with its columns decoded; [sr_configured] are the nodes whose upstream preview has edits *)
Record SourceRow := mkSourceRow {
  sr_row : DepRow;
  sr_values : gmap string any;
  sr_variants : gmap string string;
  sr_fabric : option string;
  sr_configured : list string;
}.

Record RepositoryUpdatePlan := mkUpdatePlan {
  ru_repository : string;
  ru_target : string;
  ru_ids : list string;
  ru_unchanged : list string;
  ru_current : list string;
  ru_candidate : list string;
  ru_added : list string;
  ru_removed : list string;
  ru_devices : list RepositoryUpdateDevice;
  ru_targets : list RepositoryUpdateTarget;
  ru_deployments : list RepositoryUpdateDeployment;
  ru_diagnostics : list Diagnostic;
  ru_ready : bool;
}.

Inductive replace_error :=
| RepRecipe | RepState | RepRow | RepManifest | RepNode | RepPlan (e : plan_error).

(** ** Permissions *)

Definition permissionChanges (current candidate : list string) : list string * list string :=
  (filter (λ p, p ∉ current) candidate, filter (λ p, p ∉ candidate) current).

Definition unionPermissions (left right : list string) : list string :=
  sort_strings (foldl (λ left value, if bool_decide (value ∈ left) then left else left ++ [value]) left right).

(** ** The loop bodies *)

Fixpoint fold_result {E A B} (f : B → A → result E B) (b : B) (xs : list A) : result E B :=
  match xs with
  | [] => Ok b
  | x :: xs => b ← f b x; fold_result f b xs
  end.

Definition GetNode (wd : World) (id : string) : result replace_error PlanNode :=
  match find (λ n, bool_decide (n_id n = id)) (wd_nodes wd) with Some n => Ok n | None => Err RepNode end.

Definition protocol_features (n : PlanNode) : list string :=
  match n_inventory n with Reported inv => inv_protocol inv | _ => [] end.

(** The placements of a row; older rows hold a map of ranks only *)
Definition source_placements (wd : World) (ps : placementSet) : result replace_error (list Placement) :=
  match ps_entries ps with
  | [] =>
      pls ← fold_result (λ pls e, node ← GetNode wd (fst e);
              Ok (pls ++ [mkPlacement (fst e) (n_name node) (wrap32 (snd e)) 0 "" [] ""])) [] (map_to_list (ps_ranks ps));
      Ok (sort_placements pls)
  | es => Ok es
  end.

Definition planOverrides (pls : list Placement) : list PlacementOverride := (λ p, mkOverride (pl_node p) (pl_rank p)) <$> pls.

(** A plan that cannot be used, and why *)
Definition unready (code : string) (p : Plan) : Plan :=
  mkPlan (pn_recipe p) (pn_name p) (pn_version p) (pn_parameters p) (pn_variants p) (pn_policy p) (pn_workload p) (pn_missing p)
    (pn_placements p) (pn_fabric p) (pn_images p) (pn_hosts p) (pn_upstream p) (pn_ports p) (pn_endpoint p) (pn_risks p)
    (pn_conflicts p) (pn_diagnostics p ++ [failure code]) false.

Definition unready_when (b : bool) (code : string) (p : Plan) : Plan := if b then unready code p else p.

(** What must stay as it is when a deployment is replaced *)
Definition preserve (settingsChanged : bool) (pls : list Placement) (workload : option Z) (fabric : string) (p : Plan) : Plan :=
  let p := unready_when (preservedPlacementMismatch pls (pn_placements p)) "recipe.update_placement_changed" p in
  let p := unready_when (match workload with Some w => negb settingsChanged && negb (pn_workload p =? w) | None => false end)
             "recipe.update_workload_changed" p in
  unready_when (negb (bool_decide (fabric = default "" (pn_fabric p)))) "recipe.update_fabric_changed" p.

(** The device of a placement: known ones gain the digest *)
Fixpoint add_device (n : PlanNode) (digest : string) (ds : list RepositoryUpdateDevice) : list RepositoryUpdateDevice :=
  match ds with
  | [] => [mkRepositoryUpdateDevice (n_id n) (n_name n) (n_status n) [digest]]
  | d :: ds =>
      if bool_decide (rv_node d = n_id n)
      then mkRepositoryUpdateDevice (rv_node d) (rv_name d) (rv_status d) (unionPermissions (rv_digests d) [digest]) :: ds
      else d :: add_device n digest ds
  end.

Definition report (codes : list string) (p : RepositoryUpdatePlan) : RepositoryUpdatePlan :=
  mkUpdatePlan (ru_repository p) (ru_target p) (ru_ids p) (ru_unchanged p) (ru_current p) (ru_candidate p) (ru_added p) (ru_removed p)
    (ru_devices p) (ru_targets p) (ru_deployments p) (ru_diagnostics p ++ (failure <$> codes))
    (ru_ready p && bool_decide (codes = [])).

Definition add_target (d : PlanNode) (digest : string) (t : RepositoryUpdateTarget) (p : RepositoryUpdatePlan) : RepositoryUpdatePlan :=
  mkUpdatePlan (ru_repository p) (ru_target p) (ru_ids p) (ru_unchanged p) (ru_current p) (ru_candidate p) (ru_added p) (ru_removed p)
    (add_device d digest (ru_devices p)) (ru_targets p ++ [t]) (ru_deployments p) (ru_diagnostics p) (ru_ready p).

Definition add_unchanged (id : string) (p : RepositoryUpdatePlan) : RepositoryUpdatePlan :=
  mkUpdatePlan (ru_repository p) (ru_target p) (ru_ids p) (ru_unchanged p ++ [id]) (ru_current p) (ru_candidate p) (ru_added p) (ru_removed p)
    (ru_devices p) (ru_targets p) (ru_deployments p) (ru_diagnostics p) (ru_ready p).

(** What is wrong with a node that has to stop, and perhaps restore, a source *)
Definition node_problems (current : list string) (configured : list string) (n : PlanNode) : list string :=
  (if bool_decide (n_status n = "online") then [] else ["recipe.update_device_offline"])
  ++ if bool_decide ("host.upstream-exec" ∈ current) then
       (if bool_decide (UpstreamProtocolFeature ∈ protocol_features n) then [] else ["upstream.stop_authority_unavailable"])
       ++ (if bool_decide (n_id n ∈ configured) && negb (bool_decide (UpstreamConfigurationProtocolFeature ∈ protocol_features n))
           then ["upstream.configuration_restore_unavailable"] else [])
     else [].

Definition placement_step (wd : World) (id : string) (sr : SourceRow) (current : list string) (p : RepositoryUpdatePlan) (pl : Placement)
    : result replace_error RepositoryUpdatePlan :=
  node ← GetNode wd (pl_node pl);
  let t := mkUpdateTarget id "" (pl_node pl) (n_status node) (pl_rank pl) "pending" "fetching" 0 "" in
  Ok (add_target node (d_recipe (sr_row sr)) t (report (node_problems current (sr_configured sr) node) p)).

Section replacement.
Context (format_float : float → string) (format_composite : json → string)
        (parse_float : string → option float) (json_array : string → option (list json))
        (downloads_plan : AcquisitionRequest → option Acquisition)
        (preview_ssh : list Placement → list UpstreamPreview → list Diagnostic).
(** [marshalParameters]; resolving the settings of a request; the preview a plan carries *)
Context (marshalParameters : gmap string any → string)
        (resolve : string → gmap string any → gmap string string → settings_outcome)
        (previews : Plan → option Preview).
(** The tables: plans read [wd], the repository of a saved version, the deployments *)
Context (wd : World) (versions : gmap string string) (rows : gmap string SourceRow).

Definition manifest_of (digest : string) : result replace_error Manifest :=
  match wd_recipes wd !! digest with
  | None => Err RepRow
  | Some row => match rr_manifest row with Some m => Ok m | None => Err RepManifest end
  end.

Definition belongs (repository digest : string) : bool := bool_decide (versions !! digest = Some repository).

(** The inputs of the replacement's plan *)
Definition target_settings (req : RepositoryReplacementRequest) (id : string) (sr : SourceRow) : RepositoryReplacementSettings :=
  match rq_settings req !! id with
  | Some s => s
  | None => mkReplacementSettings (sr_values sr) (sr_variants sr) (ps_workload (d_placement (sr_row sr)))
  end.

Definition replacement_plan (req : RepositoryReplacementRequest) (id : string) (sr : SourceRow) (pls : list Placement) : result plan_error Plan :=
  let s := target_settings req id sr in
  plan format_float format_composite parse_float json_array downloads_plan preview_ssh wd
    (resolve (rq_target req) (rs_parameters s) (rs_variants s)) [id]
    (mkPlanRequest (rq_target req) AcquisitionDownloadMissing (rs_workload s) (planOverrides pls)).

(** The settings, variants and workload are those the deployment has *)
Definition same_configuration (m : Manifest) (sr : SourceRow) (p : Plan) : result replace_error bool :=
  match EffectiveSettings format_float format_composite parse_float json_array m (sr_values sr) with
  | Err _ => Err RepRecipe
  | Ok current =>
      Ok (bool_decide (marshalParameters current = marshalParameters (pn_parameters p))
          && bool_decide (sr_variants sr = pn_variants p)
          && (default 0 (ps_workload (d_placement (sr_row sr))) =? pn_workload p))
  end.

Definition add_deployment (d : RepositoryUpdateDeployment) (p : RepositoryUpdatePlan) : RepositoryUpdatePlan :=
  mkUpdatePlan (ru_repository p) (ru_target p) (ru_ids p) (ru_unchanged p)
    (ru_current p) (ru_candidate p) (ru_added p) (ru_removed p)
    (ru_devices p) (ru_targets p) (ru_deployments p ++ [d]) (ru_diagnostics p) (ru_ready p).

Definition add_permissions (current added removed : list string) (p : RepositoryUpdatePlan) : RepositoryUpdatePlan :=
  mkUpdatePlan (ru_repository p) (ru_target p) (ru_ids p) (ru_unchanged p)
    (unionPermissions (ru_current p) current) (ru_candidate p) (unionPermissions (ru_added p) added) (unionPermissions (ru_removed p) removed)
    (ru_devices p) (ru_targets p) (ru_deployments p) (ru_diagnostics p) (ru_ready p).

(** The plan of a deployment that is not ready makes the update not ready *)
Definition absorb (dp : Plan) (p : RepositoryUpdatePlan) : RepositoryUpdatePlan :=
  mkUpdatePlan (ru_repository p) (ru_target p) (ru_ids p) (ru_unchanged p) (ru_current p) (ru_candidate p) (ru_added p) (ru_removed p)
    (ru_devices p) (ru_targets p) (ru_deployments p)
    (if pn_ready dp then ru_diagnostics p else ru_diagnostics p ++ pn_diagnostics dp) (ru_ready p && pn_ready dp).

(** The contract of a deployment that changes *)
Definition contract (req : RepositoryReplacementRequest) (id : string) (sr : SourceRow) (current added removed : list string) (pls : list Placement)
    (dp : Plan) : RepositoryUpdateDeployment :=
  let ps := d_placement (sr_row sr) in
  let fabric := default "" (sr_fabric sr) in
  let kept := preserve (bool_decide (is_Some (rq_settings req !! id))) pls (ps_workload ps) fabric dp in
  mkUpdateDeployment id (d_recipe (sr_row sr)) (bool_decide (d_desired (sr_row sr) = DStopped)) (sr_values sr) ps fabric
    (default 0 (ps_workload ps)) (sr_variants sr) kept (previews kept) current added removed.

Definition row_step (req : RepositoryReplacementRequest) (p : RepositoryUpdatePlan) (e : string * SourceRow)
    : result replace_error RepositoryUpdatePlan :=
  let '(id, sr) := e in
  let same := bool_decide (d_recipe (sr_row sr) = rq_target req) in
  if same && negb (bool_decide (is_Some (rq_settings req !! id))) then Ok (add_unchanged id p)
  else
    m ← manifest_of (d_recipe (sr_row sr));
    let current := HighRiskPermissions m in
    let '(added, removed) := permissionChanges current (ru_candidate p) in
    let p := add_permissions current added removed p in
    pls ← source_placements wd (d_placement (sr_row sr));
    match replacement_plan req id sr pls with
    | Err e => Err (RepPlan e)
    | Ok dp =>
        match (if same then same_configuration m sr dp else Ok false) with
        | Err e => Err e
        | Ok true => Ok (add_unchanged id p)
        | Ok false =>
            let d := contract req id sr current added removed pls dp in
            p ← fold_result (placement_step wd id sr current) (add_deployment d p) pls;
            Ok (absorb (ud_plan d) p)
        end
    end.

(** The selection: every row, in the order of the identifiers *)
Definition select_row (repository target id : string) : result replace_error (string * SourceRow) :=
  match rows !! id with
  | None => Err RepRecipe
  | Some sr =>
      let r := sr_row sr in
      if negb (if bool_decide (repository = "") then bool_decide (d_recipe r = target) else belongs repository (d_recipe r))
      then Err RepRecipe
      else if negb (bool_decide (d_desired r = DRunning)) && negb (startable r) then Err RepState
      else Ok (id, sr)
  end.

Definition selection_ok (req : RepositoryReplacementRequest) : bool :=
  negb (bool_decide (rq_target req = "")) && negb (bool_decide (rq_deployments req = []))
  && negb (bool_decide ("" ∈ rq_deployments req)) && bool_decide (NoDup (rq_deployments req))
  && forallb (λ e, bool_decide (fst e ∈ rq_deployments req)) (map_to_list (rq_settings req)).

Definition source_le (a b : RepositoryUpdateDeployment) : Prop := String.le (ud_source a) (ud_source b).
Definition device_le (a b : RepositoryUpdateDevice) : Prop := String.le (rv_node a) (rv_node b).
Definition target_le (a b : RepositoryUpdateTarget) : Prop :=
  if decide (ut_source a = ut_source b) then ut_rank a ≤ ut_rank b else String.le (ut_source a) (ut_source b).

#[export] Instance source_le_dec : RelDecision source_le.
Proof. intros a b. unfold source_le. apply _. Defined.
#[export] Instance device_le_dec : RelDecision device_le.
Proof. intros a b. unfold device_le. apply _. Defined.
#[export] Instance target_le_dec : RelDecision target_le.
Proof. intros a b. unfold target_le. destruct (decide _); apply _. Defined.

Definition sort_plan (p : RepositoryUpdatePlan) : RepositoryUpdatePlan :=
  mkUpdatePlan (ru_repository p) (ru_target p) (ru_ids p) (sort_strings (ru_unchanged p)) (ru_current p) (ru_candidate p) (ru_added p)
    (ru_removed p) (merge_sort device_le (ru_devices p)) (merge_sort target_le (ru_targets p)) (merge_sort source_le (ru_deployments p))
    (ru_diagnostics p) (ru_ready p).

Definition planReplacement (repository : string) (req : RepositoryReplacementRequest) : result replace_error RepositoryUpdatePlan :=
  if negb (selection_ok req) then Err RepRecipe
  else if negb (bool_decide (repository = "")) && negb (belongs repository (rq_target req)) then Err RepRecipe
  else
    m ← manifest_of (rq_target req);
    let ids := sort_strings (rq_deployments req) in
    let p := mkUpdatePlan repository (rq_target req) ids [] [] (HighRiskPermissions m) [] [] [] [] [] [] true in
    es ← fold_result (λ es id, e ← select_row repository (rq_target req) id; Ok (es ++ [e])) [] ids;
    p ← fold_result (row_step req) p es;
    Ok (sort_plan p).

Definition PlanRepositoryUpdate (repository : string) (req : RepositoryReplacementRequest) : result replace_error RepositoryUpdatePlan :=
  if bool_decide (repository = "") then Err RepRecipe else planReplacement repository req.
End replacement.

(** ** Creating the update *)

Inductive update_create_error := UpdStale | UpdNotReady | UpdPlan (e : replace_error) | UpdRun (e : run_error).

Definition update_input (p : RepositoryUpdatePlan) : UpdateInput :=
  mkUpdateInput (ru_target p) (ru_devices p) (ru_targets p) (ru_deployments p).

Definition createReplacement (input_json : UpdateInput → list (string * json)) (progress_json : repositoryUpdateProgress → list (string * json))
    (digest : RepositoryUpdatePlan → string) (now rid reviewed : string) (p : RepositoryUpdatePlan) (s : Service)
    : result update_create_error Coordinator :=
  if negb (bool_decide (digest p = reviewed)) then Err UpdStale
  else if negb (ru_ready p) then Err UpdNotReady
  else match start_replacement input_json progress_json now rid (update_input p) s with
       | Ok c => Ok c
       | Err e => Err (UpdRun e)
       end.

(** ** Facts *)

(** What holds of every prefix of a loop holds of the loop *)
Lemma fold_result_ind {E A B} (f : B → A → result E B) (P : list A → B → Prop) b0 xs b :
  (∀ done x b b', f b x = Ok b' → P done b → P (done ++ [x]) b') → P [] b0 → fold_result f b0 xs = Ok b → P xs b.
Proof.
  intros Hstep. change xs with ([] ++ xs) at 2. generalize (@nil A). revert b0.
  induction xs as [|x xs IH]; intros b0 done H0; simpl; [intros [= <-]; by rewrite app_nil_r|].
  destruct (f b0 x) as [b1|] eqn:E1; simpl; [|done]. intros Hf.
  replace (done ++ x :: xs) with ((done ++ [x]) ++ xs) by by rewrite <-app_assoc. eapply IH; eauto.
Qed.

Lemma unready_when_ready b code p : pn_ready (unready_when b code p) = negb b && pn_ready p.
Proof. by destruct b. Qed.

Lemma unready_when_same b code p :
  pn_placements (unready_when b code p) = pn_placements p ∧ pn_workload (unready_when b code p) = pn_workload p
  ∧ pn_fabric (unready_when b code p) = pn_fabric p.
Proof. by destruct b. Qed.

Lemma preserve_ready changed pls workload fabric p :
  let kept := preserve changed pls workload fabric p in
  pn_placements kept = pn_placements p ∧ pn_workload kept = pn_workload p ∧ pn_fabric kept = pn_fabric p ∧
  (pn_ready kept = true → pn_ready p = true ∧ preservedPlacementMismatch pls (pn_placements p) = false ∧
     fabric = default "" (pn_fabric p) ∧ ∀ w, changed = false → workload = Some w → pn_workload p = w).
Proof.
  unfold preserve. cbn zeta. rewrite !unready_when_ready.
  set (p1 := unready_when (preservedPlacementMismatch _ _) _ p).
  destruct (unready_when_same (preservedPlacementMismatch pls (pn_placements p)) "recipe.update_placement_changed" p) as (E1 & E2 & E3).
  fold p1 in E1, E2, E3. set (b2 := match workload with Some w => _ | None => false end). set (p2 := unready_when b2 _ p1).
  destruct (unready_when_same b2 "recipe.update_workload_changed" p1) as (F1 & F2 & F3). fold p2 in F1, F2, F3.
  destruct (unready_when_same (negb (bool_decide (fabric = default "" (pn_fabric p2)))) "recipe.update_fabric_changed" p2) as (G1 & G2 & G3).
  split_and!; [congruence..|]. rewrite !andb_true_iff, !negb_true_iff. intros (Hf & Hw & Hm & Hr).
  apply negb_false_iff, bool_decide_eq_true in Hf. rewrite F3, E3 in Hf.
  split_and!; [done..|]. intros w -> ->. unfold b2 in Hw. simpl in Hw. apply negb_false_iff, Z.eqb_eq in Hw. congruence.
Qed.

(** Every rank keeps its node, and its accelerator when it names one *)
Definition kept_on (source target : list Placement) : Prop :=
  length source = length target ∧
  ∀ pl, pl ∈ source → ∃ pl', pl' ∈ target ∧ pl_rank pl' = pl_rank pl ∧ pl_node pl' = pl_node pl ∧ (pl_uuid pl ≠ "" → pl_uuid pl' = pl_uuid pl).

Lemma preservedPlacementMismatch_spec source target : preservedPlacementMismatch source target = false → kept_on source target.
Proof.
  unfold preservedPlacementMismatch. rewrite orb_false_iff, negb_false_iff, Nat.eqb_eq. intros [Hl He]. split; [done|].
  intros pl Hpl. apply not_true_iff_false in He. rewrite existsb_exists in He.
  destruct (find (λ a, pl_rank a =? pl_rank pl) (reverse target)) as [pl'|] eqn:Ef.
  - pose proof (find_some _ _ Ef) as [Hin Hr%Z.eqb_eq]. exists pl'. apply list_elem_of_In in Hin. rewrite elem_of_reverse in Hin. split; [done|]. split; [done|].
    assert (¬ (negb (bool_decide (pl_node pl' = pl_node pl)) || (negb (bool_decide (pl_uuid pl = "")) && negb (bool_decide (pl_uuid pl' = pl_uuid pl))) = true)) as Hn.
    { intros Hb. apply He. exists pl. split; [by apply list_elem_of_In|]. by rewrite Ef. }
    apply not_true_is_false, orb_false_elim in Hn as [Hn Hu]. apply negb_false_iff, bool_decide_eq_true in Hn.
    split; [done|]. intros Hne. rewrite (bool_decide_eq_false_2 _ Hne) in Hu. simpl in Hu. by apply negb_false_iff, bool_decide_eq_true in Hu.
  - destruct He. exists pl. split; [by apply list_elem_of_In|]. by rewrite Ef.
Qed.

Lemma placement_loop wd id sr current pls p p' :
  fold_result (placement_step wd id sr current) p pls = Ok p' →
  ru_unchanged p' = ru_unchanged p ∧ ru_deployments p' = ru_deployments p ∧ ru_ids p' = ru_ids p ∧ ru_candidate p' = ru_candidate p ∧
  ru_targets p ⊆ ru_targets p' ∧
  (∀ pl, pl ∈ pls → ∃ t, t ∈ ru_targets p' ∧ ut_source t = id ∧ ut_node t = pl_node pl ∧ ut_rank t = pl_rank pl) ∧
  (ru_ready p' = true → ru_ready p = true ∧ ∀ pl, pl ∈ pls → ∃ n, GetNode wd (pl_node pl) = Ok n ∧ n_status n = "online").
Proof.
  apply (fold_result_ind _ (λ done q, ru_unchanged q = ru_unchanged p ∧ ru_deployments q = ru_deployments p ∧ ru_ids q = ru_ids p
     ∧ ru_candidate q = ru_candidate p ∧ ru_targets p ⊆ ru_targets q ∧
     (∀ pl, pl ∈ done → ∃ t, t ∈ ru_targets q ∧ ut_source t = id ∧ ut_node t = pl_node pl ∧ ut_rank t = pl_rank pl) ∧
     (ru_ready q = true → ru_ready p = true ∧ ∀ pl, pl ∈ done → ∃ n, GetNode wd (pl_node pl) = Ok n ∧ n_status n = "online"))).
  - intros done pl q q' E (? & ? & ? & ? & Ht & Hp & Hr). unfold placement_step in E.
    destruct (GetNode wd (pl_node pl)) as [n|] eqn:En; [|done]. injection E as <-. simpl. split_and!; [done..|set_solver| |].
    + intros pl' [(t & ? & ?)%Hp| ->%list_elem_of_singleton]%elem_of_app; [exists t; set_solver|].
      eexists. split; [by apply elem_of_app; right; apply list_elem_of_here|done].
    + intros [Hrq Hn%bool_decide_eq_true]%andb_prop. destruct (Hr Hrq) as [? Hall]. split; [done|].
      intros pl' [?%Hall| ->%list_elem_of_singleton]%elem_of_app; [done|]. exists n. split; [done|].
      apply app_nil in Hn as [Hn _]. by case_bool_decide.
  - split_and!; [done..|set_solver|]. intros ?. split; [done|set_solver].
Qed.

Section replacement_facts.
Context (format_float : float → string) (format_composite : json → string)
        (parse_float : string → option float) (json_array : string → option (list json))
        (downloads_plan : AcquisitionRequest → option Acquisition)
        (preview_ssh : list Placement → list UpstreamPreview → list Diagnostic)
        (marshalParameters : gmap string any → string)
        (resolve : string → gmap string any → gmap string string → settings_outcome)
        (previews : Plan → option Preview)
        (wd : World) (versions : gmap string string) (rows : gmap string SourceRow).

Notation replacement_plan := (replacement_plan format_float format_composite parse_float json_array downloads_plan preview_ssh resolve wd).
Notation row_step := (row_step format_float format_composite parse_float json_array downloads_plan preview_ssh marshalParameters resolve previews wd).
Notation planReplacement := (planReplacement format_float format_composite parse_float json_array downloads_plan preview_ssh marshalParameters
  resolve previews wd versions rows).

(** What a plan with these targets says of a deployment it replaces, and what its readiness adds *)
Definition replaced (req : RepositoryReplacementRequest) (ready : bool) (targets : list RepositoryUpdateTarget) (d : RepositoryUpdateDeployment) : Prop :=
  ∃ sr pls dp, rows !! ud_source d = Some sr ∧ source_placements wd (d_placement (sr_row sr)) = Ok pls ∧
    replacement_plan req (ud_source d) sr pls = Ok dp ∧
    ud_digest d = d_recipe (sr_row sr) ∧ ud_was_stopped d = bool_decide (d_desired (sr_row sr) = DStopped) ∧
    (∀ pl, pl ∈ pls → ∃ t, t ∈ targets ∧ ut_source t = ud_source d ∧ ut_node t = pl_node pl ∧ ut_rank t = pl_rank pl) ∧
    (ready = true →
       pn_ready (ud_plan d) = true ∧ pn_ready dp = true ∧ pn_placements (ud_plan d) = pn_placements dp ∧
       kept_on pls (pn_placements (ud_plan d)) ∧ default "" (sr_fabric sr) = default "" (pn_fabric (ud_plan d)) ∧
       (∀ w, rq_settings req !! ud_source d = None → ps_workload (d_placement (sr_row sr)) = Some w → pn_workload (ud_plan d) = w) ∧
       ∀ pl, pl ∈ pls → ∃ n, GetNode wd (pl_node pl) = Ok n ∧ n_status n = "online").

Lemma replaced_mono req (ready ready' : bool) targets targets' d :
  (ready' = true → ready = true) → targets ⊆ targets' → replaced req ready targets d → replaced req ready' targets' d.
Proof.
  intros Hr Ht (sr & pls & dp & ? & ? & ? & ? & ? & Hpl & H). exists sr, pls, dp. split_and!; [done..| |auto].
  intros pl (t & ? & ?)%Hpl. exists t. split; [by apply Ht|done].
Qed.

(** The loop over the selected rows *)
Record loop_inv (req : RepositoryReplacementRequest) (ids : list string) (es : list (string * SourceRow)) (p : RepositoryUpdatePlan) : Prop := {
  lo_ids : ru_ids p = ids;
  lo_split : ru_unchanged p ++ (ud_source <$> ru_deployments p) ≡ₚ es.*1;
  lo_replaced d : d ∈ ru_deployments p → replaced req (ru_ready p) (ru_targets p) d;
}.

Lemma add_unchanged_inv req ids es id sr p :
  loop_inv req ids es p → loop_inv req ids (es ++ [(id, sr)]) (add_unchanged id p).
Proof.
  intros [Hi Hs Hr]. split; [done| |done]. simpl. rewrite fmap_app, <-Hs. simpl.
  rewrite <-!app_assoc. by rewrite (Permutation_app_comm [id]).
Qed.

Lemma add_permissions_inv req ids es current added removed p :
  loop_inv req ids es p → loop_inv req ids es (add_permissions current added removed p).
Proof. by intros [Hi Hs Hr]. Qed.

Lemma row_step_inv req ids es id sr p p' :
  rows !! id = Some sr → row_step req p (id, sr) = Ok p' → loop_inv req ids es p → loop_inv req ids (es ++ [(id, sr)]) p'.
Proof.
  intros Hrow. unfold UpdatePlan.row_step. case_match; [intros [= <-]; apply add_unchanged_inv|].
  destruct (manifest_of wd _) as [m|]; [|done]. simpl. set (current := HighRiskPermissions m).
  destruct (source_placements _ _) as [pls|] eqn:Epl; [|done]. simpl.
  destruct (replacement_plan req id sr pls) as [dp|] eqn:Edp; [|done].
  match goal with |- context [match (if ?b then ?x else Ok false) with _ => _ end] => destruct (if b then x else Ok false) as [[]|] end;
    [intros [= <-] ?; by apply add_unchanged_inv, add_permissions_inv| |done].
  match goal with |- context [add_deployment ?x _] => set (d := x) end. intros Hf [Hi Hs Hr].
  destruct (fold_result _ _ pls) as [q|] eqn:Eq; [|done]. injection Hf as <-.
  apply placement_loop in Eq as (Eu & Ed & Ei & Ec & Ht & Hpl & Hready). simpl in *.
  split; simpl; [congruence| |].
  - rewrite Eu, Ed, !fmap_app. simpl. by rewrite app_assoc, Hs.
  - rewrite Ed. intros d' [Hd'| ->%list_elem_of_singleton]%elem_of_app.
    + eapply replaced_mono; [|done|by apply Hr]. intros [Hq _]%andb_prop. by apply Hready.
    + pose proof (preserve_ready (bool_decide (is_Some (rq_settings req !! id))) pls (ps_workload (d_placement (sr_row sr))) (default "" (sr_fabric sr)) dp)
        as (E1 & E2 & E3 & Hk).
      exists sr, pls, dp. split_and!; [done..|]. intros [Hq Hd]%andb_prop. destruct (Hk Hd) as (? & Hm & Hfab & Hw).
      destruct (Hready Hq) as [_ Hon]. simpl. rewrite E1, E2, E3. split_and!; [done|done|done|by apply preservedPlacementMismatch_spec|done| |done].
      intros w Hnone. apply Hw. rewrite Hnone. by apply bool_decide_eq_false_2; intros [].
Qed.

Lemma select_rows repository target ids es :
  fold_result (λ es id, e ← select_row versions rows repository target id; Ok (es ++ [e])) [] ids = Ok es →
  es.*1 = ids ∧ ∀ e, e ∈ es → rows !! fst e = Some (snd e).
Proof.
  apply (fold_result_ind _ (λ done es, es.*1 = done ∧ ∀ e, e ∈ es → rows !! fst e = Some (snd e))); [|set_solver].
  intros done id es0 es1 E [Hf Hall]. unfold select_row in E. destruct (rows !! id) as [sr|] eqn:Er; [|done].
  destruct (negb _); [done|]. destruct (_ && _); [done|]. injection E as <-. split; [by rewrite fmap_app, Hf|].
  intros e [?| ->%list_elem_of_singleton]%elem_of_app; [by apply Hall|done].
Qed.

Lemma replacement_facts repository req p :
  planReplacement repository req = Ok p →
  NoDup (rq_deployments req) ∧ ru_ids p = sort_strings (rq_deployments req) ∧
  ru_unchanged p ++ (ud_source <$> ru_deployments p) ≡ₚ rq_deployments req ∧
  ∀ d, d ∈ ru_deployments p → replaced req (ru_ready p) (ru_targets p) d.
Proof.
  unfold UpdatePlan.planReplacement. destruct (selection_ok req) eqn:Hs; [|done]. cbn [negb]. case_match; [done|].
  destruct (manifest_of wd _) as [m|]; [|done]. simpl.
  destruct (fold_result _ [] _) as [es|] eqn:Ees; [|done]. simpl. apply select_rows in Ees as [Eids Hrows].
  destruct (fold_result _ _ es) as [q|] eqn:Eq; [|done]. intros [= <-].
  assert ((∀ e, e ∈ es → rows !! fst e = Some (snd e)) → loop_inv req (sort_strings (rq_deployments req)) es q) as Hinv.
  { eapply (fold_result_ind _ (λ done q, (∀ e, e ∈ done → rows !! fst e = Some (snd e)) → loop_inv req (sort_strings (rq_deployments req)) done q));
      [| |exact Eq].
    - intros done [id sr] b b' Hst IH Hall. eapply row_step_inv; [|exact Hst|apply IH; set_solver].
      apply (Hall (id, sr)). set_solver.
    - intros _. split; [done|done|]. simpl. set_solver. }
  specialize (Hinv Hrows). destruct Hinv as [Hi Hsp Hr].
  unfold selection_ok in Hs. rewrite !andb_true_iff in Hs. destruct Hs as [[[[_ _] _] Hnd] _].
  split_and!; [by apply bool_decide_eq_true in Hnd|done| |].
  - simpl. rewrite sort_strings_perm, (merge_sort_Permutation source_le), Hsp, Eids. apply sort_strings_perm.
  - simpl. intros d Hd. rewrite merge_sort_Permutation in Hd. eapply replaced_mono; [| |by apply Hr]; [done|].
    intros t Ht. by rewrite merge_sort_Permutation.
Qed.


(** The coordinator of an update whose sources all have a rank can be followed as in [UpdateInv] *)
Lemma created_fit input_json progress_json digest now rid reviewed repository req p s c :
  planReplacement repository req = Ok p → createReplacement input_json progress_json digest now rid reviewed p s = Ok c →
  (∀ id sr pls, id ∈ rq_deployments req → rows !! id = Some sr → source_placements wd (d_placement (sr_row sr)) = Ok pls → pls ≠ []) →
  ru_ready p = true ∧ deployments_of c = ru_deployments p ∧ fit c.
Proof.
  intros Hp Hc Hne.
  assert (∀ d, d ∈ ru_deployments p → ud_source d ∈ ut_source <$> ru_targets p) as Hcov.
  { intros d Hd. destruct (replacement_facts repository req p Hp) as (_ & _ & Hsplit & Hr).
    destruct (Hr d Hd) as (sr & pls & dp & Hrow & Hpl & _ & _ & _ & Ht & _).
    assert (ud_source d ∈ rq_deployments req) as Hin by (rewrite <-Hsplit; apply elem_of_app; right; by apply list_elem_of_fmap_2).
    specialize (Hne _ _ _ Hin Hrow Hpl). destruct pls as [|pl pls]; [done|].
    destruct (Ht pl) as (t & Hin' & <- & _); [apply list_elem_of_here|]. by apply list_elem_of_fmap_2. }
  unfold createReplacement in Hc. case_match; [done|]. destruct (ru_ready p); [|done]. simpl in Hc.
  unfold start_replacement in Hc. destruct (Runs.Create _ _ _ _ _ _ _) as [[] g]; [|done]. injection Hc as <-.
  split_and!; [done|done|]. split; [done|done|exact Hcov|right; exact Hcov].
Qed.
End replacement_facts.

(** ** A concrete update *)

Definition replace_engine (ranks : list Z) : Manifest := sample_recipe (sample_variant ranks [] None).

(** A deployment of the first version on the device [a0], which its lease keeps *)
Definition replace_world : World :=
  mkWorld {[ "sha256:1" := mkRecipeRow "engine" "1" (Some (replace_engine [0])); "sha256:2" := mkRecipeRow "engine" "2" (Some (replace_engine [0])) ]}
    two_hosts [mkLease "gpu:a:a0" "deployment" "dep1" true] [] ∅ [] 0.

Definition replace_rows : gmap string SourceRow :=
  {[ "dep1" := mkSourceRow (mkDep "sha256:1" "{}" (mkPlacementSet ∅ [mkPlacement "a" "host-a" 0 0 "a0" ["a0"] ""] (Some 0) []) DRunning OHealthy
                 None None [] (Some "run1") ∅) ∅ ∅ None [] ]}.

Definition replace_request : RepositoryReplacementRequest := mkReplacementRequest "sha256:2" ["dep1"] ∅.

Definition replace_plan : result replace_error RepositoryUpdatePlan :=
  planReplacement (λ _, "") (λ _, "") (λ _, None) (λ _, None) (λ _, Some (mkAcquisition true [] [])) (λ _ _, []) (λ _, "{}")
    (λ _ _ _, SettingsOk ∅ ∅) (λ _, None) replace_world {[ "sha256:1" := "repo"; "sha256:2" := "repo" ]} replace_rows "repo" replace_request.

Definition replace_planned : RepositoryUpdatePlan :=
  match replace_plan with Ok p => p | Err _ => mkUpdatePlan "" "" [] [] [] [] [] [] [] [] [] [] false end.

