(* ===== verification/WorkerSSH.v ===== *)
(** * The worker SSH preflight: [internal/deploy/worker_ssh.go]

    Before an upstream recipe runs across nodes, the head is asked whether it reaches the selected worker over SSH.
    The head's answer is an argument ([ask], [None] where it does not answer, says no, or answers something that
    does not decode or lacks a field); what the controller sends, and what of the answer it accepts, is modelled.
    [strings.EqualFold] is taken on ASCII letters. *)

From S2P Require Import Prelude GoStrings Utf8 CJson Diag Inventory Leases Runs Recipe DeployState Deploy PlanPlace PlanUpstream Plan.
Open Scope Z_scope.

(** ** Addresses *)

(** [strings.TrimPrefix(strings.Split(address, "/")[0], "[")] and the other bracket *)
Definition ssh_host (address : string) : string := trim_suffix "]" (trim_prefix "[" (address_host address)).

Definition ssh_usable (address : string) : bool :=
  negb (bool_decide (address = "")) &&
  match ParseIP address with Some ip => negb (IsLoopback ip || IsUnspecified ip) | None => true end.

Definition add_address (addresses : list string) (address : string) : list string :=
  let address := ssh_host address in
  if bool_decide (address ∈ addresses) || negb (ssh_usable address) then addresses else addresses ++ [address].

Definition workerSSHAddresses (inv : Inventory) : list string :=
  foldl add_address [] (firstNonLoopback (Some inv) :: inv_advertise inv :: (inv_interfaces inv ≫= if_addresses)).

(** [strings.EqualFold] *)
Definition fold_ascii (c : ascii) : ascii :=
  let n := nat_of_ascii c in if (65 <=? n)%nat && (n <=? 90)%nat then ascii_of_nat (n + 32) else c.

Fixpoint EqualFold (s t : string) : bool :=
  match s, t with
  | EmptyString, EmptyString => true
  | String a s, String b t => bool_decide (fold_ascii a = fold_ascii b) && EqualFold s t
  | _, _ => false
  end.

(** Two spellings of one host; [ParseIP] gives sixteen bytes, so equal addresses are equal lists *)
Definition sameSSHAddress (left right : string) : bool :=
  EqualFold left right ||
  match ParseIP left, ParseIP right with
  | Some l, Some r => bool_decide (l = r)
  | _, _ => false
  end.

(** ** The request *)

Record SSHRequest := mkSSHRequest { sq_addresses : list string; sq_username : string; sq_target : string; sq_resolve_only : bool }.
Record SSHResult := mkSSHResult { sh_target : string; sh_hostname : string; sh_username : string }.

Definition SSHProtocolFeature : string := "worker-ssh-v1".

(** The node of a rank, which one override must name; [nodeID] is the one found so far *)
Fixpoint selected_node (nodeID : string) (placements : list PlacementOverride) (rank : Z) : option string :=
  match placements with
  | [] => if bool_decide (nodeID = "") then None else Some nodeID
  | p :: placements =>
      if negb (ov_rank p =? rank) then selected_node nodeID placements rank
      else if negb (bool_decide (nodeID = "")) then None
      else selected_node (ov_node p) placements rank
  end.

Definition selectedWorkerSSHNode (placements : list PlacementOverride) (rank : Z) : option string := selected_node "" placements rank.

(** ** Names of worker bindings *)

(** [strconv.ParseInt(s, 10, 32)] *)
Definition parse_int32 (s : string) : option Z :=
  let '(negative, digits) :=
    match s with
    | String c rest => if bool_decide (c = "-"%char) then (true, rest) else if bool_decide (c = "+"%char) then (false, rest) else (false, s)
    | EmptyString => (false, s)
    end in
  if bool_decide (digits = "") || negb (sforallb is_digit digits) then None
  else
    let v := if negative then - digits_value digits else digits_value digits in
    if (- 2 ^ 31 <=? v) && (v <? 2 ^ 31) then Some v else None.

Definition worker_facts : list string := ["SSH"; "HOST"; "USER"; "HOME"; "SCRIPT_DIR"; "HF_CACHE"].

Definition underscore : ascii := "_"%char.

Definition workerSettingBinding (key : string) : option (Z * string) :=
  let '(prefix, fact, ok) := cut underscore key in
  if negb ok || negb (has_prefix "WORKER" prefix) then None
  else
    let numbered := bool_decide (prefix = "WORKER") && match fact with String c _ => is_digit c | EmptyString => false end in
    let '(number, remainder, found) := cut underscore fact in
    if numbered && negb found then None
    else
      let prefix := if numbered then prefix +:+ number else prefix in
      let fact := if numbered then remainder else fact in
      let suffix := trim_prefix "WORKER" prefix in
      let rank := if bool_decide (suffix = "") then Some 1
                  else parsed ← parse_int32 suffix; if (1 <=? parsed) && bool_decide (Itoa parsed = suffix) then Some parsed else None in
      rank ← rank; if bool_decide (fact ∈ worker_facts) then Some (rank, fact) else None.

Section ssh.
(** The registry of sessions, the inventory of a node (of the controller's tables), and the head's answer *)
Context (broker : bool) (online : string → bool) (inventory_of : string → option Inventory)
        (ask : string → SSHRequest → option SSHResult).

Definition on_head (head : Inventory) (address : string) : bool :=
  existsb (λ local, sameSSHAddress address local) (workerSSHAddresses head).

(** What the controller accepts of an answer *)
Definition accepts (req : SSHRequest) (r : SSHResult) : bool :=
  (bool_decide (sq_target req = "") || bool_decide (sh_target r = sq_target req))
  && (negb (sq_resolve_only req) || bool_decide (sh_username r = sq_username req))
  && existsb (λ address, sameSSHAddress (sh_hostname r) address) (sq_addresses req).

Definition requestWorkerSSH (head worker : string) (req : SSHRequest) : option SSHResult :=
  if negb broker then None
  else if negb (online head) || negb (online worker) then None
  else
    inv ← inventory_of head;
    if negb (bool_decide (SSHProtocolFeature ∈ inv_protocol inv)) then None
    else
      let addresses := List.filter (λ a, negb (on_head inv a)) (sq_addresses req) in
      let req := mkSSHRequest addresses (sq_username req) (sq_target req) (sq_resolve_only req) in
      if bool_decide (addresses = []) then None
      else
        r ← ask head req;
        if accepts req r then Some r else None.

(** The head of an upstream workload *)
Definition head_rank (up : UpstreamExecution) : Z := default 0 (wrap32 <$> up_coordinator up).

Inductive setting_error := SetInvalid | SetSSH.

(** [defaultWorkerSSH]; the targets it remembers only spare it a second question *)
Definition defaultWorkerSSH (up : UpstreamExecution) (placements : list PlacementOverride) (worker : string) (inv : Inventory)
    : result setting_error string :=
  match selectedWorkerSSHNode placements (head_rank up) with
  | None => Err SetSSH
  | Some head =>
      if bool_decide (inv_username inv = "") then Err SetInvalid
      else match requestWorkerSSH head worker (mkSSHRequest (workerSSHAddresses inv) (inv_username inv) "" true) with
           | Some r => Ok (sh_target r)
           | None => Err SetSSH
           end
  end.

(** ** The preflight of a plan *)

(** What a variable of a rendered environment says of a worker *)
Inductive binding := BindTarget (rank : Z) (key value : string) | BindAddress (rank : Z) (value : string) | BindUser (rank : Z) (value : string).

Definition binding_of (e : string * string) : option binding :=
  let '(key, value) := e in
  let ip := has_suffix "_IP" key in
  '(rank, fact) ← workerSettingBinding (if ip then trim_suffix "_IP" key +:+ "_SSH" else key);
  if ip then Some (BindAddress rank value)
  else if bool_decide (fact = "SSH") || bool_decide (fact = "HOST") then Some (BindTarget rank key value)
  else if bool_decide (fact = "USER") then Some (BindUser rank value)
  else None.

(** The last address and the last user of a rank *)
Definition address_of (bs : list binding) (rank : Z) : option string :=
  last (omap (λ b, match b with BindAddress r v => if r =? rank then Some v else None | _ => None end) bs).
Definition user_of (bs : list binding) (rank : Z) : option string :=
  last (omap (λ b, match b with BindUser r v => if r =? rank then Some v else None | _ => None end) bs).
Definition targets_of (bs : list binding) (rank : Z) : list (string * string) :=
  omap (λ b, match b with BindTarget r k v => if r =? rank then Some (k, v) else None | _ => None end) bs.

(** The targets of a rank: those the source names, or its address with its user *)
Definition rank_targets (bs : list binding) (rank : Z) : list (string * string) :=
  match targets_of bs rank with
  | [] =>
      match address_of bs rank, user_of bs rank with
      | Some address, Some user => [("WORKER_IP + WORKER_USER", if bool_decide (user = "") then address else user +:+ "@" +:+ address)]
      | _, _ => []
      end
  | ts => ts
  end.

Definition binding_rank (b : binding) : Z := match b with BindTarget r _ _ | BindAddress r _ | BindUser r _ => r end.

(** One target: the checks already made, and whether this one failed *)
Definition check_target (placements : list PlacementOverride) (head : string) (st : list (string * string * string) * list Diagnostic)
    (t : Z * string) : list (string * string * string) * list Diagnostic :=
  let '(checked, ds) := st in
  let '(rank, target) := t in
  match selectedWorkerSSHNode placements rank with
  | None => (checked, ds ++ [failure "upstream.worker_ssh_unavailable"])
  | Some worker =>
      if bool_decide ((head, worker, target) ∈ checked) then st
      else
        let ok := match inventory_of worker with
                  | None => false
                  | Some inv =>
                      if bool_decide (target = "") then false
                      else bool_decide (is_Some (requestWorkerSSH head worker (mkSSHRequest (workerSSHAddresses inv) (inv_username inv) target false)))
                  end in
        (checked ++ [(head, worker, target)], if ok then ds else ds ++ [failure "upstream.worker_ssh_unavailable"])
  end.

(** The environment in the order of its keys *)
Definition sorted_env (env : list (string * string)) : list (string * string) :=
  omap (λ k, (λ v, (k, v)) <$> assoc k env) (sort_strings (dedup (fst <$> env))).

(** The targets of the node that starts the workload *)
Definition preview_targets (pv : UpstreamPreview) : list (Z * string) :=
  if bool_decide (is_Some (up_coordinator (pv_execution pv))) && negb (default 0 (up_coordinator (pv_execution pv)) =? pv_rank pv) then []
  else
    let bs := omap binding_of (sorted_env (pv_environment pv)) in
    let ranks := merge_sort Z.le (dedup (binding_rank <$> bs)) in
    ranks ≫= λ rank, (λ kt, (rank, snd kt)) <$> rank_targets bs rank.

Definition preview_one (placements : list PlacementOverride) (st : list (string * string * string) * list Diagnostic) (pv : UpstreamPreview)
    : list (string * string * string) * list Diagnostic :=
  foldl (check_target placements (pv_node pv)) st (preview_targets pv).

Definition previewWorkerSSH (pls : list Placement) (pvs : list UpstreamPreview) : list Diagnostic :=
  snd (foldl (preview_one ((λ p, mkOverride (pl_node p) (pl_rank p)) <$> pls)) ([], []) pvs).
End ssh.

(** ** Spellings of an address *)

Fixpoint lower (s : string) : string := match s with EmptyString => "" | String c s => String (fold_ascii c) (lower s) end.

Lemma EqualFold_lower s t : EqualFold s t = bool_decide (lower s = lower t).
Proof.
  revert t. induction s as [|a s IH]; intros [|b t]; simpl; try done. rewrite IH.
  repeat case_bool_decide; simpl; try done; congruence.
Qed.

Ltac every_byte c := destruct c as [[] [] [] [] [] [] [] []]; vm_compute; done.

Lemma fold_hex c : hex_digit (fold_ascii c) = hex_digit c.
Proof. every_byte c. Qed.
Lemma fold_dec c : dec_digit (fold_ascii c) = dec_digit c.
Proof. every_byte c. Qed.
Lemma fold_dot c : bool_decide (fold_ascii c = "."%char) = bool_decide (c = "."%char).
Proof. every_byte c. Qed.
Lemma fold_colon c : bool_decide (fold_ascii c = ":"%char) = bool_decide (c = ":"%char).
Proof. every_byte c. Qed.
Lemma fold_percent c : bool_decide (fold_ascii c = "%"%char) = bool_decide (c = "%"%char).
Proof. every_byte c. Qed.

Lemma lower_empty s : bool_decide (lower s = "") = bool_decide (s = "").
Proof. by destruct s. Qed.

Lemma lower_octet acc len s : octet_go acc len (lower s) = octet_go acc len s.
Proof. revert acc len. induction s as [|c s IH]; intros; simpl; [done|]. rewrite fold_dec. repeat case_match; auto. Qed.

Lemma lower_split s : split_byte "."%char (lower s) = lower <$> split_byte "."%char s.
Proof.
  induction s as [|c s IH]; [done|]. simpl. pose proof (fold_dot c) as E. repeat case_bool_decide; try done.
  - by rewrite !decide_True, IH by done.
  - rewrite !decide_False, IH by done. by destruct (split_byte "."%char s).
Qed.

Lemma lower_ipv4 s : parseIPv4 (lower s) = parseIPv4 s.
Proof.
  unfold parseIPv4. rewrite lower_split. destruct (split_byte "."%char s) as [|a [|b [|c [|d [|e ws]]]]]; try done.
  simpl. unfold octet. by rewrite !lower_octet.
Qed.

Lemma lower_group acc len s : hex_group acc len (lower s) = let '(a, l, rest) := hex_group acc len s in (a, l, lower rest).
Proof. revert acc len. induction s as [|c s IH]; intros; simpl; [done|]. rewrite fold_hex. case_match; [apply IH|done]. Qed.

Lemma lower_groups fuel out ell s : ipv6_groups fuel out ell (lower s) = ipv6_groups fuel out ell s.
Proof.
  revert out ell s. induction fuel as [|fuel IH]; intros out ell s; simpl; [by rewrite lower_empty|].
  rewrite lower_group. destruct (hex_group 0 0 s) as [[acc len] rest]. destruct (_ || _); [done|].
  destruct rest as [|c rest]; [done|]. simpl. rewrite fold_dot, fold_colon, lower_ipv4.
  destruct (bool_decide (c = "."%char)); [done|]. destruct (negb _); [done|].
  destruct rest as [|d rest]; [done|]. simpl. rewrite fold_colon, lower_empty. rewrite !IH. change (String (fold_ascii d) (lower rest)) with (lower (String d rest)).
  by rewrite IH.
Qed.

(** The beginning of [parseIPv6], without patterns on characters *)
Lemma parseIPv6_eq s : parseIPv6 s =
  match s with
  | String a (String b rest) =>
      if bool_decide (a = ":"%char) && bool_decide (b = ":"%char) then
        if bool_decide (rest = "") then Some (repeat 0 16)
        else r ← ipv6_groups 8 [] (Some O) rest; expand_ellipsis (fst r) (snd r)
      else r ← ipv6_groups 8 [] None s; expand_ellipsis (fst r) (snd r)
  | _ => r ← ipv6_groups 8 [] None s; expand_ellipsis (fst r) (snd r)
  end.
Proof.
  destruct s as [|a [|b rest]]; [done|by destruct a as [[] [] [] [] [] [] [] []]|].
  case_bool_decide as Ha; simpl.
  - subst a. case_bool_decide as Hb; simpl; [subst b; by destruct rest|].
    destruct b as [[] [] [] [] [] [] [] []]; try done; by destruct Hb.
  - destruct a as [[] [] [] [] [] [] [] []]; try done; by destruct Ha.
Qed.

Lemma lower_ipv6 s : parseIPv6 (lower s) = parseIPv6 s.
Proof.
  rewrite !parseIPv6_eq. destruct s as [|a [|b rest]]; [done|by rewrite <-(lower_groups _ _ _ (String a ""))|].
  rewrite <-(lower_groups _ _ _ rest), <-(lower_groups _ _ _ (String a (String b rest))). cbn [lower].
  rewrite !fold_colon, lower_empty. done.
Qed.

Lemma lower_notation s : notation_of (lower s) = notation_of s.
Proof.
  induction s as [|c s IH]; [done|]. cbn [lower notation_of]. rewrite fold_dot, fold_colon, fold_percent, IH.
  case_match eqn:E; [|done]. rewrite !orb_true_iff, !bool_decide_eq_true in E. by destruct E as [[->| ->]| ->].
Qed.

Lemma lower_contains s : contains_byte "%"%char (lower s) = contains_byte "%"%char s.
Proof.
  induction s as [|c s IH]; [done|]. cbn [lower contains_byte]. rewrite IH. pose proof (fold_percent c) as E.
  repeat case_bool_decide; try done; by repeat case_decide.
Qed.

Lemma lower_ip s : ParseIP (lower s) = ParseIP s.
Proof. unfold ParseIP. by rewrite lower_notation, lower_ipv4, lower_contains, lower_ipv6. Qed.

(** The spellings of one host form a class *)
#[export] Instance sameSSHAddress_equivalence : Equivalence (λ a b, sameSSHAddress a b = true).
Proof.
  assert (∀ a b, sameSSHAddress a b = true ↔ lower a = lower b ∨ ∃ ip, ParseIP a = Some ip ∧ ParseIP b = Some ip) as H.
  { intros a b. unfold sameSSHAddress. rewrite orb_true_iff, EqualFold_lower, bool_decide_eq_true.
    destruct (ParseIP a), (ParseIP b); rewrite ?bool_decide_eq_true; naive_solver. }
  split.
  - intros a. apply H. by left.
  - intros a b. rewrite !H. naive_solver.
  - intros a b c. rewrite !H. intros [E1|(ip & E1 & E1')] [E2|(ip' & E2 & E2')].
    + left. congruence.
    + right. exists ip'. by rewrite <-(lower_ip a), E1, lower_ip.
    + right. exists ip. by rewrite <-(lower_ip c), <-E2, lower_ip.
    + right. exists ip. naive_solver.
Qed.

Lemma same_sym a b : sameSSHAddress a b = true → sameSSHAddress b a = true.
Proof. apply (@Equivalence_Symmetric _ _ sameSSHAddress_equivalence). Qed.
Lemma same_trans a b c : sameSSHAddress a b = true → sameSSHAddress b c = true → sameSSHAddress a c = true.
Proof. apply (@Equivalence_Transitive _ _ sameSSHAddress_equivalence). Qed.

Section ssh_facts.
Context (broker : bool) (online : string → bool) (inventory_of : string → option Inventory)
        (ask : string → SSHRequest → option SSHResult).

Notation request := (requestWorkerSSH broker online inventory_of ask).

(** An SSH answer the controller accepts names the worker and never the head.  Both nodes are online, the head
    reports that it knows the check, the host the head reached is one of the worker's addresses in some spelling
    and none of the head's own in any spelling; a target that was asked for is the one that was checked, and a
    resolved account is the worker's. *)
Theorem ssh_reaches_worker head worker req r :
  request head worker req = Some r →
  online head = true ∧ online worker = true ∧
  ∃ inv, inventory_of head = Some inv ∧ SSHProtocolFeature ∈ inv_protocol inv ∧
    (∃ address, address ∈ sq_addresses req ∧ sameSSHAddress (sh_hostname r) address = true) ∧
    (∀ local, local ∈ workerSSHAddresses inv → sameSSHAddress (sh_hostname r) local = false) ∧
    (sq_target req ≠ "" → sh_target r = sq_target req) ∧
    (sq_resolve_only req = true → sh_username r = sq_username req).
Proof.
  unfold requestWorkerSSH. destruct broker; [|done]. cbn [negb]. destruct (online head), (online worker); try done. cbn [negb orb].
  destruct (inventory_of head) as [inv|]; [|done]. simpl. case_bool_decide as Hf; [|done]. cbn [negb]. case_bool_decide; [done|].
  destruct (ask _ _) as [r'|]; [|done]. simpl. unfold accepts. simpl. case_match eqn:Ea; [|done]. intros [= ->].
  rewrite !andb_true_iff, !orb_true_iff, negb_true_iff, !bool_decide_eq_true in Ea. destruct Ea as [[Ht Hu] (address & Hin & Hs)%existsb_exists].
  apply filter_In in Hin as [Hin Hnot]. apply negb_true_iff in Hnot. split_and!; [done..|]. exists inv.
  split_and!; [done|done| | | |].
  - exists address. split; [by apply list_elem_of_In|done].
  - intros local Hl. apply not_true_iff_false. intros Hlocal. revert Hnot. apply not_false_iff_true. apply existsb_exists. exists local.
    split; [by apply list_elem_of_In|]. by eapply same_trans; [apply same_sym|].
  - destruct Ht; done.
  - destruct Hu; congruence.
Qed.

(** The head [head] reaches the node that was selected for [rank] by the name [target] *)
Definition reached (placements : list PlacementOverride) (head : string) (t : Z * string) : Prop :=
  ∃ worker inv, selectedWorkerSSHNode placements (fst t) = Some worker ∧ inventory_of worker = Some inv ∧ snd t ≠ "" ∧
    is_Some (request head worker (mkSSHRequest (workerSSHAddresses inv) (inv_username inv) (snd t) false)).

Definition checked_ok (st : list (string * string * string) * list Diagnostic) : Prop :=
  ∀ head worker target, (head, worker, target) ∈ fst st →
    ∃ inv, inventory_of worker = Some inv ∧ target ≠ "" ∧
      is_Some (request head worker (mkSSHRequest (workerSSHAddresses inv) (inv_username inv) target false)).

Notation check := (check_target broker online inventory_of ask).

Lemma check_target_ok placements head st t :
  snd (check placements head st t) = [] → (snd st = [] → checked_ok st) →
  snd st = [] ∧ checked_ok (check placements head st t) ∧ reached placements head t.
Proof.
  destruct st as [checked ds], t as [rank target]. unfold check_target. cbn [fst snd].
  destruct (selectedWorkerSSHNode placements rank) as [worker|] eqn:Es; [|by intros []%app_nil].
  case_bool_decide as Hin.
  - cbn [snd]. intros -> Hok. specialize (Hok eq_refl). split_and!; [done|done|].
    destruct (Hok head worker target Hin) as (inv & ? & ? & ?). by exists worker, inv.
  - destruct (inventory_of worker) as [inv|] eqn:Ei; cbn [snd fst]; [|by intros []%app_nil].
    case_bool_decide as Ht; cbn [snd]; [by intros []%app_nil|]. case_bool_decide as Hr; [|by intros []%app_nil].
    intros -> Hok. specialize (Hok eq_refl). split_and!; [done| |by exists worker, inv].
    intros h w tg [?|[= -> -> ->]%list_elem_of_singleton]%elem_of_app; [by apply Hok|by exists inv].
Qed.

Lemma check_targets_ok placements head st ts :
  snd (foldl (check placements head) st ts) = [] → (snd st = [] → checked_ok st) →
  snd st = [] ∧ checked_ok (foldl (check placements head) st ts) ∧ ∀ t, t ∈ ts → reached placements head t.
Proof.
  revert st. induction ts as [|t ts IH]; intros st Hn Hok; simpl in *; [split_and!; [done|auto|set_solver]|].
  assert (snd (check placements head st t) = []) as Hn' by (eapply IH; [done|]; intros Hn'; by apply check_target_ok).
  destruct (check_target_ok placements head st t Hn' Hok) as (? & Hok' & Hr).
  destruct (IH (check placements head st t) Hn (λ _, Hok')) as (_ & ? & Hrest).
  split_and!; [done..|]. intros t' [->|?]%elem_of_cons; auto.
Qed.

Notation overrides pls := ((λ p, mkOverride (pl_node p) (pl_rank p)) <$> pls).
Notation preview := (previewWorkerSSH broker online inventory_of ask).

Lemma preview_ok pls pvs : preview pls pvs = [] → ∀ pv t, pv ∈ pvs → t ∈ preview_targets pv → reached (overrides pls) (pv_node pv) t.
Proof.
  unfold previewWorkerSSH. set (ps := overrides pls). assert (∀ st, snd (foldl (preview_one broker online inventory_of ask ps) st pvs) = [] →
    (snd st = [] → checked_ok st) → snd st = [] ∧ ∀ pv t, pv ∈ pvs → t ∈ preview_targets pv → reached ps (pv_node pv) t) as H.
  { induction pvs as [|pv pvs IH]; intros st Hn Hok; simpl in *; [split; [done|set_solver]|].
    assert (snd (preview_one broker online inventory_of ask ps st pv) = []) as Hn'.
    { eapply IH; [done|]. intros Hn'. exact (proj1 (proj2 (check_targets_ok _ _ _ _ Hn' Hok))). }
    destruct (check_targets_ok ps (pv_node pv) st (preview_targets pv) Hn' Hok) as (? & Hok' & Hr). split; [done|].
    intros pv' t [->|?]%elem_of_cons Ht; [by apply Hr|]. by eapply IH. }
  intros Hn. apply (H ([], []) Hn). intros _ h w t ?%elem_of_nil. done.
Qed.

(** Every finding of the preflight is an error *)
Lemma preview_errors pls pvs : HasError (preview pls pvs) = false → preview pls pvs = [].
Proof.
  set (bad := failure "upstream.worker_ssh_unavailable"). intros He. assert (Forall (λ d, d = bad) (preview pls pvs)) as Hall.
  { unfold previewWorkerSSH. apply (foldl_invariant (λ st : list (string * string * string) * list Diagnostic, Forall (λ d, d = bad) (snd st))); [|constructor].
    intros st pv _ Hst. apply (foldl_invariant (λ st : list (string * string * string) * list Diagnostic, Forall (λ d, d = bad) (snd st))); [|done].
    intros [checked ds] [rank target] _ Hds. unfold check_target. simpl in *. repeat case_match; simplify_eq/=; try done;
      apply Forall_app; split; try done; by constructor. }
  destruct (preview pls pvs) as [|d ds]; [done|]. inversion Hall; subst. done.
Qed.

Lemma HasError_left xs ys : HasError (xs ++ ys) = false → HasError xs = false.
Proof. rewrite HasError_concat, orb_false_iff. by intros []. Qed.

(** A plan that is ready has its workers checked.  Where planning used this preflight, every SSH target that the
    environment of a starting node names for a rank, by name or by address and user, was reached from that node
    and found to be the node the plan places that rank on. *)
Theorem ready_plan_reaches_workers format_float format_composite parse_float json_array downloads_plan wd settings ignored req p :
  plan format_float format_composite parse_float json_array downloads_plan preview wd settings ignored req = Ok p → pn_ready p = true →
  ∀ pv t, pv ∈ pn_upstream p → t ∈ preview_targets pv → reached (overrides (pn_placements p)) (pv_node pv) t.
Proof.
  intros Hp Hr. apply preview_ok, preview_errors. revert Hp Hr. unfold plan.
  destruct (acquisitionPolicy _) as [policy|]; [|done]. destruct (wd_recipes wd !! _) as [row|]; [|done].
  destruct (rr_manifest row) as [m|]; [|done]. destruct settings as [variants values| |e]; [|by intros [= <-]|done].
  destruct (choose_workload _ _ _ _) as [[wi w]|]; [|done]. unfold plan_variant.
  destruct (choose_fabric _ _ _) as [fabric fd]. destruct (host_previews _ _ _) as [hosts hd].
  destruct (length _ =? length _)%nat; [|by intros [= <-]]. destruct (r ← acquisitionRequest _ _ _ _; downloads_plan r) as [a|]; [|done].
  destruct (acquisition_findings policy a) as [missing ad]. unfold upstream_stage. destruct (w_upstream w) as [up|]; [|by intros [= <-]].
  destruct (previewUpstream _ _ _ _ _ _ _ _ _ _ _) as [pvs e]. intros [= <-]. cbn [pn_ready pn_placements pn_upstream].
  intros [_ He%negb_true_iff]%andb_prop. rewrite !HasError_concat, !orb_false_iff in He. destruct He as (_ & _ & _ & _ & _ & He).
  apply orb_false_elim in He as [_ He]. by apply HasError_left in He.
Qed.
End ssh_facts.

(** ** A concrete pair of nodes *)

Definition ssh_inventory (name address : string) : Inventory :=
  mkInventory [] [mkInterface "eth0" [address]; mkInterface "docker0" ["172.17.0.1/16"]] [] [] "" [SSHProtocolFeature; UpstreamProtocolFeature]
    name "/home" "/srv".

Definition ssh_inventories (node : string) : option Inventory :=
  if bool_decide (node = "a") then Some (ssh_inventory "alice" "10.0.0.1/24")
  else if bool_decide (node = "b") then Some (ssh_inventory "bob" "10.0.0.2/24") else None.

(** A head whose configuration names the worker *)
Definition ssh_ask (head : string) (req : SSHRequest) : option SSHResult :=
  Some (mkSSHResult (if bool_decide (sq_target req = "") then "worker" else sq_target req) "10.0.0.2" (sq_username req)).

(** The bridge both nodes have is not offered as the worker's address *)
Lemma ssh_reaches_worker_witness :
  (∃ address, address ∈ ["10.0.0.2"; "172.17.0.1"] ∧ sameSSHAddress "10.0.0.2" address = true) ∧
  requestWorkerSSH true (λ _, true) ssh_inventories (λ _ _, Some (mkSSHResult "worker" "172.17.0.1" "bob")) "a" "b"
    (mkSSHRequest (workerSSHAddresses (ssh_inventory "bob" "10.0.0.2/24")) "bob" "" true) = None.
Proof.
  split; [|vm_compute; reflexivity].
  assert (requestWorkerSSH true (λ _, true) ssh_inventories ssh_ask "a" "b"
            (mkSSHRequest (workerSSHAddresses (ssh_inventory "bob" "10.0.0.2/24")) "bob" "" true) = Some (mkSSHResult "worker" "10.0.0.2" "bob")) as E
    by (vm_compute; reflexivity).
  destruct (ssh_reaches_worker _ _ _ _ _ _ _ _ E) as (_ & _ & inv & _ & _ & H & _). exact H.
Defined.

Definition ssh_execution : UpstreamExecution := mkUpstream [] [] ["./start.sh"] ["./stop.sh"] ["engine"] (Some 0) [] [] [].

Definition ssh_recipe : Manifest :=
  mkManifest "" (Some (mkSource "https://example.org/engine.git" "0123" "" "")) 2 None None [] []
    [mkWorkload None (mkImage "" "") [] [("WORKER_SSH", "worker")] [] 0 None None "" [0; 1] "" None None None ["host.upstream-exec"] (Some ssh_execution)]
    [] None None.

Definition ssh_node (node name address : string) : PlanNode := mkPlanNode node node "online" (Reported (ssh_inventory name address)).

Definition ssh_world : World := sample_world ssh_recipe [ssh_node "a" "alice" "10.0.0.1/24"; ssh_node "b" "bob" "10.0.0.2/24"] [] [].

Definition ssh_planned : result plan_error Plan :=
  plan (λ _, "") (λ _, "") (λ _, None) (λ _, None) (λ _, Some (mkAcquisition true [] [])) (previewWorkerSSH true (λ _, true) ssh_inventories ssh_ask)
    ssh_world (SettingsOk ∅ ∅) [] (mkPlanRequest "sha256:r" "" None [mkOverride "a" 0; mkOverride "b" 1]).

Lemma ready_plan_reaches_workers_witness :
  preview_targets <$> pn_upstream (plan_of ssh_planned) = [[(1, "worker")]; []] ∧
  reached true (λ _, true) ssh_inventories ssh_ask [mkOverride "a" 0; mkOverride "b" 1] "a" (1, "worker").
Proof.
  assert (preview_targets <$> pn_upstream (plan_of ssh_planned) = [[(1, "worker")]; []]) as Et by (vm_compute; reflexivity).
  split; [exact Et|].
  assert (ssh_planned = Ok (plan_of ssh_planned)) as E by (vm_compute; reflexivity).
  assert (pn_ready (plan_of ssh_planned) = true) as Hr by (vm_compute; reflexivity).
  pose proof (ready_plan_reaches_workers _ _ _ _ _ _ _ _ _ _ _ _ _ _ E Hr) as H.
  destruct (pn_upstream (plan_of ssh_planned)) as [|pv pvs] eqn:Eu; [discriminate Et|].
  assert (pv_node pv = "a") as Ea by (vm_compute in Eu; by injection Eu as <- _).
  assert ((λ p, mkOverride (pl_node p) (pl_rank p)) <$> pn_placements (plan_of ssh_planned) = [mkOverride "a" 0; mkOverride "b" 1]) as Ep
    by (vm_compute; reflexivity).
  rewrite Ep in H. specialize (H pv (1, "worker")). rewrite Ea in H. apply H; [apply list_elem_of_here|].
  injection Et as -> _. apply list_elem_of_here.
Defined.
