(* ===== verification/LaunchSettings.v ===== *)
(** * Launch settings: [internal/deploy/launch_profile.go], [device_settings.go] and [cache_settings.go]

    The settings of a launch come from the request or from a saved profile; for a recipe that runs its own source
    they are completed from what the agents of the selected nodes report.  This file computes what [Plan] takes as
    an argument.  The JSON columns of a profile are their decoded values, the time stamps are dropped, and the
    digest in a worker's deployment directory is an argument. *)

From S2P Require Import Prelude GoStrings Utf8 Paths CJson Diag SourceConfig Inventory Leases Runs Recipe DeployState Deploy PlanPlace PlanUpstream Plan WorkerSSH.
Open Scope Z_scope.

(** ** Bindings of the authored environment *)

Definition unset (v : any) : bool := match v with ANil => true | _ => false end.

(** A parameter that a device may fill in *)
Definition fillable (p : RecipeParameter) : bool :=
  bool_decide (p_type p = "string") && negb (p_sensitive p) && unset (p_default p).

Definition workerSettingParameter (m : Manifest) (binding : string) : option RecipeParameter :=
  if negb (has_prefix "${setting." binding) || negb (has_suffix "}" binding) then None
  else
    p ← ParameterByName m (trim_suffix "}" (trim_prefix "${setting." binding));
    if fillable p && negb (p_optional p) then Some p else None.

Definition env_binds (w : Workload) (key binding : string) : bool := bool_decide (assoc key (w_env w) = Some binding).

Definition hostCacheBinding (w : Workload) (up : UpstreamExecution) (parameter : string) : bool :=
  let binding := "${setting." +:+ parameter +:+ "}" in
  env_binds w "HF_HOME" binding || env_binds w "HF_CACHE" binding
  || (bool_decide (parameter = "hf_home")
      && existsb (λ f, existsb (λ e, bool_decide (e_parameter e = parameter) && bool_decide (e_format e = "shell")) (f_edits f)) (up_configuration up)).

(** The upstream part of a workload that may run on its hosts *)
Definition host_upstream (w : Workload) : option UpstreamExecution :=
  if bool_decide ("host.upstream-exec" ∈ w_permissions w) then w_upstream w else None.

(** ** Facts of a device *)

Definition usable_root (r : CacheRoot) : bool :=
  bool_decide (ca_backend r = "huggingface") && ca_writable r && IsAbs (ca_path r) && negb (bool_decide (Base (Clean (ca_path r)) = "hub")).

Definition hugging_face_home (inv : Inventory) : option string := (λ r, Clean (ca_path r)) <$> List.find usable_root (inv_cache_roots inv).

Definition workerSettingFact (source_digest : Source → option string) (fact : string) (inv : Inventory) (source : Source) : result setting_error string :=
  if bool_decide (fact = "USER") then
    if bool_decide (inv_username inv = "") then Err SetInvalid else Ok (inv_username inv)
  else if bool_decide (fact = "HOME") then
    if negb (IsAbs (inv_home inv)) then Err SetInvalid else Ok (Clean (inv_home inv))
  else if bool_decide (fact = "SCRIPT_DIR") then
    if negb (IsAbs (inv_workspace inv)) then Err SetInvalid
    else match source_digest source with
         | None => Err SetInvalid
         | Some digest => if bool_decide (so_revision source = "") then Err SetInvalid else Ok (Join [inv_workspace inv; "worker-deployments"; digest])
         end
  else if bool_decide (fact = "HF_CACHE") then
    match hugging_face_home inv with
    | Some root => Ok root
    | None =>
        if negb (IsAbs (inv_home inv)) then Err SetInvalid
        else
          let fallback := Join [inv_home inv; ".cache"; "huggingface"] in
          if existsb (λ r, bool_decide (Clean (ca_path r) = fallback) && negb (ca_writable r)) (inv_cache_roots inv) then Err SetInvalid
          else Ok fallback
    end
  else Err SetInvalid.

(** ** Profiles *)

Record LaunchProfile := mkProfile { pf_name : string; pf_recipe : string; pf_variants : gmap string string; pf_parameters : gmap string any }.

(** The settings of a request: a profile, or values *)
Record SettingsRequest := mkSettingsRequest {
  sr_profile : string;
  sr_variants : gmap string string;
  sr_parameters : gmap string any;
  sr_workload : option Z;
  sr_placements : list PlacementOverride;
}.

Section settings.
Context (format_float : float → string) (format_composite : json → string)
        (parse_float : string → option float) (json_array : string → option (list json)).
(** The head's answers as in [WorkerSSH], and the digest of a pinned source, where it has an identity *)
Context (broker : bool) (online : string → bool) (ask : string → SSHRequest → option SSHResult)
        (source_digest : Source → option string).
(** The nodes table *)
Context (nodes : list PlanNode).

Definition inventory_of (id : string) : option Inventory :=
  n ← find (λ n, bool_decide (n_id n = id)) nodes;
  match n_inventory n with Reported inv => Some inv | _ => None end.

(** *** The Hugging Face home of the nodes that execute *)

Definition executes (w : Workload) (up : UpstreamExecution) (p : PlacementOverride) : bool :=
  (bool_decide (w_ranks w = []) || bool_decide (ov_rank p ∈ w_ranks w))
  && match up_coordinator up with Some c => c =? ov_rank p | None => true end.

Fixpoint cache_root (placements : list PlacementOverride) (root : string) : result setting_error string :=
  match placements with
  | [] => Ok root
  | p :: placements =>
      match inventory_of (ov_node p) ≫= hugging_face_home with
      | None => Err SetInvalid
      | Some r => if negb (bool_decide (root = "")) && negb (bool_decide (root = r)) then Err SetInvalid else cache_root placements r
      end
  end.

Fixpoint host_cache_loop (w : Workload) (up : UpstreamExecution) (placements : list PlacementOverride) (parameters : gmap string any)
    (root : string) (resolved : gmap string any) (ps : list RecipeParameter) : result setting_error (gmap string any) :=
  match ps with
  | [] => Ok resolved
  | p :: ps =>
      if bool_decide (is_Some (parameters !! p_name p)) || negb (fillable p) || negb (hostCacheBinding w up (p_name p))
      then host_cache_loop w up placements parameters root resolved ps
      else
        root ← (if bool_decide (root = "") then cache_root (List.filter (executes w up) placements) "" else Ok root);
        if bool_decide (root = "") then Err SetInvalid
        else host_cache_loop w up placements parameters root (<[p_name p := AString root]> resolved) ps
  end.

Definition hostCacheDefaults (m : Manifest) (w : Workload) (up : UpstreamExecution) (placements : list PlacementOverride) (parameters : gmap string any)
    : result setting_error (gmap string any) :=
  host_cache_loop w up placements parameters "" parameters (m_parameters m).

(** *** The settings of the workers *)

Definition worker_fact (source : Source) (up : UpstreamExecution) (placements : list PlacementOverride) (node : string) (inv : Inventory) (fact : string)
    : result setting_error string :=
  if bool_decide (fact = "SSH") || bool_decide (fact = "HOST")
  then defaultWorkerSSH broker online inventory_of ask up placements node inv
  else workerSettingFact source_digest fact inv source.

Definition worker_step (m : Manifest) (source : Source) (up : UpstreamExecution) (placements : list PlacementOverride) (parameters : gmap string any)
    (resolved : gmap string any) (e : string * string) : result setting_error (gmap string any) :=
  match workerSettingBinding (fst e) with
  | None => Ok resolved
  | Some (rank, fact) =>
      match workerSettingParameter m (snd e) with
      | None => Ok resolved
      | Some p =>
          if bool_decide (is_Some (parameters !! p_name p)) then Ok resolved
          else match selectedWorkerSSHNode placements rank with
               | None => Err SetInvalid
               | Some node =>
                   match inventory_of node with
                   | None => Err SetInvalid
                   | Some inv =>
                       value ← worker_fact source up placements node inv fact;
                       match resolved !! p_name p with
                       | Some (AString previous) => if bool_decide (previous = value) then Ok resolved else Err SetInvalid
                       | Some _ => Err SetInvalid
                       | None => Ok (<[p_name p := AString value]> resolved)
                       end
                   end
               end
      end
  end.

Fixpoint worker_loop (m : Manifest) (source : Source) (up : UpstreamExecution) (placements : list PlacementOverride) (parameters : gmap string any)
    (resolved : gmap string any) (es : list (string * string)) : result setting_error (gmap string any) :=
  match es with
  | [] => Ok resolved
  | e :: es => resolved ← worker_step m source up placements parameters resolved e; worker_loop m source up placements parameters resolved es
  end.

(** The workload whose bindings count: the requested one, or the first that matches; an index outside the recipe is an error *)
Definition setting_workload (m : Manifest) (req : SettingsRequest) : result setting_error (option Workload) :=
  match sr_workload req with
  | Some i => if i <? 0 then Err SetInvalid
              else match m_workloads m !! Z.to_nat i with Some w => Ok (Some w) | None => Err SetInvalid end
  | None => Ok (snd <$> first_variant m nodes (sr_placements req) 0 (m_workloads m))
  end.

Definition deviceSettingDefaults (m : Manifest) (req : SettingsRequest) (parameters : gmap string any) : result setting_error (gmap string any) :=
  match m_source m with
  | None => Ok parameters
  | Some source =>
      if negb (existsb (λ p, negb (bool_decide (is_Some (parameters !! p_name p))) && fillable p) (m_parameters m)) then Ok parameters
      else
        match setting_workload m req with
        | Err e => Err e
        | Ok None => Ok parameters
        | Ok (Some w) =>
            match host_upstream w with
            | None => Ok parameters
            | Some up =>
                resolved ← hostCacheDefaults m w up (sr_placements req) parameters;
                if bool_decide (sr_placements req = []) then Ok resolved
                else worker_loop m source up (sr_placements req) parameters resolved (sorted_env (w_env w))
            end
        end
  end.

(** *** Effective values *)

Definition variant_declared (m : Manifest) (name value : string) : bool :=
  match VariantTable m !! name with Some declared => bool_decide (value ∈ declared) | None => false end.

(** The variant of an artifact: the requested one or its default *)
Definition chosen_variant (variants : gmap string string) (a : Artifact) : string :=
  let value := default "" (variants !! ar_name a) in if bool_decide (value = "") then ar_default a else value.

Fixpoint resolve_variants (m : Manifest) (variants : gmap string string) (resolved : gmap string string) (arts : list Artifact) : option (gmap string string) :=
  match arts with
  | [] => Some resolved
  | a :: arts =>
      if bool_decide (ar_variants a = []) then resolve_variants m variants resolved arts
      else
        let value := chosen_variant variants a in
        if variant_declared m (ar_name a) value then resolve_variants m variants (<[ar_name a := value]> resolved) arts else None
  end.

Definition effectiveLaunchValues (m : Manifest) (variants : gmap string string) (parameters : gmap string any)
    : option (gmap string string * gmap string any) :=
  if negb (forallb (λ e, variant_declared m (fst e) (snd e)) (map_to_list variants)) then None
  else
    resolved ← resolve_variants m variants ∅ (m_artifacts m);
    match EffectiveSettings format_float format_composite parse_float json_array m parameters with
    | Ok values => Some (resolved, values)
    | Err _ => None
    end.

(** The values a request supplies: its own, or those of a profile of the same recipe *)
Definition supplied (profiles : gmap string LaunchProfile) (digest : string) (req : SettingsRequest) : option (gmap string string * gmap string any) :=
  if bool_decide (sr_profile req = "") then Some (sr_variants req, sr_parameters req)
  else if negb (bool_decide (sr_variants req = ∅)) || negb (bool_decide (sr_parameters req = ∅)) then None
  else
    pf ← profiles !! sr_profile req;
    if bool_decide (pf_recipe pf = digest) then Some (pf_variants pf, pf_parameters pf) else None.

Definition resolveSettings (profiles : gmap string LaunchProfile) (m : Manifest) (digest : string) (req : SettingsRequest) (frozen : bool)
    : settings_outcome :=
  match supplied profiles digest req with
  | None => SettingsErr "profile"
  | Some (variants, parameters) =>
      match (if frozen then Ok parameters else deviceSettingDefaults m req parameters) with
      | Err SetSSH => SettingsNoSSH
      | Err SetInvalid => SettingsErr "device"
      | Ok parameters =>
          match effectiveLaunchValues m variants parameters with
          | Some (variants, values) => SettingsOk variants values
          | None => SettingsErr "values"
          end
      end
  end.

(** *** Saved profiles *)

Definition optional_when (f : RecipeParameter → bool) (p : RecipeParameter) : RecipeParameter :=
  mkParameter (p_name p) (p_type p) (p_default p) (p_format p) (p_optional p || f p) (p_sensitive p) (p_forbidden_args p) (p_argv_policy p)
    (p_forbidden_env p) (p_min p) (p_max p) (p_min_length p) (p_max_length p) (p_enum p).

(** Marks the first parameter of that name *)
Fixpoint mark_optional (name : string) (ps : list RecipeParameter) : list RecipeParameter :=
  match ps with
  | [] => []
  | p :: ps => if bool_decide (p_name p = name) then optional_when (λ _, true) p :: ps else p :: mark_optional name ps
  end.

Definition with_parameters (ps : list RecipeParameter) (m : Manifest) : Manifest :=
  mkManifest (m_model m) (m_source m) (m_node_count m) (m_accelerator m) (m_fabric m) (m_artifacts m) ps (m_workloads m) (m_assets m)
    (m_prepare m) (m_verify m).

Definition defer_binding (m : Manifest) (e : string * string) : Manifest :=
  match workerSettingBinding (fst e), workerSettingParameter m (snd e) with
  | Some _, Some p => with_parameters (mark_optional (p_name p) (m_parameters m)) m
  | _, _ => m
  end.

Definition defer_workload (m : Manifest) (w : Workload) : Manifest :=
  match host_upstream w with
  | None => m
  | Some up =>
      let m := with_parameters (optional_when (λ p, fillable p && hostCacheBinding w up (p_name p)) <$> m_parameters m) m in
      foldl defer_binding m (w_env w)
  end.

Definition deferProfileDeviceSettings (m : Manifest) : Manifest :=
  match m_source m with None => m | Some _ => foldl defer_workload m (m_workloads m) end.

Record ProfileStore := mkProfileStore { ps_recipes : gmap string Manifest; ps_profiles : gmap string LaunchProfile }.

Inductive profile_error := ErrProfile | ErrProfileRecipe | ErrProfileUnknown | ErrProfileConflict.

Definition validateLaunchProfileValues (s : ProfileStore) (digest : string) (variants : gmap string string) (parameters : gmap string any) : option profile_error :=
  match ps_recipes s !! digest with
  | None => Some ErrProfileRecipe
  | Some m => match effectiveLaunchValues (deferProfileDeviceSettings m) variants parameters with Some _ => None | None => Some ErrProfile end
  end.

(** The unique key of the table: another profile of the recipe with the name *)
Definition name_taken (s : ProfileStore) (id digest name : string) : bool :=
  existsb (λ e, negb (bool_decide (fst e = id)) && bool_decide (pf_recipe (snd e) = digest) && bool_decide (pf_name (snd e) = name))
    (map_to_list (ps_profiles s)).

Definition CreateLaunchProfile (id : string) (req : LaunchProfile) : ST ProfileStore profile_error LaunchProfile := λ s,
  if bool_decide (pf_name req = "") || bool_decide (pf_recipe req = "") then (Err ErrProfile, s)
  else match validateLaunchProfileValues s (pf_recipe req) (pf_variants req) (pf_parameters req) with
       | Some e => (Err e, s)
       | None => if bool_decide (is_Some (ps_profiles s !! id)) || name_taken s id (pf_recipe req) (pf_name req) then (Err ErrProfileConflict, s)
                 else (Ok req, mkProfileStore (ps_recipes s) (<[id := req]> (ps_profiles s)))
       end.

Definition UpdateLaunchProfile (id : string) (req : LaunchProfile) : ST ProfileStore profile_error LaunchProfile := λ s,
  match ps_profiles s !! id with
  | None => (Err ErrProfileUnknown, s)
  | Some existing =>
      if bool_decide (pf_name req = "") then (Err ErrProfile, s)
      else if negb (bool_decide (pf_recipe req = "")) && negb (bool_decide (pf_recipe req = pf_recipe existing)) then (Err ErrProfile, s)
      else match validateLaunchProfileValues s (pf_recipe existing) (pf_variants req) (pf_parameters req) with
           | Some e => (Err e, s)
           | None => let pf := mkProfile (pf_name req) (pf_recipe existing) (pf_variants req) (pf_parameters req) in
                     if name_taken s id (pf_recipe existing) (pf_name req) then (Err ErrProfileConflict, s)
                     else (Ok pf, mkProfileStore (ps_recipes s) (<[id := pf]> (ps_profiles s)))
           end
  end.

Definition DeleteLaunchProfile (id : string) : ST ProfileStore profile_error unit := λ s,
  match ps_profiles s !! id with
  | None => (Err ErrProfileUnknown, s)
  | Some _ => (Ok tt, mkProfileStore (ps_recipes s) (delete id (ps_profiles s)))
  end.
End settings.

(** ** What a launch runs with *)

Section resolve.
Context (ff : float → string) (fc : json → string) (pf : string → option float) (ja : string → option (list json)).
Context (broker : bool) (online : string → bool) (ask : string → SSHRequest → option SSHResult) (sd : Source → option string) (nodes : list PlanNode).
Notation home_of := (λ n, inventory_of nodes n ≫= hugging_face_home).

(** The values a device may give to a parameter: the Hugging Face home all nodes that execute have, or a fact of the one node of a worker's rank *)
Inductive device_value (m : Manifest) (placements : list PlacementOverride) (w : Workload) (up : UpstreamExecution) (source : Source) : string → string → Prop :=
| device_home p root :
    p ∈ m_parameters m → fillable p = true → hostCacheBinding w up (p_name p) = true →
    List.filter (executes w up) placements ≠ [] →
    (∀ pl, pl ∈ List.filter (executes w up) placements → home_of (ov_node pl) = Some root) →
    device_value m placements w up source (p_name p) root
| device_fact p key binding rank fact node inv x :
    p ∈ m_parameters m → fillable p = true → p_optional p = false → assoc key (w_env w) = Some binding →
    workerSettingBinding key = Some (rank, fact) → workerSettingParameter m binding = Some p →
    selectedWorkerSSHNode placements rank = Some node → inventory_of nodes node = Some inv →
    worker_fact broker online ask sd nodes source up placements node inv fact = Ok x →
    device_value m placements w up source (p_name p) x.

Lemma home_abs inv root : hugging_face_home inv = Some root → IsAbs root = true ∧ root ≠ "".
Proof.
  unfold hugging_face_home. rewrite fmap_Some. intros (r & [_ Hu]%find_some & ->). unfold usable_root in Hu.
  assert (IsAbs (ca_path r) = true) as Ha by (repeat apply andb_true_iff in Hu as [Hu ?]; done).
  unfold Clean. by rewrite Ha.
Qed.

Lemma cache_root_home placements root root' :
  cache_root nodes placements root = Ok root' →
  (∀ pl, pl ∈ placements → home_of (ov_node pl) = Some root') ∧ (root ≠ "" → root' = root) ∧ (placements = [] → root' = root).
Proof.
  revert root. induction placements as [|p placements IH]; intros root; simpl; [intros [= ->]; split_and!; [intros ? []%not_elem_of_nil|done|done]|].
  destruct (inventory_of nodes (ov_node p) ≫= hugging_face_home) as [r|] eqn:Er; [|done].
  destruct (negb _ && negb _) eqn:E; [done|]. intros (H1 & H2 & H3)%IH.
  assert (r ≠ "") as Hr by (apply bind_Some in Er as (inv & _ & Hi); by apply home_abs in Hi as [_ ?]).
  specialize (H2 Hr) as ->. split_and!; [|intros Hroot; by destruct (bool_decide_reflect (root = "")), (bool_decide_reflect (root = r))|done].
  intros pl [->|Hpl]%elem_of_cons; [done|by apply H1].
Qed.

Lemma workerSettingParameter_spec m binding p :
  workerSettingParameter m binding = Some p → p ∈ m_parameters m ∧ fillable p = true ∧ p_optional p = false.
Proof.
  unfold workerSettingParameter. destruct (_ || _); [done|]. rewrite bind_Some. intros (p' & [Hin _]%ParameterByName_spec & H).
  destruct (fillable p') eqn:Ef; [|done]. destruct (p_optional p') eqn:Eo; [done|]. by simplify_eq/=.
Qed.

Section completion.
Context (m : Manifest) (w : Workload) (up : UpstreamExecution) (source : Source) (placements : list PlacementOverride) (ps : gmap string any).

(** [resolved] is [ps] and values devices give to other parameters *)
Definition completion (resolved : gmap string any) : Prop :=
  ∃ device : gmap string string, resolved = ps ∪ (AString <$> device) ∧
    ∀ k x, device !! k = Some x → ps !! k = None ∧ device_value m placements w up source k x.

Lemma completion_refl : completion ps.
Proof. exists ∅. rewrite fmap_empty, map_union_empty. split; [done|]. intros k x. by rewrite lookup_empty. Qed.

Lemma completion_insert resolved k x :
  completion resolved → ps !! k = None → device_value m placements w up source k x → completion (<[k := AString x]> resolved).
Proof.
  intros (device & -> & Hd) Hk Hg. exists (<[k := x]> device). split.
  - rewrite fmap_insert, insert_union_r; done.
  - intros k' x'. rewrite lookup_insert. case_decide; [by intros [= <-]; subst|apply Hd].
Qed.

Lemma host_cache_completion root resolved params out :
  (∀ p, p ∈ params → p ∈ m_parameters m) →
  (root = "" ∨ (List.filter (executes w up) placements ≠ [] ∧
     ∀ pl, pl ∈ List.filter (executes w up) placements → home_of (ov_node pl) = Some root)) →
  completion resolved → host_cache_loop nodes w up placements ps root resolved params = Ok out → completion out.
Proof.
  revert root resolved. induction params as [|p params IH]; intros root resolved Hin Hroot Hc; simpl; [by intros [= <-]|].
  assert (∀ p, p ∈ params → p ∈ m_parameters m) as Hin' by set_solver.
  destruct (bool_decide_reflect (is_Some (ps !! p_name p))) as [|Hns]; [by apply IH|].
  destruct (fillable p) eqn:Ef; simpl; [|by apply IH]. destruct (hostCacheBinding w up (p_name p)) eqn:Eb; simpl; [|by apply IH].
  destruct (if bool_decide (root = "") then _ else _) as [root'|] eqn:Er; simpl; [|done].
  destruct (bool_decide_reflect (root' = "")) as [|Hne]; [done|].
  assert (List.filter (executes w up) placements ≠ [] ∧ ∀ pl, pl ∈ List.filter (executes w up) placements → home_of (ov_node pl) = Some root') as [Hf Hh].
  { destruct (bool_decide_reflect (root = "")); simplify_eq/=.
    - apply cache_root_home in Er as (H1 & _ & H3). split; [|done]. intros Hn. by specialize (H3 Hn).
    - by destruct Hroot. }
  apply IH; [done|by right|]. apply completion_insert; [done|by apply eq_None_not_Some|].
  apply device_home; auto with set_solver.
Qed.

Lemma worker_loop_completion es resolved out :
  (∀ e, e ∈ es → assoc e.1 (w_env w) = Some e.2) →
  completion resolved → worker_loop broker online ask sd nodes m source up placements ps resolved es = Ok out → completion out.
Proof.
  revert resolved. induction es as [|e es IH]; intros resolved He Hc; simpl; [by intros [= <-]|].
  destruct (worker_step _ _ _ _ _ _ _ _ _ _ _ _) as [r|] eqn:Es; simpl; [|done].
  apply IH; [set_solver|]. specialize (He e ltac:(set_solver)). revert Es. unfold worker_step.
  destruct (workerSettingBinding (fst e)) as [[rank fact]|] eqn:Eb; [|by intros [= <-]].
  destruct (workerSettingParameter m (snd e)) as [p|] eqn:Ep; [|by intros [= <-]].
  destruct (bool_decide_reflect (is_Some (ps !! p_name p))) as [|Hns]; [by intros [= <-]|].
  destruct (selectedWorkerSSHNode placements rank) as [node|] eqn:En; [|done].
  destruct (inventory_of nodes node) as [inv|] eqn:Ei; [|done].
  destruct (worker_fact _ _ _ _ _ _ _ _ _ _ _) as [x|] eqn:Ex; simpl; [|done].
  destruct (workerSettingParameter_spec _ _ _ Ep) as (Hp & Hf & Ho).
  destruct (resolved !! p_name p) as [a|]; [destruct a; try done; destruct (bool_decide _); [by intros [= <-]|done]|].
  intros [= <-]. apply completion_insert; [done|by apply eq_None_not_Some|]. by eapply device_fact.
Qed.
End completion.

Notation check := (checkParamValue ff fc pf ja).
Notation defaults := (deviceSettingDefaults broker online ask sd nodes).
Notation resolve := (resolveSettings ff fc pf ja broker online ask sd nodes).

(** The bindings of a workload of the recipe that runs the recipe's source on its hosts *)
Definition from_devices (m : Manifest) (placements : list PlacementOverride) (k x : string) : Prop :=
  ∃ source w up, m_source m = Some source ∧ w ∈ m_workloads m ∧ host_upstream w = Some up ∧ device_value m placements w up source k x.

Lemma setting_workload_declared m req w : setting_workload nodes m req = Ok (Some w) → w ∈ m_workloads m.
Proof.
  unfold setting_workload. destruct (sr_workload req) as [i|].
  - destruct (i <? 0); [done|]. destruct (m_workloads m !! Z.to_nat i) eqn:E; intros [= ->]. by eapply list_elem_of_lookup_2.
  - destruct (first_variant m nodes (sr_placements req) 0 (m_workloads m)) as [[j w']|] eqn:E; intros [= ->].
    apply first_variant_spec in E as [_ E]. by eapply list_elem_of_lookup_2.
Qed.

Lemma sorted_env_assoc env e : e ∈ sorted_env env → assoc (fst e) env = Some (snd e).
Proof. unfold sorted_env. rewrite list_elem_of_omap. by intros (k & _ & (v & Hv & ->)%fmap_Some). Qed.

Lemma deviceSettingDefaults_spec m req ps out :
  defaults m req ps = Ok out →
  ∃ device : gmap string string, out = ps ∪ (AString <$> device) ∧
    ∀ k x, device !! k = Some x → ps !! k = None ∧ from_devices m (sr_placements req) k x.
Proof.
  assert (∃ device : gmap string string, ps = ps ∪ (AString <$> device) ∧
    ∀ k x, device !! k = Some x → ps !! k = None ∧ from_devices m (sr_placements req) k x) as Hrefl.
  { exists ∅. rewrite fmap_empty, map_union_empty. split; [done|]. intros k x. by rewrite lookup_empty. }
  unfold deviceSettingDefaults. destruct (m_source m) as [source|] eqn:Es; [|by intros [= <-]].
  destruct (negb _); [by intros [= <-]|]. destruct (setting_workload nodes m req) as [[w|]|] eqn:Ew; [|by intros [= <-]|done].
  destruct (host_upstream w) as [up|] eqn:Eu; [|by intros [= <-]].
  destruct (hostCacheDefaults _ _ _ _ _ _) as [r|] eqn:Eh; simpl; [|done].
  apply (host_cache_completion m w up source (sr_placements req) ps) in Eh; [|done|by left|apply completion_refl].
  intros Hout. enough (completion m w up source (sr_placements req) ps out) as (device & -> & Hd).
  { exists device. split; [done|]. intros k x [? ?]%Hd. split; [done|]. exists source, w, up. by split_and!; [|eapply setting_workload_declared| |]. }
  destruct (bool_decide _); [by simplify_eq|]. eapply worker_loop_completion; [|exact Eh|exact Hout]. apply sorted_env_assoc.
Qed.

(** *** Variants *)

Lemma VariantTable_declared m k ds v : VariantTable m !! k = Some ds → v ∈ ds → ∃ a, a ∈ m_artifacts m ∧ ar_name a = k ∧ ar_variants a ≠ [].
Proof.
  unfold VariantTable. intros H Hv.
  enough (∀ (arts : list Artifact) (t : gmap string (list string)), t !! k = None →
    foldl (λ t a, <[ar_name a := av_name <$> ar_variants a]> t) t arts !! k = Some ds →
    ∃ a, a ∈ arts ∧ ar_name a = k ∧ ar_variants a ≠ []) as He by (by apply (He (m_artifacts m) ∅)).
  clear H. intros arts. induction arts as [|a arts IH] using rev_ind; intros t Ht; simpl; [congruence|].
  rewrite foldl_app. simpl. rewrite lookup_insert. case_decide as E.
  - intros [= <-]. exists a. split_and!; [set_solver|done|]. intros Ha. rewrite Ha in Hv. set_solver.
  - intros (a' & Ha' & ?)%IH; [|done]. exists a'. set_solver.
Qed.

Lemma resolve_variants_spec m vs resolved arts out :
  resolve_variants m vs resolved arts = Some out →
  (∀ k, out !! k = resolved !! k ∨ ∃ a, a ∈ arts ∧ ar_name a = k ∧ ar_variants a ≠ [] ∧ out !! k = Some (chosen_variant vs a) ∧ variant_declared m k (chosen_variant vs a) = true) ∧
  (∀ a, a ∈ arts → ar_variants a ≠ [] → is_Some (out !! ar_name a)).
Proof.
  revert resolved. induction arts as [|a arts IH]; intros resolved; simpl; [intros [= <-]; split; [by left|set_solver]|].
  destruct (bool_decide_reflect (ar_variants a = [])) as [Hn|Hn].
  - intros [H1 H2]%IH. split; [|set_solver]. intros k. destruct (H1 k) as [|(a' & ? & ?)]; [by left|right; exists a'; set_solver].
  - destruct (variant_declared m (ar_name a) (chosen_variant vs a)) eqn:Ev; [|done]. intros [H1 H2]%IH.
    assert (is_Some (out !! ar_name a)) as Ha.
    { destruct (H1 (ar_name a)) as [->|(a' & _ & _ & _ & -> & _)]; [rewrite lookup_insert_eq|]; by eexists. }
    split; [|intros a' [->|]%elem_of_cons; eauto]. intros k. destruct (H1 k) as [Hk|(a' & ? & ?)]; [|right; exists a'; set_solver].
    rewrite lookup_insert in Hk. case_decide; [|by left]. subst. right. exists a. split_and!; [set_solver|done..].
Qed.

Lemma effectiveLaunchValues_spec m vs ps variants values :
  effectiveLaunchValues ff fc pf ja m vs ps = Some (variants, values) →
  values = ps ∪ default_settings (m_parameters m) ∧
  (∀ k v, ps !! k = Some v → ∃ p, ParameterByName m k = Some p ∧ check p v = false) ∧
  (∀ p, p ∈ m_parameters m → p_optional p = false → is_Some (values !! p_name p)) ∧
  (∀ k v, vs !! k = Some v → v ≠ "" → variants !! k = Some v) ∧
  (∀ k v, variants !! k = Some v → variant_declared m k v = true) ∧
  ∀ a, a ∈ m_artifacts m → ar_variants a ≠ [] → is_Some (variants !! ar_name a).
Proof.
  unfold effectiveLaunchValues. destruct (forallb _ _) eqn:Ef; simpl; [|done].
  destruct (resolve_variants m vs ∅ (m_artifacts m)) as [out|] eqn:Er; simpl; [|done].
  pose proof (EffectiveSettings_cases ff fc pf ja m ps) as Hs.
  destruct (EffectiveSettings ff fc pf ja m ps) as [out'|]; [|done]. intros [= -> ->]. destruct Hs as (-> & Hs1 & Hs2).
  apply resolve_variants_spec in Er as [H1 H2]. split_and!; [done..| | |done].
  - intros k v Hv Hne. rewrite forallb_forall in Ef. specialize (Ef (k, v)). simpl in Ef.
    assert (variant_declared m k v = true) as Hd by (apply Ef, list_elem_of_In; by apply elem_of_map_to_list).
    unfold variant_declared in Hd. destruct (VariantTable m !! k) as [ds|] eqn:Et; [|done]. apply bool_decide_eq_true in Hd.
    destruct (VariantTable_declared m k ds v Et Hd) as (a & Ha & <- & Hn).
    destruct (H1 (ar_name a)) as [Hk|(a' & _ & Hk' & _ & -> & _)]; [destruct (H2 a Ha Hn) as [? Hk2]; by rewrite Hk in Hk2|].
    unfold chosen_variant. rewrite Hk', Hv. simpl. by rewrite bool_decide_eq_false_2.
  - intros k v Hv. destruct (H1 k) as [Hk|(a & _ & _ & _ & Hk & Hd)]; [by rewrite Hk in Hv|]. congruence.
Qed.

End resolve.

(** ** Saved profiles *)

Section profiles.
Context (ff : float → string) (fc : json → string) (pf : string → option float) (ja : string → option (list json)).
Notation effective := (effectiveLaunchValues ff fc pf ja).
Notation check := (checkParamValue ff fc pf ja).

(** The same parameter, but optional if a device may fill it in *)
Definition deferred (p p' : RecipeParameter) : Prop := ∃ b, p' = optional_when (λ _, b) p ∧ (b = true → fillable p = true).

Lemma deferred_refl p : deferred p p.
Proof. exists false. split; [|done]. destruct p. unfold optional_when. simpl. by rewrite orb_false_r. Qed.

Lemma deferred_trans p p' p'' : deferred p p' → deferred p' p'' → deferred p p''.
Proof.
  intros (b & -> & Hb) (b' & -> & Hb'). exists (b || b'). split; [unfold optional_when; simpl; by rewrite orb_assoc|].
  destruct b; [by auto|]. simpl. intros ->. by apply Hb'.
Qed.

#[local] Instance deferred_preorder : PreOrder deferred.
Proof. split; [exact deferred_refl|exact deferred_trans]. Qed.

(** [m'] is [m] with deferred parameters *)
Definition defers (m m' : Manifest) : Prop :=
  Forall2 deferred (m_parameters m) (m_parameters m') ∧ m' = with_parameters (m_parameters m') m.

#[local] Instance defers_preorder : PreOrder defers.
Proof.
  split.
  - intros m. split; [by apply reflexivity|by destruct m].
  - intros m m' m'' [H1 ->] [H2 ->]. split; [by etrans|done].
Qed.

Lemma defer_all m f : (∀ p, f p = true → fillable p = true) → defers m (with_parameters (optional_when f <$> m_parameters m) m).
Proof.
  intros Hf. split; [|done]. simpl. apply Forall2_fmap_r. induction (m_parameters m) as [|p ps IH]; constructor; [|done]. exists (f p). split; [done|apply Hf].
Qed.

Lemma mark_optional_deferred name ps p :
  find (λ p, bool_decide (p_name p = name)) ps = Some p → fillable p = true → Forall2 deferred ps (mark_optional name ps).
Proof.
  induction ps as [|q ps IH]; simpl; [done|]. destruct (bool_decide (p_name q = name)).
  - intros [= ->] Hf. constructor; [by exists true|by apply reflexivity].
  - intros. constructor; [by apply deferred_refl|by apply IH].
Qed.

Lemma defer_binding_defers m e : defers m (defer_binding m e).
Proof.
  unfold defer_binding. destruct (workerSettingBinding (fst e)) as [[]|]; [|done]. destruct (workerSettingParameter m (snd e)) as [q|] eqn:Ep; [|done].
  split; [|done]. simpl. unfold workerSettingParameter in Ep. destruct (_ || _); [done|].
  apply bind_Some in Ep as (p' & Hp' & Ep). destruct (fillable p') eqn:Ef; [|done]. destruct (negb _); simplify_eq/=.
  pose proof (ParameterByName_spec _ _ _ Hp') as [_ Hn]. unfold ParameterByName in Hp'. rewrite <- Hn in Hp'. by eapply mark_optional_deferred.
Qed.

Lemma foldl_defers {A} (f : Manifest → A → Manifest) (l : list A) m : (∀ m x, defers m (f m x)) → defers m (foldl f m l).
Proof. intros Hf. revert m. induction l as [|x l IH]; intros m; simpl; [done|]. by etrans; [apply Hf|apply IH]. Qed.

Lemma deferProfile_defers m : defers m (deferProfileDeviceSettings m).
Proof.
  unfold deferProfileDeviceSettings. destruct (m_source m); [|done]. apply foldl_defers. clear. intros m w. unfold defer_workload.
  destruct (host_upstream w) as [up|]; [|done]. etrans; [apply defer_all|apply foldl_defers, defer_binding_defers].
  by intros p [? _]%andb_true_iff.
Qed.

Lemma ParameterByName_defers m m' k p' : defers m m' → ParameterByName m' k = Some p' → ∃ p, ParameterByName m k = Some p ∧ deferred p p'.
Proof.
  intros [H _]. unfold ParameterByName. induction H as [|p q ps qs Hpq H IH]; simpl; [done|].
  assert (p_name q = p_name p) as -> by (by destruct Hpq as (b & -> & _)).
  case_bool_decide; [intros [= <-]; by exists p|done].
Qed.

Lemma default_settings_defers m m' : defers m m' → default_settings (m_parameters m') = default_settings (m_parameters m).
Proof.
  intros [H _]. unfold default_settings. generalize (∅ : gmap string any). induction H as [|p q ps qs Hpq H IH]; intros out; simpl; [done|].
  rewrite IH. by destruct Hpq as (b & -> & _).
Qed.

Lemma variants_defers m m' vs resolved : defers m m' → resolve_variants m' vs resolved (m_artifacts m') = resolve_variants m vs resolved (m_artifacts m).
Proof.
  intros [_ ->]. simpl. revert resolved. induction (m_artifacts m) as [|a arts IH]; intros resolved; simpl; [done|]. by rewrite !IH.
Qed.

(** What was valid with deferred parameters is valid without, up to a missing device setting *)
Lemma effective_defers m m' vs ps ds :
  defers m m' → is_Some (effective m' vs ps) → (∀ k v, ds !! k = Some v → ps !! k = None) →
  is_Some (effective m vs (ps ∪ ds)) ∨
  (∃ p, p ∈ m_parameters m ∧ fillable p = true ∧ p_optional p = false ∧ (ps ∪ ds) !! p_name p = None) ∨
  ∃ k v, ds !! k = Some v ∧ ∀ p, ParameterByName m k = Some p → check p v = true.
Proof.
  intros Hm Hs Hds. revert Hs. unfold effectiveLaunchValues. rewrite (variants_defers m m') by done.
  assert (forallb (λ e, variant_declared m' e.1 e.2) (map_to_list vs) = forallb (λ e, variant_declared m e.1 e.2) (map_to_list vs)) as ->
    by (by destruct Hm as [_ ->]).
  destruct (forallb _ (map_to_list vs)); [|by intros [? ?]].
  simpl. destruct (resolve_variants m vs ∅ (m_artifacts m)) as [variants|]; simpl; [|by intros [? ?]].
  pose proof (EffectiveSettings_cases ff fc pf ja m' ps) as H'. pose proof (EffectiveSettings_cases ff fc pf ja m (ps ∪ ds)) as H.
  destruct (EffectiveSettings ff fc pf ja m' ps) as [out'|]; [|by intros [? ?]]. intros _. destruct H' as (_ & H1 & H2).
  destruct (EffectiveSettings ff fc pf ja m (ps ∪ ds)) as [out|]; [left; by eexists|]. right. destruct H as [(k & v & Hk & Hc)|(p & Hp & Ho & Hn)].
  - apply lookup_union_Some_raw in Hk as [Hk|[Hk Hk']]; [|right; by exists k, v].
    destruct (H1 k v Hk) as (p' & Hp' & Hv). destruct (ParameterByName_defers _ _ _ _ Hm Hp') as (p & Hp & b & -> & _).
    specialize (Hc p Hp). change (check (optional_when (λ _, b) p) v) with (check p v) in Hv. congruence.
  - left. apply lookup_union_None in Hn as [Hn Hd]. exists p. split_and!; [done| |done..].
    apply list_elem_of_lookup in Hp as [i Hi]. destruct (Forall2_lookup_l _ _ _ _ _ (proj1 Hm) Hi) as (p' & Hi' & b & -> & Hb).
    destruct b; [by apply Hb|]. destruct (H2 _ (list_elem_of_lookup_2 _ _ _ Hi')) as [v Hv]; [simpl; by rewrite Ho|].
    apply lookup_union_None in Hn as [Hn _]. rewrite (default_settings_defers m m') in Hv by done. simpl in Hv.
    by rewrite lookup_union, Hn, Hd in Hv.
Qed.

(** *** The store *)

Inductive profile_op := OpCreate (id : string) (req : LaunchProfile) | OpUpdate (id : string) (req : LaunchProfile) | OpDelete (id : string).

Definition profile_step (s : ProfileStore) (op : profile_op) : ProfileStore :=
  match op with
  | OpCreate id req => snd (CreateLaunchProfile ff fc pf ja id req s)
  | OpUpdate id req => snd (UpdateLaunchProfile ff fc pf ja id req s)
  | OpDelete id => snd (DeleteLaunchProfile id s)
  end.

(** A stored profile is named and fits its recipe *)
Definition profile_ok (s : ProfileStore) (p : LaunchProfile) : Prop :=
  pf_name p ≠ "" ∧ ∃ m, ps_recipes s !! pf_recipe p = Some m ∧
    is_Some (effective (deferProfileDeviceSettings m) (pf_variants p) (pf_parameters p)).

Record profiles_ok (s : ProfileStore) : Prop := {
  po_valid id p : ps_profiles s !! id = Some p → profile_ok s p;
  po_unique id id' p p' : ps_profiles s !! id = Some p → ps_profiles s !! id' = Some p' →
    pf_recipe p = pf_recipe p' → pf_name p = pf_name p' → id = id';
}.

Lemma validate_ok s digest vs ps :
  validateLaunchProfileValues ff fc pf ja s digest vs ps = None →
  ∃ m, ps_recipes s !! digest = Some m ∧ is_Some (effective (deferProfileDeviceSettings m) vs ps).
Proof.
  unfold validateLaunchProfileValues. destruct (ps_recipes s !! digest) as [m|]; [|done].
  destruct (effective _ _ _) eqn:E; [|done]. intros _. exists m. split; [done|]. by eexists.
Qed.

Lemma name_free s id digest name id' p :
  name_taken s id digest name = false → ps_profiles s !! id' = Some p → pf_recipe p = digest → pf_name p = name → id' = id.
Proof.
  unfold name_taken. intros H Hp Hd Hn. destruct (decide (id' = id)) as [|Hne]; [done|]. exfalso.
  enough (existsb (λ e, negb (bool_decide (e.1 = id)) && bool_decide (pf_recipe e.2 = digest) && bool_decide (pf_name e.2 = name)) (map_to_list (ps_profiles s)) = true) by congruence.
  apply existsb_exists. exists (id', p). split; [by apply list_elem_of_In, elem_of_map_to_list|]. simpl.
  by rewrite bool_decide_eq_false_2, !bool_decide_eq_true_2.
Qed.

Lemma profiles_ok_insert s id p :
  profiles_ok s → profile_ok s p → name_taken s id (pf_recipe p) (pf_name p) = false →
  profiles_ok (mkProfileStore (ps_recipes s) (<[id := p]> (ps_profiles s))).
Proof.
  intros [Hv Hu] Hp Ht. split; simpl.
  - intros id' p'. rewrite lookup_insert. case_decide; [by intros [= <-]|apply Hv].
  - intros id1 id2 p1 p2. rewrite !lookup_insert. case_decide; case_decide; subst; [done|intros [= <-] ? ? ?; symmetry; by eapply name_free|intros ? [= <-] ? ?; by eapply name_free|by apply Hu].
Qed.

Lemma profiles_ok_delete s id : profiles_ok s → profiles_ok (mkProfileStore (ps_recipes s) (delete id (ps_profiles s))).
Proof.
  intros [Hv Hu]. split; simpl.
  - intros id' p' [_ H]%lookup_delete_Some. by apply (Hv id').
  - intros id1 id2 p1 p2 [_ H1]%lookup_delete_Some [_ H2]%lookup_delete_Some. by apply Hu.
Qed.

(** One operation keeps the store in order, the recipes, and the recipe of every profile it does not remove *)
Lemma profile_step_ok s op :
  profiles_ok s → profiles_ok (profile_step s op) ∧ ps_recipes (profile_step s op) = ps_recipes s ∧
  ∀ id p p', ps_profiles s !! id = Some p → ps_profiles (profile_step s op) !! id = Some p' → pf_recipe p' = pf_recipe p.
Proof.
  intros Hs. assert (∀ id p p', ps_profiles s !! id = Some p → ps_profiles s !! id = Some p' → pf_recipe p' = pf_recipe p) as Hid by congruence.
  destruct op as [id req|id req|id]; simpl.
  - unfold CreateLaunchProfile. destruct (bool_decide_reflect (pf_name req = "")) as [|Hn]; [done|].
    destruct (bool_decide_reflect (pf_recipe req = "")); [done|]. simpl. destruct (validateLaunchProfileValues _ _ _ _ _ _ _ _) eqn:E; [done|].
    destruct (bool_decide_reflect (is_Some (ps_profiles s !! id))) as [|Hf]; [done|]. destruct (name_taken _ _ _ _) eqn:Et; [done|]. simpl.
    split_and!; [apply profiles_ok_insert; [done|split; [done|by apply validate_ok]|done]|done|].
    intros id' p p' Hp. rewrite lookup_insert. case_decide; [subst; by rewrite Hp in Hf; destruct Hf|]. by intros ?; simplify_eq.
  - unfold UpdateLaunchProfile. destruct (ps_profiles s !! id) as [existing|] eqn:Ee; [|done].
    destruct (bool_decide_reflect (pf_name req = "")) as [|Hn]; [done|]. destruct (negb _ && negb _); [done|].
    destruct (validateLaunchProfileValues _ _ _ _ _ _ _ _) eqn:E; [done|]. destruct (name_taken _ _ _ _) eqn:Et; [done|]. simpl.
    split_and!; [apply profiles_ok_insert; [done|split; [done|by apply validate_ok]|done]|done|].
    intros id' p p' Hp. rewrite lookup_insert. case_decide; [subst; intros [= <-]; simpl; congruence|]. by intros ?; simplify_eq.
  - unfold DeleteLaunchProfile. destruct (ps_profiles s !! id); [|done]. simpl. split_and!; [by apply profiles_ok_delete|done|].
    intros id' p p' Hp [_ ?]%lookup_delete_Some. by simplify_eq.
Qed.

Lemma profile_ops_ok recipes ops :
  let s := foldl profile_step (mkProfileStore recipes ∅) ops in profiles_ok s ∧ ps_recipes s = recipes.
Proof.
  induction ops as [|op ops IH] using rev_ind; simpl.
  - split; [|done]. split; simpl; intros id; [intros p|intros id' p p']; by rewrite lookup_empty.
  - rewrite foldl_app. simpl. destruct IH as [H1 H2]. destruct (profile_step_ok _ op H1) as (? & -> & _). done.
Qed.

(** However profiles are created, changed and removed, every stored profile has a name, which no other profile of
    its recipe has, belongs to a recipe of the library, and holds variants and parameters that this recipe accepts, up
    to the settings a device fills in; and the recipe of a profile is pinned: no operation that leaves the profile in
    the store moves it to another recipe. *)
Theorem profiles_kept recipes ops op :
  let s := foldl profile_step (mkProfileStore recipes ∅) ops in
  profiles_ok s ∧ ps_recipes s = recipes ∧
  ∀ id p p', ps_profiles s !! id = Some p → ps_profiles (profile_step s op) !! id = Some p' → pf_recipe p' = pf_recipe p.
Proof. intros s. destruct (profile_ops_ok recipes ops) as [H1 H2]. split_and!; [done..|]. by apply profile_step_ok. Qed.

Section launch.
Context (broker : bool) (online : string → bool) (ask : string → SSHRequest → option SSHResult) (sd : Source → option string) (nodes : list PlanNode).

End launch.
End profiles.

(** ** A concrete recipe with a head and a worker *)

Definition string_parameter (name : string) (d : any) : RecipeParameter :=
  mkParameter name "string" d "" false false [] "" [] None None None None [].

Definition cluster_workload : Workload :=
  mkWorkload None (mkImage "" "") [] [("HF_HOME", "${setting.cache}"); ("WORKER_USER", "${setting.worker_user}"); ("WORKER_HOME", "${setting.worker_home}")]
    [] 0 None None "" [0; 1] "" None None None ["host.upstream-exec"] (Some ssh_execution).

Definition cluster_recipe : Manifest :=
  mkManifest "" (Some (mkSource "https://example.org/engine.git" "0123" "" "")) 2 None None []
    [string_parameter "cache" ANil; string_parameter "worker_user" ANil; string_parameter "worker_home" ANil; string_parameter "engine" (AString "fast")]
    [cluster_workload] [] None None.

Definition cluster_node (node name : string) (roots : list CacheRoot) : PlanNode :=
  mkPlanNode node node "online" (Reported (mkInventory [] [] [] roots "" [] name "/home" "/srv")).

(** Only the head has a writable home for models; the worker's account is reported *)
Definition cluster_nodes : list PlanNode := [cluster_node "a" "alice" [mkCacheRoot "/data/hub" "huggingface" true; mkCacheRoot "/data/hf/" "huggingface" true]; cluster_node "b" "bob" []].

Definition cluster_request (profile : string) (parameters : gmap string any) : SettingsRequest :=
  mkSettingsRequest profile ∅ parameters None [mkOverride "a" 0; mkOverride "b" 1].

Definition cluster_resolve (profiles : gmap string LaunchProfile) (req : SettingsRequest) : settings_outcome :=
  resolveSettings (λ _, "") (λ _, "") (λ _, None) (λ _, None) true (λ _, true) (λ _ _, None) (λ _, None) cluster_nodes profiles cluster_recipe "sha256:r" req false.


Definition cluster_ops : list profile_op :=
  [OpCreate "p" (mkProfile "nightly" "sha256:r" ∅ {["worker_user" := AString "root"]});
   OpCreate "q" (mkProfile "nightly" "sha256:r" ∅ ∅);
   OpCreate "q" (mkProfile "other" "sha256:r" ∅ ∅);
   OpUpdate "q" (mkProfile "nightly" "" ∅ ∅);
   OpUpdate "p" (mkProfile "weekly" "" ∅ {["worker_user" := AString "bob"]});
   OpDelete "q"].

Definition cluster_profiles : ProfileStore :=
  foldl (profile_step (λ _, "") (λ _, "") (λ _, None) (λ _, None)) (mkProfileStore {["sha256:r" := cluster_recipe]} ∅) cluster_ops.

Definition weekly : LaunchProfile := mkProfile "weekly" "sha256:r" ∅ {["worker_user" := AString "bob"]}.

(** The second profile of the name and the rename onto it were refused *)
Lemma profiles_kept_witness :
  map_to_list (ps_profiles cluster_profiles) = [("p", weekly)] ∧ profiles_ok (λ _, "") (λ _, "") (λ _, None) (λ _, None) cluster_profiles.
Proof.
  split; [vm_compute; reflexivity|].
  exact (proj1 (profiles_kept (λ _, "") (λ _, "") (λ _, None) (λ _, None) {["sha256:r" := cluster_recipe]} cluster_ops (OpDelete "p"))).
Defined.

